(* ===== verification/_CoqProject ===== *)
-Q . S2P
Prelude.v
GoStrings.v
GoStringFacts.v
GoErrors.v
NamedList.v
VaultBlob.v
FailurePolicy.v
MachineContract.v
ContractFacts.v
Config.v
JumpChain.v
ValueStream.v
ValueStreamFacts.v
GoRegexp.v
Redaction.v
RedactionFacts.v
RunOutput.v
RedactionExamples.v
SyncProtocol.v
RemoteCommand.v
PosixShell.v
ShellQuoting.v
KnownHosts.v
KnownHostsFacts.v
SshDial.v
SshDialFacts.v
RemoteRun.v
RemoteRunFacts.v
Suggest.v
CommandLine.v
CommandLineFacts.v
FanOut.v
RemoteShell.v
Upload.v
UploadFacts.v
TransferFacts.v
Resume.v
ResumeFacts.v
Download.v
DirectoryTransfer.v
DirectoryTransferFacts.v
Copy.v
CopyFacts.v
TransferExamples.v
RemoteExamples.v
Release.v
ReleaseFacts.v
FileWorld.v
PrivateFiles.v
PrivateFilesFacts.v
HostKeyAccept.v
HostKeyAcceptFacts.v
KnownHostsUpdateFacts.v
PrivateFilesExamples.v
UnixReplace.v
UnixReplaceFacts.v
SyncServer.v
SyncServerFacts.v
Ledger.v
LedgerFacts.v
ProjectionFacts.v
HostMutation.v
HostMutationFacts.v
PublishingIntent.v
Cloud.v
SyncWorld.v
SyncSchedule.v
SyncTransaction.v
SyncLogic.v
SyncTransactionFacts.v
SyncScheduleFacts.v
Publication.v
PublicationFacts.v
SyncInstances.v
LedgerExamples.v
Examples.v
Update.v
Migration.v
ReleaseExamples.v
SyncExamples.v
