(* ===== verification/Prelude.v ===== *)
(** * A verification library for ssm, the encrypted SSH connection manager

    ssm keeps an inventory of SSH hosts and keys in an encrypted vault, runs commands and
    scripts on those hosts, synchronizes the vault through a small server, and updates
    itself. This library translates its Go code into executable Rocq definitions and
    proves what the code relies on and promises. File names below are relative to
    [src/internal].

    ** The parts and how they meet

    - The inventory. [config] holds the data, the vault file and its generation counter;
      [inventorytransaction] changes the inventory through a ledger of pending mutations,
      projects a selection of them and publishes it. Config, JumpChain and VaultBlob model
      the data, redirects, jump chains and the file format; Ledger, HostMutation,
      PublishingIntent and Publication model the transactions.
    - Synchronization. [syncserver] stores one blob per account behind entity tags, [cloud]
      is its client, and [synctransaction] decides when to pull, adopt or refuse. SyncServer
      and Cloud model both ends of the protocol of SyncProtocol; SyncWorld is the process
      and its disk, SyncSchedule the persistent schedule, SyncTransaction the operations.
      Publication uses the same world, so that a push and a pull see the same files.
    - Remote runs. [ssh] quotes a command or prepares a script (RemoteCommand), dials hop
      by hop with the trust of known_hosts (KnownHosts, SshDial), acquires a session and
      runs (RemoteRun). CommandLine is the parsing in [../cmd/ssm] that leads there, with
      the suggestions for misspelled names (Suggest); FanOut is what a parsed run does on
      one host and, in parallel, on many.
    - Host keys. HostKeyAccept shows the key of a host without sending it a credential and
      records an accepted key in known_hosts; PrivateFiles writes the private files of the
      configuration and the server. Both are file-system programs over FileWorld.
    - Transfers. A file is sent through a shell script that receives, checks and renames it
      (Upload), or that appends the rest of an interrupted one (Resume); RemoteShell is the
      language of these scripts and what a POSIX shell does with them. Download and
      DirectoryTransfer bring files and directories back through staging names, and send
      directories. Copy sends a file from host to host: relayed through this machine, or
      pushed by the source with an agent that holds the destination's key for one command.
    - Diagnostics. [machinecontract] classifies every failure by one table (FailurePolicy,
      MachineContract) and redacts what it prints (ValueStream, Redaction, GoRegexp);
      RunOutput joins them to the output of a run.
    - Updates. [update] selects and checks a release (Release) and replaces the executable
      on Unix (FileWorld, UnixReplace); Update composes the two, and Migration is the review
      that an update across a major version needs.

    ** How the code is translated

    A function of the code is a function of the same name; its guards, their order and its
    early returns are kept. State is explicit: the client and the server of the protocol
    are step functions and relations over records, the synchronizing process, the dialing
    process and the file-system programs are small state monads ([M], [D], [R], [P], [HK]) whose
    every call of the operating system or the network is one step. Errors are the values
    of GoErrors or, where classification looks into them, of [sshError]. Integers are [Z]
    with the wrap-around of [int64] written out where it can matter (Release, SyncSchedule,
    RemoteRun). A map is a [gmap], unless its order shows; then the order is an argument.

    What is not part of the repository is a class with its documented laws: Argon2id and
    AES-GCM ([VaultCrypto]), SHA-256, bcrypt, JSON encoders, [time.Time], Unicode case
    mapping, the [knownhosts] package and the SSH handshake ([NetworkLaws]), the sync
    service as its client sees it ([SyncService], which SyncExamples instantiates
    with the modelled server). Every theorem that assumes such laws has a witness on a
    concrete instance, in the files named Examples.

    ** What the theorems show

    - Publication is write-ahead and finalization follows confirmation (PublicationFacts);
      pulls keep local work (SyncTransactionFacts); pushes lose no update (SyncServerFacts);
      the schedule never disables itself and its claims exclude each other
      (SyncScheduleFacts); the client concludes what an answer allows (Cloud). The
      first of these are proved with the rely-guarantee logic of SyncLogic, in which other
      processes may change the disk between two steps.
    - The ledger stays truthful through every mutation, import, publication and
      finalization (LedgerFacts, ProjectionFacts, HostMutationFacts): replaying it from its
      base gives the working inventory, and no key reference dangles. A host mutation
      changes the connection of its alias and at most the key that only this connection
      uses; when the save fails after its rename, the vault is stored and an error returned.
    - A command line reaches the remote program word for word: ShellQuoting proves it
      against PosixShell, a reference tokenizer of the POSIX shell. Credentials go to
      trusted hosts only and a command runs at most once, whatever the network answers
      (SshDialFacts, RemoteRunFacts). Replacing a known_hosts entry touches nothing else,
      when its host list is ASCII without an empty name
      (KnownHostsFacts), and is atomic (KnownHostsUpdateFacts); a key is only recorded after
      the given fingerprint was seen in two handshakes (HostKeyAcceptFacts).
    - The words of a remote command are never taken for options, what parses is well
      formed, and the output mode chosen before parsing is the final one
      (CommandLineFacts). The parallel run keeps its bound, ends when its jobs do and misses
      none (a job is one step there: a command without a time limit may never end), and one
      script on one host is the same run as a map of one job (FanOut). Suggestions are the
      nearest names by the least number of edits (Suggest).
    - Private files are written by one rename or not at all (PrivateFilesFacts).
    - The command lines of a transfer are the texts of its scripts (ResumeFacts). Whatever
      interrupts a script, the remote file is the old one or the complete new one, when its
      name is data in double quotes, and the client reports success only for the second
      (UploadFacts, TransferFacts, ResumeFacts, by the Hoare logic of RemoteShell); a resumed
      upload continues only a partial file with the digest of the local prefix. Downloads leave the old file or tree, or the whole
      new one, in every state they go through (Download, DirectoryTransferFacts). A copy
      between hosts succeeds only when source, relay and destination agree on the digest,
      and a direct one needs its confirmation, exposes only the destination's key and
      withdraws it (CopyFacts).
    - Redaction is one pass over the input however it is split, and hides every value
      (ValueStreamFacts, RedactionFacts).
    - Classification gives every failure a stable code and a non-zero exit, and a lost
      connection is only reported on evidence (ContractFacts).
    - An update installs only verified bytes, never loses the original and, alone, refines
      an atomic replacement (ReleaseFacts, UnixReplaceFacts, Update).
      It crosses a major version only as reviewed and confirmed (Migration), where a vault
      that cannot be inspected counts as none.
      FileWorld has the rely-guarantee logic of the file-system programs.

    ** Bounds and fuel

    Loops that are not structural take a bound that is proved enough or comes from the
    code: resolving a jump chain makes at most one round more than [MaxJumpDepth] and
    following redirects one per redirect, and [jump_chain_is_the_path] excludes running
    out; [collect] visits the ledger once per entry; [release_loop] and [write_lines]
    recurse on the length of what they hold; copying a file allows [2 ^ copy_rounds]
    chunks, more than the largest executable the code accepts has bytes; a temporary file
    is tried [tries] = 10000 times, as [os.CreateTemp] does; doubling loops take the number
    of attempts. Waiting for a session slot takes [rounds], an argument: a round lasts at
    least 12.5 ms within [DialTimeout()], so some number is enough for every run.

    ** Not modelled

    The replacement of an executable on Windows (handles, sharing modes, ACLs, a recovery
    journal), file locks below the calls that use them, private paths on Windows, the
    listener of the server, terminal layouts and redaction by reflection are calls of an
    operating system or of [reflect]. Of the command line ([cmd/ssm]) the runs are
    modelled; the options of the other commands, the prompts and the texts of help are not.
    [cmd/verify] is a build-time tool. Build provenance reads what the linker wrote. In
    RemoteShell paths are compared as texts and the shell of the host is a POSIX shell that
    no other process disturbs. The message about a directory puts the name in double quotes:
    a name with a dollar sign, a backquote or a backslash is expanded there, with any effect
    ([expand]); that a quote in it, or an expansion that does not end, changes how the rest
    of the script is read is not modelled ([name_in_double_quotes] in TransferExamples). SFTP, tunnels, keepalive and waiting for
    a host are not modelled: they drive channels of the SSH and SFTP packages concurrently,
    and most of what they do is the behaviour of those. *)

From stdpp Require Export base tactics option list sorting strings gmap.
From Stdlib Require Export ZArith Lia.

Declare Scope ssm_scope.
Delimit Scope ssm_scope with ssm.

Create HintDb ssm discriminated.

(** ** Tactics *)

(** [bool_to_prop] turns the boolean tests the code writes into the
    propositions they decide. *)
Ltac bool_to_prop :=
  repeat match goal with
  | H : andb _ _ = true |- _ => apply andb_true_iff in H; destruct H
  | H : orb _ _ = false |- _ => apply orb_false_iff in H; destruct H
  | H : negb _ = true |- _ => apply negb_true_iff in H
  | H : negb _ = false |- _ => apply negb_false_iff in H
  | H : bool_decide _ = true |- _ => apply bool_decide_eq_true_1 in H
  | H : bool_decide _ = false |- _ => apply bool_decide_eq_false_1 in H
  | H : Z.eqb _ _ = true |- _ => apply Z.eqb_eq in H
  | H : Z.eqb _ _ = false |- _ => apply Z.eqb_neq in H
  | H : Z.ltb _ _ = true |- _ => apply Z.ltb_lt in H
  | H : Z.ltb _ _ = false |- _ => apply Z.ltb_ge in H
  | H : Z.leb _ _ = true |- _ => apply Z.leb_le in H
  | H : Z.leb _ _ = false |- _ => apply Z.leb_gt in H
  | H : Nat.ltb _ _ = true |- _ => apply Nat.ltb_lt in H
  | H : Nat.ltb _ _ = false |- _ => apply Nat.ltb_ge in H
  | H : Nat.leb _ _ = true |- _ => apply Nat.leb_le in H
  | H : Nat.leb _ _ = false |- _ => apply Nat.leb_gt in H
  end.

(** [case_all] splits every [match] and [if] of the goal, discharging the
    branches that contradict the context. *)
Ltac case_all :=
  repeat (case_match; simplify_eq/=; try done).

(** ** Lists *)

Lemma filter_all {A} (P : A → Prop) `{∀ x, Decision (P x)} l : Forall P l → filter P l = l.
Proof.
  induction 1 as [|x l Hx _ IH]; [done|]. by rewrite filter_cons_True, IH by done.
Qed.

Lemma filter_none {A} (P : A → Prop) `{∀ x, Decision (P x)} l :
  Forall (λ x, ¬ P x) l → filter P l = [].
Proof.
  induction 1 as [|x l Hx _ IH]; [done|]. by rewrite filter_cons_False, IH by done.
Qed.

(** ** Stable sorting by a string key

    Go's [sort.SliceStable] and [sort.Strings] order strings by bytes, which is
    [String.ltb]; the result of a stable sort is determined by the input, so the
    insertion sort below stands for whichever algorithm the library uses. *)
Section sort_by.
Context {A : Type} (key : A → string).

Fixpoint insert_by (x : A) (l : list A) : list A :=
  match l with
  | [] => [x]
  | y :: l' =>
      if String.ltb (key y) (key x) then y :: insert_by x l' else x :: y :: l'
  end.

Fixpoint sort_by (l : list A) : list A :=
  match l with
  | [] => []
  | x :: l' => insert_by x (sort_by l')
  end.

Abbreviation at_key k := (filter (λ x : A, key x = k)).
Abbreviation key_le := (λ x y : A, String.le (key x) (key y)).

Lemma ltb_true_le (a b : string) : String.ltb a b = true → String.le a b.
Proof.
  unfold String.le, String.leb, String.ltb. by destruct (String.compare a b).
Qed.

Lemma ltb_false_le (a b : string) : String.ltb a b = false → String.le b a.
Proof.
  unfold String.le, String.leb, String.ltb.
  rewrite (String.compare_antisym b a). by destruct (String.compare a b).
Qed.

Lemma ltb_irrefl (a : string) : String.ltb a a = false.
Proof.
  destruct (String.ltb a a) eqn:E; [|done]. unfold String.ltb in E.
  pose proof (String.compare_antisym a a) as H.
  by destruct (String.compare a a).
Qed.

Lemma insert_by_perm x l : insert_by x l ≡ₚ x :: l.
Proof.
  induction l as [|y l IH]; simpl; [done|].
  case_match; [|done]. rewrite IH. by apply Permutation_swap.
Qed.

Lemma sort_by_perm l : sort_by l ≡ₚ l.
Proof. induction l as [|x l IH]; simpl; [done|]. by rewrite insert_by_perm, IH. Qed.

Lemma elem_of_sort_by x l : x ∈ sort_by l ↔ x ∈ l.
Proof. by rewrite sort_by_perm. Qed.

Lemma insert_by_filter k x l :
  at_key k (insert_by x l) = at_key k (x :: l).
Proof.
  induction l as [|y l IH]; [done|]. simpl insert_by.
  destruct (String.ltb (key y) (key x)) eqn:E; [|done].
  rewrite filter_cons, IH, !filter_cons.
  destruct (decide (key y = k)) as [Hy|], (decide (key x = k)) as [Hx|]; try done.
  rewrite Hx, Hy, ltb_irrefl in E. done.
Qed.

(** Stability: the elements of one key keep their order. *)
Lemma sort_by_filter k l : at_key k (sort_by l) = at_key k l.
Proof.
  induction l as [|x l IH]; [done|]. simpl sort_by.
  by rewrite insert_by_filter, !filter_cons, IH.
Qed.

Lemma insert_by_sorted x l :
  StronglySorted key_le l → StronglySorted key_le (insert_by x l).
Proof.
  induction 1 as [|y l Hl IH Hy]; simpl; [by repeat constructor|].
  destruct (String.ltb (key y) (key x)) eqn:E.
  - constructor; [done|]. rewrite insert_by_perm. constructor; [|done].
    by apply ltb_true_le.
  - apply ltb_false_le in E. constructor; [by constructor|].
    constructor; [done|]. eapply Forall_impl; [exact Hy|].
    simpl. intros z Hz. by etrans.
Qed.

Lemma sort_by_sorted l : StronglySorted key_le (sort_by l).
Proof. induction l; simpl; [constructor|]. by apply insert_by_sorted. Qed.

Lemma sorted_filter_nil x y l :
  StronglySorted key_le (y :: l) → ¬ String.le (key y) (key x) →
  at_key (key x) (y :: l) = [].
Proof.
  intros Hs Hxy. inversion Hs as [|? ? _ Hall]; subst.
  apply elem_of_nil_inv. intros z [Heq Hz]%list_elem_of_filter. apply Hxy. rewrite <- Heq.
  apply elem_of_cons in Hz as [->|Hz]; [done|].
  rewrite Forall_forall in Hall. by apply (Hall z).
Qed.

Lemma sorted_filter_ext l1 l2 :
  StronglySorted key_le l1 → StronglySorted key_le l2 →
  (∀ k, at_key k l1 = at_key k l2) → l1 = l2.
Proof.
  revert l2. induction l1 as [|x l1 IH]; intros l2 H1 H2 Hf.
  - destruct l2 as [|y l2]; [done|]. specialize (Hf (key y)).
    by rewrite filter_cons_True in Hf.
  - destruct l2 as [|y l2].
    { specialize (Hf (key x)). by rewrite filter_cons_True in Hf. }
    assert (key x = key y) as Hk.
    { apply (anti_symm String.le).
      - destruct (decide (String.le (key x) (key y))) as [|Hn]; [done|].
        pose proof (Hf (key y)) as E.
        by rewrite (sorted_filter_nil y x l1 H1 Hn), filter_cons_True in E.
      - destruct (decide (String.le (key y) (key x))) as [|Hn]; [done|].
        pose proof (Hf (key x)) as E.
        by rewrite (sorted_filter_nil x y l2 H2 Hn), filter_cons_True in E. }
    assert (x = y) as ->.
    { specialize (Hf (key y)). rewrite !filter_cons_True in Hf by done. congruence. }
    f_equal. inversion H1; inversion H2; subst. apply IH; [done..|].
    intros k. specialize (Hf k). rewrite !filter_cons in Hf.
    case_decide; congruence.
Qed.

(** A stable sort is determined by the per-key sublists. *)
Lemma sort_by_ext l1 l2 :
  (∀ k, at_key k l1 = at_key k l2) → sort_by l1 = sort_by l2.
Proof.
  intros Hf. apply sorted_filter_ext; [apply sort_by_sorted..|].
  intros k. by rewrite !sort_by_filter.
Qed.

Lemma sort_by_idem l : sort_by (sort_by l) = sort_by l.
Proof. apply sort_by_ext. intros k. apply sort_by_filter. Qed.
End sort_by.

(** [sort.Strings]. *)
Definition sort_strings : list string → list string := sort_by id.

Lemma sort_strings_perm (l1 l2 : list string) :
  l1 ≡ₚ l2 → sort_strings l1 = sort_strings l2.
Proof.
  intros Hp. eapply (StronglySorted_unique String.le);
    [apply (sort_by_sorted id)..|].
  unfold sort_strings. by rewrite !(sort_by_perm id).
Qed.

Lemma elem_of_sort_strings x l : x ∈ sort_strings l ↔ x ∈ l.
Proof. apply (elem_of_sort_by id). Qed.

Lemma sort_strings_NoDup l : NoDup l → NoDup (sort_strings l).
Proof. unfold sort_strings. by rewrite (sort_by_perm id). Qed.

#[export] Hint Resolve sort_strings_NoDup : ssm.
