(* ===== verification/GoStrings.v ===== *)
(** * Go strings and byte slices

    The part of Go's [strings], [strconv], [encoding/hex] and [encoding/binary]
    the modelled packages call, on byte strings: a Go [string] is a
    [String.string] of bytes, a [[]byte] is a [list byte]. Case mapping outside
    ASCII and IP address syntax are left to the [UnicodeCase] parameter. *)

From Stdlib Require Import Ascii.
From Stdlib Require Import Strings.Byte.
From S2P Require Import Prelude.

Abbreviation bytes := (list byte).

#[export] Instance byte_eq_dec : EqDecision byte := Byte.byte_eq_dec.

Definition string_of_bytes (b : bytes) : string := String.string_of_list_byte b.
Definition bytes_of_string (s : string) : bytes := String.list_byte_of_string s.

Lemma bytes_of_string_of_bytes b : bytes_of_string (string_of_bytes b) = b.
Proof.
  unfold bytes_of_string, string_of_bytes, String.list_byte_of_string,
    String.string_of_list_byte.
  rewrite String.list_ascii_of_string_of_list_ascii, map_map.
  rewrite <- (map_id b) at 2. apply map_ext. apply byte_of_ascii_of_byte.
Qed.

Lemma string_of_bytes_of_string s : string_of_bytes (bytes_of_string s) = s.
Proof. apply String.string_of_list_byte_of_string. Qed.

(** ** Prefixes, suffixes and containment *)

(** [strip_prefix p s] is the rest of [s] after the prefix [p]. *)
Fixpoint strip_prefix (p s : string) : option string :=
  match p, s with
  | EmptyString, _ => Some s
  | String a p', String b s' => if Ascii.eqb a b then strip_prefix p' s' else None
  | String _ _, EmptyString => None
  end.

Definition HasPrefix (s p : string) : bool := bool_decide (is_Some (strip_prefix p s)).

Definition TrimPrefix (s p : string) : string := default s (strip_prefix p s).

Fixpoint string_rev_app (s acc : string) : string :=
  match s with
  | EmptyString => acc
  | String c s' => string_rev_app s' (String c acc)
  end.
Definition string_rev (s : string) : string := string_rev_app s EmptyString.

Definition HasSuffix (s p : string) : bool := HasPrefix (string_rev s) (string_rev p).

Definition TrimSuffix (s p : string) : string :=
  match strip_prefix (string_rev p) (string_rev s) with
  | Some r => string_rev r
  | None => s
  end.

(** [Index s sub] is the first position of [sub] in [s], as an option. *)
Fixpoint Index (s sub : string) : option nat :=
  if HasPrefix s sub then Some 0
  else match s with
       | EmptyString => None
       | String _ s' => S <$> Index s' sub
       end.

Definition Contains (s sub : string) : bool := bool_decide (is_Some (Index s sub)).

Fixpoint contains_char (c : ascii) (s : string) : bool :=
  match s with
  | EmptyString => false
  | String d s' => Ascii.eqb c d || contains_char c s'
  end.

(** [strings.ContainsAny] for a set of ASCII characters. *)
Fixpoint ContainsAny (s chars : string) : bool :=
  match s with
  | EmptyString => false
  | String c s' => contains_char c chars || ContainsAny s' chars
  end.

(** [strings.TrimRight] for a set of ASCII characters. *)
Fixpoint trim_left_set (chars s : string) : string :=
  match s with
  | EmptyString => EmptyString
  | String c s' => if contains_char c chars then trim_left_set chars s' else s
  end.
Definition TrimRight (s chars : string) : string :=
  string_rev (trim_left_set chars (string_rev s)).
(** [strings.Trim] for a set of ASCII characters. *)
Definition Trim (s chars : string) : string := TrimRight (trim_left_set chars s) chars.

(** ** [strings.TrimSpace]

    [unicode_spaces] lists the UTF-8 encodings of the runes for which
    [unicode.IsSpace] holds. A rune at either end of a string is white space
    exactly when one of these encodings is a prefix (or suffix) of it. *)
Definition char (n : N) : ascii := ascii_of_N n.
Fixpoint string_of_codes (l : list N) : string :=
  match l with
  | [] => EmptyString
  | n :: l' => String (char n) (string_of_codes l')
  end.

Definition unicode_spaces : list string :=
  map (λ n, string_of_codes [n]) [9; 10; 11; 12; 13; 32]%N
  ++ map string_of_codes
    [[194; 133]; [194; 160]; [225; 154; 128];
     [226; 128; 128]; [226; 128; 129]; [226; 128; 130]; [226; 128; 131];
     [226; 128; 132]; [226; 128; 133]; [226; 128; 134]; [226; 128; 135];
     [226; 128; 136]; [226; 128; 137]; [226; 128; 138];
     [226; 128; 168]; [226; 128; 169]; [226; 128; 175]; [226; 129; 159];
     [227; 128; 128]]%N.

Fixpoint strip_any (ps : list string) (s : string) : option string :=
  match ps with
  | [] => None
  | p :: ps' => match strip_prefix p s with Some r => Some r | None => strip_any ps' s end
  end.

Fixpoint trim_left_fuel (fuel : nat) (ps : list string) (s : string) : string :=
  match fuel with
  | O => s
  | S n => match strip_any ps s with Some r => trim_left_fuel n ps r | None => s end
  end.

Definition trim_left_space (s : string) : string :=
  trim_left_fuel (String.length s) unicode_spaces s.
Definition trim_right_space (s : string) : string :=
  string_rev (trim_left_fuel (String.length s) (string_rev <$> unicode_spaces) (string_rev s)).
Definition TrimSpace (s : string) : string := trim_right_space (trim_left_space s).

(** ** Splitting and joining *)

(** [strings.Split] on a one-character separator. *)
Fixpoint Split (sep : ascii) (s : string) : list string :=
  match s with
  | EmptyString => [EmptyString]
  | String c s' =>
      if Ascii.eqb c sep then EmptyString :: Split sep s'
      else match Split sep s' with
           | [] => [String c EmptyString]
           | p :: ps => String c p :: ps
           end
  end.

Fixpoint Join (parts : list string) (sep : string) : string :=
  match parts with
  | [] => EmptyString
  | [p] => p
  | p :: ps => p +:+ sep +:+ Join ps sep
  end.

(** ** Characters *)

Definition code (c : ascii) : N := N_of_ascii c.
Definition in_range (lo hi : N) (c : ascii) : bool :=
  (N.leb lo (code c) && N.leb (code c) hi)%bool.
Definition is_digit (c : ascii) : bool := in_range 48 57 c.
Definition is_upper (c : ascii) : bool := in_range 65 90 c.
Definition is_lower (c : ascii) : bool := in_range 97 122 c.
Definition is_alpha (c : ascii) : bool := is_upper c || is_lower c.

Fixpoint string_forall (P : ascii → bool) (s : string) : bool :=
  match s with
  | EmptyString => true
  | String c s' => P c && string_forall P s'
  end.

Definition is_ascii_string (s : string) : bool :=
  string_forall (λ c, N.ltb (code c) 128) s.

(** Case mapping and quoting of strings with non-ASCII runes. *)
Class UnicodeCase := {
  unicode_to_lower : string → string;
  unicode_to_upper : string → string;
  unicode_quote : string → string;
}.

Fixpoint string_map (f : ascii → ascii) (s : string) : string :=
  match s with
  | EmptyString => EmptyString
  | String c s' => String (f c) (string_map f s')
  end.

Definition lower_char (c : ascii) : ascii :=
  if is_upper c then char (code c + 32) else c.
Definition upper_char (c : ascii) : ascii :=
  if is_lower c then char (code c - 32) else c.

Definition ToLower `{UnicodeCase} (s : string) : string :=
  if is_ascii_string s then string_map lower_char s else unicode_to_lower s.
Definition ToUpper `{UnicodeCase} (s : string) : string :=
  if is_ascii_string s then string_map upper_char s else unicode_to_upper s.

(** A case mapping that changes nothing outside ASCII, for evaluation. *)
Definition ascii_case : UnicodeCase :=
  {| unicode_to_lower := string_map lower_char; unicode_to_upper := string_map upper_char;
     unicode_quote := λ s, s |}.

(** [strconv.Quote], the verb [%q]: control characters, the quote and the
    backslash are escaped. *)
Definition hex_char (n : N) : ascii := if N.ltb n 10 then char (48 + n) else char (87 + n).
Definition quote_char (c : ascii) : string :=
  let n := code c in
  if N.eqb n 34 then string_of_codes [92; 34]%N
  else if N.eqb n 92 then string_of_codes [92; 92]%N
  else if N.eqb n 7 then string_of_codes [92; 97]%N
  else if N.eqb n 8 then string_of_codes [92; 98]%N
  else if N.eqb n 12 then string_of_codes [92; 102]%N
  else if N.eqb n 10 then string_of_codes [92; 110]%N
  else if N.eqb n 13 then string_of_codes [92; 114]%N
  else if N.eqb n 9 then string_of_codes [92; 116]%N
  else if N.eqb n 11 then string_of_codes [92; 118]%N
  else if N.ltb n 32 || N.eqb n 127 then
    String (char 92) (String "x" (String (hex_char (n / 16)) (String (hex_char (n mod 16)) "")))
  else String c "".
Fixpoint quote_body (s : string) : string :=
  match s with EmptyString => "" | String c s' => quote_char c +:+ quote_body s' end.
Definition Quote `{UnicodeCase} (s : string) : string :=
  if is_ascii_string s then String (char 34) (quote_body s +:+ String (char 34) "")
  else unicode_quote s.

(** The part of a string after its last [c] ([strings.LastIndexByte]). *)
Fixpoint after_last (c : ascii) (s : string) : string :=
  match s with
  | EmptyString => EmptyString
  | String d s' =>
      if contains_char c s' then after_last c s'
      else if Ascii.eqb d c then s' else s
  end.

(** [net.JoinHostPort]. *)
Definition JoinHostPort (host port : string) : string :=
  if contains_char ":" host then "[" +:+ host +:+ "]:" +:+ port else host +:+ ":" +:+ port.

(** ** Numbers *)

Definition max_int : Z := 9223372036854775807.
Definition min_int : Z := -9223372036854775808.

(** [int] arithmetic wraps at 64 bits. *)
Definition wrap_int (z : Z) : Z := ((z + 2 ^ 63) mod 2 ^ 64 - 2 ^ 63)%Z.

Fixpoint digits_value (acc : Z) (s : string) : option Z :=
  match s with
  | EmptyString => Some acc
  | String c s' =>
      if is_digit c then digits_value (acc * 10 + Z.of_N (code c - 48)) s' else None
  end.

(** [strconv.Atoi]: an optional sign, then at least one digit, within [int]. *)
Definition Atoi (s : string) : option Z :=
  let '(sign, body) :=
    match s with
    | String c s' =>
        if Ascii.eqb c "-" then (-1, s')
        else if Ascii.eqb c "+" then (1, s') else (1, s)
    | EmptyString => (1, s)
    end%Z in
  match body with
  | EmptyString => None
  | _ =>
      match digits_value 0 body with
      | Some n =>
          if bool_decide (min_int ≤ sign * n ≤ max_int)%Z then Some (sign * n)%Z else None
      | None => None
      end
  end.

(** ** Hexadecimal and big-endian encodings *)

Definition hex_digit (n : N) : ascii :=
  if N.ltb n 10 then char (48 + n) else char (87 + n).

Definition is_hex_digit (c : ascii) : bool := is_digit c || in_range 97 102 c.

(** [hex.EncodeToString]. *)
Fixpoint hex_encode (b : bytes) : string :=
  match b with
  | [] => EmptyString
  | x :: b' =>
      String (hex_digit (Byte.to_N x / 16))
        (String (hex_digit (Byte.to_N x mod 16)) (hex_encode b'))
  end.

(** [binary.BigEndian.PutUint64] and [Uint64], for any width in bytes. *)
Definition byte_of_Z (z : Z) : byte :=
  match Byte.of_N (Z.to_N (z mod 256)) with Some b => b | None => x00 end.
Definition Z_of_byte (b : byte) : Z := Z.of_N (Byte.to_N b).

Fixpoint be_encode (width : nat) (z : Z) : bytes :=
  match width with
  | O => []
  | S w => byte_of_Z (Z.shiftr z (8 * Z.of_nat w)) :: be_encode w z
  end.

Fixpoint be_decode (b : bytes) : Z :=
  match b with
  | [] => 0
  | x :: b' => Z.lor (Z.shiftl (Z_of_byte x) (8 * Z.of_nat (length b'))) (be_decode b')
  end.

(** ** Lemmas *)

Lemma app_cons c (s t : string) : String c s +:+ t = String c (s +:+ t).
Proof. done. Qed.

Lemma app_nil (s : string) : EmptyString +:+ s = s.
Proof. done. Qed.

#[export] Hint Rewrite app_cons app_nil : gostring.

Lemma strip_prefix_Some p s r : strip_prefix p s = Some r ↔ s = p +:+ r.
Proof.
  revert s. induction p as [|a p IH]; intros s; simpl.
  - rewrite app_nil. split; congruence.
  - rewrite app_cons. destruct s as [|b s]; [done|].
    destruct (Ascii.eqb_spec a b) as [->|Hne]; [|split; intros; by simplify_eq].
    rewrite IH. split; [by intros ->|congruence].
Qed.

Lemma HasPrefix_spec s p : HasPrefix s p = true ↔ ∃ r, s = p +:+ r.
Proof.
  unfold HasPrefix. rewrite bool_decide_eq_true. split.
  - intros [r Hr]. apply strip_prefix_Some in Hr. eauto.
  - intros [r Hr]. exists r. by apply strip_prefix_Some.
Qed.

Lemma string_forall_app P s t :
  string_forall P (s +:+ t) = string_forall P s && string_forall P t.
Proof.
  induction s as [|c s IH]; [done|]. rewrite app_cons. cbn [string_forall].
  by rewrite IH, andb_assoc.
Qed.

Lemma hex_digit_ok n : (n < 16)%N → is_hex_digit (hex_digit n) = true.
Proof.
  intros Hn.
  assert (n = 0 ∨ n = 1 ∨ n = 2 ∨ n = 3 ∨ n = 4 ∨ n = 5 ∨ n = 6 ∨ n = 7 ∨ n = 8 ∨ n = 9
    ∨ n = 10 ∨ n = 11 ∨ n = 12 ∨ n = 13 ∨ n = 14 ∨ n = 15)%N as Hc by lia.
  by destruct_or! Hc; subst.
Qed.

Lemma hex_encode_length b : String.length (hex_encode b) = 2 * length b.
Proof. induction b as [|x b IH]; simpl; lia. Qed.

Lemma hex_encode_digits b : string_forall is_hex_digit (hex_encode b) = true.
Proof.
  induction b as [|x b IH]; [done|]. cbn [hex_encode string_forall].
  assert (Byte.to_N x < 256)%N by (destruct x; vm_compute; done).
  rewrite !hex_digit_ok, IH; [done| |].
  - apply N.mod_lt; lia.
  - apply N.Div0.div_lt_upper_bound; lia.
Qed.

Lemma Z_of_byte_range b : (0 ≤ Z_of_byte b < 256)%Z.
Proof. unfold Z_of_byte. destruct b; vm_compute; split; congruence. Qed.

Lemma Z_of_byte_of_Z z : Z_of_byte (byte_of_Z z) = (z mod 256)%Z.
Proof.
  unfold Z_of_byte, byte_of_Z.
  pose proof (Z.mod_pos_bound z 256 ltac:(lia)).
  destruct (Byte.of_N (Z.to_N (z mod 256))) as [b|] eqn:E.
  - apply Byte.to_of_N in E. rewrite E. lia.
  - apply Byte.of_N_None_iff in E. lia.
Qed.

Lemma be_encode_length w z : length (be_encode w z) = w.
Proof. induction w; simpl; congruence. Qed.

(** A value below 2^k and a multiple of 2^k have no common bit. *)
Lemma lor_shiftl_add a k m :
  (0 ≤ k → 0 ≤ m < 2 ^ k → Z.lor (Z.shiftl a k) m = a * 2 ^ k + m)%Z.
Proof.
  intros Hk Hm.
  assert (Z.land (Z.shiftl a k) m = 0)%Z as Hl.
  { apply Z.bits_inj'. intros n Hn. rewrite Z.land_spec, Z.bits_0.
    destruct (Z.lt_ge_cases n k) as [Hlt|Hge]; [by rewrite Z.shiftl_spec_low|].
    rewrite <- (Z.mod_small m (2 ^ k)) by done.
    rewrite Z.mod_pow2_bits_high by lia. apply andb_false_r. }
  pose proof (Z.add_lor_land (Z.shiftl a k) m) as H.
  rewrite Hl, Z.shiftl_mul_pow2 in H by lia. rewrite Z.shiftl_mul_pow2 by lia. lia.
Qed.

Lemma be_decode_range b : (0 ≤ be_decode b < 2 ^ (8 * Z.of_nat (length b)))%Z.
Proof.
  induction b as [|x b IH]; [simpl; lia|]. cbn [be_decode].
  rewrite lor_shiftl_add by lia. pose proof (Z_of_byte_range x).
  replace (8 * Z.of_nat (length (x :: b)))%Z
    with (8 + 8 * Z.of_nat (length b))%Z by (simpl length; lia).
  rewrite Z.pow_add_r by lia. nia.
Qed.

(** Encoding then decoding keeps the low bytes: the value modulo 2^(8w). *)
Lemma be_decode_encode w z :
  be_decode (be_encode w z) = (z mod 2 ^ (8 * Z.of_nat w))%Z.
Proof.
  induction w as [|w IH]; cbn [be_encode be_decode]; [by rewrite Z.mod_1_r|].
  rewrite be_encode_length, IH, Z_of_byte_of_Z.
  apply Z.bits_inj'. intros n Hn.
  rewrite Z.lor_spec.
  assert (8 * Z.of_nat (S w) = 8 * Z.of_nat w + 8)%Z as -> by lia.
  change 256%Z with (2 ^ 8)%Z.
  destruct (Z.lt_ge_cases n (8 * Z.of_nat w)) as [Hlt|Hge].
  - rewrite Z.shiftl_spec_low, !Z.mod_pow2_bits_low by lia. done.
  - rewrite (Z.mod_pow2_bits_high _ (8 * Z.of_nat w)), orb_false_r, Z.shiftl_spec by lia.
    destruct (Z.lt_ge_cases n (8 * Z.of_nat w + 8)).
    + rewrite !Z.mod_pow2_bits_low, Z.shiftr_spec by lia. f_equal. lia.
    + rewrite !Z.mod_pow2_bits_high by lia. done.
Qed.
