(* ===== verification/GoStringFacts.v ===== *)
(** * Facts about trimming, reversing and printing

    A string of printable ASCII characters is not changed by [TrimSpace], a string
    without quotes survives being quoted and trimmed, and [Atoi] reads a printed number
    back. *)

From stdpp Require Import pretty.
From Stdlib Require Import Ascii.
From S2P Require Import Prelude GoStrings.

Lemma str_app_assoc (s t u : string) : s +:+ (t +:+ u) = (s +:+ t) +:+ u.
Proof. induction s as [|c s IH]; [done|]. by rewrite !app_cons, IH. Qed.

Lemma str_app_nil_r (s : string) : s +:+ EmptyString = s.
Proof. induction s as [|c s IH]; [done|]. by rewrite app_cons, IH. Qed.

Lemma length_str_app (s t : string) : String.length (s +:+ t) = String.length s + String.length t.
Proof. induction s as [|c s IH]; [done|]. rewrite app_cons. simpl. by rewrite IH. Qed.

Lemma string_rev_app_spec s acc : string_rev_app s acc = string_rev s +:+ acc.
Proof.
  unfold string_rev. revert acc. induction s as [|c s IH]; intros acc; [done|]. simpl.
  rewrite IH, (IH (String c EmptyString)), <- str_app_assoc. done.
Qed.

Lemma string_rev_cons c s : string_rev (String c s) = string_rev s +:+ String c EmptyString.
Proof. unfold string_rev at 1. simpl. apply string_rev_app_spec. Qed.

Lemma string_rev_distr s t : string_rev (s +:+ t) = string_rev t +:+ string_rev s.
Proof.
  induction s as [|c s IH]; [by rewrite app_nil, str_app_nil_r|].
  by rewrite app_cons, !string_rev_cons, IH, <- str_app_assoc.
Qed.

Lemma string_rev_involutive s : string_rev (string_rev s) = s.
Proof.
  induction s as [|c s IH]; [done|]. by rewrite string_rev_cons, string_rev_distr, IH.
Qed.

Lemma string_forall_rev P s : string_forall P (string_rev s) = string_forall P s.
Proof.
  induction s as [|c s IH]; [done|].
  rewrite string_rev_cons, string_forall_app, IH. simpl. by rewrite andb_true_r, andb_comm.
Qed.

Lemma string_forall_impl (P Q : ascii → bool) s :
  (∀ c, P c = true → Q c = true) → string_forall P s = true → string_forall Q s = true.
Proof.
  intros HPQ. induction s as [|c s IH]; [done|]. simpl.
  rewrite !andb_true_iff. intros [Hc Hs]. auto.
Qed.

(** ** White space *)

(** Printable ASCII without the space. *)
Definition solid (c : ascii) : bool := in_range 33 126 c.

Definition starts_outside (P : ascii → bool) (p : string) : bool :=
  match p with String a _ => negb (P a) | EmptyString => false end.

Lemma strip_any_outside P ps c s :
  forallb (starts_outside P) ps = true → P c = true → strip_any ps (String c s) = None.
Proof.
  intros Hps Hc. induction ps as [|p ps IH]; [done|]. simpl in Hps |- *. bool_to_prop.
  destruct p as [|a p]; [done|]. simpl in H. bool_to_prop. simpl.
  destruct (Ascii.eqb_spec a c); [congruence|]. by apply IH.
Qed.

Lemma strip_any_solid c s :
  solid c = true → strip_any unicode_spaces (String c s) = None ∧
  strip_any (string_rev <$> unicode_spaces) (String c s) = None.
Proof. intros Hc. split; apply (strip_any_outside solid); done || by vm_compute. Qed.

Lemma trim_left_fuel_solid fuel ps s :
  (∀ c t, s = String c t → strip_any ps s = None) → strip_any ps EmptyString = None →
  trim_left_fuel fuel ps s = s.
Proof.
  intros Hs He. destruct fuel; [done|]. simpl. destruct s as [|c t]; [by rewrite He|].
  by rewrite (Hs c t eq_refl).
Qed.

Lemma string_forall_head P c s : string_forall P (String c s) = true → P c = true.
Proof. cbn [string_forall]. by intros [? _]%andb_true_iff. Qed.

Lemma strip_any_empty :
  strip_any unicode_spaces EmptyString = None ∧
  strip_any (string_rev <$> unicode_spaces) EmptyString = None.
Proof. split; vm_compute; reflexivity. Qed.

Lemma trim_left_solid fuel s :
  string_forall solid s = true →
  trim_left_fuel fuel unicode_spaces s = s ∧
  trim_left_fuel fuel (string_rev <$> unicode_spaces) s = s.
Proof.
  intros Hs. split; (apply trim_left_fuel_solid; [intros c t ->; apply string_forall_head in Hs|]).
  - exact (proj1 (strip_any_solid c t Hs)).
  - exact (proj1 strip_any_empty).
  - exact (proj2 (strip_any_solid c t Hs)).
  - exact (proj2 strip_any_empty).
Qed.

Lemma TrimSpace_solid s : string_forall solid s = true → TrimSpace s = s.
Proof.
  intros Hs. unfold TrimSpace, trim_left_space, trim_right_space.
  rewrite (proj1 (trim_left_solid _ s Hs)).
  rewrite (proj2 (trim_left_solid _ (string_rev s) ltac:(by rewrite string_forall_rev))).
  apply string_rev_involutive.
Qed.

(** ** Trimming a set of characters *)

Lemma trim_left_set_head chars c s : contains_char c chars = false → trim_left_set chars (String c s) = String c s.
Proof. intros H. simpl. by rewrite H. Qed.

Definition avoids (chars s : string) : bool := string_forall (λ c, negb (contains_char c chars)) s.

Lemma trim_left_set_avoids chars s : avoids chars s = true → trim_left_set chars s = s.
Proof.
  destruct s as [|c s]; [done|]. unfold avoids. intros Hc%string_forall_head%negb_true_iff.
  cbn [trim_left_set]. by rewrite Hc.
Qed.

Lemma Trim_avoids chars s : avoids chars s = true → Trim s chars = s.
Proof.
  intros H. unfold Trim, TrimRight. rewrite (trim_left_set_avoids chars s) by done.
  rewrite trim_left_set_avoids; [apply string_rev_involutive|].
  unfold avoids. by rewrite string_forall_rev.
Qed.

Lemma Trim_wrapped chars l s r :
  contains_char l chars = true → contains_char r chars = true → avoids chars s = true →
  s ≠ EmptyString → Trim (String l (s +:+ String r EmptyString)) chars = s.
Proof.
  intros Hl Hr Hs Hne. unfold Trim, TrimRight.
  destruct s as [|c s]; [done|]. pose proof (string_forall_head _ _ _ Hs) as Hc%negb_true_iff.
  rewrite app_cons. cbn [trim_left_set]. rewrite Hl, Hc.
  rewrite <- app_cons, string_rev_distr. change (string_rev (String r EmptyString)) with (String r EmptyString).
  rewrite app_cons, app_nil. cbn [trim_left_set]. rewrite Hr.
  rewrite trim_left_set_avoids, string_rev_involutive; [done|].
  unfold avoids. by rewrite string_forall_rev.
Qed.

Lemma hex_digit_solid c : is_hex_digit c = true → solid c = true.
Proof.
  unfold is_hex_digit, is_digit, solid, in_range. rewrite orb_true_iff, !andb_true_iff, !N.leb_le. lia.
Qed.

Lemma hex_digits_solid s : string_forall is_hex_digit s = true → string_forall solid s = true.
Proof. apply string_forall_impl, hex_digit_solid. Qed.

(** ** Printed numbers *)

Lemma pretty_char_digit n : (n < 10)%N → is_digit (pretty_N_char n) = true ∧ (code (pretty_N_char n) - 48 = n)%N.
Proof.
  intros Hn. assert (n = 0 ∨ n = 1 ∨ n = 2 ∨ n = 3 ∨ n = 4 ∨ n = 5 ∨ n = 6 ∨ n = 7 ∨ n = 8 ∨ n = 9)%N as Hcases by lia.
  by repeat destruct Hcases as [->|Hcases]; [..|subst].
Qed.

Lemma pretty_go_value n s : ∃ k, ∀ acc,
  digits_value acc (pretty_N_go n s) = digits_value (acc * 10 ^ k + Z.of_N n)%Z s ∧ (0 ≤ k)%Z.
Proof.
  revert s. induction (N.lt_wf_0 n) as [n _ IH]; intros s.
  destruct (decide (n = 0)%N) as [->|Hn].
  - exists 0%Z. intros acc. rewrite pretty_N_go_0. change (10 ^ 0)%Z with 1%Z. split; [f_equal; lia|lia].
  - destruct (IH (n `div` 10)%N ltac:(apply N.div_lt; lia) (String (pretty_N_char (n `mod` 10)) s)) as [k Hk].
    exists (k + 1)%Z. intros acc. destruct (Hk acc) as [Hv Hk0]. rewrite pretty_N_go_step by lia. rewrite Hv.
    cbn [digits_value]. destruct (pretty_char_digit (n `mod` 10)) as [-> ->]; [apply N.mod_lt; lia|].
    split; [|lia]. f_equal. rewrite Z.pow_add_r by lia. change (10 ^ 1)%Z with 10%Z.
    pose proof (N.div_mod n 10 ltac:(lia)). lia.
Qed.

Lemma pretty_N_value n : digits_value 0 (pretty n) = Some (Z.of_N n).
Proof.
  unfold pretty, pretty_N. case_decide as Hn; [by subst|].
  destruct (pretty_go_value n "") as [k Hk]. destruct (Hk 0%Z) as [-> _]. done.
Qed.

Lemma pretty_N_not_empty (n : N) : pretty n ≠ "".
Proof.
  intros Hn. pose proof (pretty_N_value n) as Hv. destruct (decide (n = 0)%N) as [->|]; [done|].
  rewrite Hn in Hv. cbn in Hv. injection Hv. lia.
Qed.

Lemma pretty_Z_not_empty (z : Z) : pretty z ≠ "".
Proof. unfold pretty, pretty_Z. destruct z; [done|apply pretty_N_not_empty|done]. Qed.

Lemma digits_solid acc s n : digits_value acc s = Some n → string_forall solid s = true.
Proof.
  revert acc. induction s as [|c s IH]; intros acc; cbn [digits_value]; [done|].
  destruct (is_digit c) eqn:Hc; [|done]. intros Hv. cbn [string_forall]. rewrite (IH _ Hv), andb_true_r.
  destruct c as [[] [] [] [] [] [] [] []]; vm_compute in Hc |- *; done.
Qed.

Lemma pretty_Z_nonneg (z : Z) : (0 ≤ z)%Z → ∃ n : N, pretty z = pretty n ∧ z = Z.of_N n.
Proof. intros Hz. destruct z as [|p|p]; [by exists 0%N|by exists (N.pos p)|lia]. Qed.

Lemma pretty_Z_solid (z : Z) : (0 ≤ z)%Z → string_forall solid (pretty z) = true.
Proof. intros (n & -> & ->)%pretty_Z_nonneg. apply (digits_solid 0 _ _ (pretty_N_value n)). Qed.

Lemma Atoi_pretty (z : Z) : (0 ≤ z ≤ max_int)%Z → Atoi (pretty z) = Some z.
Proof.
  intros Hz. destruct (pretty_Z_nonneg z) as (n & -> & ->); [lia|].
  pose proof (pretty_N_value n) as Hv. pose proof (pretty_N_not_empty n) as Hne.
  destruct (pretty n) as [|c s]; [done|]. pose proof Hv as Hd. cbn [digits_value] in Hd.
  destruct (is_digit c) eqn:Hc; [|done]. clear Hd. unfold Atoi.
  assert (Hsign : Ascii.eqb c "-" = false ∧ Ascii.eqb c "+" = false).
  { destruct c as [[] [] [] [] [] [] [] []]; vm_compute in Hc |- *; done. }
  destruct Hsign as [-> ->]. rewrite Hv, Z.mul_1_l, bool_decide_eq_true_2; [done|]. unfold min_int. lia.
Qed.
