(* ===== verification/GoErrors.v ===== *)
(** * Go errors and fallible results

    Go reports failures as values of the [error] interface, wraps them with
    [%w] and inspects them with [errors.Is] and [errors.As]. [goerror] keeps the
    shape of such a chain: package-level sentinels by name, [fmt.Errorf] nodes
    with the errors they wrap, and the typed errors the modelled packages
    inspect. [result] is a value or an error. *)

From S2P Require Import Prelude.

Inductive goerror : Type :=
  (** a package-level variable, with the errors its own definition wraps *)
  | Sentinel (name : string) (wraps : list goerror)
  (** [errors.New] or [fmt.Errorf] without [%w] *)
  | Errorf (msg : string)
  (** [fmt.Errorf] with [%w] verbs *)
  | Wrap (msg : string) (wraps : list goerror)
  (** [*cloud.HTTPStatusError] *)
  | HTTPStatusError (status : Z) (msg : string)
  (** [*cloud.MissingTokenError] and [*cloud.RequestError] *)
  | MissingTokenError
  | RequestError
  (** [*cloud.TransportError] *)
  | TransportError (inner : goerror)
  (** [*cloud.pushFailure] *)
  | pushFailure (inner : goerror) (explicit ambiguous : bool)
  (** [*machinecontract.ClassifiedError], by the kind it was classified with *)
  | ClassifiedError (kind msg : string).

(** [errors.Is(err, target)] for a sentinel target. *)
Fixpoint error_is (e : goerror) (target : string) : bool :=
  match e with
  | Sentinel n ws => bool_decide (n = target) || existsb (λ w, error_is w target) ws
  | Wrap _ ws => existsb (λ w, error_is w target) ws
  | TransportError i => error_is i target
  | pushFailure i _ _ => error_is i target
  | _ => false
  end.

Definition is_sentinel (e : goerror) (s : goerror) : bool :=
  match s with Sentinel n _ => error_is e n | _ => false end.

(** The text of an error that is shown. *)
Definition error_text (e : goerror) : string :=
  match e with
  | Sentinel n _ => n
  | Errorf m | Wrap m _ | ClassifiedError _ m | HTTPStatusError _ m => m
  | _ => ""
  end.

Inductive result (A : Type) : Type :=
  | Ok (a : A)
  | Fail (e : goerror).
Arguments Ok {A} a.
Arguments Fail {A} e.

#[export] Instance result_ret : MRet result := @Ok.
#[export] Instance result_bind : MBind result := λ A B f r,
  match r with Ok a => f a | Fail e => Fail e end.
#[export] Instance result_fmap : FMap result := λ A B f r,
  match r with Ok a => Ok (f a) | Fail e => Fail e end.

Definition is_ok {A} (r : result A) : bool := match r with Ok _ => true | Fail _ => false end.

(** [guard] of the code's early returns: [check b e] fails with [e] when [b] is
    false. *)
Definition check (b : bool) (e : goerror) : result () := if b then Ok () else Fail e.

(** [err_of b msg]: an optional error, as the code's single-result validators
    return it. *)
Definition error_ok (e : option goerror) : bool := bool_decide (e = None).

Lemma bind_Ok {A B} (r : result A) (f : A → result B) b :
  (r ≫= f) = Ok b ↔ ∃ a, r = Ok a ∧ f a = Ok b.
Proof. destruct r; cbn; naive_solver. Qed.

Lemma check_Ok b e u : check b e = Ok u ↔ b = true.
Proof. destruct b, u; cbn; naive_solver. Qed.

#[export] Hint Rewrite @bind_Ok check_Ok : ssm.

(** [inv_ok H] decomposes a successful run of the error monad. *)
Ltac inv_ok H :=
  repeat (apply bind_Ok in H; let a := fresh "a" in let Ha := fresh "Hok" in
          destruct H as (a & Ha & H); try (apply check_Ok in Ha)).
