(* ===== verification/NamedList.v ===== *)
(** * Lists indexed by name

    The inventory keeps connections and keys in slices and looks them up by
    name. [by_name] is the finite map such a slice denotes; the lemmas relate the
    slice operations of the code (first match, removal, in-place replacement,
    append, stable sort) to the operations of the map, for slices without a
    duplicate name. *)

From S2P Require Import Prelude.

Section named.
Context {A : Type} (name : A → string).

Definition by_name (l : list A) : gmap string A := list_to_map ((λ x, (name x, x)) <$> l).

Definition names (l : list A) : list string := name <$> l.

(** [for _, x := range l { m[x.Name] = x }]: a later item wins. *)
Definition last_by_name (l : list A) : gmap string A :=
  foldl (λ m x, <[name x := x]> m) ∅ l.

(** The first position of a name, and the first item. *)
Fixpoint index_of (n : string) (l : list A) : option nat :=
  match l with
  | [] => None
  | x :: l' => if bool_decide (name x = n) then Some 0 else S <$> index_of n l'
  end.

Fixpoint first_of (n : string) (l : list A) : option A :=
  match l with
  | [] => None
  | x :: l' => if bool_decide (name x = n) then Some x else first_of n l'
  end.

(** Removal of the first item of a name. *)
Fixpoint remove_first (n : string) (l : list A) : list A :=
  match l with
  | [] => []
  | x :: l' => if bool_decide (name x = n) then l' else x :: remove_first n l'
  end.

Lemma by_name_nil : by_name [] = ∅.
Proof. done. Qed.

Lemma by_name_cons x l : by_name (x :: l) = <[name x := x]> (by_name l).
Proof. done. Qed.

Lemma by_name_first_of n l : by_name l !! n = first_of n l.
Proof.
  induction l as [|x l IH]; [done|]. rewrite by_name_cons. simpl.
  case_bool_decide as E; [subst; by rewrite lookup_insert_eq|].
  by rewrite lookup_insert_ne.
Qed.

Lemma by_name_lookup_name l n x : by_name l !! n = Some x → name x = n ∧ x ∈ l.
Proof.
  induction l as [|y l IH]; [done|]. rewrite by_name_cons.
  rewrite lookup_insert_Some. intros [[<- ->]|[_ H]]; [split; [done|constructor]|].
  destruct (IH H). split; [done|by constructor].
Qed.

Lemma by_name_None l n : by_name l !! n = None ↔ n ∉ names l.
Proof.
  rewrite by_name_first_of. induction l as [|x l IH]; simpl; [set_solver|].
  case_bool_decide; set_solver.
Qed.

Lemma by_name_elem l x : NoDup (names l) → x ∈ l → by_name l !! name x = Some x.
Proof.
  induction l as [|y l IH]; [by intros _ ?%not_elem_of_nil|].
  intros [Hy Hl]%NoDup_cons [->|Hx]%elem_of_cons; rewrite by_name_cons.
  - by rewrite lookup_insert_eq.
  - rewrite lookup_insert_ne; [by apply IH|]. intros Heq. apply Hy. rewrite Heq.
    by apply list_elem_of_fmap_2.
Qed.

Lemma by_name_lookup l n x :
  NoDup (names l) → by_name l !! n = Some x ↔ x ∈ l ∧ name x = n.
Proof.
  intros Hnd. split.
  - intros [??]%by_name_lookup_name. done.
  - intros [Hx <-]. by apply by_name_elem.
Qed.

Lemma by_name_perm l1 l2 : NoDup (names l1) → l1 ≡ₚ l2 → by_name l1 = by_name l2.
Proof.
  intros Hnd Hp. apply map_eq. intros n. apply option_eq. intros x.
  assert (NoDup (names l2)) by (unfold names in *; by rewrite <- Hp).
  rewrite !by_name_lookup by done. by rewrite Hp.
Qed.

Lemma by_name_app l1 l2 : by_name (l1 ++ l2) = by_name l1 ∪ by_name l2.
Proof. unfold by_name. by rewrite fmap_app, list_to_map_app. Qed.

Lemma by_name_snoc l x : name x ∉ names l → by_name (l ++ [x]) = <[name x := x]> (by_name l).
Proof.
  intros Hx. apply map_eq. intros n. rewrite by_name_app, by_name_cons, by_name_nil.
  destruct (decide (n = name x)) as [->|Hne].
  - rewrite lookup_union_r by by apply by_name_None. by rewrite !lookup_insert_eq.
  - rewrite lookup_insert_ne by done. rewrite lookup_union_l; [done|].
    by rewrite lookup_insert_ne.
Qed.

Lemma last_by_name_eq_acc l m :
  NoDup (names l) → foldl (λ m x, <[name x := x]> m) m l = by_name l ∪ m.
Proof.
  revert m. induction l as [|x l IH]; intros m Hnd; simpl; [by rewrite by_name_nil, (left_id_L ∅ (∪))|].
  apply NoDup_cons in Hnd as [Hx Hl]. rewrite IH by done.
  rewrite by_name_cons. rewrite <- insert_union_r; [by rewrite insert_union_l|].
  by apply by_name_None.
Qed.

Lemma last_by_name_eq l : NoDup (names l) → last_by_name l = by_name l.
Proof. intros. unfold last_by_name. rewrite last_by_name_eq_acc by done. by rewrite (right_id_L ∅ (∪)). Qed.

Lemma first_of_Some n l x : first_of n l = Some x → name x = n ∧ x ∈ l.
Proof. rewrite <- by_name_first_of. apply by_name_lookup_name. Qed.

Lemma index_of_None n l : index_of n l = None ↔ n ∉ names l.
Proof.
  induction l as [|x l IH]; simpl; [set_solver|].
  case_bool_decide; [set_solver|]. rewrite fmap_None, IH. set_solver.
Qed.

Lemma index_of_Some n l i :
  index_of n l = Some i →
  ∃ x, l !! i = Some x ∧ name x = n ∧ first_of n l = Some x.
Proof.
  revert i. induction l as [|x l IH]; intros i; simpl; [done|].
  case_bool_decide as E; [intros; simplify_eq; eauto|].
  intros (j & Hj & ->)%fmap_Some. apply IH in Hj as (y & Hy & ? & ?). eauto.
Qed.

(** Replacing the first item of a name in place. *)
Lemma names_insert l i x y : l !! i = Some y → name x = name y → names (<[i:=x]> l) = names l.
Proof.
  intros Hi Hn. unfold names. rewrite list_fmap_insert, Hn.
  apply list_insert_id. by rewrite list_lookup_fmap, Hi.
Qed.

Lemma by_name_insert l i n x :
  index_of n l = Some i → name x = n → by_name (<[i:=x]> l) = <[n:=x]> (by_name l).
Proof.
  revert i. induction l as [|y l IH]; intros i; simpl; [done|].
  case_bool_decide as E.
  - intros [= <-] Hx. simpl. rewrite !by_name_cons, E, Hx. by rewrite insert_insert_eq.
  - intros (j & Hj & ->)%fmap_Some Hx. simpl. rewrite !by_name_cons.
    rewrite IH by done. by rewrite insert_insert_ne by congruence.
Qed.

(** Deleting at the first index of a name. *)
Lemma delete_index_of n l i : index_of n l = Some i → delete i l = remove_first n l.
Proof.
  revert i. induction l as [|x l IH]; intros i; simpl; [done|].
  case_bool_decide; [by intros [= <-]|].
  intros (j & Hj & ->)%fmap_Some. simpl. by rewrite IH.
Qed.

Lemma take_drop_delete (l : list A) i : take i l ++ drop (S i) l = delete i l.
Proof. by rewrite delete_take_drop. Qed.

Lemma remove_first_sublist n l : remove_first n l `sublist_of` l.
Proof.
  induction l as [|x l IH]; simpl; [done|]. case_bool_decide; [by constructor|].
  by constructor.
Qed.

Lemma names_remove_first_NoDup n l : NoDup (names l) → NoDup (names (remove_first n l)).
Proof.
  intros Hnd. eapply sublist_NoDup; [exact Hnd|]. unfold names.
  apply fmap_sublist, remove_first_sublist.
Qed.

Lemma elem_of_remove_first n l x :
  NoDup (names l) → x ∈ remove_first n l ↔ x ∈ l ∧ name x ≠ n.
Proof.
  induction l as [|y l IH]; simpl; [set_solver|].
  intros [Hy Hl]%NoDup_cons. specialize (IH Hl). case_bool_decide as E.
  - assert (∀ z, z ∈ l → name z ≠ name y).
    { intros z Hz Heq. apply Hy. rewrite <- Heq. by apply list_elem_of_fmap_2. }
    set_solver.
  - set_solver.
Qed.

Lemma by_name_remove_first n l :
  NoDup (names l) → by_name (remove_first n l) = delete n (by_name l).
Proof.
  intros Hnd. apply map_eq. intros k. apply option_eq. intros x.
  rewrite by_name_lookup by by apply names_remove_first_NoDup.
  rewrite lookup_delete_Some, by_name_lookup, elem_of_remove_first by done. naive_solver.
Qed.

Lemma remove_first_not_in n l : n ∉ names l → remove_first n l = l.
Proof.
  induction l as [|x l IH]; simpl; [done|]. intros Hn. apply not_elem_of_cons in Hn as [??].
  rewrite bool_decide_eq_false_2 by congruence. by rewrite IH.
Qed.

Lemma by_name_sort l : NoDup (names l) → by_name (sort_by name l) = by_name l.
Proof. intros Hnd. symmetry. apply by_name_perm; [done|]. by rewrite sort_by_perm. Qed.

Lemma names_sort_NoDup l : NoDup (names l) → NoDup (names (sort_by name l)).
Proof. intros Hnd. unfold names. by rewrite sort_by_perm. Qed.

Lemma names_snoc_NoDup l x : NoDup (names l) → name x ∉ names l → NoDup (names (l ++ [x])).
Proof.
  intros Hnd Hx. unfold names. rewrite fmap_app. apply NoDup_app.
  split_and!; [done| |apply NoDup_singleton]. intros k Hk ->%list_elem_of_singleton. done.
Qed.

(** The sublist of a name determines lookup, and what the operations do to it. *)
Abbreviation at_key k := (filter (λ x : A, name x = k)).

Lemma first_of_head n l : first_of n l = head (at_key n l).
Proof.
  induction l as [|x l IH]; [done|]. simpl first_of. rewrite filter_cons.
  case_bool_decide; [by rewrite decide_True|by rewrite decide_False].
Qed.

Lemma by_name_head n l : by_name l !! n = head (at_key n l).
Proof. by rewrite by_name_first_of, first_of_head. Qed.

Lemma at_key_remove_first k n l :
  at_key k (remove_first n l) = if decide (n = k) then tail (at_key k l) else at_key k l.
Proof.
  induction l as [|x l IH]; [by case_decide|]. simpl remove_first. rewrite filter_cons.
  case_bool_decide as E.
  - destruct (decide (n = k)); [by rewrite decide_True by congruence|].
    by rewrite decide_False by congruence.
  - rewrite filter_cons, IH. destruct (decide (n = k)); [|done].
    by rewrite !decide_False by congruence.
Qed.

Lemma at_key_snoc k l x :
  at_key k (l ++ [x]) = if decide (name x = k) then at_key k l ++ [x] else at_key k l.
Proof.
  rewrite filter_app, filter_cons, filter_nil. case_decide; [done|]. by rewrite app_nil_r.
Qed.

Lemma NoDup_names_at_key l : NoDup (names l) ↔ ∀ k, length (at_key k l) ≤ 1.
Proof.
  induction l as [|x l IH]; [split; [simpl; lia|constructor]|].
  change (names (x :: l)) with (name x :: names l). rewrite NoDup_cons, IH.
  assert (name x ∉ names l ↔ at_key (name x) l = []) as ->.
  { rewrite <- by_name_None, by_name_head. by destruct (at_key (name x) l). }
  split.
  - intros [Hx Hl] k. rewrite filter_cons. case_decide; [subst; by rewrite Hx|done].
  - intros H. split.
    + specialize (H (name x)). rewrite filter_cons_True in H by done.
      destruct (at_key (name x) l); [done|simpl in H; lia].
    + intros k. specialize (H k). rewrite filter_cons in H. case_decide; simpl in H; lia.
Qed.

(** A loop whose steps each touch the items of one name only. *)
Lemma at_key_foldl (step : list A → string → list A) (f : string → list A → list A) k l order :
  (∀ l n, at_key k (step l n) = if decide (n = k) then f k (at_key k l) else at_key k l) →
  NoDup order →
  at_key k (foldl step l order) = if decide (k ∈ order) then f k (at_key k l) else at_key k l.
Proof.
  intros Hstep. revert l. induction order as [|n order IH]; intros l Hnd; simpl; [done|].
  apply NoDup_cons in Hnd as [Hn Hnd]. rewrite IH, Hstep by done.
  destruct (decide (n = k)) as [->|Hne].
  - rewrite decide_False by done. by rewrite decide_True by constructor.
  - destruct (decide (k ∈ order)); [by rewrite decide_True by by constructor|].
    rewrite decide_False; [done|]. intros [->|?]%elem_of_cons; done.
Qed.

Lemma last_by_name_lookup_name l n x : last_by_name l !! n = Some x → name x = n ∧ x ∈ l.
Proof.
  unfold last_by_name.
  assert (∀ m : gmap string A, (∀ n x, m !! n = Some x → name x = n ∧ x ∈ l) →
    ∀ l', l' ⊆ l → ∀ n x, foldl (λ m x, <[name x := x]> m) m l' !! n = Some x →
    name x = n ∧ x ∈ l) as H; [|apply (H ∅); set_solver].
  intros m Hm l'. revert m Hm. induction l' as [|y l' IH]; intros m Hm Hsub; simpl; [done|].
  apply IH; [|set_solver]. intros k z. rewrite lookup_insert_Some.
  intros [[<- <-]|[_ Hz]]; [set_solver|by apply Hm].
Qed.

(** Picking items of a map by a list of names. *)
Lemma names_omap (m : gmap string A) ns :
  (∀ n x, m !! n = Some x → name x = n) →
  names (omap (λ n, m !! n) ns) = filter (λ n, is_Some (m !! n)) ns.
Proof.
  intros Hname. unfold names. induction ns as [|n ns IH]; [done|]. simpl. rewrite filter_cons.
  destruct (m !! n) as [x|] eqn:E.
  - rewrite decide_True by by eexists. simpl. by rewrite (Hname _ _ E), <- IH.
  - rewrite decide_False by by intros [].  done.
Qed.

Lemma by_name_omap (m : gmap string A) ns n :
  (∀ n x, m !! n = Some x → name x = n) →
  by_name (omap (λ n, m !! n) ns) !! n = if decide (n ∈ ns) then m !! n else None.
Proof.
  intros Hname. induction ns as [|k ns IH]; [done|]. csimpl.
  destruct (m !! k) as [x|] eqn:E.
  - rewrite by_name_cons, (Hname _ _ E). destruct (decide (k = n)) as [->|Hne].
    + rewrite lookup_insert_eq, decide_True by constructor. done.
    + rewrite lookup_insert_ne, IH by done.
      destruct (decide (n ∈ ns)); [by rewrite decide_True by by constructor|].
      by rewrite decide_False by by intros [->|?]%elem_of_cons.
  - rewrite IH. destruct (decide (n ∈ ns)); [by rewrite decide_True by by constructor|].
    destruct (decide (n ∈ k :: ns)) as [[->|?]%elem_of_cons|]; done.
Qed.

Lemma last_by_name_dom l n : is_Some (last_by_name l !! n) ↔ n ∈ names l.
Proof.
  unfold last_by_name, names. rewrite <- elem_of_dom.
  assert (∀ m, dom (foldl (λ (m : gmap string A) x, <[name x := x]> m) m l)
    = list_to_set (name <$> l) ∪ dom m) as ->; [|set_solver].
  induction l as [|x l IH]; intros m; simpl; [set_solver|]. rewrite IH. set_solver.
Qed.
End named.

#[export] Hint Resolve names_remove_first_NoDup names_sort_NoDup names_snoc_NoDup : ssm.
