(* ===== verification/VaultBlob.v ===== *)
(** * The encrypted vault format ([internal/vault/vault.go])

    A vault file is a versioned header followed by an AES-GCM ciphertext whose
    key is derived from the master password with Argon2id. Version 2 stores a
    64-bit generation number in the header and authenticates it as additional
    data. The Argon2 derivation (third party) and AES-GCM are the parameters
    [argon2_IDKey], [gcm_seal] and [gcm_open] of [VaultCrypto]; the laws are
    their documented behaviour. *)

From S2P Require Import Prelude GoStrings GoErrors.
From Stdlib Require Import Strings.Byte.

(** ** The cryptographic interface *)

Class VaultCrypto := {
  argon2_IDKey : bytes → bytes → N → N → N → nat → bytes;
  gcm_seal : bytes → bytes → bytes → bytes → bytes;
  gcm_open : bytes → bytes → bytes → bytes → option bytes;
}.

Class VaultCryptoLaws (C : VaultCrypto) : Prop := {
  argon2_length pw salt t m p n : length (argon2_IDKey pw salt t m p n) = n;
  gcm_seal_length key nonce plain aad :
    length (gcm_seal key nonce plain aad) = length plain + 16;
  gcm_open_seal key nonce plain aad :
    gcm_open key nonce (gcm_seal key nonce plain aad) aad = Some plain;
}.

(** AES-GCM authenticates its additional data: a ciphertext opens under the data
    it was sealed with and no other. The law is stated for data no longer than
    the nine header bytes the format authenticates. *)
Definition gcm_binds_aad (C : VaultCrypto) : Prop :=
  ∀ key nonce plain aad aad',
    length aad ≤ 9 → length aad' ≤ 9 → aad ≠ aad' →
    gcm_open key nonce (gcm_seal key nonce plain aad) aad' = None.

(** ** Constants and errors *)

Definition versionV1 : byte := x01.
Definition versionV2 : byte := x02.
Definition saltLen : nat := 16.
Definition nonceLen : nat := 12.
Definition keyLen : nat := 32.
Definition headerLen : nat := 1 + saltLen + nonceLen.
Definition v2HeaderLen : nat := 1 + 8 + saltLen + nonceLen.
Definition argonTime : N := 3.
Definition argonMem : N := 65536.
Definition argonPar : N := 4.

Definition ErrWrongPassword : goerror := Sentinel "vault.ErrWrongPassword" [].

(** [rand.Read] into a slice of [n] bytes fills it or fails. *)
Definition rand_read (n : nat) (what : string) (draw : option bytes) : result bytes :=
  match draw with
  | Some d => Ok (take n (d ++ replicate n x00))
  | None => Fail (Wrap what [Errorf "rand"])
  end.

(** [data[lo:hi]]. *)
Definition slice (lo hi : nat) (data : bytes) : bytes := take (hi - lo) (drop lo data).

Section Vault.
Context `{C : VaultCrypto}.

Definition derive (password salt : bytes) : bytes :=
  argon2_IDKey password salt argonTime argonMem argonPar keyLen.

(** [aes.NewCipher] accepts 16, 24 and 32 byte keys. *)
Definition aes_key_ok (key : bytes) : bool :=
  bool_decide (length key ∈ [16; 24; 32]).

(** The two [rand.Read] calls draw the salt and the nonce. *)
Definition Encrypt (draws : option bytes * option bytes)
    (plaintext password : bytes) (generation : Z) : result bytes :=
  salt ← rand_read saltLen "salt" (fst draws);
  let key := derive password salt in
  _ ← check (aes_key_ok key) (Errorf "crypto/aes: invalid key size");
  nonce ← rand_read nonceLen "nonce" (snd draws);
  let header := versionV2 :: be_encode 8 generation ++ salt ++ nonce in
  let ciphertext := gcm_seal key nonce plaintext (take 9 header) in
  Ok (header ++ ciphertext).

Definition Decrypt (data password : bytes) : result bytes :=
  if bool_decide (length data < headerLen + 16) then Fail ErrWrongPassword
  else
    '(salt, nonce, aad, start) ←
      match data with
      | x01 :: _ =>
          Ok (slice 1 (1 + saltLen) data, slice (1 + saltLen) headerLen data, [], headerLen)
      | x02 :: _ =>
          if bool_decide (length data < v2HeaderLen + 16) then Fail ErrWrongPassword
          else Ok (slice 9 (9 + saltLen) data, slice (9 + saltLen) v2HeaderLen data,
                   take 9 data, v2HeaderLen)
      | _ => Fail (Errorf "unsupported version")
      end;
    let key := derive password salt in
    _ ← check (aes_key_ok key) (Errorf "crypto/aes: invalid key size");
    match gcm_open key nonce (drop start data) aad with
    | Some plaintext => Ok plaintext
    | None => Fail ErrWrongPassword
    end.
End Vault.

(** [Generation] and [ValidBlob] read the header only. *)
Definition Generation (data : bytes) : Z * bool :=
  match data with
  | x01 :: _ => (0%Z, bool_decide (headerLen + 16 ≤ length data))
  | x02 :: _ =>
      if bool_decide (length data < v2HeaderLen + 16) then (0%Z, false)
      else (be_decode (slice 1 9 data), true)
  | _ => (0%Z, false)
  end.

Definition ValidBlob (data : bytes) : bool :=
  match data with
  | x01 :: _ => bool_decide (headerLen + 16 ≤ length data)
  | x02 :: _ => bool_decide (v2HeaderLen + 16 ≤ length data)
  | _ => false
  end.

(** ** Properties *)

Lemma rand_read_length n what draw b : rand_read n what draw = Ok b → length b = n.
Proof.
  destruct draw; simpl; intros; simplify_eq.
  rewrite length_take, length_app, length_replicate. lia.
Qed.

Lemma Generation_ValidBlob data : snd (Generation data) = ValidBlob data.
Proof.
  unfold Generation, ValidBlob. destruct data as [|[] data]; try done.
  case_bool_decide; case_bool_decide; simpl in *; lia || done.
Qed.

Section Properties.
Context `{L : VaultCryptoLaws}.

Lemma derive_ok pw salt : aes_key_ok (derive pw salt) = true.
Proof.
  unfold aes_key_ok, derive. rewrite argon2_length. by vm_compute.
Qed.

(** The shape of every blob [Encrypt] writes. *)
Lemma Encrypt_inv draws plain pw gen blob :
  Encrypt draws plain pw gen = Ok blob →
  ∃ salt nonce, length salt = saltLen ∧ length nonce = nonceLen ∧
    blob = (versionV2 :: be_encode 8 gen) ++ salt ++ nonce ++
      gcm_seal (derive pw salt) nonce plain (versionV2 :: be_encode 8 gen).
Proof.
  unfold Encrypt. intros H. inv_ok H. simplify_eq.
  exists a, a1. split_and!; [by eapply rand_read_length..|].
  simpl. by rewrite <- !app_assoc.
Qed.

Lemma Encrypt_total s n plain pw gen :
  ∃ blob, Encrypt (Some s, Some n) plain pw gen = Ok blob.
Proof. unfold Encrypt. cbn -[take]. rewrite derive_ok. eauto. Qed.

(** Reading back the parts of a version 2 blob. *)
Lemma Decrypt_v2 gen8 salt nonce cipher pw :
  length gen8 = 8 → length salt = saltLen → length nonce = nonceLen →
  16 ≤ length cipher →
  Decrypt ((versionV2 :: gen8) ++ salt ++ nonce ++ cipher) pw =
  match gcm_open (derive pw salt) nonce cipher (versionV2 :: gen8) with
  | Some p => Ok p
  | None => Fail ErrWrongPassword
  end.
Proof.
  intros Hg Hs Hn Hc. unfold Decrypt.
  assert (length ((versionV2 :: gen8) ++ salt ++ nonce ++ cipher)
          = v2HeaderLen + length cipher) as Hlen.
  { rewrite !length_app. simpl length. rewrite Hg, Hs, Hn. unfold v2HeaderLen. lia. }
  rewrite bool_decide_eq_false_2 by (rewrite Hlen; unfold v2HeaderLen, headerLen; lia).
  assert (take 9 ((versionV2 :: gen8) ++ salt ++ nonce ++ cipher) = versionV2 :: gen8) as ->.
  { by rewrite take_app_length' by (simpl; lia). }
  assert (slice 9 (9 + saltLen) ((versionV2 :: gen8) ++ salt ++ nonce ++ cipher) = salt) as ->.
  { unfold slice. rewrite drop_app_length' by (simpl; lia).
    by rewrite take_app_length' by (rewrite Hs; unfold saltLen; lia). }
  assert (slice (9 + saltLen) v2HeaderLen ((versionV2 :: gen8) ++ salt ++ nonce ++ cipher) = nonce) as ->.
  { unfold slice. rewrite (app_assoc (_ :: _)), drop_app_length'
      by (rewrite length_app, Hs; simpl; lia).
    by rewrite take_app_length' by (rewrite Hn; unfold v2HeaderLen, nonceLen, saltLen; lia). }
  assert (drop v2HeaderLen ((versionV2 :: gen8) ++ salt ++ nonce ++ cipher) = cipher) as Hdrop.
  { rewrite (app_assoc salt), (app_assoc (_ :: _)), drop_app_length'; [done|].
    rewrite !length_app. simpl length. rewrite Hg, Hs, Hn. done. }
  rewrite (bool_decide_eq_false_2 (_ < v2HeaderLen + 16)) by (rewrite Hlen; lia).
  change (?g ++ salt ++ nonce ++ cipher) with (x02 :: (gen8 ++ salt ++ nonce ++ cipher)) in *.
  cbv iota. cbn [mbind result_bind]. rewrite Hdrop. by rewrite derive_ok.
Qed.

(** The same for a version 1 blob, which authenticates nothing. *)
Lemma Decrypt_v1 salt nonce cipher pw :
  length salt = saltLen → length nonce = nonceLen → 16 ≤ length cipher →
  Decrypt (versionV1 :: salt ++ nonce ++ cipher) pw =
  match gcm_open (derive pw salt) nonce cipher [] with
  | Some p => Ok p
  | None => Fail ErrWrongPassword
  end.
Proof.
  intros Hs Hn Hc. unfold Decrypt.
  rewrite bool_decide_eq_false_2
    by (cbn [length]; rewrite !length_app, Hs, Hn; unfold headerLen; lia).
  change versionV1 with x01. cbv iota. cbn [mbind result_bind].
  assert (slice 1 (1 + saltLen) (x01 :: salt ++ nonce ++ cipher) = salt) as ->.
  { unfold slice. cbn [drop]. by rewrite drop_0, take_app_length' by (rewrite Hs; done). }
  assert (slice (1 + saltLen) headerLen (x01 :: salt ++ nonce ++ cipher) = nonce) as ->.
  { unfold slice. change (drop (1 + saltLen) (x01 :: ?r)) with (drop saltLen r).
    rewrite drop_app_length' by done. by rewrite take_app_length' by (rewrite Hn; done). }
  assert (drop headerLen (x01 :: salt ++ nonce ++ cipher) = cipher) as ->.
  { change (drop headerLen (x01 :: ?r)) with (drop (saltLen + nonceLen) r).
    rewrite app_assoc. by rewrite drop_app_length' by (rewrite length_app; lia). }
  by rewrite derive_ok.
Qed.

(** What decryption of the three parts gives, from the shape of a blob. *)
Lemma Encrypt_Generation salt nonce cipher gen :
  (0 ≤ gen < 2 ^ 64)%Z → length salt = saltLen → length nonce = nonceLen →
  16 ≤ length cipher →
  Generation ((versionV2 :: be_encode 8 gen) ++ salt ++ nonce ++ cipher) = (gen, true).
Proof.
  intros Hgen Hs Hn Hc. unfold Generation. change versionV2 with x02. cbv iota.
  cbn [app]. rewrite bool_decide_eq_false_2.
  - f_equal. unfold slice. cbn [drop]. simpl (9 - 1).
    rewrite drop_0, take_app_length' by (by rewrite be_encode_length).
    rewrite be_decode_encode. by apply Z.mod_small.
  - cbn [length]. rewrite !length_app, be_encode_length, Hs, Hn. unfold v2HeaderLen. lia.
Qed.

Lemma Encrypt_decrypts draws plain pw gen blob :
  Encrypt draws plain pw gen = Ok blob → Decrypt blob pw = Ok plain ∧ ValidBlob blob = true.
Proof.
  intros (salt & nonce & Hs & Hn & ->)%Encrypt_inv. split.
  - rewrite Decrypt_v2, gcm_open_seal; try done;
      first [apply be_encode_length | rewrite gcm_seal_length; lia].
  - cbn [app]. change versionV2 with x02. unfold ValidBlob. apply bool_decide_eq_true_2.
    cbn [length]. rewrite !length_app, be_encode_length, Hs, Hn, gcm_seal_length. unfold v2HeaderLen. lia.
Qed.

Lemma Encrypt_Decrypt draws plain pw gen blob :
  (0 ≤ gen < 2 ^ 64)%Z → Encrypt draws plain pw gen = Ok blob →
  Decrypt blob pw = Ok plain ∧ Generation blob = (gen, true) ∧ ValidBlob blob = true.
Proof.
  intros Hgen (salt & nonce & Hs & Hn & ->)%Encrypt_inv.
  rewrite <- Generation_ValidBlob, Encrypt_Generation, Decrypt_v2, gcm_open_seal; try done;
    first [apply be_encode_length | rewrite gcm_seal_length; lia].
Qed.

(** C40: decrypting what [Encrypt] wrote with the same password gives the
    plaintext back, and the header alone shows a well-formed blob carrying the
    generation it was written with. *)
Theorem encrypt_roundtrip draws plain pw gen blob :
  (0 ≤ gen < 2 ^ 64)%Z → Encrypt draws plain pw gen = Ok blob →
  Decrypt blob pw = Ok plain ∧ Generation blob = (gen, true) ∧ ValidBlob blob = true.
Proof. apply Encrypt_Decrypt. Qed.

(** the header is authenticated. Neither replacing the eight generation
    bytes of a version 2 blob nor stripping them to make it look like a version
    1 blob leaves a blob that decrypts, so a server cannot move a vault
    backwards or forwards by editing its header. *)
Theorem header_tamper_rejected draws plain pw gen gen8 blob :
  gcm_binds_aad C → Encrypt draws plain pw gen = Ok blob →
  length gen8 = 8 → gen8 ≠ be_encode 8 gen →
  Decrypt (versionV2 :: gen8 ++ drop 9 blob) pw = Fail ErrWrongPassword ∧
  Decrypt (versionV1 :: drop 9 blob) pw = Fail ErrWrongPassword.
Proof.
  intros Hbind (salt & nonce & Hs & Hn & ->)%Encrypt_inv Hlen Hne.
  pose proof (be_encode_length 8 gen) as Henc.
  rewrite drop_app_length' by done.
  change (versionV2 :: gen8 ++ ?r) with ((versionV2 :: gen8) ++ r).
  rewrite Decrypt_v2, Decrypt_v1, !Hbind; try done; cbn [length];
    first [rewrite Hlen; lia | rewrite gcm_seal_length; lia | congruence | lia].
Qed.
End Properties.

(** a blob whose shape [ValidBlob] refuses is never decrypted, whatever the
    password and the cipher, and [Generation] reports no generation for it. *)
Theorem invalid_blob_rejected `{VaultCrypto} data pw :
  ValidBlob data = false →
  is_ok (Decrypt data pw) = false ∧ snd (Generation data) = false.
Proof.
  intros HV. split; [|by rewrite Generation_ValidBlob]. revert HV.
  unfold ValidBlob, Decrypt.
  destruct (bool_decide (length data < headerLen + 16)) eqn:Hshort; [done|].
  destruct data as [|[] data]; try done; intros HV; bool_to_prop; [lia|].
  by rewrite bool_decide_eq_true_2 by lia.
Qed.

(** ** A concrete instance

    A transparent "cipher" that keeps the plaintext in front of a 16-byte tag
    made of the additional data; it satisfies the laws, and shows that they are
    consistent. *)
Definition pad16 (b : bytes) : bytes :=
  take 16 (byte_of_Z (Z.of_nat (length b)) :: b ++ replicate 16 x00).

Definition toy_crypto : VaultCrypto := {|
  argon2_IDKey pw salt _ _ _ n := take n (pw ++ salt ++ replicate n x00);
  gcm_seal _ _ plain aad := plain ++ pad16 aad;
  gcm_open _ _ cipher aad :=
    let plain := take (length cipher - 16) cipher in
    if bool_decide (drop (length cipher - 16) cipher = pad16 aad) then Some plain else None;
|}.

Lemma pad16_length b : length (pad16 b) = 16.
Proof. unfold pad16. rewrite length_take. cbn [length]. rewrite length_app, length_replicate. lia. Qed.

Lemma pad16_inj b b' : length b ≤ 9 → length b' ≤ 9 → pad16 b = pad16 b' → b = b'.
Proof.
  unfold pad16. intros Hb Hb' [= Hlen Hbody].
  apply (f_equal Z_of_byte) in Hlen. rewrite !Z_of_byte_of_Z, !Z.mod_small in Hlen by lia.
  apply (f_equal (take (length b))) in Hbody. rewrite !take_take in Hbody.
  rewrite Nat.min_l, take_app_length, take_app_length' in Hbody by lia. done.
Qed.

#[export] Instance toy_crypto_laws : VaultCryptoLaws toy_crypto.
Proof.
  split; simpl; intros.
  - rewrite length_take, !length_app, length_replicate. lia.
  - by rewrite length_app, pad16_length.
  - rewrite length_app, pad16_length.
    replace (length plain + 16 - 16) with (length plain) by lia.
    by rewrite take_app_length, drop_app_length, bool_decide_eq_true_2.
Qed.

Lemma toy_crypto_binds : gcm_binds_aad toy_crypto.
Proof.
  intros key nonce plain aad aad' Ha Ha' Hne. simpl.
  rewrite length_app, pad16_length. replace (length plain + 16 - 16) with (length plain) by lia.
  rewrite drop_app_length, bool_decide_eq_false_2; [done|].
  intros Heq. by apply Hne, pad16_inj.
Qed.

Definition toy_draws : option bytes * option bytes := (Some [x11; x12], Some [x21]).
Definition toy_blob : bytes :=
  match Encrypt (C := toy_crypto) toy_draws [x41; x42; x43] [x70; x77] 7 with
  | Ok b => b
  | Fail _ => []
  end.

Lemma encrypt_roundtrip_witness :
  Decrypt (C := toy_crypto) toy_blob [x70; x77] = Ok [x41; x42; x43] ∧
  Generation toy_blob = (7%Z, true) ∧ ValidBlob toy_blob = true.
Proof.
  apply (encrypt_roundtrip (C := toy_crypto) toy_draws); [lia | by vm_compute].
Defined.

Lemma header_tamper_rejected_witness :
  Decrypt (C := toy_crypto) (versionV2 :: be_encode 8 8 ++ drop 9 toy_blob) [x70; x77]
    = Fail ErrWrongPassword ∧
  Decrypt (C := toy_crypto) (versionV1 :: drop 9 toy_blob) [x70; x77] = Fail ErrWrongPassword.
Proof.
  apply (header_tamper_rejected (C := toy_crypto) toy_draws [x41; x42; x43] [x70; x77] 7);
    [apply toy_crypto_binds | by vm_compute | done | by vm_compute].
Defined.

Lemma invalid_blob_rejected_witness :
  is_ok (Decrypt (C := toy_crypto) [x02; x00] []) = false ∧ snd (Generation [x02; x00]) = false.
Proof. apply invalid_blob_rejected. by vm_compute. Defined.
