(* ===== verification/FailurePolicy.v ===== *)
(** * Failure kinds and their public policy ([internal/machinecontract/contract.go])

    A failure is identified inside the program by a [Kind]; its public code,
    stage, hint and exit status come from one table, [failurePolicies]. This file
    is the table: the kinds, the codes and the policy of each kind, in the order
    of the source. *)

From S2P Require Import Prelude GoStrings.

Definition Kind := string.

(** ** Kinds *)

Definition InternalFailure : Kind := "internal_failure".
Definition UnknownSSHCTLCommand : Kind := "unknown_sshctl_command".
Definition UnknownSSMCommand : Kind := "unknown_ssm_command".
Definition InvalidRequestDocument : Kind := "invalid_request_document".
Definition MasterPassFileRequiredCreate : Kind := "master_pass_file_required_create".
Definition AliasNotFound : Kind := "alias_not_found".
Definition SyncConflict : Kind := "sync_conflict".
Definition EmptyLedgerSyncConflict : Kind := "empty_ledger_sync_conflict".
Definition SyncPullFailed : Kind := "sync_pull_failed".
Definition StreamSyncPullFailed : Kind := "stream_sync_pull_failed".
Definition TransferLocalRead : Kind := "transfer_local_read".
Definition DialTimeout : Kind := "dial_timeout".
Definition DialRefused : Kind := "dial_refused".
Definition DialNetwork : Kind := "dial_network".
Definition HostKeyUnknown : Kind := "host_key_unknown".
Definition HostKeyMismatch : Kind := "host_key_mismatch".
Definition HostKeyTypeChanged : Kind := "host_key_type_changed".
Definition AuthenticationFailed : Kind := "authentication_failed".
Definition NoAuthenticationConfigured : Kind := "no_authentication_configured".
Definition SessionFailed : Kind := "session_failed".
Definition SessionLimit : Kind := "session_limit".
Definition RemoteCommandFailed : Kind := "remote_command_failed".
Definition InterpreterNotFound : Kind := "interpreter_not_found".
Definition RemoteScriptFailed : Kind := "remote_script_failed".
Definition RunInterrupted : Kind := "run_interrupted".
Definition ConnectionLost : Kind := "connection_lost".
Definition HandshakeFailed : Kind := "handshake_failed".
Definition ExecTimedOut : Kind := "exec_timed_out".
Definition WaitTimeout : Kind := "wait_timeout".
Definition TunnelInvalidArguments : Kind := "tunnel_invalid_arguments".
Definition TunnelBindFailed : Kind := "tunnel_bind_failed".
Definition TunnelRemoteBindRefused : Kind := "tunnel_remote_bind_refused".
Definition ScriptSyntaxFailed : Kind := "script_syntax_failed".
Definition HostInvalidArguments : Kind := "host_invalid_arguments".
Definition HostApplyInvalidArguments : Kind := "host_apply_invalid_arguments".
Definition HostAliasNotFound : Kind := "host_alias_not_found".
Definition HostVerificationFailed : Kind := "host_verification_failed".
Definition HostPushFailed : Kind := "host_push_failed".
Definition HostSyncPullFailed : Kind := "host_sync_pull_failed".
Definition HostVaultFailed : Kind := "host_vault_failed".
Definition HostAuthenticationRequired : Kind := "host_authentication_required".
Definition HostApplyAuthenticationRequired : Kind := "host_apply_authentication_required".
Definition HostConfirmationRequired : Kind := "host_confirmation_required".
Definition HostAlreadyExists : Kind := "host_already_exists".
Definition HostInvalidAlias : Kind := "host_invalid_alias".
Definition HostSavedKeyNotFound : Kind := "host_saved_key_not_found".
Definition HostInvalidAddress : Kind := "host_invalid_address".
Definition HostInvalidUser : Kind := "host_invalid_user".
Definition HostInvalidGroup : Kind := "host_invalid_group".
Definition HostPasswordFileFailed : Kind := "host_password_file_failed".
Definition HostKeyFileFailed : Kind := "host_key_file_failed".
Definition HostInvalidKey : Kind := "host_invalid_key".
Definition HostKeyConflict : Kind := "host_key_conflict".
Definition HostTransactionFailed : Kind := "host_transaction_failed".
Definition HostInternalFailure : Kind := "host_internal_failure".
Definition PanicFailure : Kind := "panic_failure".
Definition GenericFailure : Kind := "generic_failure".
Definition UpdateFailed : Kind := "update_failed".
Definition UpdateRecoveryRequired : Kind := "update_recovery_required".
Definition UpdateMigrationFailed : Kind := "update_migration_failed".
Definition MissingCommand : Kind := "missing_command".
Definition InvalidGlobalArguments : Kind := "invalid_global_arguments".
Definition SSHCTLCommandRequired : Kind := "sshctl_command_required".
Definition InvalidSSHCTLArguments : Kind := "invalid_sshctl_arguments".
Definition RunAliasRequired : Kind := "run_alias_required".
Definition PlanAliasRequired : Kind := "plan_alias_required".
Definition CheckAliasRequired : Kind := "check_alias_required".
Definition UnsupportedInteractiveShell : Kind := "unsupported_interactive_shell".
Definition InvalidStreamArguments : Kind := "invalid_stream_arguments".
Definition MasterPassFileReadFailed : Kind := "master_pass_file_read_failed".
Definition MasterPassFileEmpty : Kind := "master_pass_file_empty".
Definition VaultCreateFailed : Kind := "vault_create_failed".
Definition VaultUnlockFailed : Kind := "vault_unlock_failed".
Definition MasterPassFileRequiredExisting : Kind := "master_pass_file_required_existing".
Definition InvalidRequestRun : Kind := "invalid_request_run".
Definition InvalidRequestAlias : Kind := "invalid_request_alias".
Definition InvalidRequestCheck : Kind := "invalid_request_check".
Definition InvalidRequestDoctor : Kind := "invalid_request_doctor".
Definition InvalidRequestDoctorAlias : Kind := "invalid_request_doctor_alias".
Definition InvalidRequestHost : Kind := "invalid_request_host".
Definition InvalidRequestPutFields : Kind := "invalid_request_put_fields".
Definition InvalidRequestPutPaths : Kind := "invalid_request_put_paths".
Definition InvalidRequestTimeout : Kind := "invalid_request_timeout".
Definition InvalidRequestOperation : Kind := "invalid_request_operation".
Definition StreamVaultUnlockFailed : Kind := "stream_vault_unlock_failed".
Definition StreamDecodeFailed : Kind := "stream_decode_failed".
Definition StreamReadFailed : Kind := "stream_read_failed".
Definition RegisterArgumentsInvalid : Kind := "register_arguments_invalid".
Definition LoginArgumentsInvalid : Kind := "login_arguments_invalid".
Definition PushArgumentsInvalid : Kind := "push_arguments_invalid".
Definition PushOnlyRequired : Kind := "push_only_required".
Definition PushScopeConflict : Kind := "push_scope_conflict".
Definition SyncPushFailed : Kind := "sync_push_failed".
Definition SyncUnconfigured : Kind := "sync_unconfigured".
Definition SyncConfigurationFailed : Kind := "sync_configuration_failed".
Definition SyncPullReplaceFailed : Kind := "sync_pull_replace_failed".
Definition TransferArgumentsInvalid : Kind := "transfer_arguments_invalid".
Definition MapNoTargets : Kind := "map_no_targets".
Definition RedirectActionRequired : Kind := "redirect_action_required".
Definition RedirectSetArgumentsInvalid : Kind := "redirect_set_arguments_invalid".
Definition RedirectRemoveArgumentsInvalid : Kind := "redirect_remove_arguments_invalid".
Definition RedirectActionInvalid : Kind := "redirect_action_invalid".
Definition ImportArgumentsInvalid : Kind := "import_arguments_invalid".
Definition ImportCountMismatch : Kind := "import_count_mismatch".
Definition MergeReportFailed : Kind := "merge_report_failed".
Definition RunAliasNotFound : Kind := "run_alias_not_found".
Definition MapAliasNotFound : Kind := "map_alias_not_found".
Definition DoctorAliasNotFound : Kind := "doctor_alias_not_found".
Definition SessionAcquisitionFailed : Kind := "session_acquisition_failed".
Definition SSHStdinFailed : Kind := "ssh_stdin_failed".
Definition InvalidRunArguments : Kind := "invalid_run_arguments".
Definition HostKeyArgumentsInvalid : Kind := "host_key_arguments_invalid".
Definition HostKeyVaultFailed : Kind := "host_key_vault_failed".
Definition HostKeyOperationFailed : Kind := "host_key_operation_failed".
Definition HostKeyScanDirectFailed : Kind := "host_key_scan_direct_failed".
Definition HostKeyScanFailed : Kind := "host_key_scan_failed".
Definition KnownHostsPermissionsFailed : Kind := "known_hosts_permissions_failed".
Definition KnownHostsMalformed : Kind := "known_hosts_malformed".
Definition KnownHostsInspectionFailed : Kind := "known_hosts_inspection_failed".
Definition SSHDirectoryPermissionsFailed : Kind := "ssh_directory_permissions_failed".
Definition KnownHostsUnchanged : Kind := "known_hosts_unchanged".
Definition KnownHostsUpdateFailed : Kind := "known_hosts_update_failed".
Definition HostKeyFingerprintMismatch : Kind := "host_key_fingerprint_mismatch".
Definition HostKeyFingerprintChanged : Kind := "host_key_fingerprint_changed".
Definition TransferLocalFileStat : Kind := "transfer_local_file_stat".
Definition TransferRegularFileRequired : Kind := "transfer_regular_file_required".
Definition TransferIntegritySourceRead : Kind := "transfer_integrity_source_read".
Definition TransferSeekableSourceRequired : Kind := "transfer_seekable_source_required".
Definition TransferSessionOpenFailed : Kind := "transfer_session_open_failed".
Definition TransferStdinOpenFailed : Kind := "transfer_stdin_open_failed".
Definition TransferStartFailed : Kind := "transfer_start_failed".
Definition TransferTimedOut : Kind := "transfer_timed_out".
Definition TransferRemoteWriteFailed : Kind := "transfer_remote_write_failed".
Definition TransferRemoteCloseFailed : Kind := "transfer_remote_close_failed".
Definition TransferIntegrityMismatch : Kind := "transfer_integrity_mismatch".
Definition TransferRemotePermissionsFailed : Kind := "transfer_remote_permissions_failed".
Definition TransferReceiptInvalid : Kind := "transfer_receipt_invalid".
Definition ResumeVersionUnsupported : Kind := "resume_version_unsupported".
Definition ResumeRegularFileRequired : Kind := "resume_regular_file_required".
Definition ResumeSourceReadFailed : Kind := "resume_source_read_failed".
Definition ResumeSourceChanged : Kind := "resume_source_changed".
Definition ResumePartialMismatch : Kind := "resume_partial_mismatch".
Definition ResumeSourceSeekFailed : Kind := "resume_source_seek_failed".
Definition ResumeStdinOpenFailed : Kind := "resume_stdin_open_failed".
Definition ResumeStartFailed : Kind := "resume_start_failed".
Definition ResumeTimedOut : Kind := "resume_timed_out".
Definition ResumeRemoteWriteFailed : Kind := "resume_remote_write_failed".
Definition ResumeRetryFailed : Kind := "resume_retry_failed".
Definition ResumeVerificationToolMissing : Kind := "resume_verification_tool_missing".
Definition ResumeStateChanged : Kind := "resume_state_changed".
Definition ResumeIntegrityMismatch : Kind := "resume_integrity_mismatch".
Definition ResumePublishFailed : Kind := "resume_publish_failed".
Definition ResumeReceiptInvalid : Kind := "resume_receipt_invalid".
Definition ResumeProbeSessionFailed : Kind := "resume_probe_session_failed".
Definition ResumeStateIncompatible : Kind := "resume_state_incompatible".
Definition ResumeProbeFailed : Kind := "resume_probe_failed".
Definition ResumeProbeResponseInvalid : Kind := "resume_probe_response_invalid".
Definition TransferDirectorySourceUnsupported : Kind := "transfer_directory_source_unsupported".
Definition TransferDirectoryOptionsUnsupported : Kind := "transfer_directory_options_unsupported".
Definition TransferDownloadRemoteRead : Kind := "transfer_download_remote_read".
Definition TransferDownloadLocalWrite : Kind := "transfer_download_local_write".
Definition TransferDownloadPublish : Kind := "transfer_download_publish".
Definition TransferDownloadRestoreFailed : Kind := "transfer_download_restore_failed".
Definition TransferDownloadIntegrityMismatch : Kind := "transfer_download_integrity_mismatch".
Definition TransferRemoteExtractFailed : Kind := "transfer_remote_extract_failed".
Definition TransferDirModeInvalid : Kind := "transfer_dir_mode_invalid".
Definition IntegrityToolUnavailable : Kind := "integrity_tool_unavailable".
Definition GetArgumentsInvalid : Kind := "get_arguments_invalid".
Definition RemoteShellUnsupported : Kind := "remote_shell_unsupported".
Definition TransferSFTPUnavailable : Kind := "transfer_sftp_unavailable".
Definition TransferSFTPUnsupported : Kind := "transfer_sftp_unsupported".
Definition TransferSFTPReadbackUnavailable : Kind := "transfer_sftp_readback_unavailable".
Definition InvalidProxyJump : Kind := "invalid_proxy_jump".
Definition CopyArgumentsInvalid : Kind := "copy_arguments_invalid".
Definition CopyDirectoryUnsupported : Kind := "copy_directory_unsupported".
Definition CopyDirectConfirmationRequired : Kind := "copy_direct_confirmation_required".
Definition CopyDirectUnsupported : Kind := "copy_direct_unsupported".
Definition CopyDirectSSHUnavailable : Kind := "copy_direct_ssh_unavailable".
Definition CopyDirectAgentUnavailable : Kind := "copy_direct_agent_unavailable".

(** Every declared kind. *)
Definition all_kinds : list Kind := [
  InternalFailure; UnknownSSHCTLCommand; UnknownSSMCommand;
  InvalidRequestDocument; MasterPassFileRequiredCreate; AliasNotFound;
  SyncConflict; EmptyLedgerSyncConflict; SyncPullFailed;
  StreamSyncPullFailed; TransferLocalRead; DialTimeout;
  DialRefused; DialNetwork; HostKeyUnknown;
  HostKeyMismatch; HostKeyTypeChanged; AuthenticationFailed;
  NoAuthenticationConfigured; SessionFailed; SessionLimit;
  RemoteCommandFailed; InterpreterNotFound; RemoteScriptFailed;
  RunInterrupted; ConnectionLost; HandshakeFailed;
  ExecTimedOut; WaitTimeout; TunnelInvalidArguments;
  TunnelBindFailed; TunnelRemoteBindRefused; ScriptSyntaxFailed;
  HostInvalidArguments; HostApplyInvalidArguments; HostAliasNotFound;
  HostVerificationFailed; HostPushFailed; HostSyncPullFailed;
  HostVaultFailed; HostAuthenticationRequired; HostApplyAuthenticationRequired;
  HostConfirmationRequired; HostAlreadyExists; HostInvalidAlias;
  HostSavedKeyNotFound; HostInvalidAddress; HostInvalidUser;
  HostInvalidGroup; HostPasswordFileFailed; HostKeyFileFailed;
  HostInvalidKey; HostKeyConflict; HostTransactionFailed;
  HostInternalFailure; PanicFailure; GenericFailure;
  UpdateFailed; UpdateRecoveryRequired; UpdateMigrationFailed;
  MissingCommand; InvalidGlobalArguments; SSHCTLCommandRequired;
  InvalidSSHCTLArguments; RunAliasRequired; PlanAliasRequired;
  CheckAliasRequired; UnsupportedInteractiveShell; InvalidStreamArguments;
  MasterPassFileReadFailed; MasterPassFileEmpty; VaultCreateFailed;
  VaultUnlockFailed; MasterPassFileRequiredExisting; InvalidRequestRun;
  InvalidRequestAlias; InvalidRequestCheck; InvalidRequestDoctor;
  InvalidRequestDoctorAlias; InvalidRequestHost; InvalidRequestPutFields;
  InvalidRequestPutPaths; InvalidRequestTimeout; InvalidRequestOperation;
  StreamVaultUnlockFailed; StreamDecodeFailed; StreamReadFailed;
  RegisterArgumentsInvalid; LoginArgumentsInvalid; PushArgumentsInvalid;
  PushOnlyRequired; PushScopeConflict; SyncPushFailed;
  SyncUnconfigured; SyncConfigurationFailed; SyncPullReplaceFailed;
  TransferArgumentsInvalid; MapNoTargets; RedirectActionRequired;
  RedirectSetArgumentsInvalid; RedirectRemoveArgumentsInvalid; RedirectActionInvalid;
  ImportArgumentsInvalid; ImportCountMismatch; MergeReportFailed;
  RunAliasNotFound; MapAliasNotFound; DoctorAliasNotFound;
  SessionAcquisitionFailed; SSHStdinFailed; InvalidRunArguments;
  HostKeyArgumentsInvalid; HostKeyVaultFailed; HostKeyOperationFailed;
  HostKeyScanDirectFailed; HostKeyScanFailed; KnownHostsPermissionsFailed;
  KnownHostsMalformed; KnownHostsInspectionFailed; SSHDirectoryPermissionsFailed;
  KnownHostsUnchanged; KnownHostsUpdateFailed; HostKeyFingerprintMismatch;
  HostKeyFingerprintChanged; TransferLocalFileStat; TransferRegularFileRequired;
  TransferIntegritySourceRead; TransferSeekableSourceRequired; TransferSessionOpenFailed;
  TransferStdinOpenFailed; TransferStartFailed; TransferTimedOut;
  TransferRemoteWriteFailed; TransferRemoteCloseFailed; TransferIntegrityMismatch;
  TransferRemotePermissionsFailed; TransferReceiptInvalid; ResumeVersionUnsupported;
  ResumeRegularFileRequired; ResumeSourceReadFailed; ResumeSourceChanged;
  ResumePartialMismatch; ResumeSourceSeekFailed; ResumeStdinOpenFailed;
  ResumeStartFailed; ResumeTimedOut; ResumeRemoteWriteFailed;
  ResumeRetryFailed; ResumeVerificationToolMissing; ResumeStateChanged;
  ResumeIntegrityMismatch; ResumePublishFailed; ResumeReceiptInvalid;
  ResumeProbeSessionFailed; ResumeStateIncompatible; ResumeProbeFailed;
  ResumeProbeResponseInvalid; TransferDirectorySourceUnsupported; TransferDirectoryOptionsUnsupported;
  TransferDownloadRemoteRead; TransferDownloadLocalWrite; TransferDownloadPublish;
  TransferDownloadRestoreFailed; TransferDownloadIntegrityMismatch; TransferRemoteExtractFailed;
  TransferDirModeInvalid; IntegrityToolUnavailable; GetArgumentsInvalid;
  RemoteShellUnsupported; TransferSFTPUnavailable; TransferSFTPUnsupported;
  TransferSFTPReadbackUnavailable; InvalidProxyJump; CopyArgumentsInvalid;
  CopyDirectoryUnsupported; CopyDirectConfirmationRequired; CopyDirectUnsupported;
  CopyDirectSSHUnavailable; CopyDirectAgentUnavailable
].

(** ** Public codes *)

Definition quote : string := String (char 34) "".
Definition ExitConnectionFailed : Z := 255.
Definition interpreterNotFoundPrefix : string := "ssm: error=interpreter_not_found interpreter=".
Definition CodeAliasNotFound : string := "alias_not_found".
Definition CodeInvalidArgs : string := "invalid_arguments".
Definition CodeInvalidRequest : string := "invalid_request".
Definition CodeDialTimeout : string := "dial_timeout".
Definition CodeDialRefused : string := "dial_refused".
Definition CodeDialNetwork : string := "dial_network".
Definition CodeHostKey : string := "host_key_mismatch".
Definition CodeHostKeyUnknown : string := "host_key_unknown".
Definition CodeAuth : string := "auth_failed".
Definition CodeNoAuth : string := "no_auth_configured".
Definition CodeSession : string := "session_failed".
Definition CodeSessionLimit : string := "session_limit".
Definition CodeRemote : string := "remote_failed".
Definition CodeRemoteWrite : string := "remote_write_failed".
Definition CodeInterpreter : string := "interpreter_not_found".
Definition CodeScriptSyntax : string := "script_syntax_error".
Definition CodeRemoteScript : string := "remote_script_failed".
Definition CodeTransfer : string := "transfer_failed".
Definition CodeSyncPull : string := "sync_pull_failed".
Definition CodeSyncPush : string := "sync_push_failed".
Definition CodeInternal : string := "internal".
Definition CodeInterrupted : string := "interrupted".
Definition CodeConnectionLost : string := "connection_lost".
Definition CodeProxyJumpInvalid : string := "proxy_jump_invalid".
Definition CodeHandshakeFailed : string := "handshake_failed".
Definition CodeExecTimeout : string := "exec_timeout".
Definition ExitExecTimeout : Z := 124.
Definition OutcomeUnknown : string := "unknown".
Definition CodeHostKeyTypeChanged : string := "host_key_type_changed".

(** ** Policies *)

Inductive humanStyle := | humanStandard | humanPlain | humanAliasNotFound | humanScript | humanHostVerification | humanHostPush | humanMapNoTargets | humanRunArguments | humanHostKeyOperation | humanPanic | humanLegacyUsage | humanLegacyNotFound | humanLegacyUnknownCommand | humanLegacyMessage | humanRaw | humanDoctorOption | humanImportArguments.
Inductive rendererPolicy := | rendererRequested | rendererHumanOnly.

#[export] Instance humanStyle_eq_dec : EqDecision humanStyle.
Proof. solve_decision. Defined.

Record failurePolicy := mkPolicy {
  Code : string;
  Stage : string;
  Hint : string;
  HumanHint : string;
  Exit : Z;
  Process : Z;
  Human : humanStyle;
  Renderer : rendererPolicy;
  HintFromCause : bool;
  HintFromDetails : bool;
  SuppressMessage : bool;
  Outcome : string;
  TransportWrapper : bool;
}.

Definition failurePolicies_1 : list (Kind * failurePolicy) := [
  (InternalFailure, mkPolicy CodeInternal ""
    ""
    "" 1 0 humanStandard rendererRequested false false false "" false);
  (UnknownSSHCTLCommand, mkPolicy "unknown_command" ""
    "use sshctl run <alias> --argv <command> or sshctl --help"
    "" 2 0 humanStandard rendererRequested false true false "" false);
  (UnknownSSMCommand, mkPolicy "unknown_command" ""
    "use ssm --help for available commands"
    "" 2 0 humanStandard rendererRequested false true false "" false);
  (InvalidRequestDocument, mkPolicy CodeInvalidRequest ""
    "use schema version 1 and exactly one typed operation"
    "" 2 0 humanStandard rendererRequested false false false "" false);
  (MasterPassFileRequiredCreate, mkPolicy "master_pass_file_required" ""
    "provide --master-pass-file or SSM_MASTER_PASS_FILE to create it non-interactively"
    "" 2 0 humanStandard rendererRequested false false false "" false);
  (AliasNotFound, mkPolicy CodeAliasNotFound ""
    "use sshctl host list --json and retry with an exact alias"
    "" ExitConnectionFailed 0 humanAliasNotFound rendererRequested false false false "" false);
  (SyncConflict, mkPolicy "sync_conflict" "sync_compare"
    "local and remote blobs were preserved; inspect sshctl --offline --json doctor, then run sshctl --json pull after review"
    "" 1 0 humanStandard rendererRequested false false false "" false);
  (EmptyLedgerSyncConflict, mkPolicy "sync_conflict" "sync_compare"
    "review sshctl --offline --json doctor and preserve the local vault and sync-conflict.json; run sshctl --json pull --adopt-remote <remote-sha256> --yes only after reviewing the exact remote identity, then use guarded ssm --offline --json import-json <reviewed-file> --merge and publish its reviewed transaction with sshctl --json push --only <transaction-id>"
    "" 1 0 humanStandard rendererRequested false false false "" false);
  (SyncPullFailed, mkPolicy CodeSyncPull "sync_pull"
    "fix sync connectivity or retry explicitly with --offline"
    "" 1 0 humanStandard rendererRequested false false false "" false);
  (StreamSyncPullFailed, mkPolicy CodeSyncPull "sync_pull"
    "fix sync connectivity or retry explicitly with --offline"
    "" 1 0 humanStandard rendererRequested false false false "" false);
  (TransferLocalRead, mkPolicy "local_read_failed" "local_read"
    "verify the local path and read permissions"
    "" 1 0 humanStandard rendererRequested false false false "" false);
  (DialTimeout, mkPolicy CodeDialTimeout "dial"
    "network/host unreachable or filtered; verify host online/firewall/IPv6. Not an ssm quote bug."
    "" ExitConnectionFailed 0 humanStandard rendererRequested false false false "" false);
  (DialRefused, mkPolicy CodeDialRefused "dial"
    "sshd not listening or wrong port; not an ssm quote bug"
    "" ExitConnectionFailed 0 humanStandard rendererRequested false false false "" false);
  (DialNetwork, mkPolicy CodeDialNetwork "dial"
    "routing/DNS/firewall issue; not an ssm quote bug"
    "" ExitConnectionFailed 0 humanStandard rendererRequested false false false "" false);
  (WaitTimeout, mkPolicy "wait_timeout" "wait"
    "the host did not become reachable in time; check the host or increase --timeout (authentication and host-key failures stop wait immediately instead)"
    "" 1 0 humanStandard rendererRequested false false false "" false);
  (TunnelInvalidArguments, mkPolicy "tunnel_invalid_arguments" "tunnel"
    "provide at least one valid -L or -D forward"
    "" 2 0 humanStandard rendererRequested false false false "" false);
  (TunnelBindFailed, mkPolicy "tunnel_bind_failed" "tunnel"
    "the local port is already in use or permission was denied"
    "" 1 0 humanStandard rendererRequested false false false "" false);
  (TunnelRemoteBindRefused, mkPolicy "tunnel_remote_bind_refused" "tunnel"
    "non-loopback binds require --allow-remote-bind --yes"
    "" 2 0 humanStandard rendererRequested false false false "" false);
  (HostKeyUnknown, mkPolicy CodeHostKeyUnknown "dial"
    "run sshctl host-key inspect <alias> --json, verify the observed fingerprint through a trusted channel, then use fingerprint-bound host-key accept"
    "" ExitConnectionFailed 0 humanStandard rendererRequested false false false "" false);
  (HostKeyMismatch, mkPolicy CodeHostKey "dial"
    "do not remove or rescan automatically; run sshctl host-key inspect <alias> --json, verify out-of-band, then accept the exact observed fingerprint"
    "" ExitConnectionFailed 0 humanStandard rendererRequested false false false "" false);
  (HostKeyTypeChanged, mkPolicy CodeHostKeyTypeChanged "dial"
    "the server no longer presents any host key type recorded in known_hosts; do not remove or rescan automatically; run sshctl host-key inspect <alias> --json, verify out-of-band, then accept the exact observed fingerprint (accept adds the new key type and keeps the other recorded types)"
    "" ExitConnectionFailed 0 humanStandard rendererRequested false false false "" false);
  (AuthenticationFailed, mkPolicy CodeAuth "dial"
    "check password/key in vault; not a quote or SSM client bug"
    "" ExitConnectionFailed 0 humanStandard rendererRequested false false false "" false);
  (NoAuthenticationConfigured, mkPolicy CodeNoAuth "dial"
    "update host auth with sshctl host update <alias> --key-file <path> or --password-file <path>"
    "" ExitConnectionFailed 0 humanStandard rendererRequested false false false "" false);
  (SessionFailed, mkPolicy CodeSession "session"
    "SSH connected but session failed; remote sshd or resources may be unhealthy"
    "" ExitConnectionFailed 0 humanStandard rendererRequested false false false "" false);
  (SessionLimit, mkPolicy CodeSessionLimit "session"
    "the SSH server refused a new session because its per-connection session limit stayed full; the command was not sent, so it is safe to retry. Lower the parallelism (-j) or raise sshd MaxSessions on the host"
    "" ExitConnectionFailed 0 humanStandard rendererRequested false false false "" false);
  (RemoteCommandFailed, mkPolicy CodeRemote "remote_execution"
    "inspect stdout/stderr; SSH transport succeeded"
    "" 1 0 humanStandard rendererRequested false false false "" false);
  (InterpreterNotFound, mkPolicy CodeInterpreter "interpreter"
    ""
    "" 127 0 humanScript rendererRequested false false false "" false);
  (RemoteScriptFailed, mkPolicy CodeRemoteScript "remote_execution"
    "the script reached the remote interpreter but exited non-zero; inspect stderr"
    "" 1 0 humanScript rendererRequested false false false "" false);
  (RunInterrupted, mkPolicy CodeInterrupted "remote_execution"
    "a local signal stopped sshctl; it was forwarded to the remote command, which may still be running"
    "" 130 0 humanStandard rendererRequested false false false "" false);
  (ConnectionLost, mkPolicy CodeConnectionLost "remote_execution"
    "the connection dropped after the command was sent; the remote command may still be running or may have finished. Check the process state on the host before retrying; do not retry blindly"
    "" ExitConnectionFailed 0 humanStandard rendererRequested false false false OutcomeUnknown false);
  (HandshakeFailed, mkPolicy CodeHandshakeFailed "handshake"
    "TCP connected but the SSH handshake failed before any command was sent, so retrying is safe; check that sshd is healthy and not rate limiting connections (MaxStartups, fail2ban); if the server is only slow, raise --connect-timeout"
    "" ExitConnectionFailed 0 humanStandard rendererRequested false false false "" false);
  (ExecTimedOut, mkPolicy CodeExecTimeout "remote_execution"
    "sshctl stopped the command after --exec-timeout: it sent SIGTERM and closed the session after a grace period, so the remote command may still be running; stdout and stderr hold what arrived before the deadline. Check the process state on the host, raise --exec-timeout, or run long work in the background on the host"
    "" ExitExecTimeout 0 humanStandard rendererRequested false false false "" false);
  (ScriptSyntaxFailed, mkPolicy CodeScriptSyntax "syntax_preflight"
    "the remote interpreter rejected the script syntax; no script body was executed and raw parser output was suppressed"
    "" 1 0 humanStandard rendererRequested false false false "" false);
  (HostInvalidArguments, mkPolicy CodeInvalidArgs "validate"
    "review sshctl host --help and retry with explicit flags"
    "" 2 0 humanStandard rendererRequested false false false "" false);
  (HostApplyInvalidArguments, mkPolicy CodeInvalidArgs "validate"
    "review sshctl host --help and retry with explicit flags"
    "" 2 1 humanStandard rendererRequested false false false "" false);
  (HostAliasNotFound, mkPolicy CodeAliasNotFound "lookup"
    "use sshctl --json host list and retry with an exact alias"
    "" ExitConnectionFailed 1 humanStandard rendererRequested false false false "" false);
  (HostVerificationFailed, mkPolicy "verification_failed" "verify"
    "inspect verification.error and fix the candidate before retrying"
    "" ExitConnectionFailed 0 humanHostVerification rendererRequested false false false "" false);
  (HostPushFailed, mkPolicy CodeSyncPush "sync_push"
    "local change remains pending; inspect sshctl --json status and retry with sshctl --json push --only <transaction-id>"
    "local change remains pending; inspect sshctl --json status and retry with sshctl --json push --only <transaction-id>" 1 0 humanHostPush rendererRequested false false false "" false);
  (HostSyncPullFailed, mkPolicy CodeSyncPull "sync_pull"
    "fix sync connectivity or retry explicitly with --offline"
    "" 1 0 humanStandard rendererRequested false false false "" false);
  (HostVaultFailed, mkPolicy "vault_error" "vault"
    "verify the encrypted vault and master pass file"
    "" 1 0 humanStandard rendererRequested false false false "" false);
  (HostAuthenticationRequired, mkPolicy "auth_required" "validate"
    "provide --key, --key-file, or --password-file"
    "" 2 0 humanStandard rendererRequested false false false "" false)
].

Definition failurePolicies_2 : list (Kind * failurePolicy) := [
  (HostApplyAuthenticationRequired, mkPolicy "auth_required" "validate"
    "provide --key, --key-file, or --password-file"
    "" 2 1 humanStandard rendererRequested false false false "" false);
  (HostConfirmationRequired, mkPolicy "confirmation_required" "validate"
    "review the alias and pass --yes explicitly"
    "" 2 0 humanStandard rendererRequested false false false "" false);
  (HostAlreadyExists, mkPolicy "host_exists" "apply"
    "review the error and retry safely"
    "" 1 0 humanStandard rendererRequested false false false "" false);
  (HostInvalidAlias, mkPolicy "invalid_alias" "apply"
    "review the error and retry safely"
    "" 1 0 humanStandard rendererRequested false false false "" false);
  (HostSavedKeyNotFound, mkPolicy "key_not_found" "apply"
    "review the error and retry safely"
    "" 1 0 humanStandard rendererRequested false false false "" false);
  (HostInvalidAddress, mkPolicy "invalid_host" "apply"
    "review the error and retry safely"
    "" 1 0 humanStandard rendererRequested false false false "" false);
  (HostInvalidUser, mkPolicy "invalid_user" "apply"
    "review the error and retry safely"
    "" 1 0 humanStandard rendererRequested false false false "" false);
  (HostInvalidGroup, mkPolicy "invalid_group" "apply"
    "review the error and retry safely"
    "" 1 0 humanStandard rendererRequested false false false "" false);
  (HostPasswordFileFailed, mkPolicy "password_file_error" "apply"
    "review the error and retry safely"
    "" 1 0 humanStandard rendererRequested false false false "" false);
  (HostKeyFileFailed, mkPolicy "key_file_error" "apply"
    "review the error and retry safely"
    "" 1 0 humanStandard rendererRequested false false false "" false);
  (HostInvalidKey, mkPolicy "invalid_key" "apply"
    "review the error and retry safely"
    "" 1 0 humanStandard rendererRequested false false false "" false);
  (HostKeyConflict, mkPolicy "key_conflict" "apply"
    "review the error and retry safely"
    "" 1 0 humanStandard rendererRequested false false false "" false);
  (HostTransactionFailed, mkPolicy "transaction_error" "apply"
    "review the error and retry safely"
    "" 1 0 humanStandard rendererRequested false false false "" false);
  (HostInternalFailure, mkPolicy CodeInternal "apply"
    "review the error and retry safely"
    "" 1 0 humanStandard rendererRequested false false false "" false);
  (PanicFailure, mkPolicy CodeInternal ""
    "retry with SSM_TRACE=1 outside machine mode and report the failure"
    "" 1 0 humanPanic rendererRequested false false false "" false);
  (GenericFailure, mkPolicy CodeInternal ""
    ""
    "" 1 0 humanPlain rendererRequested false false false "" false);
  (UpdateFailed, mkPolicy "update_failed" "update"
    "the prior executable was preserved; retry after resolving the reported update failure"
    "" 1 0 humanPlain rendererRequested false false false "" false);
  (UpdateRecoveryRequired, mkPolicy "update_recovery_required" "update_recovery"
    "authenticated original evidence was preserved; canonical restoration remains required before retrying"
    "" 1 0 humanStandard rendererRequested false false false "" false);
  (UpdateMigrationFailed, mkPolicy "migration_preflight_failed" "migration_preflight"
    "the prior executable was preserved; resolve the reported checks and rerun the migration review"
    "" 1 0 humanPlain rendererRequested false false false "" false);
  (MissingCommand, mkPolicy "missing_command" ""
    "use ssm --help or sshctl --help"
    "" 2 0 humanStandard rendererRequested false false false "" false);
  (InvalidGlobalArguments, mkPolicy CodeInvalidArgs ""
    "run sshctl --help for supported global options"
    "" 2 0 humanStandard rendererRequested false false false "" false);
  (SSHCTLCommandRequired, mkPolicy CodeInvalidArgs ""
    "run sshctl --help for available commands"
    "" 2 0 humanStandard rendererRequested false false false "" false);
  (InvalidSSHCTLArguments, mkPolicy CodeInvalidArgs ""
    "run sshctl --help for usage"
    "" 2 0 humanStandard rendererRequested false false false "" false);
  (RunAliasRequired, mkPolicy "missing_alias" ""
    "use sshctl --json run <exact-alias> --argv <command> [args...]"
    "" 2 0 humanStandard rendererRequested false false false "" false);
  (PlanAliasRequired, mkPolicy "missing_alias" ""
    "use sshctl --json plan <exact-alias> --argv <command> [args...]"
    "" 2 0 humanStandard rendererRequested false false false "" false);
  (CheckAliasRequired, mkPolicy "missing_alias" ""
    "use sshctl --json check <exact-alias>"
    "" 2 0 humanStandard rendererRequested false false false "" false);
  (UnsupportedInteractiveShell, mkPolicy "unsupported_command" ""
    "use sshctl run with --argv or a script source"
    "" 2 0 humanStandard rendererRequested false false false "" false);
  (InvalidStreamArguments, mkPolicy CodeInvalidArgs ""
    "use sshctl run <alias> --stream [--refresh 30s]"
    "" 2 0 humanStandard rendererRequested false false false "" false);
  (MasterPassFileReadFailed, mkPolicy "master_pass_file_error" ""
    "use --master-pass-file or SSM_MASTER_PASS_FILE with a readable private file"
    "" 1 0 humanStandard rendererRequested false false false "" false);
  (MasterPassFileEmpty, mkPolicy "master_pass_file_error" ""
    "write the vault passphrase to the configured file"
    "" 1 0 humanStandard rendererRequested false false false "" false);
  (VaultCreateFailed, mkPolicy "vault_error" ""
    "verify configuration directory permissions"
    "" 1 0 humanStandard rendererRequested false false false "" false);
  (VaultUnlockFailed, mkPolicy "vault_unlock_failed" ""
    "verify the master pass file belongs to this encrypted vault"
    "" 1 0 humanStandard rendererRequested false false false "" false);
  (MasterPassFileRequiredExisting, mkPolicy "master_pass_file_required" ""
    "provide --master-pass-file or SSM_MASTER_PASS_FILE; credentials are never accepted inline"
    "" 2 0 humanStandard rendererRequested false false false "" false);
  (InvalidRequestRun, mkPolicy CodeInvalidRequest ""
    "use exactly one of argv, shell_command, or script_file"
    "" 2 0 humanStandard rendererRequested false false false "" false);
  (InvalidRequestAlias, mkPolicy CodeInvalidRequest ""
    "provide one exact inventory alias"
    "" 2 0 humanStandard rendererRequested false false false "" false);
  (InvalidRequestCheck, mkPolicy CodeInvalidRequest ""
    "check accepts only version, op, and alias"
    "" 2 0 humanStandard rendererRequested false false false "" false);
  (InvalidRequestDoctor, mkPolicy CodeInvalidRequest ""
    "use alias and optional deep only"
    "" 2 0 humanStandard rendererRequested false false false "" false);
  (InvalidRequestDoctorAlias, mkPolicy CodeInvalidRequest ""
    "doctor alias must be an exact inventory name"
    "" 2 0 humanStandard rendererRequested false false false "" false);
  (InvalidRequestHost, mkPolicy CodeInvalidRequest ""
    "host operations accept structured host fields and file-based credentials only"
    "" 2 0 humanStandard rendererRequested false false false "" false);
  (InvalidRequestPutFields, mkPolicy CodeInvalidRequest ""
    "use file paths; never place file contents or credentials in the request"
    "" 2 0 humanStandard rendererRequested false false false "" false);
  (InvalidRequestPutPaths, mkPolicy CodeInvalidRequest ""
    ("use resume:" +:+ quote +:+ "v1" +:+ quote +:+ " explicitly for regular-file retry")
    "" 2 0 humanStandard rendererRequested false false false "" false);
  (InvalidRequestTimeout, mkPolicy CodeInvalidRequest ""
    "timeout must be a positive duration"
    "" 2 0 humanStandard rendererRequested false false false "" false);
  (InvalidRequestOperation, mkPolicy CodeInvalidRequest ""
    "use run, plan, check, doctor, put, get, or host.list/search/show/add/update/upsert/remove"
    "" 2 0 humanStandard rendererRequested false false false "" false);
  (StreamVaultUnlockFailed, mkPolicy "vault_unlock_failed" "vault"
    "verify the master pass file belongs to this encrypted vault"
    "" 1 0 humanStandard rendererRequested false false false "" false);
  (StreamDecodeFailed, mkPolicy CodeInvalidRequest "decode"
    "send one non-empty JSON string array per line"
    "" 2 0 humanStandard rendererRequested false false false "" false);
  (StreamReadFailed, mkPolicy CodeInvalidRequest "read"
    "send smaller argv arrays"
    "" 2 0 humanStandard rendererRequested false false false "" false);
  (RegisterArgumentsInvalid, mkPolicy CodeInvalidArgs ""
    "use --server, --email, and --password-file"
    "" 2 0 humanStandard rendererRequested false false false "" false);
  (LoginArgumentsInvalid, mkPolicy CodeInvalidArgs ""
    "use --server, --email, and --password-file"
    "" 2 0 humanStandard rendererRequested false false false "" false)
].

Definition failurePolicies_3 : list (Kind * failurePolicy) := [
  (PushArgumentsInvalid, mkPolicy CodeInvalidArgs ""
    "inspect pending_mutations with sshctl --json status"
    "" 2 0 humanStandard rendererRequested false false false "" false);
  (PushOnlyRequired, mkPolicy CodeInvalidArgs ""
    "copy an exact id from sshctl --json status"
    "" 2 0 humanStandard rendererRequested false false false "" false);
  (PushScopeConflict, mkPolicy CodeInvalidArgs ""
    "choose one explicit push scope"
    "" 2 0 humanStandard rendererRequested false false false "" false);
  (SyncPushFailed, mkPolicy CodeSyncPush ""
    "local vault remains pending; fix sync, then retry with sshctl --json push --only <transaction-id> or, after reviewing all pending transactions, sshctl --json push --all"
    "" 1 0 humanStandard rendererRequested false false false "" false);
  (SyncUnconfigured, mkPolicy "sync_config_error" ""
    "configure sync or use local inventory"
    "" 1 0 humanStandard rendererRequested false false false "" false);
  (SyncConfigurationFailed, mkPolicy "sync_config_error" "sync_config"
    "repair sync configuration or retry explicitly with --offline"
    "" 1 0 humanStandard rendererRequested false false false "" false);
  (SyncPullReplaceFailed, mkPolicy CodeSyncPull ""
    "local inventory was not replaced"
    "" 1 0 humanStandard rendererRequested false false false "" false);
  (TransferArgumentsInvalid, mkPolicy CodeInvalidArgs "validate"
    "use sshctl put <alias> <local> <remote> [--resume=v1] [--sha256] [--timeout <duration>] [--dir-mode <octal>] [--json]"
    "" 2 0 humanStandard rendererRequested false false false "" false);
  (MapNoTargets, mkPolicy "no_targets" ""
    "refresh sshctl host list and use exact aliases or reviewed patterns"
    "" 2 0 humanMapNoTargets rendererRequested false false false "" false);
  (RedirectActionRequired, mkPolicy CodeInvalidArgs ""
    "use redirect list, set <old> <new>, or rm <old>"
    "" 2 0 humanStandard rendererRequested false false false "" false);
  (RedirectSetArgumentsInvalid, mkPolicy CodeInvalidArgs ""
    "use redirect set <old-alias> <target-alias>"
    "" 2 0 humanStandard rendererRequested false false false "" false);
  (RedirectRemoveArgumentsInvalid, mkPolicy CodeInvalidArgs ""
    "use redirect rm <old-alias>"
    "" 2 0 humanStandard rendererRequested false false false "" false);
  (RedirectActionInvalid, mkPolicy CodeInvalidArgs ""
    "use redirect list, set, or rm"
    "" 2 0 humanStandard rendererRequested false false false "" false);
  (ImportArgumentsInvalid, mkPolicy CodeInvalidArgs ""
    "use exactly one of --merge or --replace --yes"
    "" 2 0 humanImportArguments rendererRequested false false false "" false);
  (ImportCountMismatch, mkPolicy "import_count_mismatch" ""
    "review the import source and expected count before retrying"
    "" 1 0 humanStandard rendererRequested false false false "" false);
  (MergeReportFailed, mkPolicy "merge_report_error" ""
    "vault was not changed; verify config directory permissions"
    "" 1 0 humanStandard rendererRequested false false false "" false);
  (RunAliasNotFound, mkPolicy CodeAliasNotFound "lookup"
    "use sshctl host list --json and retry with an exact alias"
    "" ExitConnectionFailed 0 humanStandard rendererRequested false false false "" false);
  (MapAliasNotFound, mkPolicy CodeAliasNotFound "lookup"
    "use sshctl list --json; alias may have been renamed after migration"
    "" ExitConnectionFailed 0 humanStandard rendererRequested false false false "" false);
  (DoctorAliasNotFound, mkPolicy CodeAliasNotFound "lookup"
    "use sshctl --json host list and retry with an exact alias"
    "" ExitConnectionFailed 0 humanStandard rendererRequested false false false "" false);
  (SessionAcquisitionFailed, mkPolicy CodeSession "session"
    ""
    "" ExitConnectionFailed 0 humanStandard rendererRequested false false false "" false);
  (SSHStdinFailed, mkPolicy CodeInternal "session"
    "retry the operation; report the failure if it persists"
    "" 1 0 humanStandard rendererRequested false false false "" false);
  (InvalidRunArguments, mkPolicy CodeInvalidArgs ""
    ""
    "" 2 0 humanRunArguments rendererRequested true false true "" false);
  (HostKeyArgumentsInvalid, mkPolicy CodeInvalidArgs ""
    "use host-key inspect <alias> or host-key accept <alias> --fingerprint SHA256:... --yes"
    "" 2 0 humanStandard rendererRequested false false false "" false);
  (HostKeyVaultFailed, mkPolicy "vault_error" ""
    "unlock the vault and retry"
    "" 1 0 humanStandard rendererRequested false false false "" false);
  (HostKeyOperationFailed, mkPolicy "host_key_operation_failed" "host_key"
    "inspect the endpoint and retry"
    "" 1 0 humanHostKeyOperation rendererRequested false false false "" false);
  (HostKeyScanDirectFailed, mkPolicy "host_key_scan_failed" "host_key"
    "verify the endpoint is a direct SSH service rather than an HTTP proxy"
    "" 1 0 humanHostKeyOperation rendererRequested false false false "" false);
  (HostKeyScanFailed, mkPolicy "host_key_scan_failed" "host_key"
    "verify the SSH endpoint and retry"
    "" 1 0 humanHostKeyOperation rendererRequested false false false "" false);
  (KnownHostsPermissionsFailed, mkPolicy "known_hosts_error" "host_key"
    "fix known_hosts permissions and retry"
    "" 1 0 humanHostKeyOperation rendererRequested false false false "" false);
  (KnownHostsMalformed, mkPolicy "known_hosts_error" "host_key"
    "repair malformed known_hosts before accepting a key"
    "" 1 0 humanHostKeyOperation rendererRequested false false false "" false);
  (KnownHostsInspectionFailed, mkPolicy "known_hosts_error" "host_key"
    "inspect known_hosts and retry"
    "" 1 0 humanHostKeyOperation rendererRequested false false false "" false);
  (SSHDirectoryPermissionsFailed, mkPolicy "known_hosts_error" "host_key"
    "fix ~/.ssh permissions and retry"
    "" 1 0 humanHostKeyOperation rendererRequested false false false "" false);
  (KnownHostsUnchanged, mkPolicy "known_hosts_error" "host_key"
    "known_hosts was not changed"
    "" 1 0 humanHostKeyOperation rendererRequested false false false "" false);
  (KnownHostsUpdateFailed, mkPolicy "known_hosts_update_failed" "host_key"
    "install OpenSSH ssh-keygen or remove the exact host:port entry manually"
    "" 1 0 humanHostKeyOperation rendererRequested false false false "" false);
  (HostKeyFingerprintMismatch, mkPolicy "fingerprint_mismatch" "host_key"
    "compare the fingerprint through a trusted channel; do not accept an unexpected key"
    "" 1 0 humanHostKeyOperation rendererRequested false false false "" false);
  (HostKeyFingerprintChanged, mkPolicy "fingerprint_changed" "host_key"
    "known_hosts was not changed; investigate endpoint instability or a possible interception"
    "" 1 0 humanHostKeyOperation rendererRequested false false false "" false);
  (TransferLocalFileStat, mkPolicy "local_read_failed" "local_read"
    "verify the local file is readable"
    "" 1 0 humanStandard rendererRequested false false false "" false);
  (TransferRegularFileRequired, mkPolicy "local_read_failed" "local_read"
    "put integrity mode supports regular files"
    "" 1 0 humanStandard rendererRequested false false false "" false);
  (TransferIntegritySourceRead, mkPolicy "local_read_failed" "local_read"
    "read the local file successfully before retrying"
    "" 1 0 humanStandard rendererRequested false false false "" false);
  (TransferSeekableSourceRequired, mkPolicy "local_read_failed" "local_read"
    "use a seekable regular source file"
    "" 1 0 humanStandard rendererRequested false false false "" false);
  (TransferSessionOpenFailed, mkPolicy "session_failed" "dial"
    "retry after checking SSH session limits"
    "" 1 0 humanStandard rendererRequested false false false "" true);
  (TransferStdinOpenFailed, mkPolicy "remote_write_failed" "remote_write"
    "retry the upload; the final destination was not replaced"
    "" 1 0 humanStandard rendererRequested false false false "" true)
].

Definition failurePolicies_4 : list (Kind * failurePolicy) := [
  (TransferStartFailed, mkPolicy "remote_write_failed" "remote_write"
    "remote temporary file was not published"
    "" 1 0 humanStandard rendererRequested false false false "" true);
  (TransferTimedOut, mkPolicy "transfer_timeout" "timeout"
    "retry; the remote temporary file is cleaned and the final path is unchanged"
    "" 1 0 humanStandard rendererRequested false false false "" false);
  (TransferRemoteWriteFailed, mkPolicy "remote_write_failed" "remote_write"
    "retry; the remote temporary file is cleaned and the final path is unchanged"
    "" 1 0 humanStandard rendererRequested false false false "" true);
  (TransferRemoteCloseFailed, mkPolicy "remote_write_failed" "remote_write"
    "retry; the final path was not replaced"
    "" 1 0 humanStandard rendererRequested false false false "" true);
  (TransferIntegrityMismatch, mkPolicy "integrity_failed" "integrity"
    "source and remote temporary file differ; nothing was published"
    "" 1 0 humanStandard rendererRequested false false false "" false);
  (TransferRemotePermissionsFailed, mkPolicy "remote_write_failed" "remote_write"
    "check remote path permissions and available space; the final path was not replaced"
    "" 1 0 humanStandard rendererRequested false false false "" false);
  (TransferReceiptInvalid, mkPolicy "integrity_failed" "integrity"
    "remote receipt did not match the local file; investigate the endpoint"
    "" 1 0 humanStandard rendererRequested false false false "" false);
  (ResumeVersionUnsupported, mkPolicy "unsupported_resume_version" "validate"
    "use --resume=v1"
    "" 1 0 humanStandard rendererRequested false false false "" false);
  (ResumeRegularFileRequired, mkPolicy "local_read_failed" "local_read"
    "resume v1 supports regular files only"
    "" 1 0 humanStandard rendererRequested false false false "" false);
  (ResumeSourceReadFailed, mkPolicy "local_read_failed" "local_read"
    "read the complete source before retrying"
    "" 1 0 humanStandard rendererRequested false false false "" false);
  (ResumeSourceChanged, mkPolicy "local_read_failed" "local_read"
    "source changed or could not be re-read"
    "" 1 0 humanStandard rendererRequested false false false "" false);
  (ResumePartialMismatch, mkPolicy "partial_state_mismatch" "resume_validate"
    "remote partial prefix does not match the local source; remove stale state only after review or retry with non-resume put"
    "" 1 0 humanStandard rendererRequested false false false "" false);
  (ResumeSourceSeekFailed, mkPolicy "local_read_failed" "local_read"
    "source must remain seekable and unchanged"
    "" 1 0 humanStandard rendererRequested false false false "" false);
  (ResumeStdinOpenFailed, mkPolicy "remote_write_failed" "remote_write"
    "retry resume; existing verified prefix remains available"
    "" 1 0 humanStandard rendererRequested false false false "" true);
  (ResumeStartFailed, mkPolicy "remote_write_failed" "remote_write"
    "retry resume; final destination was not replaced"
    "" 1 0 humanStandard rendererRequested false false false "" true);
  (ResumeTimedOut, mkPolicy "transfer_timeout" "timeout"
    "retry with --resume=v1 to validate and reuse the remote prefix"
    "" 1 0 humanStandard rendererRequested false false false "" false);
  (ResumeRemoteWriteFailed, mkPolicy "remote_write_failed" "remote_write"
    "retry with --resume=v1; the destination was not replaced"
    "" 1 0 humanStandard rendererRequested false false false "" true);
  (ResumeRetryFailed, mkPolicy "remote_write_failed" "remote_write"
    "retry with --resume=v1"
    "" 1 0 humanStandard rendererRequested false false false "" true);
  (ResumeVerificationToolMissing, mkPolicy "verification_tool_missing" "capability"
    "install sha256sum on the remote host or use non-resume put"
    "" 1 0 humanStandard rendererRequested false false false "" false);
  (ResumeStateChanged, mkPolicy "partial_state_changed" "resume_validate"
    "remote partial changed during retry; do not append until investigated"
    "" 1 0 humanStandard rendererRequested false false false "" false);
  (ResumeIntegrityMismatch, mkPolicy "integrity_failed" "integrity"
    "completed partial failed SHA-256 verification and was not published"
    "" 1 0 humanStandard rendererRequested false false false "" false);
  (ResumePublishFailed, mkPolicy "publish_failed" "publish"
    "verified partial remains; fix destination permissions and retry resume"
    "" 1 0 humanStandard rendererRequested false false false "" false);
  (ResumeReceiptInvalid, mkPolicy "integrity_failed" "integrity"
    "remote completion receipt is invalid"
    "" 1 0 humanStandard rendererRequested false false false "" false);
  (ResumeProbeSessionFailed, mkPolicy "session_failed" "resume_probe"
    "retry after checking SSH session limits"
    "" 1 0 humanStandard rendererRequested false false false "" true);
  (ResumeStateIncompatible, mkPolicy "partial_state_incompatible" "resume_validate"
    "remote partial metadata is missing or incompatible; review and remove only the deterministic v1 partial state"
    "" 1 0 humanStandard rendererRequested false false false "" false);
  (ResumeProbeFailed, mkPolicy "resume_probe_failed" "resume_probe"
    "check remote path permissions and resume capability"
    "" 1 0 humanStandard rendererRequested false false false "" false);
  (ResumeProbeResponseInvalid, mkPolicy "resume_probe_failed" "resume_probe"
    "remote resume response was invalid"
    "" 1 0 humanStandard rendererRequested false false false "" false);
  (TransferDirectorySourceUnsupported, mkPolicy "local_read_failed" "local_read"
    "use a regular file or directory"
    "" 1 0 humanStandard rendererRequested false false false "" false);
  (TransferDirectoryOptionsUnsupported, mkPolicy "unsupported_transfer_option" "validate"
    "SHA-256 and resume v1 options support regular files only; directory put also does not support timeout"
    "" 1 0 humanStandard rendererRequested false false false "" false);
  (TransferDownloadRemoteRead, mkPolicy "remote_read_failed" "remote_read"
    "check the remote path and read permissions; the final local path was not replaced"
    "" 1 0 humanStandard rendererRequested false false false "" true);
  (TransferDownloadLocalWrite, mkPolicy "local_write_failed" "local_write"
    "check local path permissions and available space; the final local path was not replaced"
    "" 1 0 humanStandard rendererRequested false false false "" false);
  (TransferDownloadPublish, mkPolicy "publish_failed" "publish"
    "check local destination permissions; the previous final path was preserved"
    "" 1 0 humanStandard rendererRequested false false false "" false);
  (TransferDownloadIntegrityMismatch, mkPolicy "integrity_failed" "integrity"
    "downloaded bytes differ from the remote SHA-256; the final local path was not replaced"
    "" 1 0 humanStandard rendererRequested false false false "" false);
  (TransferRemoteExtractFailed, mkPolicy "remote_write_failed" "remote_extract"
    "remote tar extraction failed and the destination may contain partially extracted files; fix the remote error (permissions, space, target type) and retry"
    "" 1 0 humanStandard rendererRequested false false false "" false);
  (TransferDirModeInvalid, mkPolicy CodeInvalidArgs "validate"
    "--dir-mode must be an octal permission such as 0755 (at most 0777) that includes owner write and execute (0300)"
    "" 2 0 humanStandard rendererRequested false false false "" false);
  (InvalidProxyJump, mkPolicy CodeProxyJumpInvalid "validate"
    "fix the proxy_jump chain: every jump alias must exist, chains must not loop, and at most 5 jump hosts are allowed; inspect with sshctl host show <alias> and change it with sshctl host update <alias> --proxy-jump <alias> (an empty value clears it)"
    "" 2 0 humanStandard rendererRequested false false false "" false);
  (CopyArgumentsInvalid, mkPolicy CodeInvalidArgs "validate"
    "use sshctl cp <alias-a>:<path> <alias-b>:<path> [--timeout <duration>] [--json]"
    "" 2 0 humanStandard rendererRequested false false false "" false);
  (CopyDirectoryUnsupported, mkPolicy "unsupported_transfer_option" "validate"
    "cp copies single regular files only; copy a directory with sshctl get and sshctl put, or archive it on the source host first"
    "" 1 0 humanStandard rendererRequested false false false "" false)
].

Definition failurePolicies_5 : list (Kind * failurePolicy) := [
  (CopyDirectConfirmationRequired, mkPolicy "confirmation_required" "validate"
    "cp --direct lets host A use B's key through a forwarded agent while the copy runs; review the exposure in sshctl cp --help and pass --yes explicitly, or drop --direct to relay through this machine"
    "" 2 0 humanStandard rendererRequested false false false "" false);
  (CopyDirectUnsupported, mkPolicy "unsupported_transfer_option" "validate"
    "cp --direct needs a key-authenticated destination B that is reachable from A without proxy_jump, trusted host key for B, shell transfer on both hosts and a single regular file; B's password is never sent to A; use cp without --direct to relay through this machine"
    "" 1 0 humanStandard rendererRequested false false false "" false);
  (CopyDirectSSHUnavailable, mkPolicy "remote_tool_unavailable" "capability"
    "cp --direct runs the ssh client on host A and A has none; install OpenSSH's ssh on A or use cp without --direct to relay through this machine"
    "" 1 0 humanStandard rendererRequested false false false "" false);
  (CopyDirectAgentUnavailable, mkPolicy "unsupported_transfer_option" "capability"
    "the source host's sshd did not provide the forwarded agent that cp --direct needs; allow agent forwarding (AllowAgentForwarding) for this account on host A or use cp without --direct to relay through this machine"
    "" 1 0 humanStandard rendererRequested false false false "" false);
  (IntegrityToolUnavailable, mkPolicy "integrity_tool_unavailable" "capability"
    "the remote host has none of sha256sum, shasum, or openssl; retry without --sha256 or install one of them"
    "" 1 0 humanStandard rendererRequested false false false "" false);
  (GetArgumentsInvalid, mkPolicy CodeInvalidArgs "validate"
    "use sshctl get <alias> <remote> <local> [--sha256] [--timeout <duration>] [--json]"
    "" 2 0 humanStandard rendererRequested false false false "" false);
  (TransferDownloadRestoreFailed, mkPolicy "publish_failed" "publish"
    "automatic restore failed; recover the prior directory from the retained backup path reported in the error"
    "" 1 0 humanStandard rendererRequested false false false "" false);
  (RemoteShellUnsupported, mkPolicy "remote_shell_unsupported" "discovery"
    "the remote login shell did not answer the POSIX path probe; retry with --sftp or set the host to transfer: sftp (sshctl host update <alias> --transfer sftp)"
    "" 1 0 humanStandard rendererRequested false false false "" false);
  (TransferSFTPUnavailable, mkPolicy "sftp_unavailable" "capability"
    "the server did not start the sftp subsystem; enable SFTP on the server or use the shell transfer (transfer: auto or shell)"
    "" 1 0 humanStandard rendererRequested false false false "" false);
  (TransferSFTPUnsupported, mkPolicy "unsupported_transfer_option" "validate"
    "SFTP transfer supports single regular files only (no directories or --resume); use the shell transfer for those"
    "" 1 0 humanStandard rendererRequested false false false "" false);
  (TransferSFTPReadbackUnavailable, mkPolicy "integrity_tool_unavailable" "capability"
    "the SFTP server did not allow reading the uploaded file back for verification, so nothing was published; retry without --sha256 (size is still verified)"
    "" 1 0 humanStandard rendererRequested false false false "" false)
].

Definition failurePolicies : list (Kind * failurePolicy) :=
  failurePolicies_1 ++ failurePolicies_2 ++ failurePolicies_3 ++ failurePolicies_4 ++ failurePolicies_5.

Definition lookup_policy (kind : Kind) : option failurePolicy :=
  snd <$> find (λ e, bool_decide (fst e = kind)) failurePolicies.
