(* ===== verification/MachineContract.v ===== *)
(** * Failure classification ([internal/machinecontract])

    [Classify] builds the public failure document of a kind; the [Classify*]
    functions choose the kind from what an error chain contains; the exit
    functions choose the status of the process. An SSH or network error is
    represented by [sshError]: its text and the answers its chain gives to the
    [errors.Is] and [errors.As] questions the code asks. [RedactString] is an
    argument: the theorems hold whatever it returns. *)

From S2P Require Import Prelude GoStrings GoErrors FailurePolicy.
From stdpp Require Import pretty.
From Stdlib Require Import Ascii.

(** ** Failures *)

(** [cause] is the text of the wrapped error. *)
Inductive Failure := mkFailure {
  f_OK : bool;
  f_Error : string;
  f_Message : string;
  f_Hint : string;
  f_Stage : string;
  f_SyncCause : string;
  f_Outcome : string;
  f_Alias : string;
  f_Exit : Z;
  f_Candidates : list string;
  f_Via : string;
  f_Address : string;
  f_PastKeyExchange : bool;
  f_Script : string;
  f_VerificationError : string;
  f_HumanHint : string;
  f_Tool : string;
  f_Version : string;
  f_Platform : string;
  f_Stack : string;
  f_style : humanStyle;
  f_cause : option string;
  f_processExit : Z;
  f_humanAlias : string;
  f_renderer : rendererPolicy;
  f_humanProjection : option Failure;
  f_transportWrapper : bool;
}.

Definition zero_failure : Failure :=
  mkFailure false "" "" "" "" "" "" "" 0 [] "" "" false "" "" "" "" "" "" "" humanStandard None 0
    "" rendererRequested None false.

(** Field updates. *)
Definition with_stage (s : string) (f : Failure) : Failure :=
  let '(mkFailure ok er ms hi _ sc ou al ex ca vi ad pk sr ve hh to vs pl st sy cs pe ha re hp tw) := f in
  mkFailure ok er ms hi s sc ou al ex ca vi ad pk sr ve hh to vs pl st sy cs pe ha re hp tw.
Definition with_hint (h : string) (f : Failure) : Failure :=
  let '(mkFailure ok er ms _ sg sc ou al ex ca vi ad pk sr ve hh to vs pl st sy cs pe ha re hp tw) := f in
  mkFailure ok er ms h sg sc ou al ex ca vi ad pk sr ve hh to vs pl st sy cs pe ha re hp tw.
(** [Exit] and [processExit] together. *)
Definition with_exit (x : Z) (f : Failure) : Failure :=
  let '(mkFailure ok er ms hi sg sc ou al _ ca vi ad pk sr ve hh to vs pl st sy cs _ ha re hp tw) := f in
  mkFailure ok er ms hi sg sc ou al x ca vi ad pk sr ve hh to vs pl st sy cs x ha re hp tw.
Definition with_sync_cause (c : string) (f : Failure) : Failure :=
  let '(mkFailure ok er ms hi sg _ ou al ex ca vi ad pk sr ve hh to vs pl st sy cs pe ha re hp tw) := f in
  mkFailure ok er ms hi sg c ou al ex ca vi ad pk sr ve hh to vs pl st sy cs pe ha re hp tw.
Definition with_via (v : string) (f : Failure) : Failure :=
  let '(mkFailure ok er ms hi sg sc ou al ex ca _ ad pk sr ve hh to vs pl st sy cs pe ha re hp tw) := f in
  mkFailure ok er ms hi sg sc ou al ex ca v ad pk sr ve hh to vs pl st sy cs pe ha re hp tw.
Definition with_aliases (a h : string) (f : Failure) : Failure :=
  let '(mkFailure ok er ms hi sg sc ou _ ex ca vi ad pk sr ve hh to vs pl st sy cs pe _ re hp tw) := f in
  mkFailure ok er ms hi sg sc ou a ex ca vi ad pk sr ve hh to vs pl st sy cs pe h re hp tw.
Definition with_style (y : humanStyle) (f : Failure) : Failure :=
  let '(mkFailure ok er ms hi sg sc ou al ex ca vi ad pk sr ve hh to vs pl st _ cs pe ha re hp tw) := f in
  mkFailure ok er ms hi sg sc ou al ex ca vi ad pk sr ve hh to vs pl st y cs pe ha re hp tw.
Definition with_projection (p : Failure) (f : Failure) : Failure :=
  let '(mkFailure ok er ms hi sg sc ou al ex ca vi ad pk sr ve hh to vs pl st sy cs pe ha re _ tw) := f in
  mkFailure ok er ms hi sg sc ou al ex ca vi ad pk sr ve hh to vs pl st sy cs pe ha re (Some p) tw.

Definition ErrorMessage (f : Failure) : string :=
  if negb (bool_decide (f_Message f = "")) then f_Message f
  else match f_cause f with Some c => c | None => f_Error f end.

(** The contextual inputs; [Cause] is the text of the cause. *)
Record Details := mkDetails {
  dt_Message : string;
  dt_Cause : option string;
  dt_Alias : string;
  dt_Address : string;
  dt_Candidates : list string;
  dt_Hint : string;
  dt_Exit : Z;
  dt_Script : string;
  dt_Interpreter : string;
  dt_Line : string;
  dt_VerificationError : string;
  dt_Tool : string;
  dt_Version : string;
  dt_Platform : string;
  dt_Stack : string;
}.
Definition no_details : Details := mkDetails "" None "" "" [] "" 0 "" "" "" "" "" "" "" "".

(** ** Errors as the classification sees them *)

Inductive errno :=
  | ECONNREFUSED | ETIMEDOUT | EHOSTUNREACH | ENETUNREACH
  | ECONNRESET | ECONNABORTED | EPIPE
  (** any other number, the Winsock codes among them *)
  | Errno (n : Z).

#[export] Instance errno_eq_dec : EqDecision errno.
Proof. solve_decision. Defined.

Record sshError := mkSSHError {
  (** [err.Error()] *)
  x_Message : string;
  (** the failure of a [*ClassifiedError] in the chain, and of a
      [ContractFailure] carrier *)
  x_Classified : option Failure;
  x_Carrier : option Failure;
  (** a [*HostKeyTypeChangedError]; a [*knownhosts.KeyError] with [len(Want)] *)
  x_TypeChanged : bool;
  x_KeyError : option nat;
  (** a [net.Error] with its [Timeout()]; a [syscall.Errno]; a [*net.OpError]'s [Op] *)
  x_NetTimeout : option bool;
  x_Errno : option errno;
  x_Op : option string;
  (** [net.ErrClosed], [io.EOF] and [io.ErrUnexpectedEOF] *)
  x_NetClosed : bool;
  x_EOF : bool;
  x_UnexpectedEOF : bool;
  (** a [*gossh.ExitMissingError]; a [*gossh.OpenChannelError]'s [Reason]; a
      [*gossh.ExitError]'s status *)
  x_ExitMissing : bool;
  x_OpenChannel : option Z;
  x_ExitStatus : option Z;
}.

Definition errno_is (e : sshError) (n : errno) : bool := bool_decide (x_Errno e = Some n).

(** [gossh.Prohibited]. *)
Definition Prohibited : Z := 1.

Record SSHContext := mkContext {
  cx_Alias : string;
  cx_ResolvedAlias : string;
  cx_Host : string;
  cx_Port : Z;
  cx_Stage : string;
  cx_SessionAcquisition : bool;
  cx_Tunneled : bool;
  cx_ExecPhase : bool;
}.

(** ** Small predicates *)

Definition isShellInterpreterName (interpreter : string) : bool :=
  bool_decide (after_last "/"%char interpreter ∈ [""; "sh"; "bash"; "dash"; "ash"; "ksh"; "zsh"]).

Definition InterpreterNotFoundDiagnostic (interpreter : string) : string :=
  interpreterNotFoundPrefix +:+ interpreter.
Definition IsInterpreterNotFoundDiagnostic (stderr : string) : bool :=
  Contains stderr interpreterNotFoundPrefix.

Definition policyOwnsStage (c : string) : bool :=
  bool_decide (c ∈ [CodeHandshakeFailed; CodeConnectionLost; CodeExecTimeout; CodeProxyJumpInvalid]).

Definition isHandshakeError (lower : string) : bool :=
  Contains lower "handshake failed" || Contains lower "reading version string"
  || Contains lower "no common algorithm".

Definition IsSessionLimit (err : sshError) : bool :=
  match x_OpenChannel err with Some r => bool_decide (r = Prohibited) | None => false end.

Definition isSessionRejection (err : sshError) (lower : string) : bool :=
  bool_decide (is_Some (x_OpenChannel err)) || Contains lower "session".

(** The Winsock numbers of [errno_windows.go]. *)
Definition wsaECONNABORTED : errno := Errno 10053.
Definition wsaECONNRESET : errno := Errno 10054.
Definition wsaENETDOWN : errno := Errno 10050.
Definition wsaENETUNREACH : errno := Errno 10051.
Definition wsaETIMEDOUT : errno := Errno 10060.
Definition wsaECONNREFUSED : errno := Errno 10061.
Definition wsaEHOSTDOWN : errno := Errno 10064.
Definition wsaEHOSTUNREACH : errno := Errno 10065.

Definition isDownloadOutcomeFailure (failure : Failure) : bool :=
  bool_decide (f_Error failure ∈
    ["remote_read_failed"; "local_write_failed"; "publish_failed"; "integrity_failed";
     "integrity_tool_unavailable"; "transfer_timeout"; "unsupported_transfer_option";
     "remote_shell_unsupported"; "sftp_unavailable"]).

(** [windows] selects between [errno_windows.go] and [errno_other.go]. *)
Section Platform.
Variable windows : bool.

Definition isPlatformConnectionBreak (err : sshError) : bool :=
  windows && (errno_is err wsaECONNABORTED || errno_is err wsaECONNRESET).

(** The empty kind is [""]. *)
Definition platformDialErrnoKind (err : sshError) : Kind :=
  if negb windows then ""
  else
    match x_Errno err with
    | None => ""
    | Some n =>
        if bool_decide (n = wsaECONNREFUSED) then DialRefused
        else if bool_decide (n = wsaETIMEDOUT) then DialTimeout
        else if bool_decide (n ∈ [wsaENETDOWN; wsaENETUNREACH; wsaEHOSTDOWN; wsaEHOSTUNREACH])
        then DialNetwork
        else ""
    end.

Definition dialErrnoKind (err : sshError) : Kind :=
  if errno_is err ECONNREFUSED then DialRefused
  else if errno_is err ETIMEDOUT then DialTimeout
  else if errno_is err EHOSTUNREACH || errno_is err ENETUNREACH then DialNetwork
  else platformDialErrnoKind err.

Definition connection_break_markers : list string :=
  ["remote command exited without exit status"; "connection reset";
   "connection was forcibly closed"; "connection was aborted"; "connection abort";
   "broken pipe"; "use of closed network connection"; "connection closed"; "ssh: disconnect"].

Definition isConnectionBreak (err : sshError) (lower : string) (execPhase : bool) : bool :=
  if x_ExitMissing err || x_NetClosed err
     || errno_is err ECONNRESET || errno_is err ECONNABORTED || errno_is err EPIPE
     || isPlatformConnectionBreak err then true
  else if existsb (Contains lower) connection_break_markers then true
  else if negb execPhase then false
  else x_EOF err || x_UnexpectedEOF err || Contains lower "unexpected eof"
       || bool_decide (lower = "eof") || HasSuffix lower ": eof".
End Platform.

(** ** Classification *)

Section Classification.
Context `{UnicodeCase}.
Variable RedactString : string → string.
Variable windows : bool.

Definition isTimeoutErrorMessage (message : string) : bool := Contains (ToLower message) "timeout".

(** [strings.EqualFold] against a lower-case ASCII word without [k] and [s]. *)
Definition EqualFold_ascii (s word : string) : bool := bool_decide (string_map lower_char s = word).

Definition isDialFailure (err : sshError) (context : SSHContext) : bool :=
  if bool_decide (cx_Stage context = "dial") then true
  else if match x_Op err with Some op => EqualFold_ascii op "dial" | None => false end then true
  else
    let lower := ToLower (x_Message err) in
    Contains lower "dial" || Contains lower "connect".

(** The human style and renderer a [Tool] selects. *)
Definition tool_style (tool : string) (p : failurePolicy) : humanStyle * rendererPolicy :=
  if bool_decide (tool = "legacy_usage") then (humanLegacyUsage, rendererHumanOnly)
  else if bool_decide (tool = "legacy_not_found") then (humanLegacyNotFound, rendererHumanOnly)
  else if bool_decide (tool = "legacy_unknown_command") then (humanLegacyUnknownCommand, rendererHumanOnly)
  else if bool_decide (tool = "legacy_message") then (humanLegacyMessage, rendererHumanOnly)
  else if bool_decide (tool = "raw_flag_error") then (humanRaw, rendererHumanOnly)
  else if bool_decide (tool = "legacy_plain") then (humanPlain, rendererHumanOnly)
  else if bool_decide (tool = "doctor_unknown_option") then (humanDoctorOption, rendererHumanOnly)
  else (Human p, Renderer p).

Definition policy_of (kind : Kind) : failurePolicy :=
  match lookup_policy kind with
  | Some p => p
  | None =>
      match lookup_policy InternalFailure with
      | Some p => p
      | None => mkPolicy "" "" "" "" 0 0 humanStandard rendererRequested false false false "" false
      end
  end.

(** The hint of a kind in its context. *)
Definition classify_hint (kind : Kind) (p : failurePolicy) (details : Details) : string :=
  let hint :=
    if bool_decide (kind = InterpreterNotFound) then
      if isShellInterpreterName (dt_Interpreter details) then
        "remote shell " +:+ Quote (dt_Interpreter details)
        +:+ " is unavailable; retry with --shell sh or install it"
      else
        "remote interpreter " +:+ Quote (dt_Interpreter details)
        +:+ " is unavailable; install it or pass another --interpreter"
    else Hint p in
  let hint :=
    if bool_decide (kind = ScriptSyntaxFailed ∧ dt_Line details ≠ "")
    then hint +:+ "; line=" +:+ RedactString (dt_Line details) else hint in
  let hint :=
    if HintFromCause p then default (dt_Message details) (dt_Cause details) else hint in
  if HintFromDetails p && negb (bool_decide (dt_Hint details = "")) then dt_Hint details else hint.

Definition Classify (kind : Kind) (details : Details) : Failure :=
  let policy := policy_of kind in
  let message :=
    if bool_decide (dt_Message details = "") then default "" (dt_Cause details)
    else dt_Message details in
  let message := if SuppressMessage policy then "" else message in
  let exit := if bool_decide (dt_Exit details ≠ 0%Z) then dt_Exit details else Exit policy in
  let processExit := if bool_decide (Process policy = 0%Z) then exit else Process policy in
  let '(style, renderer) := tool_style (dt_Tool details) policy in
  mkFailure false (Code policy) (RedactString message)
    (RedactString (classify_hint kind policy details)) (Stage policy) "" (Outcome policy)
    (RedactString (dt_Alias details)) exit (RedactString <$> dt_Candidates details) ""
    (RedactString (dt_Address details)) false (RedactString (dt_Script details))
    (RedactString (dt_VerificationError details)) (RedactString (HumanHint policy))
    (RedactString (dt_Tool details)) (RedactString (dt_Version details))
    (RedactString (dt_Platform details)) (RedactString (dt_Stack details))
    style (dt_Cause details) processExit "" renderer None (TransportWrapper policy).

(** ** Remote execution *)

Record RunExecutionContext := mkRunContext {
  rx_Cause : option string;
  rx_Exit : Z;
  rx_Alias : string;
  rx_HasInput : bool;
  rx_Capture : bool;
  rx_Stderr : string;
  rx_Script : string;
  rx_Interpreter : string;
}.

Definition run_details (c : RunExecutionContext) (message script interpreter : string) : Details :=
  mkDetails message (rx_Cause c) (rx_Alias c) "" [] "" (rx_Exit c) script interpreter
    "" "" "" "" "" "".

Definition ClassifyRunExecution (c : RunExecutionContext) : Failure :=
  if negb (rx_HasInput c) then
    Classify RemoteCommandFailed (run_details c "remote command exited non-zero" "" "")
  else if bool_decide (rx_Exit c = 127%Z)
          && (negb (rx_Capture c) || IsInterpreterNotFoundDiagnostic (rx_Stderr c)) then
    Classify InterpreterNotFound
      (run_details c "remote script interpreter is unavailable" (rx_Script c) (rx_Interpreter c))
  else
    Classify RemoteScriptFailed (run_details c "remote script exited non-zero" (rx_Script c) "").

(** ** SSH errors *)

(** The kind and the message [ClassifySSH] picks from the error. *)
Definition ssh_kind (err : sshError) (context : SSHContext) : Kind * string :=
  let port := if bool_decide (cx_Port context = 0%Z) then 22%Z else cx_Port context in
  let address := JoinHostPort (cx_Host context) (pretty port) in
  let message := x_Message err in
  let lower := ToLower message in
  let key_mismatch := (HostKeyMismatch,
    "remote host key does not match known_hosts (host reinstalled or MITM)") in
  if x_TypeChanged err then
    (HostKeyTypeChanged, "remote host key type is not recorded in known_hosts (server key type changed, reinstalled, or MITM)")
  else if bool_decide (x_KeyError err = Some 0) then
    (HostKeyUnknown, "remote host key is not trusted yet")
  else if bool_decide (is_Some (x_KeyError err)) || Contains lower "host key"
          || Contains lower "knownhosts" then key_mismatch
  else if Contains lower "no authentication configured" then
    (NoAuthenticationConfigured, "connection has no password or private key configured")
  else if Contains lower "unable to authenticate" || Contains lower "no supported methods remain"
          || Contains lower "permission denied" || Contains lower "authentication failed" then
    (AuthenticationFailed, "SSH authentication failed")
  else
    let typed :=
      if negb (cx_SessionAcquisition context) && negb (cx_ExecPhase context)
         && negb (cx_Tunneled context) && negb (bool_decide (cx_Stage context = "session"))
      then dialErrnoKind windows err else "" in
    let net_timeout := bool_decide (x_NetTimeout err = Some true) in
    let refused := (DialRefused, "connection refused by " +:+ address) in
    let io_timeout := (DialTimeout, "dial tcp " +:+ address +:+ ": i/o timeout") in
    let network := (DialNetwork, "network error dialing " +:+ address +:+ ": " +:+ message) in
    if net_timeout && isHandshakeError lower then (HandshakeFailed, message)
    else if bool_decide (typed = DialRefused) && negb (isHandshakeError lower) then refused
    else if bool_decide (typed = DialTimeout) && negb (isHandshakeError lower) then io_timeout
    else if bool_decide (typed = DialNetwork) && negb (isHandshakeError lower) then network
    else if net_timeout then io_timeout
    else if isTimeoutErrorMessage lower then
      (DialTimeout, "connection timed out to " +:+ address)
    else if Contains lower "connection refused" then refused
    else if Contains lower "no route to host" || Contains lower "network is unreachable"
            || Contains lower "connect: " then network
    else if isHandshakeError lower then (HandshakeFailed, message)
    else if negb (cx_SessionAcquisition context)
            && isConnectionBreak windows err lower
                 (cx_ExecPhase context || bool_decide (cx_Stage context = "session")) then
      (ConnectionLost, message)
    else if IsSessionLimit err then (SessionLimit, message)
    else if isSessionRejection err lower then (SessionFailed, message)
    else (InternalFailure, message).

(** The stage and exit adjustments both paths of [ClassifySSH] end with. *)
Definition ssh_context_adjust (err : sshError) (context : SSHContext) (failure : Failure) : Failure :=
  let failure :=
    if negb (bool_decide (cx_Stage context = "")) && negb (policyOwnsStage (f_Error failure))
    then with_stage (cx_Stage context) failure else failure in
  if bool_decide (f_Error failure = CodeInternal) && isDialFailure err context
  then with_exit ExitConnectionFailed failure else failure.

(** [None] is a nil error, for which the code returns the zero failure. *)
Definition ClassifySSH (err : option sshError) (context : SSHContext) : Failure :=
  match err with
  | None => zero_failure
  | Some err =>
      match x_Classified err with
      | Some failure => ssh_context_adjust err context failure
      | None =>
          let port := if bool_decide (cx_Port context = 0%Z) then 22%Z else cx_Port context in
          let address := JoinHostPort (cx_Host context) (pretty port) in
          let '(kind, message) := ssh_kind err context in
          let kind :=
            if bool_decide (kind = InternalFailure) && cx_SessionAcquisition context
            then SessionAcquisitionFailed else kind in
          ssh_context_adjust err context
            (Classify kind (mkDetails message (Some (x_Message err)) (cx_Alias context) address
               [] "" 0 "" "" "" "" "" "" "" ""))
      end
  end.

Definition FailureFromError (err : option sshError) : option Failure :=
  match err with
  | None => None
  | Some e => match x_Classified e with Some f => Some f | None => x_Carrier e end
  end.

Definition ProcessExit (failure : Failure) : Z :=
  if bool_decide (f_processExit failure ≠ 0%Z) then f_processExit failure else f_Exit failure.

Definition empty_context : SSHContext := mkContext "" "" "" 0 "" false false false.

Definition ExitForError (err : option sshError) : Z :=
  match err with
  | None => 0
  | Some e =>
      match x_ExitStatus e with
      | Some status => status
      | None =>
          match x_Classified e with
          | Some f => ProcessExit f
          | None =>
              let failure := ClassifySSH err empty_context in
              if bool_decide (f_Error failure ≠ CodeInternal) then ProcessExit failure
              else if bool_decide (ProcessExit failure ≠ 1%Z) then ProcessExit failure else 1%Z
          end
      end
  end.

Definition ClassifyCheck (failure : Failure) (stderr : string) : Failure :=
  let failure :=
    if bool_decide (f_Error failure = "") then
      Classify RemoteCommandFailed
        (mkDetails "remote command exited non-zero" None "" "" [] "" (f_Exit failure)
           "" "" "" "" "" "" "" "")
    else failure in
  if bool_decide (stderr ≠ "")
  then with_hint (RedactString (TrimSpace stderr) +:+ "; " +:+ f_Hint failure) failure
  else failure.

Definition ClassifyHostKeyOperation (err : option sshError) : Failure :=
  let failure :=
    match FailureFromError err with
    | Some f => f
    | None =>
        Classify HostKeyOperationFailed
          (mkDetails "" (x_Message <$> err) "" "" [] "" 0 "" "" "" "" "" "" "" "")
    end in
  with_style humanHostKeyOperation (with_exit 1 (with_stage "host_key" failure)).

(** [carried] is the failure a transfer mechanism attached, or the zero one. *)
Definition ClassifyTransferOperation (err : option sshError) (context : SSHContext)
    (carried : Failure) : Failure :=
  match err with
  | None => zero_failure
  | Some _ =>
      if bool_decide (f_Error carried = "transfer_timeout") then carried
      else
        let human := ClassifySSH err
          (mkContext (cx_Alias context) (cx_ResolvedAlias context) (cx_Host context)
             (cx_Port context) (cx_Stage context) (cx_SessionAcquisition context)
             (cx_Tunneled context) true) in
        if policyOwnsStage (f_Error human) then
          if negb (bool_decide (f_Error carried = "")) && negb (f_transportWrapper carried)
          then carried else human
        else
          let human := with_stage "" human in
          if negb (bool_decide (f_Error carried = "")) then
            let human :=
              if bool_decide (f_Error carried = CodeRemoteWrite ∧ f_Error human = CodeAuth)
              then with_hint "verify user and credential file; password/private-key contents are never shown" human
              else human in
            let carried := with_projection human (with_exit (ExitForError err) carried) in
            if bool_decide (f_Via carried = "") then with_via (f_Via human) carried else carried
          else
            with_projection human
              (with_exit (ExitForError err) (with_stage "remote_write" human))
  end.

(** The tail of [ClassifyDownload]; [name] sets the two aliases. *)
Definition download_fallback (err : option sshError) (context : SSHContext) (failure : Failure)
    (name : Failure → Failure) : Failure :=
  let failure :=
    if bool_decide (f_Stage failure = "") then with_stage (cx_Stage context) failure else failure in
  let failure := name (with_exit (ExitForError err) failure) in
  with_projection (with_stage "" failure) failure.

Definition ClassifyDownload (err : option sshError) (context : SSHContext) : Failure :=
  let failure := ClassifySSH err
    (mkContext (cx_Alias context) (cx_ResolvedAlias context) (cx_Host context)
       (cx_Port context) "" (cx_SessionAcquisition context) (cx_Tunneled context) true) in
  let name := with_aliases (RedactString (cx_Alias context)) (RedactString (cx_ResolvedAlias context)) in
  let carried := FailureFromError err in
  let carried_timeout :=
    match carried with Some c => bool_decide (f_Error c = "transfer_timeout") | None => false end in
  if carried_timeout then name (default zero_failure carried)
  else if policyOwnsStage (f_Error failure) then
    match carried with
    | Some c => if negb (f_transportWrapper c) then name c else name failure
    | None => name failure
    end
  else
    let human := with_stage "" failure in
    match carried with
    | Some c =>
        if isDownloadOutcomeFailure c then
          let c := with_projection human (name (with_exit (ExitForError err) c)) in
          if bool_decide (f_Via c = "") then with_via (f_Via human) c else c
        else download_fallback err context failure name
    | None => download_fallback err context failure name
    end.
End Classification.

(** ** Results *)

Record ResultState := mkResult { rs_OK : bool; rs_Exit : Z }.

Definition ResultExit (result : ResultState) : Z :=
  if rs_OK result then 0%Z
  else if bool_decide (rs_Exit result ≠ 0%Z) then rs_Exit result else 1%Z.

Fixpoint AggregateResultExit (results : list ResultState) : Z :=
  match results with
  | [] => 0%Z
  | r :: rs => if rs_OK r then AggregateResultExit rs else ResultExit r
  end.

Definition ConnectionResultExit (ok : bool) : Z := if ok then 0%Z else ExitConnectionFailed.

(** ** Serialized projections *)

Record ResultMetadata := mkResultMetadata {
  rm_Error : string; rm_Message : string; rm_Hint : string; rm_Stage : string;
  rm_Cause : string; rm_Outcome : string; rm_Via : string;
}.
Definition Failure_ResultMetadata (f : Failure) : ResultMetadata :=
  mkResultMetadata (f_Error f) (f_Message f) (f_Hint f) (f_Stage f) (f_SyncCause f)
    (f_Outcome f) (f_Via f).

Record Metadata := mkMetadata {
  md_Error : string; md_Message : string; md_Hint : string; md_Exit : Z; md_Stage : string;
  md_Cause : string; md_Outcome : string; md_Via : string;
}.
Definition Failure_Metadata (f : Failure) : Metadata :=
  mkMetadata (f_Error f) (f_Message f) (f_Hint f) (f_Exit f) (f_Stage f) (f_SyncCause f)
    (f_Outcome f) (f_Via f).

Record TransferMetadata := mkTransferMetadata {
  tm_Error : string; tm_Message : string; tm_Hint : string; tm_Exit : Z; tm_Stage : string;
  tm_Via : string;
}.
Definition Failure_TransferMetadata (f : Failure) : TransferMetadata :=
  mkTransferMetadata (f_Error f) (f_Message f) (f_Hint f) (f_Exit f) (f_Stage f) (f_Via f).

Record TransferOutcome := mkTransferOutcome {
  to_OK : bool;
  to_Error : string;
  to_Message : string;
  to_Hint : string;
  to_Exit : Z;
  to_Action : string;
  to_Direction : string;
  to_Kind : string;
  to_Alias : string;
  to_Local : string;
  to_Remote : string;
  to_Stage : string;
  to_Outcome : string;
  to_BytesSent : option Z;
  to_BytesReceived : option Z;
  to_Integrity : string;
  to_LocalSHA256 : string;
  to_RemoteSHA256 : string;
  to_Atomic : option bool;
  to_Resume : string;
  to_BytesReused : Z;
  to_Via : string;
}.

Definition TransferFailureOutcome (f : Failure) (o : TransferOutcome) : TransferOutcome :=
  mkTransferOutcome false (f_Error f) (f_Message f) (f_Hint f) (f_Exit f)
    (to_Action o) (to_Direction o) (to_Kind o) (to_Alias o) (to_Local o) (to_Remote o)
    (f_Stage f) (f_Outcome f) (to_BytesSent o) (to_BytesReceived o) (to_Integrity o)
    (to_LocalSHA256 o) (to_RemoteSHA256 o) (to_Atomic o) (to_Resume o) (to_BytesReused o) (f_Via f).

Record CopyEndpoint := mkEndpoint { ep_Alias : string; ep_Path : string }.

Record CopyOutcome := mkCopyOutcome {
  co_OK : bool;
  co_Error : string;
  co_Message : string;
  co_Hint : string;
  co_Exit : Z;
  co_Action : string;
  co_Direction : string;
  co_Kind : string;
  co_Route : string;
  co_Source : CopyEndpoint;
  co_Destination : CopyEndpoint;
  co_Stage : string;
  co_Outcome : string;
  co_Via : string;
  co_Bytes : option Z;
  co_Integrity : string;
  co_SourceSHA256 : string;
  co_LocalSHA256 : string;
  co_DestinationSHA256 : string;
  co_Atomic : option bool;
}.

Definition CopyFailureOutcome (f : Failure) (o : CopyOutcome) : CopyOutcome :=
  mkCopyOutcome false (f_Error f) (f_Message f) (f_Hint f) (f_Exit f)
    (co_Action o) (co_Direction o) (co_Kind o) (co_Route o) (co_Source o) (co_Destination o)
    (f_Stage f) (f_Outcome f) (f_Via f) (co_Bytes o) (co_Integrity o)
    (co_SourceSHA256 o) (co_LocalSHA256 o) (co_DestinationSHA256 o) (co_Atomic o).
