(* ===== verification/ContractFacts.v ===== *)
(** * What the failure classification guarantees

    Facts about the whole policy table, proved by evaluation, and the guarantees
    [Classify], [ClassifySSH] and the exit functions give on top of it. *)

From S2P Require Import Prelude GoStrings GoErrors FailurePolicy MachineContract.

(** ** The table *)

Lemma lookup_policy_in kind p : lookup_policy kind = Some p → (kind, p) ∈ failurePolicies.
Proof.
  unfold lookup_policy. destruct (find _ failurePolicies) as [[k q]|] eqn:E; [|done].
  intros [= <-]. apply find_some in E as [Hin Heq%bool_decide_eq_true_1]. simpl in Heq.
  subst. by apply list_elem_of_In.
Qed.

(** A decidable property of every entry holds of the policy of every kind. *)
Lemma policy_forall (P : Kind → failurePolicy → Prop) `{∀ k p, Decision (P k p)} kind :
  forallb (λ e, bool_decide (P (fst e) (snd e))) failurePolicies = true →
  P kind (policy_of kind) ∨ (lookup_policy kind = None ∧ P InternalFailure (policy_of kind)).
Proof.
  rewrite forallb_forall. intros Hall. unfold policy_of.
  assert (∀ k p, lookup_policy k = Some p → P k p) as Hk.
  { intros k p Hp%lookup_policy_in%list_elem_of_In. apply Hall in Hp. by apply bool_decide_eq_true_1 in Hp. }
  destruct (lookup_policy kind) as [p|] eqn:E; [left; by apply Hk|right; split; [done|]].
  destruct (lookup_policy InternalFailure) as [p|] eqn:Ei; [by apply Hk|by vm_compute in Ei].
Qed.

Lemma policy_forall_const (P : failurePolicy → Prop) `{∀ p, Decision (P p)} kind :
  forallb (λ e, bool_decide (P (snd e))) failurePolicies = true → P (policy_of kind).
Proof. intros Hall. by destruct (policy_forall (λ _, P) kind Hall) as [|[_ ?]]. Qed.

Definition policy_exits : list Z := [1; 2; 124; 127; 130; 255]%Z.

Lemma policy_exit_range kind :
  Exit (policy_of kind) ∈ policy_exits ∧ Process (policy_of kind) ∈ 0%Z :: policy_exits ∧
  Code (policy_of kind) ≠ "".
Proof.
  apply (policy_forall_const (λ p, Exit p ∈ policy_exits ∧ Process p ∈ 0%Z :: policy_exits
    ∧ Code p ≠ "")). by vm_compute.
Qed.

Lemma policy_outcome kind :
  (Outcome (policy_of kind) ≠ "" ↔ Code (policy_of kind) = CodeConnectionLost) ∧
  (Outcome (policy_of kind) = "" ∨ Outcome (policy_of kind) = OutcomeUnknown) ∧
  (Code (policy_of kind) = CodeConnectionLost → Stage (policy_of kind) = "remote_execution").
Proof.
  apply (policy_forall_const (λ p, (Outcome p ≠ "" ↔ Code p = CodeConnectionLost)
    ∧ (Outcome p = "" ∨ Outcome p = OutcomeUnknown)
    ∧ (Code p = CodeConnectionLost → Stage p = "remote_execution"))). by vm_compute.
Qed.

Lemma policy_connection_lost kind :
  Code (policy_of kind) = CodeConnectionLost → kind = ConnectionLost.
Proof.
  destruct (policy_forall (λ k p, Code p = CodeConnectionLost → k = ConnectionLost) kind)
    as [H|[_ H]]; [by vm_compute|done|]. intros Hc. by apply H in Hc.
Qed.

(** Every declared kind has exactly one policy, and the table has no other. *)
Lemma policies_complete :
  NoDup (fst <$> failurePolicies) ∧ fst <$> failurePolicies ≡ₚ all_kinds.
Proof.
  assert (NoDup (fst <$> failurePolicies)) as Hnd.
  { apply (bool_decide_unpack _). by vm_compute. }
  split; [done|]. apply NoDup_Permutation; [done|apply (bool_decide_unpack _); by vm_compute|].
  intros k. split; intros Hk.
  - assert (Forall (λ k, k ∈ all_kinds) (fst <$> failurePolicies)) as H
      by (apply (bool_decide_unpack _); by vm_compute).
    rewrite Forall_forall in H. by apply H.
  - assert (Forall (λ k, k ∈ fst <$> failurePolicies) all_kinds) as H
      by (apply (bool_decide_unpack _); by vm_compute).
    rewrite Forall_forall in H. by apply H.
Qed.

(** ** Classify *)

Section Facts.
Context `{UnicodeCase}.
Variable RedactString : string → string.
Variable windows : bool.

Abbreviation Classify := (Classify RedactString).
Abbreviation ClassifySSH := (ClassifySSH RedactString windows).
Abbreviation ExitForError := (ExitForError RedactString windows).

Lemma Classify_policy kind details :
  let f := Classify kind details in let p := policy_of kind in
  f_OK f = false ∧ f_Error f = Code p ∧ f_Stage f = Stage p ∧ f_Outcome f = Outcome p ∧
  f_Exit f = (if bool_decide (dt_Exit details ≠ 0%Z) then dt_Exit details else Exit p) ∧
  f_processExit f = (if bool_decide (Process p = 0%Z) then f_Exit f else Process p).
Proof. unfold MachineContract.Classify. by destruct (tool_style _ _). Qed.

Lemma Classify_exits kind details :
  let f := Classify kind details in
  f_Exit f ≠ 0%Z ∧ ProcessExit f ≠ 0%Z ∧
  (dt_Exit details = 0%Z → f_Exit f ∈ policy_exits ∧ ProcessExit f ∈ policy_exits).
Proof.
  destruct (Classify_policy kind details) as (_ & _ & _ & _ & Hx & Hp).
  destruct (policy_exit_range kind) as (Hr & Hpr & _).
  assert (∀ x, x ∈ policy_exits → x ≠ 0%Z) as Hne.
  { apply Forall_forall. repeat constructor; done. }
  assert (f_processExit (Classify kind details) ≠ 0%Z ∧ f_Exit (Classify kind details) ≠ 0%Z)
    as [Hp0 Hx0].
  { rewrite Hp, Hx. repeat case_bool_decide; split; try done; auto. }
  unfold ProcessExit. rewrite (bool_decide_eq_true_2 _ Hp0).
  split_and!; [done..|].
  intros H0. rewrite Hp, Hx, H0. rewrite (bool_decide_eq_false_2 (0%Z ≠ 0%Z)) by tauto.
  case_bool_decide as E; [done|]. split; [done|].
  apply elem_of_cons in Hpr as [?|?]; done.
Qed.

(** No failure, of any kind and in any context, reads as success: it is not
    [OK], has a public code, and neither its serialized exit nor the exit of the
    process is zero. Without an exit given by the context, both are among the six
    documented statuses. *)
Theorem classify_never_success kind details :
  let f := Classify kind details in
  f_OK f = false ∧ f_Error f ≠ "" ∧ f_Exit f ≠ 0%Z ∧ ProcessExit f ≠ 0%Z ∧
  (dt_Exit details = 0%Z → f_Exit f ∈ policy_exits ∧ ProcessExit f ∈ policy_exits).
Proof.
  destruct (Classify_policy kind details) as (Hok & He & _).
  destruct (policy_exit_range kind) as (_ & _ & Hc).
  destruct (Classify_exits kind details) as (? & ? & ?).
  split_and!; [done|by rewrite He|done..].
Qed.

(** ** SSH errors *)

Lemma with_stage_fields s f :
  f_Error (with_stage s f) = f_Error f ∧ f_Stage (with_stage s f) = s ∧
  f_Outcome (with_stage s f) = f_Outcome f ∧ f_Exit (with_stage s f) = f_Exit f ∧
  f_processExit (with_stage s f) = f_processExit f.
Proof. by destruct f. Qed.

Lemma with_exit_fields x f :
  f_Error (with_exit x f) = f_Error f ∧ f_Stage (with_exit x f) = f_Stage f ∧
  f_Outcome (with_exit x f) = f_Outcome f ∧ f_Exit (with_exit x f) = x ∧
  f_processExit (with_exit x f) = x.
Proof. by destruct f. Qed.

Lemma ssh_context_adjust_fields err cx f :
  let g := ssh_context_adjust err cx f in
  f_Error g = f_Error f ∧ f_Outcome g = f_Outcome f ∧
  (policyOwnsStage (f_Error f) = true → f_Stage g = f_Stage f) ∧
  (f_Error f ≠ CodeInternal → ProcessExit g = ProcessExit f ∧ f_Exit g = f_Exit f) ∧
  (ProcessExit f ≠ 0%Z → ProcessExit g ≠ 0%Z).
Proof.
  destruct f as [ok er ms hi sg sc ou al ex ca vi ad pk sr ve hh tool vs pl st sy cs pe ha re hp tw].
  unfold ssh_context_adjust. cbn [f_Error].
  destruct (policyOwnsStage er) eqn:Eo; destruct (bool_decide (cx_Stage cx = "")) eqn:Es;
    cbn [negb andb with_stage f_Error];
    destruct (bool_decide (er = CodeInternal)) eqn:Ei; destruct (isDialFailure err cx) eqn:Ed;
    cbn [negb andb with_exit f_Error f_Outcome f_Stage f_Exit f_processExit ProcessExit];
    bool_to_prop; split_and!; intros; try done; try congruence.
Qed.

(** The classification of an error that carries no failure of its own. *)
Lemma ClassifySSH_kind err cx :
  x_Classified err = None →
  ∃ kind details, ClassifySSH (Some err) cx = ssh_context_adjust err cx (Classify kind details) ∧
    dt_Exit details = 0%Z ∧
    (kind = fst (ssh_kind windows err cx) ∨
     kind = SessionAcquisitionFailed ∧ fst (ssh_kind windows err cx) = InternalFailure ∧
     cx_SessionAcquisition cx = true).
Proof.
  intros Hc. unfold MachineContract.ClassifySSH. rewrite Hc.
  destruct (ssh_kind windows err cx) as [k m]. cbn [fst].
  destruct (bool_decide (k = InternalFailure) && cx_SessionAcquisition cx) eqn:E.
  - bool_to_prop. do 2 eexists. split; [done|]. split; [done|]. by right.
  - do 2 eexists. split; [done|]. split; [done|]. by left.
Qed.

Lemma ssh_kind_connection_lost err cx :
  fst (ssh_kind windows err cx) = ConnectionLost →
  cx_SessionAcquisition cx = false ∧
  isHandshakeError (ToLower (x_Message err)) = false ∧
  x_KeyError err = None ∧ x_TypeChanged err = false ∧ x_NetTimeout err ≠ Some true ∧
  isConnectionBreak windows err (ToLower (x_Message err))
    (cx_ExecPhase cx || bool_decide (cx_Stage cx = "session")) = true.
Proof.
  unfold ssh_kind. cbv zeta. intros Hk.
  destruct (x_TypeChanged err); [done|].
  case_bool_decide; [done|]. case_bool_decide as Hkey; [done|]. cbn [orb] in Hk.
  rewrite <- eq_None_not_Some in Hkey.
  destruct (_ || _); [done|]. destruct (Contains _ "no authentication configured"); [done|].
  destruct (_ || _ || _ || _) in Hk; [done|].
  case_bool_decide as Hnt; cbn [andb] in Hk.
  { destruct (isHandshakeError _); [done|]. repeat (case_bool_decide; try done). }
  destruct (bool_decide (_ = DialRefused) && _) in Hk; [done|].
  destruct (bool_decide (_ = DialTimeout) && _) in Hk; [done|].
  destruct (bool_decide (_ = DialNetwork) && _) in Hk; [done|].
  destruct (isTimeoutErrorMessage _); [done|].
  destruct (Contains _ "connection refused"); [done|].
  destruct (_ || _ || Contains _ "connect: ") in Hk; [done|].
  destruct (isHandshakeError _); [done|].
  destruct (negb _ && _) eqn:E in Hk; [bool_to_prop; by split_and!|].
  destruct (IsSessionLimit err); [done|]. by destruct (isSessionRejection _ _).
Qed.

(** The outcome of a remote command is reported unknown exactly for a lost
    connection, and a lost connection is only reported when the command may have
    started: never while a session is being opened, never for a handshake or a
    timeout, and on evidence that an established connection broke. Its stage and
    exit are then the policy's, whatever stage the caller is in. *)
Theorem connection_lost_sound err cx :
  x_Classified err = None →
  let f := ClassifySSH (Some err) cx in
  (f_Outcome f = OutcomeUnknown ↔ f_Error f = CodeConnectionLost) ∧
  (f_Error f = CodeConnectionLost →
    f_Stage f = "remote_execution" ∧ f_Exit f = ExitConnectionFailed ∧
    cx_SessionAcquisition cx = false ∧ x_NetTimeout err ≠ Some true ∧
    isHandshakeError (ToLower (x_Message err)) = false ∧
    isConnectionBreak windows err (ToLower (x_Message err))
      (cx_ExecPhase cx || bool_decide (cx_Stage cx = "session")) = true).
Proof.
  intros Hcl. destruct (ClassifySSH_kind err cx Hcl) as (kind & details & Hf & Hd & Hk).
  cbv zeta. rewrite Hf.
  destruct (ssh_context_adjust_fields err cx (Classify kind details)) as (He & Ho & Hs & Hx & _).
  destruct (Classify_policy kind details) as (_ & Hce & Hcs & Hco & Hcx & _).
  destruct (policy_outcome kind) as (Hiff & Hor & Hst).
  rewrite Ho, He, Hce, Hco. split.
  { rewrite <- Hiff. split; [by intros ->|]. by destruct Hor. }
  intros Hlost. rewrite Hs, Hcs by (by rewrite Hce, Hlost).
  destruct (Hx ltac:(by rewrite Hce, Hlost)) as [_ ->].
  rewrite Hcx, Hd. apply policy_connection_lost in Hlost as Hkind.
  destruct Hk as [Hk|(Hk & _)]; [|by rewrite Hkind in Hk].
  rewrite Hkind in Hk. symmetry in Hk. apply ssh_kind_connection_lost in Hk as (? & ? & _ & _ & ? & ?).
  split_and!; [by apply Hst|by rewrite Hkind|done..].
Qed.

(** The exit status of a process that failed with an error: the remote status
    when there is one, and never zero otherwise. *)
Theorem exit_for_error err :
  (∀ status, x_ExitStatus err = Some status → ExitForError (Some err) = status) ∧
  (x_ExitStatus err = None →
   (∀ f, x_Classified err = Some f → ProcessExit f ≠ 0%Z) → ExitForError (Some err) ≠ 0%Z).
Proof.
  unfold MachineContract.ExitForError. split; [by intros s ->|].
  intros -> Hcl. destruct (x_Classified err) as [f|] eqn:E; [by apply Hcl|].
  destruct (ClassifySSH_kind err empty_context E) as (kind & details & -> & Hd & _).
  destruct (ssh_context_adjust_fields err empty_context (Classify kind details))
    as (_ & _ & _ & _ & Hne).
  specialize (Hne ltac:(apply Classify_exits)).
  repeat case_bool_decide; done.
Qed.

(** A typed host-key error is classified as one, whatever its text says and
    whatever context it is met in: it never becomes an authentication, dial,
    handshake or connection failure. *)
Theorem host_key_errors_dominate err cx :
  x_Classified err = None → x_TypeChanged err = true ∨ is_Some (x_KeyError err) →
  let f := ClassifySSH (Some err) cx in
  f_Error f ∈ [CodeHostKeyTypeChanged; CodeHostKeyUnknown; CodeHostKey] ∧
  f_Exit f = ExitConnectionFailed ∧
  (f_Error f = CodeHostKeyUnknown ↔ x_TypeChanged err = false ∧ x_KeyError err = Some 0).
Proof.
  intros Hcl Hkey. destruct (ClassifySSH_kind err cx Hcl) as (kind & details & Hf & Hd & Hk).
  assert (fst (ssh_kind windows err cx) =
    if x_TypeChanged err then HostKeyTypeChanged
    else if bool_decide (x_KeyError err = Some 0) then HostKeyUnknown else HostKeyMismatch) as Hkind.
  { unfold ssh_kind. cbv zeta. destruct (x_TypeChanged err) eqn:Et; [done|].
    case_bool_decide; [done|]. by rewrite bool_decide_eq_true_2 by (by destruct Hkey). }
  cbv zeta. rewrite Hf.
  destruct (ssh_context_adjust_fields err cx (Classify kind details)) as (He & _ & _ & Hx & _).
  destruct (Classify_policy kind details) as (_ & Hce & _ & _ & Hcx & _).
  assert (kind = fst (ssh_kind windows err cx)) as ->.
  { destruct Hk as [|(_ & Hk & _)]; [done|]. rewrite Hkind in Hk.
    destruct (x_TypeChanged err); [done|]. by destruct (bool_decide _). }
  rewrite Hkind in *. clear Hk Hkind Hf.
  rewrite Hd in Hcx. rewrite He, Hce. rewrite Hce in Hx.
  destruct (x_TypeChanged err); [|case_bool_decide as Hk0];
    (destruct Hx as [_ ->]; [done|]); rewrite Hcx; (split_and!; [set_solver|done|naive_solver]).
Qed.

(** The status of a batch is zero exactly when every result is fine, and is
    otherwise the status of the first that is not. *)
Theorem aggregate_exit results :
  (AggregateResultExit results = 0%Z ↔ Forall (λ r, rs_OK r = true) results) ∧
  (∀ before r after, results = before ++ r :: after →
    Forall (λ r, rs_OK r = true) before → rs_OK r = false →
    AggregateResultExit results = (if bool_decide (rs_Exit r = 0%Z) then 1%Z else rs_Exit r)).
Proof.
  assert (∀ r, rs_OK r = false →
    ResultExit r = (if bool_decide (rs_Exit r = 0%Z) then 1%Z else rs_Exit r)) as Hr.
  { intros r Hr. unfold ResultExit. rewrite Hr. repeat case_bool_decide; done || tauto. }
  split.
  - induction results as [|r rs IH]; simpl; [done|]. rewrite Forall_cons, <- IH.
    destruct (rs_OK r) eqn:E; [naive_solver|]. rewrite Hr by done.
    case_bool_decide; naive_solver.
  - intros before r after ->. induction 1 as [|x before Hx _ IH]; intros Hok; simpl.
    + rewrite Hok. by apply Hr.
    + rewrite Hx. by apply IH.
Qed.
End Facts.
