(* ===== verification/Config.v ===== *)
(** * The inventory data model ([internal/config])

    The decrypted vault and its parts ([config.go]), the merge of two vaults,
    the vault generation counter ([generation.go]) and the settings
    ([settings.go]). A Go [int] is a [Z]; a pointer is an [option]; a nil and an
    empty slice are both [[]]. *)

From S2P Require Import Prelude NamedList GoStrings GoErrors VaultBlob.
From stdpp Require Import pretty.
From Stdlib Require Import Strings.Byte.

(** ** Data *)

Record SSHKey := mkSSHKey { k_Name : string; k_PrivateKey : string }.

Record Connection := mkConnection {
  c_Name : string;
  c_Host : string;
  c_Port : Z;
  c_User : string;
  c_Password : string;
  c_KeyName : string;
  c_Group : string;
  c_Transfer : string;
  c_ProxyJump : string;
}.

Record InventorySnapshot := mkSnapshot {
  s_Connections : list Connection;
  s_Keys : list SSHKey;
}.

Record PendingMutation := mkMutation {
  m_ID : string;
  m_Alias : string;
  m_Aliases : list string;
  m_KeyName : string;
  m_Operation : string;
  m_CreatedAt : string;
  m_Before : option Connection;
  m_After : option Connection;
  m_KeysBefore : list SSHKey;
  m_KeysAfter : list SSHKey;
  m_BulkBefore : option InventorySnapshot;
  m_BulkAfter : option InventorySnapshot;
  m_ConnectionCount : Z;
  m_KeyCount : Z;
}.

Record Vault := mkVault {
  v_Connections : list Connection;
  v_Keys : list SSHKey;
  v_PendingBase : option InventorySnapshot;
  v_PendingMutations : list PendingMutation;
}.

Record MergeConflict := mkConflict { mc_Name : string; mc_Kind : string; mc_Winner : string }.
Record MergeReport := mkReport { mr_RecordedAt : string; mr_Conflicts : list MergeConflict }.

#[export] Instance SSHKey_eq_dec : EqDecision SSHKey.
Proof. solve_decision. Defined.
#[export] Instance Connection_eq_dec : EqDecision Connection.
Proof. solve_decision. Defined.
#[export] Instance InventorySnapshot_eq_dec : EqDecision InventorySnapshot.
Proof. solve_decision. Defined.
#[export] Instance PendingMutation_eq_dec : EqDecision PendingMutation.
Proof. solve_decision. Defined.
#[export] Instance MergeConflict_eq_dec : EqDecision MergeConflict.
Proof. solve_decision. Defined.

(** The zero values. *)
Definition zero_connection : Connection := mkConnection "" "" 0 "" "" "" "" "" "".
Definition zero_vault : Vault := mkVault [] [] None [].

Definition empty_string (s : string) : bool := bool_decide (s = "").

(** ** [config.go] *)

Definition TransferAuto := "auto".
Definition TransferShell := "shell".
Definition TransferSFTP := "sftp".

Section Transfer.
Context `{UnicodeCase}.

Definition NormalizeTransfer (value : string) : string * bool :=
  let v := ToLower (TrimSpace value) in
  if bool_decide (v = "" ∨ v = TransferAuto) then ("", true)
  else if bool_decide (v = TransferShell) then (TransferShell, true)
  else if bool_decide (v = TransferSFTP) then (TransferSFTP, true)
  else ("", false).
End Transfer.

Definition UsesSFTP (c : Connection) : bool := bool_decide (c_Transfer c = TransferSFTP).

(** The first key of a name, as the pointer [GetKey] returns. *)
Definition keyByName (keys : list SSHKey) (name : string) : option SSHKey :=
  first_of k_Name name keys.

Definition GetKey (v : Vault) (name : string) : option SSHKey := keyByName (v_Keys v) name.

Definition KeyNames (v : Vault) : list string := k_Name <$> v_Keys v.

(** [seen] is the map the loop fills; names come out in order of first use. *)
Fixpoint group_names (seen : gset string) (cs : list Connection) : list string :=
  match cs with
  | [] => []
  | c :: cs' =>
      if bool_decide (c_Group c ≠ "" ∧ c_Group c ∉ seen)
      then c_Group c :: group_names ({[ c_Group c ]} ∪ seen) cs'
      else group_names seen cs'
  end.
Definition GroupNames (v : Vault) : list string := group_names ∅ (v_Connections v).

Definition default_port (p : Z) : bool := bool_decide (p = 0 ∨ p = 22)%Z.

Definition SSHArgs (c : Connection) : list string :=
  (if default_port (c_Port c) then [] else ["-p"; pretty (c_Port c)])
  ++ [c_User c +:+ "@" +:+ c_Host c].

Definition Display (c : Connection) : string :=
  c_User c +:+ "@" +:+ c_Host c
  +:+ (if default_port (c_Port c) then "" else ":" +:+ pretty (c_Port c)).

(** ** Merging two vaults *)

Section Merge.
Context {A : Type} `{!EqDecision A} (name : A → string) (kind : string).

(** A step of the loop over the local items: a map and the order of first
    appearance. *)
Definition merge_local_step (st : gmap string A * list string) (x : A) :=
  let '(m, order) := st in
  (<[name x := x]> m,
   match m !! name x with Some _ => order | None => order ++ [name x] end).

(** A step of the loop over the remote items, which also records conflicts. *)
Definition merge_remote_step (st : gmap string A * list string * list MergeConflict) (x : A) :=
  let '(m, order, conflicts) := st in
  let '(order', conflicts') :=
    match m !! name x with
    | None => (order ++ [name x], conflicts)
    | Some previous =>
        (order,
         if bool_decide (previous = x) then conflicts
         else conflicts ++ [mkConflict (name x) kind "remote"])
    end in
  (<[name x := x]> m, order', conflicts').

Definition merge_by (local remote : list A) : list A * list MergeConflict :=
  let st := foldl merge_local_step (∅, []) local in
  let '(m, order, conflicts) := foldl merge_remote_step (st, []) remote in
  (omap (λ n, m !! n) order, conflicts).
End Merge.

(** [recorded_at] is [time.Now()] in RFC 3339. *)
Definition MergeVaultsWithReport (recorded_at : string) (local remote : Vault) :
    Vault * MergeReport :=
  let '(conns, cc) := merge_by c_Name "alias" (v_Connections local) (v_Connections remote) in
  let '(keys, kc) := merge_by k_Name "key_name" (v_Keys local) (v_Keys remote) in
  (mkVault conns keys None [], mkReport recorded_at (cc ++ kc)).

Definition MergeVaults (recorded_at : string) (local remote : Vault) : Vault :=
  fst (MergeVaultsWithReport recorded_at local remote).

Definition ValidVaultBlob : bytes → bool := ValidBlob.
Definition VaultGeneration : bytes → Z * bool := Generation.

(** ** Durable JSON sidecars

    What a reader of one JSON file observes. [Malformed] is a file that reads but
    does not unmarshal. *)
Inductive doc (A : Type) : Type :=
  | Missing
  | Unreadable
  | Malformed
  | Doc (a : A).
Arguments Missing {A}.
Arguments Unreadable {A}.
Arguments Malformed {A}.
Arguments Doc {A} a.

Definition doc_value {A} (d : doc A) : option A :=
  match d with Doc a => Some a | _ => None end.

Definition doc_present {A} (d : doc A) : bool := match d with Missing => false | _ => true end.

(** A lock that stays held past its bounded wait. *)
Definition ErrLockBusy : goerror := Sentinel "config.ErrLockBusy" [].

(** ** [generation.go]

    [max_uint64] is [^uint64(0)]. *)
Definition max_uint64 : Z := 18446744073709551615.

Definition MaxSeenGeneration (ledger : doc Z) : Z := default 0%Z (doc_value ledger).

(** [lock_ok]: the generation lock was acquired; [held] is the ledger read while
    holding it; [write_ok]: the file was replaced. The result is the ledger
    afterwards. *)
Definition RecordMaxSeenGeneration
    (generation : Z) (seen : doc Z) (lock_ok : bool) (held : doc Z) (write_ok : bool) : doc Z :=
  if bool_decide (generation ≤ MaxSeenGeneration seen)%Z then held
  else if negb lock_ok then held
  else if bool_decide (generation ≤ MaxSeenGeneration held)%Z then held
  else if write_ok then Doc generation else held.

Definition SetMaxSeenGeneration
    (generation : Z) (lock_ok : bool) (held : doc Z) (write_ok : bool) : doc Z :=
  if lock_ok && write_ok then Doc generation else held.

Definition ResetMaxSeenGeneration (lock_ok : bool) (held : doc Z) (remove_ok : bool) : doc Z :=
  if lock_ok && remove_ok then Missing else held.

(** [blob] is the vault file, when it reads. *)
Definition NextVaultGeneration (blob : option bytes) (ledger : doc Z) : Z :=
  let current := match blob with Some data => fst (VaultGeneration data) | None => 0%Z end in
  let seen := MaxSeenGeneration ledger in
  let current := if bool_decide (seen > current)%Z then seen else current in
  if bool_decide (current = max_uint64) then current else (current + 1)%Z.

(** ** [settings.go] *)

Record Settings := mkSettings {
  AutoUpdate : bool;
  AutoSync : bool;
  UpdateRepo : string;
  LastPush : string;
  LastPull : string;
  SyncMode : string;
  SyncInterval : string;
  StaleAfter : string;
}.

(** The settings file, with a pointer per field. *)
Record RawSettings := mkRawSettings {
  raw_AutoUpdate : option bool;
  raw_AutoSync : option bool;
  raw_UpdateRepo : option string;
  raw_LastPush : option string;
  raw_LastPull : option string;
  raw_SyncMode : option string;
  raw_SyncInterval : option string;
  raw_StaleAfter : option string;
}.

Definition DefaultSettings : Settings := mkSettings true true "" "" "" "" "" "".

Definition LoadSettings (d : doc RawSettings) : Settings :=
  match d with
  | Doc raw =>
      let s := DefaultSettings in
      mkSettings
        (default (AutoUpdate s) (raw_AutoUpdate raw)) (default (AutoSync s) (raw_AutoSync raw))
        (default (UpdateRepo s) (raw_UpdateRepo raw)) (default (LastPush s) (raw_LastPush raw))
        (default (LastPull s) (raw_LastPull raw)) (default (SyncMode s) (raw_SyncMode raw))
        (default (SyncInterval s) (raw_SyncInterval raw)) (default (StaleAfter s) (raw_StaleAfter raw))
  | _ => DefaultSettings
  end.

(** What [SaveSettings] writes, with the [omitempty] fields left out when empty. *)
Definition omitempty (s : string) : option string := if empty_string s then None else Some s.
Definition SaveSettings (s : Settings) : RawSettings :=
  mkRawSettings (Some (AutoUpdate s)) (Some (AutoSync s)) (omitempty (UpdateRepo s))
    (omitempty (LastPush s)) (omitempty (LastPull s)) (omitempty (SyncMode s))
    (omitempty (SyncInterval s)) (omitempty (StaleAfter s)).

Definition SyncModeLocalFirst := "local_first".
Definition SyncModeStrict := "strict".
Definition SyncModeEnv := "SSM_SYNC_MODE".

(** [env] is the value of [SSM_SYNC_MODE]. *)
Definition EffectiveSyncMode (env : string) (s : Settings) : string :=
  let fix pick (cs : list string) : string :=
    match cs with
    | [] => SyncModeLocalFirst
    | c :: cs' =>
        if bool_decide (TrimSpace c = SyncModeStrict) then SyncModeStrict
        else if bool_decide (TrimSpace c = SyncModeLocalFirst) then SyncModeLocalFirst
        else pick cs'
    end in
  pick [env; SyncMode s].

Definition known_mode (v : string) : bool :=
  bool_decide (TrimSpace v ∈ [""; SyncModeStrict; SyncModeLocalFirst]).

Definition InvalidSyncMode (env : string) (s : Settings) : string * string :=
  let fix pick (cs : list (string * string)) : string * string :=
    match cs with
    | [] => ("", "")
    | (source, value) :: cs' => if known_mode value then pick cs' else (source, value)
    end in
  pick [(SyncModeEnv, env); ("settings.json sync_mode", SyncMode s)].

(** Durations are nanoseconds. [time.ParseDuration] is the argument
    [ParseDuration]. *)
Definition hour : Z := 3600000000000.
Definition DefaultSyncInterval : Z := 600000000000.
Definition DefaultStaleAfter : Z := 7 * 24 * hour.

Section Durations.
Variable ParseDuration : string → option Z.

Definition parseSettingsDuration (raw : string) (fallback : Z) : Z :=
  let raw := TrimSpace raw in
  if empty_string raw then fallback
  else if HasSuffix raw "d" then
    match Atoi (TrimSuffix raw "d") with
    | Some days =>
        if bool_decide (days ≤ 0 ∨ days > 3650)%Z then fallback else (days * 24 * hour)%Z
    | None => fallback
    end
  else
    match ParseDuration raw with
    | Some parsed => if bool_decide (parsed ≤ 0)%Z then fallback else parsed
    | None => fallback
    end.

Definition EffectiveSyncInterval (s : Settings) : Z :=
  parseSettingsDuration (SyncInterval s) DefaultSyncInterval.
Definition EffectiveStaleAfter (s : Settings) : Z :=
  parseSettingsDuration (StaleAfter s) DefaultStaleAfter.
End Durations.

(** ** Properties of the merge *)

Section MergeProps.
Context {A : Type} `{!EqDecision A} (name : A → string) (kind : string).

(** The remote items that replaced a different local item. *)
Definition clashes (m : gmap string A) (x : A) : bool :=
  match m !! name x with Some p => bool_decide (p ≠ x) | None => false end.

Lemma merge_local_loop l m order :
  NoDup (names name l) → (∀ x, x ∈ l → m !! name x = None) →
  foldl (merge_local_step name) (m, order) l
  = (foldl (λ m x, <[name x := x]> m) m l, order ++ names name l).
Proof.
  revert m order. induction l as [|x l IH]; intros m order Hnd Hm; simpl.
  { by rewrite app_nil_r. }
  rewrite Hm by constructor. apply NoDup_cons in Hnd as [Hx Hl].
  rewrite IH; [by rewrite <- app_assoc|done|].
  intros y Hy. rewrite lookup_insert_ne; [apply Hm; by constructor|].
  intros Heq. apply Hx. rewrite Heq. by apply list_elem_of_fmap_2.
Qed.

Lemma merge_remote_loop m0 l m order cs :
  NoDup (names name l) → (∀ x, x ∈ l → m !! name x = m0 !! name x) →
  foldl (merge_remote_step name kind) (m, order, cs) l
  = (foldl (λ m x, <[name x := x]> m) m l,
     order ++ filter (λ n, m0 !! n = None) (names name l),
     cs ++ ((λ x, mkConflict (name x) kind "remote") <$> filter (λ x, clashes m0 x) l)).
Proof.
  revert m order cs. induction l as [|x l IH]; intros m order cs Hnd Hm; simpl.
  { by rewrite !app_nil_r. }
  pose proof (Hm x ltac:(constructor)) as Hmx. apply NoDup_cons in Hnd as [Hx Hl].
  assert (∀ y, y ∈ l → <[name x:=x]> m !! name y = m0 !! name y) as Hm'.
  { intros y Hy. rewrite lookup_insert_ne; [apply Hm; by constructor|].
    intros Heq. apply Hx. rewrite Heq. by apply list_elem_of_fmap_2. }
  change (names name (x :: l)) with (name x :: names name l).
  rewrite Hmx, !filter_cons.
  destruct (decide (m0 !! name x = None)) as [E|E], (decide (clashes m0 x)) as [Hc|Hc];
    unfold clashes in Hc; destruct (m0 !! name x) as [p|] eqn:E'; try done;
    rewrite IH by done; rewrite <- ?app_assoc; [done|..].
  - rewrite bool_decide_spec in Hc. by rewrite bool_decide_eq_false_2, <- app_assoc.
  - rewrite bool_decide_spec in Hc. by rewrite bool_decide_eq_true_2 by (by apply dec_stable).
Qed.

Lemma omap_lookup_names (m : gmap string A) order :
  (∀ n x, m !! n = Some x → name x = n) → (∀ n, n ∈ order → is_Some (m !! n)) →
  names name (omap (λ n, m !! n) order) = order.
Proof.
  intros Hname Hin. unfold names. induction order as [|n order IH]; simpl; [done|].
  destruct (Hin n ltac:(constructor)) as [x Hx]. rewrite Hx. simpl.
  rewrite (Hname n x Hx). f_equal. apply IH. intros k Hk. apply Hin. by constructor.
Qed.

Lemma merge_by_spec local remote :
  NoDup (names name local) → NoDup (names name remote) →
  let r := fst (merge_by name kind local remote) in
  by_name name r = by_name name remote ∪ by_name name local ∧
  names name r
    = names name local ++ filter (λ n, by_name name local !! n = None) (names name remote) ∧
  snd (merge_by name kind local remote)
    = (λ x, mkConflict (name x) kind "remote") <$> filter (λ x, clashes (by_name name local) x) remote.
Proof.
  intros Hl Hr. unfold merge_by.
  rewrite merge_local_loop by (done || (intros; by rewrite lookup_empty)).
  fold (last_by_name name local). rewrite (last_by_name_eq name local Hl).
  rewrite (merge_remote_loop (by_name name local)) by done.
  rewrite last_by_name_eq_acc by done. cbn [fst snd app].
  set (m := by_name name remote ∪ by_name name local).
  set (order := names name local ++ filter (λ n, by_name name local !! n = None) (names name remote)).
  assert (names name (omap (λ n, m !! n) order) = order) as Hnames.
  { apply omap_lookup_names.
    - intros n x [H|[_ H]]%lookup_union_Some_raw; by destruct (by_name_lookup_name _ _ _ _ H).
    - intros n [Hn|[_ Hn]%list_elem_of_filter]%elem_of_app; apply lookup_union_is_Some;
        [right|left]; apply not_eq_None_Some; by intros ?%by_name_None. }
  split_and!; [|exact Hnames|done].
  assert (NoDup order) as Hnd.
  { apply NoDup_app. split_and!; [done| |by apply NoDup_filter].
    intros n Hn [Hno _]%list_elem_of_filter. by apply by_name_None in Hno. }
  apply map_eq. intros n. apply option_eq. intros x.
  rewrite by_name_lookup by by rewrite Hnames. rewrite list_elem_of_omap.
  assert (m !! n = Some x → name x = n) as Hname.
  { intros [H|[_ H]]%lookup_union_Some_raw; by destruct (by_name_lookup_name _ _ _ _ H). }
  split.
  - intros [(k & Hk & Hx) <-].
    apply lookup_union_Some_raw in Hx as H. destruct H as [H|[_ H]];
      apply by_name_lookup_name in H as [-> _]; done.
  - intros Hx. split; [|by apply Hname]. exists n. split; [|done].
    apply Hname in Hx as Hn. apply lookup_union_Some_raw in Hx as [H|[Hr' H]];
      apply by_name_lookup_name in H as [_ H]; apply (list_elem_of_fmap_2 name) in H;
      rewrite Hn in H; apply elem_of_app.
    + destruct (by_name name local !! n) eqn:E; [left|right; by apply list_elem_of_filter].
      apply by_name_lookup_name in E as [<- E]. by apply list_elem_of_fmap_2.
    + by left.
Qed.
End MergeProps.

(** Merging takes every remote item, keeps the local items whose name the remote
    does not have and reports exactly the names whose items differ, the remote
    winning; local names come first, in their order. *)
Theorem merge_remote_wins now local remote :
  NoDup (names c_Name (v_Connections local)) → NoDup (names c_Name (v_Connections remote)) →
  NoDup (names k_Name (v_Keys local)) → NoDup (names k_Name (v_Keys remote)) →
  let (merged, report) := MergeVaultsWithReport now local remote in
  by_name c_Name (v_Connections merged)
    = by_name c_Name (v_Connections remote) ∪ by_name c_Name (v_Connections local) ∧
  by_name k_Name (v_Keys merged)
    = by_name k_Name (v_Keys remote) ∪ by_name k_Name (v_Keys local) ∧
  names c_Name (v_Connections local) `prefix_of` names c_Name (v_Connections merged) ∧
  (∀ n, mkConflict n "alias" "remote" ∈ mr_Conflicts report ↔
    ∃ old new, by_name c_Name (v_Connections local) !! n = Some old ∧
      by_name c_Name (v_Connections remote) !! n = Some new ∧ old ≠ new).
Proof.
  intros Hlc Hrc Hlk Hrk. unfold MergeVaultsWithReport.
  pose proof (merge_by_spec c_Name "alias" _ _ Hlc Hrc) as (Hc & Hcn & Hcc).
  pose proof (merge_by_spec k_Name "key_name" _ _ Hlk Hrk) as (Hk & _ & Hkc).
  destruct (merge_by c_Name "alias" _ _) as [conns cc], (merge_by k_Name "key_name" _ _) as [keys kc].
  simpl in *. split_and!; [done|done|rewrite Hcn; by eexists|].
  intros n. rewrite elem_of_app, Hcc, Hkc, !list_elem_of_fmap. split.
  - intros [(x & [= ->] & [Hx Hin]%list_elem_of_filter)|(x & [=] & _)].
    unfold clashes in Hx. destruct (by_name _ _ !! c_Name x) as [p|] eqn:E; [|done].
    exists p, x. split_and!; [done|by apply by_name_elem|by apply bool_decide_spec in Hx].
  - intros (old & new & Ho & [Hin <-]%by_name_lookup & Hne); [|done].
    left. exists new. split; [done|]. apply list_elem_of_filter. split; [|done].
    unfold clashes. rewrite Ho. by apply bool_decide_spec.
Qed.

Lemma VaultGeneration_range data : (0 ≤ fst (VaultGeneration data) ≤ max_uint64)%Z.
Proof.
  unfold VaultGeneration, Generation.
  destruct data as [|[] data]; simpl; try (unfold max_uint64; lia).
  case_bool_decide; simpl; [unfold max_uint64; lia|].
  pose proof (be_decode_range (slice 1 9 (x02 :: data))) as Hd.
  assert (length (slice 1 9 (x02 :: data)) ≤ 8) as Hlen
    by (unfold slice; rewrite length_take; lia).
  assert (2 ^ (8 * Z.of_nat (length (slice 1 9 (x02 :: data)))) ≤ 2 ^ 64)%Z as Hp
    by (apply Z.pow_le_mono_r; lia).
  unfold max_uint64. lia.
Qed.

Lemma NextVaultGeneration_range blob ledger :
  (0 ≤ MaxSeenGeneration ledger ≤ max_uint64)%Z → (0 ≤ NextVaultGeneration blob ledger < 2 ^ 64)%Z.
Proof.
  intros Hl. unfold NextVaultGeneration.
  destruct blob as [d|]; [pose proof (VaultGeneration_range d)|]; cbv zeta;
    repeat case_bool_decide; unfold max_uint64 in *; lia.
Qed.

(** The next generation is above the vault's own and above every generation this
    machine has seen, and stays a 64-bit value: at the top it saturates. *)
Theorem next_generation_monotone blob ledger :
  (0 ≤ MaxSeenGeneration ledger ≤ max_uint64)%Z →
  let g := NextVaultGeneration blob ledger in
  (0 < g ≤ max_uint64)%Z ∧
  (g < max_uint64 →
    MaxSeenGeneration ledger < g ∧ ∀ data, blob = Some data → fst (VaultGeneration data) < g)%Z ∧
  (g = max_uint64 → MaxSeenGeneration ledger ≤ g ∧
    ∀ data, blob = Some data → fst (VaultGeneration data) ≤ g)%Z.
Proof.
  intros Hl. simpl.
  pose proof VaultGeneration_range as Hr.
  unfold NextVaultGeneration.
  destruct blob as [d|]; [pose proof (Hr d)|]; cbv zeta;
    repeat case_bool_decide; split_and!; try intros ? [= <-]; unfold max_uint64 in *;
    intuition (simplify_eq; lia).
Qed.

(** Saving the settings and loading them back changes nothing. *)
Lemma settings_roundtrip s : LoadSettings (Doc (SaveSettings s)) = s.
Proof.
  destruct s as [u a r lp lq m i st]. unfold LoadSettings, SaveSettings, omitempty, empty_string.
  simpl. by repeat (case_bool_decide; subst; simpl).
Qed.

(** Every configured duration is a positive number of nanoseconds that fits
    [int64], whatever the file says. *)
Lemma settings_duration_bounds ParseDuration raw fallback :
  (0 < fallback ≤ max_int)%Z →
  (∀ s d, ParseDuration s = Some d → min_int ≤ d ≤ max_int)%Z →
  (0 < parseSettingsDuration ParseDuration raw fallback ≤ max_int)%Z.
Proof.
  intros Hf Hp. unfold parseSettingsDuration. cbv zeta.
  destruct (empty_string _); [done|]. destruct (HasSuffix _ _).
  - destruct (Atoi _) as [d|]; [|done]. case_bool_decide; [done|].
    unfold hour, max_int. lia.
  - destruct (ParseDuration _) as [d|] eqn:E; [|done]. case_bool_decide; [done|].
    specialize (Hp _ _ E). lia.
Qed.

(** An unrecognised mode is reported exactly when it was typed, and never takes
    effect: the effective mode is one of the two, the environment first. *)
Lemma sync_mode_effective env s :
  EffectiveSyncMode env s ∈ [SyncModeStrict; SyncModeLocalFirst] ∧
  (fst (InvalidSyncMode env s) = "" ↔ known_mode env = true ∧ known_mode (SyncMode s) = true).
Proof.
  unfold EffectiveSyncMode, InvalidSyncMode. split.
  - repeat case_bool_decide; set_solver.
  - destruct (known_mode env), (known_mode (SyncMode s)); naive_solver.
Qed.
