(* ===== verification/JumpChain.v ===== *)
(** * Redirects and jump chains ([config/redirects.go], [config/jumpchain.go])

    Soft links from old aliases to new ones, the selection of aliases by pattern, and
    the chain of jump hosts in front of a target, with what makes them correct: the
    chain is the unique path of [proxy_jump] references, if that path is short enough
    and repeats nothing. *)

From Stdlib Require Import Ascii.
From S2P Require Import Prelude GoStrings GoErrors NamedList Config.

(** ** Redirects *)

Definition Redirects : Type := gmap string string.

(** A missing, unreadable or malformed [redirects.json] holds none. *)
Definition LoadRedirects (file : doc Redirects) : Redirects := default ∅ (doc_value file).

Definition maxRedirects : nat := 16.

(** The loop of [ResolveAlias]: the name after the redirects, or [None] for a cycle. *)
Fixpoint follow (fuel : nat) (r : Redirects) (seen : list string) (name : string) : option string :=
  match fuel with
  | O => Some name
  | S n =>
      if bool_decide (name ∈ seen) then None
      else
        match r !! name with
        | Some next =>
            if bool_decide (next = "") || bool_decide (next = name) then Some name
            else follow n r (name :: seen) next
        | None => Some name
        end
  end.

Definition find_alias (v : Vault) (name : string) : option Connection := first_of c_Name name (v_Connections v).

(** The connection, if there is one, and the name the code reports with it. *)
Definition ResolveAlias (r : Redirects) (v : Vault) (requested : string) : option Connection * string :=
  if bool_decide (requested = "") then (None, requested)
  else
    match follow maxRedirects r [] requested with
    | None => (None, requested)
    | Some name =>
        match find_alias v name with
        | Some c => (Some c, name)
        | None =>
            match (if bool_decide (name = requested) then None else find_alias v requested) with
            | Some c => (Some c, requested)
            | None => (None, name)
            end
        end
    end.

(** ** Selection by pattern *)

Fixpoint unique_strings (seen l : list string) : list string :=
  match l with
  | [] => []
  | s :: l' => if bool_decide (s ∈ seen) then unique_strings seen l' else s :: unique_strings (s :: seen) l'
  end.
Definition uniqueStrings : list string → list string := unique_strings [].

Definition splitComma (s : string) : list string := Split "," s.

(** [trimSpace]: spaces and tabs only. *)
Definition trimSpace (s : string) : string := Trim s (string_of_codes [32; 9]%N).

Section MatchAliases.
(** [filepath.Match], [None] for a malformed pattern. *)
Context (glob : string → string → option bool).

(** The names a pattern matches that are not selected yet, in order. *)
Fixpoint match_names (p : string) (names : list string) (matched : bool) (out : list string) :
    option (bool * list string) :=
  match names with
  | [] => Some (matched, out)
  | n :: names' =>
      match glob p n with
      | None => None
      | Some true => match_names p names' true (if bool_decide (n ∈ out) then out else out ++ [n])
      | Some false => match_names p names' matched out
      end
  end.

Fixpoint match_patterns (names ps : list string) (out : list string) : result (list string) :=
  match ps with
  | [] => Ok out
  | p :: ps' =>
      let p := trimSpace p in
      if bool_decide (p = "") then match_patterns names ps' out
      else
        match match_names p names false out with
        | None => Fail (Errorf "bad pattern")
        | Some (matched, out) =>
            match_patterns names ps' (if matched || bool_decide (p ∈ out) then out else out ++ [p])
        end
  end.

(** [sources] are the redirect names in the order the map is iterated in. *)
Definition selectable (v : Vault) (sources : list string) : list string :=
  uniqueStrings (sort_strings ((c_Name <$> v_Connections v) ++ sources)).

Definition MatchAliases (v : Vault) (sources : list string) (patterns : list string) : result (list string) :=
  match_patterns (selectable v sources) (mjoin (splitComma <$> patterns)) [].
End MatchAliases.

(** ** Jump chains *)

Definition MaxJumpDepth : nat := 5.

Inductive JumpReason := JumpCycle | JumpDepth | JumpMissing.

Record JumpChainError := mkJumpError { je_Reason : JumpReason; je_Alias : string; je_Chain : list string }.

Definition withAlias (names : list string) (alias : string) : list string := names ++ [alias].

(** The loop of [ResolveJumpChain]; [seen] is the map of the code as a list. Its guard
    on the depth bounds the rounds. *)
Fixpoint jump_loop (fuel : nat) (r : Redirects) (v : Vault) (seen names : list string)
    (jumps : list Connection) (next : string) : option (JumpChainError + list Connection) :=
  if bool_decide (next = "") then Some (inr jumps)
  else
    match fuel with
    | O => None
    | S n =>
        if MaxJumpDepth <=? length jumps then Some (inl (mkJumpError JumpDepth next (withAlias names next)))
        else
          match ResolveAlias r v next with
          | (None, _) => Some (inl (mkJumpError JumpMissing next (withAlias names next)))
          | (Some conn, resolved) =>
              if bool_decide (c_Name conn ∈ seen) || bool_decide (resolved ∈ seen)
              then Some (inl (mkJumpError JumpCycle (c_Name conn) (withAlias names (c_Name conn))))
              else jump_loop n r v (c_Name conn :: resolved :: seen) (withAlias names (c_Name conn))
                     (conn :: jumps) (TrimSpace (c_ProxyJump conn))
          end
    end.

Definition ResolveJumpChain (r : Redirects) (v : Vault) (target : Connection) :
    option (JumpChainError + list Connection) :=
  match jump_loop (S MaxJumpDepth) r v [c_Name target] [c_Name target] [] (TrimSpace (c_ProxyJump target)) with
  | Some (inr jumps) => Some (inr (jumps ++ [target]))
  | other => other
  end.

(** ** Resolving aliases *)

(** [follows r a b]: redirects lead from [a] to [b]. *)
Definition redirect (r : Redirects) (a b : string) : Prop := r !! a = Some b ∧ b ≠ "" ∧ b ≠ a.

Lemma follow_reaches fuel r seen name last :
  follow fuel r seen name = Some last → rtc (redirect r) name last.
Proof.
  revert seen name. induction fuel as [|fuel IH]; intros seen name; cbn [follow]; [by intros [= ->]|].
  case_bool_decide; [done|]. destruct (r !! name) as [next|] eqn:E; [|by intros [= ->]].
  destruct (bool_decide (next = "") || bool_decide (next = name)) eqn:Eb; [by intros [= ->]|]. bool_to_prop.
  intros Hf. eapply rtc_l; [by split_and!|]. by eapply IH.
Qed.

Lemma follow_cycle fuel r seen name :
  follow fuel r seen name = None → (∀ s, s ∈ seen → rtc (redirect r) s name) →
  ∃ s, tc (redirect r) s s ∨ s ∈ seen ∧ rtc (redirect r) name s.
Proof.
  revert seen name. induction fuel as [|fuel IH]; intros seen name; cbn [follow]; [done|].
  case_bool_decide as Hin; [intros _ _; exists name; right; split; [done|apply rtc_refl]|].
  destruct (r !! name) as [next|] eqn:E; [|done].
  destruct (bool_decide (next = "") || bool_decide (next = name)) eqn:Eb; [done|]. bool_to_prop.
  assert (redirect r name next) as Hstep by by split_and!. intros Hf Hseen.
  destruct (IH _ _ Hf) as (s & Hs).
  - intros s [->|Hs]%elem_of_cons; [by apply rtc_once|]. eapply rtc_r; [by apply Hseen|done].
  - exists s. destruct Hs as [Hs|[[->|Hs]%elem_of_cons Hr]]; [by left| |].
    + left. eapply tc_rtc_r; [by apply tc_once|exact Hr].
    + right. split; [done|]. by eapply rtc_l.
Qed.

Lemma find_alias_spec v name c : find_alias v name = Some c → c ∈ v_Connections v ∧ c_Name c = name.
Proof.
  unfold find_alias. induction (v_Connections v) as [|d l IH]; cbn [first_of]; [done|].
  case_bool_decide; [intros [= <-]; split; [left|done]|]. intros Hf. apply IH in Hf as [? ?]. split; [by right|done].
Qed.

(** A resolved alias is the first connection of the reported name, and that name is
    the requested one or one the redirects lead to from it. An alias without a
    redirect resolves to its own connection, and only a cycle of redirects or a name
    that is nowhere in the vault is not resolved. *)
Theorem resolve_alias_sound r v requested conn name :
  ResolveAlias r v requested = (conn, name) → requested ≠ "" →
  (∀ c, conn = Some c → find_alias v name = Some c ∧ c ∈ v_Connections v ∧ c_Name c = name ∧
     rtc (redirect r) requested name) ∧
  (∀ c, find_alias v requested = Some c → (∀ next, ¬ redirect r requested next) → conn = Some c ∧ name = requested) ∧
  (conn = None → (∃ s, tc (redirect r) s s) ∨
     find_alias v requested = None ∧ find_alias v name = None ∧ rtc (redirect r) requested name).
Proof.
  unfold ResolveAlias. intros Hres Hne. rewrite bool_decide_eq_false_2 in Hres by done.
  destruct (follow maxRedirects r [] requested) as [last|] eqn:Ef.
  - apply follow_reaches in Ef as Hreach.
    assert ((∀ next, ¬ redirect r requested next) → last = requested) as Hno.
    { intros Hn. inversion Hreach as [|? y ? Hy]; [done|]. by destruct (Hn y). }
    destruct (find_alias v last) as [c|] eqn:Ec; [|case_bool_decide; [|destruct (find_alias v requested) as [c|] eqn:Er]].
    all: simplify_eq; split_and!; try (intros c0 Hc0; simplify_eq; try (destruct (find_alias_spec _ _ _ Ec));
      try (destruct (find_alias_spec _ _ _ Er))); try done.
    all: try (intros Hn; specialize (Hno Hn); simplify_eq; done).
    all: by right.
  - simplify_eq. split_and!; [done| |].
    + intros c Hc Hn. exfalso. unfold maxRedirects in Ef. cbn [follow] in Ef.
      case_bool_decide; [set_solver|]. destruct (r !! name) as [next|] eqn:E; [|done].
      destruct (bool_decide (next = "") || bool_decide (next = name)) eqn:Eb; [done|]. bool_to_prop.
      by destruct (Hn next).
    + intros _. left. destruct (follow_cycle _ _ _ _ Ef) as (s & [Hs|[Hs _]]); [intros; set_solver|by exists s|set_solver].
Qed.

(** ** The chain is the path of jump references *)

(** The hops [proxy_jump] leads over from one alias, nearest first, and the alias the
    last of them refers to. *)
Inductive walk (r : Redirects) (v : Vault) : string → list Connection → string → Prop :=
  | walk_here next : walk r v next [] next
  | walk_hop next conn resolved rest last :
      next ≠ "" → ResolveAlias r v next = (Some conn, resolved) →
      walk r v (TrimSpace (c_ProxyJump conn)) rest last → walk r v next (conn :: rest) last.

Definition names_of (target : Connection) (hops : list Connection) : list string := c_Name <$> target :: hops.

(** A path of at most [MaxJumpDepth] hops that meets no connection twice. *)
Definition simple_walk (r : Redirects) (v : Vault) (target : Connection) (hops : list Connection) (last : string) : Prop :=
  walk r v (TrimSpace (c_ProxyJump target)) hops last ∧ length hops ≤ MaxJumpDepth ∧ NoDup (names_of target hops).

(** Why a chain is refused. *)
Definition refused (r : Redirects) (v : Vault) (target : Connection) (e : JumpChainError) : Prop :=
  ∃ hops next, simple_walk r v target hops next ∧ next ≠ "" ∧
    je_Chain e = names_of target hops ++ [je_Alias e] ∧
    match je_Reason e with
    | JumpDepth => length hops = MaxJumpDepth ∧ je_Alias e = next
    | JumpMissing => je_Alias e = next ∧ (ResolveAlias r v next).1 = None
    | JumpCycle => je_Alias e ∈ names_of target hops ∧
                   ∃ conn, (ResolveAlias r v next).1 = Some conn ∧ c_Name conn = je_Alias e
    end.

Lemma resolved_name r v next conn resolved :
  ResolveAlias r v next = (Some conn, resolved) → c_Name conn = resolved.
Proof.
  unfold ResolveAlias. intros H. repeat (case_match; simplify_eq; try done);
    repeat match goal with Hf : find_alias _ _ = Some _ |- _ => apply find_alias_spec in Hf as [? ?] end; congruence.
Qed.

Lemma walk_snoc r v a hops next conn resolved :
  walk r v a hops next → next ≠ "" → ResolveAlias r v next = (Some conn, resolved) →
  walk r v a (hops ++ [conn]) (TrimSpace (c_ProxyJump conn)).
Proof.
  induction 1 as [next|next c res rest last Hne Hres _ IH]; intros Hn Hr; cbn [app].
  - eapply walk_hop; [done..|]. apply walk_here.
  - eapply walk_hop; [done..|]. by apply IH.
Qed.

Lemma names_of_snoc target hops conn : names_of target (hops ++ [conn]) = names_of target hops ++ [c_Name conn].
Proof. unfold names_of. by rewrite app_comm_cons, fmap_app. Qed.

(** The loop, after the hops [hops]. *)
Lemma jump_loop_spec fuel r v target seen hops next :
  MaxJumpDepth < fuel + length hops → simple_walk r v target hops next →
  (∀ n, n ∈ seen ↔ n ∈ names_of target hops) →
  match jump_loop fuel r v seen (names_of target hops) (rev hops) next with
  | None => False
  | Some (inl e) => refused r v target e
  | Some (inr jumps) => ∃ hops', simple_walk r v target hops' "" ∧ jumps = rev hops'
  end.
Proof.
  revert seen hops next. induction fuel as [|fuel IH]; intros seen hops next Hfuel Hwalk Hseen; cbn [jump_loop].
  { destruct Hwalk as (_ & ? & _). lia. }
  case_bool_decide as Hend; [subst; by exists hops|]. rewrite length_rev.
  destruct (MaxJumpDepth <=? length hops) eqn:Edepth; bool_to_prop.
  { exists hops, next. split_and!; try done. cbn. destruct Hwalk as (_ & ? & _). split; [lia|done]. }
  destruct (ResolveAlias r v next) as [[conn|] resolved] eqn:Er.
  2: { exists hops, next. split_and!; try done. cbn. by rewrite Er. }
  apply resolved_name in Er as Hname. subst resolved.
  destruct (bool_decide (c_Name conn ∈ seen) || _) eqn:Eseen.
  - rewrite orb_diag, bool_decide_eq_true in Eseen. exists hops, next. split_and!; try done. cbn.
    split; [by apply Hseen|]. exists conn. by rewrite Er.
  - bool_to_prop. unfold withAlias. rewrite <- names_of_snoc.
    replace (conn :: rev hops) with (rev (hops ++ [conn])) by by rewrite rev_app_distr.
    apply IH; [rewrite length_app; simpl; lia| |].
    + destruct Hwalk as (Hw & Hlen & Hnd). split_and!.
      * by eapply walk_snoc.
      * rewrite length_app. simpl. lia.
      * rewrite names_of_snoc. apply NoDup_app. split_and!; [done| |apply NoDup_singleton].
        intros n Hn ->%list_elem_of_singleton. by apply Hseen in Hn.
    + intros n. rewrite names_of_snoc. set_solver.
Qed.

Lemma ResolveJumpChain_ends r v target :
  match ResolveJumpChain r v target with
  | None => False
  | Some (inl _) => True
  | Some (inr chain) => ∃ jumps, chain = jumps ++ [target]
  end.
Proof.
  unfold ResolveJumpChain.
  pose proof (jump_loop_spec (S MaxJumpDepth) r v target [c_Name target] [] (TrimSpace (c_ProxyJump target))) as Hloop.
  change (names_of target []) with [c_Name target] in Hloop. cbn [rev] in Hloop.
  destruct (jump_loop _ r v _ _ [] _) as [[e|jumps]|]; [done|by exists jumps|]. apply Hloop; [cbn [length]; lia| |done].
  split_and!; [apply walk_here|simpl; lia|apply NoDup_singleton].
Qed.

(** The walk to the end of the references goes on from every other one. *)
Lemma walk_extends r v a hops next hops' :
  walk r v a hops next → walk r v a hops' "" → ∃ rest, hops' = hops ++ rest ∧ walk r v next rest "".
Proof.
  intros Hw. revert hops'. induction Hw as [next|next c res rest last Hne Hres _ IH]; intros hops' Hw'.
  - by exists hops'.
  - inversion Hw' as [|? c' res' rest' ? ? Hres' Hw2]; simplify_eq; try done.
    rewrite Hres in Hres'. simplify_eq. destruct (IH _ Hw2) as (rest2 & -> & ?). by exists rest2.
Qed.

(** C35: Resolving a jump chain always ends, with the hosts to dial exactly when the
    references from the target form a path of at most five existing aliases that
    meets nothing twice: that path from its far end, then the target. Otherwise the
    error says where and why the path breaks off. *)
Theorem jump_chain_is_the_path r v target :
  match ResolveJumpChain r v target with
  | None => False
  | Some (inr chain) => ∃ hops, simple_walk r v target hops "" ∧ chain = rev hops ++ [target]
  | Some (inl e) => refused r v target e ∧ ∀ hops, ¬ simple_walk r v target hops ""
  end.
Proof.
  unfold ResolveJumpChain.
  pose proof (jump_loop_spec (S MaxJumpDepth) r v target [c_Name target] [] (TrimSpace (c_ProxyJump target))) as Hloop.
  cbn [length rev] in Hloop. change (names_of target []) with [c_Name target] in Hloop.
  specialize (Hloop ltac:(lia)). 
  assert (simple_walk r v target [] (TrimSpace (c_ProxyJump target))) as Hstart.
  { split_and!; [apply walk_here|simpl; lia|apply NoDup_singleton]. }
  specialize (Hloop Hstart ltac:(done)).
  destruct (jump_loop _ r v _ _ [] _) as [[e|jumps]|]; [|destruct Hloop as (hops & ? & ->); by exists hops|done].
  split; [done|]. intros hops Hhops. destruct Hloop as (hops' & next & Hw & Hne & _ & Hreason).
  destruct Hhops as (Hfull & Hlen & Hnd). destruct (walk_extends _ _ _ _ _ _ (proj1 Hw) Hfull) as (rest & -> & Hrest).
  inversion Hrest as [|? conn resolved rest' ? ? Hres]; simplify_eq; try done.
  rewrite length_app in Hlen. cbn [length] in Hlen. rewrite Hres in Hreason. cbn [fst] in Hreason.
  destruct (je_Reason e).
  - destruct Hreason as [Hin (c & [= ->] & Hc)]. unfold names_of in Hin, Hnd.
    rewrite app_comm_cons, fmap_app in Hnd. apply NoDup_app in Hnd as (_ & Hdisj & _).
    apply (Hdisj (je_Alias e)); [done|]. rewrite <- Hc. left.
  - destruct Hreason as [? _]. lia.
  - by destruct Hreason.
Qed.

(** ** Selection *)

Section Selection.
Context (glob : string → string → option bool).

Lemma match_names_spec p names matched out matched' out' :
  match_names glob p names matched out = Some (matched', out') → NoDup out →
  NoDup out' ∧ (∀ n, n ∈ out' ↔ n ∈ out ∨ n ∈ names ∧ glob p n = Some true) ∧
  (matched' = true ↔ matched = true ∨ ∃ n, n ∈ names ∧ glob p n = Some true).
Proof.
  revert matched out. induction names as [|n names IH]; intros matched out; cbn [match_names].
  - intros [= <- <-] Hnd. split_and!; [done|set_solver|set_solver].
  - destruct (glob p n) as [[|]|] eqn:E; [| |done]; intros Hm Hnd; apply IH in Hm as (H1 & H2 & H3).
    + split_and!; [done| |].
      * intros m. rewrite H2. case_bool_decide; [|rewrite elem_of_app, list_elem_of_singleton];
          rewrite elem_of_cons; naive_solver.
      * rewrite H3. set_solver.
    + case_bool_decide; [done|]. apply NoDup_app. split_and!; [done|set_solver|apply NoDup_singleton].
    + split_and!; [done| |].
      * intros m. rewrite H2, elem_of_cons. naive_solver.
      * rewrite H3. set_solver.
    + done.
Qed.

(** What one pattern selects among the names: those it matches or, when it matches
    none, itself. *)
Definition selects (names : list string) (p n : string) : Prop :=
  trimSpace p ≠ "" ∧
  (n ∈ names ∧ glob (trimSpace p) n = Some true ∨
   n = trimSpace p ∧ ∀ m, m ∈ names → glob (trimSpace p) m ≠ Some true).

Lemma match_patterns_spec names ps out out' :
  match_patterns glob names ps out = Ok out' → NoDup out →
  NoDup out' ∧ ∀ n, n ∈ out' ↔ n ∈ out ∨ ∃ p, p ∈ ps ∧ selects names p n.
Proof.
  revert out. induction ps as [|p ps IH]; intros out; cbn [match_patterns]; [intros [= <-]; set_solver|].
  case_bool_decide as Hp.
  { intros Hm Hnd. apply IH in Hm as [H1 H2]; [|done]. split; [done|]. intros n. rewrite H2.
    setoid_rewrite elem_of_cons. unfold selects. naive_solver. }
  destruct (match_names glob (trimSpace p) names false out) as [[matched out1]|] eqn:E; [|done].
  intros Hm Hnd. apply match_names_spec in E as (Hnd1 & Hin1 & Hmatched); [|done].
  apply IH in Hm as [H1 H2].
  - split; [done|]. intros n. rewrite H2. setoid_rewrite elem_of_cons.
    assert (n ∈ (if matched || bool_decide (trimSpace p ∈ out1) then out1 else out1 ++ [trimSpace p]) ↔
      n ∈ out ∨ selects names p n) as ->; [|naive_solver].
    unfold selects. destruct matched.
    + cbn [orb]. rewrite Hin1. destruct Hmatched as [Hex _]. specialize (Hex eq_refl) as [?|(m & ? & ?)]; naive_solver.
    + assert (∀ m, m ∈ names → glob (trimSpace p) m ≠ Some true) as Hnone.
      { intros m Hm' Hg. destruct Hmatched as [_ Hex]. discriminate Hex. right. by exists m. }
      cbn [orb]. case_bool_decide as Hpo; [|rewrite elem_of_app, list_elem_of_singleton];
        rewrite ?Hin1 in *; naive_solver.
  - destruct (matched || _) eqn:Eb; [done|]. bool_to_prop. apply NoDup_app.
    split_and!; [done|set_solver|apply NoDup_singleton].
Qed.

(** The selected aliases are, without repetition, the names any of the patterns
    matches, and every pattern that matches no name itself; and the order in which
    the redirects are listed makes no difference. *)
Theorem match_aliases_selects v sources sources' patterns out :
  MatchAliases glob v sources patterns = Ok out →
  NoDup out ∧
  (∀ n, n ∈ out ↔ ∃ p, p ∈ mjoin (splitComma <$> patterns) ∧
    selects (uniqueStrings (sort_strings ((c_Name <$> v_Connections v) ++ sources))) p n) ∧
  (sources' ≡ₚ sources → MatchAliases glob v sources' patterns = Ok out).
Proof.
  unfold MatchAliases. intros Hm. apply match_patterns_spec in Hm as Hspec; [|apply NoDup_nil_2].
  destruct Hspec as [Hnd Hin]. split_and!; [done| |].
  - intros n. rewrite Hin. unfold selectable. set_solver.
  - intros Hperm. rewrite <- Hm. unfold selectable. by rewrite (sort_strings_perm _ ((c_Name <$> v_Connections v) ++ sources))
      by by rewrite Hperm.
Qed.
End Selection.
