(* ===== verification/ValueStream.v ===== *)
(** * Redaction of known values in a byte stream ([machinecontract/stream.go])

    [KnownValueStream] and the preparation of the sensitive values
    ([prepareSensitiveValues] of [render.go]). The mutex makes each method one step;
    what the output writer answers to each write is an argument. *)

From Stdlib Require Import Strings.Byte.
From S2P Require Import Prelude GoStrings GoErrors.

Definition stars : bytes := bytes_of_string "***".

(** ** The sensitive values *)

(** [sort.SliceStable] by decreasing length, of distinct strings. *)
Fixpoint insert_longest (v : string) (l : list string) : list string :=
  match l with
  | [] => [v]
  | w :: l' => if String.length v <? String.length w then w :: insert_longest v l' else v :: l
  end.
Fixpoint sort_longest (l : list string) : list string :=
  match l with [] => [] | v :: l' => insert_longest v (sort_longest l') end.

Fixpoint distinct_values (seen : list string) (values : list string) : list string :=
  match values with
  | [] => []
  | v :: values' =>
      if bool_decide (v = "") || bool_decide (v ∈ seen) then distinct_values seen values'
      else v :: distinct_values (v :: seen) values'
  end.

Definition prepareSensitiveValues (values : list string) : list string :=
  sort_longest (distinct_values [] values).

(** ** Search *)

(** [bytes.Index]. *)
Fixpoint bytes_index (b value : bytes) : option nat :=
  if bool_decide (value `prefix_of` b) then Some 0
  else match b with [] => None | _ :: b' => S <$> bytes_index b' value end.

(** [for matched > 0 && value[matched] != c { matched = table[matched-1] }]; every
    round makes [matched] smaller. *)
Fixpoint fall (fuel : nat) (value : bytes) (table : list nat) (c : byte) (matched : nat) : nat :=
  match fuel with
  | O => matched
  | S n =>
      if (0 <? matched) && negb (bool_decide (value !! matched = Some c))
      then fall n value table c (table !!! (matched - 1)) else matched
  end.

Definition kmp_step (value : bytes) (table : list nat) (matched : nat) (c : byte) : nat :=
  let m := fall matched value table c matched in
  if bool_decide (value !! m = Some c) then S m else m.

Fixpoint fill_table (value : bytes) (rest : bytes) (matched : nat) (table : list nat) : list nat :=
  match rest with
  | [] => table
  | c :: rest' => let m := kmp_step value table matched c in fill_table value rest' m (table ++ [m])
  end.

Definition prefixFunction (value : bytes) : list nat :=
  match value with [] => [] | _ :: rest => fill_table value rest 0 [0] end.

Fixpoint suffixPrefixLength_from (value : bytes) (table : list nat) (text : bytes) (matched : nat) : nat :=
  match text with
  | [] => matched
  | c :: text' =>
      let m := kmp_step value table matched c in
      suffixPrefixLength_from value table text'
        (if m =? length value then table !!! (m - 1) else m)
  end.
Definition suffixPrefixLength (value : bytes) (table : list nat) (text : bytes) : nat :=
  suffixPrefixLength_from value table text 0.

(** ** The stream *)

Record KnownValueStream := mkValueStream {
  vs_values : list bytes;
  vs_prefix : list (list nat);
  vs_pending : bytes;
  vs_err : option goerror;
}.

Definition NewKnownValueStream (sensitiveValues : list string) : KnownValueStream :=
  let values := bytes_of_string <$> prepareSensitiveValues sensitiveValues in
  mkValueStream values (prefixFunction <$> values) [] None.

Definition better_match (value : bytes) (found : option nat) (best : option (nat * nat)) :
    option (nat * nat) :=
  match found, best with
  | None, _ => best
  | Some i, None => Some (i, length value)
  | Some i, Some (j, n) =>
      if (i <? j) || ((i =? j) && (n <? length value)) then Some (i, length value) else best
  end.

(** The match, relative to the start of the search. *)
Definition nextMatch (values : list bytes) (b : bytes) : option (nat * nat) :=
  fold_left (λ best value, better_match value (bytes_index b value) best) values None.

Definition last_bytes (n : nat) (b : bytes) : bytes := drop (length b - n) b.

Definition withheld_value (b value : bytes) (table : list nat) : nat :=
  suffixPrefixLength value table (last_bytes (length value - 1) b).

Definition withheld (s : KnownValueStream) (b : bytes) : nat :=
  fold_left (λ longest '(value, table), longest `max` withheld_value b value table)
    (zip (vs_values s) (vs_prefix s)) 0.

(** The loop of [release] and what follows it: the bytes to write and those that
    stay pending. A round consumes at least one byte. *)
Fixpoint release_loop (fuel : nat) (s : KnownValueStream) (final : bool) (b : bytes) : bytes * bytes :=
  let cut := if final then length b else length b - withheld s b in
  let stop := (take cut b, drop cut b) in
  match fuel, nextMatch (vs_values s) b with
  | S n, Some (index, len) =>
      if negb final && (cut <=? index) then stop
      else
        let '(scratch, pending) := release_loop n s final (drop (index + len) b) in
        (take index b ++ stars ++ scratch, pending)
  | _, _ => stop
  end.

(** What the output writer answers to the write of some bytes. *)
Definition writer : Type := bytes → option goerror.

Definition set_stream (pending : bytes) (err : option goerror) (s : KnownValueStream) : KnownValueStream :=
  mkValueStream (vs_values s) (vs_prefix s) pending err.

(** The new state, the bytes handed to the output and the error. *)
Definition stream_release (w : writer) (final : bool) (s : KnownValueStream) :
    KnownValueStream * bytes * option goerror :=
  let '(scratch, pending) := release_loop (S (length (vs_pending s))) s final (vs_pending s) in
  match scratch with
  | [] => (set_stream pending (vs_err s) s, [], None)
  | _ => (set_stream pending (w scratch) s, scratch, w scratch)
  end.

Definition stream_Write (w : writer) (s : KnownValueStream) (data : bytes) :
    KnownValueStream * bytes * option goerror :=
  match vs_err s, vs_values s with
  | Some e, _ => (s, [], Some e)
  | None, [] => (set_stream (vs_pending s) (w data) s, data, w data)
  | None, _ => stream_release w false (set_stream (vs_pending s ++ data) None s)
  end.

Definition stream_Flush (w : writer) (s : KnownValueStream) : KnownValueStream * bytes * option goerror :=
  match vs_err s with
  | Some e => (s, [], Some e)
  | None => stream_release w true s
  end.

(** A stream that is written chunk by chunk, each write of its output answered by a
    writer, and flushed at the end. *)
Fixpoint stream_run (s : KnownValueStream) (chunks : list (bytes * writer)) (last : writer) :
    KnownValueStream * bytes * option goerror :=
  match chunks with
  | [] => stream_Flush last s
  | (data, w) :: chunks' =>
      let '(s, out, err) := stream_Write w s data in
      match err with
      | Some e => (s, out, Some e)
      | None => let '(s, out', err) := stream_run s chunks' last in (s, out ++ out', err)
      end
  end.

(** ** The reference

    One pass from the left that replaces, at each position, the longest sensitive
    value that begins there. *)

Definition longest_here (values : list bytes) (b : bytes) : nat :=
  fold_left (λ longest value, if bool_decide (value `prefix_of` b) then longest `max` length value else longest)
    values 0.

Fixpoint scan (values : list bytes) (skip : nat) (b : bytes) : bytes :=
  match b, skip with
  | [], _ => []
  | _ :: b', S n => scan values n b'
  | c :: b', O =>
      match longest_here values b with
      | O => c :: scan values 0 b'
      | S n => stars ++ scan values n b'
      end
  end.
