(* ===== verification/ValueStreamFacts.v ===== *)
(** * The known-value stream hides values and nothing else

    The failure table and the search of [suffixPrefixLength] find the longest
    overlap; [nextMatch] finds the leftmost longest value; a stream written in any
    chunks and flushed writes what one pass over the whole input gives; and no value
    is left in what it writes. *)

From Stdlib Require Import Ascii.
From Stdlib Require Import Strings.Byte.
From S2P Require Import Prelude GoStrings GoErrors ValueStream.

(** ** Overlaps

    [overlaps value text k]: the first [k] bytes of [value] end [text]. *)
Definition overlaps (value text : bytes) (k : nat) : Prop :=
  k ≤ length value ∧ take k value `suffix_of` text.

(** [m] is the longest overlap of at most [bound] bytes. *)
Definition longest_overlap (value text : bytes) (bound m : nat) : Prop :=
  m ≤ bound ∧ overlaps value text m ∧ ∀ k, k ≤ bound → overlaps value text k → k ≤ m.

Definition table_ok (value : bytes) (table : list nat) (n : nat) : Prop :=
  ∀ i, i < n → longest_overlap value (take (S i) value) i (table !!! i).

Lemma suffix_shorter (l1 l2 l : bytes) :
  l1 `suffix_of` l → l2 `suffix_of` l → length l1 ≤ length l2 → l1 `suffix_of` l2.
Proof.
  intros [k1 H1] [k2 H2] Hle. subst l. apply app_eq_app in H2 as (m & [[? ?]|[? ?]]); subst.
  - by exists m.
  - rewrite length_app in Hle. destruct m; simpl in Hle; [by exists []|lia].
Qed.

Lemma prefix_shorter (l1 l2 l : bytes) :
  l1 `prefix_of` l → l2 `prefix_of` l → length l1 ≤ length l2 → l1 `prefix_of` l2.
Proof.
  intros [k1 H1] [k2 H2] Hle. subst l. apply app_eq_app in H2 as (m & [[? ?]|[? ?]]); subst.
  - rewrite length_app in Hle. destruct m; simpl in Hle; [by rewrite app_nil_r|lia].
  - by exists m.
Qed.

Lemma overlaps_chain value text m k :
  overlaps value text m → k ≤ m → overlaps value text k → overlaps value (take m value) k.
Proof.
  intros [Hm Hms] Hk [Hkl Hks]. split; [done|].
  eapply suffix_shorter; [exact Hks|exact Hms|]. rewrite !length_take. lia.
Qed.

Lemma overlaps_trans value text m k :
  overlaps value text m → overlaps value (take m value) k → overlaps value text k.
Proof. intros [? ?] [? ?]. split; [done|]. by etrans. Qed.

Lemma overlaps_zero value text : overlaps value text 0.
Proof. split; [lia|]. apply suffix_nil. Qed.

Lemma overlaps_snoc value text k c :
  overlaps value (text ++ [c]) (S k) ↔ overlaps value text k ∧ value !! k = Some c.
Proof.
  unfold overlaps. split.
  - intros [Hk Hs]. destruct (lookup_lt_is_Some_2 value k) as [d Hd]; [lia|].
    rewrite (take_S_r _ _ _ Hd) in Hs. apply suffix_snoc_inv_1 in Hs as Hd'.
    apply suffix_snoc_inv_2 in Hs. subst d. split; [split; [lia|done]|done].
  - intros [[Hk Hs] Hc]. pose proof (lookup_lt_Some _ _ _ Hc).
    split; [lia|]. rewrite (take_S_r _ _ _ Hc). by apply suffix_app.
Qed.

(** ** The failure function *)

Section kmp.
Context (value : bytes) (table : list nat) (n : nat).
Context (Htable : table_ok value table n).

Lemma fall_longest fuel text c m :
  m ≤ fuel → m ≤ n → overlaps value text m →
  let r := fall fuel value table c m in
  r ≤ m ∧ overlaps value text r ∧ (r = 0 ∨ value !! r = Some c) ∧
  ∀ k, k ≤ m → overlaps value text k → value !! k = Some c → k ≤ r.
Proof.
  revert m. induction fuel as [|fuel IH]; intros m Hf Hn Hm; cbn [fall].
  { split_and!; [lia|done|left; lia|done]. }
  destruct ((0 <? m) && _) eqn:E; bool_to_prop.
  - destruct (Htable (m - 1)) as (Hb & Ho & Hmax); [lia|].
    replace (S (m - 1)) with m in * by lia.
    destruct (IH (table !!! (m - 1))) as (H1 & H2 & H3 & H4);
      [lia..|by eapply overlaps_trans|].
    split_and!; [lia|done..|]. intros k Hk Hko Hkc. apply H4; [|done..].
    destruct (decide (k = m)) as [->|]; [done|].
    apply Hmax; [lia|]. by eapply overlaps_chain.
  - apply andb_false_iff in E as [E|E]; bool_to_prop.
    + split_and!; [lia|done|left; lia|done].
    + split_and!; [lia|done| |done]. by right.
Qed.

Lemma kmp_step_longest text c m bound :
  m ≤ n → longest_overlap value text bound m →
  longest_overlap value (text ++ [c]) (S bound) (kmp_step value table m c).
Proof.
  intros Hn (Hb & Hm & Hmax). unfold kmp_step.
  destruct (fall_longest m text c m) as (H1 & H2 & H3 & H4); [lia..|done|].
  set (r := fall m value table c m) in *. case_bool_decide as Hc.
  - split_and!; [lia|by apply overlaps_snoc|]. intros [|k] Hk Hko; [lia|].
    apply overlaps_snoc in Hko as [Hko Hkc]. specialize (Hmax k ltac:(lia) Hko).
    specialize (H4 k Hmax Hko Hkc). lia.
  - destruct H3 as [H3|H3]; [|done]. split_and!; [lia|rewrite H3; apply overlaps_zero|].
    intros [|k] Hk Hko; [lia|]. apply overlaps_snoc in Hko as [Hko Hkc].
    specialize (H4 k (Hmax k ltac:(lia) Hko) Hko Hkc). exfalso. apply Hc.
    by replace r with k by lia.
Qed.
End kmp.

Lemma overlaps_tail value i k :
  k ≤ i → S i ≤ length value →
  overlaps value (drop 1 (take (S i) value)) k ↔ overlaps value (take (S i) value) k.
Proof.
  intros Hk Hi. unfold overlaps. split; intros [Hl Hs]; split; try done.
  - etrans; [exact Hs|]. apply suffix_drop.
  - eapply suffix_shorter; [exact Hs|apply suffix_drop|].
    rewrite length_drop, !length_take. lia.
Qed.

Lemma longest_overlap_tail value i m :
  S i ≤ length value →
  longest_overlap value (drop 1 (take (S i) value)) i m ↔ longest_overlap value (take (S i) value) i m.
Proof.
  intros Hi. unfold longest_overlap. split; intros (Hm & Ho & Hmax); (split_and!; [done|by apply overlaps_tail|]);
    intros k Hk Hko; apply Hmax; try done; by apply overlaps_tail.
Qed.

Lemma fill_table_ok value rest m table i :
  length table = S i → drop (S i) value = rest → S i ≤ length value →
  table_ok value table (S i) → longest_overlap value (take (S i) value) i m →
  length (fill_table value rest m table) = length value ∧
  table_ok value (fill_table value rest m table) (length value).
Proof.
  revert m table i. induction rest as [|c rest IH]; intros m table i Hlen Hrest Hi Htable Hm; cbn [fill_table].
  { assert (length value = S i) as -> by (apply (f_equal length) in Hrest; rewrite length_drop in Hrest; simpl in *; lia).
    done. }
  assert (value !! S i = Some c) as Hc.
  { rewrite <- (Nat.add_0_r (S i)), <- lookup_drop, Hrest. done. }
  pose proof (lookup_lt_Some _ _ _ Hc) as Hlt.
  assert (longest_overlap value (take (S (S i)) value) (S i) (kmp_step value table m c)) as Hstep.
  { apply longest_overlap_tail; [lia|].
    replace (drop 1 (take (S (S i)) value)) with (drop 1 (take (S i) value) ++ [c]).
    - eapply kmp_step_longest; [exact Htable|destruct Hm; lia|]. by apply longest_overlap_tail.
    - rewrite (take_S_r _ _ _ Hc), drop_app_le; [done|]. rewrite length_take. lia. }
  eapply (IH _ _ (S i)); [rewrite length_app; simpl; lia| |lia| |done].
  - rewrite <- (Nat.add_1_r (S i)), <- drop_drop, Hrest. done.
  - intros j Hj. destruct (decide (j = S i)) as [->|].
    + by rewrite lookup_total_app_r, Hlen, Nat.sub_diag by lia.
    + rewrite lookup_total_app_l by lia. apply Htable. lia.
Qed.

Lemma prefixFunction_ok value : table_ok value (prefixFunction value) (length value).
Proof.
  destruct value as [|b rest]; [by intros i Hi%Nat.nlt_0_r|].
  refine (proj2 (fill_table_ok (b :: rest) rest 0 [0] 0 _ _ _ _ _)); simpl; [done|done|lia| |].
  - intros [|i] Hi; [|lia]. simpl. split_and!; [lia|apply overlaps_zero|by intros; lia].
  - split_and!; [lia|apply overlaps_zero|by intros; lia].
Qed.

(** [suffixPrefixLength] finds the longest proper prefix of the value at the end of
    the text. *)
Lemma suffixPrefixLength_from_longest value text before m :
  value ≠ [] → longest_overlap value before (length value - 1) m →
  longest_overlap value (before ++ text) (length value - 1)
    (suffixPrefixLength_from value (prefixFunction value) text m).
Proof.
  intros Hne. assert (0 < length value) as Hpos by (destruct value; simpl; [done|lia]).
  revert before m. induction text as [|c text IH]; intros before m Hm; cbn [suffixPrefixLength_from].
  { by rewrite app_nil_r. }
  rewrite (cons_middle c before text), (assoc_L (++)). apply IH.
  pose proof (prefixFunction_ok value) as Htable.
  pose proof (kmp_step_longest value _ _ Htable before c m (length value - 1)
    ltac:(destruct Hm; lia) Hm) as (Hb & Ho & Hmax).
  set (r := kmp_step value (prefixFunction value) m c) in *.
  destruct (r =? length value) eqn:E.
  - apply Nat.eqb_eq in E. destruct (Htable (length value - 1)) as (Hb' & Ho' & Hmax'); [lia|].
    rewrite E in *. replace (S (length value - 1)) with (length value) in * by lia.
    split_and!; [done|by eapply overlaps_trans|].
    intros k Hk Hko. apply Hmax'; [done|]. eapply overlaps_chain; [exact Ho|lia|done].
  - apply Nat.eqb_neq in E. split_and!; [lia|done|]. intros k Hk. apply Hmax. lia.
Qed.

Lemma suffixPrefixLength_longest value text :
  value ≠ [] →
  longest_overlap value text (length value - 1) (suffixPrefixLength value (prefixFunction value) text).
Proof.
  intros Hne. apply (suffixPrefixLength_from_longest value text []); [done|].
  split_and!; [lia|apply overlaps_zero|]. intros k Hk [Hl Hs].
  apply suffix_nil_inv in Hs. apply (f_equal length) in Hs. rewrite length_take in Hs. simpl in Hs. lia.
Qed.

(** ** Searching *)

Lemma bytes_index_spec b value :
  match bytes_index b value with
  | Some i => value `prefix_of` drop i b ∧ ∀ j, j < i → ¬ value `prefix_of` drop j b
  | None => ∀ j, ¬ value `prefix_of` drop j b
  end.
Proof.
  induction b as [|c b IH]; cbn [bytes_index].
  - case_bool_decide; [split; [done|lia]|]. intros j. by rewrite drop_nil.
  - case_bool_decide as Hp; [split; [done|lia]|].
    destruct (bytes_index b value) as [i|]; cbn [fmap option_fmap option_map].
    + destruct IH as [H1 H2]. split; [done|]. intros [|j] Hj; [done|]. apply H2. lia.
    + intros [|j]; [done|apply IH].
Qed.

Definition best_match (values : list bytes) (b : bytes) (best : option (nat * nat)) : Prop :=
  match best with
  | None => ∀ value j, value ∈ values → ¬ value `prefix_of` drop j b
  | Some (i, n) =>
      (∃ value, value ∈ values ∧ length value = n ∧ value `prefix_of` drop i b) ∧
      ∀ value j, value ∈ values → value `prefix_of` drop j b → i ≤ j ∧ (i = j → length value ≤ n)
  end.

Lemma better_match_spec values b value best :
  best_match values b best → best_match (values ++ [value]) b (better_match value (bytes_index b value) best).
Proof.
  intros Hbest. pose proof (bytes_index_spec b value) as Hi. unfold better_match, best_match in *.
  destruct (bytes_index b value) as [i|], best as [[i' n]|].
  - destruct Hi as [Hp Hfirst], Hbest as [(v & Hv & Hvn & Hvp) Hall].
    destruct ((i <? i') || ((i =? i') && (n <? length value))) eqn:E.
    + split; [exists value; set_solver|]. intros w j Hw Hwp. apply elem_of_app in Hw as [Hw|Hw].
      * destruct (Hall w j Hw Hwp) as [Hij Hlen].
        rewrite orb_true_iff, andb_true_iff, Nat.eqb_eq, !Nat.ltb_lt in E. lia.
      * apply list_elem_of_singleton in Hw as ->. split; [|done].
        destruct (decide (i ≤ j)); [done|]. exfalso. apply (Hfirst j); [lia|done].
    + rewrite orb_false_iff, andb_false_iff, Nat.eqb_neq, !Nat.ltb_ge in E.
      split; [exists v; set_solver|]. intros w j Hw Hwp. apply elem_of_app in Hw as [Hw|Hw].
      * by apply Hall.
      * apply list_elem_of_singleton in Hw as ->.
        assert (i ≤ j) by (destruct (decide (i ≤ j)); [done|]; exfalso; apply (Hfirst j); [lia|done]).
        lia.
  - destruct Hi as [Hp Hfirst]. split; [exists value; set_solver|].
    intros w j Hw Hwp. apply elem_of_app in Hw as [Hw|Hw]; [by destruct (Hbest w j Hw)|].
    apply list_elem_of_singleton in Hw as ->. split; [|done].
    destruct (decide (i ≤ j)); [done|]. exfalso. apply (Hfirst j); [lia|done].
  - destruct Hbest as [(v & ? & ? & ?) Hall]. split; [exists v; set_solver|].
    intros w j [Hw|Hw%list_elem_of_singleton]%elem_of_app Hwp; [by apply Hall|]. subst. by destruct (Hi j).
  - intros w j [Hw|Hw%list_elem_of_singleton]%elem_of_app; [by apply Hbest|]. subst. apply Hi.
Qed.

Lemma nextMatch_spec values b : best_match values b (nextMatch values b).
Proof.
  unfold nextMatch. enough (∀ before best, best_match before b best →
    best_match (before ++ values) b
      (fold_left (λ best value, better_match value (bytes_index b value) best) values best)) as H.
  { apply (H []). intros ? ? Hn. by apply not_elem_of_nil in Hn. }
  induction values as [|value values IH]; intros before best Hbest; simpl; [by rewrite app_nil_r|].
  rewrite cons_middle, (assoc_L (++)). apply IH. by apply better_match_spec.
Qed.

Lemma longest_here_spec values b :
  (∀ value, value ∈ values → value `prefix_of` b → length value ≤ longest_here values b) ∧
  (longest_here values b = 0 ∨
   ∃ value, value ∈ values ∧ value `prefix_of` b ∧ length value = longest_here values b).
Proof.
  unfold longest_here. enough (∀ before m,
    (∀ value, value ∈ before → value `prefix_of` b → length value ≤ m) ∧
    (m = 0 ∨ ∃ value, value ∈ before ∧ value `prefix_of` b ∧ length value = m) →
    let r := fold_left (λ longest value,
      if bool_decide (value `prefix_of` b) then longest `max` length value else longest) values m in
    (∀ value, value ∈ before ++ values → value `prefix_of` b → length value ≤ r) ∧
    (r = 0 ∨ ∃ value, value ∈ before ++ values ∧ value `prefix_of` b ∧ length value = r)) as H.
  { apply (H [] 0). split; [|by left]. intros ? Hn. by apply not_elem_of_nil in Hn. }
  induction values as [|value values IH]; intros before m [Hall Hex]; simpl; [by rewrite app_nil_r|].
  rewrite cons_middle, (assoc_L (++)). apply IH. split.
  - intros w [Hw|Hw%list_elem_of_singleton]%elem_of_app Hp.
    + specialize (Hall w Hw Hp). case_bool_decide; lia.
    + subst w. rewrite bool_decide_eq_true_2 by done. lia.
  - case_bool_decide as Hp; [|set_solver].
    destruct (decide (length value ≤ m)).
    + rewrite Nat.max_l by done. set_solver.
    + rewrite Nat.max_r by lia. right. exists value. set_solver.
Qed.

Lemma longest_here_zero values b :
  (∀ value, value ∈ values → ¬ value `prefix_of` b) → longest_here values b = 0.
Proof. intros H. destruct (longest_here_spec values b) as [_ [?|(v & Hv & Hp & _)]]; [done|]. by destruct (H v). Qed.

(** ** What stays withheld *)

(** The state every stream keeps. *)
Definition stream_ok (s : KnownValueStream) : Prop :=
  vs_prefix s = prefixFunction <$> vs_values s ∧ [] ∉ vs_values s.

(** [b] may still begin a sensitive value. *)
Definition may_begin (values : list bytes) (b : bytes) : Prop :=
  ∃ value, value ∈ values ∧ b `prefix_of` value ∧ length b < length value.

Lemma overlaps_last value b k :
  k ≤ length value - 1 → overlaps value (last_bytes (length value - 1) b) k ↔ overlaps value b k.
Proof.
  intros Hk. unfold overlaps, last_bytes. split; intros [Hl Hs]; split; try done.
  - etrans; [exact Hs|]. apply suffix_drop.
  - eapply suffix_shorter; [exact Hs|apply suffix_drop|].
    apply suffix_length in Hs. rewrite length_take in Hs. rewrite length_drop, length_take. lia.
Qed.

Lemma withheld_value_longest value b :
  value ≠ [] → longest_overlap value b (length value - 1) (withheld_value b value (prefixFunction value)).
Proof.
  intros Hne. destruct (suffixPrefixLength_longest value (last_bytes (length value - 1) b) Hne)
    as (Hb & Ho & Hmax).
  split_and!; [done|by apply overlaps_last|]. intros k Hk Hko. apply Hmax; [done|]. by apply overlaps_last.
Qed.

Lemma overlaps_drop value b k :
  overlaps value b k ↔ k ≤ length value ∧ k ≤ length b ∧ drop (length b - k) b `prefix_of` value.
Proof.
  unfold overlaps. split.
  - intros [Hl Hs]. apply suffix_length in Hs as Hlen. rewrite length_take in Hlen.
    split_and!; [done|lia|]. destruct Hs as [b' ->].
    rewrite length_app, length_take, drop_app_le, drop_ge, app_nil_l by lia.
    apply prefix_take.
  - intros (Hl & Hb & [v' Hv]). split; [done|].
    rewrite Hv, take_app_le by (rewrite length_drop; lia).
    rewrite take_ge by (rewrite length_drop; lia). apply suffix_drop.
Qed.

Lemma withheld_spec s b :
  stream_ok s →
  withheld s b ≤ length b ∧
  (withheld s b = 0 ∨ may_begin (vs_values s) (drop (length b - withheld s b) b)) ∧
  ∀ k, k ≤ length b → may_begin (vs_values s) (drop (length b - k) b) → k ≤ withheld s b.
Proof.
  intros [Hprefix Hne]. unfold withheld. rewrite Hprefix. clear Hprefix.
  set (step := λ longest '(value, table), longest `max` withheld_value b value table).
  enough (∀ before m,
    (m ≤ length b ∧ (m = 0 ∨ may_begin before (drop (length b - m) b)) ∧
     ∀ k, k ≤ length b → may_begin before (drop (length b - k) b) → k ≤ m) →
    let r := fold_left step (zip (vs_values s) (prefixFunction <$> vs_values s)) m in
    r ≤ length b ∧ (r = 0 ∨ may_begin (before ++ vs_values s) (drop (length b - r) b)) ∧
    ∀ k, k ≤ length b → may_begin (before ++ vs_values s) (drop (length b - k) b) → k ≤ r) as H.
  { apply (H [] 0). split_and!; [lia|by left|]. intros k _ (v & Hv & _). by apply not_elem_of_nil in Hv. }
  induction (vs_values s) as [|value values IH]; intros before m (Hm & Hex & Hall); cbn [zip_with fmap list_fmap fold_left].
  { by rewrite app_nil_r. }
  rewrite cons_middle, (assoc_L (++)).
  assert (value ≠ []) as Hv by (intros ->; set_solver).
  assert (0 < length value) as Hpos by (destruct value; simpl; [done|lia]).
  destruct (withheld_value_longest value b Hv) as (Hw & Ho & Hmax). apply overlaps_drop in Ho as (_ & Hwb & Hp).
  apply IH; [set_solver|]. set (w := withheld_value b value (prefixFunction value)) in *. subst step; simpl.
  split_and!; [lia| |].
  - destruct (decide (w ≤ m)).
    + rewrite Nat.max_l by done. destruct Hex as [|(v & ? & ?)]; [by left|]. right. exists v. set_solver.
    + rewrite Nat.max_r by lia. right. exists value. rewrite length_drop. split_and!; [set_solver|done|lia].
  - intros k Hk (v & [Hin|Hin%list_elem_of_singleton]%elem_of_app & Hvp & Hlen).
    + enough (k ≤ m) by lia. apply Hall; [done|]. by exists v.
    + subst v. rewrite length_drop in Hlen. enough (k ≤ w) by lia. apply Hmax; [lia|].
      apply overlaps_drop. split_and!; [lia|lia|done].
Qed.

(** Before the withheld bytes, what follows does not change which value begins. *)
Lemma longest_here_stable s b j future :
  stream_ok s → j < length b - withheld s b →
  longest_here (vs_values s) (drop j b ++ future) = longest_here (vs_values s) (drop j b).
Proof.
  intros Hok Hj. destruct (withheld_spec s b Hok) as (_ & _ & Hmax).
  unfold longest_here. generalize 0 at 1 2.
  assert (∀ value, value ∈ vs_values s → value `prefix_of` drop j b ++ future ↔ value `prefix_of` drop j b) as Hsame.
  { intros value Hv. split; [|by intros; apply prefix_app_r]. intros Hp.
    destruct (decide (length value ≤ length (drop j b))) as [Hle|Hgt].
    - eapply prefix_shorter; [exact Hp|by apply prefix_app_r|done].
    - exfalso. rewrite length_drop in Hgt. enough (length b - j ≤ withheld s b) by lia.
      apply Hmax; [lia|]. replace (length b - (length b - j)) with j by lia.
      exists value. rewrite length_drop. split_and!; [done| |lia].
      eapply prefix_shorter; [by apply prefix_app_r|exact Hp|]. rewrite length_drop. lia. }
  clear Hmax. revert Hsame. induction (vs_values s) as [|value values IH]; intros Hsame m; simpl; [done|].
  rewrite (bool_decide_ext (value `prefix_of` drop j b ++ future) (value `prefix_of` drop j b))
    by (apply Hsame; set_solver).
  apply IH. intros. apply Hsame. set_solver.
Qed.

(** ** The release loop is the reference scan *)

Lemma scan_skip values n b : scan values n b = scan values 0 (drop n b).
Proof. revert b. induction n as [|n IH]; intros [|c b]; try done. apply IH. Qed.

Lemma scan_until values b i :
  i ≤ length b → (∀ j, j < i → longest_here values (drop j b) = 0) →
  scan values 0 b = take i b ++ scan values 0 (drop i b).
Proof.
  revert b. induction i as [|i IH]; intros b Hi Hnone; [done|]. destruct b as [|c b]; [simpl in Hi; lia|].
  cbn [scan take drop app]. pose proof (Hnone 0 ltac:(lia)) as H0. cbn [drop] in H0. rewrite H0. f_equal.
  apply IH; [simpl in Hi; lia|]. intros j Hj. apply (Hnone (S j)). lia.
Qed.

Lemma scan_match values b n :
  longest_here values b = S n → scan values 0 b = stars ++ scan values 0 (drop (S n) b).
Proof.
  intros Hb. destruct b as [|c b].
  - destruct (longest_here_spec values []) as [_ [H|(v & _ & Hp & Hl)]]; [congruence|].
    apply prefix_nil_inv in Hp. subst v. simpl in Hl. congruence.
  - cbn [scan]. rewrite Hb, scan_skip. done.
Qed.

Lemma best_match_first values b i n :
  best_match values b (Some (i, n)) → [] ∉ values →
  0 < n ∧ i + n ≤ length b ∧ longest_here values (drop i b) = n ∧
  ∀ j, j < i → longest_here values (drop j b) = 0.
Proof.
  intros [(v & Hv & Hn & Hp) Hall] Hne.
  assert (0 < n) as Hpos by (destruct v; [done|simpl in Hn; lia]).
  pose proof (prefix_length _ _ Hp) as Hlen. rewrite length_drop in Hlen.
  split_and!; [done|lia| |].
  - destruct (longest_here_spec values (drop i b)) as [Hmax Hex]. pose proof (Hmax v Hv Hp) as Hle.
    destruct Hex as [|(w & Hw & Hwp & Hwl)]; [lia|]. destruct (Hall w i Hw Hwp) as [_ H]. specialize (H eq_refl). lia.
  - intros j Hj. apply longest_here_zero. intros w Hw Hwp. destruct (Hall w j Hw Hwp). lia.
Qed.

Lemma best_match_none values b j : best_match values b None → longest_here values (drop j b) = 0.
Proof. intros H. apply longest_here_zero. intros v Hv. by apply H. Qed.

Lemma release_loop_scan fuel s final b out pending future :
  stream_ok s → length b < fuel → (final = true → future = []) →
  release_loop fuel s final b = (out, pending) →
  scan (vs_values s) 0 (b ++ future) = out ++ scan (vs_values s) 0 (pending ++ future) ∧
  (final = true → pending = []) ∧
  (pending = [] ∨ may_begin (vs_values s) pending).
Proof.
  intros Hok. revert b out pending. induction fuel as [|fuel IH]; intros b out pending Hf Hfuture; [lia|].
  cbn [release_loop]. set (cut := if final then length b else length b - withheld s b).
  destruct (withheld_spec s b Hok) as (Hw & Hmay & _).
  assert (cut ≤ length b) as Hcut by (subst cut; destruct final; lia).
  assert (∀ j, j < cut → longest_here (vs_values s) (drop j (b ++ future)) = longest_here (vs_values s) (drop j b)) as Hsame.
  { intros j Hj. rewrite drop_app_le by lia. subst cut. destruct final.
    - by rewrite (Hfuture eq_refl), app_nil_r.
    - by apply longest_here_stable. }
  assert ((∀ j, j < cut → longest_here (vs_values s) (drop j b) = 0) →
    (take cut b, drop cut b) = (out, pending) →
    scan (vs_values s) 0 (b ++ future) = out ++ scan (vs_values s) 0 (pending ++ future) ∧
    (final = true → pending = []) ∧ (pending = [] ∨ may_begin (vs_values s) pending)) as Hstop.
  { intros Hnone ?. simplify_eq. split_and!.
    - rewrite (scan_until _ _ cut); [|rewrite length_app; lia|intros j Hj; rewrite Hsame; auto].
      by rewrite take_app_le, drop_app_le by lia.
    - intros ->. apply drop_ge. done.
    - subst cut. destruct final; [left; by apply drop_ge|]. destruct Hmay as [->|?]; [left; apply drop_ge; lia|by right]. }
  pose proof (nextMatch_spec (vs_values s) b) as Hbest.
  destruct (nextMatch (vs_values s) b) as [[i n]|]; [|apply Hstop; intros; by apply best_match_none].
  destruct (best_match_first _ _ _ _ Hbest (proj2 Hok)) as (Hpos & Hin & Hhere & Hbefore).
  destruct (negb final && (cut <=? i)) eqn:E.
  { bool_to_prop. apply Hstop. intros j Hj. apply Hbefore. lia. }
  assert (i < cut) as Hi.
  { apply andb_false_iff in E as [E|E]; bool_to_prop; [|done]. subst cut. rewrite E. lia. }
  destruct (release_loop fuel s final (drop (i + n) b)) as [scratch pending'] eqn:Eloop. intros [= <- <-].
  apply IH in Eloop as (Hscan & Hfinal & Hpend); [|rewrite length_drop; lia|done]. split_and!; [|done..].
  rewrite (scan_until _ _ i); [|rewrite length_app; lia|intros j Hj; rewrite Hsame by lia; auto].
  rewrite take_app_le by lia. destruct n as [|n]; [lia|].
  rewrite (scan_match _ _ n) by (rewrite Hsame by lia; done).
  rewrite drop_drop, drop_app_le, Hscan by lia. by rewrite <- !(assoc_L (++)).
Qed.

(** ** Whole streams *)

Lemma insert_longest_perm v l : insert_longest v l ≡ₚ v :: l.
Proof.
  induction l as [|w l IH]; simpl; [done|]. case_match; [|done]. rewrite IH. apply Permutation_swap.
Qed.

Lemma sort_longest_perm l : sort_longest l ≡ₚ l.
Proof. induction l as [|v l IH]; simpl; [done|]. by rewrite insert_longest_perm, IH. Qed.

Lemma elem_of_distinct_values v seen values :
  v ∈ distinct_values seen values ↔ v ≠ "" ∧ v ∈ values ∧ v ∉ seen.
Proof.
  revert seen. induction values as [|w values IH]; intros seen; simpl; [set_solver|].
  destruct (bool_decide (w = "") || bool_decide (w ∈ seen)) eqn:E.
  - rewrite orb_true_iff, !bool_decide_eq_true in E. rewrite IH. set_solver.
  - bool_to_prop. rewrite elem_of_cons, IH, !elem_of_cons.
    destruct (decide (v = w)) as [->|]; set_solver.
Qed.

Lemma elem_of_prepareSensitiveValues v values :
  v ∈ prepareSensitiveValues values ↔ v ≠ "" ∧ v ∈ values.
Proof. unfold prepareSensitiveValues. rewrite sort_longest_perm, elem_of_distinct_values. set_solver. Qed.

Lemma stream_ok_new values : stream_ok (NewKnownValueStream values).
Proof.
  split; [done|]. simpl. intros (v & Hv & Hin)%list_elem_of_fmap.
  apply elem_of_prepareSensitiveValues in Hin as [Hne _]. apply Hne.
  by rewrite <- (string_of_bytes_of_string v), <- Hv.
Qed.

Lemma scan_none b : scan [] 0 b = b.
Proof. induction b as [|c b IH]; [done|]. cbn [scan longest_here fold_left]. by rewrite IH. Qed.

(** What one release does to a healthy stream. *)
Lemma stream_release_spec w final s future :
  stream_ok s → vs_err s = None → (final = true → future = []) →
  let '(s', out, err) := stream_release w final s in
  stream_ok s' ∧ vs_values s' = vs_values s ∧ vs_err s' = err ∧
  scan (vs_values s) 0 (vs_pending s ++ future) = out ++ scan (vs_values s) 0 (vs_pending s' ++ future) ∧
  (final = true → vs_pending s' = []) ∧
  (vs_pending s' = [] ∨ may_begin (vs_values s) (vs_pending s')).
Proof.
  intros Hok Herr Hfuture. unfold stream_release.
  destruct (release_loop _ s final (vs_pending s)) as [scratch pending] eqn:E.
  destruct (release_loop_scan _ _ _ _ _ _ future Hok (Nat.lt_succ_diag_r _) Hfuture E) as (H1 & H2 & H3).
  by destruct scratch as [|c scratch].
Qed.

Lemma stream_Write_spec w s data future :
  stream_ok s → vs_err s = None → (vs_values s = [] → vs_pending s = []) →
  let '(s', out, err) := stream_Write w s data in
  stream_ok s' ∧ vs_values s' = vs_values s ∧ vs_err s' = err ∧ (vs_values s' = [] → vs_pending s' = []) ∧
  scan (vs_values s) 0 (vs_pending s ++ data ++ future) =
    out ++ scan (vs_values s) 0 (vs_pending s' ++ future) ∧
  (vs_pending s' = [] ∨ may_begin (vs_values s) (vs_pending s')).
Proof.
  intros Hok Herr Hnil. unfold stream_Write. rewrite Herr.
  destruct (vs_values s) as [|v values] eqn:Ev.
  - rewrite (Hnil eq_refl). cbn. rewrite !scan_none. by split_and!; auto.
  - rewrite <- Ev. set (s1 := set_stream (vs_pending s ++ data) None s).
    pose proof (stream_release_spec w false s1 future Hok eq_refl ltac:(done)) as H.
    destruct (stream_release w false s1) as [[s' out] err]. destruct H as (? & Hv & ? & Hscan & _ & ?).
    change (vs_values s1) with (vs_values s) in *. change (vs_pending s1) with (vs_pending s ++ data) in Hscan.
    rewrite <- (assoc_L (++)) in Hscan. rewrite Hv. split_and!; try done. by rewrite Ev.
Qed.

Lemma stream_run_spec s chunks last :
  stream_ok s → vs_err s = None → (vs_values s = [] → vs_pending s = []) →
  let '(_, out, err) := stream_run s chunks last in
  let whole := scan (vs_values s) 0 (vs_pending s ++ mjoin chunks.*1) in
  out `prefix_of` whole ∧ (err = None → out = whole).
Proof.
  revert s. induction chunks as [|[data w] chunks IH]; intros s Hok Herr Hnil; cbn [stream_run].
  - unfold stream_Flush. rewrite Herr.
    pose proof (stream_release_spec last true s [] Hok Herr ltac:(done)) as H.
    destruct (stream_release last true s) as [[s' out] err]. destruct H as (_ & _ & _ & Hscan & Hend & _).
    cbn [fmap list_fmap mjoin list_join]. rewrite Hscan, (Hend eq_refl). cbn. by rewrite app_nil_r.
  - pose proof (stream_Write_spec w s data (mjoin chunks.*1) Hok Herr Hnil) as H.
    destruct (stream_Write w s data) as [[s' out] err].
    destruct H as (Hok' & Hv & Herr' & Hnil' & Hscan & _).
    cbn [fmap list_fmap fst]. change (mjoin (data :: chunks.*1)) with (data ++ mjoin chunks.*1).
    rewrite Hscan. destruct err as [e|].
    + split; [by apply prefix_app_r|done].
    + specialize (IH s' Hok' Herr' Hnil'). destruct (stream_run s' chunks last) as [[s'' out'] err'].
      rewrite Hv in IH. destruct IH as [Hp He]. split; [by apply prefix_app|].
      intros ?. by rewrite He.
Qed.

(** ** Nothing leaks *)

Definition star : byte := x2a.

Lemma elem_of_bytes_of_string c value :
  byte_of_ascii c ∈ bytes_of_string value → contains_char c value = true.
Proof.
  unfold bytes_of_string, String.list_byte_of_string. rewrite list_elem_of_In, in_map_iff.
  intros (d & Hd & Hin). apply (f_equal ascii_of_byte) in Hd. rewrite !ascii_of_byte_of_ascii in Hd. subst d.
  induction value as [|d value IH]; simpl in *; [done|]. destruct Hin as [->|Hin]; [by rewrite Ascii.eqb_refl|].
  rewrite IH by done. apply orb_true_r.
Qed.

Lemma scan_prefix_free values w b :
  star ∉ w → w `prefix_of` scan values 0 b → w `prefix_of` b.
Proof.
  revert w. induction b as [|c b IH]; intros w Hstar Hp; [done|]. cbn [scan] in Hp.
  destruct w as [|d w]; [apply prefix_nil|].
  destruct (longest_here values (c :: b)).
  - apply prefix_cons_inv_1 in Hp as Hdc. apply prefix_cons_inv_2 in Hp. subst d.
    apply prefix_cons, IH; [set_solver|done].
  - apply prefix_cons_inv_1 in Hp as Hd. subst d. exfalso. apply Hstar. left.
Qed.

Lemma scan_hides values value b i :
  value ∈ values → value ≠ [] → star ∉ value → ¬ value `prefix_of` drop i (scan values 0 b).
Proof.
  intros Hv Hne Hstar. remember (length b) as len eqn:Hlen.
  revert b i Hlen. induction len as [len IH] using lt_wf_ind. intros b i -> Hp.
  assert (∀ c rest, value `prefix_of` c :: rest → c ≠ star) as Hhead.
  { intros c rest Hc ->. destruct value as [|d value]; [done|].
    apply prefix_cons_inv_1 in Hc as Hd. apply Hstar. rewrite Hd. left. }
  destruct b as [|c b].
  { cbn [scan] in Hp. rewrite drop_nil in Hp. by apply prefix_nil_inv in Hp. }
  destruct (longest_here values (c :: b)) as [|n] eqn:E.
  - destruct i as [|i].
    + cbn [drop] in Hp. apply scan_prefix_free in Hp; [|done].
      destruct (longest_here_spec values (c :: b)) as [Hmax _]. specialize (Hmax value Hv Hp).
      destruct value; [done|simpl in *; lia].
    + cbn [scan] in Hp. rewrite E in Hp. cbn [drop] in Hp. eapply IH; [|reflexivity|exact Hp]. simpl. lia.
  - rewrite (scan_match _ _ _ E) in Hp.
    destruct i as [|[|[|i]]]; [by eapply Hhead; [exact Hp|]..|].
    change (drop (S (S (S i))) (stars ++ ?l)) with (drop i l) in Hp.
    eapply IH; [|reflexivity|exact Hp]. rewrite length_drop. simpl. lia.
Qed.

(** C25: However the input is split into writes, and whenever the output fails, a stream
    writes what a single pass over the whole input would: every sensitive value, from
    the left and the longest first, replaced by three stars, and every other byte as
    it came. Without a failure it writes all of it. *)
Theorem stream_is_one_pass sensitiveValues chunks last :
  let s := NewKnownValueStream sensitiveValues in
  let '(_, out, err) := stream_run s chunks last in
  let whole := scan (bytes_of_string <$> prepareSensitiveValues sensitiveValues) 0 (mjoin chunks.*1) in
  out `prefix_of` whole ∧ (err = None → out = whole).
Proof.
  intros s. pose proof (stream_run_spec s chunks last (stream_ok_new _) eq_refl (λ _, eq_refl)) as H.
  by destruct (stream_run s chunks last) as [[s' out] err].
Qed.

(** C33: No sensitive value that holds no star appears in what a stream writes, whatever
    the input, the chunks and the failures of the output. *)
Theorem stream_hides_values sensitiveValues chunks last value :
  value ∈ sensitiveValues → value ≠ "" → contains_char "*" value = false →
  let '(_, out, _) := stream_run (NewKnownValueStream sensitiveValues) chunks last in
  ∀ before after, out ≠ before ++ bytes_of_string value ++ after.
Proof.
  intros Hin Hne Hstar.
  pose proof (stream_run_spec (NewKnownValueStream sensitiveValues) chunks last (stream_ok_new _)
    eq_refl (λ _, eq_refl)) as H.
  destruct (stream_run _ chunks last) as [[s' out] err]. destruct H as [[rest Hp] _].
  intros before after ->. 
  eapply (scan_hides (vs_values (NewKnownValueStream sensitiveValues)) (bytes_of_string value) _ (length before)).
  - apply list_elem_of_fmap. exists value. split; [done|]. by apply elem_of_prepareSensitiveValues.
  - intros E. apply Hne. by rewrite <- (string_of_bytes_of_string value), E.
  - intros Hx. apply (elem_of_bytes_of_string "*") in Hx. congruence.
  - rewrite Hp, <- !(assoc_L (++)), drop_app_length. by exists (after ++ rest).
Qed.

(** A stream on these values whose output never failed. *)
Definition stream_live (values : list bytes) (s : KnownValueStream) : Prop :=
  stream_ok s ∧ vs_err s = None ∧ (vs_values s = [] → vs_pending s = []) ∧ vs_values s = values.

Definition write_all (s : KnownValueStream) (chunks : list bytes) : KnownValueStream :=
  fold_left (λ s data, (stream_Write (λ _, None) s data).1.1) chunks s.

Lemma stream_release_err final s : vs_err s = None → (stream_release (λ _, None) final s).2 = None.
Proof. intros Herr. unfold stream_release. by destruct (release_loop _ _ _ _) as [[|]]. Qed.

Lemma write_all_live values s chunks : stream_live values s → stream_live values (write_all s chunks).
Proof.
  revert s. induction chunks as [|data chunks IH]; intros s Hs; [done|]. apply IH.
  destruct Hs as (Hok & Herr & Hnil & Hv).
  pose proof (stream_Write_spec (λ _, None) s data [] Hok Herr Hnil) as H.
  assert ((stream_Write (λ _, None) s data).2 = None) as Hnone.
  { unfold stream_Write. rewrite Herr. destruct (vs_values s); [done|]. by apply stream_release_err. }
  destruct (stream_Write _ s data) as [[s' out] err]. simpl in *. destruct H as (? & ? & ? & ? & _).
  unfold stream_live. by split_and!; congruence || done.
Qed.

(** Nothing is held back without need: after a write that succeeds, the bytes the
    stream keeps may still begin a sensitive value, and there are fewer of them than
    the value has. *)
Theorem stream_withholds_only_fragments sensitiveValues chunks w data :
  let '(s', _, _) := stream_Write w (write_all (NewKnownValueStream sensitiveValues) chunks) data in
  vs_pending s' = [] ∨ may_begin (bytes_of_string <$> prepareSensitiveValues sensitiveValues) (vs_pending s').
Proof.
  destruct (write_all_live (bytes_of_string <$> prepareSensitiveValues sensitiveValues)
    (NewKnownValueStream sensitiveValues) chunks) as (Hok & Herr & Hnil & Hv).
  { by split_and!; [apply stream_ok_new|..]. }
  pose proof (stream_Write_spec w _ data [] Hok Herr Hnil) as H.
  destruct (stream_Write w _ data) as [[s' out] err]. destruct H as (_ & _ & _ & _ & _ & Hp). by rewrite <- Hv.
Qed.
