(* ===== verification/GoRegexp.v ===== *)
(** * Go regular expressions

    The part of Go's [regexp] the redaction patterns use: classes, concatenation,
    ordered alternatives, greedy and lazy repetition, ASCII word boundaries and one
    capturing group, with leftmost-first matching. Texts are byte strings; the
    patterns only end a negated class at an ASCII byte or at the end of the text,
    where bytes and runes agree. *)

From Stdlib Require Import Ascii.
From S2P Require Import Prelude GoStrings.

Inductive re :=
  | Class_ (P : ascii → bool)
  | Empty
  | Cat (r1 r2 : re)
  | Alt (r1 r2 : re)
  | Star (r : re)
  | LazyStar (r : re)
  | WordBoundary
  (** [(?m)^] *)
  | LineStart
  | Group (r : re).

(** ** Building patterns *)

Definition Plus (r : re) : re := Cat r (Star r).
Definition Opt (r : re) : re := Alt r Empty.
Definition Char (c : ascii) : re := Class_ (Ascii.eqb c).
Definition AnyOf (chars : string) : re := Class_ (λ c, contains_char c chars).
Definition NoneOf (chars : string) : re := Class_ (λ c, negb (contains_char c chars)).
Definition Any : re := Class_ (λ _, true).
Fixpoint Lit (s : string) : re :=
  match s with EmptyString => Empty | String c s' => Cat (Char c) (Lit s') end.

(** [(?i)]: a letter also stands for its other case, and for the runes that fold to
    it: the long s (U+017F) and the Kelvin sign (U+212A). *)
Definition folded (c : ascii) : re :=
  let both := Class_ (λ d, Ascii.eqb (lower_char d) (lower_char c)) in
  if Ascii.eqb (lower_char c) "s" then Alt both (Lit (string_of_codes [197; 191]%N))
  else if Ascii.eqb (lower_char c) "k" then Alt both (Lit (string_of_codes [226; 132; 170]%N))
  else both.
Fixpoint LitFold (s : string) : re :=
  match s with EmptyString => Empty | String c s' => Cat (folded c) (LitFold s') end.
(** At least one word. *)
Fixpoint Words (w : string) (ws : list string) : re :=
  match ws with [] => LitFold w | w' :: ws' => Alt (LitFold w) (Words w' ws') end.

(** [\s], [\w]. *)
Definition regexp_spaces : string := string_of_codes [9; 10; 12; 13; 32]%N.
Definition Spaces : re := Star (AnyOf regexp_spaces).
Definition word_char (c : ascii) : bool := is_alpha c || is_digit c || Ascii.eqb c "_".

(** ** Matching *)

(** A place in the text: the byte before it, the text after it, and how much text
    was left at the end of the capturing group. *)
Record place := mkPlace { pl_before : option ascii; pl_rest : string; pl_group : option nat }.

Definition is_word (c : option ascii) : bool := match c with Some c => word_char c | None => false end.
Definition first_char (s : string) : option ascii :=
  match s with EmptyString => None | String c _ => Some c end.
Definition at_line_start (p : place) : bool :=
  match pl_before p with None => true | Some c => Ascii.eqb c (char 10) end.
Definition at_boundary (p : place) : bool := xorb (is_word (pl_before p)) (is_word (first_char (pl_rest p))).

(** [go r k p]: the first way, in the order of preference, in which [r] matches at
    [p] and [k] goes on from its end. A repetition goes on only when its body
    consumed something, so its rounds are bounded by the text left. *)
Fixpoint go {A} (r : re) (k : place → option A) (p : place) : option A :=
  match r with
  | Class_ P =>
      match pl_rest p with
      | String c s => if P c then k (mkPlace (Some c) s (pl_group p)) else None
      | EmptyString => None
      end
  | Empty => k p
  | Cat r1 r2 => go r1 (go r2 k) p
  | Alt r1 r2 => match go r1 k p with Some a => Some a | None => go r2 k p end
  | WordBoundary => if at_boundary p then k p else None
  | LineStart => if at_line_start p then k p else None
  | Group r => go r (λ p', k (mkPlace (pl_before p') (pl_rest p') (Some (String.length (pl_rest p'))))) p
  | Star r =>
      (fix loop (n : nat) (p : place) : option A :=
         match n with
         | O => k p
         | S n' =>
             match go r (λ p', if String.length (pl_rest p') <? String.length (pl_rest p) then loop n' p' else None) p with
             | Some a => Some a
             | None => k p
             end
         end) (String.length (pl_rest p)) p
  | LazyStar r =>
      (fix loop (n : nat) (p : place) : option A :=
         match k p with
         | Some a => Some a
         | None =>
             match n with
             | O => None
             | S n' =>
                 go r (λ p', if String.length (pl_rest p') <? String.length (pl_rest p) then loop n' p' else None) p
             end
         end) (String.length (pl_rest p)) p
  end.

(** ** Searching *)

(** A match: where it begins and ends, and where the group ends. *)
Record match_ := mkMatch { ma_start : nat; ma_end : nat; ma_group : nat }.

Definition match_at (r : re) (before : option ascii) (offset : nat) (s : string) : option match_ :=
  let at_ rest := offset + (String.length s - rest) in
  go r (λ p, Some (mkMatch offset (at_ (String.length (pl_rest p))) (at_ (default 0 (pl_group p)))))
    (mkPlace before s None).

Fixpoint find_from (r : re) (before : option ascii) (offset : nat) (s : string) : option match_ :=
  match match_at r before offset s with
  | Some m => Some m
  | None => match s with EmptyString => None | String c s' => find_from r (Some c) (S offset) s' end
  end.

(** [FindStringSubmatchIndex]. *)
Definition Find (r : re) (s : string) : option match_ := find_from r None 0 s.

Fixpoint drop_string (n : nat) (s : string) : string :=
  match n, s with S n', String _ s' => drop_string n' s' | _, _ => s end.
Fixpoint take_string (n : nat) (s : string) : string :=
  match n, s with S n', String c s' => String c (take_string n' s') | _, _ => EmptyString end.
(** [s[a:b]] and [s[i]]. *)
Definition slice (a b : nat) (s : string) : string := take_string (b - a) (drop_string a s).
Definition char_at (s : string) (i : nat) : option ascii := first_char (drop_string i s).

(** [FindAllStringIndex] for a pattern that matches no empty text. *)
Fixpoint find_all (fuel : nat) (r : re) (s : string) (from : nat) : list match_ :=
  match fuel with
  | O => []
  | S n =>
      let before := match from with O => None | S i => char_at s i end in
      match find_from r before from (drop_string from s) with
      | None => []
      | Some m => if from <? ma_end m then m :: find_all n r s (ma_end m) else []
      end
  end.
Definition FindAll (r : re) (s : string) : list match_ := find_all (S (String.length s)) r s 0.

(** [ReplaceAllStringFunc]. *)
Fixpoint replace_matches (f : string → string) (s : string) (cursor : nat) (ms : list match_) : string :=
  match ms with
  | [] => drop_string cursor s
  | m :: ms' =>
      slice cursor (ma_start m) s +:+ f (slice (ma_start m) (ma_end m) s) +:+ replace_matches f s (ma_end m) ms'
  end.
Definition ReplaceAllFunc (r : re) (f : string → string) (s : string) : string :=
  replace_matches f s 0 (FindAll r s).
