(* ===== verification/RedactionFacts.v ===== *)
(** * The redacting writer and the diagnostic spool

    Known values are gone after redaction; the writer does the same whatever pieces
    the diagnostics come in; private-key blocks are suppressed; a bracketed value is
    found whole; and a spool replays, searches and bounds what it was given. *)

From Stdlib Require Import Ascii.
From Stdlib Require Import Strings.Byte.
From S2P Require Import Prelude GoStrings GoStringFacts GoErrors GoRegexp ValueStream ValueStreamFacts Redaction.

(** ** Known values are replaced *)

Inductive occurs (v : string) : string → Prop :=
  | occurs_here s : HasPrefix s v = true → occurs v s
  | occurs_later c s : occurs v s → occurs v (String c s).

Lemma HasPrefix_cons c s d v : HasPrefix (String c s) (String d v) = Ascii.eqb d c && HasPrefix s v.
Proof. unfold HasPrefix. simpl. by destruct (Ascii.eqb d c). Qed.

Lemma HasPrefix_nil s : HasPrefix s "" = true.
Proof. unfold HasPrefix. by apply bool_decide_eq_true_2. Qed.

Section replace.
Context (v : string) (Hne : v ≠ "") (Hstar : contains_char "*" v = false).

Lemma star_free_head s : HasPrefix (String "*" s) v = false.
Proof.
  destruct v as [|c w]; [done|]. rewrite HasPrefix_cons. cbn [contains_char] in Hstar.
  apply orb_false_iff in Hstar as [Hc _]. by rewrite Ascii.eqb_sym, Hc.
Qed.

Lemma occurs_stars s : occurs v ("***" +:+ s) → occurs v s.
Proof.
  intros H. change ("***" +:+ s) with (String "*" (String "*" (String "*" s))) in H.
  do 3 (inversion H as [? Hp|? ? H']; subst; clear H; [by rewrite star_free_head in Hp|rename H' into H]). done.
Qed.
End replace.

Lemma replace_prefix_free old w s :
  contains_char "*" w = false → HasPrefix (replace_from old "***" 0 s) w = true → HasPrefix s w = true.
Proof.
  revert w. induction s as [|c s IH]; intros w Hw; [done|]. cbn [replace_from].
  destruct w as [|d w]; [by rewrite HasPrefix_nil|].
  destruct (HasPrefix (String c s) old).
  - intros Hp. change ("***" +:+ ?t) with (String "*" ("**" +:+ t)) in Hp. by rewrite star_free_head in Hp.
  - rewrite !HasPrefix_cons, !andb_true_iff. intros [Hc Hp]. split; [done|]. apply IH; [|done].
    cbn [contains_char] in Hw. by apply orb_false_iff in Hw as [_ ?].
Qed.

Lemma occurs_replace old v k s :
  v ≠ "" → contains_char "*" v = false → occurs v (replace_from old "***" k s) → occurs v s.
Proof.
  intros Hne Hstar. revert k. induction s as [|c s IH]; intros k H; [by destruct k|].
  destruct k as [|k]; cbn [replace_from] in H; [|apply occurs_later; by eapply IH].
  destruct (HasPrefix (String c s) old) eqn:E.
  - apply occurs_stars in H; [|done..]. apply occurs_later. by eapply IH.
  - inversion H as [? Hp|? ? H']; subst; [|apply occurs_later; by eapply IH].
    apply occurs_here. apply (replace_prefix_free old); [done|]. cbn [replace_from]. by rewrite E.
Qed.

Lemma not_occurs_replace v k s :
  v ≠ "" → contains_char "*" v = false → ¬ occurs v (replace_from v "***" k s).
Proof.
  intros Hne Hstar. revert k. induction s as [|c s IH]; intros k H.
  - destruct k; inversion H as [? Hp|]; subst; by destruct v.
  - destruct k as [|k]; cbn [replace_from] in H; [|by eapply IH].
    destruct (HasPrefix (String c s) v) eqn:E.
    + apply occurs_stars in H; [|done..]. by eapply IH.
    + inversion H as [? Hp|? ? H']; subst; [|by eapply IH].
      enough (HasPrefix (String c s) v = true) by congruence.
      apply (replace_prefix_free v); [done|]. cbn [replace_from]. by rewrite E.
Qed.

(** A redacted string holds none of the known values, except values with a star of
    their own. *)
Lemma redactKnownValues_hides `{!UnicodeCase} s values v :
  v ∈ values → v ≠ "" → contains_char "*" v = false → ¬ occurs v (redactKnownValues s values).
Proof.
  intros Hv Hne Hstar. unfold redactKnownValues. apply list_elem_of_split in Hv as (l1 & l2 & ->).
  rewrite fold_left_app. cbn [fold_left]. set (t := fold_left _ l1 _). clearbody t.
  assert (¬ occurs v (ReplaceAll t v "***")) as Hnot by by apply not_occurs_replace. revert Hnot.
  generalize (ReplaceAll t v "***"). induction l2 as [|w l2 IH]; intros t' Hnot; [done|]. cbn [fold_left].
  apply IH. intros Ho. apply Hnot. by eapply occurs_replace.
Qed.

(** ** Pieces *)

Fixpoint whole (pieces : list string) : string :=
  match pieces with [] => "" | p :: ps => p +:+ whole ps end.

(** The complete lines of a text, each with its break, and the rest. *)
Fixpoint cut_lines (breaks s : string) : list string * string :=
  match s with
  | EmptyString => ([], "")
  | String c s' =>
      let '(ls, r) := cut_lines breaks s' in
      if contains_char c breaks then (String c "" :: ls, r)
      else match ls with l :: ls => (String c l :: ls, r) | [] => ([], String c r) end
  end.

Definition break_free (breaks s : string) : Prop := IndexAny s breaks = None.

Lemma cut_lines_none breaks s : break_free breaks s → cut_lines breaks s = ([], s).
Proof.
  unfold break_free. induction s as [|c s IH]; [done|]. cbn [IndexAny cut_lines].
  destruct (contains_char c breaks); [done|]. destruct (IndexAny s breaks); [done|]. intros _. by rewrite IH.
Qed.

Lemma cut_lines_some breaks s i :
  IndexAny s breaks = Some i →
  cut_lines breaks s =
    (let '(ls, r) := cut_lines breaks (drop_string (S i) s) in (take_string (S i) s :: ls, r)).
Proof.
  revert i. induction s as [|c s IH]; intros i; [done|]. cbn [IndexAny cut_lines].
  destruct (contains_char c breaks) eqn:E.
  - intros [= <-]. cbn [drop_string take_string]. by destruct s.
  - destruct (IndexAny s breaks) as [j|] eqn:Ej; [|done]. intros [= <-].
    rewrite (IH j eq_refl). change (drop_string (S (S j)) (String c s)) with (drop_string (S j) s).
    by destruct (cut_lines breaks (drop_string (S j) s)).
Qed.

Lemma cut_lines_rest breaks s ls r : cut_lines breaks s = (ls, r) → break_free breaks r.
Proof.
  unfold break_free. revert ls r. induction s as [|c s IH]; intros ls r; cbn [cut_lines]; [by intros [= _ <-]|].
  destruct (cut_lines breaks s) as [ls' r'] eqn:Ecut. specialize (IH _ _ eq_refl).
  destruct (contains_char c breaks) eqn:E; [by intros [= _ <-]|].
  destruct ls'; intros [= _ <-]; [|done]. cbn [IndexAny]. by rewrite E, IH.
Qed.

Lemma cut_lines_app breaks s t :
  cut_lines breaks (s +:+ t) =
    (let '(ls, r) := cut_lines breaks s in
     let '(ls', r') := cut_lines breaks (r +:+ t) in (ls ++ ls', r')).
Proof.
  induction s as [|c s IH].
  - rewrite app_nil. cbn [cut_lines]. rewrite app_nil. by destruct (cut_lines breaks t).
  - rewrite app_cons. cbn [cut_lines]. rewrite IH. destruct (cut_lines breaks s) as [ls r].
    destruct (contains_char c breaks) eqn:E.
    + by destruct (cut_lines breaks (r +:+ t)).
    + destruct ls as [|l ls].
      * rewrite app_cons. cbn [cut_lines]. destruct (cut_lines breaks (r +:+ t)) as [ls' r']. cbn [app].
        rewrite E. by destruct ls'.
      * by destruct (cut_lines breaks (r +:+ t)).
Qed.

Lemma length_drop_string n s : String.length (drop_string n s) = String.length s - n.
Proof. revert s. induction n as [|n IH]; intros [|c s]; simpl; done || apply IH. Qed.

#[local] Opaque redactKnownValues hasIncompleteSensitiveStructure redactStructuredValues Find
  StreamingLineLimit redacted_key privateKeyEnd Index Contains ToUpper slice_from slice_to take_string drop_string.

Section Pieces.
Context `{!UnicodeCase}.

(** Lines given to [writeLine] in order, up to the first error. *)
Fixpoint feed (w : RedactingWriter) (o : Output) (lines : list string) : written :=
  match lines with
  | [] => Some (w, o, None)
  | line :: lines' =>
      '(w, o, err) ← writeLine w o line;
      match err with Some e => Some (w, o, Some e) | None => feed w o lines' end
  end.

(** The lines of a writer do not depend on what is pending. *)
Definition with_pending (r : string) (x : written) : written :=
  '(w, o, err) ← x; Some (set_rw_pending r w, o, err).

Lemma writeLine_pending r w o line : writeLine (set_rw_pending r w) o line = with_pending r (writeLine w o line).
Proof.
  unfold writeLine, write_structured, write_known, flushStructured, with_pending.
  destruct w as [p s b v st]. cbn. unfold set_rw_structured, set_rw_block, set_rw_pending. cbn.
  unfold mbind, option_bind. repeat first [done | progress cbn | case_match; simplify_eq/=].
Qed.

Lemma writeLine_keeps w o line w' o' err :
  writeLine w o line = Some (w', o', err) →
  rw_pending w' = rw_pending w ∧ rw_streaming w' = rw_streaming w ∧
  rw_sensitiveValues w' = rw_sensitiveValues w.
Proof.
  unfold writeLine, write_structured, write_known, flushStructured, mbind, option_bind. intros Hw.
  destruct w as [p s b v st]. cbn in Hw.
  repeat first [done | progress cbn in Hw | case_match; simplify_eq/=].
Qed.

Lemma set_pending_twice r r' w : set_rw_pending r (set_rw_pending r' w) = set_rw_pending r w.
Proof. done. Qed.

Lemma set_pending_same w : set_rw_pending (rw_pending w) w = w.
Proof. by destruct w. Qed.

(** A result up to what is still pending after an error, which nobody reads. *)
Definition settled (x : written) : written :=
  '(w, o, err) ← x; Some (match err with Some _ => set_rw_pending "" w | None => w end, o, err).
Definition finish (r : string) (x : written) : written :=
  '(w, o, err) ← x; Some (match err with Some _ => w | None => set_rw_pending r w end, o, err).

Lemma write_lines_feed n w o :
  String.length (rw_pending w) ≤ n →
  settled (write_lines n w o) =
    (let '(ls, r) := cut_lines (line_breaks (rw_streaming w)) (rw_pending w) in
     finish r (feed (set_rw_pending "" w) o ls)).
Proof.
  revert w o. induction n as [|n IH]; intros w o Hn; cbn [write_lines].
  - destruct w as [[|] ? ? ? ?]; [done|simpl in Hn; lia].
  - destruct (IndexAny (rw_pending w) _) as [i|] eqn:Ei.
    + rewrite (cut_lines_some _ _ _ Ei), writeLine_pending.
      set (line := take_string (S i) (rw_pending w)). set (rest := drop_string (S i) (rw_pending w)).
      assert (String.length rest ≤ n) as Hrest.
      { subst rest. rewrite length_drop_string. lia. }
      destruct (cut_lines _ rest) as [ls r] eqn:Ecut. cbn [feed]. rewrite writeLine_pending.
      destruct (writeLine w o line) as [[[w1 o1] [e|]]|] eqn:El; [done| |done].
      apply writeLine_keeps in El as (_ & Hst & _). cbn [with_pending mbind option_bind].
      rewrite IH by done. cbn [rw_streaming rw_pending set_rw_pending]. by rewrite Hst, Ecut.
    + rewrite (cut_lines_none _ _ Ei). by destruct w.
Qed.

Lemma feed_keeps w o ls w' o' err :
  feed w o ls = Some (w', o', err) → rw_pending w' = rw_pending w ∧ rw_streaming w' = rw_streaming w.
Proof.
  revert w o. induction ls as [|l ls IH]; intros w o; cbn [feed]; [by intros [= <- _ _]|].
  destruct (writeLine w o l) as [[[w1 o1] e1]|] eqn:El; [|done].
  apply writeLine_keeps in El as (Hp & Hs & _). cbn [mbind option_bind].
  destruct e1; [by intros [= <- _ _]|]. intros Hf. apply IH in Hf as [Hp' Hs']. by rewrite Hp', Hs'.
Qed.

Lemma feed_app w o ls ls' :
  feed w o (ls ++ ls') =
    ('(w, o, err) ← feed w o ls; match err with Some e => Some (w, o, Some e) | None => feed w o ls' end).
Proof.
  revert w o. induction ls as [|l ls IH]; intros w o; [done|]. cbn [feed app].
  destruct (writeLine w o l) as [[[w1 o1] [e|]]|]; [done| |done]. apply IH.
Qed.

(** Diagnostics written in pieces and flushed at the end. *)
Fixpoint rw_run (w : RedactingWriter) (o : Output) (pieces : list string) : option (Output * option goerror) :=
  match pieces with
  | [] => '(_, o, err) ← rw_Flush w o; Some (o, err)
  | piece :: pieces' =>
      '(w, o, err) ← rw_Write w o piece;
      match err with Some e => Some (o, Some e) | None => rw_run w o pieces' end
  end.

Definition within_limit (w : RedactingWriter) (s : string) : Prop :=
  rw_streaming w = false ∨ String.length s ≤ StreamingLineLimit.

Lemma rest_shorter breaks s : String.length (cut_lines breaks s).2 ≤ String.length s.
Proof.
  induction s as [|c s IH]; [done|]. cbn [cut_lines]. destruct (cut_lines breaks s) as [ls r]. simpl in IH.
  destruct (contains_char c breaks); [simpl; lia|]. destruct ls; simpl; lia.
Qed.

Lemma rw_Write_feed w o s :
  within_limit w (rw_pending w +:+ s) →
  settled (rw_Write w o s) =
    (let '(ls, r) := cut_lines (line_breaks (rw_streaming w)) (rw_pending w +:+ s) in
     finish r (feed (set_rw_pending "" w) o ls)).
Proof.
  intros Hlimit. unfold rw_Write. set (w1 := set_rw_pending (rw_pending w +:+ s) w).
  pose proof (write_lines_feed (String.length (rw_pending w1)) w1 o (le_n _)) as Hfeed.
  change (rw_pending w1) with (rw_pending w +:+ s) in *. change (rw_streaming w1) with (rw_streaming w) in *.
  change (set_rw_pending "" w1) with (set_rw_pending "" w) in *.
  destruct (cut_lines _ (rw_pending w +:+ s)) as [ls r] eqn:Ecut. rewrite <- Hfeed.
  destruct (write_lines _ w1 o) as [[[w2 o2] [e|]]|]; [done| |done]. cbn [mbind option_bind settled] in *.
  destruct (feed (set_rw_pending "" w) o ls) as [[[w3 o3] [e|]]|] eqn:Ef; [done| |done].
  apply feed_keeps in Ef as (_ & Hst). cbn in Hfeed. injection Hfeed as -> ->.
  cbn [rw_streaming rw_pending set_rw_pending]. rewrite Hst. cbn [rw_streaming set_rw_pending].
  pose proof (rest_shorter (line_breaks (rw_streaming w)) (rw_pending w +:+ s)) as Hr. rewrite Ecut in Hr. cbn in Hr.
  destruct Hlimit as [->|Hlimit]; [done|].
  rewrite (proj2 (Nat.ltb_ge _ _)), andb_false_r by lia. done.
Qed.

Lemma within_limit_app w s t : within_limit w (s +:+ t) → within_limit w s.
Proof. intros [?|Hl]; [by left|right]. rewrite length_str_app in Hl. lia. Qed.

Lemma rw_run_feed w o pieces r0 :
  rw_pending w = "" → break_free (line_breaks (rw_streaming w)) r0 → within_limit w (r0 +:+ whole pieces) →
  rw_run (set_rw_pending r0 w) o pieces =
    (let '(ls, r) := cut_lines (line_breaks (rw_streaming w)) (r0 +:+ whole pieces) in
     '(w, o, err) ← feed w o ls;
     match err with
     | Some e => Some (o, Some e)
     | None => '(_, o, err) ← rw_Flush (set_rw_pending r w) o; Some (o, err)
     end).
Proof.
  revert w o r0. induction pieces as [|piece pieces IH]; intros w o r0 Hp Hfree Hlimit; cbn [rw_run whole].
  - rewrite str_app_nil_r, (cut_lines_none _ _ Hfree). done.
  - cbn [whole] in Hlimit. pose proof (rw_Write_feed (set_rw_pending r0 w) o piece) as Hw.
    cbn [rw_pending rw_streaming set_rw_pending] in Hw. rewrite set_pending_twice in Hw.
    replace (set_rw_pending "" w) with w in Hw by (destruct w; simpl in *; by subst).
    rewrite str_app_assoc, cut_lines_app. rewrite str_app_assoc in Hlimit.
    destruct (cut_lines _ (r0 +:+ piece)) as [ls r] eqn:Ecut.
    destruct (cut_lines _ (r +:+ whole pieces)) as [ls' r'] eqn:Ecut'.
    pose proof (rest_shorter (line_breaks (rw_streaming w)) (r0 +:+ piece)) as Hr. rewrite Ecut in Hr. cbn in Hr.
    specialize (Hw (within_limit_app _ _ _ Hlimit)). rewrite feed_app.
    destruct (rw_Write (set_rw_pending r0 w) o piece) as [[[w2 o2] e2]|];
      destruct (feed w o ls) as [[[w1 o1] [e|]]|] eqn:Ef; cbn in Hw |- *; try done;
      injection Hw as Hw -> ->; cbn; [done|]. subst w2.
    apply feed_keeps in Ef as [Hp1 Hs1]. rewrite IH; [by rewrite Hs1, Ecut'|congruence| |].
    + rewrite Hs1. by eapply cut_lines_rest.
    + destruct Hlimit as [Hl|Hl]; [left; congruence|right]. rewrite !length_str_app in *. lia.
Qed.

Lemma rw_run_whole w o pieces :
  rw_pending w = "" → within_limit w (whole pieces) → rw_run w o pieces = rw_run w o [whole pieces].
Proof.
  intros Hp Hlimit. replace w with (set_rw_pending "" w) by (destruct w; simpl in *; by subst).
  rewrite !rw_run_feed; cbn [whole]; rewrite ?str_app_nil_r; done.
Qed.

(** Whatever pieces the diagnostics are written in, the redacting writer writes the
    same and ends with the same error; a streaming one as long as what it was given
    fits its line limit. *)
Theorem pieces_do_not_matter streaming values o pieces :
  let w := mkRedactingWriter "" "" false (prepareSensitiveValues values) streaming in
  streaming = false ∨ String.length (whole pieces) ≤ StreamingLineLimit →
  rw_run w o pieces = rw_run w o [whole pieces].
Proof.
  intros w Hlimit. by apply rw_run_whole.
Qed.
End Pieces.

(** ** Private-key blocks *)

#[local] Transparent slice_from slice_to.

Section Blocks.
Context `{!UnicodeCase}.

Definition plain_line (line : string) : Prop := hasIncompleteSensitiveStructure line = false.

Lemma feed_block w o body :
  rw_structured w = "" → rw_inPrivateBlock w = true →
  Forall (λ l, plain_line l ∧ privateKeyEnd (ToUpper l) = None) body → feed w o body = Some (w, o, None).
Proof.
  intros Hs Hb. induction 1 as [|l body [Hl He] _ IH]; [done|]. cbn [feed].
  unfold writeLine. rewrite Hs, Hl, Hb, He. cbn. exact IH.
Qed.

(** Of a private-key block only the text before its first marker and after its last
    one is written, redacted, around a fixed replacement; whatever the lines in
    between hold. *)
Theorem key_blocks_are_suppressed values streaming written first i body last e :
  let w := mkRedactingWriter "" "" false values streaming in
  plain_line first → Index (ToUpper first) "-----BEGIN " = Some i → i ≤ String.length first →
  Contains (drop_string i (ToUpper first)) "PRIVATE KEY-----" = true →
  privateKeyEnd (drop_string i (ToUpper first)) = None →
  Forall (λ l, plain_line l ∧ privateKeyEnd (ToUpper l) = None) body →
  plain_line last → privateKeyEnd (ToUpper last) = Some e → e ≤ String.length last →
  feed w (mkOutput written []) (first :: body ++ [last]) =
    Some (w, mkOutput (written +:+ (redactKnownValues (take_string i first) values +:+ redacted_key) +:+
      redactKnownValues (drop_string e last) values) [], None).
Proof.
  intros w Hfirst Hi Hil Hkey Hend Hbody Hlast He Hel. cbn [feed]. unfold writeLine at 1.
  cbn [w rw_structured rw_inPrivateBlock rw_sensitiveValues].
  rewrite Hfirst, Hi, Hkey, Hend. unfold slice_to. rewrite (proj2 (Nat.leb_le _ _) Hil).
  change (negb (bool_decide ("" = ""))) with false. cbn.
  rewrite feed_app, feed_block by done. cbn. unfold writeLine. cbn.
  change (negb (bool_decide ("" = ""))) with false. cbn.
  rewrite Hlast, He. unfold slice_from. rewrite (proj2 (Nat.leb_le _ _) Hel). cbn.
  unfold set_rw_block. cbn. by rewrite <- !str_app_assoc.
Qed.
End Blocks.

(** ** Searching a spool *)

#[local] Opaque chunkSize.

Lemma chunkSize_pos : 0 < chunkSize.
Proof. by apply Nat.ltb_lt; vm_compute. Qed.

Definition found (marker b : bytes) : Prop := ∃ i, marker `prefix_of` drop i b.

Lemma bytes_contain_found b marker : bytes_contain b marker = true ↔ found marker b.
Proof.
  unfold bytes_contain, found. rewrite bool_decide_eq_true. pose proof (bytes_index_spec b marker) as Hi.
  destruct (bytes_index b marker) as [i|].
  - split; [intros _; exists i; apply Hi|by eexists].
  - split; [by intros [? ?]|]. intros [i Hp]. by destruct (Hi i).
Qed.

Lemma last_bytes_app n b chunk :
  last_bytes n (last_bytes n b ++ chunk) = last_bytes n (b ++ chunk).
Proof.
  unfold last_bytes. rewrite <- (drop_app_le b chunk (length b - n)) by lia.
  rewrite drop_drop, length_drop, !length_app. f_equal. lia.
Qed.

Lemma found_split marker before rest :
  marker ≠ [] → ¬ found marker before →
  found marker (before ++ rest) ↔ found marker (last_bytes (length marker - 1) before ++ rest).
Proof.
  intros Hne Hno. unfold last_bytes. set (k := length before - (length marker - 1)).
  rewrite <- (drop_app_le before rest k) by (subst k; lia). unfold found. setoid_rewrite drop_drop.
  split; [|by intros [i Hp]; eexists]. intros [i Hp].
  destruct (decide (k ≤ i)); [exists (i - k); by replace (k + (i - k)) with i by lia|].
  exfalso. apply Hno. exists i. eapply prefix_shorter; [exact Hp| |].
  - rewrite drop_app_le by (subst k; lia). by apply prefix_app_r.
  - rewrite length_drop. subst k. lia.
Qed.

Lemma contains_loop_spec fuel content marker offset :
  marker ≠ [] → offset ≤ length content → length content < fuel + offset → ¬ found marker (take offset content) →
  contains_loop fuel (λ _, None) content marker (last_bytes (length marker - 1) (take offset content)) offset =
    Ok (bytes_contain content marker).
Proof.
  intros Hne. revert offset. induction fuel as [|fuel IH]; intros offset Hoff Hfuel Hno; [lia|].
  cbn [contains_loop]. set (chunk := take chunkSize (drop offset content)).
  assert (take (offset + length chunk) content = take offset content ++ chunk) as Htake.
  { rewrite <- take_take_drop. f_equal. subst chunk. rewrite length_take.
    destruct (Nat.min_spec chunkSize (length (drop offset content))) as [[? ->]|[? ->]]; [done|].
    by rewrite !take_ge. }
  set (carried := last_bytes (length marker - 1) (take offset content)).
  assert (∀ rest, found marker (take offset content ++ rest) ↔ found marker (carried ++ rest)) as Hsplit
    by (intros rest; by apply found_split).
  destruct (bytes_contain (carried ++ chunk) marker) eqn:E.
  { f_equal. symmetry. apply bytes_contain_found, Hsplit in E. apply bytes_contain_found.
    rewrite <- Htake in E. destruct E as [i Hp]. exists i.
    rewrite <- (take_drop (offset + length chunk) content).
    destruct (decide (i ≤ length (take (offset + length chunk) content))).
    - rewrite drop_app_le by done. by apply prefix_app_r.
    - rewrite drop_ge in Hp by lia. by apply prefix_nil_inv in Hp. }
  assert (¬ found marker (take offset content ++ chunk)) as Hno'.
  { rewrite Hsplit. rewrite <- bytes_contain_found. congruence. }
  pose proof chunkSize_pos as Hpos. destruct (length chunk <? chunkSize) eqn:Elt.
  - apply Nat.ltb_lt in Elt. f_equal. symmetry. apply not_true_iff_false. rewrite bytes_contain_found.
    enough (content = take offset content ++ chunk) as -> by done. rewrite <- Htake, take_ge; [done|].
    subst chunk. rewrite length_take, length_drop in *. lia.
  - apply Nat.ltb_ge in Elt. unfold carried. rewrite last_bytes_app, <- Htake. apply IH; [|lia|by rewrite Htake].
    subst chunk. rewrite length_take, length_drop in *. lia.
Qed.

(** The search of a spool in pieces of 32 KiB finds a marker wherever it lies, also
    across two pieces. *)
Theorem spool_contains_is_search s content marker :
  sp_file s = Some content → sp_replayed s = false → sp_terminalErr s = None →
  sp_Contains (λ _, None) s marker = Ok (bytes_contain content marker).
Proof.
  intros Hf Hr He. unfold sp_Contains. rewrite Hf, Hr, He. case_bool_decide as Hm.
  - f_equal. symmetry. apply bytes_contain_found. exists 0. subst. apply prefix_nil.
  - apply (contains_loop_spec _ content marker 0); [done|lia|lia|].
    intros [i Hp]. rewrite take_0, drop_nil in Hp. by apply prefix_nil_inv in Hp.
Qed.

(** ** What a spool keeps *)

Definition accepts (io : SpoolIO) (data : bytes) : Prop := length data ≤ io_wrote io ∧ io_write io = None.

(** A spool that is written chunk by chunk. *)
Definition sp_writes (s : DiagnosticSpool) (chunks : list (SpoolIO * bytes)) : DiagnosticSpool :=
  fold_left (λ s '(io, data), (sp_Write io s data).1.1) chunks s.

Definition spool_of (limit : Z) (values : list string) (content : bytes) : DiagnosticSpool :=
  mkSpool (Some content) true values false (Z.of_nat (length content)) limit false None.

Lemma sp_writes_cons s io data chunks : sp_writes s ((io, data) :: chunks) = sp_writes (sp_Write io s data).1.1 chunks.
Proof. done. Qed.

Lemma sp_writes_overflowed s chunks :
  sp_replayed s = false → sp_overflowed s = true → sp_writes s chunks = s.
Proof.
  intros Hr Ho. induction chunks as [|[io data] chunks IH]; [done|]. rewrite sp_writes_cons.
  unfold sp_Write. rewrite Hr, Ho. exact IH.
Qed.

Lemma sp_Write_fits io limit values content data :
  accepts io data → (Z.of_nat (length (content ++ data)) ≤ limit)%Z →
  (sp_Write io (spool_of limit values content) data).1.1 = spool_of limit values (content ++ data).
Proof.
  intros [Hn _] Hfit. unfold sp_Write, spool_of. cbn. rewrite length_app in *.
  rewrite bool_decide_eq_false_2 by lia. cbn. rewrite take_ge by lia. f_equal. lia.
Qed.

Lemma sp_Write_overflows io limit values content data :
  (limit < Z.of_nat (length (content ++ data)))%Z →
  (sp_Write io (spool_of limit values content) data).1.1 = spool_overflow io (spool_of limit values content).
Proof.
  intros Hfit. unfold sp_Write, spool_of. cbn. rewrite length_app in *. by rewrite bool_decide_eq_true_2 by lia.
Qed.

(** The error an overflowed spool reports. *)
Definition too_large_error (e : goerror) : Prop := is_sentinel e ErrDiagnosticOutputTooLarge = true.

Lemma spool_overflow_error io s :
  ∃ e, sp_terminalErr (spool_overflow io s) = Some e ∧ too_large_error e.
Proof. unfold spool_overflow. cbn. destruct (io_close io), (io_remove io); by eexists. Qed.

Lemma sp_writes_spec limit values content chunks :
  Forall (λ '(io, data), accepts io data) chunks → (Z.of_nat (length content) ≤ limit)%Z →
  let s := sp_writes (spool_of limit values content) chunks in
  let all := content ++ mjoin chunks.*2 in
  if bool_decide (Z.of_nat (length all) ≤ limit)%Z then s = spool_of limit values all
  else sp_replayed s = false ∧ sp_overflowed s = true ∧
       ∃ e, sp_terminalErr s = Some e ∧ too_large_error e.
Proof.
  intros Hok. revert content. induction Hok as [|[io data] chunks Hacc _ IH]; intros content Hfit; cbn zeta.
  - cbn [fmap list_fmap mjoin list_join sp_writes fold_left]. rewrite app_nil_r. by rewrite bool_decide_eq_true_2.
  - change (mjoin ((io, data) :: chunks).*2) with (data ++ mjoin chunks.*2).
    rewrite sp_writes_cons, (assoc_L (++)).
    destruct (decide (Z.of_nat (length (content ++ data)) ≤ limit)%Z) as [Hle|Hgt].
    + rewrite sp_Write_fits by done. by apply IH.
    + rewrite sp_Write_overflows by lia. rewrite sp_writes_overflowed by done.
      rewrite bool_decide_eq_false_2 by (rewrite (length_app (content ++ data)); lia).
      split_and!; [done..|]. apply spool_overflow_error.
Qed.

(** A spool holds exactly what was written up to its limit, and replays it as it was
    after a success; when more was written than the limit, nothing at all is
    replayed, and the replay reports that the output was too large. *)
Theorem spool_replays_all_or_reports `{!UnicodeCase} limit values chunks io o pieces :
  Forall (λ '(io, data), accepts io data) chunks → (0 ≤ limit)%Z → io_seek io = None → ou_answers o = [] →
  let s := sp_writes (spool_of limit values []) chunks in
  let all := mjoin chunks.*2 in
  if bool_decide (Z.of_nat (length all) ≤ limit)%Z then
    sp_file s = Some all ∧
    ∃ s' err, sp_Replay io true s o pieces = Some (s', mkOutput (ou_written o +:+ string_of_bytes all) [], err) ∧
      (io_close io = None → io_remove io = None → err = None ∧ sp_path s' = false)
  else ∃ s' e, sp_Replay io true s o pieces = Some (s', o, Some e) ∧ too_large_error e.
Proof.
  intros Hok Hlimit Hseek Ho. pose proof (sp_writes_spec limit values [] chunks Hok ltac:(simpl; lia)) as Hs.
  cbn zeta in *. rewrite app_nil_l in Hs. case_bool_decide.
  - rewrite Hs. split; [done|]. unfold sp_Replay, replay_content, WriteString. cbn. rewrite Hseek, Ho. cbn.
    do 2 eexists. split; [done|]. by intros -> ->.
  - destruct Hs as (Hr & Hov & e & He & Hlarge). unfold sp_Replay. rewrite Hr, Hov, He. by do 2 eexists.
Qed.

Lemma string_of_bytes_app a b : string_of_bytes (a ++ b) = string_of_bytes a +:+ string_of_bytes b.
Proof. induction a as [|c a IH]; [done|].
  change (string_of_bytes ((c :: a) ++ b)) with (String (ascii_of_byte c) (string_of_bytes (a ++ b))). by rewrite IH.
Qed.

Lemma whole_pieces pieces : whole (string_of_bytes <$> pieces) = string_of_bytes (mjoin pieces).
Proof.
  induction pieces as [|p pieces IH]; [done|]. cbn [whole fmap list_fmap].
  change (mjoin (p :: pieces)) with (p ++ mjoin pieces). by rewrite string_of_bytes_app, <- IH.
Qed.

Lemma copy_pieces_run `{!UnicodeCase} w o pieces :
  ('(w, o, err) ← copy_pieces w o pieces;
   match err with Some e => Some (o, Some e) | None => '(_, o, err) ← rw_Flush w o; Some (o, err) end) =
  rw_run w o (string_of_bytes <$> pieces).
Proof.
  revert w o. induction pieces as [|p pieces IH]; intros w o; [done|]. cbn [copy_pieces rw_run fmap list_fmap].
  destruct (rw_Write w o (string_of_bytes p)) as [[[w1 o1] [e|]]|]; [done| |done]. apply IH.
Qed.

(** After a failure the diagnostics are replayed through the redacting writer,
    whatever pieces the library copies them in. *)
Theorem spool_failure_is_redacted `{!UnicodeCase} limit values content io o pieces :
  io_seek io = None → mjoin pieces = content →
  (λ '(_, o, _), o) <$> sp_Replay io false (spool_of limit (prepareSensitiveValues values) content) o pieces =
  fst <$> rw_run (NewRedactingWriter values) o [string_of_bytes content].
Proof.
  intros Hseek <-. unfold sp_Replay, replay_content. cbn [spool_of sp_replayed sp_overflowed sp_file orb].
  rewrite Hseek. cbn [mbind option_bind sp_sensitiveValues].
  rewrite copy_pieces_run, rw_run_whole by (done || by left).
  rewrite whole_pieces. by destruct (rw_run _ o _) as [[? ?]|].
Qed.

(** ** Bracketed values *)

Definition matching (open close : ascii) : Prop :=
  (open = "{"%char ∧ close = "}"%char) ∨ (open = "["%char ∧ close = "]"%char).

(** The inside of a string quoted by [q]: no quote that is not escaped. *)
Inductive quoted_body (q : ascii) : string → Prop :=
  | quoted_nil : quoted_body q ""
  | quoted_escape c s : quoted_body q s → quoted_body q (String backslash (String c s))
  | quoted_char c s : c ≠ backslash → c ≠ q → quoted_body q s → quoted_body q (String c s).

(** Text in which brackets and quotes are closed. *)
Inductive balanced : string → Prop :=
  | balanced_nil : balanced ""
  | balanced_char c s :
      contains_char c quotes = false → contains_char c "{[}]" = false → balanced s → balanced (String c s)
  | balanced_quoted q body s :
      contains_char q quotes = true → quoted_body q body → balanced s → balanced (String q (body +:+ String q s))
  | balanced_nested open close body s :
      matching open close → balanced body → balanced s → balanced (String open (body +:+ String close s)).

Lemma structured_length_quoted q body stack s :
  contains_char q quotes = true → quoted_body q body →
  structured_length stack (Some q) false (body +:+ String q s) =
    (λ n, String.length body + 1 + n) <$> structured_length stack None false s.
Proof.
  intros Hq. assert (Ascii.eqb q backslash = false) as Hqb.
  { apply Ascii.eqb_neq. intros ->. by vm_compute in Hq. }
  induction 1 as [|c body _ IH|c body Hc Hcq _ IH]; rewrite ?app_cons; cbn [structured_length].
  - rewrite app_nil. cbn [structured_length]. rewrite Hqb, Ascii.eqb_refl. by destruct (structured_length _ None _ _).
  - rewrite Ascii.eqb_refl, IH. by destruct (structured_length _ None _ _).
  - rewrite (proj2 (Ascii.eqb_neq c backslash)), (proj2 (Ascii.eqb_neq c q)), IH by done.
    by destruct (structured_length _ None _ _).
Qed.

Lemma contains_brackets c : contains_char c "{[}]" = contains_char c "{[" || contains_char c "}]".
Proof. cbn [contains_char]. by destruct (Ascii.eqb c "{"), (Ascii.eqb c "["), (Ascii.eqb c "}"), (Ascii.eqb c "]"). Qed.

Lemma structured_length_balanced body stack s :
  balanced body → stack ≠ [] →
  structured_length stack None false (body +:+ s) =
    (λ n, String.length body + n) <$> structured_length stack None false s.
Proof.
  intros Hb. revert stack s. induction Hb as [|c body Hq Hbr _ IH|q inner body Hq Hin _ IH|o c inner body Hm _ IHin _ IH];
    intros stack s Hst.
  - rewrite app_nil. by destruct (structured_length _ _ _ s).
  - rewrite contains_brackets in Hbr. apply orb_false_iff in Hbr as [Ho Hc].
    rewrite app_cons. cbn [structured_length]. rewrite Hq, Ho, Hc, IH by done. by destruct (structured_length _ _ _ s).
  - rewrite app_cons, <- str_app_assoc, app_cons. cbn [structured_length]. rewrite Hq.
    rewrite structured_length_quoted, IH by done. rewrite <- option_fmap_compose, <- option_fmap_compose.
    apply option_fmap_ext. intros n. cbn. rewrite length_str_app. simpl. lia.
  - rewrite app_cons, <- str_app_assoc, app_cons.
    assert (structured_length stack None false (String o (inner +:+ String c (body +:+ s))) =
      S <$> structured_length (o :: stack) None false (inner +:+ String c (body +:+ s))) as ->
      by (destruct Hm as [[-> ->]|[-> ->]]; done).
    rewrite IHin by done.
    assert (structured_length (o :: stack) None false (String c (body +:+ s)) =
      S <$> structured_length stack None false (body +:+ s)) as ->
      by (destruct Hm as [[-> ->]|[-> ->]], stack; done).
    rewrite IH, <- !option_fmap_compose by done.
    apply option_fmap_ext. intros n. cbn. rewrite length_str_app. simpl. lia.
Qed.

#[local] Transparent drop_string.
Lemma drop_string_app s t : drop_string (String.length s) (s +:+ t) = t.
Proof. induction s as [|c s IH]; [by destruct t|]. rewrite app_cons. apply IH. Qed.

(** A bracketed value whose brackets and quotes are closed is found whole, whatever
    follows it: nested values, quoted brackets and escaped quotes do not end it. *)
Theorem structured_value_is_found_whole before open body close after :
  matching open close → balanced body →
  structuredValueEnd (before +:+ String open (body +:+ String close after)) (String.length before) =
    Some (String.length (before +:+ String open (body +:+ String close ""))).
Proof.
  intros Hm Hb. unfold structuredValueEnd. rewrite drop_string_app, structured_length_balanced by done.
  assert (structured_length [open] None false (String close after) = Some 1) as ->
    by (destruct Hm as [[-> ->]|[-> ->]]; done).
  cbn. f_equal. rewrite !length_str_app. simpl. rewrite length_str_app. simpl. lia.
Qed.
