(* ===== verification/RunOutput.v ===== *)
(** * Output of a human run ([ssh/run_output.go])

    How remote stdout and stderr reach the terminal: streamed, stderr through a
    watcher for the interpreter marker, the known-value stream and the redacting
    writer; or, with [SSM_RUN_OUTPUT=buffered], through two diagnostic spools. *)

From S2P Require Import Prelude GoStrings GoStringFacts GoErrors GoRegexp ValueStream ValueStreamFacts Redaction RedactionFacts.

(** ** The writers *)

(** [abortingWriter]: the first failure of the output stops the session and is the
    answer to every later write. [aw_aborted] says whether [abort] was called. *)
Record abortingWriter := mkAborting { aw_output : Output; aw_err : option goerror; aw_aborted : bool }.

Definition aw_Write (a : abortingWriter) (data : string) : abortingWriter * option goerror :=
  match aw_err a with
  | Some e => (a, Some e)
  | None =>
      let '(o, err) := WriteString (aw_output a) data in
      (mkAborting o err (aw_aborted a || negb (error_ok err)), err)
  end.

(** [markerWatcher] without what it forwards to. *)
Record markerWatcher := mkWatcher { mw_marker : bytes; mw_tail : bytes; mw_seen : bool }.

Definition mw_watch (w : markerWatcher) (data : bytes) : markerWatcher :=
  if mw_seen w then w
  else
    let window := mw_tail w ++ data in
    if bytes_contain window (mw_marker w) then mkWatcher (mw_marker w) [] true
    else mkWatcher (mw_marker w) (last_bytes (length (mw_marker w) - 1) window) false.

(** ** Streamed output *)

Record streamingRunOutput := mkStreamingOutput {
  so_marker : option markerWatcher;
  so_values : KnownValueStream;
  so_lines : RedactingWriter;
  so_stdout : string;
  so_stderr : Output;
}.

Definition newStreamingRunOutput (secrets : list string) (interpreterMarker : string) (stderr : Output) :
    streamingRunOutput :=
  mkStreamingOutput
    (if bool_decide (interpreterMarker = "") then None
     else Some (mkWatcher (bytes_of_string interpreterMarker) [] false))
    (NewKnownValueStream secrets) (NewStreamingRedactingWriter []) "" stderr.

(** Remote stdout passes through. *)
Definition so_Stdout (s : streamingRunOutput) (data : bytes) : streamingRunOutput :=
  mkStreamingOutput (so_marker s) (so_values s) (so_lines s) (so_stdout s +:+ string_of_bytes data) (so_stderr s).

Definition InterpreterMarkerSeen (s : streamingRunOutput) : bool :=
  match so_marker s with None => false | Some w => mw_seen w end.

Section Streaming.
Context `{!UnicodeCase}.

(** The redacting writer as the output of the known-value stream. *)
Definition lines_answer (w : RedactingWriter) (o : Output) : writer := λ data,
  match rw_Write w o (string_of_bytes data) with Some (_, _, err) => err | None => None end.

(** Passing on what the known-value stream released; a panic is [None]. *)
Definition pass_on (w : RedactingWriter) (o : Output) (out : bytes) : option (RedactingWriter * Output) :=
  match out with
  | [] => Some (w, o)
  | _ => (λ '(w, o, _), (w, o)) <$> rw_Write w o (string_of_bytes out)
  end.

Definition so_Stderr (s : streamingRunOutput) (data : bytes) : option (streamingRunOutput * option goerror) :=
  let marker := (λ w, mw_watch w data) <$> so_marker s in
  let '(values, out, err) := stream_Write (lines_answer (so_lines s) (so_stderr s)) (so_values s) data in
  '(w, o) ← pass_on (so_lines s) (so_stderr s) out;
  Some (mkStreamingOutput marker values w (so_stdout s) o, err).

(** [Finish]: the withheld fragment, then the unfinished line. *)
Definition so_Finish (s : streamingRunOutput) : option (streamingRunOutput * option goerror) :=
  let '(values, out, err) := stream_Flush (lines_answer (so_lines s) (so_stderr s)) (so_values s) in
  '(w, o) ← pass_on (so_lines s) (so_stderr s) out;
  '(w, o, err') ← rw_Flush w o;
  Some (mkStreamingOutput (so_marker s) values w (so_stdout s) o, Join_errors err err').

(** ** Buffered output *)

Record spoolRunOutput := mkSpoolOutput { po_stdout : DiagnosticSpool; po_stderr : DiagnosticSpool; po_marker : bytes }.

Definition po_InterpreterMarkerSeen (failure : nat → option goerror) (s : spoolRunOutput) : result bool :=
  if bool_decide (po_marker s = []) then Ok false else sp_Contains failure (po_stderr s) (po_marker s).

Definition po_Finish (io : SpoolIO) (success : bool) (s : spoolRunOutput) (out err : Output)
    (out_pieces err_pieces : list bytes) : option (spoolRunOutput * Output * Output * option goerror) :=
  '(so, out, e1) ← sp_Replay io success (po_stdout s) out out_pieces;
  '(se, err, e2) ← sp_Replay io success (po_stderr s) err err_pieces;
  Some (mkSpoolOutput so se (po_marker s), out, err, Join_errors e1 e2).
End Streaming.

(** ** The marker is seen exactly when it was written *)

Definition watched (w : markerWatcher) (before : bytes) : Prop :=
  mw_marker w ≠ [] ∧
  if mw_seen w then found (mw_marker w) before
  else ¬ found (mw_marker w) before ∧ mw_tail w = last_bytes (length (mw_marker w) - 1) before.

Lemma found_app_l marker before rest : found marker before → found marker (before ++ rest).
Proof.
  intros [i Hp]. destruct (decide (i ≤ length before)).
  - exists i. rewrite drop_app_le by done. by apply prefix_app_r.
  - exists 0. rewrite drop_ge in Hp by lia. apply prefix_nil_inv in Hp as ->. apply prefix_nil.
Qed.

Lemma mw_watch_watched w before data :
  watched w before → watched (mw_watch w data) (before ++ data) ∧ mw_marker (mw_watch w data) = mw_marker w.
Proof.
  intros [Hne Hw]. unfold mw_watch, watched. destruct (mw_seen w) eqn:Es.
  - rewrite Es. split; [split; [done|by apply found_app_l]|done].
  - destruct Hw as [Hno Htail]. rewrite Htail.
    destruct (bytes_contain _ (mw_marker w)) eqn:E; cbn; (split; [split; [done|]|done]).
    + apply bytes_contain_found, found_split in E; done.
    + split; [|apply last_bytes_app]. rewrite found_split by done. rewrite <- bytes_contain_found. congruence.
Qed.

(** However stderr arrives, the interpreter marker counts as seen exactly when it
    occurs in it. *)
Theorem marker_seen_iff_written marker chunks :
  marker ≠ [] →
  mw_seen (fold_left mw_watch chunks (mkWatcher marker [] false)) = bytes_contain (mjoin chunks) marker.
Proof.
  intros Hne. enough (∀ w before, watched w before →
    mw_seen (fold_left mw_watch chunks w) = bytes_contain (before ++ mjoin chunks) (mw_marker w)) as H.
  { apply (H (mkWatcher marker [] false) []). split; [done|]. cbn. split; [|done].
    intros [i Hp]. rewrite drop_nil in Hp. by apply prefix_nil_inv in Hp. }
  induction chunks as [|data chunks IH]; intros w before Hw; cbn [fold_left].
  - rewrite app_nil_r. destruct Hw as [_ Hw]. destruct (mw_seen w).
    + symmetry. by apply bytes_contain_found.
    + symmetry. apply not_true_iff_false. rewrite bytes_contain_found. apply Hw.
  - destruct (mw_watch_watched w before data Hw) as [Hw' Hm].
    rewrite (IH _ _ Hw'), Hm. by change (mjoin (data :: chunks)) with (data ++ mjoin chunks); rewrite (assoc_L (++)).
Qed.

(** ** Streamed stderr is the redaction of the whole *)

Section Composition.
Context `{!UnicodeCase}.

Definition accepting : writer := λ _, None.
Definition not_empty (out : bytes) : list bytes := match out with [] => [] | _ => [out] end.

(** What the known-value stream releases, piece by piece. *)
Fixpoint released (s : KnownValueStream) (chunks : list bytes) : list bytes :=
  match chunks with
  | [] => let '(_, out, _) := stream_Flush accepting s in not_empty out
  | data :: chunks' => let '(s', out, _) := stream_Write accepting s data in not_empty out ++ released s' chunks'
  end.

Lemma stream_release_answer w final s :
  vs_err s = None → w (stream_release accepting final s).1.2 = None →
  stream_release w final s = stream_release accepting final s.
Proof.
  unfold stream_release. intros Herr. destruct (release_loop _ s final _) as [[|c out] pending]; [done|].
  cbn. by intros ->.
Qed.

Lemma stream_Write_answer w s data :
  vs_err s = None → w (stream_Write accepting s data).1.2 = None →
  stream_Write w s data = stream_Write accepting s data.
Proof.
  unfold stream_Write. intros Herr. rewrite Herr. destruct (vs_values s); [cbn; by intros ->|].
  by apply stream_release_answer.
Qed.

Lemma mjoin_not_empty out rest : mjoin (not_empty out ++ rest) = out ++ mjoin rest.
Proof. by destruct out. Qed.

Lemma accepting_error s data : vs_err s = None → vs_err (stream_Write accepting s data).1.1 = None ∧
  (stream_Write accepting s data).2 = None.
Proof.
  unfold stream_Write, stream_release. intros ->. destruct (vs_values s); [done|].
  by destruct (release_loop _ _ _ _) as [[|] ?].
Qed.

Lemma released_run s chunks :
  vs_err s = None →
  (stream_run s ((λ data, (data, accepting)) <$> chunks) accepting).1.2 = mjoin (released s chunks) ∧
  (stream_run s ((λ data, (data, accepting)) <$> chunks) accepting).2 = None.
Proof.
  revert s. induction chunks as [|data chunks IH]; intros s Herr; cbn [fmap list_fmap stream_run released].
  - unfold stream_Flush, stream_release. rewrite Herr.
    destruct (release_loop _ s true _) as [[|c out] pending]; cbn; [done|]. by rewrite app_nil_r.
  - destruct (accepting_error s data Herr) as [Herr' Hnone].
    destruct (stream_Write accepting s data) as [[s' out] err]. cbn in Herr', Hnone. subst err.
    specialize (IH s' Herr'). destruct (stream_run s' _ accepting) as [[s'' out'] err']. cbn in *.
    destruct IH as [-> ->]. by rewrite mjoin_not_empty.
Qed.

(** An output that accepts everything never fails the redacting writer. *)
Definition open_output (o : Output) : Prop := ou_answers o = [].

Lemma WriteString_open o s : open_output o → ∃ o', WriteString o s = (o', None) ∧ open_output o'.
Proof. unfold open_output, WriteString. intros ->. by eexists. Qed.

Definition harmless (x : written) : Prop :=
  ∀ w o err, x = Some (w, o, err) → err = None ∧ open_output o.

Lemma write_known_open w o s : open_output o → harmless (write_known w o s).
Proof.
  intros Ho w' o' err. unfold write_known. destruct (WriteString_open o (redactKnownValues s (rw_sensitiveValues w)) Ho)
    as (o1 & -> & Ho1). by intros [= _ <- <-].
Qed.

Lemma flushStructured_open w o : open_output o → harmless (Some (flushStructured w o)).
Proof.
  intros Ho w' o' err [= E]. revert E. unfold flushStructured. case_bool_decide; [by intros [= _ <- <-]|].
  case_match; [|by intros [= _ <- <-]].
  edestruct (WriteString_open o) as (o1 & -> & Ho1); [done|]. by intros [= _ <- <-].
Qed.

Lemma harmless_some w o : open_output o → harmless (Some (w, o, None)).
Proof. by intros Ho w' o' err [= _ <- <-]. Qed.

Lemma writeLine_open w o line : open_output o → harmless (writeLine w o line).
Proof.
  intros Ho. unfold writeLine, write_structured, slice_from, slice_to, mbind, option_bind.
  repeat case_match; simplify_eq; try by first
    [apply harmless_some|apply write_known_open|apply flushStructured_open|intros ? ? ?].
  all: match goal with Hw : WriteString ?out ?s = _, Ho : open_output ?out |- _ =>
    destruct (WriteString_open out s Ho) as (o1 & Ho1 & Hopen); rewrite Ho1 in Hw end; simplify_eq.
  all: by apply harmless_some.
Qed.

Lemma write_lines_open n w o : open_output o → harmless (write_lines n w o).
Proof.
  revert w o. induction n as [|n IH]; intros w o Ho; cbn [write_lines]; [by apply harmless_some|].
  destruct (IndexAny (rw_pending w) _); [|by apply harmless_some].
  set (x := writeLine _ o _). assert (harmless x) as Hx by by apply writeLine_open. clearbody x.
  destruct x as [[[w1 o1] err]|]; [|by intros ? ? ?]. destruct (Hx w1 o1 err eq_refl) as [-> Ho1]. by apply IH.
Qed.

Lemma rw_Write_open w o s : open_output o → harmless (rw_Write w o s).
Proof.
  intros Ho. unfold rw_Write. set (x := write_lines _ _ o).
  assert (harmless x) as Hx by by apply write_lines_open. clearbody x.
  destruct x as [[[w1 o1] err]|]; [|by intros ? ? ?]. destruct (Hx w1 o1 err eq_refl) as [-> Ho1].
  cbn [mbind option_bind]. case_match; [by apply writeLine_open|by apply harmless_some].
Qed.

Lemma rw_Flush_open w o : open_output o → harmless (rw_Flush w o).
Proof.
  intros Ho. unfold rw_Flush. case_bool_decide; [by apply flushStructured_open|]. set (x := writeLine _ o _).
  assert (harmless x) as Hx by by apply writeLine_open. clearbody x.
  destruct x as [[[w1 o1] err]|]; [|by intros ? ? ?]. destruct (Hx w1 o1 err eq_refl) as [-> Ho1].
  by apply flushStructured_open.
Qed.

(** Stderr that arrives in chunks, up to an error, and the end of the run. *)
Fixpoint so_run (s : streamingRunOutput) (chunks : list bytes) : option (streamingRunOutput * option goerror) :=
  match chunks with
  | [] => so_Finish s
  | data :: chunks' =>
      '(s, err) ← so_Stderr s data;
      match err with Some e => Some (s, Some e) | None => so_run s chunks' end
  end.

Lemma lines_answer_open w o out : open_output o → lines_answer w o out = None.
Proof.
  intros Ho. unfold lines_answer. pose proof (rw_Write_open w o (string_of_bytes out) Ho) as Hx.
  destruct (rw_Write w o (string_of_bytes out)) as [[[w1 o1] err]|]; [|done].
  by destruct (Hx w1 o1 err eq_refl) as [-> _].
Qed.

Lemma rw_run_not_empty w o out rest :
  open_output o →
  rw_run w o ((string_of_bytes <$> not_empty out) ++ rest) = ('(w, o) ← pass_on w o out; rw_run w o rest).
Proof.
  intros Ho. destruct out as [|c out]; [done|]. cbn [not_empty fmap list_fmap app rw_run pass_on].
  pose proof (rw_Write_open w o (string_of_bytes (c :: out)) Ho) as Hx.
  destruct (rw_Write w o (string_of_bytes (c :: out))) as [[[w1 o1] err]|]; [|done].
  by destruct (Hx w1 o1 err eq_refl) as [-> _].
Qed.

Lemma pass_on_keeps_open w o out w' o' : open_output o → pass_on w o out = Some (w', o') → open_output o'.
Proof.
  intros Ho. unfold pass_on. destruct out; [by intros [= _ <-]|].
  destruct (rw_Write w o _) as [[[w1 o1] err]|] eqn:E; [|done]. intros [= _ <-].
  by apply (rw_Write_open _ _ _ Ho) in E as [_ ?].
Qed.

Lemma so_run_lines s chunks :
  vs_err (so_values s) = None → open_output (so_stderr s) →
  (λ '(s, err), (so_stderr s, err)) <$> so_run s chunks =
    rw_run (so_lines s) (so_stderr s) (string_of_bytes <$> released (so_values s) chunks).
Proof.
  revert s. induction chunks as [|data chunks IH]; intros s Herr Ho; cbn [so_run released].
  - unfold so_Finish, stream_Flush. rewrite Herr.
    rewrite stream_release_answer by (done || by apply lines_answer_open).
    destruct (stream_release accepting true (so_values s)) as [[v out] err] eqn:E.
    assert (err = None) as ->.
    { unfold stream_release in E. by destruct (release_loop _ _ _ _) as [[|] ?]; simplify_eq. }
    rewrite <- (app_nil_r (string_of_bytes <$> not_empty out)), rw_run_not_empty by done.
    destruct (pass_on (so_lines s) (so_stderr s) out) as [[w o]|]; [|done]. cbn.
    by destruct (rw_Flush w o) as [[[w' o'] err']|].
  - unfold so_Stderr. rewrite stream_Write_answer by (done || by apply lines_answer_open).
    destruct (accepting_error (so_values s) data Herr) as [Herr' Hnone].
    destruct (stream_Write accepting (so_values s) data) as [[v out] err]. cbn in Herr', Hnone. subst err.
    rewrite fmap_app, rw_run_not_empty by done.
    destruct (pass_on (so_lines s) (so_stderr s) out) as [[w o]|] eqn:E; [|done]. cbn.
    apply pass_on_keeps_open in E; [|done]. by rewrite IH.
Qed.

Lemma accepting_chunks (chunks : list bytes) : ((λ data, (data, accepting)) <$> chunks).*1 = chunks.
Proof. induction chunks as [|data chunks IH]; [done|]. cbn. by rewrite IH. Qed.

Lemma length_string_of_bytes b : String.length (string_of_bytes b) = length b.
Proof. induction b as [|c b IH]; [done|]. cbn [length]. by rewrite <- IH. Qed.

(** The stderr of a streamed run is the redaction of all of it. However it arrives,
    what the terminal shows is what the redacting writer makes, in one piece, of the
    input with the explicit secrets replaced from the left, the longest first. *)
Theorem streamed_stderr_is_redacted_whole secrets marker chunks :
  let hidden := scan (bytes_of_string <$> prepareSensitiveValues secrets) 0 (mjoin chunks) in
  length hidden ≤ StreamingLineLimit →
  (λ '(s, err), (so_stderr s, err)) <$> so_run (newStreamingRunOutput secrets marker (mkOutput "" [])) chunks =
    rw_run (NewStreamingRedactingWriter []) (mkOutput "" []) [string_of_bytes hidden].
Proof.
  intros hidden Hlimit. rewrite so_run_lines by done. cbn [newStreamingRunOutput so_lines so_stderr so_values].
  destruct (released_run (NewKnownValueStream secrets) chunks eq_refl) as [Hout Hnone].
  pose proof (stream_run_spec (NewKnownValueStream secrets) ((λ data, (data, accepting)) <$> chunks) accepting
    (stream_ok_new _) eq_refl (λ _, eq_refl)) as Hspec.
  destruct (stream_run _ _ accepting) as [[v out] err]. cbn in Hout, Hnone. subst out err.
  destruct Hspec as [_ Hspec]. specialize (Hspec eq_refl).
  rewrite accepting_chunks in Hspec. change (mjoin (released (NewKnownValueStream secrets) chunks) = hidden) in Hspec.
  rewrite rw_run_whole; rewrite ?whole_pieces, ?Hspec; [done|done|].
  right. by rewrite length_string_of_bytes.
Qed.
End Composition.
