(* ===== verification/SyncProtocol.v ===== *)
(** * The sync protocol: messages, identities and the service interface

    The client ([internal/cloud]) and the server ([internal/syncserver]) meet in
    HTTP requests and responses. This file has the headers both sides use, the
    identities of blobs, and the interface a client relies on. *)

From S2P Require Import Prelude GoStrings GoErrors.

(** ** Hashing and JSON

    [crypto/sha256] and [encoding/json] are arguments. [json_string name body] is
    [json.Unmarshal] of a response into a struct with the one string field [name]:
    [None] when it fails, the empty string when the field is absent. *)
Class Sha256 := sha256 : bytes → bytes.
Class Sha256Laws (H : Sha256) : Prop := sha256_length data : length (sha256 data) = 32.

Class Json := {
  json_object : string → string → bytes;
  json_object_bool : string → bool → bytes;
  json_string : string → bytes → option string;
  json_bool : string → bytes → option bool;
}.
Class JsonLaws (J : Json) : Prop :=
  json_string_object name value :
    is_ascii_string value = true → json_string name (json_object name value) = Some value.

Section Identity.
Context `{Sha256}.

Definition hashBytes (data : bytes) : string := hex_encode (sha256 data).
Definition hashToken (token : string) : string := hashBytes (bytes_of_string token).

(** [^[0-9a-f]{64}$] *)
Definition publicationIdentityPattern (s : string) : bool :=
  bool_decide (String.length s = 64) && string_forall is_hex_digit s.

Lemma hashBytes_identity `{!Sha256Laws _} data : publicationIdentityPattern (hashBytes data) = true.
Proof.
  unfold publicationIdentityPattern, hashBytes. rewrite hex_encode_length, sha256_length.
  apply andb_true_iff. split; [by vm_compute|apply hex_encode_digits].
Qed.
End Identity.

Definition dquote : string := String (char 34) EmptyString.
Definition quoteETag (value : string) : string := dquote +:+ value +:+ dquote.
Definition TrimQuotes (value : string) : string := Trim value dquote.

(** ** Messages

    An absent header is the empty string. *)
Inductive method := GET | HEAD | POST | PUT | OtherMethod (name : string).
#[export] Instance method_eq_dec : EqDecision method.
Proof. solve_decision. Defined.

Record Request := mkRequest {
  rq_Method : method;
  rq_Path : string;
  rq_Authorization : string;
  rq_IfMatch : string;
  rq_IfNoneMatch : string;
  rq_Body : bytes;
}.

Record Response := mkResponse {
  rp_Status : Z;
  rp_ETag : string;
  rp_Precondition : string;
  rp_Body : bytes;
}.

Definition StatusOK : Z := 200.
Definition StatusBadRequest : Z := 400.
Definition StatusUnauthorized : Z := 401.
Definition StatusNotFound : Z := 404.
Definition StatusMethodNotAllowed : Z := 405.
Definition StatusConflict : Z := 409.
Definition StatusPreconditionFailed : Z := 412.
Definition StatusRequestEntityTooLarge : Z := 413.
Definition StatusInternalServerError : Z := 500.

(** ** The service a client talks to

    [serve] answers one request; the state is whatever the service keeps. *)
Class SyncService (S : Type) := serve : S → Request → S * Response.

(** What the client relies on, for the account of one token, as long as the token
    is valid ([good]). [stored s] is the blob the service holds for it. Reads change nothing and answer the stored blob and its
    identity; a [PUT] answered 200 found the blob its precondition names and
    stored its body, and one refused with 412 changed nothing. *)
Class SyncServiceLaws `{Sha256} {S : Type} (service : SyncService S)
    (token : string) (good : S → Prop) (stored : S → option bytes) : Prop := {
  serve_good s r : good s → rq_Path r = "/sync" → good (fst (serve s r));
  serve_head s r :
    good s → rq_Method r = HEAD → rq_Path r = "/sync" → rq_Authorization r = "Bearer " +:+ token →
    stored (fst (serve s r)) = stored s ∧
    (rp_Status (snd (serve s r)) = StatusOK →
      ∃ data, stored s = Some data ∧ rp_ETag (snd (serve s r)) = quoteETag (hashBytes data)) ∧
    (rp_Status (snd (serve s r)) = StatusNotFound → stored s = None);
  serve_get s r :
    good s → rq_Method r = GET → rq_Path r = "/sync" → rq_Authorization r = "Bearer " +:+ token →
    stored (fst (serve s r)) = stored s ∧
    (rp_Status (snd (serve s r)) = StatusOK →
      stored s = Some (rp_Body (snd (serve s r))) ∧
      rp_ETag (snd (serve s r)) = quoteETag (hashBytes (rp_Body (snd (serve s r)))));
  serve_put s r :
    good s → rq_Method r = PUT → rq_Path r = "/sync" → rq_Authorization r = "Bearer " +:+ token →
    (rp_Status (snd (serve s r)) = StatusOK →
      stored (fst (serve s r)) = Some (rq_Body r) ∧
      rp_ETag (snd (serve s r)) = quoteETag (hashBytes (rq_Body r)) ∧
      (∀ identity, publicationIdentityPattern identity = true → rq_IfMatch r = quoteETag identity →
        ∃ old, stored s = Some old ∧ hashBytes old = identity) ∧
      (rq_IfNoneMatch r = "*" → stored s = None)) ∧
    (rp_Status (snd (serve s r)) = StatusPreconditionFailed → stored (fst (serve s r)) = stored s);
}.

(** ** Atomic file replacement

    Both sides write a temporary file, rename it into place and then restrict or
    flush it, so a write may fail with the new content in place. *)
Inductive write_outcome := Stored | NotStored | StoredThenFailed.
Definition write_stores (w : write_outcome) : bool :=
  match w with NotStored => false | _ => true end.
Definition write_succeeds (w : write_outcome) : bool :=
  match w with Stored => true | _ => false end.
