(* ===== verification/RemoteCommand.v ===== *)
(** * Remote command lines and scripts ([ssh/command.go], [ssh/script.go], [ssh/run.go])

    How an argument vector, secrets and a script become the one command line of an
    SSH exec request: quoting, environment assignments, the runner of a script, and
    what of it is shown. A map of secrets is a [gmap]; where the code iterates over it
    in Go's unspecified order, the order is an argument. *)

From Stdlib Require Import Ascii.
From Stdlib Require Import Ascii Strings.Byte.
From S2P Require Import Prelude GoStrings GoErrors GoRegexp ValueStream Redaction MachineContract SyncProtocol.

(** ** Quoting *)

Definition squote : string := String squote_char "".
Definition dquote : string := String dquote_char "".

(** What a single quote inside of a quoted word becomes. *)
Definition quoted_quote : string := squote +:+ dquote +:+ squote +:+ dquote +:+ squote.

Definition ShellQuote (s : string) : string :=
  if bool_decide (s = "") then squote +:+ squote
  else squote +:+ ReplaceAll s squote quoted_quote +:+ squote.

(** The loop of [isEnvAssign] and [isEnvName]: [first] says whether [i] is zero. *)
Fixpoint env_name_chars (first : bool) (s : string) : bool :=
  match s with
  | EmptyString => true
  | String c s' =>
      (is_upper c || is_lower c || Ascii.eqb c "_" || (negb first && is_digit c)) && env_name_chars false s'
  end.

Definition isEnvName (s : string) : bool := negb (bool_decide (s = "")) && env_name_chars true s.
Definition ValidEnvName (s : string) : bool := isEnvName s.

(** [strings.IndexByte]. *)
Fixpoint IndexByte (s : string) (c : ascii) : option nat :=
  match s with
  | EmptyString => None
  | String d s' => if Ascii.eqb d c then Some 0 else S <$> IndexByte s' c
  end.

Definition isEnvAssign (s : string) : bool :=
  match IndexByte s "=" with
  | None | Some 0 => false
  | Some eq => env_name_chars true (take_string eq s)
  end.

Definition formatEnvAssign (s : string) : string :=
  match IndexByte s "=" with
  | None | Some 0 => ShellQuote s
  | Some eq => take_string eq s +:+ "=" +:+ ShellQuote (drop_string (eq + 1) s)
  end.

(** [envEnd]: the leading assignments, leaving at least one word for the command. *)
Fixpoint env_end (parts : list string) : nat :=
  match parts with
  | p :: (_ :: _) as rest => if isEnvAssign p then S (env_end rest) else 0
  | _ => 0
  end.

Definition JoinRemoteCommand (parts : list string) (raw : bool) : string :=
  match parts with
  | [] => ""
  | _ =>
      if raw || (length parts =? 1) then Join parts " "
      else
        let envEnd := env_end parts in
        Join ((formatEnvAssign <$> take envEnd parts) ++ (ShellQuote <$> drop envEnd parts)) " "
  end.

Definition JoinRemoteArgv (parts : list string) : string := Join (ShellQuote <$> parts) " ".

(** [strings.LastIndex] of a character. *)
Fixpoint LastIndexByte (s : string) (c : ascii) : option nat :=
  match s with
  | EmptyString => None
  | String d s' =>
      match LastIndexByte s' c with
      | Some i => Some (S i)
      | None => if Ascii.eqb d c then Some 0 else None
      end
  end.

Definition RemoteParentDir (remotePath : string) : string :=
  let p := TrimRight remotePath "/" in
  if bool_decide (p = "" ∨ p = ".") then ""
  else match LastIndexByte p "/" with
       | None => ""
       | Some 0 => "/"
       | Some idx => take_string idx p
       end.

(** ** Secrets *)

Definition secret_keys (secrets : gmap string string) : list string :=
  sort_strings (elements (dom secrets)).

(** One assignment for each secret with a valid name, in the order of the names. *)
Fixpoint write_assigns (before after : string) (secrets : gmap string string) (keys : list string) (cmd : string) :
    string :=
  match keys with
  | [] => cmd
  | k :: keys' =>
      if negb (isEnvName k) then write_assigns before after secrets keys' cmd
      else before +:+ k +:+ "=" +:+ ShellQuote (default "" (secrets !! k)) +:+ after
           +:+ write_assigns before after secrets keys' cmd
  end.

Definition BuildRemoteCommand (cmd : string) (secrets : gmap string string) : string :=
  if bool_decide (secrets = ∅) then cmd else write_assigns "" " " secrets (secret_keys secrets) cmd.

Definition BuildScriptRemoteCommand (cmd : string) (secrets : gmap string string) : string :=
  if bool_decide (secrets = ∅) then cmd else write_assigns "export " "; " secrets (secret_keys secrets) cmd.

(** [order] is the order in which the map is iterated; values of equal length keep
    some order that depends on it. *)
Definition redact_secret (out value : string) : string :=
  let out := ReplaceAll out (ShellQuote value) (squote +:+ "***" +:+ squote) in
  if 4 <=? String.length value then ReplaceAll out value "***" else out.

Definition RedactSecrets (s : string) (order : list string) : string :=
  if bool_decide (s = "") || bool_decide (order = []) then s
  else fold_left redact_secret (sort_longest (filter (λ v, v ≠ "") order)) s.

(** [secretValues], in some order of the map. *)
Definition secretValues (secrets : gmap string string) : list string := (map_to_list secrets).*2.

Definition runSensitiveValues (values : list string) (input : string) : list string :=
  if bool_decide (input = "") then values
  else
    let lines := (λ line, TrimSuffix line (String (char 13) "")) <$> Split (char 10) input in
    values ++ [input] ++ filter (λ line, line ≠ "") lines.

(** ** Risk *)

Section Risk.
Context `{!UnicodeCase}.

Definition dangerous : list string :=
  ["rm -rf /"; "mkfs"; "dd if="; "shutdown"; "reboot"; "poweroff"; "userdel"; "passwd "; "> /dev/sd";
   "curl | sh"; "curl|sh"; "wget | sh"].

Definition AssessRisk (cmd : string) : string :=
  let low := ToLower cmd in
  if existsb (Contains low) dangerous then "high"
  else if Contains low "rm " || Contains low "dd " || Contains low "chmod 777" || Contains low "iptables"
  then "medium" else "low".
End Risk.

(** ** Scripts carried over SSH stdin ([ssh/script.go])

    A script is normalized, its interpreter chosen and checked, and the exec request
    is a fixed runner; the body itself only travels over stdin. *)

Definition MaxScriptBytes : Z := Z.shiftl 16 20.

Record ScriptSpec := mkScriptSpec {
  ss_Label : string;
  ss_Body : string;
  ss_Interpreter : string;
  ss_Args : list string;
  ss_NonShell : bool;
  ss_Launcher : string;
}.

Record ParsedInterpreter := mkParsed { pi_Program : string; pi_Launcher : string; pi_Shell : bool }.

(** ** Go's library *)

(** How many bytes the white space at the front of [s] takes: its first rune only. *)
Definition space_length (s : string) : nat :=
  match strip_any unicode_spaces s with Some r => String.length s - String.length r | None => 0 end.

Definition flush_field (field : option string) (fields : list string) : list string :=
  match field with Some f => f :: fields | None => fields end.

(** [strings.Fields]. *)
Fixpoint fields_from (skip : nat) (field : option string) (s : string) : list string :=
  match s, skip with
  | EmptyString, _ => flush_field field []
  | String _ s', S n => fields_from n field s'
  | String c s', O =>
      match space_length s with
      | O => fields_from 0 (Some (default "" field +:+ String c "")) s'
      | S n => flush_field field (fields_from n None s')
      end
  end.
Definition Fields (s : string) : list string := fields_from 0 None s.

(** [path.Base]. *)
Definition Base (s : string) : string :=
  if bool_decide (s = "") then "."
  else
    let b := after_last "/" (TrimRight s "/") in
    if bool_decide (b = "") then "/" else b.

(** ** Interpreters *)

Definition isSupportedScriptShell (shell : string) : bool :=
  bool_decide (shell ∈ ["sh"; "bash"; "dash"; "ash"; "ksh"; "zsh"]).

Definition interpreter_char (c : ascii) : bool :=
  is_lower c || is_upper c || is_digit c || contains_char c "_.+-/".

Definition starts_with (chars : string) (s : string) : bool :=
  match s with String c _ => contains_char c chars | EmptyString => false end.

Definition validInterpreterProgram (program : string) : bool :=
  if bool_decide (program = "") || (255 <? String.length program) then false
  else if negb (string_forall interpreter_char program) then false
  else if HasPrefix program "/" then
    negb (HasSuffix program "/") && forallb (λ seg, negb (bool_decide (seg = ".."))) (Split "/" program)
  else negb (Contains program "/") && negb (starts_with "-." program).

Section Script.
Context `{!UnicodeCase}.

Definition unsupported_arguments (value : string) : goerror :=
  Errorf ("invalid --interpreter " +:+ Quote value
    +:+ ": give one program name or absolute path, or env <name>; interpreter arguments are not supported").
Definition invalid_program (value : string) : goerror :=
  Errorf ("invalid --interpreter " +:+ Quote value
    +:+ ": use a plain program name (letters, digits, _ . + -) or an absolute path without shell metacharacters").

Definition ParseInterpreter (value : string) : result ParsedInterpreter :=
  let '(launcher, fields) :=
    match Fields value with
    | [f0; f1] =>
        if bool_decide (f0 = "env" ∨ f0 = "/usr/bin/env") then (f0, [f1]) else ("", [f0; f1])
    | fields => ("", fields)
    end in
  match fields with
  | [program] =>
      if ContainsAny value (string_of_codes [0; 13; 10; 9]%N) then Fail (unsupported_arguments value)
      else if bool_decide (program = "auto" ∧ launcher = "") then Ok (mkParsed "auto" "" true)
      else if bool_decide (program = "auto") || negb (validInterpreterProgram program)
      then Fail (invalid_program value)
      else if isSupportedScriptShell (Base program) then Ok (mkParsed program "" true)
      else Ok (mkParsed program launcher false)
  | _ => Fail (unsupported_arguments value)
  end.

Definition unsupported_shell (requested : string) : goerror :=
  Errorf ("unsupported --shell " +:+ Quote requested +:+ " (use auto, sh, bash, dash, ash, ksh, or zsh)").
Definition unsupported_shebang (name suggest : string) : goerror :=
  Errorf ("script shebang interpreter " +:+ Quote name
    +:+ " is not a supported shell (sh, bash, dash, ash, ksh, zsh); add --interpreter " +:+ suggest
    +:+ " to run it with that interpreter").

Fixpoint skip_options (fields : list string) : list string :=
  match fields with
  | f :: fields' => if HasPrefix f "-" then skip_options fields' else fields
  | [] => []
  end.

Definition check_shebang_shell (name : string) : result string :=
  if isSupportedScriptShell name then Ok name
  else Fail (unsupported_shebang name
    (if validInterpreterProgram name && negb (Contains name "/") then name else "<program>")).

Definition first_line (body : string) : string :=
  match IndexByte body (char 10) with Some i => take_string i body | None => body end.

Definition ResolveScriptShell (body requested : string) : result string :=
  let requested := TrimSpace requested in
  if bool_decide (requested ≠ "" ∧ requested ≠ "auto") then
    if isSupportedScriptShell requested then Ok requested else Fail (unsupported_shell requested)
  else
    let firstLine := first_line body in
    if negb (HasPrefix firstLine "#!") then Ok "sh"
    else
      match Fields (TrimSpace (TrimPrefix firstLine "#!")) with
      | [] => Ok "sh"
      | f :: fields =>
          if bool_decide (Base f = "env") then
            match skip_options fields with
            | [] => Fail (Errorf "script shebang does not name an interpreter")
            | g :: _ => check_shebang_shell (Base g)
            end
          else check_shebang_shell (Base f)
      end.

(** ** Preparation *)

Definition utf8_bom : string := string_of_codes [239; 187; 191]%N.
Definition NUL : ascii := char 0.
Definition CR : string := String (char 13) "".
Definition LF : string := String (char 10) "".

Definition normalize_lines (data : string) : string :=
  ReplaceAll (ReplaceAll data (CR +:+ LF) LF) CR LF.

Definition end_with_newline (body : string) : string :=
  if HasSuffix body LF then body else body +:+ LF.

(** The interpreter, its launcher, and whether it is no shell. *)
Definition choose_interpreter (body requestedShell interpreter : string) : result (string * string * bool) :=
  let requestedShell := TrimSpace requestedShell in
  let interpreter := TrimSpace interpreter in
  if bool_decide (interpreter ≠ "" ∧ requestedShell ≠ "" ∧ requestedShell ≠ interpreter)
  then Fail (Errorf "use only one of --shell and --interpreter")
  else if bool_decide (interpreter = "") then
    shell ← ResolveScriptShell body requestedShell; Ok (shell, "", false)
  else
    parsed ← ParseInterpreter interpreter;
    if pi_Shell parsed then
      let request :=
        if negb (bool_decide (pi_Program parsed = "auto")) && negb (isSupportedScriptShell (pi_Program parsed))
        then Base (pi_Program parsed) else pi_Program parsed in
      shell ← ResolveScriptShell body request;
      Ok (if bool_decide (request ≠ pi_Program parsed) then pi_Program parsed else shell, "", false)
    else Ok (pi_Program parsed, pi_Launcher parsed, true).

Definition PrepareScriptWithInterpreter (label data requestedShell interpreter : string) (args : list string) :
    result ScriptSpec :=
  _ ← check (bool_decide (Z.of_nat (String.length data) ≤ MaxScriptBytes)%Z) (Errorf "script exceeds the limit");
  let data := TrimPrefix data utf8_bom in
  _ ← check (negb (contains_char NUL data)) (Errorf "script contains a NUL byte");
  let body := normalize_lines data in
  _ ← check (negb (bool_decide (TrimSpace body = ""))) (Errorf "script is empty");
  let body := end_with_newline body in
  _ ← check (forallb (λ arg, negb (contains_char NUL arg)) args) (Errorf "script argument contains a NUL byte");
  '(program, launcher, nonShell) ← choose_interpreter body requestedShell interpreter;
  Ok (mkScriptSpec (if bool_decide (label = "") then "<stdin>" else label) body program args nonShell launcher).

Definition PrepareScript (label data requestedShell : string) (args : list string) : result ScriptSpec :=
  PrepareScriptWithInterpreter label data requestedShell "" args.

(** ** The runner *)

Definition runner_words (spec : ScriptSpec) : list string :=
  (if ss_NonShell spec then
     (if bool_decide (ss_Launcher spec = "") then [] else [ss_Launcher spec]) ++ [ss_Interpreter spec; "-"]
   else [ss_Interpreter spec; "-s"; "--"])
  ++ ss_Args spec.

(** The text both runners share around the command they [exec]. *)
Definition runner_line (interpreter : string) (words : list string) : string :=
  "command -v " +:+ ShellQuote interpreter +:+ " >/dev/null 2>&1 || { printf '%s\n' "
  +:+ ShellQuote (InterpreterNotFoundDiagnostic interpreter)
  +:+ " >&2; exit 127; }; exec " +:+ JoinRemoteArgv words.

Definition BuildScriptRunner (spec : ScriptSpec) : string :=
  runner_line (ss_Interpreter spec) (runner_words spec).

Definition BuildScriptSyntaxRunner (spec : ScriptSpec) : result string :=
  if ss_NonShell spec
  then Fail (Errorf ("syntax preflight only supports shell interpreters, not " +:+ Quote (ss_Interpreter spec)))
  else Ok (runner_line (ss_Interpreter spec) [ss_Interpreter spec; "-n"; "-s"; "--"]).
End Script.

Definition ScriptDigest `{!Sha256} (body : string) : string := hex_encode (sha256 (bytes_of_string body)).
