(* ===== verification/PosixShell.v ===== *)
(** * How a POSIX shell splits a command line

    The reference the quoting is judged against: token recognition and quoting of the
    Shell Command Language (XCU 2.2 and 2.3), without expansions, escapes, comments and
    here-documents. A text that uses any of those has no tokens here, so a theorem that
    a text has certain tokens also says that it contains nothing to expand. *)

From Stdlib Require Import Ascii.
From S2P Require Import Prelude GoStrings Redaction RemoteCommand.

(** A character of a word, and whether it was quoted. *)
Abbreviation word := (list (ascii * bool)).

Inductive token :=
  | Word (w : word)
  | IONumber (n : string)
  | Op (o : string).

#[export] Instance token_eq_dec : EqDecision token.
Proof. solve_decision. Defined.

Inductive quoting := Unquoted | Single | Double.

Definition shell_NUL : ascii := char 0.
Definition newline : ascii := char 10.
Definition tab : ascii := char 9.

(** The characters that are themselves when not quoted. *)
Definition plain_char (c : ascii) : bool := is_alpha c || is_digit c || contains_char c "_-./=+:,@%{}^".

Fixpoint word_text (w : word) : string :=
  match w with (c, _) :: w' => String c (word_text w') | [] => "" end.
Definition quoted_word (s : string) : word := (λ c, (c, true)) <$> String.list_ascii_of_string s.
Definition plain_word (s : string) : word := (λ c, (c, false)) <$> String.list_ascii_of_string s.

Definition flush (cur : option word) (ts : list token) : list token :=
  match cur with Some w => Word w :: ts | None => ts end.

(** A word of digits just before a redirection is the number of the file. *)
Definition flush_io (cur : option word) (ts : list token) : list token :=
  match cur with
  | Some w => if forallb (λ x, negb x.2 && is_digit x.1) w && (0 <? length w)
              then IONumber (word_text w) :: ts else Word w :: ts
  | None => ts
  end.

Definition extend (cur : option word) (c : ascii) (quoted : bool) : option word :=
  Some (default [] cur ++ [(c, quoted)]).

Fixpoint tokens (m : quoting) (cur : option word) (s : string) : option (list token) :=
  match s with
  | EmptyString => match m with Unquoted => Some (flush cur []) | _ => None end
  | String c s' =>
      match m with
      | Single =>
          if Ascii.eqb c squote_char then tokens Unquoted cur s'
          else if Ascii.eqb c shell_NUL then None
          else tokens Single (extend cur c true) s'
      | Double =>
          if Ascii.eqb c dquote_char then tokens Unquoted cur s'
          else if contains_char c (String shell_NUL "$`\") then None
          else tokens Double (extend cur c true) s'
      | Unquoted =>
          if Ascii.eqb c squote_char then tokens Single (Some (default [] cur)) s'
          else if Ascii.eqb c dquote_char then tokens Double (Some (default [] cur)) s'
          else if Ascii.eqb c " " || Ascii.eqb c tab then flush cur <$> tokens Unquoted None s'
          else if Ascii.eqb c newline then (λ ts, flush cur (Op (String newline "") :: ts)) <$> tokens Unquoted None s'
          else if Ascii.eqb c ";" then
            match s' with
            | String ";" _ => None
            | _ => (λ ts, flush cur (Op ";" :: ts)) <$> tokens Unquoted None s'
            end
          else if Ascii.eqb c "|" then
            match s' with
            | String "|" s'' => (λ ts, flush cur (Op "||" :: ts)) <$> tokens Unquoted None s''
            | _ => (λ ts, flush cur (Op "|" :: ts)) <$> tokens Unquoted None s'
            end
          else if Ascii.eqb c "&" then
            match s' with
            | String "&" s'' => (λ ts, flush cur (Op "&&" :: ts)) <$> tokens Unquoted None s''
            | _ => (λ ts, flush cur (Op "&" :: ts)) <$> tokens Unquoted None s'
            end
          else if Ascii.eqb c ">" then
            match s' with
            | String "&" s'' => (λ ts, flush_io cur (Op ">&" :: ts)) <$> tokens Unquoted None s''
            | String ">" _ | String "|" _ => None
            | _ => (λ ts, flush_io cur (Op ">" :: ts)) <$> tokens Unquoted None s'
            end
          else if plain_char c then tokens Unquoted (extend cur c false) s'
          else None
      end
  end.

(** ** Simple commands *)

(** An assignment word: an unquoted name and an unquoted [=] at its front. *)
Fixpoint split_assign (first : bool) (w : word) : option (string * string) :=
  match w with
  | (c, false) :: w' =>
      if Ascii.eqb c "=" then if first then None else Some ("", word_text w')
      else if is_alpha c || Ascii.eqb c "_" || (negb first && is_digit c)
      then prod_map (String c) id <$> split_assign false w'
      else None
  | _ => None
  end.

Definition reserved_words : list string :=
  ["!"; "{"; "}"; "case"; "do"; "done"; "elif"; "else"; "esac"; "fi"; "for"; "if"; "in"; "then"; "until"; "while"].

Definition is_reserved (w : word) : bool :=
  forallb (λ x, negb x.2) w && bool_decide (word_text w ∈ reserved_words).

(** The assignments of a simple command and its other words. *)
Fixpoint cut_assigns (ws : list word) : list (string * string) * list string :=
  match ws with
  | w :: ws' =>
      match split_assign true w with
      | Some a => let '(assigns, args) := cut_assigns ws' in (a :: assigns, args)
      | None => ([], word_text <$> ws)
      end
  | [] => ([], [])
  end.

Fixpoint words_only (ts : list token) : option (list word) :=
  match ts with
  | [] => Some []
  | Word w :: ts' => cons w <$> words_only ts'
  | _ => None
  end.

(** The assignments and the words a simple command is executed with. *)
Definition simple_command (s : string) : option (list (string * string) * list string) :=
  ts ← tokens Unquoted None s;
  ws ← words_only ts;
  match ws with
  | w :: _ => if is_reserved w then None else Some (cut_assigns ws)
  | [] => Some ([], [])
  end.
