(* ===== verification/ShellQuoting.v ===== *)
(** * Command lines reach the remote program word for word

    Read by a POSIX shell, a quoted argument vector is that vector, the assignments of
    the secrets are those assignments, and the runner of a script has one shape whatever
    the interpreter and the arguments are: nothing given to ssm is ever read as shell
    syntax. What is shown of a command line contains no secret. *)

From Stdlib Require Import Ascii.
From S2P Require Import Prelude GoStrings GoStringFacts GoErrors GoRegexp ValueStream ValueStreamFacts Redaction RedactionFacts MachineContract SyncProtocol RemoteCommand PosixShell.

(** ** One quoted word *)

Definition no_NUL (s : string) : bool := negb (contains_char shell_NUL s).

Lemma no_NUL_cons c s : no_NUL (String c s) = negb (Ascii.eqb c shell_NUL) && no_NUL s.
Proof. unfold no_NUL. cbn [contains_char]. by rewrite negb_orb, Ascii.eqb_sym. Qed.

Lemma word_text_app v w : word_text (v ++ w) = word_text v +:+ word_text w.
Proof. induction v as [|[c b] v IH]; [done|]. cbn [app word_text]. by rewrite IH. Qed.

Lemma word_text_quoted s : word_text (quoted_word s) = s.
Proof. unfold quoted_word. induction s as [|c s IH]; [done|]. cbn. by f_equal. Qed.

Lemma word_text_plain s : word_text (plain_word s) = s.
Proof. unfold plain_word. induction s as [|c s IH]; [done|]. cbn. by f_equal. Qed.

Lemma tokens_quoted_quote w t :
  tokens Single (Some w) (quoted_quote +:+ t) = tokens Single (Some (w ++ [(squote_char, true)])) t.
Proof. reflexivity. Qed.

(** Inside of single quotes, with every single quote written as [quoted_quote]. *)
Lemma tokens_single_body w s rest :
  no_NUL s = true →
  tokens Single (Some w) (ReplaceAll s squote quoted_quote +:+ squote +:+ rest) =
    tokens Unquoted (Some (w ++ quoted_word s)) rest.
Proof.
  revert w. induction s as [|c s IH]; intros w Hs.
  - cbn. by rewrite app_nil_r.
  - rewrite no_NUL_cons in Hs. bool_to_prop. unfold ReplaceAll. cbn [replace_from].
    assert (HasPrefix (String c s) squote = Ascii.eqb squote_char c) as ->.
    { unfold squote. by rewrite HasPrefix_cons, HasPrefix_nil, andb_true_r. }
    rewrite Ascii.eqb_sym. destruct (Ascii.eqb_spec c squote_char) as [->|Hc].
    + change (String.length squote - 1) with 0. fold (ReplaceAll s squote quoted_quote).
      rewrite <- str_app_assoc, tokens_quoted_quote, IH by done. by rewrite <- (assoc_L (++)).
    + fold (ReplaceAll s squote quoted_quote). rewrite app_cons. cbn [tokens].
      rewrite (proj2 (Ascii.eqb_neq _ _) Hc), H. cbn [extend default]. unfold extend. cbn [default].
      rewrite IH by done. by rewrite <- (assoc_L (++)).
Qed.

Lemma tokens_ShellQuote cur s rest :
  no_NUL s = true →
  tokens Unquoted cur (ShellQuote s +:+ rest) = tokens Unquoted (Some (default [] cur ++ quoted_word s)) rest.
Proof.
  intros Hs. unfold ShellQuote. case_bool_decide as He.
  - subst s. cbn. by rewrite app_nil_r.
  - rewrite <- !str_app_assoc. change (squote +:+ ?t) with (String squote_char t) at 1.
    change (tokens Unquoted cur (String squote_char ?t)) with (tokens Single (Some (default [] cur)) t).
    by apply tokens_single_body.
Qed.

(** ** Argument vectors *)

Definition quoted_tokens (parts : list string) : list token := (λ p, Word (quoted_word p)) <$> parts.

Lemma tokens_space cur rest : tokens Unquoted cur (String " " rest) = flush cur <$> tokens Unquoted None rest.
Proof. reflexivity. Qed.

Lemma Join_cons p ps sep : ps ≠ [] → Join (p :: ps) sep = p +:+ sep +:+ Join ps sep.
Proof. by destruct ps. Qed.

Lemma tokens_JoinRemoteArgv parts :
  forallb no_NUL parts = true → tokens Unquoted None (JoinRemoteArgv parts) = Some (quoted_tokens parts).
Proof.
  unfold JoinRemoteArgv. induction parts as [|p parts IH]; [done|]. cbn [forallb]. intros [Hp Hps]%andb_true_iff.
  specialize (IH Hps). destruct parts as [|q parts].
  - cbn [fmap list_fmap Join]. rewrite <- (str_app_nil_r (ShellQuote p)), tokens_ShellQuote by done. done.
  - rewrite fmap_cons, Join_cons, tokens_ShellQuote by done. change (" " +:+ ?t) with (String " " t).
    rewrite tokens_space, IH. done.
Qed.

Lemma words_only_words (ws : list word) : words_only (Word <$> ws) = Some ws.
Proof. induction ws as [|w ws IH]; [done|]. cbn [fmap list_fmap words_only]. by rewrite IH. Qed.

Lemma quoted_not_assign p first : split_assign first (quoted_word p) = None.
Proof. by destruct p. Qed.

Lemma quoted_not_reserved p : is_reserved (quoted_word p) = false.
Proof. by destruct p. Qed.

Lemma cut_assigns_quoted parts : cut_assigns (quoted_word <$> parts) = ([], parts).
Proof.
  assert (word_text <$> (quoted_word <$> parts) = parts) as Htext.
  { rewrite <- list_fmap_compose. rewrite <- (list_fmap_id parts) at 2. apply list_fmap_ext.
    intros ? p _. apply word_text_quoted. }
  destruct parts as [|p parts]; [done|]. cbn [fmap list_fmap cut_assigns]. rewrite quoted_not_assign.
  f_equal. exact Htext.
Qed.

(** ** Assignments *)

Definition assign_word (name value : string) : word := plain_word (name +:+ "=") ++ quoted_word value.

Lemma env_name_chars_plain first s : env_name_chars first s = true → string_forall plain_char s = true.
Proof.
  revert first. induction s as [|c s IH]; intros first; [done|]. cbn [env_name_chars string_forall].
  intros [Hc Hs]%andb_true_iff. rewrite (IH _ Hs), andb_true_r. unfold plain_char, is_alpha.
  destruct (is_upper c), (is_lower c), (is_digit c); try done. rewrite andb_false_r, orb_false_r in Hc.
  cbn in Hc |- *. apply Ascii.eqb_eq in Hc as ->. done.
Qed.

Lemma tokens_plain_char cur c s :
  plain_char c = true → tokens Unquoted cur (String c s) = tokens Unquoted (extend cur c false) s.
Proof.
  intros Hc. cbn [tokens]. rewrite Hc.
  destruct (Ascii.eqb_spec c squote_char) as [->|_]; [done|].
  destruct (Ascii.eqb_spec c dquote_char) as [->|_]; [done|].
  destruct (Ascii.eqb_spec c " ") as [->|_]; [done|]. destruct (Ascii.eqb_spec c tab) as [->|_]; [done|].
  destruct (Ascii.eqb_spec c newline) as [->|_]; [done|]. destruct (Ascii.eqb_spec c ";") as [->|_]; [done|].
  destruct (Ascii.eqb_spec c "|") as [->|_]; [done|]. destruct (Ascii.eqb_spec c "&") as [->|_]; [done|].
  destruct (Ascii.eqb_spec c ">") as [->|_]; done.
Qed.

Lemma tokens_plain_word w s rest :
  string_forall plain_char s = true →
  tokens Unquoted (Some w) (s +:+ rest) = tokens Unquoted (Some (w ++ plain_word s)) rest.
Proof.
  revert w. induction s as [|c s IH]; intros w; cbn [string_forall].
  - intros _. unfold plain_word. cbn. by rewrite app_nil_r.
  - intros [Hc Hs]%andb_true_iff. rewrite app_cons, tokens_plain_char by done.
    unfold extend. cbn [default]. rewrite IH by done. by rewrite <- (assoc_L (++)).
Qed.

Lemma plain_word_app s t : plain_word (s +:+ t) = plain_word s ++ plain_word t.
Proof. unfold plain_word. induction s as [|c s IH]; [done|]. rewrite app_cons. cbn. by rewrite IH. Qed.

Lemma tokens_assignment name value rest :
  isEnvName name = true → no_NUL value = true →
  tokens Unquoted None (name +:+ "=" +:+ ShellQuote value +:+ rest) =
    tokens Unquoted (Some (assign_word name value)) rest.
Proof.
  unfold isEnvName. intros [Hne Hn]%andb_true_iff Hv. apply env_name_chars_plain in Hn.
  destruct name as [|c name]; [done|]. cbn [string_forall] in Hn.
  apply andb_true_iff in Hn as [Hc Hn]. rewrite app_cons, tokens_plain_char by done. unfold extend. cbn [default].
  rewrite tokens_plain_word by done. change ("=" +:+ ?t) with (String "=" t).
  rewrite tokens_plain_char by done. unfold extend. cbn [default]. rewrite tokens_ShellQuote by done. cbn [default].
  unfold assign_word. rewrite plain_word_app. change (plain_word (String c name)) with ((c, false) :: plain_word name).
  cbn [app]. done.
Qed.

Lemma split_name_plain first name value :
  env_name_chars first name = true → (first = true → name ≠ "") →
  split_assign first (plain_word (name +:+ "=") ++ quoted_word value) = Some (name, value).
Proof.
  revert first. induction name as [|c name IH]; intros first Hn Hne.
  - destruct first; [by destruct Hne|].
    change (Some ("", word_text (quoted_word value)) = Some ("", value)). by rewrite word_text_quoted.
  - cbn [env_name_chars] in Hn. apply andb_true_iff in Hn as [Hc Hn].
    rewrite app_cons. change (plain_word (String c ?s)) with ((c, false) :: plain_word s). cbn [app split_assign].
    destruct (Ascii.eqb_spec c "=") as [->|_]; [by destruct first|].
    unfold is_alpha. rewrite Hc. rewrite IH by done. done.
Qed.

Lemma split_assign_word name value :
  isEnvName name = true → split_assign true (assign_word name value) = Some (name, value).
Proof.
  unfold isEnvName. intros [Hne Hn]%andb_true_iff. apply split_name_plain; [done|]. intros _. by bool_to_prop.
Qed.

Lemma assign_not_reserved name value : is_reserved (assign_word name value) = false.
Proof.
  unfold is_reserved, assign_word. apply andb_false_iff. right. apply bool_decide_eq_false_2.
  rewrite word_text_app, word_text_plain, word_text_quoted. intros Hin.
  assert (∀ n, contains_char "=" ((n +:+ "=") +:+ value) = true) as Heq.
  { clear. intros n. induction n as [|c n IH]; [done|]. rewrite !app_cons. cbn [contains_char]. rewrite IH.
    apply orb_true_r. }
  specialize (Heq name). revert Hin Heq. generalize ((name +:+ "=") +:+ value).
  intros t Hin. unfold reserved_words in Hin. rewrite !elem_of_cons, elem_of_nil in Hin.
  destruct_or! Hin; subst; done.
Qed.

(** [p] written as an assignment. *)
Definition assignment_text (a : string * string) : string := a.1 +:+ "=" +:+ a.2.

Lemma IndexByte_Some s c i :
  IndexByte s c = Some i → s = take_string i s +:+ String c "" +:+ drop_string (i + 1) s.
Proof.
  revert i. induction s as [|d s IH]; intros i; [done|]. cbn [IndexByte].
  destruct (Ascii.eqb_spec d c) as [->|_]; [by intros [= <-]|].
  destruct (IndexByte s c) as [j|]; [|done]. intros [= <-]. cbn [take_string drop_string Nat.add].
  rewrite app_cons. f_equal. by apply IH.
Qed.

Lemma isEnvAssign_inv p :
  isEnvAssign p = true →
  ∃ a, p = assignment_text a ∧ isEnvName a.1 = true ∧ formatEnvAssign p = a.1 +:+ "=" +:+ ShellQuote a.2.
Proof.
  unfold isEnvAssign, formatEnvAssign. destruct (IndexByte p "=") as [[|i]|] eqn:Hi; [done| |done]. intros Hn.
  exists (take_string (S i) p, drop_string (S i + 1) p). split; [by apply IndexByte_Some in Hi|]. cbn [fst snd].
  split; [|done]. unfold isEnvName. rewrite Hn, andb_true_r. destruct p; [done|]. apply negb_true_iff.
  by apply bool_decide_eq_false_2.
Qed.

Lemma no_NUL_app s t : no_NUL (s +:+ t) = no_NUL s && no_NUL t.
Proof.
  induction s as [|c s IH]; [done|]. rewrite app_cons, !no_NUL_cons, IH. apply andb_assoc.
Qed.

Definition assign_tokens (assigns : list (string * string)) : list token :=
  (λ a, Word (assign_word a.1 a.2)) <$> assigns.

(** How [env_end] divides an argument vector. *)
Lemma env_end_divides parts :
  parts ≠ [] →
  ∃ assigns args,
    take (env_end parts) parts = assignment_text <$> assigns ∧ drop (env_end parts) parts = args ∧ args ≠ [] ∧
    Forall (λ a, isEnvName a.1 = true) assigns ∧
    (formatEnvAssign <$> take (env_end parts) parts) = ((λ a, a.1 +:+ "=" +:+ ShellQuote a.2) <$> assigns) ∧
    (∀ p q rest, args = p :: q :: rest → isEnvAssign p = false).
Proof.
  induction parts as [|p parts IH]; [done|]. intros _. destruct parts as [|q parts];
    [|change (env_end (p :: q :: parts)) with (if isEnvAssign p then S (env_end (q :: parts)) else 0)].
  - exists [], [p]. by repeat split.
  - destruct (isEnvAssign p) eqn:Hp; cbn [take drop].
    + destruct IH as (assigns & args & Ht & Hd & Hne & Hn & Hf & Hstop); [done|].
      apply isEnvAssign_inv in Hp as (a & -> & Ha & Hformat).
      exists (a :: assigns), args. rewrite !fmap_cons, Ht, Hformat. rewrite Ht in Hf. rewrite Hf.
      repeat split; try done. by constructor.
    + exists [], (p :: q :: parts). repeat split; try done. by intros ? ? ? [= <- _ _].
Qed.

Lemma tokens_joined assigns args :
  Forall (λ a, isEnvName a.1 = true) assigns → forallb no_NUL (assigns.*2) = true → forallb no_NUL args = true →
  args ≠ [] →
  tokens Unquoted None (Join (((λ a, a.1 +:+ "=" +:+ ShellQuote a.2) <$> assigns) ++ (ShellQuote <$> args)) " ") =
    Some (assign_tokens assigns ++ quoted_tokens args).
Proof.
  intros Hn Hv Ha Hne. induction assigns as [|[name value] assigns IH].
  - by apply tokens_JoinRemoteArgv.
  - apply Forall_cons in Hn as [Hname Hn]. cbn in Hname, Hv. apply andb_true_iff in Hv as [Hvalue Hv].
    specialize (IH Hn Hv). rewrite fmap_cons. cbn [app]. 
    rewrite Join_cons by by (intros [_ Hnil%fmap_nil_inv]%app_eq_nil).
    cbn [fst snd]. rewrite <- !str_app_assoc, tokens_assignment by done. change (" " +:+ ?t) with (String " " t).
    rewrite tokens_space, IH. done.
Qed.

Lemma cut_assigns_app assigns args :
  Forall (λ a, isEnvName a.1 = true) assigns →
  cut_assigns (((λ a, assign_word a.1 a.2) <$> assigns) ++ args) = prod_map (app assigns) id (cut_assigns args).
Proof.
  induction 1 as [|[name value] assigns Hname _ IH]; [cbn [fmap list_fmap app]; by destruct (cut_assigns args) as [? ?]|].
  rewrite fmap_cons. cbn [app cut_assigns fst snd] in *. rewrite split_assign_word, IH by done.
  by destruct (cut_assigns args).
Qed.

(** The simple command of a text that begins with some assignments. *)
Lemma simple_command_tokens s assigns ws :
  tokens Unquoted None s = Some (assign_tokens assigns ++ (Word <$> ws)) →
  Forall (λ a, isEnvName a.1 = true) assigns →
  match ws with w :: _ => assigns = [] → is_reserved w = false | [] => True end →
  simple_command s = Some (prod_map (app assigns) id (cut_assigns ws)).
Proof.
  unfold simple_command, assign_tokens. intros -> Hn Hw. cbn [mbind option_bind].
  replace ((λ a : string * string, Word (assign_word a.1 a.2)) <$> assigns)
    with (Word <$> ((λ a : string * string, assign_word a.1 a.2) <$> assigns)) by by rewrite <- list_fmap_compose.
  rewrite <- fmap_app, words_only_words. cbn [mbind option_bind]. rewrite cut_assigns_app by done.
  destruct assigns as [|a assigns]; [|by rewrite fmap_cons; cbn [app]; rewrite assign_not_reserved].
  cbn [fmap list_fmap app]. destruct ws as [|w ws]; [done|]. by rewrite Hw.
Qed.

(** C14: Joined words come back as they were given: the leading assignments as assignments
    of the same names and values, every other word as one word, and nothing in them is
    shell syntax. *)
Theorem joined_command_is_what_was_given parts :
  2 ≤ length parts → forallb no_NUL parts = true →
  ∃ assigns args,
    parts = (assignment_text <$> assigns) ++ args ∧ args ≠ [] ∧
    (∀ p q rest, args = p :: q :: rest → isEnvAssign p = false) ∧
    simple_command (JoinRemoteCommand parts false) = Some (assigns, args).
Proof.
  intros Hlen Hnul. destruct (env_end_divides parts) as (assigns & args & Ht & Hd & Hne & Hn & Hf & Hstop).
  { intros ->. cbn in Hlen. lia. }
  assert (parts = (assignment_text <$> assigns) ++ args) as Hparts by by rewrite <- Ht, <- Hd, take_drop.
  exists assigns, args. repeat split; [done..|].
  assert (JoinRemoteCommand parts false = Join (((λ a, a.1 +:+ "=" +:+ ShellQuote a.2) <$> assigns) ++ (ShellQuote <$> args)) " ") as ->.
  { unfold JoinRemoteCommand. destruct parts as [|p [|q parts]]; [done|cbn in Hlen; lia|].
    cbn [length Nat.eqb orb]. by rewrite Hf, Hd. }
  rewrite Hparts, forallb_app in Hnul. apply andb_true_iff in Hnul as [Hnul1 Hnul2].
  assert (forallb no_NUL (assigns.*2) = true) as Hvalues.
  { clear -Hnul1. induction assigns as [|[n v] assigns IH]; [done|]. cbn in Hnul1 |- *. unfold assignment_text in Hnul1.
    rewrite !no_NUL_app in Hnul1. bool_to_prop. cbn in *. by rewrite IH, andb_true_r. }
  erewrite (simple_command_tokens _ assigns (quoted_word <$> args)).
  - rewrite cut_assigns_quoted. cbn. by rewrite app_nil_r.
  - rewrite tokens_joined by done. unfold quoted_tokens. by rewrite <- list_fmap_compose.
  - done.
  - destruct args; [done|]. intros _. apply quoted_not_reserved.
Qed.

(** ** Secrets *)

Definition secret_assigns (secrets : gmap string string) (keys : list string) : list (string * string) :=
  (λ k, (k, default "" (secrets !! k))) <$> filter (λ k, isEnvName k = true) keys.

Definition export_tokens (assigns : list (string * string)) : list token :=
  assigns ≫= λ a, [Word (plain_word "export"); Word (assign_word a.1 a.2); Op ";"].

Definition no_NUL_values (secrets : gmap string string) : Prop := map_Forall (λ _ v, no_NUL v = true) secrets.

Lemma secret_value secrets k : no_NUL_values secrets → no_NUL (default "" (secrets !! k)) = true.
Proof. intros Hs. destruct (secrets !! k) as [v|] eqn:Hk; [by apply (Hs k)|done]. Qed.

Lemma secret_assigns_names secrets keys : Forall (λ a, isEnvName a.1 = true) (secret_assigns secrets keys).
Proof. apply Forall_fmap, Forall_forall. intros k Hk. by apply list_elem_of_filter in Hk as [? _]. Qed.

Lemma secret_assigns_cons secrets k keys :
  secret_assigns secrets (k :: keys) =
    (if isEnvName k then [(k, default "" (secrets !! k))] else []) ++ secret_assigns secrets keys.
Proof.
  unfold secret_assigns. destruct (isEnvName k) eqn:Hk; [by rewrite filter_cons_True|].
  by rewrite filter_cons_False by congruence.
Qed.

Lemma tokens_prefix_assigns secrets keys cmd ts :
  no_NUL_values secrets → tokens Unquoted None cmd = Some ts →
  tokens Unquoted None (write_assigns "" " " secrets keys cmd) = Some (assign_tokens (secret_assigns secrets keys) ++ ts).
Proof.
  intros Hs Hcmd. induction keys as [|k keys IH]; [done|]. cbn [write_assigns]. rewrite secret_assigns_cons.
  destruct (isEnvName k) eqn:Hk; cbn [negb]; [|done].
  rewrite app_nil, tokens_assignment by (done || by apply secret_value). change (" " +:+ ?t) with (String " " t).
  rewrite tokens_space, IH. done.
Qed.

Lemma tokens_export t :
  tokens Unquoted None ("export " +:+ t) = cons (Word (plain_word "export")) <$> tokens Unquoted None t.
Proof. reflexivity. Qed.

Lemma tokens_semicolon w t :
  tokens Unquoted (Some w) ("; " +:+ t) = (λ ts, Word w :: Op ";" :: ts) <$> tokens Unquoted None t.
Proof. change ("; " +:+ t) with (String ";" (String " " t)). cbn. by destruct (tokens Unquoted None t). Qed.

Lemma tokens_export_assigns secrets keys cmd ts :
  no_NUL_values secrets → tokens Unquoted None cmd = Some ts →
  tokens Unquoted None (write_assigns "export " "; " secrets keys cmd) =
    Some (export_tokens (secret_assigns secrets keys) ++ ts).
Proof.
  intros Hs Hcmd. induction keys as [|k keys IH]; [done|]. cbn [write_assigns]. rewrite secret_assigns_cons.
  destruct (isEnvName k) eqn:Hk; cbn [negb]; [|done].
  rewrite tokens_export, tokens_assignment by (done || by apply secret_value).
  rewrite tokens_semicolon, IH. done.
Qed.

Lemma secret_assigns_empty : secret_assigns ∅ (secret_keys ∅) = [].
Proof. reflexivity. Qed.

(** Secrets reach the remote side as environment assignments of exactly their values,
    in the order of their names, and change nothing else of the command. *)
Theorem secrets_become_assignments cmd secrets assigns args :
  no_NUL_values secrets → simple_command cmd = Some (assigns, args) →
  simple_command (BuildRemoteCommand cmd secrets) =
    Some (secret_assigns secrets (secret_keys secrets) ++ assigns, args).
Proof.
  intros Hs Hcmd. unfold BuildRemoteCommand. case_bool_decide as He; [by subst secrets|].
  unfold simple_command in Hcmd. destruct (tokens Unquoted None cmd) as [ts|] eqn:Hts; [|done].
  cbn [mbind option_bind] in Hcmd. destruct (words_only ts) as [ws|] eqn:Hws; [|done]. cbn [mbind option_bind] in Hcmd.
  assert (ts = Word <$> ws) as ->.
  { clear -Hws. revert ws Hws. induction ts as [|[w|n|o] ts IH]; intros ws; cbn [words_only]; try done.
    - by intros [= <-].
    - destruct (words_only ts) as [ws'|]; [|done]. intros [= <-]. cbn. by rewrite (IH ws'). }
  apply (tokens_prefix_assigns secrets (secret_keys secrets)) in Hts; [|done].
  rewrite (simple_command_tokens _ _ ws Hts (secret_assigns_names _ _)).
  - destruct ws as [|w ws]; [by simplify_eq/=|]. destruct (is_reserved w); [done|]. by simplify_eq/=; rewrite Hcmd.
  - destruct ws as [|w ws]; [done|]. intros _. by destruct (is_reserved w).
Qed.

(** ** Scripts *)

Definition plain_token (s : string) : token := Word (plain_word s).

(** What a POSIX shell reads in the runner of an interpreter: does the program exist; if
    not, say so and stop; otherwise become the program. *)
Definition runner_tokens (interpreter : string) (words : list string) : list token :=
  [plain_token "command"; plain_token "-v"; Word (quoted_word interpreter); Op ">"; plain_token "/dev/null";
   IONumber "2"; Op ">&"; plain_token "1"; Op "||"; plain_token "{"; plain_token "printf";
   Word (quoted_word "%s\n"); Word (quoted_word (InterpreterNotFoundDiagnostic interpreter)); Op ">&"; plain_token "2";
   Op ";"; plain_token "exit"; plain_token "127"; Op ";"; plain_token "}"; Op ";"; plain_token "exec"]
  ++ quoted_tokens words.

Lemma tokens_command t :
  tokens Unquoted None ("command -v " +:+ t) =
    (λ ts, plain_token "command" :: plain_token "-v" :: ts) <$> tokens Unquoted None t.
Proof. rewrite !app_cons, app_nil. cbn. by destruct (tokens Unquoted None t). Qed.

Lemma tokens_quiet w t :
  tokens Unquoted (Some w) (" >/dev/null 2>&1 || { printf '%s\n' " +:+ t) =
    (λ ts, [Word w; Op ">"; plain_token "/dev/null"; IONumber "2"; Op ">&"; plain_token "1"; Op "||"; plain_token "{";
      plain_token "printf"; Word (quoted_word "%s\n")] ++ ts) <$> tokens Unquoted None t.
Proof. rewrite !app_cons, app_nil. cbn. by destruct (tokens Unquoted None t). Qed.

Lemma tokens_exec w t :
  tokens Unquoted (Some w) (" >&2; exit 127; }; exec " +:+ t) =
    (λ ts, [Word w; Op ">&"; plain_token "2"; Op ";"; plain_token "exit"; plain_token "127"; Op ";"; plain_token "}";
      Op ";"; plain_token "exec"] ++ ts) <$> tokens Unquoted None t.
Proof. rewrite !app_cons, app_nil. cbn. by destruct (tokens Unquoted None t). Qed.

Lemma tokens_runner_line interpreter words :
  no_NUL interpreter = true → forallb no_NUL words = true →
  tokens Unquoted None (runner_line interpreter words) = Some (runner_tokens interpreter words).
Proof.
  intros Hi Hw. unfold runner_line.
  assert (no_NUL (InterpreterNotFoundDiagnostic interpreter) = true) as Hd.
  { unfold InterpreterNotFoundDiagnostic. by rewrite no_NUL_app, Hi. }
  rewrite tokens_command, tokens_ShellQuote by done. cbn [default].
  rewrite tokens_quiet, tokens_ShellQuote by done. cbn [default].
  rewrite tokens_exec, tokens_JoinRemoteArgv by done. done.
Qed.

(** *** Preparation *)


Lemma contains_char_app c s t : contains_char c (s +:+ t) = contains_char c s || contains_char c t.
Proof.
  induction s as [|d s IH]; [done|]. rewrite app_cons. cbn [contains_char]. by rewrite IH, orb_assoc.
Qed.

Lemma replace_keeps_out c old new k s :
  contains_char c new = false → contains_char c s = false → contains_char c (replace_from old new k s) = false.
Proof.
  intros Hnew. revert k. induction s as [|d s IH]; intros k; cbn [contains_char]; [by destruct k|].
  intros [Hd Hs]%orb_false_iff. destruct k as [|k]; cbn [replace_from]; [|by apply IH].
  destruct (HasPrefix (String d s) old); [by rewrite contains_char_app, Hnew, IH|].
  cbn [contains_char]. by rewrite Hd, IH.
Qed.

Lemma replace_char_gone c new s :
  contains_char c new = false → contains_char c (ReplaceAll s (String c "") new) = false.
Proof.
  intros Hnew. unfold ReplaceAll. induction s as [|d s IH]; [done|]. cbn [replace_from].
  rewrite HasPrefix_cons, HasPrefix_nil, andb_true_r. destruct (Ascii.eqb_spec c d) as [->|Hd].
  - change (String.length (String d "") - 1) with 0. by rewrite contains_char_app, Hnew, IH.
  - cbn [contains_char]. rewrite IH, orb_false_r. by apply Ascii.eqb_neq.
Qed.

Lemma supported_cases s : isSupportedScriptShell s = true → s ∈ ["sh"; "bash"; "dash"; "ash"; "ksh"; "zsh"].
Proof. apply bool_decide_eq_true_1. Qed.

Lemma supported_word s :
  isSupportedScriptShell s = true → string_forall interpreter_char s = true ∧ Base s = s.
Proof.
  intros Hs%supported_cases. rewrite !elem_of_cons, elem_of_nil in Hs.
  destruct_or! Hs; subst; by split; vm_compute.
Qed.

Lemma valid_program_word p : validInterpreterProgram p = true → string_forall interpreter_char p = true.
Proof. unfold validInterpreterProgram. case_match; [done|]. by case_match; bool_to_prop. Qed.

Lemma program_no_NUL s : string_forall interpreter_char s = true → no_NUL s = true.
Proof.
  induction s as [|c s IH]; [done|]. rewrite no_NUL_cons. cbn [string_forall]. intros [Hc Hs]%andb_true_iff.
  rewrite IH by done. by destruct (Ascii.eqb_spec c shell_NUL) as [->|_].
Qed.

Section Scripts.
Context `{!UnicodeCase}.

Lemma check_shebang_shell_Ok name s : check_shebang_shell name = Ok s → isSupportedScriptShell s = true.
Proof. unfold check_shebang_shell. case_match eqn:E; [|done]. by intros [= <-]. Qed.

Lemma ResolveScriptShell_Ok body requested s :
  ResolveScriptShell body requested = Ok s → isSupportedScriptShell s = true.
Proof.
  unfold ResolveScriptShell. case_bool_decide.
  - case_match; [|done]. by intros [= <-].
  - case_match; [by intros [= <-]|]. case_match; [by intros [= <-]|].
    case_bool_decide; [case_match; [done|]|]; apply check_shebang_shell_Ok.
Qed.

Lemma ParseInterpreter_Ok value p :
  ParseInterpreter value = Ok p →
  (pi_Program p = "auto" ∧ pi_Shell p = true) ∨
  (string_forall interpreter_char (pi_Program p) = true ∧ pi_Shell p = isSupportedScriptShell (Base (pi_Program p)) ∧
   pi_Launcher p ∈ [""; "env"; "/usr/bin/env"]).
Proof.
  unfold ParseInterpreter. set (lf := match Fields value with [f0; f1] => _ | fields => _ end).
  assert (lf.1 ∈ [""; "env"; "/usr/bin/env"]) as Hl.
  { subst lf. repeat case_match; simplify_eq/=; try set_solver. bool_to_prop.
    match goal with Hd : _ ∨ _ |- _ => destruct Hd as [->| ->]; set_solver end. }
  destruct lf as [launcher fields]. cbn in Hl. destruct fields as [|program [|]]; [done| |done].
  case_match; [done|]. case_bool_decide; [intros [= <-]; by left|].
  case_match eqn:Hv; [done|]. apply orb_false_iff in Hv as [_ Hv%negb_false_iff%valid_program_word].
  case_match eqn:Hsh; intros [= <-]; right; cbn; rewrite Hsh; set_solver.
Qed.

(** What the choice of an interpreter guarantees. *)
Definition interpreter_ok (program launcher : string) (nonShell : bool) : Prop :=
  string_forall interpreter_char program = true ∧
  launcher ∈ [""; "env"; "/usr/bin/env"] ∧
  nonShell = negb (isSupportedScriptShell (Base program)) ∧
  (nonShell = false → launcher = "").

Lemma choose_interpreter_Ok body shell interpreter program launcher nonShell :
  choose_interpreter body shell interpreter = Ok (program, launcher, nonShell) →
  interpreter_ok program launcher nonShell.
Proof.
  unfold choose_interpreter. case_bool_decide; [done|]. case_bool_decide.
  - intros Hc. inv_ok Hc. apply ResolveScriptShell_Ok in Hok. simplify_eq.
    apply supported_word in Hok as Hw. destruct Hw as [Hw Hb]. split; [done|]. rewrite Hb, Hok. set_solver.
  - intros Hc. inv_ok Hc. apply ParseInterpreter_Ok in Hok. destruct (pi_Shell a) eqn:Ea.
    + inv_ok Hc. apply ResolveScriptShell_Ok in Hok0. simplify_eq.
      apply supported_word in Hok0 as Hw. destruct Hw as [Hw Hb].
      case_bool_decide as Hr; [|split; [done|]; rewrite Hb, Hok0; set_solver].
      destruct Hok as [[Hauto _]|(Hchars & Hsh & _)]; [by rewrite Hauto in Hr|].
      split; [done|]. rewrite <- Hsh. set_solver.
    + simplify_eq. destruct Hok as [[_ Hok]|(Hchars & Hsh & Hl)]; [congruence|].
      split; [done|]. rewrite <- Hsh. set_solver.
Qed.

Lemma HasSuffix_app s t : HasSuffix (s +:+ t) t = true.
Proof. unfold HasSuffix. apply HasPrefix_spec. exists (string_rev s). apply string_rev_distr. Qed.

Lemma end_with_newline_suffix body : HasSuffix (end_with_newline body) LF = true.
Proof. unfold end_with_newline. case_match eqn:E; [done|]. apply HasSuffix_app. Qed.

Lemma end_with_newline_keeps_out c body :
  c ≠ newline → contains_char c body = false → contains_char c (end_with_newline body) = false.
Proof.
  intros Hc Hb. unfold end_with_newline. case_match; [done|]. rewrite contains_char_app, Hb. cbn.
  rewrite orb_false_r. by apply Ascii.eqb_neq.
Qed.

Lemma normalized_no_CR data : contains_char (char 13) (normalize_lines data) = false.
Proof. apply replace_char_gone. done. Qed.

Lemma normalized_no_NUL data : contains_char NUL data = false → contains_char NUL (normalize_lines data) = false.
Proof. intros Hd. unfold normalize_lines, ReplaceAll. by do 2 (apply replace_keeps_out; [done|]). Qed.

Lemma runner_words_no_NUL spec :
  interpreter_ok (ss_Interpreter spec) (ss_Launcher spec) (ss_NonShell spec) → forallb no_NUL (ss_Args spec) = true →
  forallb no_NUL (runner_words spec) = true.
Proof.
  intros (Hi%program_no_NUL & Hl & _) Ha. unfold runner_words. rewrite forallb_app, Ha, andb_true_r.
  assert (no_NUL (ss_Launcher spec) = true) as Hln.
  { rewrite !elem_of_cons, elem_of_nil in Hl. by destruct_or! Hl; rewrite Hl. }
  destruct (ss_NonShell spec); [|cbn; by rewrite Hi].
  rewrite forallb_app. case_bool_decide; cbn; by rewrite Hi, ?Hln.
Qed.

(** C13: A prepared script is data. Its body has Unix lines and no NUL byte, its interpreter
    is one word of harmless characters, and the exec request that runs it, with the
    secrets, is read by a POSIX shell as exports of the secrets and one fixed runner:
    nothing of the body, and no argument or secret as syntax. *)
Theorem prepared_scripts_are_data label data shell interpreter args spec secrets :
  PrepareScriptWithInterpreter label data shell interpreter args = Ok spec → no_NUL_values secrets →
  contains_char NUL (ss_Body spec) = false ∧ contains_char (char 13) (ss_Body spec) = false ∧
  HasSuffix (ss_Body spec) LF = true ∧ ss_Args spec = args ∧
  interpreter_ok (ss_Interpreter spec) (ss_Launcher spec) (ss_NonShell spec) ∧
  tokens Unquoted None (BuildScriptRemoteCommand (BuildScriptRunner spec) secrets) =
    Some (export_tokens (secret_assigns secrets (secret_keys secrets))
          ++ runner_tokens (ss_Interpreter spec) (runner_words spec)).
Proof.
  unfold PrepareScriptWithInterpreter. intros Hp Hs. inv_ok Hp. destruct a3 as [[program launcher] nonShell].
  injection Hp as <-. apply choose_interpreter_Ok in Hok3. cbn [ss_Body ss_Args ss_Interpreter ss_Launcher ss_NonShell].
  apply negb_true_iff in Hok0.
  split; [by apply end_with_newline_keeps_out, normalized_no_NUL|].
  split; [by apply end_with_newline_keeps_out, normalized_no_CR|].
  split; [apply end_with_newline_suffix|]. split; [done|]. split; [done|].
  set (spec := mkScriptSpec _ _ program args nonShell launcher).
  assert (tokens Unquoted None (BuildScriptRunner spec) = Some (runner_tokens program (runner_words spec))) as Hrun.
  { apply tokens_runner_line; [by apply program_no_NUL, Hok3|]. by apply runner_words_no_NUL. }
  unfold BuildScriptRemoteCommand. destruct (bool_decide_reflect (secrets = ∅)) as [->|_]; [done|].
  by apply tokens_export_assigns.
Qed.
End Scripts.

(** ** What is shown

    Replacing a quoted secret by quoted stars keeps the quotes, so that the other text
    still reads as it did between two stars. *)

Section shown.
Context (v : string) (Hne : v ≠ "") (Hstar : contains_char "*" v = false).

Lemma HasPrefix_star_free w p s :
  contains_char "*" w = false → HasPrefix (p +:+ String "*" s) w = true → ∀ t, HasPrefix (p +:+ t) w = true.
Proof.
  revert w. induction p as [|c p IH]; intros w Hw Hp t.
  - rewrite app_nil in Hp. destruct w as [|d w]; [by rewrite HasPrefix_nil|]. by rewrite star_free_head in Hp.
  - destruct w as [|d w]; [by rewrite HasPrefix_nil|]. rewrite app_cons, HasPrefix_cons in *.
    apply andb_true_iff in Hp as [-> Hp]. cbn [contains_char] in Hw. apply orb_false_iff in Hw as [_ Hw].
    by apply (IH w Hw).
Qed.

Definition starred (p q : string) : string := p +:+ "***" +:+ q.

(** [old] begins with [p] and ends with [q]. *)
Lemma drop_prefix (p m r : string) k s : s = p +:+ r → k = String.length p → drop_string k s = r.
Proof. intros -> ->. apply drop_string_app. Qed.

Lemma replace_skip old new k s : replace_from old new k s = replace_from old new 0 (drop_string k s).
Proof. revert s. induction k as [|k IH]; intros s; [done|]. destruct s as [|c s]; [done|]. apply IH. Qed.

Lemma replace_prefix_starred p m q w s :
  p +:+ m +:+ q ≠ "" → contains_char "*" w = false →
  HasPrefix (replace_from (p +:+ m +:+ q) (starred p q) 0 s) w = true → HasPrefix s w = true.
Proof.
  intros Hold. revert w. induction s as [|c s IH]; intros w Hw; [done|]. cbn [replace_from].
  destruct (HasPrefix (String c s) (p +:+ m +:+ q)) eqn:E.
  - unfold starred. rewrite <- !str_app_assoc. change ("***" +:+ ?t) with (String "*" ("**" +:+ t)). intros Hp.
    apply HasPrefix_spec in E as [r ->]. rewrite <- !str_app_assoc. by eapply HasPrefix_star_free.
  - destruct w as [|d w]; [by rewrite HasPrefix_nil|]. rewrite !HasPrefix_cons, !andb_true_iff.
    intros [Hc Hp]. split; [done|]. apply IH; [|done]. cbn [contains_char] in Hw. by apply orb_false_iff in Hw as [_ ?].
Qed.

Lemma HasPrefix_app_mono w q s t :
  (∀ u, contains_char "*" u = false → HasPrefix s u = true → HasPrefix t u = true) → contains_char "*" w = false →
  HasPrefix (q +:+ s) w = true → HasPrefix (q +:+ t) w = true.
Proof.
  intros Hst. revert w. induction q as [|c q IH]; intros w Hw; [by apply Hst|].
  destruct w as [|d w]; [by rewrite !HasPrefix_nil|]. rewrite !app_cons, !HasPrefix_cons, !andb_true_iff.
  cbn [contains_char] in Hw. apply orb_false_iff in Hw as [_ Hw]. naive_solver.
Qed.

Lemma occurs_app_r s t : occurs v t → occurs v (s +:+ t).
Proof. intros Ht. induction s as [|c s IH]; [done|]. rewrite app_cons. by apply occurs_later. Qed.

Lemma occurs_star s : occurs v (String "*" s) → occurs v s.
Proof. intros Ho. inversion Ho as [? Hp|]; subst; [by rewrite star_free_head in Hp|done]. Qed.

Lemma occurs_before_stars p s t : occurs v (p +:+ String "*" s) → occurs v (p +:+ t) ∨ occurs v s.
Proof.
  induction p as [|c p IH].
  - rewrite !app_nil. intros Ho. right. by apply occurs_star.
  - rewrite !app_cons. intros Ho. inversion Ho as [? Hp|? ? Ho']; subst.
    + left. apply occurs_here. rewrite <- app_cons in Hp |- *. by eapply HasPrefix_star_free.
    + destruct (IH Ho'); [left; by apply occurs_later|by right].
Qed.

Lemma occurs_app_mono q s t :
  (∀ u, contains_char "*" u = false → HasPrefix s u = true → HasPrefix t u = true) → (occurs v s → occurs v t) →
  occurs v (q +:+ s) → occurs v (q +:+ t).
Proof.
  intros Hp Ho. induction q as [|c q IH]; [done|]. rewrite !app_cons. intros Hq.
  inversion Hq as [? Hh|? ? Hq']; subst; [|by apply occurs_later, IH].
  apply occurs_here. rewrite <- app_cons in Hh |- *. by eapply HasPrefix_app_mono.
Qed.

Lemma occurs_replace_starred p m q s :
  p +:+ m +:+ q ≠ "" → occurs v (ReplaceAll s (p +:+ m +:+ q) (starred p q)) → occurs v s.
Proof.
  intros Hold. unfold ReplaceAll. remember (String.length s) as n eqn:Hn. revert s Hn.
  induction (lt_wf n) as [n _ IH]. intros s -> Ho. destruct s as [|c s]; [done|]. cbn [replace_from] in Ho.
  destruct (HasPrefix (String c s) (p +:+ m +:+ q)) eqn:E.
  - apply HasPrefix_spec in E as [r Hr]. rewrite replace_skip in Ho.
    assert (drop_string (String.length (p +:+ m +:+ q) - 1) s = r) as Hdrop.
    { destruct (p +:+ m +:+ q) as [|d old] eqn:Eold; [done|]. rewrite app_cons in Hr. injection Hr as -> ->.
      cbn [String.length]. replace (S (String.length old) - 1) with (String.length old) by lia. apply drop_string_app. }
    rewrite Hdrop in Ho. rewrite Hr. unfold starred in Ho. rewrite <- !str_app_assoc in Ho |- *.
    change ("***" +:+ ?t) with (String "*" (String "*" (String "*" t))) in Ho.
    apply (occurs_before_stars _ _ (m +:+ q +:+ r)) in Ho as [Ho|Ho]; [done|].
    apply occurs_app_r, occurs_app_r. apply occurs_star, occurs_star in Ho. revert Ho. apply occurs_app_mono; [intros u; by apply replace_prefix_starred|].
    intros Hr'. eapply IH; [|done|done]. apply (f_equal String.length) in Hr. rewrite length_str_app in Hr.
    destruct (p +:+ m +:+ q); [done|]. cbn [String.length] in Hr |- *. lia.
  - inversion Ho as [? Hp|? ? Ho']; subst.
    + apply occurs_here. apply (replace_prefix_starred p m q); [done..|]. cbn [replace_from]. by rewrite E.
    + apply occurs_later. eapply IH; [|done|done]. cbn. lia.
Qed.
End shown.

Lemma occurs_redact_secret v out value :
  v ≠ "" → contains_char "*" v = false → value ≠ "" → occurs v (redact_secret out value) → occurs v out.
Proof.
  intros Hne Hstar Hvalue Ho. unfold redact_secret in Ho.
  assert (occurs v (ReplaceAll out (ShellQuote value) (squote +:+ "***" +:+ squote))) as Ho'.
  { case_match; [|done]. by eapply occurs_replace. }
  clear Ho. unfold ShellQuote in Ho'. rewrite bool_decide_eq_false_2 in Ho' by done.
  apply (occurs_replace_starred v Hne Hstar squote (ReplaceAll value squote quoted_quote) squote) in Ho'; done.
Qed.

Lemma insert_longest_elem v l w : w ∈ insert_longest v l ↔ w ∈ v :: l.
Proof. by rewrite insert_longest_perm. Qed.

(** C36: What is shown of a command line contains no secret of four bytes or more without a
    star in it, in whatever order the map of secrets is iterated. *)
Theorem shown_command_hides_secrets s order v :
  v ∈ order → 4 ≤ String.length v → contains_char "*" v = false → ¬ occurs v (RedactSecrets s order).
Proof.
  intros Hv Hlen Hstar.
  assert (v ≠ "") as Hne by by intros ->; cbn in Hlen; lia.
  unfold RedactSecrets. case_match eqn:E.
  { apply orb_true_iff in E as [E|E]; bool_to_prop; subst; [|by apply elem_of_nil in Hv].
    intros Ho. inversion Ho as [? Hp|]. by destruct v. }
  assert (∀ w, w ∈ sort_longest (filter (λ w, w ≠ "") order) ↔ w ∈ order ∧ w ≠ "") as Hin.
  { intros w. rewrite sort_longest_perm, list_elem_of_filter. tauto. }
  assert (v ∈ sort_longest (filter (λ w, w ≠ "") order)) as Hvin by by apply Hin.
  assert (∀ w, w ∈ sort_longest (filter (λ w, w ≠ "") order) → w ≠ "") as Hall by by intros w [_ ?]%Hin.
  revert Hvin Hall. generalize (sort_longest (filter (λ w, w ≠ "") order)). intros values Hvin Hall.
  apply list_elem_of_split in Hvin as (l1 & l2 & ->). rewrite fold_left_app. cbn [fold_left].
  assert (¬ occurs v (redact_secret (fold_left redact_secret l1 s) v)) as Hnot.
  { unfold redact_secret at 1. rewrite (proj2 (Nat.leb_le 4 _)) by done. by apply not_occurs_replace. }
  revert Hnot. generalize (redact_secret (fold_left redact_secret l1 s) v).
  assert (∀ w, w ∈ l2 → w ≠ "") as Hl2 by (intros w ?; apply Hall; set_solver). clear -Hne Hstar Hl2.
  induction l2 as [|w l2 IH]; intros t Hnot; [done|]. cbn [fold_left]. apply IH; [set_solver|].
  intros Ho. apply Hnot. eapply occurs_redact_secret; [..|exact Ho]; [done..|]. apply Hl2. set_solver.
Qed.
