(* ===== verification/KnownHosts.v ===== *)
(** * The known_hosts file ([ssh/hostkey.go], [ssh/hostkey_types.go], [ssh/auth.go])

    Which host keys are trusted, which algorithms are offered for a host, and how an
    entry is replaced without touching any other. The [knownhosts] package and the
    keys of [crypto/ssh] are the parameters [SshKeys] and [KnownHostsPackage]. *)

From Stdlib Require Import Ascii Strings.Byte.
From S2P Require Import Prelude GoStrings GoErrors GoRegexp Redaction FailurePolicy MachineContract RemoteCommand.

(** [gossh.PublicKey]: its type, the key a certificate certifies, its fingerprint. *)
Class SshKeys := {
  PublicKey : Type;
  key_Type : PublicKey → string;
  certified_Key : PublicKey → option PublicKey;
  FingerprintSHA256 : PublicKey → string;
}.

Record KnownKey `{SshKeys} := mkKnownKey { kk_Key : PublicKey; kk_Filename : string; kk_Line : Z }.
Arguments mkKnownKey {_}.

(** The answer of a known_hosts callback: nil, a [*KeyError], or another error. *)
Inductive verdict `{SshKeys} :=
  | Trusted
  | KeyError (want : list KnownKey)
  | Refused (e : goerror).
Arguments Trusted {_}.
Arguments KeyError {_}.
Arguments Refused {_}.

Class KnownHostsPackage `{SshKeys} := {
  (** [knownhosts.New] of a file with this content *)
  knownhosts_New : string → result (string → PublicKey → verdict);
  knownhosts_Line : string → PublicKey → string;
  Normalize : string → string;
}.

(** [encoding/base64] and HMAC-SHA1. *)
Class HostNameHash := {
  base64_decode : string → option bytes;
  hmac_sha1 : bytes → bytes → bytes;
}.

(** The file: [os.Stat] and its content. *)
Inductive KnownHostsFile := NoFile | StatFails (e : goerror) | File (content : string).

Section KnownHosts.
Context `{K : SshKeys} `{!KnownHostsPackage}.

(** ** Key types and algorithms *)

Definition KeyAlgoRSA : string := "ssh-rsa".
Definition InsecureKeyAlgoDSA : string := "ssh-dss".
Definition KeyAlgoECDSA256 : string := "ecdsa-sha2-nistp256".
Definition KeyAlgoECDSA384 : string := "ecdsa-sha2-nistp384".
Definition KeyAlgoECDSA521 : string := "ecdsa-sha2-nistp521".
Definition KeyAlgoED25519 : string := "ssh-ed25519".
Definition KeyAlgoRSASHA256 : string := "rsa-sha2-256".
Definition KeyAlgoRSASHA512 : string := "rsa-sha2-512".

Definition cert_algorithms : list string :=
  ["rsa-sha2-256-cert-v01@openssh.com"; "rsa-sha2-512-cert-v01@openssh.com"; "ssh-rsa-cert-v01@openssh.com";
   "ssh-dss-cert-v01@openssh.com"; "ecdsa-sha2-nistp256-cert-v01@openssh.com";
   "ecdsa-sha2-nistp384-cert-v01@openssh.com"; "ecdsa-sha2-nistp521-cert-v01@openssh.com";
   "ssh-ed25519-cert-v01@openssh.com"].

Definition defaultHostKeyAlgorithms : list string :=
  cert_algorithms ++
  [KeyAlgoECDSA256; KeyAlgoECDSA384; KeyAlgoECDSA521; KeyAlgoRSASHA256; KeyAlgoRSASHA512; KeyAlgoRSA;
   InsecureKeyAlgoDSA; KeyAlgoED25519].

Definition signatureAlgorithmsForKeyType (keyType : string) : list string :=
  if bool_decide (keyType = KeyAlgoRSA) then [KeyAlgoRSASHA512; KeyAlgoRSASHA256; KeyAlgoRSA]
  else if bool_decide (keyType ∈ [KeyAlgoECDSA256; KeyAlgoECDSA384; KeyAlgoECDSA521; KeyAlgoED25519; InsecureKeyAlgoDSA])
  then [keyType] else [].

Definition known_hosts_name : string := "known_hosts".
Definition cert_authority : string := "@cert-authority".

(** Whether the line an entry came from begins with the marker of an authority. *)
Definition authority_line (line : string) : bool :=
  let text := trim_left_set (string_of_codes [32; 9]%N) line in
  HasPrefix text cert_authority &&
  ((String.length text =? String.length cert_authority)
   || match char_at text (String.length cert_authority) with
      | Some c => Ascii.eqb c " " || Ascii.eqb c (char 9)
      | None => false
      end).

(** [content] is what reading the file gave, if it could be read. *)
Definition is_authority (path : string) (content : option string) (known : KnownKey) : bool :=
  let lines := match content with Some data => Split (char 10) data | None => [] end in
  if bool_decide (kk_Filename known = path ∧ 1 ≤ kk_Line known ≤ Z.of_nat (length lines))%Z
  then authority_line (default "" (lines !! Z.to_nat (kk_Line known - 1)))
  else true.

Definition splitCertAuthorities (path : string) (content : option string) (want : list KnownKey) :
    list KnownKey * bool :=
  (filter (λ k, is_authority path content k = false) want, existsb (is_authority path content) want).

(** Appending what was not seen yet, in order. *)
Fixpoint add_new (seen out : list string) (l : list string) : list string :=
  match l with
  | [] => out
  | x :: l' => if bool_decide (x ∈ seen) then add_new seen out l' else add_new (x :: seen) (out ++ [x]) l'
  end.

(** [probe] is the throw-away key, if one could be made. *)
Definition knownHostKeyTypes (path : string) (file : KnownHostsFile) (probe : option PublicKey) (address : string) :
    list string * bool :=
  match file with
  | File content =>
      match knownhosts_New content, probe with
      | Ok callback, Some probe =>
          match callback address probe with
          | KeyError want =>
              let '(plain, hasAuthority) := splitCertAuthorities path (Some content) want in
              (add_new [] [] ((λ k, key_Type (kk_Key k)) <$> plain), hasAuthority)
          | _ => ([], false)
          end
      | _, _ => ([], false)
      end
  | _ => ([], false)
  end.

(** [[]] is nil, the library's default. *)
Definition hostKeyAlgorithmsFor (path : string) (file : KnownHostsFile) (probe : option PublicKey) (address : string) :
    list string :=
  let '(types, hasAuthority) := knownHostKeyTypes path file probe address in
  if hasAuthority then []
  else
    let preferred := add_new [] [] (types ≫= signatureAlgorithmsForKeyType) in
    match preferred with
    | [] => []
    | _ => add_new preferred preferred defaultHostKeyAlgorithms
    end.

Definition observedKeyType (key : PublicKey) : string :=
  match certified_Key key with Some k => key_Type k | None => key_Type key end.

Definition wantHasKeyType (want : list KnownKey) (key : PublicKey) : bool :=
  existsb (λ known, bool_decide (key_Type (kk_Key known) = observedKeyType key)) want.

(** ** The callback of a connection *)

(** Why a host key is refused, as the classification sees it. *)
Inductive refusal :=
  | TypeChanged (want : list KnownKey) (observed : string)
  | KeyRefused (want : list KnownKey)
  | OtherRefusal (e : goerror).

Definition buildHostKeyCallbackForPath (path : string) (file : KnownHostsFile) (address : string) (key : PublicKey) :
    option refusal :=
  match file with
  | NoFile => Some (KeyRefused [])
  | StatFails e => Some (OtherRefusal (Wrap "known_hosts stat failed" [e]))
  | File content =>
      match knownhosts_New content with
      | Fail e => Some (OtherRefusal (Wrap "known_hosts parse failed" [e]))
      | Ok callback =>
          match callback address key with
          | Trusted => None
          | Refused e => Some (OtherRefusal e)
          | KeyError want =>
              let '(plain, hasAuthority) := splitCertAuthorities path (Some content) want in
              if (0 <? length want) && negb hasAuthority && negb (wantHasKeyType plain key)
              then Some (TypeChanged want (observedKeyType key))
              else Some (KeyRefused want)
          end
      end
  end.

(** ** Inspection *)

Definition dedup_strings (l : list string) : list string := add_new [] [] l.

Definition inspectKnownHost (path : string) (file : KnownHostsFile) (address : string) (observed : PublicKey) :
    result (string * list string) :=
  match file with
  | NoFile => Ok ("new", [])
  | StatFails e => Fail (ClassifiedError KnownHostsPermissionsFailed "stat failed")
  | File content =>
      match knownhosts_New content with
      | Fail e => Fail (ClassifiedError KnownHostsMalformed "parse failed")
      | Ok callback =>
          match callback address observed with
          | Trusted => Ok ("trusted", [FingerprintSHA256 observed])
          | Refused e => Fail (ClassifiedError KnownHostsInspectionFailed "refused")
          | KeyError want =>
              if length want =? 0 then Ok ("new", [])
              else
                let fingerprints := sort_strings (dedup_strings ((λ k, FingerprintSHA256 (kk_Key k)) <$> want)) in
                let '(plain, hasAuthority) := splitCertAuthorities path (Some content) want in
                if negb hasAuthority && negb (wantHasKeyType plain observed)
                then Ok ("type_changed", fingerprints) else Ok ("mismatch", fingerprints)
          end
      end
  end.

(** ** Changing the file *)

Section Entries.
Context `{!HostNameHash}.

Definition knownHostPatternIs (pattern token : string) : bool :=
  if HasPrefix pattern "|" then
    match Split "|" pattern with
    | [_; version; salt; hash] =>
        if bool_decide (version ≠ "1") then false
        else
          match base64_decode salt, base64_decode hash with
          | Some salt, Some want => bool_decide (hmac_sha1 salt (bytes_of_string token) = want)
          | _, _ => false
          end
    | _ => false
    end
  else if HasPrefix pattern "!" || ContainsAny pattern "*?" then false
  else bool_decide (Normalize pattern = token).

Definition blanks : string := string_of_codes [32; 9]%N.

(** [text] without [leading] is [trimmed]. *)
Definition leading_of (text trimmed : string) : string :=
  take_string (String.length text - String.length trimmed) text.

Definition dropKnownHostEntry (line token keyType : string) : string :=
  let trimmed := trim_left_set blanks line in
  if bool_decide (trimmed = "") || starts_with (String "#" (String "@" (string_of_codes [10; 13]%N))) trimmed then line
  else
    match Fields trimmed with
    | f0 :: f1 :: _ :: _ =>
        if bool_decide (f1 ≠ keyType) then line
        else
          let patterns := Split "," f0 in
          let kept := filter (λ p, knownHostPatternIs p token = false) patterns in
          if length kept =? length patterns then line
          else if length kept =? 0 then ""
          else leading_of line trimmed +:+ Join kept "," +:+ drop_string (String.length f0) trimmed
    | _ => line
    end.

(** The lines of the loop, each with its line break. *)
Fixpoint split_lines (s : string) : list string :=
  match s with
  | EmptyString => []
  | String c s' =>
      if Ascii.eqb c (char 10) then String c "" :: split_lines s'
      else match split_lines s' with [] => [String c ""] | l :: ls => String c l :: ls end
  end.

Definition ends_with_newline (s : string) : bool := HasSuffix s (String (char 10) "").

Fixpoint concat_lines (ls : list string) : string :=
  match ls with [] => "" | l :: ls' => l +:+ concat_lines ls' end.

(** The new content [replaceKnownHost] writes. *)
Definition replaced_content (original token : string) (key : PublicKey) : string :=
  let updated := concat_lines ((λ line, dropKnownHostEntry line token (key_Type key)) <$> split_lines original) in
  let updated :=
    if negb (bool_decide (updated = "")) && negb (ends_with_newline updated)
    then updated +:+ String (char 10) "" else updated in
  updated +:+ knownhosts_Line token key +:+ String (char 10) "".

(** The new content [saveHostKey] leaves: its entry starts a line of its own. *)
Definition saved_content (original token : string) (key : PublicKey) : string :=
  original
  +:+ (if negb (bool_decide (original = "")) && negb (ends_with_newline original) then String (char 10) "" else "")
  +:+ knownhosts_Line token key +:+ String (char 10) "".
End Entries.
End KnownHosts.
