(* ===== verification/KnownHostsFacts.v ===== *)
(** * Replacing a known_hosts entry touches nothing else

    Afterwards the new entry is the only one of its key type for the endpoint, and every
    line that was no such entry is there byte for byte, whatever it contains. The entries
    for the endpoint are asked to have a host list of printable ASCII that, without the
    endpoint, is not one empty name. *)

From Stdlib Require Import Ascii Strings.Byte.
From S2P Require Import Prelude GoStrings GoStringFacts GoErrors GoRegexp Redaction RedactionFacts FailurePolicy MachineContract RemoteCommand PosixShell ShellQuoting KnownHosts.

(** ** Fields of ASCII text *)

Definition text_space (c : ascii) : bool := contains_char c (string_of_codes [32; 9; 10; 13]%N).
(** Printable ASCII, tabs and line breaks. *)
Definition text_char (c : ascii) : bool := in_range 32 126 c || text_space c.

Definition solid_text (s : string) : bool := string_forall (λ c, text_char c && negb (text_space c)) s.

Lemma space_length_text c s :
  text_char c = true → space_length (String c s) = if text_space c then 1 else 0.
Proof.
  intros Hc. unfold space_length.
  assert (strip_any unicode_spaces (String c s) = if text_space c then Some s else None) as ->.
  { destruct c as [[] [] [] [] [] [] [] []]; try discriminate Hc; reflexivity. }
  destruct (text_space c); [cbn [String.length]; lia|done].
Qed.

Definition starts_blank (s : string) : Prop := match s with String c _ => text_char c = true ∧ text_space c = true | "" => True end.

Lemma fields_word acc f rest :
  solid_text f = true → starts_blank rest →
  fields_from 0 (Some acc) (f +:+ rest) = (acc +:+ f) :: Fields rest.
Proof.
  revert acc. induction f as [|c f IH]; intros acc Hf Hr.
  - rewrite app_nil, str_app_nil_r. destruct rest as [|c r]; [done|]. destruct Hr as [Hc Hs]. unfold Fields.
    cbn [fields_from]. rewrite space_length_text, Hs by done. done.
  - cbn [solid_text string_forall] in Hf. apply andb_true_iff in Hf as [[Hc Hs%negb_true_iff]%andb_true_iff Hf].
    rewrite app_cons. cbn [fields_from]. rewrite space_length_text, Hs by done. cbn [default].
    rewrite IH by done. by rewrite <- str_app_assoc.
Qed.

Lemma Fields_word f rest : solid_text f = true → f ≠ "" → starts_blank rest → Fields (f +:+ rest) = f :: Fields rest.
Proof.
  intros Hf Hne Hr. destruct f as [|c f]; [done|].
  cbn [solid_text string_forall] in Hf. apply andb_true_iff in Hf as [[Hc Hs%negb_true_iff]%andb_true_iff Hf].
  rewrite app_cons. unfold Fields at 1. cbn [fields_from]. rewrite space_length_text, Hs by done. cbn [default].
  rewrite fields_word by done. done.
Qed.

(** What is before the first blank. *)
Fixpoint host_field (s : string) : string :=
  match s with "" => "" | String c s' => if text_space c then "" else String c (host_field s') end.

Lemma text_space_char c : text_space c = true → text_char c = true.
Proof. unfold text_char. intros ->. apply orb_true_r. Qed.

Lemma host_field_split s : ∃ rest, s = host_field s +:+ rest ∧ starts_blank rest.
Proof.
  induction s as [|c s (rest & Hs & Hr)]; [by exists ""|]. cbn [host_field]. destruct (text_space c) eqn:E.
  - exists (String c s). repeat split; [|done]. by apply text_space_char.
  - exists rest. rewrite app_cons. split; [by f_equal|done].
Qed.

(** ** Lines *)

Definition LF1 : string := String (char 10) "".
Definition no_LF (s : string) : bool := negb (contains_char (char 10) s).
Definition terminated (l : string) : Prop := ∃ b, l = b +:+ LF1 ∧ no_LF b = true.

Lemma no_LF_app s t : no_LF (s +:+ t) = no_LF s && no_LF t.
Proof. unfold no_LF. by rewrite contains_char_app, negb_orb. Qed.

Lemma no_LF_cons c s : no_LF (String c s) = negb (Ascii.eqb c (char 10)) && no_LF s.
Proof. unfold no_LF. cbn [contains_char]. by rewrite negb_orb, Ascii.eqb_sym. Qed.

Lemma split_lines_terminated b s : no_LF b = true → split_lines (b +:+ LF1 +:+ s) = (b +:+ LF1) :: split_lines s.
Proof.
  induction b as [|c b IH]; [done|]. rewrite no_LF_cons. intros [Hc Hb]%andb_true_iff. rewrite !app_cons.
  cbn [split_lines]. apply negb_true_iff in Hc. rewrite Hc, IH by done. done.
Qed.

Lemma split_lines_last r : no_LF r = true → split_lines r = if bool_decide (r = "") then [] else [r].
Proof.
  induction r as [|c r IH]; [done|]. rewrite no_LF_cons. intros [Hc Hr]%andb_true_iff. cbn [split_lines].
  apply negb_true_iff in Hc. rewrite Hc, IH by done. case_bool_decide; by subst.
Qed.

Lemma split_lines_concat ls s : Forall terminated ls → split_lines (concat_lines ls +:+ s) = ls ++ split_lines s.
Proof.
  induction 1 as [|l ls (b & -> & Hb) _ IH]; [done|]. cbn [concat_lines].
  rewrite <- !str_app_assoc, split_lines_terminated by done. by rewrite IH.
Qed.

(** Every text is its complete lines and a rest without a break. *)
Lemma lines_of s : ∃ ls r, s = concat_lines ls +:+ r ∧ Forall terminated ls ∧ no_LF r = true.
Proof.
  induction s as [|c s (ls & r & -> & Hls & Hr)]; [by exists [], ""|].
  destruct (Ascii.eqb_spec c (char 10)) as [->|Hc].
  - exists (LF1 :: ls), r. repeat split; [|done]. constructor; [|done]. by exists "".
  - destruct ls as [|l ls].
    + exists [], (String c r). repeat split; [done|]. rewrite no_LF_cons, Hr, andb_true_r. by apply negb_true_iff, Ascii.eqb_neq.
    + apply Forall_cons in Hls as [(b & -> & Hb) Hls]. exists ((String c b +:+ LF1) :: ls), r. repeat split; [|done].
      constructor; [|done]. exists (String c b). split; [done|]. rewrite no_LF_cons, Hb, andb_true_r.
      by apply negb_true_iff, Ascii.eqb_neq.
Qed.

(** ** Host patterns *)

Definition no_comma (s : string) : bool := negb (contains_char "," s).

Lemma no_comma_cons c s : no_comma (String c s) = negb (Ascii.eqb c ",") && no_comma s.
Proof. unfold no_comma. cbn [contains_char]. by rewrite negb_orb, Ascii.eqb_sym. Qed.

Lemma Split_no_comma s : no_comma s = true → Split "," s = [s].
Proof.
  unfold no_comma. induction s as [|c s IH]; [done|]. cbn [contains_char Split]. rewrite negb_orb, Ascii.eqb_sym.
  intros [Hc Hs]%andb_true_iff. apply negb_true_iff in Hc. rewrite Hc. by rewrite IH.
Qed.

Lemma Split_cons_piece p s : no_comma p = true → Split "," (p +:+ String "," s) = p :: Split "," s.
Proof.
  unfold no_comma. induction p as [|c p IH]; [done|]. rewrite app_cons. cbn [contains_char Split].
  rewrite negb_orb, Ascii.eqb_sym. intros [Hc Hp]%andb_true_iff. apply negb_true_iff in Hc. rewrite Hc. by rewrite IH.
Qed.

Lemma Split_Join ps : ps ≠ [] → Forall (λ p, no_comma p = true) ps → Split "," (Join ps ",") = ps.
Proof.
  intros Hne Hps. induction Hps as [|p ps Hp Hps IH]; [done|]. destruct ps as [|q ps].
  - cbn [Join]. by apply Split_no_comma.
  - rewrite Join_cons by done. change ("," +:+ ?t) with (String "," t). rewrite Split_cons_piece by done. by rewrite IH.
Qed.

Lemma Split_pieces (P : ascii → bool) s :
  string_forall P s = true → Forall (λ p, no_comma p = true ∧ string_forall P p = true) (Split "," s).
Proof.
  induction s as [|c s IH]; cbn [string_forall Split]; [by repeat constructor|]. intros [Hc Hs]%andb_true_iff.
  specialize (IH Hs). destruct (Ascii.eqb_spec c ",") as [->|Hne]; [by constructor|].
  destruct IH as [|p ps [Hp HP] Hps]; (constructor; [|done || constructor]); cbn [string_forall].
  all: rewrite no_comma_cons, (proj2 (Ascii.eqb_neq c ",") Hne), Hc; done.
Qed.

Lemma Join_forall (P : ascii → bool) ps :
  P ","%char = true → Forall (λ p, string_forall P p = true) ps → string_forall P (Join ps ",") = true.
Proof.
  intros Hcomma Hps. induction Hps as [|p ps Hp Hps IH]; [done|]. destruct ps as [|q ps]; [done|].
  rewrite Join_cons by done. rewrite !string_forall_app, Hp, IH. cbn. by rewrite Hcomma.
Qed.

Lemma Join_not_empty ps : ps ≠ [] → ps ≠ [""] → Join ps "," ≠ "".
Proof.
  intros Hne Hone. destruct ps as [|p [|q ps]]; [done| |].
  - cbn [Join]. by intros ->.
  - rewrite Join_cons by done. by destruct p.
Qed.

(** ** Entries *)

Lemma trim_left_set_split chars s :
  ∃ lead, s = lead +:+ trim_left_set chars s ∧ string_forall (λ c, contains_char c chars) lead = true.
Proof.
  induction s as [|c s (lead & Hs & Hl)]; [by exists ""|]. cbn [trim_left_set].
  destruct (contains_char c chars) eqn:E; [|by exists ""]. exists (String c lead). rewrite app_cons. split; [by f_equal|].
  cbn [string_forall]. by rewrite E, Hl.
Qed.

Lemma trim_left_set_app chars lead s :
  string_forall (λ c, contains_char c chars) lead = true → trim_left_set chars (lead +:+ s) = trim_left_set chars s.
Proof.
  induction lead as [|c lead IH]; [done|]. cbn [string_forall]. intros [Hc Hl]%andb_true_iff. rewrite app_cons.
  cbn [trim_left_set]. by rewrite Hc, IH.
Qed.

Lemma take_string_app s t : take_string (String.length s) (s +:+ t) = s.
Proof. induction s as [|c s IH]; [by destruct t|]. rewrite app_cons. cbn. by rewrite IH. Qed.

Section Entries.
Context `{K : SshKeys} `{!KnownHostsPackage} `{!HostNameHash}.
Context (token keyType : string).

(** The host patterns and the key type of a line that is an entry. *)
Definition entry (line : string) : option (list string * string) :=
  let trimmed := trim_left_set blanks line in
  if bool_decide (trimmed = "") || starts_with (String "#" (String "@" (string_of_codes [10; 13]%N))) trimmed then None
  else match Fields trimmed with f0 :: f1 :: _ :: _ => Some (Split "," f0, f1) | _ => None end.

Definition names (line : string) : bool :=
  match entry line with
  | Some (patterns, t) => bool_decide (t = keyType) && existsb (λ p, knownHostPatternIs p token) patterns
  | None => false
  end.

Definition other_patterns (patterns : list string) : list string :=
  filter (λ p, knownHostPatternIs p token = false) patterns.

Lemma other_patterns_all patterns :
  length (other_patterns patterns) = length patterns ↔ existsb (λ p, knownHostPatternIs p token) patterns = false.
Proof.
  unfold other_patterns. induction patterns as [|p ps IH]; [done|]. cbn [existsb length].
  pose proof (length_filter (λ p, knownHostPatternIs p token = false) ps).
  destruct (knownHostPatternIs p token) eqn:E.
  - rewrite filter_cons_False by congruence. cbn. split; [lia|done].
  - rewrite filter_cons_True by done. cbn. rewrite <- IH. lia.
Qed.

(** Lines that are no such entry are kept byte for byte. *)
Lemma drop_others line : names line = false → dropKnownHostEntry line token keyType = line.
Proof.
  unfold names, entry, dropKnownHostEntry. destruct (_ || _); [done|].
  destruct (Fields (trim_left_set blanks line)) as [|f0 [|f1 [|f2 fs]]]; try done.
  destruct (bool_decide_reflect (f1 ≠ keyType)) as [Ht|Ht]; [done|].
  rewrite bool_decide_eq_true_2 by (by apply dec_stable). cbn [andb]. intros Hex.
  rewrite (proj2 (Nat.eqb_eq _ _)); [done|]. by apply other_patterns_all.
Qed.

(** What such an entry is made of, and what is left of it. *)
Lemma entry_shape line :
  solid_text (host_field (trim_left_set blanks line)) = true → names line = true →
  ∃ lead rest, let f0 := host_field (trim_left_set blanks line) in
    line = lead +:+ f0 +:+ rest ∧ string_forall (λ c, contains_char c blanks) lead = true ∧
    starts_blank rest ∧ rest ≠ "" ∧
    dropKnownHostEntry line token keyType =
      (let kept := other_patterns (Split "," f0) in
       if length kept =? 0 then "" else lead +:+ Join kept "," +:+ rest) ∧
    ∃ t fs, Fields rest = keyType :: t :: fs.
Proof.
  intros Hf0 Hnames. destruct (trim_left_set_split blanks line) as (lead & Hline & Hlead).
  unfold names, entry in *. unfold dropKnownHostEntry, leading_of.
  set (trimmed := trim_left_set blanks line) in *.
  destruct (bool_decide (trimmed = "") || _) eqn:Eskip; [done|]. apply orb_false_iff in Eskip as [Hne Hstart].
  apply bool_decide_eq_false_1 in Hne.
  destruct (host_field_split trimmed) as (rest & Hsplit & Hrest). set (f0 := host_field trimmed) in *.
  assert (f0 ≠ "") as Hf0ne.
  { intros He. rewrite He, app_nil in Hsplit. clear f0 Hf0 He. destruct trimmed as [|c s] eqn:Et; [done|]. subst rest.
    destruct Hrest as [_ Hsp]. unfold text_space in Hsp. cbn [starts_with] in Hstart.
    assert (contains_char c blanks = true) as Hblank.
    { revert Hsp Hstart. clear.
      destruct c as [[] [] [] [] [] [] [] []]; intros Hsp Hstart; first [discriminate Hsp|discriminate Hstart|reflexivity]. }
    subst trimmed. clear -Et Hblank. revert c s Et Hblank. induction line as [|d line IH]; intros c s; [done|].
    cbn [trim_left_set]. destruct (contains_char d blanks) eqn:E; [apply IH|]. intros [= -> ->]. congruence. }
  rewrite Hsplit in Hnames |- *. rewrite Fields_word in Hnames |- * by done.
  destruct (Fields rest) as [|f1 [|f2 fs]] eqn:Efields; try done.
  apply andb_true_iff in Hnames as [Htype%bool_decide_eq_true_1 Hex]. subst f1.
  exists lead, rest. cbv zeta. rewrite <- Hsplit.
  split; [done|]. split; [done|]. split; [done|]. split; [by intros ->|]. split; [|by eauto].
  rewrite bool_decide_eq_false_2 by (intros Hc; by apply Hc).
  fold (other_patterns (Split "," f0)).
  destruct (length (other_patterns (Split "," f0)) =? length (Split "," f0)) eqn:Elen.
  { apply Nat.eqb_eq, other_patterns_all in Elen. congruence. }
  cbv zeta. destruct (length (other_patterns _) =? 0); [done|].
  rewrite Hline at 1 2. rewrite length_str_app.
  replace (String.length lead + String.length trimmed - String.length trimmed) with (String.length lead) by lia.
  by rewrite take_string_app, Hsplit, drop_string_app.
Qed.

Lemma names_no_match line patterns t :
  entry line = Some (patterns, t) → Forall (λ p, knownHostPatternIs p token = false) patterns → names line = false.
Proof.
  intros He Hall. unfold names. rewrite He. apply andb_false_iff. right.
  clear He. induction Hall as [|p ps Hp _ IH]; [done|]. cbn [existsb]. by rewrite Hp, IH.
Qed.

(** The host list of an entry for the endpoint, as ssh writes it: printable ASCII, and not
    one empty name when the endpoint is taken out. *)
Definition plain_hosts (line : string) : Prop :=
  let hosts := host_field (trim_left_set blanks line) in
  solid_text hosts = true ∧ other_patterns (Split "," hosts) ≠ [""].

Definition editable (line : string) : Prop := names line = true → plain_hosts line.

Lemma other_patterns_ok f0 :
  solid_text f0 = true →
  Forall (λ p, no_comma p = true ∧ solid_text p = true ∧ knownHostPatternIs p token = false) (other_patterns (Split "," f0)).
Proof.
  intros Hf0. apply Forall_forall. intros p [Ho Hp]%list_elem_of_filter.
  pose proof (Split_pieces _ f0 Hf0) as Hpieces. rewrite Forall_forall in Hpieces. specialize (Hpieces p Hp).
  naive_solver.
Qed.

Lemma other_patterns_solid f0 : solid_text f0 = true → solid_text (Join (other_patterns (Split "," f0)) ",") = true.
Proof.
  intros Hf0. apply Join_forall; [done|]. eapply Forall_impl; [exact (other_patterns_ok f0 Hf0)|]. by intros p (_ & ? & _).
Qed.

Lemma drop_gone line : editable line → names (dropKnownHostEntry line token keyType) = false.
Proof.
  intros Hedit. destruct (names line) eqn:Hn; [|by rewrite drop_others]. destruct (Hedit Hn) as [Hf0 Hone].
  destruct (entry_shape line Hf0 Hn) as (lead & rest & Hline & Hlead & Hrest & Hrne & -> & t & fs & Hfields).
  set (f0 := host_field (trim_left_set blanks line)) in *.
  cbv zeta. destruct (length (other_patterns (Split "," f0)) =? 0) eqn:Elen; [done|]. apply Nat.eqb_neq in Elen.
  pose proof (other_patterns_ok f0 Hf0) as Hkept. pose proof (other_patterns_solid f0 Hf0) as Hsolid.
  set (kept := other_patterns (Split "," f0)) in *. assert (kept ≠ []) as Hkne by by intros ->.
  pose proof (Join_not_empty kept Hkne Hone) as Hjne.
  destruct (entry (lead +:+ Join kept "," +:+ rest)) as [[ps t']|] eqn:Enew; [|unfold names; by rewrite Enew].
  apply (names_no_match _ ps t' Enew). unfold entry in Enew. rewrite trim_left_set_app in Enew by done.
  assert (trim_left_set blanks (Join kept "," +:+ rest) = Join kept "," +:+ rest) as Htrim.
  { destruct (Join kept ",") as [|c s]; [done|]. rewrite app_cons. apply trim_left_set_head.
    cbn [solid_text string_forall] in Hsolid. apply andb_true_iff in Hsolid as [[_ Hc]%andb_true_iff _].
    revert Hc. clear. destruct c as [[] [] [] [] [] [] [] []]; intros Hc; first [discriminate Hc|reflexivity]. }
  rewrite Htrim, Fields_word, Hfields in Enew by done. destruct (_ || _) in Enew; [done|]. injection Enew as <- _.
  rewrite Split_Join; [|done|eapply Forall_impl; [exact Hkept|]; by intros p (? & _)].
  eapply Forall_impl; [exact Hkept|]. by intros p (_ & _ & ?).
Qed.

(** ** The whole file *)

Lemma solid_no_LF s : solid_text s = true → no_LF s = true.
Proof.
  induction s as [|c s IH]; [done|]. unfold solid_text. cbn [string_forall]. intros [Hc Hs]%andb_true_iff.
  rewrite no_LF_cons, (IH Hs), andb_true_r. destruct (Ascii.eqb_spec c (char 10)) as [->|]; done.
Qed.

Lemma blanks_no_LF s : string_forall (λ c, contains_char c blanks) s = true → no_LF s = true.
Proof.
  induction s as [|c s IH]; [done|]. cbn [string_forall]. intros [Hc Hs]%andb_true_iff.
  rewrite no_LF_cons, (IH Hs), andb_true_r. destruct (Ascii.eqb_spec c (char 10)) as [->|]; done.
Qed.

(** The parts of an edited line before [rest] have no line break. *)
Lemma drop_front line :
  editable line →
  dropKnownHostEntry line token keyType = line ∨ dropKnownHostEntry line token keyType = "" ∨
  ∃ front front' rest, line = front +:+ rest ∧ dropKnownHostEntry line token keyType = front' +:+ rest ∧ rest ≠ "" ∧
    no_LF front' = true.
Proof.
  intros Hedit. destruct (names line) eqn:Hn; [right|by left; apply drop_others]. destruct (Hedit Hn) as [Hf0 _].
  destruct (entry_shape line Hf0 Hn) as (lead & rest & Hline & Hlead & Hrest & Hrne & -> & _).
  set (f0 := host_field (trim_left_set blanks line)) in *.
  cbv zeta. destruct (_ =? 0); [by left|right]. exists (lead +:+ f0), (lead +:+ Join (other_patterns (Split "," f0)) ","), rest.
  rewrite <- !str_app_assoc. split; [done|]. split; [done|]. split; [done|].
  rewrite no_LF_app, (blanks_no_LF lead) by done. by apply solid_no_LF, other_patterns_solid.
Qed.

Lemma app_ends s rest b : s +:+ rest = b +:+ LF1 → rest ≠ "" → ∃ r, rest = r +:+ LF1 ∧ b = s +:+ r.
Proof.
  revert b. induction s as [|c s IH]; intros b; [rewrite app_nil; intros -> _; by exists b|].
  rewrite app_cons. destruct b as [|d b].
  - rewrite app_nil. intros [= -> Hs] Hne. by destruct s, rest.
  - rewrite app_cons. intros [= -> Hs] Hne. destruct (IH _ Hs Hne) as (r & -> & ->). by exists r.
Qed.

Lemma drop_terminated line :
  editable line → terminated line →
  dropKnownHostEntry line token keyType = "" ∨ terminated (dropKnownHostEntry line token keyType).
Proof.
  intros Hedit (b & Hb & HLF).
  destruct (drop_front line Hedit) as [->|[->|(front & front' & rest & Hline & -> & Hrne & Hfront)]].
  - right. by exists b.
  - by left.
  - right. rewrite Hline in Hb. destruct (app_ends _ _ _ Hb Hrne) as (r & -> & ->).
    rewrite no_LF_app in HLF. apply andb_true_iff in HLF as [_ HLF].
    exists (front' +:+ r). by rewrite <- str_app_assoc, no_LF_app, Hfront, HLF.
Qed.

Lemma drop_unterminated line :
  editable line → no_LF line = true → no_LF (dropKnownHostEntry line token keyType) = true.
Proof.
  intros Hedit HLF.
  destruct (drop_front line Hedit) as [->|[->|(front & front' & rest & -> & -> & Hrne & Hfront)]]; [done..|].
  rewrite no_LF_app in *. rewrite Hfront. by apply andb_true_iff in HLF as [_ ->].
Qed.
End Entries.

(** A line with its break, which the last line of a file may lack. *)
Definition complete_line (l : string) : string := if ends_with_newline l then l else l +:+ LF1.

Lemma ends_with_newline_iff s : ends_with_newline s = true ↔ ∃ b, s = b +:+ LF1.
Proof.
  unfold ends_with_newline, HasSuffix. rewrite HasPrefix_spec. split.
  - intros [t Ht]. exists (string_rev t). rewrite <- (string_rev_involutive s), Ht, string_rev_distr. done.
  - intros [b ->]. exists (string_rev b). by rewrite string_rev_distr.
Qed.

Lemma complete_terminated l : terminated l → complete_line l = l.
Proof.
  intros (b & -> & _). unfold complete_line. by rewrite (proj2 (ends_with_newline_iff _)) by by exists b.
Qed.

Lemma unterminated_ends s r : no_LF r = true → r ≠ "" → ends_with_newline (s +:+ r) = false.
Proof.
  intros Hr Hne. apply not_true_iff_false. intros [b Hb]%ends_with_newline_iff.
  destruct (app_ends _ _ _ Hb Hne) as (r' & -> & _). rewrite no_LF_app in Hr. by rewrite andb_comm in Hr.
Qed.

Definition last_line (r : string) : list string := if bool_decide (r = "") then [] else [r].

Lemma complete_last r : no_LF r = true → Forall terminated (complete_line <$> last_line r).
Proof.
  intros Hr. unfold last_line. case_bool_decide as Hne; [done|]. apply Forall_singleton. unfold complete_line.
  rewrite <- (app_nil r) at 1. rewrite unterminated_ends by done. by exists r.
Qed.

Lemma complete_all ls : Forall terminated ls → complete_line <$> ls = ls.
Proof. induction 1 as [|l ls Hl _ IH]; [done|]. cbn. by rewrite complete_terminated, IH. Qed.

Lemma concat_lines_filter ls : concat_lines (filter (λ l, l ≠ "") ls) = concat_lines ls.
Proof.
  induction ls as [|l ls IH]; [done|]. destruct (decide (l = "")) as [->|Hl].
  - rewrite filter_cons_False by (intros Hc; by apply Hc). by rewrite IH.
  - rewrite filter_cons_True by done. cbn [concat_lines]. by rewrite IH.
Qed.

Lemma concat_lines_app ls ls' : concat_lines (ls ++ ls') = concat_lines ls +:+ concat_lines ls'.
Proof. induction ls as [|l ls IH]; [done|]. cbn [app concat_lines]. by rewrite IH, str_app_assoc. Qed.

Section Replacement.
Context `{K : SshKeys} `{!KnownHostsPackage} `{!HostNameHash}.

(** The line break [replaceKnownHost] adds when the last line has none. *)
Lemma close_last front r :
  Forall terminated front → no_LF r = true →
  (if negb (bool_decide (concat_lines front +:+ r = "")) && negb (ends_with_newline (concat_lines front +:+ r))
   then (concat_lines front +:+ r) +:+ LF1 else concat_lines front +:+ r)
  = concat_lines (complete_line <$> front ++ last_line r).
Proof.
  intros Hfront Hr. rewrite fmap_app, (complete_all front), concat_lines_app by done. unfold last_line.
  destruct (bool_decide_reflect (r = "")) as [->|Hne].
  - cbn [fmap list_fmap concat_lines].
    rewrite !str_app_nil_r. destruct front as [|l front _] using rev_ind; [done|].
    apply Forall_app in Hfront as [_ (b & -> & _)%Forall_singleton].
    rewrite concat_lines_app. cbn [concat_lines]. rewrite str_app_nil_r.
    rewrite (proj2 (ends_with_newline_iff _)); [by rewrite andb_false_r|].
    exists (concat_lines front +:+ b). by rewrite str_app_assoc.
  - rewrite unterminated_ends by done. rewrite (bool_decide_eq_false_2 (_ = "")).
    + cbn [negb andb fmap list_fmap concat_lines]. rewrite <- str_app_assoc, str_app_nil_r. do 2 f_equal.
      unfold complete_line. rewrite <- (app_nil r) at 2. by rewrite unterminated_ends.
    + intros He. destruct (concat_lines front); [by rewrite app_nil in He|done].
Qed.

Lemma drop_complete_lines token keyType ls :
  Forall (λ l, editable token keyType l ∧ terminated l) ls →
  Forall terminated (filter (λ l, l ≠ "") ((λ l, dropKnownHostEntry l token keyType) <$> ls)).
Proof.
  intros Hls. apply Forall_forall. intros l [Hne (l' & -> & Hl)%list_elem_of_fmap]%list_elem_of_filter.
  rewrite Forall_forall in Hls. destruct (Hls l' Hl) as (Hedit & Hterm).
  by destruct (drop_terminated token keyType l' Hedit Hterm).
Qed.

Lemma filter_last_line r :
  filter (λ l, l ≠ "") (last_line r) = last_line r.
Proof. unfold last_line. case_bool_decide; [done|]. by rewrite filter_cons_True. Qed.

(** The lines of the new file before its last one. *)
Lemma replaced_lines original token key :
  Forall (editable token (key_Type key)) (split_lines original) →
  no_LF (knownhosts_Line token key) = true →
  split_lines (replaced_content original token key) =
    (complete_line <$> filter (λ l, l ≠ "") ((λ l, dropKnownHostEntry l token (key_Type key)) <$> split_lines original))
    ++ [knownhosts_Line token key +:+ LF1].
Proof.
  intros Hhosts Hline. destruct (lines_of original) as (ls & r & -> & Hls & Hr).
  assert (split_lines (concat_lines ls +:+ r) = ls ++ last_line r) as Hsplit.
  { by rewrite split_lines_concat, split_lines_last. }
  unfold replaced_content. rewrite Hsplit in *. set (drop l := dropKnownHostEntry l token (key_Type key)).
  apply Forall_app in Hhosts as [Hhls Hhr].
  assert (Forall terminated (filter (λ l, l ≠ "") (drop <$> ls))) as Hterm.
  { apply drop_complete_lines, Forall_forall. intros l Hl. rewrite Forall_forall in Hls, Hhls.
    split; [by apply Hhls|by apply Hls]. }
  assert (no_LF (drop r) = true ∧ drop <$> last_line r = last_line (drop r) ∨
    no_LF (drop r) = true ∧ drop r = "" ∧ drop <$> last_line r = [""]) as Hlast.
  { unfold last_line in *. destruct (bool_decide_reflect (r = "")) as [->|Hre]; [left; by split|].
    rewrite Forall_singleton in Hhr. assert (no_LF (drop r) = true) as Hdr.
    { by apply drop_unterminated. }
    cbn [fmap list_fmap]. case_bool_decide as Hde; [right; by rewrite Hde|left; by split]. }
  assert (no_LF (drop r) = true ∧ concat_lines (drop <$> ls ++ last_line r) =
      concat_lines (filter (λ l, l ≠ "") (drop <$> ls)) +:+ drop r ∧
    filter (λ l, l ≠ "") (drop <$> ls ++ last_line r) = filter (λ l, l ≠ "") (drop <$> ls) ++ last_line (drop r))
    as (Hdr & -> & ->).
  { rewrite fmap_app, concat_lines_app, concat_lines_filter, filter_app.
    destruct Hlast as [[Hdr ->]|(Hdr & -> & ->)]; (split; [done|]).
    - rewrite filter_last_line. split; [|done]. f_equal. unfold last_line. case_bool_decide as Hde; [by rewrite Hde|].
      cbn. apply str_app_nil_r.
    - done. }
  cbv zeta. rewrite close_last by done. rewrite split_lines_concat.
  - f_equal. change (String (char 10) "") with LF1. rewrite <- (str_app_nil_r LF1) at 1. by rewrite split_lines_terminated.
  - rewrite fmap_app, complete_all by done. apply Forall_app. split; [done|by apply complete_last].
Qed.

Lemma split_lines_not_empty original l : l ∈ split_lines original → l ≠ "".
Proof.
  destruct (lines_of original) as (ls & r & -> & Hls & Hr). rewrite split_lines_concat, split_lines_last by done.
  intros [Hl|Hl]%elem_of_app.
  - rewrite Forall_forall in Hls. destruct (Hls l Hl) as (b & -> & _). by destruct b.
  - case_bool_decide; [by apply elem_of_nil in Hl|]. by apply list_elem_of_singleton in Hl as ->.
Qed.

(** A line break at the end of a text is not part of another white space. *)
Lemma strip_prefix_break p s : no_LF p = true → strip_prefix p (s +:+ LF1) = (λ r, r +:+ LF1) <$> strip_prefix p s.
Proof.
  revert s. induction p as [|a p IH]; intros s; [done|]. rewrite no_LF_cons. intros [Ha%negb_true_iff Hp]%andb_true_iff.
  destruct s as [|c s].
  - rewrite app_nil. cbn [strip_prefix]. unfold LF1. by rewrite Ha.
  - rewrite app_cons. cbn [strip_prefix]. destruct (Ascii.eqb a c); [by apply IH|done].
Qed.

Definition no_later_LF (p : string) : bool := match p with "" => false | String _ p' => no_LF p' end.

Lemma strip_any_break ps c s :
  forallb no_later_LF ps = true → strip_any ps (String c s +:+ LF1) = (λ r, r +:+ LF1) <$> strip_any ps (String c s).
Proof.
  induction ps as [|p ps IH]; [done|]. cbn [forallb]. intros [Hp Hps]%andb_true_iff. destruct p as [|a p]; [done|].
  rewrite app_cons. cbn [strip_any strip_prefix]. rewrite <- app_cons. destruct (Ascii.eqb a c); [|by apply IH].
  rewrite strip_prefix_break by done. destruct (strip_prefix p s); [done|by apply IH].
Qed.

Lemma space_length_break c s : space_length (String c s +:+ LF1) = space_length (String c s).
Proof.
  unfold space_length. rewrite strip_any_break by (by vm_compute). destruct (strip_any _ _) as [r|]; cbn [fmap option_fmap option_map]; [|done].
  rewrite !length_str_app. lia.
Qed.

Lemma space_length_le s : space_length s ≤ String.length s.
Proof. unfold space_length. destruct (strip_any _ _); lia. Qed.

Lemma fields_break n field s : n ≤ String.length s → fields_from n field (s +:+ LF1) = fields_from n field s.
Proof.
  revert n field. induction s as [|c s IH]; intros n field Hn; [by destruct n as [|n]; [destruct field|cbn in Hn; lia]|].
  cbn [String.length] in Hn. rewrite app_cons. destruct n as [|n]; [|cbn [fields_from]; apply IH; lia].
  cbn [fields_from]. rewrite <- app_cons, space_length_break.
  pose proof (space_length_le (String c s)) as Hle. destruct (space_length (String c s)) as [|m]; [by rewrite IH by lia|].
  cbn [String.length] in Hle. by rewrite IH by lia.
Qed.

Lemma trim_left_break s : trim_left_set blanks (s +:+ LF1) = trim_left_set blanks s +:+ LF1.
Proof.
  induction s as [|c s IH]; [done|]. rewrite app_cons. cbn [trim_left_set]. by destruct (contains_char c blanks).
Qed.

Lemma names_complete token keyType l : names token keyType (complete_line l) = names token keyType l.
Proof.
  unfold complete_line. destruct (ends_with_newline l); [done|]. unfold names.
  assert (entry (l +:+ LF1) = entry l) as ->; [|done]. unfold entry. rewrite trim_left_break.
  unfold Fields. rewrite fields_break by lia. by destruct (trim_left_set blanks l).
Qed.

(** C18: Accepting a changed key replaces only entries of its key type for its endpoint,
    in a file in which such entries have a host list of printable ASCII that is not one
    empty name without the endpoint, when the new line has no break. The new entry is then the last line and the only such
    entry; every line that was no such entry, whatever is in it, is kept byte for byte and
    in order; and of an entry that lists other hosts too, everything but the endpoint is
    kept. *)
Theorem replacement_keeps_other_entries original token key :
  Forall (λ l, names token (key_Type key) l = true → plain_hosts token l) (split_lines original) →
  no_LF (knownhosts_Line token key) = true →
  ∃ before,
    split_lines (replaced_content original token key) = before ++ [knownhosts_Line token key +:+ LF1] ∧
    (complete_line <$> filter (λ l, names token (key_Type key) l = false) (split_lines original)) `sublist_of` before ∧
    Forall (λ l, names token (key_Type key) l = false) before ∧
    ∀ l, l ∈ split_lines original → names token (key_Type key) l = true →
      ∃ lead hosts rest, l = lead +:+ hosts +:+ rest ∧ string_forall (λ c, contains_char c blanks) lead = true ∧
        solid_text hosts = true ∧ starts_blank rest ∧
        (other_patterns token (Split "," hosts) = []
         ∨ complete_line (lead +:+ Join (other_patterns token (Split "," hosts)) "," +:+ rest) ∈ before).
Proof.
  intros Hhosts Hline. eexists. split; [by apply replaced_lines|].
  set (drop l := dropKnownHostEntry l token (key_Type key)).
  assert (Forall (λ l, editable token (key_Type key) l ∧ l ≠ "") (split_lines original)) as Hok.
  { apply Forall_forall. intros l Hl. rewrite Forall_forall in Hhosts. split; [exact (Hhosts l Hl)|by eapply split_lines_not_empty]. }
  clear Hhosts. split_and!.
  - apply fmap_sublist. induction Hok as [|l ls (Hedit & Hne) _ IH]; [done|].
    rewrite fmap_cons. destruct (names token (key_Type key) l) eqn:En.
    + rewrite filter_cons_False by congruence.
      destruct (decide (drop l = "")) as [Hd|Hd]; [by rewrite filter_cons_False by (intros Hc; by apply Hc)|].
      rewrite filter_cons_True by done. by apply sublist_cons.
    + rewrite (filter_cons_True _ l) by done. assert (drop l = l) as -> by by apply drop_others.
      rewrite filter_cons_True by done. by apply sublist_skip.
  - apply Forall_fmap, Forall_forall. intros l' [_ (l & -> & Hl)%list_elem_of_fmap]%list_elem_of_filter.
    rewrite Forall_forall in Hok. destruct (Hok l Hl) as (Hedit & _). cbn. rewrite names_complete. by apply drop_gone.
  - intros l Hl Hn. rewrite Forall_forall in Hok. destruct (Hok l Hl) as (Hedit & _). destruct (Hedit Hn) as [Hf0 Hone].
    destruct (entry_shape token (key_Type key) l Hf0 Hn) as (lead & rest & Hl0 & Hlead & Hrest & Hrne & Hdrop & _).
    exists lead, (host_field (trim_left_set blanks l)), rest. split_and!; [done..|].
    set (kept := other_patterns _ _) in *. cbv zeta in Hdrop. destruct kept as [|k ks] eqn:Ekept; [by left|right].
    cbn [length Nat.eqb] in Hdrop. apply list_elem_of_fmap. exists (drop l). split; [by unfold drop; rewrite Hdrop|].
    apply list_elem_of_filter. split; [|by apply list_elem_of_fmap_2]. unfold drop. rewrite Hdrop. intros He.
    apply Hrne. destruct lead; [|done]. rewrite app_nil in He. by destruct (Join _ _).
Qed.
End Replacement.
