(* ===== verification/SshDial.v ===== *)
(** * Dialing: hops, jump chains and the session pool ([ssh/auth.go], [ssh/jump.go], [ssh/pool.go])

    How a connection gets an SSH session: directly or hop by hop through a jump chain,
    on a new or a pooled client. Every operation of the network takes one step; what it
    answers at step [n] is in the [Network], and what was done is logged. The handshake
    is the third-party [NewClientConn], an argument with its documented laws. *)

From stdpp Require Import pretty.
From S2P Require Import Prelude GoStrings GoErrors Config JumpChain Redaction FailurePolicy MachineContract KnownHosts.

Inductive AuthMethod := PublicKeys (privateKey : string) | Password (password : string).

Record ClientConfig `{K : SshKeys} := mkClientConfig {
  cc_User : string;
  cc_Auth : list AuthMethod;
  (** the host key callback: [None] trusts the key *)
  cc_HostKey : PublicKey → option refusal;
  cc_Algorithms : list string;
}.
Arguments mkClientConfig {_}.

(** What one handshake does: the server's key arrives, credentials are sent. *)
Inductive hs_event `{K : SshKeys} := HostKeyArrived (key : PublicKey) | AuthSent (m : AuthMethod).
Arguments HostKeyArrived {_}.
Arguments AuthSent {_}.

(** What the network answers at a step. *)
Record Network `{K : SshKeys} := mkNetwork {
  (** [Dialer.Dial], [SetDeadline] before and after the handshake *)
  nw_connect : nat → option sshError;
  nw_deadline : nat → option sshError;
  nw_clear : nat → option sshError;
  (** [previous.Dial] through a jump host, and whether its time ran out *)
  nw_tunnel : nat → option sshError;
  nw_tunnel_expired : nat → bool;
  nw_expired : nat → bool;
  (** [gossh.NewClientConn] *)
  nw_handshake : nat → ClientConfig → list hs_event * option sshError;
  (** [client.NewSession] *)
  nw_session : nat → option sshError;
  (** whether a wait for a session slot ended within its budget *)
  nw_slot : nat → bool;
  (** [known_hosts] *)
  nw_known_hosts : nat → KnownHostsFile;
}.
Arguments mkNetwork {_}.

(** The documented behaviour of the handshake: a credential is only sent when it is
    among the configured ones and after the callback trusted the server's key; and the
    refusal of a channel is an error of the calls that open one. *)
Class NetworkLaws `{K : SshKeys} (net : Network) : Prop := {
  sent_after_trust n cfg l1 m l2 :
    (nw_handshake net n cfg).1 = l1 ++ AuthSent m :: l2 →
    m ∈ cc_Auth cfg ∧ ∃ key, HostKeyArrived key ∈ l1 ∧ cc_HostKey cfg key = None;
  handshake_opens_no_channel n cfg e : (nw_handshake net n cfg).2 = Some e → x_OpenChannel e = None;
  clear_opens_no_channel n e : nw_clear net n = Some e → x_OpenChannel e = None;
}.

(** What is logged; a client is named by the address it is connected to. *)
Inductive dial_event `{K : SshKeys} :=
  | Connecting (address : string) (via : option string)
  | Handshaking (address : string) (e : hs_event)
  | ClientOpened (address : string)
  | ClientClosed (address : string)
  | SessionOpened (address : string)
  | SessionRefused (address : string)
  | SlotWait.
Arguments Connecting {_}.
Arguments Handshaking {_}.
Arguments ClientOpened {_}.
Arguments ClientClosed {_}.
Arguments SessionOpened {_}.
Arguments SessionRefused {_}.
Arguments SlotWait {_}.

(** ** Errors *)

Definition plain_error (msg : string) : sshError :=
  mkSSHError msg None None false None None None None false false false false None None.
Definition timeout_error (msg : string) : sshError :=
  mkSSHError msg None None false None (Some true) None None false false false false None None.
(** [fmt.Errorf] of a text and an error it wraps. *)
Definition wrap_error (prefix : string) (e : sshError) : sshError :=
  mkSSHError (prefix +:+ x_Message e) (x_Classified e) (x_Carrier e) (x_TypeChanged e) (x_KeyError e) (x_NetTimeout e)
    (x_Errno e) (x_Op e) (x_NetClosed e) (x_EOF e) (x_UnexpectedEOF e) (x_ExitMissing e) (x_OpenChannel e)
    (x_ExitStatus e).
(** [NewClassifiedError]: the chain still leads to the cause. *)
Definition classified_error (f : Failure) (cause : option sshError) : sshError :=
  match cause with
  | Some e => mkSSHError (ErrorMessage f) (Some f) (x_Carrier e) (x_TypeChanged e) (x_KeyError e) (x_NetTimeout e)
      (x_Errno e) (x_Op e) (x_NetClosed e) (x_EOF e) (x_UnexpectedEOF e) (x_ExitMissing e) (x_OpenChannel e)
      (x_ExitStatus e)
  | None => mkSSHError (ErrorMessage f) (Some f) None false None None None None false false false false None None
  end.

Definition with_past (b : bool) (f : Failure) : Failure :=
  let '(mkFailure ok er ms hi sg sc ou al ex ca vi ad _ sr ve hh to vs pl st sy cs pe ha re hp tw) := f in
  mkFailure ok er ms hi sg sc ou al ex ca vi ad b sr ve hh to vs pl st sy cs pe ha re hp tw.
Definition with_message (m : string) (f : Failure) : Failure :=
  let '(mkFailure ok er _ hi sg sc ou al ex ca vi ad pk sr ve hh to vs pl st sy cs pe ha re hp tw) := f in
  mkFailure ok er m hi sg sc ou al ex ca vi ad pk sr ve hh to vs pl st sy cs pe ha re hp tw.

Definition port_of (c : Connection) : Z := if bool_decide (c_Port c = 0%Z) then 22%Z else c_Port c.
Definition hostPortOf (c : Connection) : string := JoinHostPort (c_Host c) (pretty (port_of c)).

(** ** The state of a process that dials *)

Section Dial.
Context `{K : SshKeys} `{!KnownHostsPackage} `{!UnicodeCase}.
Context (RedactString : string → string) (windows : bool).
Context (net : Network).
(** [ParsePrivateKey], the home directory's [known_hosts], the throw-away key. *)
Context (ParsePrivateKey : string → option sshError) (knownHosts : option string) (probe : option PublicKey).

Record Dialing := mkDialing { dl_step : nat; dl_log : list dial_event }.

Definition D (A : Type) : Type := Dialing → A * Dialing.
#[export] Instance D_ret : MRet D := λ A a s, (a, s).
#[export] Instance D_bind : MBind D := λ A B f m s, let '(a, s') := m s in f a s'.

Definition tick : D nat := λ s, (dl_step s, mkDialing (S (dl_step s)) (dl_log s)).
Definition log (e : dial_event) : D () := λ s, ((), mkDialing (dl_step s) (dl_log s ++ [e])).
Definition log_all (es : list dial_event) : D () := λ s, ((), mkDialing (dl_step s) (dl_log s ++ es)).

(** ** One hop *)

Definition buildAuth (c : Connection) (v : Vault) : sshError + list AuthMethod :=
  let key :=
    if bool_decide (c_KeyName c = "") then inr []
    else
      match GetKey v (c_KeyName c) with
      | None => inl (plain_error ("key " +:+ Quote (c_KeyName c) +:+ " not found"))
      | Some k =>
          match ParsePrivateKey (k_PrivateKey k) with
          | Some e => inl (wrap_error "invalid SSH key: " e)
          | None => inr [PublicKeys (k_PrivateKey k)]
          end
      end in
  match key with
  | inl e => inl e
  | inr methods =>
      let methods := methods ++ (if bool_decide (c_Password c = "") then [] else [Password (c_Password c)]) in
      match methods with
      | [] => inl (plain_error ("no authentication configured for " +:+ Quote (c_Name c)))
      | _ => inr methods
      end
  end.

Definition knownHostsPathError : sshError :=
  classified_error
    (Classify RedactString KnownHostsInspectionFailed
       (mkDetails "home directory unavailable" (Some "home directory unavailable") "" "" [] "" 0 "" "" "" "" "" "" "" ""))
    (Some (plain_error "home directory unavailable")).

(** The configuration of a hop: its own user, credentials and host key callback. *)
Definition hop_config (c : Connection) (auth : list AuthMethod) (path : string) (file : KnownHostsFile) : ClientConfig :=
  let address := hostPortOf c in
  mkClientConfig (c_User c) auth (buildHostKeyCallbackForPath path file address)
    (hostKeyAlgorithmsFor path file probe address).

(** Whether the host key arrived, which is what [reached] records. *)
Definition key_arrived (trace : list hs_event) : bool :=
  existsb (λ e, match e with HostKeyArrived _ => true | AuthSent _ => false end) trace.

(** The handshake; the flag is [reached]. *)
Definition handshake (address : string) (cfg : ClientConfig) : D (bool * option sshError) :=
  n ← tick;
  let '(trace, err) := nw_handshake net n cfg in
  _ ← log_all (Handshaking address <$> trace);
  mret (key_arrived trace, err).

Definition dialConnectDeadline (address : string) : D (option sshError) :=
  n ← tick;
  _ ← log (Connecting address None);
  match nw_connect net n with
  | Some e => mret (Some e)
  | None => mret (nw_deadline net n)
  end.

(** [dialSSHClient] without an abort. *)
Definition dialSSHClient (address : string) (cfg : ClientConfig) : D (bool * option sshError) :=
  connected ← dialConnectDeadline address;
  match connected with
  | Some e => mret (false, Some e)
  | None =>
      '(reached, err) ← handshake address cfg;
      match err with
      | Some e => mret (reached, Some e)
      | None =>
          n ← tick;
          match nw_clear net n with
          | Some e => mret (reached, Some e)
          | None => _ ← log (ClientOpened address); mret (reached, None)
          end
      end
  end.

(** The steps before the network: what a hop needs, in the order of the code. *)
Definition dialDirectHop (c : Connection) (v : Vault) : D (bool * option sshError) :=
  match buildAuth c v with
  | inl e => mret (false, Some e)
  | inr auth =>
      match knownHosts with
      | None => mret (false, Some knownHostsPathError)
      | Some path =>
          n ← tick;
          dialSSHClient (hostPortOf c) (hop_config c auth path (nw_known_hosts net n))
      end
  end.

Definition dialTunnel (previous address : string) : D (option sshError) :=
  n ← tick;
  _ ← log (Connecting address (Some previous));
  if nw_tunnel_expired net n then mret (Some (timeout_error ("dial tcp " +:+ address +:+ ": i/o timeout (through jump host)")))
  else mret (wrap_error "connect: " <$> nw_tunnel net n).

Definition tunnel_expired (address : string) : sshError :=
  timeout_error ("ssh: handshake failed: i/o timeout through tunnel to " +:+ address).

(** An expired deadline closes the channel: the handshake then failed, whatever it
    returned. *)
Definition handshakeOverTunnel (address : string) (cfg : ClientConfig) : D (bool * option sshError) :=
  n ← tick;
  '(reached, err) ← handshake address cfg;
  if nw_expired net n then mret (reached, Some (tunnel_expired address)) else mret (reached, err).

Definition dialHopThrough (previous : string) (hop : Connection) (v : Vault) : D (bool * option sshError) :=
  match buildAuth hop v with
  | inl e => mret (false, Some e)
  | inr auth =>
      match knownHosts with
      | None => mret (false, Some knownHostsPathError)
      | Some path =>
          let address := hostPortOf hop in
          tunnel ← dialTunnel previous address;
          match tunnel with
          | Some e => mret (false, Some e)
          | None =>
              n ← tick;
              '(reached, err) ← handshakeOverTunnel address (hop_config hop auth path (nw_known_hosts net n));
              match err with
              | Some e => mret (reached, Some e)
              | None => _ ← log (ClientOpened address); mret (reached, None)
              end
          end
      end
  end.

(** ** Classification of a hop *)

Definition connection_context (c : Connection) : SSHContext :=
  mkContext (c_Name c) "" (c_Host c) (c_Port c) "" false false false.

Definition ClassifyError (err : sshError) (c : Connection) : Failure :=
  ClassifySSH RedactString windows (Some err) (connection_context c).

Definition classifyHop (err : sshError) (target hop : Connection) (chained : bool) (reached tunneled : bool) : Failure :=
  if negb chained then
    let failure := ClassifyError err target in if reached then with_past true failure else failure
  else
    let failure := ClassifySSH RedactString windows (Some err)
      (mkContext (c_Name target) "" (c_Host hop) (port_of hop) "" false tunneled false) in
    let failure := if reached then with_past true failure else failure in
    let via := RedactString (c_Name hop) in
    let failure := with_via via failure in
    let failure :=
      if bool_decide (f_Message failure = "") then failure
      else with_message ("via " +:+ via +:+ ": " +:+ f_Message failure) failure in
    if Contains (f_Hint failure) "<alias>"
    then with_hint (ReplaceAll (f_Hint failure) "<alias>" via) failure else failure.

Definition jump_error_text (e : JumpChainError) : string :=
  let path := Join (je_Chain e) " -> " in
  match je_Reason e with
  | JumpCycle => "proxy_jump chain has a cycle at " +:+ Quote (je_Alias e) +:+ " (" +:+ path +:+ ")"
  | JumpDepth =>
      "proxy_jump chain is deeper than 5 jump hosts at " +:+ Quote (je_Alias e) +:+ " (" +:+ path +:+ ")"
  | JumpMissing => "proxy_jump alias " +:+ Quote (je_Alias e) +:+ " does not exist (" +:+ path +:+ ")"
  end.

Definition invalidJumpChainError (target : Connection) (e : JumpChainError) : sshError :=
  let text := jump_error_text e in
  classified_error
    (with_via (RedactString (je_Alias e))
       (Classify RedactString InvalidProxyJump
          (mkDetails text (Some text) (c_Name target) "" [] "" 0 "" "" "" "" "" "" "" "")))
    (Some (plain_error text)).

(** ** Chains *)

Fixpoint closeClients (clients : list string) : D () :=
  match clients with
  | [] => mret ()
  | c :: clients' => _ ← closeClients clients'; log (ClientClosed c)
  end.

(** The loop of [dialHops]; [opened] are the clients so far, in order. *)
Fixpoint dial_hops (hops : list Connection) (target : Connection) (v : Vault) (opened : list string) :
    D (sshError + list string) :=
  match hops with
  | [] => mret (inr opened)
  | hop :: hops' =>
      '(reached, err) ←
        match last opened with
        | None => dialDirectHop hop v
        | Some previous => dialHopThrough previous hop v
        end;
      match err with
      | Some e =>
          _ ← closeClients opened;
          mret (inl (classified_error (classifyHop e target hop true reached (0 <? length opened)) (Some e)))
      | None => dial_hops hops' target v (opened ++ [hostPortOf hop])
      end
  end.

Definition dialHops (hops : list Connection) (target : Connection) (v : Vault) : D (sshError + list string) :=
  dial_hops hops target v [].

(** The client of the target; closing it later closes the jump clients. *)
Definition dialChain (chain : list Connection) (target : Connection) (v : Vault) : D (sshError + string) :=
  clients ← dialHops chain target v;
  match clients with
  | inl e => mret (inl e)
  | inr clients => mret (inr (default "" (last clients)))
  end.

(** [redirects] is what [ResolveJumpChain] loads. *)
Definition dialSSHFresh (redirects : Redirects) (c : Connection) (v : Vault) : D (sshError + string) :=
  if negb (bool_decide (TrimSpace (c_ProxyJump c) = "")) then
    match ResolveJumpChain redirects v c with
    | Some (inl e) => mret (inl (invalidJumpChainError c e))
    | Some (inr chain) => dialChain chain c v
    | None => mret (inl (plain_error ""))
    end
  else
    '(reached, err) ← dialDirectHop c v;
    match err with
    | Some e => mret (inl (classified_error (classifyHop e c c false reached false) (Some e)))
    | None => mret (inr (hostPortOf c))
    end.

(** ** Sessions *)

Definition NewSession (client : string) : D (option sshError) :=
  n ← tick;
  match nw_session net n with
  | None => _ ← log (SessionOpened client); mret None
  | Some e => _ ← log (SessionRefused client); mret (Some e)
  end.

(** A session on a client, or the stage that failed and its error. *)
Inductive acquisition := Acquired (client : string) | AcquireFailed (stage : string) (e : sshError).

(** A new client and a session on it; the first component is the client to keep. *)
Definition fresh_session (redirects : Redirects) (c : Connection) (v : Vault) (keep_limited : bool) :
    D (option string * acquisition) :=
  dialed ← dialSSHFresh redirects c v;
  match dialed with
  | inl e => mret (None, AcquireFailed "dial" e)
  | inr client =>
      refused ← NewSession client;
      match refused with
      | None => mret (Some client, Acquired client)
      | Some e =>
          if keep_limited && IsSessionLimit e then mret (Some client, AcquireFailed "session" e)
          else _ ← log (ClientClosed client); mret (None, AcquireFailed "session" e)
      end
  end.

(** One attempt on the pool entry, whose client is [pooled]. *)
Definition tryPooledSession (redirects : Redirects) (c : Connection) (v : Vault) (pooled : option string) :
    D (option string * acquisition) :=
  match pooled with
  | Some client =>
      refused ← NewSession client;
      match refused with
      | None => mret (Some client, Acquired client)
      | Some e =>
          if IsSessionLimit e then mret (Some client, AcquireFailed "session" e)
          else _ ← log (ClientClosed client); fresh_session redirects c v true
      end
  | None => fresh_session redirects c v true
  end.

Definition waitSessionSlot : D bool := n ← tick; _ ← log SlotWait; mret (nw_slot net n).

Definition session_limited (a : acquisition) : bool :=
  match a with Acquired _ => false | AcquireFailed _ e => IsSessionLimit e end.

(** Giving up is reported as a session failure, whatever stage the refusal came from. *)
Definition slot_refused (a : acquisition) : acquisition :=
  match a with Acquired _ => a | AcquireFailed _ e => AcquireFailed "session" e end.

(** The loop waits at least 12.5 ms a round within [DialTimeout()], so that [rounds]
    bounds it. *)
Fixpoint acquire_loop (rounds : nat) (redirects : Redirects) (c : Connection) (v : Vault) (pooled : option string) :
    D (option string * acquisition) :=
  '(pooled, a) ← tryPooledSession redirects c v pooled;
  if session_limited a then
    match rounds with
    | O => mret (pooled, slot_refused a)
    | S n =>
        again ← waitSessionSlot;
        if again : bool then acquire_loop n redirects c v pooled else mret (pooled, slot_refused a)
    end
  else mret (pooled, a).

Definition acquireSSHSession (rounds : nat) (reuse : bool) (redirects : Redirects) (c : Connection) (v : Vault)
    (pooled : option string) : D (option string * acquisition) :=
  if negb reuse then
    '(_, a) ← fresh_session redirects c v false; mret (pooled, a)
  else acquire_loop rounds redirects c v pooled.
End Dial.
