(* ===== verification/SshDialFacts.v ===== *)
(** * Credentials go to trusted hosts only

    Whatever the network does: a credential is only sent to a hop whose host key
    known_hosts trusted before in the same handshake, and only that hop's own; a
    failure that may be retried happened before any credential could reach the hop
    that failed; and a failed chain closes every client it opened, last first. *)

From stdpp Require Import pretty.
From S2P Require Import Prelude GoStrings GoErrors Config JumpChain Redaction FailurePolicy MachineContract ContractFacts KnownHosts SshDial.

Section Facts.
Context `{K : SshKeys} `{!KnownHostsPackage} `{!UnicodeCase}.
Context (RedactString : string → string) (windows : bool).
Context (net : Network) `{!NetworkLaws net}.
Context (ParsePrivateKey : string → option sshError) (knownHosts : option string) (probe : option PublicKey).
Implicit Types l : list dial_event.

(** ** What a program logs *)

Definition does {A} (m : D A) (P : A → list dial_event → Prop) : Prop :=
  ∀ s, ∃ l, dl_log (m s).2 = dl_log s ++ l ∧ P (m s).1 l.

Lemma does_ret {A} (a : A) (P : A → list dial_event → Prop) : P a [] → does (mret a) P.
Proof. intros Ha s. exists []. by rewrite app_nil_r. Qed.

Lemma does_bind {A B} (m : D A) (f : A → D B) (P : A → list dial_event → Prop) (Q : B → list dial_event → Prop) :
  does m P → (∀ a l, P a l → does (f a) (λ b l', Q b (l ++ l'))) → does (m ≫= f) Q.
Proof.
  intros Hm Hf s. destruct (Hm s) as (l & Hl & HP). unfold mbind, D_bind. destruct (m s) as [a s']. cbn in Hl, HP.
  destruct (Hf a l HP s') as (l' & Hl' & HQ). exists (l ++ l'). by rewrite Hl', Hl, (assoc_L (++)).
Qed.

Lemma does_mono {A} (m : D A) (P Q : A → list dial_event → Prop) :
  does m P → (∀ a l, P a l → Q a l) → does m Q.
Proof. intros Hm HPQ s. destruct (Hm s) as (l & Hl & HP). eauto. Qed.

Lemma does_tick (P : nat → list dial_event → Prop) : (∀ n, P n []) → does tick P.
Proof. intros HP s. exists []. by rewrite app_nil_r. Qed.

Lemma does_log e (P : () → list dial_event → Prop) : P () [e] → does (log e) P.
Proof. intros HP s. by exists [e]. Qed.

Lemma does_log_all es (P : () → list dial_event → Prop) : P () es → does (log_all es) P.
Proof. intros HP s. by exists es. Qed.

(** ** Trust before credentials *)

(** The credentials a hop may be sent: its own, after its key was trusted. *)
Definition sent_safely (v : Vault) (hops : list Connection) (before : list dial_event) (address : string) (m : AuthMethod) :
    Prop :=
  ∃ hop auth key path n, hop ∈ hops ∧ address = hostPortOf hop ∧ buildAuth ParsePrivateKey hop v = inr auth ∧ m ∈ auth ∧
    Handshaking address (HostKeyArrived key) ∈ before ∧
    buildHostKeyCallbackForPath path (nw_known_hosts net n) address key = None.

Definition safe (v : Vault) (hops : list Connection) (l : list dial_event) : Prop :=
  ∀ l1 address m l2, l = l1 ++ Handshaking address (AuthSent m) :: l2 → sent_safely v hops l1 address m.

Lemma safe_nil v hops : safe v hops [].
Proof. intros l1 ? ? ? Hl. by destruct l1. Qed.

Lemma sent_safely_mono v hops hops' l0 l1 address m :
  hops ⊆ hops' → l0 ⊆ l1 → sent_safely v hops l0 address m → sent_safely v hops' l1 address m.
Proof. intros Hh Hl (hop & auth & key & path & n & Hhop & ? & ? & ? & Hin & ?). exists hop, auth, key, path, n. set_solver. Qed.

Lemma safe_mono v hops hops' l : hops ⊆ hops' → safe v hops l → safe v hops' l.
Proof. intros Hh Hs l1 address m l2 Hl. eapply sent_safely_mono; [exact Hh|done|]. by eapply Hs. Qed.

Lemma safe_app v hops l l' : safe v hops l → safe v hops l' → safe v hops (l ++ l').
Proof.
  intros Hl Hl' l1 address m l2 Heq. apply app_eq_app in Heq as (k & [[-> Hk]|[-> Hk]]).
  - destruct k as [|e k].
    + cbn in Hk. subst l'. eapply sent_safely_mono; [done| |by eapply (Hl' [])]. by apply list_subseteq_nil.
    + injection Hk as <- ->. by eapply Hl.
  - eapply sent_safely_mono; [done| |by eapply Hl']. by apply list_subseteq_app_r.
Qed.

Lemma safe_quiet v hops l : (∀ address m, Handshaking address (AuthSent m) ∉ l) → safe v hops l.
Proof. intros Hq l1 address m l2 ->. exfalso. eapply Hq. apply elem_of_app. right. left. Qed.

(** A program that only logs safe events. *)
Definition keeps_safe {A} (v : Vault) (hops : list Connection) (m : D A) : Prop := does m (λ _, safe v hops).

Lemma keeps_safe_bind {A B} v hops (m : D A) (f : A → D B) :
  keeps_safe v hops m → (∀ a, keeps_safe v hops (f a)) → keeps_safe v hops (m ≫= f).
Proof.
  intros Hm Hf. eapply does_bind; [exact Hm|]. intros a l Hl. eapply does_mono; [apply Hf|]. intros b l' Hl'.
  by apply safe_app.
Qed.

Lemma keeps_safe_ret {A} v hops (a : A) : keeps_safe v hops (mret a).
Proof. apply does_ret, safe_nil. Qed.
Lemma keeps_safe_tick v hops : keeps_safe v hops tick.
Proof. apply does_tick. intros _. apply safe_nil. Qed.
Lemma keeps_safe_log v hops e : (∀ address m, e ≠ Handshaking address (AuthSent m)) → keeps_safe v hops (log e).
Proof. intros He. apply does_log, safe_quiet. intros address m Hin. apply list_elem_of_singleton in Hin. by eapply He. Qed.

Lemma keeps_safe_handshake v hops hop auth path n :
  hop ∈ hops → buildAuth ParsePrivateKey hop v = inr auth →
  keeps_safe v hops (handshake net (hostPortOf hop) (hop_config probe hop auth path (nw_known_hosts net n))).
Proof.
  intros Hhop Hauth. unfold handshake. apply keeps_safe_bind; [apply keeps_safe_tick|]. intros n'.
  destruct (nw_handshake net n' _) as [trace err] eqn:Htrace. apply keeps_safe_bind; [|intros _; apply keeps_safe_ret].
  apply does_log_all. intros l1 address m l2 Hl. apply fmap_app_inv in Hl as (t1 & t2 & E1 & E2 & E3). subst l1 trace.
  destruct t2 as [|e t2]; [done|]. injection E2 as -> <- _.
  destruct (sent_after_trust n' (hop_config probe hop auth path (nw_known_hosts net n)) t1 m t2) as (Hm & key & Hkey & Htrust).
  { by rewrite Htrace. }
  exists hop, auth, key, path, n. split_and!; [done..| |done]. apply list_elem_of_fmap. by exists (HostKeyArrived key).
Qed.

Ltac safe_step :=
  lazymatch goal with
  | |- keeps_safe _ _ (mret _) => apply keeps_safe_ret
  | |- keeps_safe _ _ tick => apply keeps_safe_tick
  | |- keeps_safe _ _ (log _) => by apply keeps_safe_log
  | |- keeps_safe _ _ (handshake _ _ _) => by eapply keeps_safe_handshake
  | |- keeps_safe _ _ (_ ≫= _) => apply keeps_safe_bind; [|intros ?]
  | |- keeps_safe _ _ (match ?x with _ => _ end) => destruct x eqn:?
  end.
Ltac safe_steps := repeat safe_step.

Local Abbreviation dial_direct := (dialDirectHop RedactString net ParsePrivateKey knownHosts probe).
Local Abbreviation dial_through := (dialHopThrough RedactString net ParsePrivateKey knownHosts probe).

Lemma keeps_safe_direct v hops hop : hop ∈ hops → keeps_safe v hops (dial_direct hop v).
Proof. intros Hhop. unfold dialDirectHop, dialSSHClient, dialConnectDeadline. safe_steps. Qed.

Lemma keeps_safe_through v hops previous hop : hop ∈ hops → keeps_safe v hops (dial_through previous hop v).
Proof. intros Hhop. unfold dialHopThrough, handshakeOverTunnel, dialTunnel. safe_steps. Qed.

Lemma keeps_safe_close v hops clients : keeps_safe v hops (closeClients clients).
Proof. induction clients as [|c clients IH]; cbn [closeClients]; safe_steps; done. Qed.

Lemma keeps_safe_hops v all hops target opened :
  hops ⊆ all → keeps_safe v all (dial_hops RedactString windows net ParsePrivateKey knownHosts probe hops target v opened).
Proof.
  revert opened. induction hops as [|hop hops IH]; intros opened Hsub; cbn [dial_hops]; [safe_steps|].
  assert (hop ∈ all) by set_solver. apply keeps_safe_bind.
  - destruct (last opened); [by apply keeps_safe_through|by apply keeps_safe_direct].
  - intros [reached err]. destruct err; [|apply IH; set_solver].
    apply keeps_safe_bind; [apply keeps_safe_close|]. intros _. safe_steps.
Qed.

(** The hops of a connection: its jump chain, or itself. *)
Definition chain_of (redirects : Redirects) (c : Connection) (v : Vault) : list Connection :=
  if bool_decide (TrimSpace (c_ProxyJump c) = "") then [c]
  else match ResolveJumpChain redirects v c with Some (inr chain) => chain | _ => [] end.

Lemma keeps_safe_fresh redirects c v :
  keeps_safe v (chain_of redirects c v)
    (dialSSHFresh RedactString windows net ParsePrivateKey knownHosts probe redirects c v).
Proof.
  unfold dialSSHFresh, chain_of. destruct (bool_decide _); cbn [negb].
  - apply keeps_safe_bind; [apply keeps_safe_direct; set_solver|]. intros [reached err]. safe_steps.
  - destruct (ResolveJumpChain _ v c) as [[e|chain]|]; [safe_steps| |safe_steps].
    unfold dialChain, dialHops. apply keeps_safe_bind; [by apply keeps_safe_hops|]. intros clients. safe_steps.
Qed.

(** C2: A credential is only ever sent to a host of the chain, after known_hosts trusted
    the key that host presented in the same handshake, and it is that host's own. *)
Theorem credentials_follow_trust redirects c v s :
  ∃ l, dl_log (dialSSHFresh RedactString windows net ParsePrivateKey knownHosts probe redirects c v s).2 = dl_log s ++ l ∧
    safe v (chain_of redirects c v) l.
Proof. apply (keeps_safe_fresh redirects c v s). Qed.

(** ** What a hop leaves *)

Definition opens l : list string := omap (λ e, match e with ClientOpened a => Some a | _ => None end) l.
Definition closes l : list string := omap (λ e, match e with ClientClosed a => Some a | _ => None end) l.
Definition sends_to (address : string) l : Prop := ∃ m, Handshaking address (AuthSent m) ∈ l.

Lemma opens_app l l' : opens (l ++ l') = opens l ++ opens l'.
Proof. apply omap_app. Qed.
Lemma closes_app l l' : closes (l ++ l') = closes l ++ closes l'.
Proof. apply omap_app. Qed.

Lemma does_bind_tick {A} (f : nat → D A) Q : (∀ n, does (f n) Q) → does (tick ≫= f) Q.
Proof. intros Hf. eapply does_bind; [by apply (does_tick (λ _ l, l = []))|]. by intros n l ->. Qed.

Lemma does_bind_log {A} e (f : () → D A) (Q : A → list dial_event → Prop) :
  does (f ()) (λ b l, Q b (e :: l)) → does (log e ≫= f) Q.
Proof. intros Hf. eapply does_bind; [by apply (does_log e (λ _ l, l = [e]))|]. by intros [] l ->. Qed.

Lemma does_bind_handshake {A} address cfg (f : bool * option sshError → D A) (Q : A → list dial_event → Prop) :
  (∀ trace err, (key_arrived trace = false → ∀ m, AuthSent m ∉ trace) → (∀ e, err = Some e → IsSessionLimit e = false) →
     does (f (key_arrived trace, err)) (λ b l, Q b ((Handshaking address <$> trace) ++ l))) →
  does (handshake net address cfg ≫= f) Q.
Proof.
  intros Hf. unfold handshake. eapply (does_bind _ _ (λ r l, ∃ trace err, r = (key_arrived trace, err) ∧
    l = (Handshaking address <$> trace) ∧ (key_arrived trace = false → ∀ m, AuthSent m ∉ trace) ∧
    (∀ e, err = Some e → IsSessionLimit e = false))).
  - apply does_bind_tick. intros n. destruct (nw_handshake net n cfg) as [trace err] eqn:Htrace.
    eapply does_bind; [by apply (does_log_all _ (λ _ l, l = Handshaking address <$> trace))|].
    intros [] l ->. apply does_ret. rewrite app_nil_r. exists trace, err. split_and!; [done..| |].
    2: { intros e ->. unfold IsSessionLimit. rewrite (handshake_opens_no_channel n cfg e); [done|]. by rewrite Htrace. }
    intros Hk m Hin. apply list_elem_of_split in Hin as (l1 & l2 & Hsplit).
    destruct (sent_after_trust n cfg l1 m l2) as (_ & key & Hkey & _); [by rewrite Htrace|].
    assert (key_arrived trace = true); [|congruence]. apply existsb_exists. exists (HostKeyArrived key).
    split; [|done]. apply list_elem_of_In. rewrite Hsplit. set_solver.
  - intros r l (trace & err & -> & -> & Hk & He). by apply Hf.
Qed.

(** What dialing one hop leaves. *)
Definition hop_result (address : string) (r : bool * option sshError) l : Prop :=
  (∀ a, sends_to a l → a = address) ∧ closes l = [] ∧
  match r.2 with
  | None => opens l = [address]
  | Some e => opens l = [] ∧ (r.1 = false ∨ IsSessionLimit e = true → ∀ a, ¬ sends_to a l)
  end.

Lemma opens_trace address trace : opens (Handshaking address <$> trace) = [].
Proof. by induction trace. Qed.
Lemma closes_trace address trace : closes (Handshaking address <$> trace) = [].
Proof. by induction trace. Qed.
Lemma sends_trace a address trace l :
  sends_to a ((Handshaking address <$> trace) ++ l) → a = address ∧ (∃ m, AuthSent m ∈ trace) ∨ sends_to a l.
Proof.
  intros (m & [(e & He & Hin)%list_elem_of_fmap|Hin]%elem_of_app); [|right; by exists m].
  injection He as -> <-. left. split; [done|by exists m].
Qed.
Lemma sends_quiet a l : (∀ e, e ∈ l → ∀ a m, e ≠ Handshaking a (AuthSent m)) → ¬ sends_to a l.
Proof. intros Hq (m & Hin). by eapply Hq. Qed.
Lemma sends_cons a e l : (∀ a m, e ≠ Handshaking a (AuthSent m)) → sends_to a (e :: l) → sends_to a l.
Proof. intros He (m & [Hm|Hin]%elem_of_cons); [by edestruct He|by exists m]. Qed.
Lemma sends_nil a : ¬ sends_to a [].
Proof. intros (m & Hin). by apply elem_of_nil in Hin. Qed.

Lemma hop_failed address reached e l :
  opens l = [] → closes l = [] → (∀ a, ¬ sends_to a l) → hop_result address (reached, Some e) l.
Proof. intros Ho Hc Hs. split_and!; [|done..]. intros a Ha. by apply Hs in Ha. Qed.

(** After a handshake; [err] is what the hop reports in the end. *)
Lemma hop_after_handshake address trace (err : option sshError) before rest :
  (key_arrived trace = false → ∀ m, AuthSent m ∉ trace) → (∀ e, err = Some e → IsSessionLimit e = false) →
  before = [] ∨ (∃ via, before = [Connecting address via]) →
  rest = match err with Some _ => [] | None => [ClientOpened address] end →
  hop_result address (key_arrived trace, err) (before ++ (Handshaking address <$> trace) ++ rest).
Proof.
  intros Hk He Hb ->. set (rest := match err with Some _ => [] | None => _ end).
  assert (∀ a l, sends_to a (before ++ l) → sends_to a l) as Hbefore.
  { intros a l. destruct Hb as [->|(via & ->)]; [done|]. by apply sends_cons. }
  assert (∀ a, ¬ sends_to a rest) as Hrest.
  { intros a. apply sends_quiet. subst rest. destruct err; set_solver. }
  assert (opens before = [] ∧ closes before = []) as [Hbo Hbc] by by destruct Hb as [->|(via & ->)].
  split_and!.
  - intros a [[-> _]|Ha]%Hbefore%sends_trace; [done|by apply Hrest in Ha].
  - rewrite !closes_app, closes_trace, Hbc. subst rest. by destruct err.
  - cbn [snd fst]. rewrite !opens_app, opens_trace, Hbo. subst rest. destruct err as [e|]; [|done].
    split; [done|]. intros [Hr|Hl]; [|by rewrite He in Hl]. intros a [[_ (m & Hm)]|Ha]%Hbefore%sends_trace; [by eapply Hk|by apply Hrest in Ha].
Qed.

Lemma does_bind_ret {A B} (a : A) (f : A → D B) Q : does (f a) Q → does (mret a ≫= f) Q.
Proof. intros Hf s. apply (Hf s). Qed.

Lemma does_bind_bind {A B C} (m : D A) (f : A → D B) (g : B → D C) Q :
  does (m ≫= λ a, f a ≫= g) Q → does ((m ≫= f) ≫= g) Q.
Proof. intros Hf s. specialize (Hf s). unfold mbind, D_bind in *. by destruct (m s). Qed.

Ltac does_step :=
  lazymatch goal with
  | |- does (mret _) _ => apply does_ret
  | |- does (tick ≫= _) _ => apply does_bind_tick; intros ?
  | |- does (log _ ≫= _) _ => apply does_bind_log
  | |- does (mret _ ≫= _) _ => apply does_bind_ret
  | |- does (handshake _ _ _ ≫= _) _ => apply does_bind_handshake; intros ????
  | |- does ((_ ≫= _) ≫= _) _ => apply does_bind_bind
  | |- does ((match ?x with _ => _ end) ≫= _) _ => destruct x eqn:?
  | |- does (match ?x with _ => _ end) _ => destruct x eqn:?
  end.

Lemma hop_failed_quiet address reached e l :
  (∀ e, e ∈ l → ∃ address via, e = Connecting address via) → hop_result address (reached, Some e) l.
Proof.
  intros Hq. assert (opens l = [] ∧ closes l = []) as [Ho Hc].
  { induction l as [|e' l IH]; [done|]. destruct (Hq e') as (? & ? & ->); [set_solver|]. apply IH. set_solver. }
  apply hop_failed; [done..|]. intros a. apply sends_quiet. intros e' He' a' m ->. by destruct (Hq _ He') as (? & ? & ?).
Qed.

Lemma connecting_only address via e : e ∈ [Connecting address via] → ∃ address via, e = Connecting address via.
Proof. intros ->%list_elem_of_singleton. eauto. Qed.

Lemma clear_not_limited n e : nw_clear net n = Some e → IsSessionLimit e = false.
Proof. intros He. unfold IsSessionLimit. by rewrite (clear_opens_no_channel n e He). Qed.

(** The errors after a handshake are no refusals of a channel. *)
Ltac not_limited := first [done | by intros ? [= <-]; first [done | eapply clear_not_limited]].

Lemma direct_result hop v : does (dial_direct hop v) (hop_result (hostPortOf hop)).
Proof.
  unfold dialDirectHop, dialSSHClient, dialConnectDeadline. repeat does_step; cbn [fst snd] in *.
  all: try by apply hop_failed_quiet; intros ? ?%elem_of_nil.
  all: try by apply hop_failed_quiet; intros ? ?%connecting_only.
  all: apply (hop_after_handshake _ _ _ [_] _); [done|not_limited|by eauto|done].
Qed.

Lemma through_result previous hop v : does (dial_through previous hop v) (hop_result (hostPortOf hop)).
Proof.
  unfold dialHopThrough, handshakeOverTunnel, dialTunnel. repeat does_step; cbn [fst snd] in *.
  all: try by apply hop_failed_quiet; intros ? ?%elem_of_nil.
  all: try by apply hop_failed_quiet; intros ? ?%connecting_only.
  all: apply (hop_after_handshake _ _ _ [_] _); [done|not_limited|by eauto|done].
Qed.

(** ** Chains *)

Lemma past_with_via via f : f_PastKeyExchange (with_via via f) = f_PastKeyExchange f.
Proof. by destruct f. Qed.
Lemma past_with_message m f : f_PastKeyExchange (with_message m f) = f_PastKeyExchange f.
Proof. by destruct f. Qed.
Lemma past_with_hint h f : f_PastKeyExchange (with_hint h f) = f_PastKeyExchange f.
Proof. by destruct f. Qed.
Lemma past_with_past b f : f_PastKeyExchange (with_past b f) = b.
Proof. by destruct f. Qed.

Lemma classifyHop_past err target hop chained reached tunneled :
  reached = true → f_PastKeyExchange (classifyHop RedactString windows err target hop chained reached tunneled) = true.
Proof.
  intros ->. unfold classifyHop. destruct chained; cbn [negb]; [|apply past_with_past].
  repeat case_match; by rewrite ?past_with_hint, ?past_with_message, ?past_with_via, past_with_past.
Qed.

(** A failure that may be retried: no credential was sent to a host it did not reach. *)
Definition retry_is_safe (e : sshError) l : Prop :=
  ∃ f, x_Classified e = Some f ∧ (f_PastKeyExchange f = false → ∀ a, sends_to a l → a ∈ opens l).

Lemma classified_hop_error err target hop chained reached tunneled l opened :
  (reached = false → ∀ a, sends_to a l → a ∈ opened) → opened ⊆ opens l →
  retry_is_safe (classified_error (classifyHop RedactString windows err target hop chained reached tunneled) (Some err)) l.
Proof.
  intros Hsends Hsub. exists (classifyHop RedactString windows err target hop chained reached tunneled). split; [done|].
  intros Hpast a Ha. apply Hsub, Hsends; [|done]. destruct reached; [|done].
  by rewrite classifyHop_past in Hpast.
Qed.

Lemma close_result clients :
  does (closeClients clients) (λ _ l, closes l = reverse clients ∧ opens l = [] ∧ ∀ a, ¬ sends_to a l).
Proof.
  induction clients as [|c clients IH]; cbn [closeClients].
  - apply does_ret. split_and!; [done..|]. apply sends_nil.
  - eapply does_bind; [exact IH|]. intros [] l (Hc & Ho & Hs). apply does_log.
    rewrite closes_app, opens_app, Hc, Ho, reverse_cons. split_and!; [done..|].
    intros a (m & [Hin|Hin]%elem_of_app); [by eapply Hs; exists m|]. by apply list_elem_of_singleton in Hin.
Qed.

Lemma sends_app a l l' : sends_to a (l ++ l') ↔ sends_to a l ∨ sends_to a l'.
Proof. unfold sends_to. split; [intros (m & [?|?]%elem_of_app); eauto|intros [(m & ?)|(m & ?)]; exists m; set_solver]. Qed.

(** Credentials reached only hosts whose connection was completed. *)
Definition sends_opened l : Prop := ∀ a, sends_to a l → a ∈ opens l.

Lemma sends_opened_nil : sends_opened [].
Proof. intros a Ha. by apply sends_nil in Ha. Qed.

Lemma sends_opened_app l l' : sends_opened l → sends_opened l' → sends_opened (l ++ l').
Proof. intros Hl Hl' a [Ha|Ha]%sends_app; rewrite opens_app; [apply Hl in Ha|apply Hl' in Ha]; set_solver. Qed.

Local Abbreviation dial_chain := (dial_hops RedactString windows net ParsePrivateKey knownHosts probe).

Definition chain_result (hops : list Connection) (opened : list string) (r : sshError + list string) l : Prop :=
  match r with
  | inr clients => clients = opened ++ (hostPortOf <$> hops) ∧ opens l = (hostPortOf <$> hops) ∧ closes l = [] ∧
      sends_opened l
  | inl e => closes l = reverse (opened ++ opens l) ∧ retry_is_safe e l ∧ (IsSessionLimit e = true → sends_opened l)
  end.

Lemma chain_step hop hops opened r l l' :
  hop_result (hostPortOf hop) (r.1, None) l → chain_result hops (opened ++ [hostPortOf hop]) r.2 l' →
  chain_result (hop :: hops) opened r.2 (l ++ l').
Proof.
  intros (Hs & Hc & Ho) Hr. cbn [snd] in Ho.
  assert (sends_opened l) by by intros a ->%Hs; rewrite Ho; left.
  destruct r as [reached [e|clients]]; cbn [snd fst chain_result] in *.
  - destruct Hr as (Hcl & (f & Hf & Hretry) & Hlim). rewrite closes_app, opens_app, Hc, Ho, Hcl.
    split_and!; [by rewrite <- (assoc_L (++))|exists f; split; [done|]|].
    + intros Hpast. apply sends_opened_app; [done|]. exact (Hretry Hpast).
    + intros Hl. by apply sends_opened_app; [|apply Hlim].
  - destruct Hr as (-> & Hop & Hcl & Hsends). rewrite closes_app, opens_app, Hc, Ho, Hop, Hcl.
    split_and!; [by rewrite fmap_cons, <- (assoc_L (++))|by rewrite fmap_cons|done|].
    by apply sends_opened_app.
Qed.

Lemma dial_hops_result hops target v opened : does (dial_chain hops target v opened) (chain_result hops opened).
Proof.
  revert opened. induction hops as [|hop hops IH]; intros opened; cbn [dial_hops].
  { apply does_ret. cbn. rewrite app_nil_r. split_and!; [done..|]. intros a Ha. by apply sends_nil in Ha. }
  eapply (does_bind _ _ (hop_result (hostPortOf hop))).
  { destruct (last opened); [apply through_result|apply direct_result]. }
  intros [reached err] l Hhop. destruct err as [e|].
  - eapply does_bind; [apply close_result|]. intros [] l' (Hcl & Hop & Hsends). apply does_ret.
    rewrite app_nil_r. destruct Hhop as (Hs & Hc & Ho & Hquiet). cbn [fst] in Hquiet.
    split_and!.
    + by rewrite closes_app, opens_app, Hc, Hcl, Ho, Hop, app_nil_r.
    + apply (classified_hop_error _ _ _ _ _ _ _ []); [|set_solver].
      intros Hr a [Ha|Ha]%sends_app; [by destruct (Hquiet (or_introl Hr) a)|by apply Hsends in Ha].
    + intros Hl a [Ha|Ha]%sends_app; [by destruct (Hquiet (or_intror Hl) a)|by apply Hsends in Ha].
  - eapply does_mono; [apply IH|]. intros r l' Hr. by apply (chain_step hop hops opened (reached, r)).
Qed.

(** ** A new client *)

Definition dial_result (r : sshError + string) l : Prop :=
  match r with
  | inl e => retry_is_safe e l ∧ closes l = reverse (opens l) ∧ (IsSessionLimit e = true → sends_opened l)
  | inr client => last (opens l) = Some client ∧ closes l = [] ∧ sends_opened l
  end.

Lemma sends_opened_snoc e l : (∀ a m, e ≠ Handshaking a (AuthSent m)) → sends_opened l → sends_opened (l ++ [e]).
Proof.
  intros He Hl. apply sends_opened_app; [done|]. intros a (m & Ha%list_elem_of_singleton). by edestruct He.
Qed.

Lemma retry_is_safe_app e l l' : sends_opened l → retry_is_safe e l' → retry_is_safe e (l ++ l').
Proof.
  intros Hl (f & Hf & Hsafe). exists f. split; [done|]. intros Hpast. exact (sends_opened_app _ _ Hl (Hsafe Hpast)).
Qed.

Local Abbreviation dial_fresh := (dialSSHFresh RedactString windows net ParsePrivateKey knownHosts probe).

Lemma invalid_chain_result c e : dial_result (inl (invalidJumpChainError RedactString c e)) [].
Proof. split_and!; [|done..]. eexists. split; [reflexivity|]. intros _. apply sends_opened_nil. Qed.

Lemma chain_dial_result jumps target v : does (dialChain RedactString windows net ParsePrivateKey knownHosts probe
  (jumps ++ [target]) target v) dial_result.
Proof.
  unfold dialChain, dialHops. eapply does_bind; [apply dial_hops_result|]. intros [e|clients] l Hl.
  - apply does_ret. rewrite app_nil_r. destruct Hl as (Hc & Hr & Hl). by split_and!.
  - apply does_ret. rewrite app_nil_r. destruct Hl as (-> & Ho & Hc & Hs). split_and!; [|done..].
    rewrite Ho, fmap_app, app_nil_l. change (hostPortOf <$> [target]) with [hostPortOf target]. by rewrite !last_snoc.
Qed.

Lemma fresh_result redirects c v : does (dial_fresh redirects c v) dial_result.
Proof.
  unfold dialSSHFresh. destruct (bool_decide _); cbn [negb].
  - eapply does_bind; [apply direct_result|]. intros [reached [e|]] l (Hs & Hc & Hr); apply does_ret;
      rewrite app_nil_r; cbn [snd fst] in Hr.
    + destruct Hr as [Ho Hquiet]. split_and!; [|by rewrite Hc, Ho|].
      * apply (classified_hop_error _ _ _ _ _ _ _ []); [|set_solver]. intros Hr a Ha.
        by apply (Hquiet (or_introl Hr)) in Ha.
      * intros Hl a Ha. by apply (Hquiet (or_intror Hl)) in Ha.
    + split_and!; [by rewrite Hr|done|]. intros a ->%Hs. rewrite Hr. set_solver.
  - pose proof (ResolveJumpChain_ends redirects v c) as Hends.
    destruct (ResolveJumpChain redirects v c) as [[e|chain]|]; [|destruct Hends as [jumps ->]; apply chain_dial_result|done].
    apply does_ret. apply invalid_chain_result.
Qed.

(** ** A session *)

Definition sessions l : list string := omap (λ e, match e with SessionOpened a => Some a | _ => None end) l.

Lemma sessions_app l l' : sessions (l ++ l') = sessions l ++ sessions l'.
Proof. apply omap_app. Qed.

Definition session_event (client : string) (refused : option sshError) : dial_event :=
  match refused with None => SessionOpened client | Some _ => SessionRefused client end.

Lemma does_bind_session {A} client (f : option sshError → D A) (Q : A → list dial_event → Prop) :
  (∀ refused, does (f refused) (λ b l, Q b (session_event client refused :: l))) → does (NewSession net client ≫= f) Q.
Proof.
  intros Hf. unfold NewSession. apply does_bind_bind, does_bind_tick. intros n.
  destruct (nw_session net n) as [e|]; apply does_bind_bind, does_bind_log, does_bind_ret;
    [apply (Hf (Some e))|apply (Hf None)].
Qed.

(** What an acquisition leaves: at most one session, opened last, on its client. *)
Definition acquisition_result (r : option string * acquisition) l : Prop :=
  match r.2 with
  | Acquired client => sessions l = [client] ∧ sends_opened l
  | AcquireFailed stage e => sessions l = [] ∧ (stage = "dial" → retry_is_safe e l) ∧ (IsSessionLimit e = true → sends_opened l)
  end.

Lemma acquisition_after r l l' :
  sessions l = [] → sends_opened l → acquisition_result r l' → acquisition_result r (l ++ l').
Proof.
  intros Hl Hs. unfold acquisition_result. destruct r.2; rewrite sessions_app, Hl.
  - intros [? ?]. split; [done|by apply sends_opened_app].
  - intros (? & Hr & Hlim). split_and!; [done| |].
    + intros Hd. apply retry_is_safe_app; [done|by apply Hr].
    + intros Hlm. apply sends_opened_app; [done|by apply Hlim].
Qed.

(** The end of an acquisition on a connected client: [closed] tells whether it stays. *)
Lemma session_acquired pooled client : acquisition_result (pooled, Acquired client) [SessionOpened client].
Proof. split; [done|]. apply (sends_opened_snoc _ []); [done|apply sends_opened_nil]. Qed.
Lemma session_refused pooled client e l :
  l = [] ∨ l = [ClientClosed client] → acquisition_result (pooled, AcquireFailed "session" e) (SessionRefused client :: l).
Proof.
  intros Hl. assert (sends_opened (SessionRefused client :: l)) by (intros a (m & Hin); destruct Hl as [->| ->]; set_solver).
  split_and!; [by destruct Hl as [->| ->]|done|done].
Qed.

Local Abbreviation fresh := (fresh_session RedactString windows net ParsePrivateKey knownHosts probe).

Definition dial_quiet (r : sshError + string) l : Prop := dial_result r l ∧ sessions l = [].

Lemma no_session_trace address trace : sessions (Handshaking address <$> trace) = [].
Proof. by induction trace. Qed.

(** Programs that open no session. *)
Definition no_session {A} (m : D A) : Prop := does m (λ _ l, sessions l = []).

Lemma no_session_bind {A B} (m : D A) (f : A → D B) :
  no_session m → (∀ a, no_session (f a)) → does (m ≫= f) (λ _ l, sessions l = []).
Proof.
  intros Hm Hf. eapply does_bind; [exact Hm|]. intros a l Hl. eapply does_mono; [apply Hf|]. intros b l' Hl'.
  by rewrite sessions_app, Hl.
Qed.

Ltac quiet_step :=
  lazymatch goal with
  | |- does (mret _) _ => apply does_ret; reflexivity
  | |- does (log _) _ => apply does_log; reflexivity
  | |- does (tick ≫= _) _ => apply does_bind_tick; intros ?
  | |- does (match ?x with _ => _ end) _ => destruct x eqn:?
  | |- does (handshake _ _ _) _ => apply does_bind_tick; intros ?
  | |- does (log_all _) _ => apply does_log_all, no_session_trace
  | |- does (_ ≫= _) _ => eapply no_session_bind; [|intros ?]
  end.

Lemma no_session_direct hop v : no_session (dial_direct hop v).
Proof. unfold no_session, dialDirectHop, dialSSHClient, dialConnectDeadline. repeat (quiet_step; unfold no_session). Qed.
Lemma no_session_through previous hop v : no_session (dial_through previous hop v).
Proof. unfold no_session, dialHopThrough, handshakeOverTunnel, dialTunnel. repeat (quiet_step; unfold no_session). Qed.
Lemma no_session_close clients : no_session (closeClients clients).
Proof.
  induction clients as [|c clients IH]; cbn [closeClients]; [by apply does_ret|].
  apply no_session_bind; [done|]. intros []. by apply does_log.
Qed.
Lemma no_session_hops hops target v opened : no_session (dial_chain hops target v opened).
Proof.
  revert opened. induction hops as [|hop hops IH]; intros opened; cbn [dial_hops]; [by apply does_ret|].
  apply no_session_bind; [destruct (last opened); [apply no_session_through|apply no_session_direct]|].
  intros [reached [e|]]; [|apply IH]. apply no_session_bind; [apply no_session_close|]. intros []. by apply does_ret.
Qed.
Lemma no_session_fresh redirects c v : no_session (dial_fresh redirects c v).
Proof.
  unfold no_session, dialSSHFresh, dialChain, dialHops. destruct (negb _).
  - destruct (ResolveJumpChain _ v c) as [[e|chain]|]; [by apply does_ret| |by apply does_ret].
    apply no_session_bind; [apply no_session_hops|]. intros [e|clients]; by apply does_ret.
  - apply no_session_bind; [apply no_session_direct|]. intros [reached [e|]]; by apply does_ret.
Qed.

Lemma does_and {A} (m : D A) (P Q : A → list dial_event → Prop) : does m P → does m Q → does m (λ a l, P a l ∧ Q a l).
Proof.
  intros HP HQ s. destruct (HP s) as (l & Hl & ?), (HQ s) as (l' & Hl' & ?). rewrite Hl in Hl'. simplify_list_eq. eauto.
Qed.

Lemma fresh_session_result redirects c v keep : does (fresh redirects c v keep) acquisition_result.
Proof.
  unfold fresh_session. eapply does_bind; [apply does_and; [apply fresh_result|apply no_session_fresh]|].
  intros [e|client] l [Hd Hq].
  - apply does_ret. rewrite app_nil_r. destruct Hd as (Hr & _ & Hl). by split_and!.
  - destruct Hd as (_ & _ & Hs). eapply does_mono; [|intros r l' Hr; by apply acquisition_after].
    apply does_bind_session. intros [e|]; [|apply does_ret, session_acquired].
    case_match; [apply does_ret, session_refused; by left|].
    apply does_bind_log, does_ret, session_refused. by right.
Qed.

Lemma refused_quiet client e : sessions [session_event client (Some e)] = [] ∧ sends_opened [session_event client (Some e)].
Proof. split; [done|]. apply (sends_opened_snoc _ []); [done|apply sends_opened_nil]. Qed.

Lemma pooled_session_result redirects c v pooled :
  does (tryPooledSession RedactString windows net ParsePrivateKey knownHosts probe redirects c v pooled) acquisition_result.
Proof.
  unfold tryPooledSession. destruct pooled as [client|]; [|apply fresh_session_result].
  apply does_bind_session. intros [e|]; [|apply does_ret, session_acquired].
  case_match; [apply does_ret, session_refused; by left|]. apply does_bind_log.
  eapply does_mono; [apply fresh_session_result|]. intros r l Hr.
  apply (acquisition_after r [session_event client (Some e); ClientClosed client]); [done| |done].
  apply (sends_opened_snoc _ [_]); [done|apply refused_quiet].
Qed.

Lemma slot_refused_result pooled a l :
  session_limited a = true → acquisition_result (pooled, a) l → acquisition_result (pooled, slot_refused a) l.
Proof. destruct a as [client|stage e]; [done|]. intros Hlim (Hs & _ & Hl). by split_and!. Qed.

(** Waiting for a slot only starts over after credentials reached completed connections. *)
Lemma acquire_loop_result n redirects c v pooled :
  does (acquire_loop RedactString windows net ParsePrivateKey knownHosts probe n redirects c v pooled) acquisition_result.
Proof.
  revert pooled. induction n as [|n IH]; intros pooled; cbn [acquire_loop];
    (eapply does_bind; [apply pooled_session_result|]); intros [pooled' a] l Hl;
    (destruct (session_limited a) eqn:Hlim; [|apply does_ret; by rewrite app_nil_r]).
  { apply does_ret. rewrite app_nil_r. by apply slot_refused_result. }
  unfold waitSessionSlot. apply does_bind_bind, does_bind_tick. intros k. apply does_bind_bind, does_bind_log, does_bind_ret.
  destruct (nw_slot net k).
  - eapply does_mono; [apply IH|]. intros r l' Hr. rewrite cons_middle, (assoc_L (++)).
    destruct a as [client|stage e]; [done|]. destruct Hl as (Hs & _ & Hl).
    apply acquisition_after; [by rewrite sessions_app, Hs| |done].
    apply sends_opened_snoc; [done|by apply Hl].
  - apply does_ret. pose proof (slot_refused_result _ _ _ Hlim Hl) as Hr. revert Hr. destruct a as [client|stage e]; [done|].
    intros (Hs & Hd & Hl'). split_and!; [by rewrite sessions_app, Hs|done|].
    intros Hl2. apply sends_opened_snoc; [done|by apply Hl'].
Qed.

Lemma acquire_result n reuse redirects c v pooled :
  does (acquireSSHSession RedactString windows net ParsePrivateKey knownHosts probe n reuse redirects c v pooled)
    acquisition_result.
Proof.
  unfold acquireSSHSession. destruct reuse; [apply acquire_loop_result|]. cbn [negb].
  eapply does_bind; [apply fresh_session_result|]. intros [p a] l Hl. apply does_ret. by rewrite app_nil_r.
Qed.

(** ** Errors keep their exits *)

(** A classification an error carries never exits with zero. *)
Definition sound_error (e : sshError) : Prop := ∀ f, x_Classified e = Some f → f_Exit f ≠ 0%Z.

(** Errors of other packages carry no classification of zero. *)
Class SoundErrors : Prop := {
  sound_connect n e : nw_connect net n = Some e → sound_error e;
  sound_deadline n e : nw_deadline net n = Some e → sound_error e;
  sound_clear n e : nw_clear net n = Some e → sound_error e;
  sound_tunnel n e : nw_tunnel net n = Some e → sound_error e;
  sound_handshake n cfg e : (nw_handshake net n cfg).2 = Some e → sound_error e;
  sound_session n e : nw_session net n = Some e → sound_error e;
  sound_key key e : ParsePrivateKey key = Some e → sound_error e;
}.
Context {Hsound : SoundErrors}.

Definition yields {A} (m : D A) (P : A → Prop) : Prop := ∀ s, P (m s).1.

Lemma yields_ret {A} (a : A) (P : A → Prop) : P a → yields (mret a) P.
Proof. by intros Ha s. Qed.
Lemma yields_bind {A B} (m : D A) (f : A → D B) (P : A → Prop) (Q : B → Prop) :
  yields m P → (∀ a, P a → yields (f a) Q) → yields (m ≫= f) Q.
Proof.
  intros Hm Hf s. specialize (Hm s). unfold mbind, D_bind. destruct (m s) as [a s']. by apply Hf.
Qed.
Lemma yields_any {A B} (m : D A) (f : A → D B) (Q : B → Prop) : (∀ a, yields (f a) Q) → yields (m ≫= f) Q.
Proof. intros Hf. by apply (yields_bind m f (λ _, True)). Qed.

Definition sound_result (r : bool * option sshError) : Prop := ∀ e, r.2 = Some e → sound_error e.
Definition sound_sum {A} (r : sshError + A) : Prop := ∀ e, r = inl e → sound_error e.

Lemma wrap_sound p e : sound_error e → sound_error (wrap_error p e).
Proof. by destruct e. Qed.
Lemma plain_sound msg : sound_error (plain_error msg).
Proof. by intros f Hf. Qed.
Lemma classified_sound f cause : f_Exit f ≠ 0%Z → sound_error (classified_error f cause).
Proof. intros Hf g Hg. destruct cause; by injection Hg as <-. Qed.

Lemma buildAuth_sound c v : sound_sum (buildAuth ParsePrivateKey c v).
Proof.
  unfold buildAuth. intros e. cbv zeta.
  destruct (bool_decide (c_KeyName c = "")); [|destruct (GetKey v (c_KeyName c)) as [k|]; [destruct (ParsePrivateKey _) eqn:Hkey|]].
  all: try (destruct (_ ++ _); intros [= <-]; apply plain_sound).
  - intros [= <-]. by eapply wrap_sound, sound_key.
  - intros [= <-]. apply plain_sound.
Qed.

Lemma path_sound : sound_error (knownHostsPathError RedactString).
Proof. apply classified_sound, Classify_exits. Qed.

Lemma handshake_sound address cfg : yields (handshake net address cfg) sound_result.
Proof.
  unfold handshake. apply yields_any. intros n. destruct (nw_handshake net n cfg) as [trace err] eqn:Hh.
  apply yields_any. intros _. apply yields_ret. intros e He. eapply (sound_handshake n cfg). rewrite Hh. exact He.
Qed.

Lemma connect_sound address : yields (dialConnectDeadline net address) (λ r, ∀ e, r = Some e → sound_error e).
Proof.
  unfold dialConnectDeadline. apply yields_any. intros n. apply yields_any. intros _.
  destruct (nw_connect net n) eqn:Hc; apply yields_ret; [intros e [= <-]; by eapply sound_connect|].
  intros e. apply sound_deadline.
Qed.

Lemma direct_sound hop v : yields (dial_direct hop v) sound_result.
Proof.
  unfold dialDirectHop, dialSSHClient. destruct (buildAuth ParsePrivateKey hop v) as [e|auth] eqn:Hauth.
  { apply yields_ret. intros e' [= <-]. by eapply buildAuth_sound. }
  destruct knownHosts as [path|]; [|apply yields_ret; intros e' [= <-]; apply path_sound].
  apply yields_any. intros n. eapply yields_bind; [apply connect_sound|]. intros [e|] He; [apply yields_ret; intros e' [= <-]; by apply He|].
  eapply yields_bind; [apply handshake_sound|]. intros [reached [e'|]] He'; [apply yields_ret; exact He'|].
  apply yields_any. intros k. destruct (nw_clear net k) as [e2|] eqn:Hclear.
  - apply yields_ret. intros e3 [= <-]. by eapply sound_clear.
  - apply yields_any. intros _. by apply yields_ret.
Qed.

Lemma timeout_sound msg : sound_error (timeout_error msg).
Proof. by intros f Hf. Qed.

Lemma tunnel_sound previous address : yields (dialTunnel net previous address) (λ r, ∀ e, r = Some e → sound_error e).
Proof.
  unfold dialTunnel. apply yields_any. intros n. apply yields_any. intros _.
  destruct (nw_tunnel_expired net n); apply yields_ret; [intros e [= <-]; apply timeout_sound|].
  intros e He. apply fmap_Some in He as (e' & He' & ->). by eapply wrap_sound, sound_tunnel.
Qed.

Lemma through_sound previous hop v : yields (dial_through previous hop v) sound_result.
Proof.
  unfold dialHopThrough, handshakeOverTunnel. destruct (buildAuth ParsePrivateKey hop v) as [e|auth] eqn:Hauth.
  { apply yields_ret. intros e' [= <-]. by eapply buildAuth_sound. }
  destruct knownHosts as [path|]; [|apply yields_ret; intros e' [= <-]; apply path_sound].
  eapply yields_bind; [apply tunnel_sound|]. intros [e|] He; [apply yields_ret; intros e' [= <-]; by apply He|].
  apply yields_any. intros n. apply (yields_bind _ _ sound_result).
  - apply yields_any. intros k. eapply yields_bind; [apply handshake_sound|]. intros [reached err] Herr.
    destruct (nw_expired net k); apply yields_ret; [intros e [= <-]; apply timeout_sound|exact Herr].
  - intros [reached [e|]] Herr; [by apply yields_ret|]. apply yields_any. intros _. by apply yields_ret.
Qed.

Lemma exit_with_past b f : f_Exit (with_past b f) = f_Exit f.
Proof. by destruct f. Qed.
Lemma exit_with_via via f : f_Exit (with_via via f) = f_Exit f.
Proof. by destruct f. Qed.
Lemma exit_with_message m f : f_Exit (with_message m f) = f_Exit f.
Proof. by destruct f. Qed.
Lemma exit_with_hint h f : f_Exit (with_hint h f) = f_Exit f.
Proof. by destruct f. Qed.

Lemma adjust_exit e cx f : f_Exit f ≠ 0%Z → f_Exit (ssh_context_adjust e cx f) ≠ 0%Z.
Proof.
  intros Hf. unfold ssh_context_adjust. destruct f. cbn in Hf |- *.
  destruct (negb _ && _), (bool_decide _ && _); cbn; done.
Qed.

Lemma classified_exit e cx : sound_error e → f_Exit (ClassifySSH RedactString windows (Some e) cx) ≠ 0%Z.
Proof.
  intros He. destruct (x_Classified e) as [f|] eqn:Hf.
  - unfold ClassifySSH. rewrite Hf. by apply adjust_exit, He.
  - destruct (ClassifySSH_kind RedactString windows e cx Hf) as (kind & details & -> & _).
    apply adjust_exit, Classify_exits.
Qed.

Lemma hop_exit e target hop chained reached tunneled :
  sound_error e → f_Exit (classifyHop RedactString windows e target hop chained reached tunneled) ≠ 0%Z.
Proof.
  intros He. unfold classifyHop. cbv zeta. repeat case_match;
    rewrite ?exit_with_hint, ?exit_with_message, ?exit_with_via, ?exit_with_past; by apply classified_exit.
Qed.

Lemma hop_error_sound e target hop chained reached tunneled : sound_error e →
  sound_error (classified_error (classifyHop RedactString windows e target hop chained reached tunneled) (Some e)).
Proof. intros He. by apply classified_sound, hop_exit. Qed.

Lemma hops_sound hops target v opened : yields (dial_chain hops target v opened) sound_sum.
Proof.
  revert opened. induction hops as [|hop hops IH]; intros opened; cbn [dial_hops]; [by apply yields_ret|].
  apply (yields_bind _ _ sound_result); [destruct (last opened); [apply through_sound|apply direct_sound]|].
  intros [reached [e|]] He; [|apply IH]. apply yields_any. intros _. apply yields_ret.
  intros e' [= <-]. by apply hop_error_sound, He.
Qed.

Lemma fresh_sound redirects c v : yields (dial_fresh redirects c v) sound_sum.
Proof.
  unfold dialSSHFresh, dialChain, dialHops. destruct (negb _).
  - destruct (ResolveJumpChain redirects v c) as [[e|chain]|].
    + apply yields_ret. intros e' [= <-]. apply classified_sound. rewrite exit_with_via. apply Classify_exits.
    + eapply yields_bind; [apply hops_sound|]. intros [e|clients] He; [|by apply yields_ret].
      apply yields_ret. intros e' [= <-]. by apply He.
    + apply yields_ret. intros e' [= <-]. apply plain_sound.
  - eapply yields_bind; [apply direct_sound|]. intros [reached [e|]] He; [|by apply yields_ret].
    apply yields_ret. intros e' [= <-]. by apply hop_error_sound, He.
Qed.

Definition sound_acquisition (r : option string * acquisition) : Prop :=
  ∀ stage e, r.2 = AcquireFailed stage e → sound_error e.

Lemma acquired_sound p client : sound_acquisition (p, Acquired client).
Proof. by intros ??. Qed.
Lemma refused_sound p stage e : sound_error e → sound_acquisition (p, AcquireFailed stage e).
Proof. by intros He stage' e' [= _ <-]. Qed.

Lemma session_sound client : yields (NewSession net client) (λ r, ∀ e, r = Some e → sound_error e).
Proof.
  unfold NewSession. apply yields_any. intros n. destruct (nw_session net n) as [e|] eqn:Hs; apply yields_any; intros _;
    apply yields_ret; [intros e' [= <-]; by eapply sound_session|done].
Qed.

Lemma fresh_session_sound redirects c v keep : yields (fresh redirects c v keep) sound_acquisition.
Proof.
  unfold fresh_session. eapply yields_bind; [apply fresh_sound|]. intros [e|client] He.
  { apply yields_ret, refused_sound. by apply He. }
  eapply yields_bind; [apply session_sound|]. intros [e|] Hs; [|apply yields_ret, acquired_sound].
  destruct (keep && _); [|apply yields_any; intros _]; apply yields_ret, refused_sound; by apply Hs.
Qed.

Lemma pooled_session_sound redirects c v pooled :
  yields (tryPooledSession RedactString windows net ParsePrivateKey knownHosts probe redirects c v pooled) sound_acquisition.
Proof.
  unfold tryPooledSession. destruct pooled as [client|]; [|apply fresh_session_sound].
  eapply yields_bind; [apply session_sound|]. intros [e|] Hs; [|apply yields_ret, acquired_sound].
  destruct (IsSessionLimit e); [apply yields_ret, refused_sound; by apply Hs|].
  apply yields_any. intros _. apply fresh_session_sound.
Qed.

Lemma slot_refused_sound p p' a : sound_acquisition (p, a) → sound_acquisition (p', slot_refused a).
Proof. destruct a as [client|stage e]; intros Ha; [apply acquired_sound|]. apply refused_sound. by eapply Ha. Qed.

Lemma acquire_loop_sound n redirects c v pooled :
  yields (acquire_loop RedactString windows net ParsePrivateKey knownHosts probe n redirects c v pooled) sound_acquisition.
Proof.
  revert pooled. induction n as [|n IH]; intros pooled; cbn [acquire_loop];
    (eapply yields_bind; [apply pooled_session_sound|]); intros [p a] Ha;
    (destruct (session_limited a); [|by apply yields_ret]); [by apply yields_ret, (slot_refused_sound p)|].
  apply yields_any. intros [|]; [apply IH|by apply yields_ret, (slot_refused_sound p)].
Qed.

Lemma acquire_sound n reuse redirects c v pooled :
  yields (acquireSSHSession RedactString windows net ParsePrivateKey knownHosts probe n reuse redirects c v pooled)
    sound_acquisition.
Proof.
  unfold acquireSSHSession. destruct reuse; [apply acquire_loop_sound|]. cbn [negb].
  eapply yields_bind; [apply fresh_session_sound|]. intros [p a] Ha. apply yields_ret. exact Ha.
Qed.
End Facts.
