(* ===== verification/RemoteRun.v ===== *)
(** * Running a remote command ([ssh/run.go], [ssh/stdin.go], [ssh/wait.go])

    [Run] from its options to its result: the command line, the stdin rule, the retries
    of the dial, the session and the classification of what came of it. A session is
    acquired with SshDial; what the session, the terminal and the clock answer is in
    the [RunWorld]. *)

From stdpp Require Import pretty.
From Stdlib Require Import Ascii.
From S2P Require Import Prelude GoStrings GoErrors GoRegexp Config JumpChain Redaction FailurePolicy MachineContract SyncProtocol RemoteCommand KnownHosts SshDial.

(** ** Waiting between attempts *)

Definition MaxRetryDial : Z := 10.
Definition second : Z := 1000000000.
Definition MaxBackoff : Z := 30 * second.

(** [for i := 1; i < attempt && delay < MaxBackoff; i++ { delay *= 2 }]. *)
Fixpoint double_delay (rounds : nat) (delay : Z) : Z :=
  match rounds with
  | O => delay
  | S n => if (delay <? MaxBackoff)%Z then double_delay n (wrap_int (delay * 2)) else delay
  end.

(** The base delay, doubled per attempt up to the cap. *)
Definition grown_delay (base : Z) (attempt : nat) : Z :=
  let base := if (base <=? 0)%Z then (250 * 1000000)%Z else base in
  let delay := double_delay (attempt - 1) base in
  if (MaxBackoff <? delay)%Z && (base <=? MaxBackoff)%Z then MaxBackoff else delay.

(** [random] is what [rand.Int64N] gave. *)
Definition RetryDelay (base : Z) (attempt : nat) (random : Z) : Z :=
  let delay := grown_delay base attempt in
  if (0 <? delay ÷ 4)%Z then wrap_int (delay + random) else delay.

Section Retry.
Context `{!UnicodeCase}.

Definition RetryableTransportFailure (failure : Failure) : bool :=
  if f_PastKeyExchange failure then false
  else if HasPrefix (f_Error failure) "dial_" then true
  else bool_decide (f_Error failure = CodeHandshakeFailed)
       && negb (Contains (ToLower (f_Message failure)) "no common algorithm").
End Retry.

(** ** Stdin *)

Inductive StdinMode := StdinInternal | StdinDefault | StdinForward | StdinDisable.
#[export] Instance StdinMode_eq_dec : EqDecision StdinMode.
Proof. solve_decision. Defined.

Inductive stdinSource := stdinNone | stdinTTY | stdinPipe | stdinFromFile.
#[export] Instance stdinSource_eq_dec : EqDecision stdinSource.
Proof. solve_decision. Defined.

Record stdinDecision := mkStdin { sd_Source : stdinSource; sd_Forwarded : option bool; sd_Warning : string }.
Definition no_stdin : stdinDecision := mkStdin stdinNone None "".

Definition StdinWarning : string :=
  "local stdin was not forwarded because --json does not forward stdin by default; "
  +:+ "add --stdin (or set SSM_FORWARD_STDIN=1) to forward it, or --no-stdin to silence this warning".

Definition decideStdin (mode : StdinMode) (file env : string) (capture isTTY isNull : bool) : stdinDecision :=
  if negb (bool_decide (file = "")) then mkStdin stdinFromFile (Some true) ""
  else
    let mode :=
      if bool_decide (mode = StdinDefault) then
        if bool_decide (env = "1") then StdinForward
        else if bool_decide (env = "0") then StdinDisable else mode
      else mode in
    match mode with
    | StdinInternal => no_stdin
    | StdinForward => mkStdin stdinPipe (Some true) ""
    | StdinDisable => no_stdin
    | StdinDefault =>
        if negb capture then
          if isTTY then mkStdin stdinTTY None "" else mkStdin stdinPipe (Some true) ""
        else if isTTY || isNull then no_stdin
        else mkStdin stdinNone (Some false) StdinWarning
    end.

(** ** Options and results *)

Record RunOptions := mkRunOptions {
  ro_Command : string;
  ro_Input : string;
  ro_RiskCommand : string;
  ro_Secrets : gmap string string;
  ro_Capture : bool;
  ro_PlanOnly : bool;
  ro_NoReuse : bool;
  ro_ExecTimeout : Z;
  ro_Interpreter : string;
  ro_ScriptLabel : string;
  ro_Mode : string;
  ro_Stdin : StdinMode;
  ro_StdinFile : string;
  ro_RetryDial : Z;
  ro_RetryBackoff : Z;
  ro_RequestedAlias : string;
  ro_ResolvedAlias : string;
}.

(** The fields of [RunResult] that do not change once the command line is built. *)
Record RunHead := mkRunHead {
  rh_Alias : string;
  rh_ResolvedAlias : string;
  rh_User : string;
  rh_Host : string;
  rh_Port : Z;
  rh_RemoteCommand : string;
  rh_Risk : string;
  rh_ScriptLabel : string;
  rh_Interpreter : string;
  rh_InputBytes : Z;
  rh_ScriptSHA256 : string;
  rh_Mode : string;
  rh_Transport : string;
  rh_sensitiveValues : list string;
}.

(** The other fields; those of the freshness of the inventory are the caller's. *)
Record RunResult := mkRunResult {
  rr_Head : RunHead;
  rr_OK : bool;
  rr_Exit : Z;
  rr_Stdout : string;
  rr_Stderr : string;
  rr_TimedOut : bool;
  rr_LatencyMS : Z;
  rr_Metadata : ResultMetadata;
  rr_Plan : bool;
  rr_Preflight : string;
  rr_StdinForwarded : option bool;
  rr_Warning : string;
  rr_DialAttempts : Z;
  rr_failure : Failure;
}.

Definition no_metadata : ResultMetadata := mkResultMetadata "" "" "" "" "" "" "".
Definition new_result (h : RunHead) : RunResult :=
  mkRunResult h false 0 "" "" false 0 no_metadata false "" None "" 0 zero_failure.

Definition applyRunFailure (f : Failure) (r : RunResult) : RunResult :=
  mkRunResult (rr_Head r) false (f_Exit f) (rr_Stdout r) (rr_Stderr r) (rr_TimedOut r) (rr_LatencyMS r)
    (Failure_ResultMetadata f) (rr_Plan r) (rr_Preflight r) (rr_StdinForwarded r) (rr_Warning r) (rr_DialAttempts r) f.
Definition run_succeeded (plan : bool) (r : RunResult) : RunResult :=
  mkRunResult (rr_Head r) true 0 (rr_Stdout r) (rr_Stderr r) (rr_TimedOut r) (rr_LatencyMS r) (rr_Metadata r)
    plan (rr_Preflight r) (rr_StdinForwarded r) (rr_Warning r) (rr_DialAttempts r) (rr_failure r).
Definition with_latency (ms : Z) (r : RunResult) : RunResult :=
  mkRunResult (rr_Head r) (rr_OK r) (rr_Exit r) (rr_Stdout r) (rr_Stderr r) (rr_TimedOut r) ms (rr_Metadata r)
    (rr_Plan r) (rr_Preflight r) (rr_StdinForwarded r) (rr_Warning r) (rr_DialAttempts r) (rr_failure r).
Definition with_captured (out err : string) (r : RunResult) : RunResult :=
  mkRunResult (rr_Head r) (rr_OK r) (rr_Exit r) out err (rr_TimedOut r) (rr_LatencyMS r) (rr_Metadata r)
    (rr_Plan r) (rr_Preflight r) (rr_StdinForwarded r) (rr_Warning r) (rr_DialAttempts r) (rr_failure r).
Definition with_timed_out (r : RunResult) : RunResult :=
  mkRunResult (rr_Head r) (rr_OK r) (rr_Exit r) (rr_Stdout r) (rr_Stderr r) true (rr_LatencyMS r) (rr_Metadata r)
    (rr_Plan r) (rr_Preflight r) (rr_StdinForwarded r) (rr_Warning r) (rr_DialAttempts r) (rr_failure r).
Definition with_preflight (p : string) (r : RunResult) : RunResult :=
  mkRunResult (rr_Head r) (rr_OK r) (rr_Exit r) (rr_Stdout r) (rr_Stderr r) (rr_TimedOut r) (rr_LatencyMS r)
    (rr_Metadata r) (rr_Plan r) p (rr_StdinForwarded r) (rr_Warning r) (rr_DialAttempts r) (rr_failure r).
Definition with_stdin (forwarded : option bool) (warning : string) (r : RunResult) : RunResult :=
  mkRunResult (rr_Head r) (rr_OK r) (rr_Exit r) (rr_Stdout r) (rr_Stderr r) (rr_TimedOut r) (rr_LatencyMS r)
    (rr_Metadata r) (rr_Plan r) (rr_Preflight r) forwarded warning (rr_DialAttempts r) (rr_failure r).
Definition with_attempts (n : Z) (r : RunResult) : RunResult :=
  mkRunResult (rr_Head r) (rr_OK r) (rr_Exit r) (rr_Stdout r) (rr_Stderr r) (rr_TimedOut r) (rr_LatencyMS r)
    (rr_Metadata r) (rr_Plan r) (rr_Preflight r) (rr_StdinForwarded r) (rr_Warning r) n (rr_failure r).

(** ** What a run meets *)

(** The output of a human run, as [Run] uses it; RunOutput models its two kinds. *)
Record humanOutput := mkHumanOutput {
  ho_WriteErr : option string;
  ho_Finish : bool → option string;
  ho_FinishFailure : bool → string;
  (** or the error of the search *)
  ho_InterpreterMarkerSeen : string + bool;
}.

Record RunWorld := mkRunWorld {
  rw_isTTY : bool;
  rw_isNull : bool;
  rw_forward_env : string;
  (** the text of the error of [os.Open], of [session.StdinPipe], and of
      [newSpoolRunOutput] with its message *)
  rw_open : option string;
  rw_stdin_pipe : option string;
  rw_buffered : bool;
  rw_spool : option (string * string);
  (** [session.Run] and what it left in the buffers of a captured run *)
  rw_run : option sshError;
  rw_stdout : string;
  rw_stderr : string;
  rw_output : humanOutput;
  (** the exit of a local interrupt, and whether the deadline's signal was sent *)
  rw_interrupt : option Z;
  rw_timed_out : bool;
  rw_latency : Z;
  rw_random : nat → Z;
  (** [%s] of a duration *)
  rw_duration : Z → string;
  (** the order in which the secrets are iterated *)
  rw_secret_order : list string;
}.

(** ** The run *)

Inductive run_event `{K : SshKeys} :=
  (** an attempt to acquire a session, with what it did on the network *)
  | Attempted (a : acquisition) (did : list dial_event)
  | Slept (delay : Z)
  (** [session.Run] *)
  | Executed (command : string)
  (** [WriteHuman] *)
  | Reported (failure : Failure).
Arguments Attempted {_}.
Arguments Slept {_}.
Arguments Executed {_}.
Arguments Reported {_}.

Section Run.
Context `{K : SshKeys} `{!KnownHostsPackage} `{!UnicodeCase} `{!Sha256}.
Context (RedactString : string → string) (windows : bool).
Context (net : Network) (ParsePrivateKey : string → option sshError) (knownHosts : option string) (probe : option PublicKey).
(** [SSM_REUSE], the rounds of a wait for a session slot, the redirects. *)
Context (reuseEnabled : bool) (rounds : nat) (redirects : Redirects).

Record Running := mkRunning { rn_step : nat; rn_pooled : option string; rn_log : list run_event }.

Definition R (A : Type) : Type := Running → A * Running.
#[export] Instance R_ret : MRet R := λ A a s, (a, s).
#[export] Instance R_bind : MBind R := λ A B f m s, let '(a, s') := m s in f a s'.

Definition note (e : run_event) : R () := λ s, ((), mkRunning (rn_step s) (rn_pooled s) (rn_log s ++ [e])).

Definition acquire (c : Connection) (v : Vault) (noReuse : bool) : R acquisition := λ s,
  let '((pooled, a), d) :=
    acquireSSHSession RedactString windows net ParsePrivateKey knownHosts probe rounds
      (negb noReuse && reuseEnabled) redirects c v (rn_pooled s) (mkDialing (rn_step s) []) in
  (a, mkRunning (dl_step d) pooled (rn_log s ++ [Attempted a (dl_log d)])).

Definition acquire_context (c : Connection) (stage : string) : SSHContext :=
  mkContext (c_Name c) "" (c_Host c) (c_Port c) stage (bool_decide (stage = "session")) false false.

Definition acquire_failure (c : Connection) (stage : string) (err : sshError) : Failure :=
  ClassifySSH RedactString windows (Some err) (acquire_context c stage).

(** The loop of the attempts; [left] more are allowed after this one. *)
Fixpoint dial_loop (left attempt : nat) (c : Connection) (v : Vault) (opts : RunOptions) (w : RunWorld) :
    R (nat * acquisition) :=
  a ← acquire c v (ro_NoReuse opts);
  match a with
  | Acquired _ => mret (attempt, a)
  | AcquireFailed stage err =>
      let failure := acquire_failure c stage err in
      let failure := if bool_decide (stage = "session") then with_past true failure else failure in
      match left with
      | O => mret (attempt, a)
      | S n =>
          if negb (bool_decide (stage = "dial")) || negb (RetryableTransportFailure failure) then mret (attempt, a)
          else
            _ ← note (Slept (RetryDelay (ro_RetryBackoff opts) attempt (rw_random w attempt)));
            dial_loop n (S attempt) c v opts w
      end
  end.

Definition retries_of (opts : RunOptions) : nat :=
  let retries := if (ro_RetryDial opts <? 0)%Z then 0%Z else ro_RetryDial opts in
  Z.to_nat (if (MaxRetryDial <? retries)%Z then MaxRetryDial else retries).

Definition run_details (message : string) (cause : option string) (alias : string) (exit : Z) : Details :=
  mkDetails message cause alias "" [] "" exit "" "" "" "" "" "" "" "".

Definition run_failure (kind : Kind) (opts : RunOptions) (message : string) (cause : option string) : Failure :=
  Classify RedactString kind (run_details message cause (ro_RequestedAlias opts) 0).

(** [WriteHuman] of a run that is not captured. *)
Definition report (opts : RunOptions) (f : Failure) : R () :=
  if ro_Capture opts then mret () else note (Reported f).

(** The command line of the exec request. *)
Definition full_command (opts : RunOptions) : string :=
  if negb (bool_decide (ro_Input opts = "")) || bool_decide (ro_Mode opts = "shell_command")
  then BuildScriptRemoteCommand (ro_Command opts) (ro_Secrets opts)
  else BuildRemoteCommand (ro_Command opts) (ro_Secrets opts).

Definition run_head (c : Connection) (opts : RunOptions) (w : RunWorld) : RunHead :=
  let script := negb (bool_decide (ro_Input opts = "")) in
  let or_default (s d : string) := if bool_decide (s = "") then d else s in
  mkRunHead (or_default (ro_RequestedAlias opts) (c_Name c)) (or_default (ro_ResolvedAlias opts) (c_Name c))
    (c_User c) (c_Host c) (port_of c) (RedactSecrets (full_command opts) (rw_secret_order w))
    (AssessRisk (or_default (ro_RiskCommand opts) (ro_Command opts))) (ro_ScriptLabel opts) (ro_Interpreter opts)
    (if script then Z.of_nat (String.length (ro_Input opts)) else 0)
    (if script then ScriptDigest (ro_Input opts) else "")
    (if script then "script" else or_default (ro_Mode opts) "shell_command")
    (if script then "ssh_stdin" else "ssh_exec")
    (runSensitiveValues (rw_secret_order w) (ro_Input opts)).

Definition decideRunStdin (opts : RunOptions) (w : RunWorld) : stdinDecision :=
  if negb (bool_decide (ro_Input opts = "")) then no_stdin
  else decideStdin (ro_Stdin opts) (ro_StdinFile opts) (rw_forward_env w) (ro_Capture opts) (rw_isTTY w)
         (negb (rw_isTTY w) && rw_isNull w).

Definition forwards (s : stdinSource) : bool := bool_decide (s = stdinPipe) || bool_decide (s = stdinFromFile).

(** A run whose command ended with an error: the output is finished, then it is
    classified. *)
Definition run_ended_badly (c : Connection) (opts : RunOptions) (w : RunWorld) (err : sshError) (res : RunResult) :
    R RunResult :=
  let script := negb (bool_decide (ro_Input opts = "")) in
  let marker := if negb (ro_Capture opts) && script then ho_InterpreterMarkerSeen (rw_output w) else inr false in
  match marker with
  | inl inspect =>
      let failure := run_failure InternalFailure opts "failed to inspect bounded remote diagnostics" (Some inspect) in
      _ ← note (Reported failure); mret (applyRunFailure failure res)
  | inr marker_seen =>
      match (if ro_Capture opts then None else ho_Finish (rw_output w) false) with
      | Some finish =>
          let failure := run_failure InternalFailure opts (ho_FinishFailure (rw_output w) false) (Some finish) in
          _ ← note (Reported failure); mret (applyRunFailure failure res)
      | None =>
          match x_ExitStatus err with
          | Some exit =>
              let stderr :=
                if negb (ro_Capture opts) && marker_seen
                then InterpreterNotFoundDiagnostic (ro_Interpreter opts) else rr_Stderr res in
              let failure := ClassifyRunExecution RedactString
                (mkRunContext (Some (x_Message err)) exit (ro_RequestedAlias opts) script true stderr
                   (ro_ScriptLabel opts) (ro_Interpreter opts)) in
              _ ← (if script then report opts failure else mret ());
              mret (applyRunFailure failure res)
          | None =>
              let failure := ClassifySSH RedactString windows (Some err)
                (mkContext (c_Name c) "" (c_Host c) (c_Port c) "session" false false false) in
              _ ← report opts failure; mret (applyRunFailure failure res)
          end
      end
  end.

(** After [session.Run]. *)
Definition run_ended (c : Connection) (opts : RunOptions) (w : RunWorld) (res : RunResult) : R RunResult :=
  let res := with_latency (rw_latency w) res in
  let res := if ro_Capture opts then with_captured (rw_stdout w) (rw_stderr w) res else res in
  match (if ro_Capture opts then None else ho_WriteErr (rw_output w)) with
  | Some write =>
      let failure := run_failure InternalFailure opts "failed to write remote output" (Some write) in
      _ ← note (Reported failure); mret (applyRunFailure failure res)
  | None =>
      match (if ro_Capture opts then None else rw_interrupt w) with
      | Some signalExit =>
          let failure := Classify RedactString RunInterrupted
            (run_details ("interrupted by local signal; exit " +:+ pretty signalExit) None (ro_RequestedAlias opts) signalExit) in
          _ ← note (Reported failure); mret (applyRunFailure failure res)
      | None =>
          if (0 <? ro_ExecTimeout opts)%Z && rw_timed_out w then
            let failure := run_failure ExecTimedOut opts
              ("command exceeded --exec-timeout " +:+ rw_duration w (ro_ExecTimeout opts)) None in
            _ ← report opts failure; mret (with_timed_out (applyRunFailure failure res))
          else
            match rw_run w with
            | Some err => run_ended_badly c opts w err res
            | None =>
                match (if ro_Capture opts then None else ho_Finish (rw_output w) true) with
                | Some finish =>
                    let failure := run_failure InternalFailure opts (ho_FinishFailure (rw_output w) true) (Some finish) in
                    _ ← note (Reported failure); mret (applyRunFailure failure res)
                | None => mret (run_succeeded (rr_Plan res) res)
                end
            end
      end
  end.

(** With a session: the output, stdin, and the command. *)
Definition run_session (c : Connection) (opts : RunOptions) (w : RunWorld) (stdin : stdinDecision) (res : RunResult) :
    R RunResult :=
  match (if negb (ro_Capture opts) && rw_buffered w then rw_spool w else None) with
  | Some (err, message) =>
      let failure := run_failure InternalFailure opts message (Some err) in
      let res := with_latency (rw_latency w) (applyRunFailure failure res) in
      _ ← note (Reported failure); mret res
  | None =>
      let run res := _ ← note (Executed (full_command opts)); run_ended c opts w res in
      if negb (bool_decide (ro_Input opts = "")) then run res
      else if negb (forwards (sd_Source stdin)) then run (with_stdin (sd_Forwarded stdin) (sd_Warning stdin) res)
      else
        match rw_stdin_pipe w with
        | Some err =>
            let failure := run_failure SSHStdinFailed opts "failed to open SSH stdin" (Some err) in
            mret (with_latency (rw_latency w) (applyRunFailure failure res))
        | None => run (with_stdin (sd_Forwarded stdin) (rr_Warning res) res)
        end
  end.

Definition Run (c : Connection) (v : Vault) (opts : RunOptions) (w : RunWorld) : R RunResult :=
  let res := new_result (run_head c opts w) in
  if ro_PlanOnly opts then mret (run_succeeded true res)
  else
    let stdin := decideRunStdin opts w in
    match (if bool_decide (sd_Source stdin = stdinFromFile) then rw_open w else None) with
    | Some err =>
        mret (applyRunFailure (run_failure SSHStdinFailed opts "failed to open stdin file" (Some err)) res)
    | None =>
        let retries := retries_of opts in
        '(attempt, a) ← dial_loop retries 1 c v opts w;
        let res :=
          if (0 <? retries) || (1 <? attempt) then with_attempts (Z.of_nat attempt) res else res in
        match a with
        | AcquireFailed stage err =>
            let failure := acquire_failure c stage err in
            let res := with_latency (rw_latency w) (applyRunFailure failure res) in
            _ ← report opts failure; mret res
        | Acquired _ => run_session c opts w stdin res
        end
    end.

(** ** Script preflight *)

Definition digit_re : re := Class_ is_digit.
(** [(?i)\bline[ :]+([0-9]+)\b] and [(?m)^[^:\n]+:\s*([0-9]+):]. *)
Definition syntaxLinePattern : re :=
  Cat WordBoundary (Cat (LitFold "line") (Cat (Plus (AnyOf " :")) (Cat (Group (Plus digit_re)) WordBoundary))).
Definition syntaxColonLinePattern : re :=
  Cat LineStart (Cat (Plus (NoneOf (String ":" (String (char 10) ""))))
    (Cat (Char ":") (Cat Spaces (Cat (Group (Plus digit_re)) (Char ":"))))).

(** In both patterns the group is all the digits before its end: what precedes it is no
    digit. *)
Fixpoint leading_digits (s : string) : string :=
  match s with String c s' => if is_digit c then String c (leading_digits s') else "" | EmptyString => "" end.
Definition group_digits (s : string) (group_end : nat) : string :=
  string_rev (leading_digits (string_rev (take_string group_end s))).

Definition syntaxErrorLine (stderr : string) : string :=
  match Find syntaxLinePattern stderr with
  | Some m => group_digits stderr (ma_group m)
  | None =>
      match Find syntaxColonLinePattern stderr with
      | Some m => group_digits stderr (ma_group m)
      | None => ""
      end
  end.

Definition preflight_options (spec : ScriptSpec) (command : string) (noReuse : bool) (requested resolved : string) :
    RunOptions :=
  mkRunOptions command (ss_Body spec) (ss_Body spec) ∅ true false noReuse 0 (ss_Interpreter spec) (ss_Label spec)
    "script" StdinInternal "" 0 0 requested resolved.

Definition RunScriptPreflight (c : Connection) (v : Vault) (spec : ScriptSpec) (noReuse : bool)
    (requested resolved : string) (w : RunWorld) : R RunResult :=
  match BuildScriptSyntaxRunner spec with
  | Fail e =>
      let head := mkRunHead requested "" "" "" 0 "" "" (ss_Label spec) (ss_Interpreter spec)
        (Z.of_nat (String.length (ss_Body spec))) (ScriptDigest (ss_Body spec)) "script" "" [] in
      let text := match e with Errorf msg => msg | _ => "" end in
      mret (applyRunFailure
        (Classify RedactString InvalidRunArguments (run_details "" (Some text) requested 0))
        (with_preflight "failed" (new_result head)))
  | Ok command =>
      res ← Run c v (preflight_options spec command noReuse requested resolved) w;
      if rr_OK res then mret (with_captured "" "" (with_preflight "passed" res))
      else
        let res := with_preflight "failed" res in
        if bool_decide (rm_Error (rr_Metadata res) = CodeRemoteScript) then
          let failure := Classify RedactString ScriptSyntaxFailed
            (mkDetails "remote interpreter rejected script syntax" None requested "" [] "" (rr_Exit res) (ss_Label spec)
               "" (syntaxErrorLine (rr_Stderr res)) "" "" "" "" "") in
          mret (with_captured (rr_Stdout res) "" (applyRunFailure failure res))
        else mret res
  end.
End Run.
