(* ===== verification/RemoteRunFacts.v ===== *)
(** * A command runs at most once

    What a run leaves: attempts that are only repeated while the failing host received
    no credential and no session was opened, then at most one execution, of the command
    the options describe; and that the result says which of it happened. *)

From S2P Require Import Prelude GoStrings GoErrors GoRegexp Config JumpChain Redaction FailurePolicy MachineContract ContractFacts SyncProtocol RemoteCommand KnownHosts SshDial SshDialFacts RemoteRun.

(** ** Waiting *)

Lemma wrap_int_id z : (- 2 ^ 63 <= z < 2 ^ 63)%Z → wrap_int z = z.
Proof. unfold wrap_int. intros Hz. rewrite Z.mod_small; lia. Qed.

(** Up to the cap the loop doubles [n] times. *)
Lemma double_delay_spec n delay :
  (0 < delay)%Z → (delay < 2 ^ 63)%Z →
  Z.min (double_delay n delay) MaxBackoff = Z.min (delay * 2 ^ Z.of_nat n) MaxBackoff ∧
  (delay <= double_delay n delay)%Z ∧ (MaxBackoff <= delay → double_delay n delay = delay)%Z.
Proof.
  revert delay. induction n as [|n IH]; intros delay Hpos Hmax; cbn [double_delay].
  { rewrite Z.pow_0_r, Z.mul_1_r. lia. }
  rewrite Nat2Z.inj_succ, Z.pow_succ_r by lia.
  assert (0 < 2 ^ Z.of_nat n)%Z by (apply Z.pow_pos_nonneg; lia).
  assert (MaxBackoff = 30000000000)%Z as Hcap by done.
  destruct (Z.ltb_spec delay MaxBackoff) as [Hl|Hl]; [|nia].
  rewrite wrap_int_id by lia. destruct (IH (delay * 2)%Z) as (Hmin & Hle & _); [lia..|].
  split_and!; [|lia..]. rewrite Hmin. f_equal. lia.
Qed.

(** C39: For a base delay that with a quarter of it added is below 2^63 nanoseconds, and a
    random number within the quarter that is asked for: the wait before a retry doubles
    from the base (250 ms when none was given) up to the cap of 30 seconds, is never less
    than that base, and adds at most a quarter of jitter; a base above the cap is used as
    it is. A larger base overflows ([RemoteExamples.retry_wait_can_overflow]). *)
Theorem retry_waits_are_bounded base attempt random :
  let base' := if (base <=? 0)%Z then (250 * 1000000)%Z else base in
  let delay := grown_delay base attempt in
  (base' + base' ÷ 4 < 2 ^ 63)%Z → (0 <= random <= delay ÷ 4)%Z →
  delay = (if base' <=? MaxBackoff then Z.min (base' * 2 ^ Z.of_nat (attempt - 1)) MaxBackoff else base')%Z ∧
  (base' <= delay <= RetryDelay base attempt random)%Z ∧ (RetryDelay base attempt random <= delay + delay ÷ 4)%Z.
Proof.
  intros base' delay Hmax Hrandom. assert (MaxBackoff = 30000000000)%Z as Hcap by done.
  assert (0 < base')%Z as Hpos by (subst base'; destruct (Z.leb_spec base 0); lia).
  assert (0 <= base' ÷ 4)%Z by (apply Z.quot_pos; lia).
  assert (delay = if base' <=? MaxBackoff then Z.min (base' * 2 ^ Z.of_nat (attempt - 1)) MaxBackoff else base')%Z as Hdelay.
  { destruct (double_delay_spec (attempt - 1) base') as (Hmin & Hle & Hsame); [lia..|].
    subst delay. unfold grown_delay. fold base'. cbv zeta.
    destruct (Z.leb_spec base' MaxBackoff), (Z.ltb_spec MaxBackoff (double_delay (attempt - 1) base')); cbn [andb]; lia. }
  assert (base' <= delay)%Z as Hfloor.
  { rewrite Hdelay. assert (0 < 2 ^ Z.of_nat (attempt - 1))%Z by (apply Z.pow_pos_nonneg; lia).
    destruct (Z.leb_spec base' MaxBackoff); nia. }
  assert (delay + delay ÷ 4 < 2 ^ 63)%Z as Hsmall.
  { assert (delay <= MaxBackoff ∨ delay = base')%Z as [Hle| ->] by (destruct (Z.leb_spec base' MaxBackoff); lia); [|done].
    rewrite Z.quot_div_nonneg by lia. pose proof (Z.div_le_upper_bound delay 4 delay). lia. }
  split; [done|]. unfold RetryDelay. fold delay.
  destruct (Z.ltb_spec 0 (delay ÷ 4)); [rewrite wrap_int_id; lia|lia].
Qed.

Section Facts.
Context `{K : SshKeys} `{!KnownHostsPackage} `{!UnicodeCase} `{!Sha256}.
Context (RedactString : string → string) (windows : bool).
Context (net : Network) `{!NetworkLaws net}.
Context (ParsePrivateKey : string → option sshError) (knownHosts : option string) (probe : option PublicKey).
Context (reuseEnabled : bool) (rounds : nat) (redirects : Redirects).

(** ** What a run logs *)

Definition runs {A} (m : R A) (P : A → list run_event → Prop) : Prop :=
  ∀ s, ∃ l, rn_log (m s).2 = rn_log s ++ l ∧ P (m s).1 l.

Lemma run_ret {A} (a : A) (P : A → list run_event → Prop) : P a [] → runs (mret a) P.
Proof. intros Ha s. exists []. by rewrite app_nil_r. Qed.

Lemma run_bind {A B} (m : R A) (f : A → R B) (P : A → list run_event → Prop) (Q : B → list run_event → Prop) :
  runs m P → (∀ a l, P a l → runs (f a) (λ b l', Q b (l ++ l'))) → runs (m ≫= f) Q.
Proof.
  intros Hm Hf s. destruct (Hm s) as (l & Hl & HP). unfold mbind, R_bind. destruct (m s) as [a s']. cbn in Hl, HP.
  destruct (Hf a l HP s') as (l' & Hl' & HQ). exists (l ++ l'). by rewrite Hl', Hl, (assoc_L (++)).
Qed.

Lemma run_mono {A} (m : R A) (P Q : A → list run_event → Prop) :
  runs m P → (∀ a l, P a l → Q a l) → runs m Q.
Proof. intros Hm HPQ s. destruct (Hm s) as (l & Hl & HP). eauto. Qed.

Lemma run_note {A} e (f : () → R A) (Q : A → list run_event → Prop) :
  runs (f ()) (λ b l, Q b (e :: l)) → runs (note e ≫= f) Q.
Proof.
  intros Hf. eapply (run_bind _ _ (λ _ l, l = [e])); [by intros s; exists [e]|]. by intros [] l ->.
Qed.

(** ** The attempts *)

Local Abbreviation acquire_run := (acquire RedactString windows net ParsePrivateKey knownHosts probe reuseEnabled rounds redirects).
Local Abbreviation loop := (dial_loop RedactString windows net ParsePrivateKey knownHosts probe reuseEnabled rounds redirects).
Local Abbreviation dial_failure c e := (acquire_failure RedactString windows c "dial" e).

Lemma acquire_runs c v noReuse :
  runs (acquire_run c v noReuse) (λ a l, ∃ did, l = [Attempted a did] ∧ acquisition_result (None, a) did).
Proof.
  intros s. unfold acquire.
  destruct (acquire_result RedactString windows net ParsePrivateKey knownHosts probe rounds
    (negb noReuse && reuseEnabled) redirects c v (rn_pooled s) (mkDialing (rn_step s) [])) as (did & Hdid & Hres).
  destruct (acquireSSHSession _ _ _ _ _ _ _ _ _ _ _ _ _) as [[pooled a] d]. cbn in Hdid, Hres |- *.
  eexists. split; [done|]. exists did. rewrite Hdid. split; [done|exact Hres].
Qed.

(** A failure that is retried carries the mark of its hop. *)
Lemma adjust_past err cx f : f_PastKeyExchange (ssh_context_adjust err cx f) = f_PastKeyExchange f.
Proof. unfold ssh_context_adjust. repeat case_match; by destruct f. Qed.

Lemma retryable_is_safe c e did :
  RetryableTransportFailure (dial_failure c e) = true → retry_is_safe e did → sends_opened did.
Proof.
  intros Hretry (f & Hf & Hsafe). refine (Hsafe _). unfold RetryableTransportFailure in Hretry.
  destruct (f_PastKeyExchange (dial_failure c e)) eqn:Hpast; [done|].
  unfold acquire_failure, ClassifySSH in Hpast. by rewrite Hf, adjust_past in Hpast.
Qed.

(** The attempts before the last, from number [n] to number [m]: each failed while
    dialing, in a way that may be retried, opened no session and sent credentials only to
    hosts it reached; and each was followed by its wait. *)
Inductive retried (c : Connection) (opts : RunOptions) (w : RunWorld) : nat → list run_event → nat → Prop :=
  | no_retry n : retried c opts w n [] n
  | one_retry n e did l m :
      sessions did = [] → sends_opened did → RetryableTransportFailure (dial_failure c e) = true →
      retried c opts w (S n) l m →
      retried c opts w n
        (Attempted (AcquireFailed "dial" e) did :: Slept (RetryDelay (ro_RetryBackoff opts) n (rw_random w n)) :: l) m.

(** The attempts, from number [n] with [left] more allowed, and their last acquisition. *)
Definition attempted (c : Connection) (opts : RunOptions) (w : RunWorld) (left n : nat) (r : nat * acquisition)
    (l : list run_event) : Prop :=
  ∃ before did, retried c opts w n before r.1 ∧ n ≤ r.1 ≤ n + left ∧ l = before ++ [Attempted r.2 did] ∧
    acquisition_result (None, r.2) did.

Lemma attempts_end c opts w left n a did :
  acquisition_result (None, a) did → runs (mret (n, a)) (λ r l, attempted c opts w left n r ([Attempted a did] ++ l)).
Proof.
  intros Ha. apply run_ret. exists [], did. split_and!; [apply no_retry|cbn [fst]; lia|cbn [fst]; lia|done|done].
Qed.

Lemma dial_loop_runs left n c v opts w : runs (loop left n c v opts w) (attempted c opts w left n).
Proof.
  revert n. induction left as [|left IH]; intros n; cbn [dial_loop];
    (eapply run_bind; [apply acquire_runs|]); intros a l (did & -> & Ha);
    (destruct a as [client|stage e]; [by apply attempts_end|]); [by apply attempts_end|].
  destruct (negb (bool_decide (stage = "dial")) || _) eqn:Hstop; [by apply attempts_end|].
  apply orb_false_iff in Hstop as [Hdial Hretry]. apply negb_false_iff, bool_decide_eq_true_1 in Hdial as ->.
  rewrite (bool_decide_eq_false_2 ("dial" = "session")) in Hretry by done. apply negb_false_iff in Hretry.
  destruct Ha as (Hs & Hr & Hl). specialize (Hr eq_refl).
  apply run_note. eapply run_mono; [apply IH|]. intros r l (before & did' & Hb & Hn & -> & Hr').
  eexists (_ :: _ :: before), did'. split_and!; [|lia|lia|done|done].
  apply one_retry; [done|by eapply retryable_is_safe|done..].
Qed.

(** ** The end of a run *)

(** A result that is not a success, with the failure it reports, at most once. *)
Definition failed (r : RunResult) (l : list run_event) : Prop :=
  rr_OK r = false ∧ rr_Exit r = f_Exit (rr_failure r) ∧ rr_Metadata r = Failure_ResultMetadata (rr_failure r) ∧
  (l = [] ∨ l = [Reported (rr_failure r)]).

Lemma noted_failure f r : rr_OK r = false → rr_Exit r = f_Exit f → rr_Metadata r = Failure_ResultMetadata f →
  rr_failure r = f → runs (_ ← note (Reported f); mret r) failed.
Proof. intros ?? ? <-. apply run_note, run_ret. split_and!; try done. by right. Qed.

Lemma reported_failure opts f r : rr_OK r = false → rr_Exit r = f_Exit f → rr_Metadata r = Failure_ResultMetadata f →
  rr_failure r = f → runs (_ ← report opts f; mret r) failed.
Proof.
  intros ?? ? <-. unfold report. destruct (ro_Capture opts); [|by apply noted_failure].
  intros s. exists []. rewrite app_nil_r. split; [done|]. split_and!; try done. by left.
Qed.

Lemma silent_failure r : rr_OK r = false → rr_Exit r = f_Exit (rr_failure r) →
  rr_Metadata r = Failure_ResultMetadata (rr_failure r) → runs (mret r) failed.
Proof. intros. apply run_ret. split_and!; try done. by left. Qed.

Lemma quiet_failure r : rr_OK r = false → rr_Exit r = f_Exit (rr_failure r) →
  rr_Metadata r = Failure_ResultMetadata (rr_failure r) → runs (_ ← mret (); mret r) failed.
Proof. intros ??? s. by apply (silent_failure r). Qed.

Lemma ended_badly_runs c opts w err res : runs (run_ended_badly RedactString windows c opts w err res) failed.
Proof.
  unfold run_ended_badly. cbv zeta.
    repeat case_match; first [by apply noted_failure | by apply reported_failure | by apply quiet_failure].
Qed.

(** What must go well for a result to be a success. *)
Definition delivered (opts : RunOptions) (w : RunWorld) : Prop :=
  rw_run w = None ∧ ¬ ((0 < ro_ExecTimeout opts)%Z ∧ rw_timed_out w = true) ∧
  (ro_Capture opts = false →
    ho_WriteErr (rw_output w) = None ∧ rw_interrupt w = None ∧ ho_Finish (rw_output w) true = None).

Definition ended (opts : RunOptions) (w : RunWorld) (plan : bool) (r : RunResult) (l : list run_event) : Prop :=
  failed r l ∧ ¬ delivered opts w ∨ rr_OK r = true ∧ rr_Exit r = 0%Z ∧ rr_Plan r = plan ∧ l = [] ∧ delivered opts w.

Lemma not_delivered opts w plan (m : R RunResult) :
  runs m failed → ¬ delivered opts w → runs m (ended opts w plan).
Proof. intros Hm Hd. eapply run_mono; [exact Hm|]. intros r l Hr. by left. Qed.

Lemma ended_runs c opts w res : runs (run_ended RedactString windows c opts w res) (ended opts w (rr_Plan res)).
Proof.
  unfold run_ended. cbv zeta.
  destruct (if ro_Capture opts then None else ho_WriteErr (rw_output w)) eqn:Hwrite.
  { apply not_delivered; [by apply noted_failure|]. intros (_ & _ & Hc). destruct (ro_Capture opts); naive_solver. }
  destruct (if ro_Capture opts then None else rw_interrupt w) eqn:Hint.
  { apply not_delivered; [by apply noted_failure|]. intros (_ & _ & Hc). destruct (ro_Capture opts); naive_solver. }
  destruct (_ && rw_timed_out w) eqn:Htime.
  { bool_to_prop. apply not_delivered; [by apply reported_failure|]. intros (_ & Hc & _). by apply Hc. }
  destruct (rw_run w) eqn:Hrun.
  { apply not_delivered; [apply ended_badly_runs|]. intros (Hc & _). congruence. }
  destruct (if ro_Capture opts then None else ho_Finish (rw_output w) true) eqn:Hfin.
  { apply not_delivered; [by apply noted_failure|]. intros (_ & _ & Hc). destruct (ro_Capture opts); naive_solver. }
  apply run_ret. right. split_and!; try done; [by destruct (ro_Capture opts)|]. split_and!; [done| |].
  - intros [Ht Hd]. rewrite Hd, andb_true_r in Htime. bool_to_prop. lia.
  - intros Hc. by rewrite Hc in Hwrite, Hint, Hfin.
Qed.

(** ** With a session *)

(** The command was not started, or it was, once, and its end was handled. *)
Definition session_used (opts : RunOptions) (w : RunWorld) (plan : bool) (r : RunResult) (l : list run_event) : Prop :=
  failed r l ∨ ∃ l', l = Executed (full_command opts) :: l' ∧ ended opts w plan r l'.

Lemma executed_runs c opts w res plan : rr_Plan res = plan →
  runs (_ ← note (Executed (full_command opts)); run_ended RedactString windows c opts w res) (session_used opts w plan).
Proof. intros <-. apply run_note. eapply run_mono; [apply ended_runs|]. intros r l Hr. right. by exists l. Qed.

Lemma run_session_runs c opts w stdin res :
  runs (run_session RedactString windows c opts w stdin res) (session_used opts w (rr_Plan res)).
Proof.
  unfold run_session. cbv beta zeta. repeat case_match; try (by apply executed_runs);
    (eapply run_mono; [first [by apply noted_failure|by apply silent_failure]|intros r l Hr; by left]).
Qed.

(** ** A run *)

Local Abbreviation run := (Run RedactString windows net ParsePrivateKey knownHosts probe reuseEnabled rounds redirects).

(** The numbers of the attempts: from the first, no more than ten retries. *)
Definition attempts_of (opts : RunOptions) : nat := S (Z.to_nat (Z.min (Z.max (ro_RetryDial opts) 0) MaxRetryDial)).

Lemma retries_bound opts : S (retries_of opts) = attempts_of opts.
Proof.
  unfold retries_of, attempts_of, MaxRetryDial. f_equal. f_equal. cbv zeta.
  destruct (Z.ltb_spec (ro_RetryDial opts) 0), (Z.ltb_spec 10 (if (ro_RetryDial opts <? 0)%Z then 0%Z else ro_RetryDial opts));
    repeat case_match; lia.
Qed.

(** What happened in a run, from its log and its result. *)
Inductive run_story (c : Connection) (opts : RunOptions) (w : RunWorld) (r : RunResult) : list run_event → Prop :=
  | planned : ro_PlanOnly opts = true → rr_OK r = true → rr_Plan r = true → run_story c opts w r []
  | no_stdin_file : failed r [] → run_story c opts w r []
  | not_connected before n stage e did after :
      retried c opts w 1 before n → n ≤ attempts_of opts → acquisition_result (None, AcquireFailed stage e) did → failed r after →
      run_story c opts w r (before ++ Attempted (AcquireFailed stage e) did :: after)
  | connected before n client did after :
      retried c opts w 1 before n → n ≤ attempts_of opts → acquisition_result (None, Acquired client) did →
      session_used opts w false r after →
      run_story c opts w r (before ++ Attempted (Acquired client) did :: after).

Lemma run_runs c v opts w : runs (run c v opts w) (run_story c opts w).
Proof.
  unfold Run. cbv zeta. destruct (ro_PlanOnly opts) eqn:Hplan; [by apply run_ret, planned|].
  destruct (if bool_decide _ then rw_open w else None).
  { apply run_ret, no_stdin_file. split_and!; [done..|by left]. }
  eapply run_bind; [apply dial_loop_runs|]. intros [n a] l (before & did & Hb & Hn & -> & Ha). cbn [fst snd] in Hb, Hn, Ha.
  assert (n ≤ attempts_of opts) as Hmax by (rewrite <- retries_bound; lia).
  destruct a as [client|stage e].
  - eapply run_mono; [apply run_session_runs|]. intros r l Hr. rewrite <- (assoc_L (++)). cbn [app].
    eapply connected; [done..|]. by destruct (_ || _).
  - eapply run_mono; [by apply reported_failure|]. intros r l Hr. rewrite <- (assoc_L (++)). cbn [app].
    by eapply not_connected.
Qed.

(** ** What the log tells *)

Definition executions (l : list run_event) : list string :=
  omap (λ e, match e with Executed command => Some command | _ => None end) l.
Definition attempts (l : list run_event) : list acquisition :=
  omap (λ e, match e with Attempted a _ => Some a | _ => None end) l.

Lemma executions_app l l' : executions (l ++ l') = executions l ++ executions l'.
Proof. apply omap_app. Qed.
Lemma attempts_app l l' : attempts (l ++ l') = attempts l ++ attempts l'.
Proof. apply omap_app. Qed.

Lemma executions_attempt a did l : executions (Attempted a did :: l) = executions l.
Proof. done. Qed.
Lemma executions_executed command l : executions (Executed command :: l) = command :: executions l.
Proof. done. Qed.
Lemma attempts_attempt a did l : attempts (Attempted a did :: l) = a :: attempts l.
Proof. done. Qed.

Lemma retried_log c opts w n l m : retried c opts w n l m → executions l = [] ∧ length (attempts l) + n = m.
Proof. induction 1 as [|n e did l m _ _ _ _ [IH1 IH2]]; [done|].
  split; [done|]. change (S (length (attempts l)) + n = m). lia.
Qed.

Lemma failed_log r l : failed r l → executions l = [] ∧ attempts l = [].
Proof. by intros (_ & _ & _ & [->| ->]). Qed.

Lemma session_used_log opts w plan r l : session_used opts w plan r l →
  attempts l = [] ∧ (executions l = [] ∧ rr_OK r = false ∨
    executions l = [full_command opts] ∧ (rr_OK r = true ↔ delivered opts w)).
Proof.
  intros [Hf|(l' & -> & [[Hf Hd]|(Hok & _ & _ & -> & Hd)])].
  - destruct (failed_log _ _ Hf) as [-> ->]. split; [done|]. left. by destruct Hf.
  - destruct (failed_log _ _ Hf) as [He Ha]. split; [done|]. right.
    rewrite executions_executed, He. split; [done|]. destruct Hf as [-> _]. by split.
  - split; [done|]. by right.
Qed.

Lemma story_log c opts w r l : run_story c opts w r l →
  length (attempts l) ≤ attempts_of opts ∧
  (executions l = [] ∧ (rr_OK r = true → ro_PlanOnly opts = true ∧ rr_Plan r = true ∧ l = []) ∨
   executions l = [full_command opts] ∧ (rr_OK r = true ↔ delivered opts w)).
Proof.
  intros [? ? Hp|[Hok _]|before n stage e did after Hb Hn _ Hf|before n client did after Hb Hn _ Hu].
  - split; [apply Nat.le_0_l|]. by left.
  - split; [apply Nat.le_0_l|]. left. split; [done|]. by rewrite Hok.
  - destruct (retried_log _ _ _ _ _ _ Hb) as [He Ha], (failed_log _ _ Hf) as [He' Ha'].
    rewrite executions_app, attempts_app, length_app, He, executions_attempt, attempts_attempt, He', Ha'.
    split; [simpl; clear -Ha Hn; lia|].
    left. split; [done|]. destruct Hf as [Hok _]. by rewrite Hok.
  - destruct (retried_log _ _ _ _ _ _ Hb) as [He Ha], (session_used_log _ _ _ _ _ Hu) as [Ha' Hx].
    rewrite executions_app, attempts_app, length_app, He, executions_attempt, attempts_attempt, Ha'.
    split; [simpl; clear -Ha Hn; lia|].
    destruct Hx as [[-> Hok]|Hx]; [|by right]. left. split; [done|]. by rewrite Hok.
Qed.

(** C1: Whatever the network does, a run executes its command at most once, and only the
    command line its options describe. At most ten attempts are repeated, each one a
    failed dial that opened no session and sent credentials to no host it had not
    connected to; and the result is a success exactly when the command was executed, ended
    without an error within its time, and its output was delivered, or when it was only
    planned. *)
Theorem command_runs_at_most_once c v opts w s r s' :
  run c v opts w s = (r, s') →
  ∃ l, rn_log s' = rn_log s ++ l ∧ run_story c opts w r l ∧ length (attempts l) ≤ attempts_of opts ∧
    (executions l = [] ∧ (rr_OK r = true → ro_PlanOnly opts = true ∧ rr_Plan r = true ∧ l = []) ∨
     executions l = [full_command opts] ∧ (rr_OK r = true ↔ delivered opts w)).
Proof.
  intros Hrun. destruct (run_runs c v opts w s) as (l & Hl & Hstory). rewrite Hrun in Hl, Hstory. cbn in Hl, Hstory.
  exists l. split; [done|]. split; [done|]. by eapply story_log.
Qed.

(** ** Script preflight *)

Lemma no_secrets_command (spec : ScriptSpec) command noReuse requested resolved :
  full_command (preflight_options spec command noReuse requested resolved) = command.
Proof. unfold full_command. by case_match. Qed.

(** A preflight asks the remote shell to check the script and never to run it: the
    only command it may execute is the syntax check, once, and it passes exactly when that
    check was executed and ended well. *)
Theorem preflight_only_checks_syntax c v spec noReuse requested resolved w s r s' :
  RunScriptPreflight RedactString windows net ParsePrivateKey knownHosts probe reuseEnabled rounds redirects
    c v spec noReuse requested resolved w s = (r, s') →
  ∃ l, rn_log s' = rn_log s ++ l ∧ rr_Preflight r = (if rr_OK r then "passed" else "failed") ∧
    (executions l = [] ∧ rr_OK r = false ∨
     ∃ command, BuildScriptSyntaxRunner spec = Ok command ∧ executions l = [command] ∧
       (rr_OK r = true ↔ delivered (preflight_options spec command noReuse requested resolved) w)).
Proof.
  unfold RunScriptPreflight. destruct (BuildScriptSyntaxRunner spec) as [command|e].
  2: { intros [= <- <-]. exists []. rewrite app_nil_r. split_and!; [done..|by left]. }
  unfold mbind, R_bind.
  destruct (run_runs c v (preflight_options spec command noReuse requested resolved) w s) as (l & Hl & Hstory).
  apply story_log in Hstory as (_ & Hx). rewrite no_secrets_command in Hx.
  destruct (run _ _ _ _ s) as [res s2]. cbn [fst snd] in Hl, Hx. cbv zeta.
  destruct (rr_OK res) eqn:Hok; [intros [= <- <-]|case_bool_decide; intros [= <- <-]]; exists l.
  - split_and!; [done|by cbn; rewrite Hok|]. right. destruct Hx as [[_ Hp]|Hx].
    + by destruct (Hp eq_refl) as [Hplan _].
    + exists command. cbn. rewrite Hok. destruct Hx. by split_and!.
  - split_and!; [done..|]. destruct Hx as [[He _]|[He Hx]]; [by left|]. right. exists command. by split_and!.
  - split_and!; [done|by cbn; rewrite Hok|]. cbn. rewrite Hok.
    destruct Hx as [[He _]|[He Hx]]; [by left|]. right. exists command. by split_and!.
Qed.

(** ** Exit statuses *)

Definition gives {A} (m : R A) (P : A → Prop) : Prop := ∀ s, P (m s).1.

Lemma gives_ret {A} (a : A) (P : A → Prop) : P a → gives (mret a) P.
Proof. by intros Ha s. Qed.
Lemma gives_bind {A B} (m : R A) (f : A → R B) (P : A → Prop) (Q : B → Prop) :
  gives m P → (∀ a, P a → gives (f a) Q) → gives (m ≫= f) Q.
Proof.
  intros Hm Hf s. specialize (Hm s). unfold mbind, R_bind. destruct (m s) as [a s']. by apply Hf.
Qed.
Lemma gives_any {A B} (m : R A) (f : A → R B) (Q : B → Prop) : (∀ a, gives (f a) Q) → gives (m ≫= f) Q.
Proof. intros Hf. by apply (gives_bind m f (λ _, True)). Qed.

(** The status of a result agrees with its verdict. *)
Definition honest (r : RunResult) : Prop := rr_OK r = true ↔ rr_Exit r = 0%Z.

Lemma failure_honest f r : rr_OK r = false → rr_Exit r = f_Exit f → f_Exit f ≠ 0%Z → honest r.
Proof. unfold honest. intros -> -> Hf. by split. Qed.

Context {Hsound : SoundErrors net ParsePrivateKey}.

Ltac exits := first [apply Classify_exits | apply classified_exit; naive_solver | unfold ClassifyRunExecution; repeat case_match; apply Classify_exits].
Ltac fails := repeat (apply gives_any; intros _); apply gives_ret; eapply failure_honest; [reflexivity..|exits].

Lemma ended_badly_honest c opts w err res :
  sound_error err → gives (run_ended_badly RedactString windows c opts w err res) honest.
Proof. intros Herr. unfold run_ended_badly. cbv zeta. repeat case_match; fails. Qed.

Lemma ended_honest c opts w res :
  (∀ e, rw_run w = Some e → sound_error e) → gives (run_ended RedactString windows c opts w res) honest.
Proof.
  intros Hrun. unfold run_ended. cbv zeta.
  repeat (case_match; try fails). all: first [by apply ended_badly_honest, Hrun | by apply gives_ret].
Qed.

Lemma session_honest c opts w stdin res :
  (∀ e, rw_run w = Some e → sound_error e) → gives (run_session RedactString windows c opts w stdin res) honest.
Proof.
  intros Hrun. unfold run_session. cbv beta zeta.
  repeat (case_match; try fails). all: apply gives_any; intros _; by apply ended_honest.
Qed.

Lemma acquire_gives c v noReuse :
  gives (acquire_run c v noReuse) (λ a, ∀ stage e, a = AcquireFailed stage e → sound_error e).
Proof.
  intros s. unfold acquire.
  pose proof (acquire_sound RedactString windows net ParsePrivateKey knownHosts probe rounds
    (negb noReuse && reuseEnabled) redirects c v (rn_pooled s) (mkDialing (rn_step s) [])) as Hres.
  by destruct (acquireSSHSession _ _ _ _ _ _ _ _ _ _ _ _ _) as [[pooled a] d].
Qed.

Lemma dial_loop_gives left n c v opts w :
  gives (loop left n c v opts w) (λ r, ∀ stage e, r.2 = AcquireFailed stage e → sound_error e).
Proof.
  revert n. induction left as [|left IH]; intros n; cbn [dial_loop];
    (eapply gives_bind; [apply acquire_gives|]); intros a Ha;
    (destruct a as [client|stage e]; [by apply gives_ret|]); [by apply gives_ret|].
  destruct (_ || _); [by apply gives_ret|]. apply gives_any. intros _. apply IH.
Qed.

(** C31: A run that did not succeed never ends with status zero, and one that did ends
    with zero, whatever failed: an error of the network, of the remote command, of the
    terminal or of the clock. *)
Theorem run_status_is_honest c v opts w s :
  (∀ e, rw_run w = Some e → sound_error e) →
  let r := (run c v opts w s).1 in rr_OK r = true ↔ rr_Exit r = 0%Z.
Proof.
  intros Hrun. revert s. change (gives (run c v opts w) honest). unfold Run. cbv zeta.
  destruct (ro_PlanOnly opts); [by apply gives_ret|].
  destruct (if bool_decide _ then rw_open w else None); [fails|].
  eapply gives_bind; [apply dial_loop_gives|]. intros [n [client|stage e]] Ha; [by apply session_honest|].
  apply gives_any. intros _. apply gives_ret.
  eapply failure_honest; [reflexivity..|]. eapply classified_exit, Ha. reflexivity.
Qed.
End Facts.
