(* ===== verification/Suggest.v ===== *)
(** * Suggestions for misspelled names ([ssh/suggest.go], [cmd/ssm/suggest.go], [cmd/ssm/help.go])

    The edit distance between names in runes, and the nearest of the known commands,
    options and aliases. *)

From Stdlib Require Import Ascii.
From Stdlib Require Import Ascii Sorting.Sorted.
From S2P Require Import Prelude GoStrings GoErrors GoRegexp Config RemoteCommand.

(** ** Runes *)

Definition RuneError : N := 65533.

Definition between (lo hi x : N) : bool := (lo <=? x)%N && (x <=? hi)%N.

(** [[]rune(s)] of the bytes of a string: UTF-8, each byte that is part of no encoding
    by itself as [RuneError]. *)
Fixpoint decode_runes (l : list N) : list N :=
  match l with
  | [] => []
  | b0 :: r =>
      if (b0 <? 128)%N then b0 :: decode_runes r
      else
        match r with
        | b1 :: r1 =>
            if between 194 223 b0 && between 128 191 b1 then
              (N.land b0 31 * 64 + N.land b1 63)%N :: decode_runes r1
            else
              match r1 with
              | b2 :: r2 =>
                  if (bool_decide (b0 = 224%N) && between 160 191 b1
                      || (between 225 236 b0 || between 238 239 b0) && between 128 191 b1
                      || bool_decide (b0 = 237%N) && between 128 159 b1) && between 128 191 b2 then
                    (N.land b0 15 * 4096 + N.land b1 63 * 64 + N.land b2 63)%N :: decode_runes r2
                  else
                    match r2 with
                    | b3 :: r3 =>
                        if (bool_decide (b0 = 240%N) && between 144 191 b1
                            || between 241 243 b0 && between 128 191 b1
                            || bool_decide (b0 = 244%N) && between 128 143 b1)
                           && between 128 191 b2 && between 128 191 b3 then
                          (N.land b0 7 * 262144 + N.land b1 63 * 4096 + N.land b2 63 * 64 + N.land b3 63)%N :: decode_runes r3
                        else RuneError :: decode_runes r
                    | [] => RuneError :: decode_runes r
                    end
              | [] => RuneError :: decode_runes r
              end
        | [] => RuneError :: decode_runes r
        end
  end.
Definition runes (s : string) : list N := decode_runes (code <$> String.list_ascii_of_string s).
Definition RuneCountInString (s : string) : nat := length (runes s).

(** ** The edit distance *)

(** A cell from the one above, the one to the left and the one above that. *)
Definition cell (a b : N) (up left diag : nat) : nat :=
  let cost := if bool_decide (a = b) then 0 else 1 in
  let del := up + 1 in
  let ins := left + 1 in
  let sub := diag + cost in
  let cur := del in
  let cur := if ins <? cur then ins else cur in
  if sub <? cur then sub else cur.

(** The rest of a row for rune [a]: [prev] is the previous row from the column of the
    last cell on, [left] that last cell. *)
Fixpoint next_cells (a : N) (br : list N) (prev : list nat) (left : nat) : list nat :=
  match br, prev with
  | b :: br', diag :: ((up :: _) as prev') =>
      let cur := cell a b up left diag in cur :: next_cells a br' prev' cur
  | _, _ => []
  end.
Definition next_row (i : nat) (a : N) (br : list N) (prev : list nat) : list nat := i :: next_cells a br prev i.

Fixpoint rows (i : nat) (ar br : list N) (prev : list nat) : list nat :=
  match ar with
  | [] => prev
  | a :: ar' => rows (S i) ar' br (next_row i a br prev)
  end.

Definition levenshtein (a b : string) : nat :=
  let ar := runes a in
  let br := runes b in
  match ar, br with
  | [], _ => length br
  | _, [] => length ar
  | _, _ => nth (length br) (rows 1 ar br (seq 0 (length br + 1))) 0
  end.
Definition EditDistance (a b : string) : nat := levenshtein a b.

(** ** Choosing the nearest *)

Record scored := mkScored { s_name : string; s_score : nat }.

(** By score, then by name. *)
Definition scored_less (x y : scored) : bool :=
  (s_score x <? s_score y) || bool_decide (s_score x = s_score y) && String.ltb (s_name x) (s_name y).

(** The loop that moves an element left past the greater ones. *)
Fixpoint insert_scored (x : scored) (l : list scored) : list scored :=
  match l with
  | [] => [x]
  | y :: l' => if scored_less x y then x :: l else y :: insert_scored x l'
  end.
Definition sort_scored (l : list scored) : list scored := foldl (λ acc x, insert_scored x acc) [] l.

Section Suggest.
Context `{!UnicodeCase}.

Definition suggestion_score (q name : string) : nat :=
  let n := ToLower name in
  let d := levenshtein q n in
  if Contains n q || Contains q n then (if 2 <? d then 2 else d) else d.

Definition suggestion_limit (q : string) : nat :=
  let l := RuneCountInString q in
  if 8 <? l then
    let m := Nat.div l 3 in
    let m := if m <? 3 then 3 else m in
    if 6 <? m then 6 else m
  else 3.

Definition SuggestNames (query : string) (names : list string) (limit : Z) : list string :=
  if bool_decide (query = "" ∨ names = [] ∨ (limit ≤ 0)%Z) then []
  else
    let q := ToLower query in
    let best := filter (λ x, s_score x ≤ suggestion_limit q) ((λ name, mkScored name (suggestion_score q name)) <$> names) in
    s_name <$> take (Z.to_nat limit) (sort_scored best).

(** Names within a small edit distance: one edit for short words, two for others. *)
Definition max_distance (length : nat) : nat := if length <=? 4 then 1 else 2.

Definition nearestNames (word : string) (names : list string) (limit : nat) (normalize : string → string) : list string :=
  let target := normalize word in
  let length := List.length (runes target) in
  if length <? 3 then []
  else
    let matches := filter (λ x, s_score x ≤ max_distance length)
      ((λ name, mkScored name (EditDistance target (normalize name))) <$> names) in
    s_name <$> take limit (sort_scored matches).

(** ** Commands *)

Definition helpTokens : list string := ["help"; "--help"; "-h"; "--version"; "-v"].
Definition sharedCommands : list string :=
  ["pull"; "push"; "list"; "host"; "hosts"; "run"; "exec"; "plan"; "map"; "check"; "doctor"; "put"; "get"; "redirect";
   "alias-link"].
Definition sshctlOnlyCommands : list string :=
  ["request"; "sync"; "host-key"; "known-hosts"; "shell"; "status"; "wait"; "tunnel"; "cp"].
Definition ssmOnlyCommands : list string :=
  ["update"; "remove"; "keys"; "ls"; "import-json"; "server"; "register"; "login"; "logout"; "pull-if-changed";
   "remote-hash"].
Definition sshctlCommands : list string := sharedCommands ++ sshctlOnlyCommands ++ helpTokens.
Definition ssmCommands : list string := sharedCommands ++ ssmOnlyCommands ++ helpTokens.
Definition knownCLICommands : list string := sharedCommands ++ sshctlOnlyCommands ++ ssmOnlyCommands ++ helpTokens.
Definition isKnownCommand (sshctl : bool) (command : string) : bool :=
  bool_decide (command ∈ (if sshctl then sshctlCommands else knownCLICommands)).

Definition helpCommandToken (name : string) : bool := bool_decide (name ∈ helpTokens).

(** [strings.NewReplacer("-", "", "_", "")]. *)
Fixpoint drop_marks (s : string) : string :=
  match s with
  | EmptyString => ""
  | String c s' => if Ascii.eqb c "-" || Ascii.eqb c "_" then drop_marks s' else String c (drop_marks s')
  end.
Definition normalizeCommandName (name : string) : string := drop_marks (ToLower name).

Definition commandDistance (a b : string) : nat := EditDistance (normalizeCommandName a) (normalizeCommandName b).

Record commandSuggestion := mkSuggestion { cs_Hint : string; cs_Candidates : list string; cs_distance : nat }.

Definition backtick : string := "`".

Definition misguessed (lower : string) : option string :=
  if bool_decide (lower = "vault") then
    Some "`vault` is not a command in sshctl or ssm; inspect saved hosts with `sshctl host list`"
  else if bool_decide (lower = "alias") then
    Some "`alias` is not a command in sshctl or ssm; list aliases with `sshctl host list` and manage soft links with `sshctl redirect`"
  else None.

(** The program a command is suggested for. *)
Definition pool_name (sshctl : bool) (name : string) : string :=
  let own := if sshctl then sshctlCommands else ssmCommands in
  if bool_decide (name ∈ own) then (if sshctl then "sshctl" else "ssm") else (if sshctl then "ssm" else "sshctl").

Definition suggestCommand (sshctl : bool) (word : string) : option commandSuggestion :=
  let own := if sshctl then sshctlCommands else ssmCommands in
  let other := if sshctl then ssmCommands else sshctlCommands in
  let otherName := if sshctl then "ssm" else "sshctl" in
  let lower := ToLower word in
  match misguessed lower with
  | Some hint => Some (mkSuggestion hint [] 0)
  | None =>
      if bool_decide (lower ∈ other) && negb (bool_decide (lower ∈ own)) && negb (helpCommandToken lower) then
        Some (mkSuggestion
          (backtick +:+ word +:+ backtick +:+ " is an " +:+ otherName +:+ " command; run " +:+ backtick +:+ otherName +:+ " " +:+ lower
           +:+ " ..." +:+ backtick) [] 0)
      else
        let names := filter (λ name, helpCommandToken name = false) knownCLICommands in
        match nearestNames lower names 3 normalizeCommandName with
        | [] => None
        | first :: rest =>
            let best := first :: rest in
            let quoted := (λ name, backtick +:+ pool_name sshctl name +:+ " " +:+ name +:+ backtick) <$> best in
            Some (mkSuggestion
              ("unknown command " +:+ Quote word +:+ "; did you mean " +:+ Join quoted " or " +:+ "?")
              best (commandDistance lower first))
        end
  end.

(** [redirects] are the source names; [v] is the vault, if there is one. *)
Definition aliasIsCloser (word : string) (suggestion : commandSuggestion) (v : option Vault) (redirects : list string) : bool :=
  if cs_distance suggestion =? 0 then false
  else
    let closer name := commandDistance word name <=? cs_distance suggestion in
    match v with
    | Some v => existsb closer (c_Name <$> v_Connections v)
    | None => false
    end || existsb closer redirects.

(** ** Options *)

Definition cut_at_equals (s : string) : string := match IndexByte s "=" with Some i => take_string i s | None => s end.

Definition runOptionSuggestion (options : list string) (arg : string) : string :=
  let name := cut_at_equals arg in
  if bool_decide (name = "--script-file") then "did you mean -f <script> (or --file <script>)?"
  else if bool_decide (name = "--fetch") then "to download files use `sshctl get <alias> <remote> <local>`"
  else if negb (HasPrefix name "--") then ""
  else
    let long := filter (λ option, HasPrefix option "--" = true) options in
    match nearestNames name long 2 (trim_left_set "-") with
    | [] => ""
    | best =>
        let best := (λ option,
          if bool_decide (option = "--refresh")
          then "--refresh (only valid together with --stream: `run <alias> --stream --refresh <duration>`)"
          else option) <$> best in
        "did you mean " +:+ Join best " or " +:+ "?"
    end.

Definition unknownRunOptionError (options : list string) (arg : string) : goerror :=
  let suggestion := runOptionSuggestion options arg in
  if bool_decide (suggestion ≠ "") then Errorf ("unknown run option: " +:+ arg +:+ "; " +:+ suggestion)
  else Errorf ("unknown run option: " +:+ arg).
End Suggest.

(** ** The edit distance is the least number of edits; suggestions are the nearest names *)

(** ** Edits *)

(** [edits n a b]: [n] insertions, deletions and substitutions of runes make [b] of [a]. *)
Inductive edits : nat → list N → list N → Prop :=
  | edits_nil : edits 0 [] []
  | edits_keep n x a b : edits n a b → edits n (x :: a) (x :: b)
  | edits_subst n x y a b : edits n a b → edits (S n) (x :: a) (y :: b)
  | edits_delete n x a b : edits n a b → edits (S n) (x :: a) b
  | edits_insert n y a b : edits n a b → edits (S n) a (y :: b).
#[local] Hint Constructors edits : core.

(** The distance by recursion on both words. *)
Fixpoint distance (a : list N) : list N → nat :=
  match a with
  | [] => λ b, length b
  | x :: a' =>
      fix go (b : list N) : nat :=
        match b with
        | [] => S (length a')
        | y :: b' => cell x y (distance a' b) (go b') (distance a' b')
        end
  end.

Lemma distance_nil b : distance [] b = length b.
Proof. done. Qed.
Lemma distance_nil_r a : distance a [] = length a.
Proof. by destruct a. Qed.
Lemma distance_cons x a y b :
  distance (x :: a) (y :: b) = cell x y (distance a (y :: b)) (distance (x :: a) b) (distance a b).
Proof. done. Qed.
Arguments distance : simpl never.

Lemma cell_spec x y up left diag :
  cell x y up left diag = Nat.min (S up) (Nat.min (S left) (diag + if bool_decide (x = y) then 0 else 1)).
Proof. unfold cell. destruct (bool_decide (x = y)); repeat case_match; rewrite ?Nat.ltb_lt, ?Nat.ltb_ge in *; lia. Qed.

Lemma edits_insert_all b : edits (length b) [] b.
Proof. induction b; cbn [length]; auto. Qed.
Lemma edits_delete_all a : edits (length a) a [].
Proof. induction a; cbn [length]; auto. Qed.

Lemma edits_distance a b : edits (distance a b) a b.
Proof.
  revert b. induction a as [|x a IHa]; intros b; [rewrite distance_nil; apply edits_insert_all|].
  induction b as [|y b IHb]; [rewrite distance_nil_r; apply edits_delete_all|].
  rewrite distance_cons, cell_spec.
  destruct (Nat.min_spec (S (distance (x :: a) b)) (distance a b + if bool_decide (x = y) then 0 else 1)) as [[_ ->]|[_ ->]];
  match goal with |- edits (Nat.min ?n ?m) _ _ => destruct (Nat.min_spec n m) as [[_ ->]|[_ ->]] end; auto.
  case_bool_decide as Hxy; [subst; rewrite Nat.add_0_r; auto|rewrite Nat.add_1_r; auto].
Qed.

Lemma distance_delete x a b : distance (x :: a) b ≤ S (distance a b).
Proof. destruct b as [|y b]; [by rewrite !distance_nil_r|]. rewrite distance_cons, cell_spec. lia. Qed.
Lemma distance_insert a y b : distance a (y :: b) ≤ S (distance a b).
Proof. destruct a as [|x a]; [done|]. rewrite distance_cons, cell_spec. lia. Qed.
Lemma distance_step x y a b : distance (x :: a) (y :: b) ≤ distance a b + if bool_decide (x = y) then 0 else 1.
Proof. rewrite distance_cons, cell_spec. lia. Qed.

Lemma distance_least n a b : edits n a b → distance a b ≤ n.
Proof.
  induction 1 as [|n x a b _ IH|n x y a b _ IH|n x a b _ IH|n y a b _ IH]; [done| | | |].
  - pose proof (distance_step x x a b) as Hd. rewrite bool_decide_eq_true_2 in Hd by done. lia.
  - pose proof (distance_step x y a b). destruct (bool_decide (x = y)); lia.
  - pose proof (distance_delete x a b). lia.
  - pose proof (distance_insert a y b). lia.
Qed.

(** Edits work from either end. *)
Lemma edits_app n m a b a' b' : edits n a b → edits m a' b' → edits (n + m) (a ++ a') (b ++ b').
Proof. intros Hn Hm. induction Hn; cbn; auto. Qed.

Lemma edits_reverse n a b : edits n a b → edits n (reverse a) (reverse b).
Proof.
  induction 1 as [|n x a b _ IH|n x y a b _ IH|n x a b _ IH|n y a b _ IH]; rewrite ?reverse_cons; [done| | | |].
  - rewrite <- (Nat.add_0_r n). apply edits_app; auto.
  - rewrite <- Nat.add_1_r. apply edits_app; auto.
  - rewrite <- Nat.add_1_r, <- (app_nil_r (reverse b)). apply edits_app; auto.
  - rewrite <- Nat.add_1_r, <- (app_nil_r (reverse a)). apply edits_app; auto.
Qed.

Lemma distance_reverse a b : distance (reverse a) (reverse b) = distance a b.
Proof.
  apply Nat.le_antisymm; apply distance_least.
  - apply edits_reverse, edits_distance.
  - rewrite <- (reverse_involutive a), <- (reverse_involutive b) at 2. apply edits_reverse, edits_distance.
Qed.

(** ** The two rows *)

(** A row: the distances of the reversed word so far to the reversed prefixes of [br]
    after [rb]. *)
Fixpoint row_of (ra rb br : list N) : list nat :=
  distance ra rb :: match br with [] => [] | b :: br' => row_of ra (b :: rb) br' end.

Lemma row_of_head ra rb br : ∃ l, row_of ra rb br = distance ra rb :: l.
Proof. destruct br; eauto. Qed.

Lemma next_cells_row a ra rb br :
  distance (a :: ra) rb :: next_cells a br (row_of ra rb br) (distance (a :: ra) rb) = row_of (a :: ra) rb br.
Proof.
  revert rb. induction br as [|b br IH]; intros rb; [done|]. cbn [row_of next_cells].
  destruct (row_of_head ra (b :: rb) br) as [l Hl]. specialize (IH (b :: rb)). rewrite Hl in *.
  by rewrite <- distance_cons, IH.
Qed.

Lemma first_row rb br : row_of [] rb br = seq (length rb) (length br + 1).
Proof.
  revert rb. induction br as [|b br IH]; intros rb; [done|]. cbn [row_of length Nat.add seq]. rewrite distance_nil.
  f_equal. exact (IH (b :: rb)).
Qed.

Lemma rows_row ra ar br : rows (S (length ra)) ar br (row_of ra [] br) = row_of (reverse ar ++ ra) [] br.
Proof.
  revert ra. induction ar as [|a ar IH]; intros ra; [done|]. cbn [rows]. unfold next_row.
  pose proof (next_cells_row a ra [] br) as Hrow. rewrite distance_nil_r in Hrow. cbn [length] in Hrow.
  rewrite Hrow. change (S (S (length ra))) with (S (length (a :: ra))). rewrite (IH (a :: ra)), reverse_cons. by rewrite <- (assoc_L (++)).
Qed.

Lemma nth_row ra rb br : nth (length br) (row_of ra rb br) 0 = distance ra (reverse br ++ rb).
Proof.
  revert rb. induction br as [|b br IH]; intros rb; [done|]. cbn [row_of length nth].
  rewrite IH, reverse_cons. by rewrite <- (assoc_L (++)).
Qed.

Lemma levenshtein_distance a b : levenshtein a b = distance (runes a) (runes b).
Proof.
  unfold levenshtein. destruct (runes a) as [|x ar]; [done|]. destruct (runes b) as [|y br]; [done|].
  set (w := x :: ar). set (v := y :: br). clearbody w v. pose proof (first_row [] v) as Hfirst. cbn [length] in Hfirst.
  rewrite <- Hfirst.
  pose proof (rows_row [] w v) as Hrows. cbn [length] in Hrows. rewrite Hrows, nth_row, !app_nil_r.
  apply distance_reverse.
Qed.

(** C38: The edit distance between two names, computed with two rows, is the least number
    of insertions, deletions and substitutions of runes that make one of the other. *)
Theorem edit_distance_is_least a b :
  edits (EditDistance a b) (runes a) (runes b) ∧ ∀ n, edits n (runes a) (runes b) → EditDistance a b ≤ n.
Proof.
  unfold EditDistance. rewrite levenshtein_distance. split; [apply edits_distance|]. intros n. apply distance_least.
Qed.

(** ** The nearest names *)

Definition scored_le (x y : scored) : Prop := scored_less y x = false.

Lemma scored_less_spec x y : scored_less x y = true ↔
  s_score x < s_score y ∨ s_score x = s_score y ∧ String.ltb (s_name x) (s_name y) = true.
Proof. unfold scored_less. rewrite orb_true_iff, andb_true_iff, Nat.ltb_lt, bool_decide_eq_true. done. Qed.

Lemma scored_le_score x y : scored_le x y → s_score x ≤ s_score y.
Proof. intros Hle%not_true_iff_false. rewrite scored_less_spec in Hle. lia. Qed.

Lemma scored_le_refl x : scored_le x x.
Proof. apply not_true_iff_false. rewrite scored_less_spec, ltb_irrefl. intros [?|[_ ?]]; [lia|done]. Qed.

Lemma scored_less_le x y : scored_less x y = true → scored_le x y.
Proof.
  intros Hxy. apply not_true_iff_false. rewrite !scored_less_spec in *. intros [Hyx|[Hs Hyx]]; [lia|].
  destruct Hxy as [?|[_ Hxy]]; [lia|]. pose proof (ltb_true_le _ _ Hxy). pose proof (ltb_true_le _ _ Hyx).
  assert (s_name x = s_name y) as Heq by by apply (anti_symm String.le). by rewrite Heq, ltb_irrefl in Hxy.
Qed.

Lemma scored_le_trans x y z : scored_le x y → scored_le y z → scored_le x z.
Proof.
  unfold scored_le. rewrite <- !not_true_iff_false, !scored_less_spec. intros Hxy Hyz Hzx. apply Hyz.
  destruct (decide (s_score z < s_score y)); [by left|]. right. assert (s_score z = s_score x ∧ s_score x = s_score y) as [Hz Hx].
  { destruct Hzx as [?|[? _]]; split; lia. }
  destruct Hzx as [?|[_ Hzx]]; [lia|]. split; [lia|].
  destruct (String.ltb (s_name z) (s_name y)) eqn:Hzy; [done|]. exfalso. apply Hxy. right. split; [done|].
  apply ltb_false_le in Hzy. apply ltb_true_le in Hzx as Hzx'.
  destruct (String.ltb (s_name y) (s_name x)) eqn:Hyx; [done|]. apply ltb_false_le in Hyx.
  assert (s_name z = s_name x) as Heq.
  { apply (anti_symm String.le); [done|]. by trans (s_name y). }
  by rewrite Heq, ltb_irrefl in Hzx.
Qed.

Lemma insert_scored_perm x l : insert_scored x l ≡ₚ x :: l.
Proof. induction l as [|y l IH]; cbn; [done|]. destruct (scored_less x y); [done|]. rewrite IH. apply Permutation_swap. Qed.

Lemma insert_scored_sorted x l : StronglySorted scored_le l → StronglySorted scored_le (insert_scored x l).
Proof.
  induction 1 as [|y l Hl IH Hy]; cbn; [by repeat constructor|]. destruct (scored_less x y) eqn:Hxy.
  - apply scored_less_le in Hxy. repeat constructor; [done|done|done|]. eapply Forall_impl; [exact Hy|]. intros z. by apply scored_le_trans.
  - constructor; [done|]. rewrite insert_scored_perm. by constructor.
Qed.

Lemma sort_scored_fold l acc : StronglySorted scored_le acc →
  StronglySorted scored_le (foldl (λ acc x, insert_scored x acc) acc l) ∧
  foldl (λ acc x, insert_scored x acc) acc l ≡ₚ l ++ acc.
Proof.
  revert acc. induction l as [|x l IH]; intros acc Hacc; [done|]. cbn [foldl].
  destruct (IH (insert_scored x acc)) as [Hs Hp]; [by apply insert_scored_sorted|]. split; [done|].
  rewrite Hp, insert_scored_perm. symmetry. apply Permutation_middle.
Qed.

Lemma sort_scored_sorted l : StronglySorted scored_le (sort_scored l).
Proof. by apply sort_scored_fold; constructor. Qed.
Lemma sort_scored_perm l : sort_scored l ≡ₚ l.
Proof. destruct (sort_scored_fold l []) as [_ Hp]; [constructor|]. by rewrite app_nil_r in Hp. Qed.

Lemma in_take {A} (n : nat) (l : list A) x : x ∈ take n l → x ∈ l.
Proof. intros Hx. rewrite <- (take_drop n l). apply elem_of_app. by left. Qed.

(** What is left out is not nearer. *)
Lemma sorted_take_drop (n : nat) (l : list scored) x y :
  StronglySorted scored_le l → x ∈ take n l → y ∈ drop n l → scored_le x y.
Proof.
  intros Hl. revert n. induction Hl as [|z l Hl IH Hz]; intros [|n] Hx Hy; cbn in *; try by apply elem_of_nil in Hx.
  apply elem_of_cons in Hx as [->|Hx]; [|by apply (IH n)].
  rewrite Forall_forall in Hz. apply Hz. rewrite <- (take_drop n l). apply elem_of_app. by right.
Qed.

(** The names suggested for a word are known names within the allowed edit distance,
    at most [limit] of them; a known name within that distance that is left out is not
    nearer than any that is suggested, and words under three runes get none. *)
Theorem nearest_names_are_nearest `{!UnicodeCase} word names limit normalize :
  let score name := EditDistance (normalize word) (normalize name) in
  let best := nearestNames word names limit normalize in
  let allowed name := 3 ≤ RuneCountInString (normalize word) ∧ score name ≤ max_distance (RuneCountInString (normalize word)) in
  length best ≤ limit ∧ (∀ name, name ∈ best → name ∈ names ∧ allowed name) ∧
  ∀ name, name ∈ names → allowed name → name ∉ best → length best = limit ∧
    ∀ other, other ∈ best → score other < score name ∨ score other = score name ∧ String.le other name.
Proof.
  intros score best allowed. subst best. unfold nearestNames, RuneCountInString in *.
  set (count := length (runes (normalize word))). destruct (count <? 3) eqn:Hcount.
  { apply Nat.ltb_lt in Hcount. split_and!; [cbn; lia|by intros name Hin%elem_of_nil|]. intros name _ [Hc _]. subst count. lia. }
  set (all := filter _ _). set (sorted := sort_scored all).
  assert (∀ x, x ∈ sorted ↔ s_name x ∈ names ∧ s_score x = score (s_name x) ∧ s_score x ≤ max_distance count) as Hall.
  { intros x. subst sorted all. rewrite sort_scored_perm, list_elem_of_filter, list_elem_of_fmap. split.
    - by intros (Hle & name & -> & Hname).
    - intros (Hname & Hs & Hle). split; [done|]. exists (s_name x). split; [|done]. destruct x. cbn in *. by subst. }
  pose proof (sort_scored_sorted all) as Hsorted. fold sorted in Hsorted. apply Nat.ltb_ge in Hcount.
  split_and!.
  - rewrite length_fmap, length_take. lia.
  - intros name (x & -> & Hx)%list_elem_of_fmap. apply in_take in Hx. apply Hall in Hx as (Hn & Hs & Hle). split; [done|]. split; [done|]. by rewrite <- Hs.
  - intros name Hname [_ Hle] Hout. set (x := mkScored name (score name)).
    assert (x ∈ sorted) as Hx by by apply Hall.
    assert (x ∈ drop limit sorted) as Hdrop.
    { rewrite <- (take_drop limit sorted) in Hx. apply elem_of_app in Hx as [Hx|Hx]; [|done].
      exfalso. apply Hout. apply list_elem_of_fmap. by exists x. }
    split.
    + rewrite length_fmap, length_take. apply Nat.min_l. destruct (decide (limit ≤ length sorted)) as [|Hn]; [done|].
      rewrite drop_ge in Hdrop by lia. by apply elem_of_nil in Hdrop.
    + intros other (y & -> & Hy)%list_elem_of_fmap. pose proof (sorted_take_drop limit sorted y x Hsorted Hy Hdrop) as Hyx.
      assert (s_score y = score (s_name y)) as <-.
      { apply in_take in Hy. by apply Hall in Hy as (_ & ? & _). }
      unfold scored_le in Hyx. rewrite <- not_true_iff_false, scored_less_spec in Hyx. cbn [x s_score s_name] in Hyx.
      destruct (decide (s_score y < score name)); [by left|]. right. split; [lia|].
      apply ltb_false_le, not_true_iff_false. intros Hlt. apply Hyx. right. split; [lia|done].
Qed.
