(* ===== verification/CommandLine.v ===== *)
(** * The command line of remote runs ([cmd/ssm/runargs.go], [help.go], [machine.go], [stream.go], [main.go])

    Which tokens are options of the program and which belong to the remote command; the
    options of run, exec, plan and map; the global options; help and output mode. Files
    and the standard input are read through the argument [Reads]. *)

From Stdlib Require Import Ascii.
From stdpp Require Import pretty.
From S2P Require Import Prelude GoStrings GoErrors GoRegexp ValueStream Redaction MachineContract Config SshDial RemoteCommand RemoteRun Suggest.

(** ** Boundaries *)

Definition runValueOptions : list string :=
  ["--jobs"; "-j"; "--parallel"; "--timeout"; "--secret"; "-e"; "--shell"; "--interpreter"; "-f"; "--file"; "--scripts";
   "--refresh"; "--retry-dial"; "--connect-timeout"; "--exec-timeout"; "--stdin-file"].
Definition runFlagOptions : list string :=
  ["--raw"; "--argv"; "--trace"; "-v"; "--json"; "--plan"; "--dry-run"; "--no-reuse"; "--preflight"; "--no-preflight";
   "-s"; "--script"; "-h"; "--help"; "--stream"; "--stdin"; "--no-stdin"].

Definition runOptionTakesValue (arg : string) : bool := bool_decide (arg ∈ runValueOptions).

(** A token that looks like an option. *)
Definition dashed (arg : string) : bool := HasPrefix arg "-" && negb (bool_decide (arg = "-")).

Fixpoint remoteArgvStart (args : list string) : nat :=
  match args with
  | [] => 0
  | arg :: rest =>
      if bool_decide (arg = "--" ∨ arg = "--argv") then 0
      else if runOptionTakesValue arg then
        match rest with [] => 1 | _ :: rest' => 2 + remoteArgvStart rest' end
      else if dashed arg then 1 + remoteArgvStart rest
      else 0
  end.

Definition runOptionEnd (args : list string) : nat :=
  let i := match args with first :: _ => if bool_decide (first = "--json") then 1 else 0 | [] => 0 end in
  let i := match args !! i with Some arg => if negb (HasPrefix arg "-") then S i else i | None => i end in
  i + remoteArgvStart (drop i args).

Fixpoint splitMapTargets (args : list string) : list string * list string :=
  match args with
  | [] => ([], [])
  | arg :: rest =>
      if bool_decide (arg = "--") || HasPrefix arg "-" then ([], args)
      else let '(targets, rest) := splitMapTargets rest in (arg :: targets, rest)
  end.

Definition mapOptionEnd (args : list string) : nat :=
  let '(targets, rest) := splitMapTargets args in length targets + remoteArgvStart rest.

(** ** The options *)

Definition maxSecretBytes : Z := Z.shiftl 1 20.

(** The variables of [parseRemoteRunArgs]. *)
Record runScan := mkScan {
  sc_raw : bool;
  sc_fromStdin : bool;
  sc_filePaths : list string;
  sc_trace : bool;
  sc_jsonOut : bool;
  sc_plan : bool;
  sc_noReuse : bool;
  sc_workers : Z;
  sc_secrets : gmap string string;
  sc_parts : list string;
  sc_shell : string;
  sc_interp : string;
  sc_argvMode : bool;
  sc_preflight : bool;
  sc_afterDash : bool;
  sc_stdinFlag : bool;
  sc_noStdin : bool;
  sc_stdinFile : string;
  sc_retryDial : Z;
  sc_retryBackoff : Z;
  sc_connectTo : Z;
  sc_execTo : Z;
}.

Definition set_raw (x : bool) (s : runScan) : runScan :=
  mkScan x (sc_fromStdin s) (sc_filePaths s) (sc_trace s) (sc_jsonOut s) (sc_plan s) (sc_noReuse s)
    (sc_workers s) (sc_secrets s) (sc_parts s) (sc_shell s) (sc_interp s) (sc_argvMode s) (sc_preflight s)
    (sc_afterDash s) (sc_stdinFlag s) (sc_noStdin s) (sc_stdinFile s) (sc_retryDial s) (sc_retryBackoff s)
    (sc_connectTo s) (sc_execTo s).
Definition set_fromStdin (x : bool) (s : runScan) : runScan :=
  mkScan (sc_raw s) x (sc_filePaths s) (sc_trace s) (sc_jsonOut s) (sc_plan s) (sc_noReuse s) (sc_workers s)
    (sc_secrets s) (sc_parts s) (sc_shell s) (sc_interp s) (sc_argvMode s) (sc_preflight s) (sc_afterDash s)
    (sc_stdinFlag s) (sc_noStdin s) (sc_stdinFile s) (sc_retryDial s) (sc_retryBackoff s) (sc_connectTo s)
    (sc_execTo s).
Definition set_filePaths (x : list string) (s : runScan) : runScan :=
  mkScan (sc_raw s) (sc_fromStdin s) x (sc_trace s) (sc_jsonOut s) (sc_plan s) (sc_noReuse s) (sc_workers s)
    (sc_secrets s) (sc_parts s) (sc_shell s) (sc_interp s) (sc_argvMode s) (sc_preflight s) (sc_afterDash s)
    (sc_stdinFlag s) (sc_noStdin s) (sc_stdinFile s) (sc_retryDial s) (sc_retryBackoff s) (sc_connectTo s)
    (sc_execTo s).
Definition set_trace (x : bool) (s : runScan) : runScan :=
  mkScan (sc_raw s) (sc_fromStdin s) (sc_filePaths s) x (sc_jsonOut s) (sc_plan s) (sc_noReuse s) (sc_workers s)
    (sc_secrets s) (sc_parts s) (sc_shell s) (sc_interp s) (sc_argvMode s) (sc_preflight s) (sc_afterDash s)
    (sc_stdinFlag s) (sc_noStdin s) (sc_stdinFile s) (sc_retryDial s) (sc_retryBackoff s) (sc_connectTo s)
    (sc_execTo s).
Definition set_jsonOut (x : bool) (s : runScan) : runScan :=
  mkScan (sc_raw s) (sc_fromStdin s) (sc_filePaths s) (sc_trace s) x (sc_plan s) (sc_noReuse s) (sc_workers s)
    (sc_secrets s) (sc_parts s) (sc_shell s) (sc_interp s) (sc_argvMode s) (sc_preflight s) (sc_afterDash s)
    (sc_stdinFlag s) (sc_noStdin s) (sc_stdinFile s) (sc_retryDial s) (sc_retryBackoff s) (sc_connectTo s)
    (sc_execTo s).
Definition set_plan (x : bool) (s : runScan) : runScan :=
  mkScan (sc_raw s) (sc_fromStdin s) (sc_filePaths s) (sc_trace s) (sc_jsonOut s) x (sc_noReuse s)
    (sc_workers s) (sc_secrets s) (sc_parts s) (sc_shell s) (sc_interp s) (sc_argvMode s) (sc_preflight s)
    (sc_afterDash s) (sc_stdinFlag s) (sc_noStdin s) (sc_stdinFile s) (sc_retryDial s) (sc_retryBackoff s)
    (sc_connectTo s) (sc_execTo s).
Definition set_noReuse (x : bool) (s : runScan) : runScan :=
  mkScan (sc_raw s) (sc_fromStdin s) (sc_filePaths s) (sc_trace s) (sc_jsonOut s) (sc_plan s) x (sc_workers s)
    (sc_secrets s) (sc_parts s) (sc_shell s) (sc_interp s) (sc_argvMode s) (sc_preflight s) (sc_afterDash s)
    (sc_stdinFlag s) (sc_noStdin s) (sc_stdinFile s) (sc_retryDial s) (sc_retryBackoff s) (sc_connectTo s)
    (sc_execTo s).
Definition set_workers (x : Z) (s : runScan) : runScan :=
  mkScan (sc_raw s) (sc_fromStdin s) (sc_filePaths s) (sc_trace s) (sc_jsonOut s) (sc_plan s) (sc_noReuse s) x
    (sc_secrets s) (sc_parts s) (sc_shell s) (sc_interp s) (sc_argvMode s) (sc_preflight s) (sc_afterDash s)
    (sc_stdinFlag s) (sc_noStdin s) (sc_stdinFile s) (sc_retryDial s) (sc_retryBackoff s) (sc_connectTo s)
    (sc_execTo s).
Definition set_secrets (x : gmap string string) (s : runScan) : runScan :=
  mkScan (sc_raw s) (sc_fromStdin s) (sc_filePaths s) (sc_trace s) (sc_jsonOut s) (sc_plan s) (sc_noReuse s)
    (sc_workers s) x (sc_parts s) (sc_shell s) (sc_interp s) (sc_argvMode s) (sc_preflight s) (sc_afterDash s)
    (sc_stdinFlag s) (sc_noStdin s) (sc_stdinFile s) (sc_retryDial s) (sc_retryBackoff s) (sc_connectTo s)
    (sc_execTo s).
Definition set_parts (x : list string) (s : runScan) : runScan :=
  mkScan (sc_raw s) (sc_fromStdin s) (sc_filePaths s) (sc_trace s) (sc_jsonOut s) (sc_plan s) (sc_noReuse s)
    (sc_workers s) (sc_secrets s) x (sc_shell s) (sc_interp s) (sc_argvMode s) (sc_preflight s) (sc_afterDash s)
    (sc_stdinFlag s) (sc_noStdin s) (sc_stdinFile s) (sc_retryDial s) (sc_retryBackoff s) (sc_connectTo s)
    (sc_execTo s).
Definition set_shell (x : string) (s : runScan) : runScan :=
  mkScan (sc_raw s) (sc_fromStdin s) (sc_filePaths s) (sc_trace s) (sc_jsonOut s) (sc_plan s) (sc_noReuse s)
    (sc_workers s) (sc_secrets s) (sc_parts s) x (sc_interp s) (sc_argvMode s) (sc_preflight s) (sc_afterDash s)
    (sc_stdinFlag s) (sc_noStdin s) (sc_stdinFile s) (sc_retryDial s) (sc_retryBackoff s) (sc_connectTo s)
    (sc_execTo s).
Definition set_interp (x : string) (s : runScan) : runScan :=
  mkScan (sc_raw s) (sc_fromStdin s) (sc_filePaths s) (sc_trace s) (sc_jsonOut s) (sc_plan s) (sc_noReuse s)
    (sc_workers s) (sc_secrets s) (sc_parts s) (sc_shell s) x (sc_argvMode s) (sc_preflight s) (sc_afterDash s)
    (sc_stdinFlag s) (sc_noStdin s) (sc_stdinFile s) (sc_retryDial s) (sc_retryBackoff s) (sc_connectTo s)
    (sc_execTo s).
Definition set_argvMode (x : bool) (s : runScan) : runScan :=
  mkScan (sc_raw s) (sc_fromStdin s) (sc_filePaths s) (sc_trace s) (sc_jsonOut s) (sc_plan s) (sc_noReuse s)
    (sc_workers s) (sc_secrets s) (sc_parts s) (sc_shell s) (sc_interp s) x (sc_preflight s) (sc_afterDash s)
    (sc_stdinFlag s) (sc_noStdin s) (sc_stdinFile s) (sc_retryDial s) (sc_retryBackoff s) (sc_connectTo s)
    (sc_execTo s).
Definition set_preflight (x : bool) (s : runScan) : runScan :=
  mkScan (sc_raw s) (sc_fromStdin s) (sc_filePaths s) (sc_trace s) (sc_jsonOut s) (sc_plan s) (sc_noReuse s)
    (sc_workers s) (sc_secrets s) (sc_parts s) (sc_shell s) (sc_interp s) (sc_argvMode s) x (sc_afterDash s)
    (sc_stdinFlag s) (sc_noStdin s) (sc_stdinFile s) (sc_retryDial s) (sc_retryBackoff s) (sc_connectTo s)
    (sc_execTo s).
Definition set_afterDash (x : bool) (s : runScan) : runScan :=
  mkScan (sc_raw s) (sc_fromStdin s) (sc_filePaths s) (sc_trace s) (sc_jsonOut s) (sc_plan s) (sc_noReuse s)
    (sc_workers s) (sc_secrets s) (sc_parts s) (sc_shell s) (sc_interp s) (sc_argvMode s) (sc_preflight s) x
    (sc_stdinFlag s) (sc_noStdin s) (sc_stdinFile s) (sc_retryDial s) (sc_retryBackoff s) (sc_connectTo s)
    (sc_execTo s).
Definition set_stdinFlag (x : bool) (s : runScan) : runScan :=
  mkScan (sc_raw s) (sc_fromStdin s) (sc_filePaths s) (sc_trace s) (sc_jsonOut s) (sc_plan s) (sc_noReuse s)
    (sc_workers s) (sc_secrets s) (sc_parts s) (sc_shell s) (sc_interp s) (sc_argvMode s) (sc_preflight s)
    (sc_afterDash s) x (sc_noStdin s) (sc_stdinFile s) (sc_retryDial s) (sc_retryBackoff s) (sc_connectTo s)
    (sc_execTo s).
Definition set_noStdin (x : bool) (s : runScan) : runScan :=
  mkScan (sc_raw s) (sc_fromStdin s) (sc_filePaths s) (sc_trace s) (sc_jsonOut s) (sc_plan s) (sc_noReuse s)
    (sc_workers s) (sc_secrets s) (sc_parts s) (sc_shell s) (sc_interp s) (sc_argvMode s) (sc_preflight s)
    (sc_afterDash s) (sc_stdinFlag s) x (sc_stdinFile s) (sc_retryDial s) (sc_retryBackoff s) (sc_connectTo s)
    (sc_execTo s).
Definition set_stdinFile (x : string) (s : runScan) : runScan :=
  mkScan (sc_raw s) (sc_fromStdin s) (sc_filePaths s) (sc_trace s) (sc_jsonOut s) (sc_plan s) (sc_noReuse s)
    (sc_workers s) (sc_secrets s) (sc_parts s) (sc_shell s) (sc_interp s) (sc_argvMode s) (sc_preflight s)
    (sc_afterDash s) (sc_stdinFlag s) (sc_noStdin s) x (sc_retryDial s) (sc_retryBackoff s) (sc_connectTo s)
    (sc_execTo s).
Definition set_retryDial (x : Z) (s : runScan) : runScan :=
  mkScan (sc_raw s) (sc_fromStdin s) (sc_filePaths s) (sc_trace s) (sc_jsonOut s) (sc_plan s) (sc_noReuse s)
    (sc_workers s) (sc_secrets s) (sc_parts s) (sc_shell s) (sc_interp s) (sc_argvMode s) (sc_preflight s)
    (sc_afterDash s) (sc_stdinFlag s) (sc_noStdin s) (sc_stdinFile s) x (sc_retryBackoff s) (sc_connectTo s)
    (sc_execTo s).
Definition set_retryBackoff (x : Z) (s : runScan) : runScan :=
  mkScan (sc_raw s) (sc_fromStdin s) (sc_filePaths s) (sc_trace s) (sc_jsonOut s) (sc_plan s) (sc_noReuse s)
    (sc_workers s) (sc_secrets s) (sc_parts s) (sc_shell s) (sc_interp s) (sc_argvMode s) (sc_preflight s)
    (sc_afterDash s) (sc_stdinFlag s) (sc_noStdin s) (sc_stdinFile s) (sc_retryDial s) x (sc_connectTo s)
    (sc_execTo s).
Definition set_connectTo (x : Z) (s : runScan) : runScan :=
  mkScan (sc_raw s) (sc_fromStdin s) (sc_filePaths s) (sc_trace s) (sc_jsonOut s) (sc_plan s) (sc_noReuse s)
    (sc_workers s) (sc_secrets s) (sc_parts s) (sc_shell s) (sc_interp s) (sc_argvMode s) (sc_preflight s)
    (sc_afterDash s) (sc_stdinFlag s) (sc_noStdin s) (sc_stdinFile s) (sc_retryDial s) (sc_retryBackoff s) x
    (sc_execTo s).
Definition set_execTo (x : Z) (s : runScan) : runScan :=
  mkScan (sc_raw s) (sc_fromStdin s) (sc_filePaths s) (sc_trace s) (sc_jsonOut s) (sc_plan s) (sc_noReuse s)
    (sc_workers s) (sc_secrets s) (sc_parts s) (sc_shell s) (sc_interp s) (sc_argvMode s) (sc_preflight s)
    (sc_afterDash s) (sc_stdinFlag s) (sc_noStdin s) (sc_stdinFile s) (sc_retryDial s) (sc_retryBackoff s)
    (sc_connectTo s) x.

Definition initial_scan (machineJSON : bool) : runScan :=
  mkScan false false [] false machineJSON false false 0 ∅ [] "" "" false false false false false "" 0 0 0 0.


(** ** Files and numbers *)

(** What reading to the end gives: the bytes before the end or before an error. *)
Definition Source := (string * option goerror)%type.

(** Opening a file, asking whether it is a directory, and the standard input. *)
Record Reads := mkReads { rd_open : string → result Source; rd_is_dir : string → result bool; rd_stdin : Source }.

(** [io.ReadAll(io.LimitReader(f, limit))]: an error past the limit is not met. *)
Definition read_at_most (limit : Z) (src : Source) : result string :=
  let '(data, err) := src in
  if bool_decide (limit ≤ Z.of_nat (String.length data))%Z then Ok (take_string (Z.to_nat limit) data)
  else match err with Some e => Fail e | None => Ok data end.

Section CommandLine.
Context `{!UnicodeCase}.
Variable ParseDuration : string → option Z.
Variable reads : Reads.

Definition readLimitedFile (path : string) (limit : Z) : result string :=
  src ← rd_open reads path;
  data ← read_at_most (limit + 1) src;
  if bool_decide (limit < Z.of_nat (String.length data))%Z then Fail (Errorf ("file exceeds " +:+ pretty limit +:+ " bytes"))
  else Ok data.

Definition readScriptFile (path : string) : result string := readLimitedFile path MaxScriptBytes.

Definition parseCLIDuration (flag v : string) : result Z :=
  let v := TrimSpace v in
  if bool_decide (v = "") then Fail (Errorf (flag +:+ " requires a duration (e.g. 10s or 30)"))
  else
    match ParseDuration v with
    | Some d => if bool_decide (d ≤ 0)%Z then Fail (Errorf (flag +:+ " must be positive")) else Ok d
    | None =>
        match Atoi v with
        | Some sec =>
            if bool_decide (0 < sec)%Z then Ok (wrap_int (sec * second))
            else Fail (Errorf ("invalid " +:+ flag +:+ " " +:+ Quote v +:+ " (use 10s, 1m, or integer seconds)"))
        | None => Fail (Errorf ("invalid " +:+ flag +:+ " " +:+ Quote v +:+ " (use 10s, 1m, or integer seconds)"))
        end
    end.

Definition isDurationFlag (arg : string) (names : list string) : bool :=
  existsb (λ name, bool_decide (arg = name) || HasPrefix arg (name +:+ "=")) names.

(** The flag, its value, and whether it took the next argument. *)
Fixpoint consumeDurationFlag (arg : string) (rest names : list string) : result (string * Z * bool) :=
  match names with
  | [] => Fail (Errorf ("unrecognized duration flag " +:+ Quote arg))
  | name :: names' =>
      if bool_decide (arg = name) then
        match rest with
        | [] => Fail (Errorf (name +:+ " requires a duration (e.g. 10s or 30)"))
        | value :: _ => d ← parseCLIDuration name value; Ok (name, d, true)
        end
      else if HasPrefix arg (name +:+ "=") then
        d ← parseCLIDuration name (TrimPrefix arg (name +:+ "=")); Ok (name, d, false)
      else consumeDurationFlag arg rest names'
  end.

Definition duration_flags : list string := ["--timeout"; "--connect-timeout"; "--exec-timeout"].

Definition parseRetryDial (value : string) : result (Z * Z) :=
  match Split ":" value with
  | [] => Fail (Errorf ("invalid --retry-dial " +:+ Quote value +:+ " (use N[:backoff])"))
  | count :: parts =>
      if bool_decide (1 < length parts) || bool_decide (count = "") then
        Fail (Errorf ("invalid --retry-dial " +:+ Quote value +:+ " (use N[:backoff])"))
      else
        match Atoi count with
        | None => Fail (Errorf ("invalid --retry-dial " +:+ Quote value +:+ " (N must be non-negative)"))
        | Some n =>
            if bool_decide (n < 0)%Z then
              Fail (Errorf ("invalid --retry-dial " +:+ Quote value +:+ " (N must be non-negative)"))
            else if bool_decide (MaxRetryDial < n)%Z then
              Fail (Errorf ("invalid --retry-dial " +:+ Quote value +:+ " (N must be at most " +:+ pretty MaxRetryDial +:+ ")"))
            else
              match parts with
              | [] => Ok (n, 250 * (second / 1000))%Z
              | text :: _ =>
                  match ParseDuration text with
                  | Some backoff =>
                      if bool_decide (backoff ≤ 0)%Z then Fail (Errorf ("invalid --retry-dial backoff " +:+ Quote text))
                      else Ok (n, backoff)
                  | None => Fail (Errorf ("invalid --retry-dial backoff " +:+ Quote text))
                  end
              end
        end
  end.

(** The warning about a readable secret file goes to standard error. *)
Definition parseSecretKV (spec : string) (into : gmap string string) : result (gmap string string) :=
  match IndexByte spec "=" with
  | None | Some 0 => Fail (Errorf "secret must be NAME=value or NAME=@path")
  | Some eq =>
      let name := take_string eq spec in
      if negb (ValidEnvName name) then Fail (Errorf ("invalid secret environment name " +:+ Quote name))
      else
        let val := drop_string (eq + 1) spec in
        val ← (if HasPrefix val "@" then
                 let path := drop_string 1 val in
                 match readLimitedFile path maxSecretBytes with
                 | Fail err => Fail (Wrap ("secret file " +:+ path +:+ ": " +:+ error_text err) [err])
                 | Ok data => Ok (TrimRight data (CR +:+ LF))
                 end
               else Ok val);
        if bool_decide (maxSecretBytes < Z.of_nat (String.length val))%Z then
          Fail (Errorf ("secret value exceeds " +:+ pretty maxSecretBytes +:+ " bytes"))
        else if contains_char NUL val then Fail (Errorf "secret value contains a NUL byte")
        else Ok (<[name := val]> into)
  end.

(** ** One argument *)

(** Whether the loop goes on, and whether the next argument was taken too. *)
Inductive scanned := Continue (took : bool) (s : runScan) | Stop (s : runScan).

Definition parse_jobs (text : string) (err : goerror) (s : runScan) : result runScan :=
  match Atoi text with
  | Some n => if bool_decide (n < 1)%Z then Fail err else Ok (set_workers n s)
  | None => Fail err
  end.

Definition take_next (rest : list string) (err : goerror) (f : string → result runScan) : result scanned :=
  match rest with
  | [] => Fail err
  | next :: _ => s ← f next; Ok (Continue true s)
  end.

Definition set_retry (value : string) (s : runScan) : result runScan :=
  '(n, backoff) ← parseRetryDial value; Ok (set_retryBackoff backoff (set_retryDial n s)).

Definition script_list (value : string) : list string :=
  filter (λ p, p ≠ "") (TrimSpace <$> Split "," value).

Definition scan_argv (rest : list string) (s : runScan) : runScan :=
  match rest with
  | first :: rest' =>
      if bool_decide (first = "--") then set_afterDash true (set_parts rest' (set_argvMode true s))
      else set_parts rest (set_argvMode true s)
  | [] => set_parts [] (set_argvMode true s)
  end.

Definition scan_duration (arg : string) (rest : list string) (s : runScan) : result scanned :=
  '(flag, d, took) ← consumeDurationFlag arg rest duration_flags;
  Ok (Continue took (if bool_decide (flag = "--exec-timeout") then set_execTo d s else set_connectTo d s)).

(** The switch of [parseRemoteRunArgs] on one argument. *)
Definition scan_option (arg : string) (rest : list string) (s : runScan) : result scanned :=
  if bool_decide (arg = "--") then Ok (Stop (set_afterDash true (set_parts rest s)))
  else if bool_decide (arg = "--raw") then Ok (Continue false (set_raw true s))
  else if bool_decide (arg = "--argv") then Ok (Stop (scan_argv rest s))
  else if bool_decide (arg = "--trace" ∨ arg = "-v") then Ok (Continue false (set_trace true s))
  else if bool_decide (arg = "--json") then Ok (Continue false (set_jsonOut true s))
  else if bool_decide (arg = "--plan" ∨ arg = "--dry-run") then Ok (Continue false (set_plan true s))
  else if bool_decide (arg = "--no-reuse") then Ok (Continue false (set_noReuse true s))
  else if bool_decide (arg = "--preflight") then Ok (Continue false (set_preflight true s))
  else if bool_decide (arg = "--no-preflight") then Ok (Continue false (set_preflight false s))
  else if bool_decide (arg = "--jobs" ∨ arg = "-j" ∨ arg = "--parallel") then
    take_next rest (Errorf (arg +:+ " requires a number"))
      (λ next, parse_jobs next (Errorf ("invalid jobs value " +:+ Quote next)) s)
  else if HasPrefix arg "--jobs=" then
    s ← parse_jobs (TrimPrefix arg "--jobs=") (Errorf "invalid --jobs value") s; Ok (Continue false s)
  else if isDurationFlag arg duration_flags then scan_duration arg rest s
  else if bool_decide (arg = "--retry-dial") then
    take_next rest (Errorf "--retry-dial requires N[:backoff]") (λ next, set_retry next s)
  else if HasPrefix arg "--retry-dial=" then
    s ← set_retry (TrimPrefix arg "--retry-dial=") s; Ok (Continue false s)
  else if bool_decide (arg = "--secret" ∨ arg = "-e") then
    take_next rest (Errorf (arg +:+ " requires NAME=value or NAME=@path"))
      (λ next, secrets ← parseSecretKV next (sc_secrets s); Ok (set_secrets secrets s))
  else if HasPrefix arg "--secret=" then
    secrets ← parseSecretKV (TrimPrefix arg "--secret=") (sc_secrets s); Ok (Continue false (set_secrets secrets s))
  else if bool_decide (arg = "--shell" ∨ arg = "--interpreter") then
    take_next rest (Errorf (arg +:+ " requires a shell or interpreter name"))
      (λ next, Ok (if bool_decide (arg = "--shell") then set_shell next s else set_interp next s))
  else if HasPrefix arg "--shell=" then Ok (Continue false (set_shell (TrimPrefix arg "--shell=") s))
  else if HasPrefix arg "--interpreter=" then Ok (Continue false (set_interp (TrimPrefix arg "--interpreter=") s))
  else if bool_decide (arg = "-s" ∨ arg = "--script") then Ok (Continue false (set_fromStdin true s))
  else if bool_decide (arg = "-f" ∨ arg = "--file") then
    take_next rest (Errorf (arg +:+ " requires a path")) (λ next, Ok (set_filePaths (sc_filePaths s ++ [next]) s))
  else if HasPrefix arg "--file=" then
    let p := TrimPrefix arg "--file=" in
    if bool_decide (p = "") then Fail (Errorf "--file requires a path")
    else Ok (Continue false (set_filePaths (sc_filePaths s ++ [p]) s))
  else if bool_decide (arg = "--scripts") then
    take_next rest (Errorf "--scripts requires comma-separated paths")
      (λ next, Ok (set_filePaths (sc_filePaths s ++ script_list next) s))
  else if bool_decide (arg = "--stdin") then Ok (Continue false (set_stdinFlag true s))
  else if bool_decide (arg = "--no-stdin") then Ok (Continue false (set_noStdin true s))
  else if bool_decide (arg = "--stdin-file") then
    take_next rest (Errorf "--stdin-file requires a path")
      (λ next, if bool_decide (sc_stdinFile s ≠ "") then Fail (Errorf "--stdin-file may be given only once")
               else Ok (set_stdinFile next s))
  else if HasPrefix arg "--stdin-file=" then
    if bool_decide (sc_stdinFile s ≠ "") then Fail (Errorf "--stdin-file may be given only once")
    else
      let s := set_stdinFile (TrimPrefix arg "--stdin-file=") s in
      if bool_decide (sc_stdinFile s = "") then Fail (Errorf "--stdin-file requires a path") else Ok (Continue false s)
  else if bool_decide (arg = "-h" ∨ arg = "--help") then Fail (Errorf "help")
  else if dashed arg then Fail (unknownRunOptionError (runValueOptions ++ runFlagOptions) arg)
  else Ok (Stop (set_parts (arg :: rest) s)).

(** The loop of [parseRemoteRunArgs]. *)
Fixpoint scan_args (args : list string) (s : runScan) : result runScan :=
  match args with
  | [] => Ok s
  | arg :: rest =>
      match scan_option arg rest s with
      | Fail err => Fail err
      | Ok (Stop s) => Ok s
      | Ok (Continue took s) =>
          match rest with
          | _ :: rest' => if took then scan_args rest' s else scan_args rest s
          | [] => Ok s
          end
      end
  end.

(** ** The resolved command *)

Record remoteRunSpec := mkRunSpec {
  rs_Command : string;
  rs_Trace : bool;
  rs_JSON : bool;
  rs_Plan : bool;
  rs_NoReuse : bool;
  rs_Secrets : gmap string string;
  rs_Workers : Z;
  rs_Scripts : list ScriptSpec;
  rs_FromArgs : bool;
  rs_Mode : string;
  rs_Preflight : bool;
  rs_Stdin : StdinMode;
  rs_StdinFile : string;
  rs_RetryDial : Z;
  rs_RetryBackoff : Z;
  rs_ConnectTimeout : Z;
  rs_ExecTimeout : Z;
}.

Definition resolveStdinOptions (forward disable : bool) (file : string) (scriptSource : bool) : result StdinMode :=
  if forward && disable then Fail (Errorf "--stdin and --no-stdin cannot be combined")
  else if bool_decide (file ≠ "") && (forward || disable) then
    Fail (Errorf "--stdin-file cannot be combined with --stdin or --no-stdin")
  else if scriptSource && (forward || bool_decide (file ≠ "")) then
    Fail (Errorf "--stdin/--stdin-file cannot be combined with -s, -f, or --scripts: the script body is sent over stdin")
  else if bool_decide (file ≠ "") then
    match rd_is_dir reads file with
    | Fail err => Fail (Wrap ("stdin file " +:+ file +:+ ": " +:+ error_text err) [err])
    | Ok true => Fail (Errorf ("stdin file " +:+ file +:+ " is a directory"))
    | Ok false => Ok StdinForward
    end
  else if forward then Ok StdinForward
  else if disable then Ok StdinDisable
  else Ok StdinDefault.

Definition wrapped {A} (context : string) (r : result A) : result A :=
  match r with Ok a => Ok a | Fail err => Fail (Wrap (context +:+ ": " +:+ error_text err) [err]) end.

(** The loop over the script files. *)
Fixpoint prepare_files (shell interp : string) (args paths : list string) : result (list ScriptSpec) :=
  match paths with
  | [] => Ok []
  | p :: paths' =>
      data ← wrapped ("read script file " +:+ p) (readScriptFile p);
      script ← wrapped ("script file " +:+ p) (PrepareScriptWithInterpreter p data shell interp args);
      scripts ← prepare_files shell interp args paths';
      Ok (script :: scripts)
  end.

(** The command, the scripts, whether the command is from the arguments, the mode. *)
Definition resolved_source := (string * list ScriptSpec * bool * string)%type.

Definition resolve_source (s : runScan) : result resolved_source :=
  if sc_fromStdin s then
    if bool_decide (sc_filePaths s ≠ []) then Fail (Errorf "use only one of -s/--script or -f/--file/--scripts")
    else if bool_decide (sc_parts s ≠ []) && negb (sc_afterDash s) then Fail (Errorf "put script arguments after --")
    else
      data ← wrapped "read stdin script" (read_at_most (MaxScriptBytes + 1) (rd_stdin reads));
      script ← wrapped "stdin script" (PrepareScriptWithInterpreter "<stdin>" data (sc_shell s) (sc_interp s) (sc_parts s));
      Ok ("", [script], false, "script")
  else if bool_decide (sc_parts s ≠ []) then
    if bool_decide (sc_filePaths s ≠ []) then
      if negb (sc_afterDash s) then Fail (Errorf "put script arguments after --")
      else scripts ← prepare_files (sc_shell s) (sc_interp s) (sc_parts s) (sc_filePaths s); Ok ("", scripts, false, "")
    else if bool_decide (sc_shell s ≠ "" ∨ sc_interp s ≠ "") then
      Fail (Errorf "--shell/--interpreter requires -s, -f, or --scripts")
    else if sc_raw s && sc_argvMode s then Fail (Errorf "use only one of --raw or --argv")
    else if sc_argvMode s then Ok (JoinRemoteArgv (sc_parts s), [], true, "argv")
    else
      Ok (JoinRemoteCommand (sc_parts s) (sc_raw s), [], true,
        if sc_raw s || bool_decide (length (sc_parts s) = 1) then "shell_command" else "argv")
  else if bool_decide (sc_filePaths s ≠ []) then
    scripts ← prepare_files (sc_shell s) (sc_interp s) [] (sc_filePaths s); Ok ("", scripts, false, "script")
  else Fail (Errorf "missing remote command (use args, -s/--script, or -f/--file/--scripts)").

(** What follows the loop. *)
Definition resolve_scan (s : runScan) : result remoteRunSpec :=
  let scriptSource := sc_fromStdin s || bool_decide (sc_filePaths s ≠ []) in
  stdinMode ← resolveStdinOptions (sc_stdinFlag s) (sc_noStdin s) (sc_stdinFile s) scriptSource;
  _ ← check (negb (scriptSource && (sc_raw s || sc_argvMode s)))
        (Errorf "--raw/--argv cannot be combined with a script source");
  '(cmd, scripts, fromArgs, mode) ← resolve_source s;
  _ ← check (negb (sc_preflight s && existsb ss_NonShell scripts))
        (Errorf "--preflight only checks shell syntax and is not supported with a non-shell --interpreter; remove --preflight");
  _ ← check (negb (sc_preflight s && bool_decide (scripts = []))) (Errorf "--preflight requires -s, -f, or --scripts");
  Ok (mkRunSpec cmd (sc_trace s) (sc_jsonOut s) (sc_plan s) (sc_noReuse s) (sc_secrets s) (sc_workers s) scripts fromArgs mode
    (sc_preflight s) stdinMode (sc_stdinFile s) (sc_retryDial s) (sc_retryBackoff s) (sc_connectTo s) (sc_execTo s)).

Definition parseRemoteRunArgs (machineJSON : bool) (args : list string) : result remoteRunSpec :=
  s ← scan_args args (initial_scan machineJSON); resolve_scan s.

(** ** Streams ([stream.go]) *)

Record runStreamOptions := mkStreamOptions { so_refresh : Z; so_connectTimeout : Z; so_execTimeout : Z }.
Definition defaultStreamRefresh : Z := 30 * second.

Definition parseStreamRefresh (value : string) : result Z :=
  if bool_decide (value = "0") then Ok 0%Z
  else
    match ParseDuration value with
    | Some d => if bool_decide (d ≤ 0)%Z then Fail (Errorf "--refresh requires a positive duration or 0") else Ok d
    | None => Fail (Errorf "--refresh requires a positive duration or 0")
    end.

Definition without_json (args : list string) : list string := filter (λ arg, arg ≠ "--json") args.

(** The options after [--stream]. *)
Fixpoint stream_options (args : list string) (opts : runStreamOptions) : result runStreamOptions :=
  match args with
  | [] => Ok opts
  | arg :: rest =>
      let refreshed (value : string) := refresh ← parseStreamRefresh value;
        Ok (mkStreamOptions refresh (so_connectTimeout opts) (so_execTimeout opts)) in
      if bool_decide (arg = "--refresh") then
        match rest with
        | [] => Fail (Errorf "--refresh requires a duration or 0")
        | value :: rest' => opts ← refreshed value; stream_options rest' opts
        end
      else if HasPrefix arg "--refresh=" then
        opts ← refreshed (TrimPrefix arg "--refresh="); stream_options rest opts
      else if isDurationFlag arg duration_flags then
        '(flag, d, took) ← consumeDurationFlag arg rest duration_flags;
        let opts :=
          if bool_decide (flag = "--exec-timeout") then mkStreamOptions (so_refresh opts) (so_connectTimeout opts) d
          else mkStreamOptions (so_refresh opts) d (so_execTimeout opts) in
        match rest with
        | _ :: rest' => if (took : bool) then stream_options rest' opts else stream_options rest opts
        | [] => Ok opts
        end
      else if bool_decide (arg = "--stdin" ∨ arg = "--stdin-file") || HasPrefix arg "--stdin-file=" then
        Fail (Errorf (cut_at_equals arg +:+ " is not supported with --stream: stdin carries the argv lines"))
      else Fail (Errorf ("unknown stream option " +:+ Quote arg))
  end.

(** [None]: not the stream form. *)
Definition parseRunStreamArgs (args : list string) : option (result runStreamOptions) :=
  match without_json args with
  | first :: rest =>
      if bool_decide (first = "--stream") then Some (stream_options rest (mkStreamOptions defaultStreamRefresh 0 0)) else None
  | [] => None
  end.

Definition runStreamRequested (args : list string) : bool :=
  match without_json args with first :: _ => bool_decide (first = "--stream") | [] => false end.

Definition splitRunAlias (args : list string) : result (string * list string) :=
  match args with
  | [] => Fail (Errorf "run requires an exact host alias")
  | first :: rest =>
      let '(prefix, args) := if bool_decide (first = "--json") then (["--json"], rest) else ([], args) in
      match args with
      | [] => Fail (Errorf "run requires an exact host alias before run-mode options")
      | alias :: args' =>
          if HasPrefix alias "-" then Fail (Errorf "run requires an exact host alias before run-mode options")
          else Ok (alias, prefix ++ args')
      end
  end.

(** ** Which tokens are the program's ([help.go], [machine.go]) *)

Fixpoint before_dash (args : list string) : list string :=
  match args with
  | [] => []
  | arg :: rest => if bool_decide (arg = "--") then [] else arg :: before_dash rest
  end.

Definition optionRegion (sshctl : bool) (command : string) (rest : list string) : list string :=
  if bool_decide (command = "run" ∨ command = "exec" ∨ command = "plan") then take (runOptionEnd rest) rest
  else if bool_decide (command = "map") then take (mapOptionEnd rest) rest
  else if sshctl && negb (isKnownCommand sshctl command) then take (remoteArgvStart rest) rest
  else before_dash rest.

Definition hasJSONFlag (args : list string) : bool := bool_decide ("--json" ∈ args).
Definition hasJSONFlagBeforeDash (args : list string) : bool := hasJSONFlag (before_dash args).
Definition commandHasJSONFlag (sshctl : bool) (command : string) (rest : list string) : bool :=
  hasJSONFlag (optionRegion sshctl command rest).

(** The command that help is asked for, and what follows it. *)
Definition helpRequest (sshctl : bool) (args : list string) : option (string * list string) :=
  match args with
  | command :: ((next :: rest) as args') =>
      if bool_decide (command = "help") then Some (next, rest)
      else if existsb (λ arg, bool_decide (arg = "-h" ∨ arg = "--help")) (optionRegion sshctl command args')
      then Some (command, args')
      else if bool_decide (next = "help") && isKnownCommand sshctl command then Some (command, rest)
      else None
  | _ => None
  end.

(** ** Global options ([main.go]) *)

(** The text after the last dot, with the dot. *)
Definition Ext (base : string) : string :=
  match LastIndexByte base "." with Some i => drop_string i base | None => "" end.

(** [strings.EqualFold] with an ASCII word: the two letters that fold to one outside of
    ASCII are the long s and the Kelvin sign. *)
Definition EqualFold (s word : string) : bool :=
  bool_decide (string_map lower_char
    (ReplaceAll (ReplaceAll s (string_of_codes [197; 191]%N) "s") (string_of_codes [226; 132; 170]%N) "k") = word).

Definition isSSHCTLInvocation (path : string) : bool :=
  let base := Base (ReplaceAll path (String (char 92) "") "/") in
  let base := if EqualFold (Ext base) ".exe" then TrimSuffix base (Ext base) else base in
  EqualFold base "sshctl".

Record Globals := mkGlobals { g_machineJSON : bool; g_offlineMode : bool; g_masterPassFile : string }.

(** A token after which nothing is a global option. *)
Definition ends_globals (arg : string) : bool :=
  bool_decide (arg ∈ ["--version"; "-v"; "--help"; "-h"; "help"]) || negb (HasPrefix arg "-").

(** The loop of [parseGlobalArgs]. *)
Fixpoint global_args (seenCommand : bool) (args : list string) (g : Globals) : result (Globals * list string) :=
  match args with
  | [] => Ok (g, [])
  | arg :: rest =>
      if negb seenCommand && bool_decide (arg = "--json") then
        global_args seenCommand rest (mkGlobals true (g_offlineMode g) (g_masterPassFile g))
      else if negb seenCommand && bool_decide (arg = "--offline") then
        global_args seenCommand rest (mkGlobals (g_machineJSON g) true (g_masterPassFile g))
      else if negb seenCommand && bool_decide (arg = "--master-pass-file") then
        match rest with
        | [] => Fail (Errorf "--master-pass-file requires a path")
        | path :: rest' => global_args seenCommand rest' (mkGlobals (g_machineJSON g) (g_offlineMode g) path)
        end
      else if negb seenCommand && HasPrefix arg "--master-pass-file=" then
        let path := TrimPrefix arg "--master-pass-file=" in
        if bool_decide (path = "") then Fail (Errorf "--master-pass-file requires a path")
        else global_args seenCommand rest (mkGlobals (g_machineJSON g) (g_offlineMode g) path)
      else
        '(g, out) ← global_args (seenCommand || ends_globals arg) rest g;
        Ok (g, arg :: out)
  end.

(** [env_pass] and [env_offline] are the variables [SSM_MASTER_PASS_FILE] and [SSM_OFFLINE]. *)
Definition parseGlobalArgs (env_pass env_offline : string) (args : list string) (g : Globals) :
    result (Globals * list string) :=
  let pass := if bool_decide (g_masterPassFile g = "") then env_pass else g_masterPassFile g in
  let offline := g_offlineMode g || bool_decide (env_offline = "1") in
  global_args false args (mkGlobals (g_machineJSON g) offline pass).

(** The loop of [startupOutputMode]. *)
Fixpoint startup_args (seenCommand : bool) (args : list string) (jsonMode : bool) : bool * list string :=
  match args with
  | [] => (jsonMode, [])
  | arg :: rest =>
      if negb seenCommand && bool_decide (arg = "--json" ∨ arg = "--offline") then
        startup_args seenCommand rest (jsonMode || bool_decide (arg = "--json"))
      else if negb seenCommand && bool_decide (arg = "--master-pass-file") then
        match rest with
        | [] => (jsonMode, [])
        | _ :: rest' => startup_args seenCommand rest' jsonMode
        end
      else if negb seenCommand && HasPrefix arg "--master-pass-file=" then startup_args seenCommand rest jsonMode
      else
        let '(jsonMode, out) := startup_args (seenCommand || ends_globals arg) rest jsonMode in
        (jsonMode, arg :: out)
  end.

(** The output mode and whether it is that of a stream. *)
Definition startupOutputMode (executable : string) (rawArgs : list string) : bool * bool :=
  let sshctl := isSSHCTLInvocation executable in
  let '(jsonMode, args) := startup_args false rawArgs false in
  match args with
  | [] => (jsonMode, false)
  | command :: rest =>
      let jsonMode := jsonMode || commandHasJSONFlag sshctl command rest in
      let streams (runArgs : list string) :=
        match parseRunStreamArgs runArgs with Some _ => (true, true) | None => (jsonMode, false) end in
      if negb sshctl then (jsonMode, false)
      else if bool_decide (is_Some (helpRequest true args)) then (jsonMode, false)
      else if bool_decide (command = "run" ∨ command = "exec") then
        if runStreamRequested rest then (true, true)
        else
          match splitRunAlias rest with
          | Fail _ => (jsonMode, false)
          | Ok (_, runArgs) => streams runArgs
          end
      else match rest with [] => (jsonMode, false) | _ => streams rest end
  end.

(** The global options in front of the command. *)
Fixpoint skip_globals (args : list string) : list string :=
  match args with
  | [] => []
  | arg :: rest =>
      if bool_decide (arg = "--json" ∨ arg = "--offline") then skip_globals rest
      else if bool_decide (arg = "--master-pass-file") then
        match rest with [] => [] | _ :: rest' => skip_globals rest' end
      else if HasPrefix arg "--master-pass-file=" then skip_globals rest
      else args
  end.

Definition isInformationalInvocationFor (sshctl : bool) (args : list string) : bool :=
  match skip_globals args with
  | [] => false
  | (first :: _) as rest =>
      bool_decide (first ∈ ["--help"; "-h"; "help"; "--version"; "-v"; "update"])
      || bool_decide (is_Some (helpRequest sshctl rest))
  end.

(** ** One run of the program *)

(** What [sshctl run], [exec] and the shorthand do once the global options are read. *)
Inductive runAction :=
  | ShowHelp (command : string) (rest : list string)
  | BadAlias (stream : bool) (err : goerror)
  | RunStream (alias : string) (options : result runStreamOptions)
  | RunOnce (alias : string) (machineJSON : bool) (args : list string)
  | UnknownCommand (word : string).

Definition runSSHCTLRunInvocation (machineJSON : bool) (alias : string) (cmdArgs : list string) : runAction :=
  match parseRunStreamArgs cmdArgs with
  | Some options => RunStream alias options
  | None => RunOnce alias machineJSON cmdArgs
  end.

(** [runSSHCTLParsed] for a command that runs something. *)
Definition dispatch_run (machineJSON : bool) (command : string) (rest : list string) : runAction :=
  match helpRequest true (command :: rest) with
  | Some (command, rest) => ShowHelp command rest
  | None =>
      if bool_decide (command = "run" ∨ command = "exec") then
        let machineJSON := machineJSON || commandHasJSONFlag true command rest in
        match splitRunAlias rest with
        | Fail err => BadAlias (runStreamRequested rest) err
        | Ok (alias, runArgs) => runSSHCTLRunInvocation machineJSON alias runArgs
        end
      else match rest with [] => UnknownCommand command | _ => runSSHCTLRunInvocation machineJSON command rest end
  end.
End CommandLine.
