(* ===== verification/CommandLineFacts.v ===== *)
(** * The options of a remote run: the boundary, well-formedness, durations, the output mode *)

From Stdlib Require Import Ascii.
From stdpp Require Import pretty.
From S2P Require Import Prelude GoStrings GoStringFacts GoErrors GoRegexp ValueStream Redaction MachineContract Config SshDial RemoteCommand RemoteRun Suggest CommandLine.

(** Decide a test on closed strings. *)
Ltac decide_test :=
  match goal with
  | |- context [if ?c then _ else _] =>
      let b := eval vm_compute in c in
      match b with true => idtac | false => idtac end;
      change c with b; cbv iota
  end.

Definition scanned_state (r : scanned) : runScan := match r with Continue _ s | Stop s => s end.

(** Follow a successful step of the scan to the settings it made. *)
Ltac scan_branch Hr :=
  lazymatch type of Hr with
  | Fail _ = _ => discriminate Hr
  | Ok _ = Ok _ => injection Hr as <-; cbn [scanned_state]
  | (if ?c then _ else _) = Ok _ => destruct c; scan_branch Hr
    | take_next ?rest _ _ = _ => destruct rest; cbn [take_next] in Hr; scan_branch Hr
  | match ?x with (_, _) => _ end = Ok _ => destruct x as [[]]; scan_branch Hr
  | _ => let Hx := fresh "Hx" in apply bind_Ok in Hr as (? & Hx & Hr); scan_branch Hr
  end.

(** ** Tokens that look like options *)

Lemma dashed_cons c s : dashed (String "-" (String c s)) = true.
Proof. apply andb_true_intro. split; [apply bool_decide_eq_true_2; eauto|]. by rewrite bool_decide_eq_false_2. Qed.

Lemma HasPrefix_dash p arg : HasPrefix arg (String "-" (String "-" p)) = true → dashed arg = true.
Proof.
  unfold HasPrefix. rewrite bool_decide_eq_true. intros [r Hr]. destruct arg as [|c [|d arg]]; cbn -[Ascii.eqb] in Hr; try done.
  - by destruct (Ascii.eqb "-" c).
  - destruct (Ascii.eqb_spec "-" c) as [<-|]; [apply dashed_cons|done].
Qed.

Lemma isDurationFlag_dashed arg : isDurationFlag arg duration_flags = true → dashed arg = true.
Proof.
  cbn [isDurationFlag existsb duration_flags]. rewrite !orb_true_iff, !bool_decide_eq_true.
  intros [[->|H]|[[->|H]|[[->|H]|?]]]; try (by apply HasPrefix_dash in H); done.
Qed.

Lemma value_option_dashed arg : runOptionTakesValue arg = true → dashed arg = true.
Proof.
  unfold runOptionTakesValue, runValueOptions. rewrite bool_decide_eq_true, !elem_of_cons.
  intros H. repeat (destruct H as [->|H]; [done|]). by apply elem_of_nil in H.
Qed.

(** ** One argument *)

Section Scan.
Context `{!UnicodeCase} (ParseDuration : string → option Z) (reads : Reads).
Notation scan_option := (scan_option ParseDuration reads).
Notation scan_args := (scan_args ParseDuration reads).

(** What an option takes, and that it looks no further. *)
Definition option_shape (arg : string) (rest : list string) (s : runScan) : Prop :=
  if runOptionTakesValue arg then
    match rest with
    | [] => ∃ err, scan_option arg rest s = Fail err
    | next :: _ => scan_option arg rest s = scan_option arg [next] s
                   ∧ ∀ r, scan_option arg rest s = Ok r → ∃ s', r = Continue true s'
    end
  else scan_option arg rest s = scan_option arg [] s ∧ ∀ r, scan_option arg rest s = Ok r → ∃ s', r = Continue false s'.

Lemma take_next_shape rest err f :
  match rest with
  | [] => ∃ e, take_next rest err f = Fail e
  | next :: _ => take_next rest err f = take_next [next] err f ∧ ∀ r, take_next rest err f = Ok r → ∃ s', r = Continue true s'
  end.
Proof.
  destruct rest as [|next rest]; cbn [take_next]; [eauto|]. split; [done|]. intros r. destruct (f next) as [s|e]; cbn; [|done].
  intros [= <-]. eauto.
Qed.

Lemma scan_duration_shape arg rest s :
  isDurationFlag arg duration_flags = true →
  if runOptionTakesValue arg then
    match rest with
    | [] => ∃ err, scan_duration ParseDuration arg rest s = Fail err
    | next :: _ => scan_duration ParseDuration arg rest s = scan_duration ParseDuration arg [next] s
                   ∧ ∀ r, scan_duration ParseDuration arg rest s = Ok r → ∃ s', r = Continue true s'
    end
  else scan_duration ParseDuration arg rest s = scan_duration ParseDuration arg [] s
       ∧ ∀ r, scan_duration ParseDuration arg rest s = Ok r → ∃ s', r = Continue false s'.
Proof.
  intros Hflag. unfold scan_duration. cbn [duration_flags consumeDurationFlag].
  assert (∀ f (v : string) took (k : string * Z * bool → result scanned),
    (∀ f d, ∃ s', k (f, d, took) = Ok (Continue took s')) →
    ∀ r, ((d ← parseCLIDuration ParseDuration f v; Ok (f, d, took)) ≫= k) = Ok r → ∃ s', r = Continue took s') as Htook.
  { intros f v took k Hk r. destruct (parseCLIDuration ParseDuration f v) as [d|e]; cbn; [|done].
    destruct (Hk f d) as [s' ->]. intros [= <-]. eauto. }
  repeat match goal with |- context [bool_decide (arg = ?n)] => destruct (decide (arg = n)) as [->|?];
    [change (runOptionTakesValue n) with true; rewrite bool_decide_eq_true_2 by done; destruct rest;
      [by eexists|split; [done|apply Htook; cbn; eauto]]
    |rewrite bool_decide_eq_false_2 by done] end.
  replace (runOptionTakesValue arg) with false.
  - repeat (case_match; [split; [done|apply Htook; cbn; eauto]|]). done.
  - symmetry. apply not_true_iff_false. intros Htakes. cbn [isDurationFlag existsb duration_flags] in Hflag.
    rewrite !orb_true_iff, !bool_decide_eq_true in Hflag. unfold runOptionTakesValue, runValueOptions in Htakes.
    rewrite bool_decide_eq_true, !elem_of_cons in Htakes.
    repeat (destruct Htakes as [->|Htakes]; [try done; by repeat destruct Hflag as [Hflag|Hflag]|]). by apply elem_of_nil in Htakes.
Qed.

(** A branch of the switch that takes no further argument. *)
Ltac takes_nothing :=
  match goal with
  | Hc : bool_decide _ = true, Htakes : runOptionTakesValue _ = false |- _ =>
      apply bool_decide_eq_true in Hc; repeat destruct Hc as [Hc|Hc]; rewrite Hc in Htakes; first [discriminate Htakes | done]
  | |- _ =>
      split; [reflexivity|]; intros r;
      repeat match goal with
      | |- mbind _ ?x = _ → _ => destruct x; [|discriminate 1]; cbn [mbind result_bind]
      | |- (if ?c then _ else _) = _ → _ => destruct c; [discriminate 1|] || destruct c
      end; first [discriminate 1 | intros [= <-]; eauto]
  end.

Lemma scan_option_shape arg rest s : dashed arg = true → arg ≠ "--" → arg ≠ "--argv" → option_shape arg rest s.
Proof.
  intros Hdashed Hdash Hargv. unfold option_shape.
  destruct (runOptionTakesValue arg) eqn:Htakes.
  - pose proof Htakes as Hin. unfold runOptionTakesValue, runValueOptions in Hin. rewrite bool_decide_eq_true, !elem_of_cons in Hin.
    pose proof (scan_duration_shape arg rest s) as Hduration. rewrite Htakes in Hduration.
    repeat (destruct Hin as [->|Hin]; [unfold CommandLine.scan_option; repeat decide_test;
      (apply take_next_shape || apply Hduration; reflexivity) || (destruct rest; [by eexists|by split])|]).
    by apply elem_of_nil in Hin.
  - unfold CommandLine.scan_option. cbv zeta.
    repeat match goal with
    | |- (if isDurationFlag ?a ?l then _ else _) = _ ∧ _ =>
        let H := fresh in destruct (isDurationFlag a l) eqn:H;
        [pose proof (scan_duration_shape arg rest s H) as Hduration; rewrite Htakes in Hduration; exact Hduration|clear H]
    | |- (if dashed _ then _ else _) = _ ∧ _ => rewrite Hdashed; by split
    | |- (if ?c then _ else _) = _ ∧ _ =>
        let H := fresh "Hc" in destruct c eqn:H; [solve [takes_nothing]|clear H]
    end.
Qed.

Lemma scan_option_word arg rest s :
  dashed arg = false → scan_option arg rest s = Ok (Stop (set_parts (arg :: rest) s)).
Proof.
  intros Hword. unfold CommandLine.scan_option. cbv zeta.
  repeat match goal with
  | |- (if isDurationFlag ?a ?l then _ else _) = _ =>
      let H := fresh in destruct (isDurationFlag a l) eqn:H; [apply isDurationFlag_dashed in H; by rewrite Hword in H|clear H]
  | |- (if dashed _ then _ else _) = _ => by rewrite Hword
  | |- (if ?c then _ else _) = _ =>
      let H := fresh "Hc" in destruct c eqn:H;
      [first [apply HasPrefix_dash in H; by rewrite Hword in H
             |apply bool_decide_eq_true in H; repeat destruct H as [H|H]; rewrite H in Hword; discriminate Hword]
      |clear H]
  end.
Qed.

(** ** The boundary *)

(** What the words of the remote command do: only where they are put. *)
Definition remote_words (words : list string) (s : runScan) : runScan :=
  match words with
  | [] => s
  | first :: rest =>
      if bool_decide (first = "--") then set_afterDash true (set_parts rest s)
      else if bool_decide (first = "--argv") then scan_argv rest s
      else set_parts words s
  end.

Lemma remoteArgvStart_cons arg rest :
  remoteArgvStart (arg :: rest) =
    if bool_decide (arg = "--" ∨ arg = "--argv") then 0
    else if runOptionTakesValue arg then match rest with [] => 1 | _ :: rest' => 2 + remoteArgvStart rest' end
    else if dashed arg then 1 + remoteArgvStart rest else 0.
Proof. done. Qed.

Lemma scan_cons arg rest s :
  scan_args (arg :: rest) s =
    match scan_option arg rest s with
    | Fail err => Fail err
    | Ok (Stop s) => Ok s
    | Ok (Continue took s) => match rest with _ :: rest' => if took then scan_args rest' s else scan_args rest s | [] => Ok s end
    end.
Proof. done. Qed.

Lemma scan_remote_words arg rest s :
  remoteArgvStart (arg :: rest) = 0 → scan_args (arg :: rest) s = Ok (remote_words (arg :: rest) s).
Proof.
  rewrite remoteArgvStart_cons, scan_cons. cbn [remote_words]. intros H0. case_bool_decide as Hdash.
  - destruct Hdash as [->| ->]; [done|]. cbn [bool_decide]. unfold CommandLine.scan_option. by repeat decide_test.
  - rewrite !bool_decide_eq_false_2 by tauto. destruct (runOptionTakesValue arg); [by destruct rest|].
    destruct (dashed arg) eqn:Hd; [done|]. by rewrite scan_option_word.
Qed.

(** C12: The words from the boundary on are not options: scanning a command line is
    scanning the tokens before the boundary, after which the words are kept as the remote
    command. *)
Theorem remote_words_are_not_options args s :
  scan_args args s = (s' ← scan_args (take (remoteArgvStart args) args) s; Ok (remote_words (drop (remoteArgvStart args) args) s')).
Proof.
  revert s. induction args as [args IH] using (induction_ltof1 _ length). intros s. unfold ltof in IH.
  destruct args as [|arg rest]; [done|]. destruct (remoteArgvStart (arg :: rest)) as [|k] eqn:Hk.
  { by rewrite scan_remote_words. }
  rewrite remoteArgvStart_cons in Hk. case_bool_decide as Hdash; [done|].
  assert (dashed arg = true) as Hdashed.
  { destruct (runOptionTakesValue arg) eqn:Htakes; [by apply value_option_dashed|]. by destruct (dashed arg). }
  assert (∀ rest s, option_shape arg rest s) as Hshape by (intros; apply scan_option_shape; tauto).
  rewrite scan_cons. cbn [take drop]. rewrite scan_cons.
  unfold option_shape in Hshape. destruct (runOptionTakesValue arg) in Hk, Hshape.
  - destruct rest as [|next rest].
    { destruct (Hshape [] s) as [err Herr]. by rewrite take_nil, Herr. }
    injection Hk as <-. cbn [take drop].
    destruct (Hshape (next :: rest) s) as [Hl Hr], (Hshape (next :: take (remoteArgvStart rest) rest) s) as [Hl' _].
    rewrite Hl', <- Hl. destruct (scan_option arg (next :: rest) s) as [r|e] eqn:Hr'; [|done].
    destruct (Hr r eq_refl) as [s' ->]. apply IH. cbn. lia.
  - rewrite Hdashed in Hk. injection Hk as <-.
    destruct (Hshape rest s) as [Hl Hr], (Hshape (take (remoteArgvStart rest) rest) s) as [Hl' _].
    rewrite Hl', <- Hl. destruct (scan_option arg rest s) as [r|e] eqn:Hr'; [|done].
    destruct (Hr r eq_refl) as [s' ->]. destruct rest as [|next rest]; [done|].
    rewrite (IH (next :: rest)) by (cbn; lia).
    destruct (take (remoteArgvStart (next :: rest)) (next :: rest)) as [|first others]; done.
Qed.

(** ** What is kept *)

Lemma scan_preserves (P : runScan → Prop) :
  (∀ arg rest s r, P s → scan_option arg rest s = Ok r → P (scanned_state r)) →
  ∀ args s s', P s → scan_args args s = Ok s' → P s'.
Proof.
  intros Hstep args. induction args as [args IH] using (induction_ltof1 _ length). unfold ltof in IH.
  intros s s' Hs. destruct args as [|arg rest]; [by intros [= <-]|]. rewrite scan_cons.
  destruct (scan_option arg rest s) as [r|] eqn:Hr; [|done]. specialize (Hstep _ _ _ _ Hs Hr). destruct r as [took s1|s1].
  - destruct rest as [|next rest]; [by intros [= <-]|]. destruct took; apply IH; cbn; (lia || done).
  - by intros [= <-].
Qed.

Definition secret_ok (name value : string) : Prop :=
  ValidEnvName name = true ∧ (Z.of_nat (String.length value) ≤ maxSecretBytes)%Z ∧ contains_char NUL value = false.

Definition retry_ok (retry backoff : Z) : Prop := (retry = 0 ∧ backoff = 0 ∨ 0 ≤ retry ≤ MaxRetryDial ∧ 0 < backoff)%Z.

Record scan_ok (s : runScan) : Prop := {
  scan_secrets : map_Forall secret_ok (sc_secrets s);
  scan_workers : (sc_workers s = 0 ∨ 1 ≤ sc_workers s ≤ max_int)%Z;
  scan_retry : retry_ok (sc_retryDial s) (sc_retryBackoff s);
}.

Lemma Atoi_bounds s n : Atoi s = Some n → (min_int ≤ n ≤ max_int)%Z.
Proof. unfold Atoi. intros Hn. repeat case_match; simplify_eq; case_bool_decide; by simplify_eq. Qed.

Lemma parse_jobs_ok text err s s' : parse_jobs text err s = Ok s' → ∃ n, s' = set_workers n s ∧ (1 ≤ n ≤ max_int)%Z.
Proof.
  unfold parse_jobs. destruct (Atoi text) as [n|] eqn:Hn; [|done]. apply Atoi_bounds in Hn. case_bool_decide; [done|].
  intros [= <-]. exists n. split; [done|]. unfold min_int in *. lia.
Qed.

Lemma set_retry_ok value s s' :
  set_retry ParseDuration value s = Ok s' → ∃ n d, s' = set_retryBackoff d (set_retryDial n s) ∧ retry_ok n d.
Proof.
  unfold set_retry. destruct (parseRetryDial ParseDuration value) as [[n d]|] eqn:Hp; cbn; [|done]. intros [= <-].
  exists n, d. split; [done|]. right. unfold parseRetryDial in Hp. repeat (case_bool_decide || case_match); simplify_eq; unfold MaxRetryDial, second in *; first [lia | split; [lia | reflexivity]].
Qed.

Lemma parseSecretKV_ok spec into into' :
  map_Forall secret_ok into → parseSecretKV reads spec into = Ok into' → map_Forall secret_ok into'.
Proof.
  intros Hinto. unfold parseSecretKV. destruct (IndexByte spec "=") as [[|eq]|]; [done| |done].
  destruct (ValidEnvName _) eqn:Hname; [|done]. cbn [negb].
  match goal with |- mbind _ ?x = _ → _ => destruct x as [val|]; cbn [mbind result_bind]; [|done] end.
  case_bool_decide; [done|]. destruct (contains_char NUL val) eqn:Hnul; [done|]. intros [= <-].
  apply map_Forall_insert_2; [|done]. split_and!; [done|lia|done].
Qed.

Lemma scan_argv_ok rest s : scan_ok s → scan_ok (scan_argv rest s).
Proof. intros []. unfold scan_argv. destruct rest; [by split|]. case_bool_decide; by split. Qed.

(** A setting that leaves secrets, workers and retries alone. *)
Ltac same_fields := match goal with Hs : scan_ok _ |- scan_ok _ => by (repeat case_match; destruct Hs; split) end.

Ltac scan_step :=
  match goal with
  | |- scan_ok (scan_argv _ _) => by apply scan_argv_ok
  | Hx : parse_jobs _ _ _ = Ok _ |- _ => apply parse_jobs_ok in Hx as (? & -> & ?); match goal with Hs : scan_ok _ |- _ => by destruct Hs; split; [|right|] end
  | Hx : set_retry _ _ _ = Ok _ |- _ => apply set_retry_ok in Hx as (? & ? & -> & ?); match goal with Hs : scan_ok _ |- _ => by destruct Hs; split end
  | Hx : mbind _ _ = Ok _ |- _ => apply bind_Ok in Hx as (? & ? & Hx); injection Hx as <-; scan_step
  | Hx : parseSecretKV _ _ _ = Ok _, Hs : scan_ok _ |- _ => by apply parseSecretKV_ok in Hx; destruct Hs; [split|]
  | Hx : Ok _ = Ok _ |- _ => injection Hx as <-; same_fields
  | Hx : (if ?c then _ else _) = Ok _ |- _ => destruct c; [discriminate Hx|]; scan_step
  | _ => same_fields
  end.

Lemma scan_option_ok arg rest s r : scan_ok s → scan_option arg rest s = Ok r → scan_ok (scanned_state r).
Proof.
  intros Hs Hr. unfold CommandLine.scan_option, scan_duration in Hr. cbv zeta in Hr. scan_branch Hr.
  all: scan_step.
Qed.

Lemma scan_is_ok machineJSON args s : scan_args args (initial_scan machineJSON) = Ok s → scan_ok s.
Proof. apply (scan_preserves scan_ok); [by apply scan_option_ok|]. split; [apply map_Forall_empty|by left|by left]. Qed.

(** ** The resolved command *)

Record spec_ok (spec : remoteRunSpec) : Prop := {
  spec_secrets : map_Forall secret_ok (rs_Secrets spec);
  spec_workers : (rs_Workers spec = 0 ∨ 1 ≤ rs_Workers spec ≤ max_int)%Z;
  spec_retry : retry_ok (rs_RetryDial spec) (rs_RetryBackoff spec);
  (** either a command from the arguments, or scripts whose bodies have the standard input *)
  spec_source :
    if rs_FromArgs spec then rs_Scripts spec = [] ∧ (rs_Mode spec = "argv" ∨ rs_Mode spec = "shell_command")
    else rs_Scripts spec ≠ [] ∧ rs_Command spec = "" ∧ rs_Stdin spec ≠ StdinForward ∧ rs_StdinFile spec = "";
  spec_stdin : rs_StdinFile spec ≠ "" → rs_Stdin spec = StdinForward;
  spec_preflight : rs_Preflight spec = true → rs_Scripts spec ≠ [] ∧ Forall (λ script, ss_NonShell script = false) (rs_Scripts spec);
}.

Lemma prepare_files_length shell interp args paths scripts :
  prepare_files reads shell interp args paths = Ok scripts → length scripts = length paths.
Proof.
  revert scripts. induction paths as [|p paths IH]; intros scripts Hr; cbn [prepare_files] in Hr; [by injection Hr as <-|].
  inv_ok Hr. injection Hr as <-. cbn. f_equal. by apply IH.
Qed.

Lemma resolve_source_ok s cmd scripts fromArgs mode :
  resolve_source reads s = Ok (cmd, scripts, fromArgs, mode) →
  if fromArgs then scripts = [] ∧ (mode = "argv" ∨ mode = "shell_command") ∧ sc_fromStdin s = false ∧ sc_filePaths s = []
  else scripts ≠ [] ∧ cmd = "" ∧ (sc_fromStdin s = true ∨ sc_filePaths s ≠ []).
Proof.
  unfold resolve_source. intros Hr.
  assert (∀ shell interp args scripts, sc_filePaths s ≠ [] →
    prepare_files reads shell interp args (sc_filePaths s) = Ok scripts → scripts ≠ []) as Hfiles.
  { intros shell interp args scripts' Hne Hp%prepare_files_length ->. by destruct (sc_filePaths s). }
  destruct (sc_fromStdin s).
  - destruct (bool_decide _); [done|]. destruct (_ && _); [done|]. inv_ok Hr. injection Hr as <- <- <- <-. naive_solver.
  - case_bool_decide; case_bool_decide; try done.
    + destruct (negb _); [done|]. inv_ok Hr. injection Hr as <- <- <- <-. naive_solver.
    + case_bool_decide; [done|]. destruct (_ && _); [done|]. destruct (sc_argvMode s).
      * injection Hr as <- <- <- <-. split_and!; auto.
      * injection Hr as <- <- <- <-. split_and!; auto. destruct (_ || _); auto.
    + inv_ok Hr. injection Hr as <- <- <- <-. naive_solver.
Qed.

Lemma resolveStdinOptions_ok forward disable file script mode :
  resolveStdinOptions reads forward disable file script = Ok mode →
  (file ≠ "" → mode = StdinForward) ∧ (script = true → mode ≠ StdinForward ∧ file = "").
Proof.
  unfold resolveStdinOptions. case_bool_decide as Hfile; destruct forward, disable, script; cbn; try done;
    try (intros [= <-]; split; [done|]; by try (intros _; split; [|apply dec_stable])).
  all: destruct (rd_is_dir reads file) as [[]|]; try done; intros [= <-]; by split.
Qed.

(** C30: What parses as a remote run is well formed: every secret has a valid name and a
    bounded value without NUL, workers and dial retries are in their ranges, there is
    either a command from the arguments or scripts whose bodies own the standard input, a
    stdin file is forwarded, and a preflight is only for shell scripts. *)
Theorem parsed_run_is_well_formed machineJSON args spec :
  parseRemoteRunArgs ParseDuration reads machineJSON args = Ok spec → spec_ok spec.
Proof.
  unfold parseRemoteRunArgs. intros Hr. apply bind_Ok in Hr as (s & Hs%scan_is_ok & Hr). destruct Hs.
  unfold resolve_scan in Hr. cbv zeta in Hr. apply bind_Ok in Hr as (stdin & Hstdin%resolveStdinOptions_ok & Hr).
  apply bind_Ok in Hr as (u & Hraw & Hr). apply bind_Ok in Hr as ([[[cmd scripts] fromArgs] mode] & Hsource%resolve_source_ok & Hr).
  inv_ok Hr. injection Hr as <-. destruct Hstdin as [Hfile Hscript]. split; cbn; try done.
  - destruct fromArgs; [naive_solver|]. destruct Hsource as (? & ? & Hfrom). split_and!; try done; apply Hscript;
    rewrite orb_true_iff, bool_decide_eq_true; tauto.
  - intros Hp. rewrite Hp in *. bool_to_prop. cbn [andb] in *. split; [by bool_to_prop|].
    apply Forall_forall. intros script Hin. apply not_true_iff_false. intros Hn.
    match goal with He : existsb _ _ = false |- _ => apply not_true_iff_false in He; apply He end.
    apply existsb_exists. exists script. split; [by apply list_elem_of_In|done].
Qed.

(** ** Durations *)

(** A duration option is a positive duration, or a positive number of seconds: exact
    up to 9223372036 seconds, and beyond that reduced modulo 2^64 nanoseconds. *)
Theorem integer_seconds_are_exact_or_wrap flag v d :
  parseCLIDuration ParseDuration flag v = Ok d →
  (ParseDuration (TrimSpace v) = Some d ∧ 0 < d
   ∨ ∃ sec, Atoi (TrimSpace v) = Some sec ∧ 0 < sec ∧ d = wrap_int (sec * second) ∧ (d = sec * second ↔ sec ≤ 9223372036))%Z.
Proof.
  unfold parseCLIDuration. cbv zeta. case_bool_decide; [done|]. destruct (ParseDuration _) as [d'|].
  - case_bool_decide; [done|]. intros [= <-]. left. split; [done|lia].
  - destruct (Atoi _) as [sec|]; [|done]. case_bool_decide; [|done]. intros [= <-]. right. exists sec. split_and!; try done.
    unfold wrap_int, second. split; intros Hd.
    + assert (-2 ^ 63 ≤ sec * 1000000000 < 2 ^ 63)%Z; [|lia]. rewrite <- Hd.
      pose proof (Z.mod_pos_bound (sec * 1000000000 + 2 ^ 63) (2 ^ 64)). lia.
    + rewrite Z.mod_small; lia.
Qed.
End Scan.

(** ** The output mode *)

Section Startup.
Context `{!UnicodeCase} (ParseDuration : string → option Z) (reads : Reads).
Notation scan_option := (scan_option ParseDuration reads).
Notation scan_args := (scan_args ParseDuration reads).

(** The two loops over the global options agree. *)
Lemma startup_args_agree seen args g g' out :
  global_args seen args g = Ok (g', out) →
  ∃ j, (∀ json, startup_args seen args json = (json || j, out)) ∧ g_machineJSON g' = g_machineJSON g || j.
Proof.
  revert seen g g' out. induction args as [args IH] using (induction_ltof1 _ length). unfold ltof in IH.
  intros seen g g' out. destruct args as [|arg rest].
  { intros [= <- <-]. exists false. split; [intros json|]; by rewrite orb_false_r. }
  assert (∀ g, global_args (seen || ends_globals arg) rest g ≫= (λ '(g, out), Ok (g, arg :: out)) = Ok (g', out) →
    ∃ j, (∀ json, (let '(jsonMode, out) := startup_args (seen || ends_globals arg) rest json in (jsonMode, arg :: out))
                  = (json || j, out)) ∧ g_machineJSON g' = g_machineJSON g || j) as Hword.
  { intros g1 Hr. apply bind_Ok in Hr as ([g2 out2] & Hr & [= <- <-]). apply IH in Hr as (j & Hj & Hg); [|cbn; lia].
    exists j. split; [|done]. intros json. by rewrite Hj. }
  cbn [global_args startup_args]. destruct seen; cbn [negb andb]; [apply Hword|].
  destruct (decide (arg = "--json")) as [->|Hjson].
  { rewrite !bool_decide_eq_true_2 by auto. intros Hr. apply IH in Hr as (j & Hj & Hg); [|cbn; lia].
    exists true. split; [|by rewrite Hg, orb_true_r]. intros json. by rewrite Hj, orb_true_r. }
  destruct (decide (arg = "--offline")) as [->|Hoffline].
  { rewrite (bool_decide_eq_false_2 (_ = "--json")), !bool_decide_eq_true_2 by auto. intros Hr.
    apply IH in Hr as (j & Hj & Hg); [|cbn; lia]. exists j. split; [|done]. intros json. by rewrite Hj, orb_false_r. }
  rewrite (bool_decide_eq_false_2 (_ ∨ _)), !bool_decide_eq_false_2 by tauto. case_bool_decide.
  { destruct rest as [|path rest]; [done|]. intros Hr. apply IH in Hr as (j & Hj & Hg); [|cbn; lia]. by exists j. }
  destruct (HasPrefix arg "--master-pass-file="); [|apply Hword].
  case_bool_decide; [done|]. intros Hr. apply IH in Hr as (j & Hj & Hg); [|cbn; lia]. by exists j.
Qed.

(** JSON output is asked for in front of the boundary. *)
Lemma scan_option_json arg rest s r :
  scan_option arg rest s = Ok r → sc_jsonOut (scanned_state r) = sc_jsonOut s || bool_decide (arg = "--json").
Proof.
  destruct (decide (arg = "--json")) as [->|Hjson].
  { unfold CommandLine.scan_option. repeat decide_test. intros [= <-]. cbn. by rewrite orb_true_r. }
  rewrite (bool_decide_eq_false_2 (_ = _)), orb_false_r by done.
  intros Hr. unfold CommandLine.scan_option, scan_duration in Hr. cbv zeta in Hr.
  rewrite (bool_decide_eq_false_2 (_ = "--json")) in Hr by done. cbv iota in Hr. scan_branch Hr.
  all: repeat match goal with
  | |- sc_jsonOut (scan_argv _ _) = _ => unfold scan_argv; repeat case_match; reflexivity
  | Hx : parse_jobs _ _ _ = Ok _ |- _ => apply parse_jobs_ok in Hx as (? & -> & ?)
  | Hx : set_retry _ _ _ = Ok _ |- _ => apply set_retry_ok in Hx as (? & ? & -> & ?)
  | Hx : mbind _ _ = Ok _ |- _ => apply bind_Ok in Hx as (? & ? & Hx)
  | Hx : (if ?c then _ else _) = Ok _ |- _ => destruct c; [discriminate Hx|]
  | Hx : Ok _ = Ok _ |- _ => injection Hx as <-
  end; repeat case_match; reflexivity.
Qed.

Lemma scan_json args s s' :
  scan_args args s = Ok s' →
  (sc_jsonOut s = true → sc_jsonOut s' = true) ∧
  (sc_jsonOut s' = true → sc_jsonOut s = true ∨ "--json" ∈ take (remoteArgvStart args) args).
Proof.
  revert s. induction args as [args IH] using (induction_ltof1 _ length). unfold ltof in IH. intros s.
  destruct args as [|arg rest]; [intros [= <-]; tauto|]. destruct (remoteArgvStart (arg :: rest)) as [|k] eqn:Hk.
  { rewrite scan_remote_words by done. intros Heq. assert (s' = remote_words (arg :: rest) s) as -> by congruence. clear Heq.
    assert (sc_jsonOut (remote_words (arg :: rest) s) = sc_jsonOut s) as ->; [|tauto].
    cbn [remote_words]. case_bool_decide; [done|]. case_bool_decide; [|done]. unfold scan_argv. by repeat case_match. }
  rewrite remoteArgvStart_cons in Hk. rewrite scan_cons.
  destruct (scan_option arg rest s) as [r|] eqn:Hr; [|done]. pose proof (scan_option_json _ _ _ _ Hr) as Hj.
  assert (dashed arg = true ∧ arg ≠ "--" ∧ arg ≠ "--argv") as (Hdashed & Hdash & Hargv).
  { destruct (decide (arg = "--" ∨ arg = "--argv")) as [Hb|]; [by rewrite bool_decide_eq_true_2 in Hk|].
    rewrite bool_decide_eq_false_2 in Hk by done. destruct (runOptionTakesValue arg) eqn:Ht; [apply value_option_dashed in Ht; tauto|].
    destruct (dashed arg); [tauto|done]. }
  pose proof (scan_option_shape ParseDuration reads arg rest s Hdashed Hdash Hargv) as Hshape. unfold option_shape in Hshape.
  rewrite bool_decide_eq_false_2 in Hk by tauto. cbn [take].
  assert (∀ (l : list string) s1 s2, sc_jsonOut s1 = sc_jsonOut s || bool_decide (arg = "--json") →
    (sc_jsonOut s1 = true → sc_jsonOut s2 = true) ∧ (sc_jsonOut s2 = true → sc_jsonOut s1 = true ∨ "--json" ∈ l) →
    (sc_jsonOut s = true → sc_jsonOut s2 = true) ∧ (sc_jsonOut s2 = true → sc_jsonOut s = true ∨ "--json" ∈ arg :: l)) as Hstep.
  { intros l s1 s2 -> [Hup Hdown]. rewrite orb_true_iff, bool_decide_eq_true in Hup, Hdown. rewrite elem_of_cons. naive_solver. }
  destruct (runOptionTakesValue arg).
  - destruct rest as [|next rest]; [destruct Hshape as [err Herr]; by rewrite Herr in Hr|].
    destruct Hshape as [_ Hcontinue]. destruct (Hcontinue r Hr) as [s1 ->]. injection Hk as <-. cbn [take].
    intros Hs. apply IH in Hs as [Hup Hdown]; [|cbn; lia]. apply (Hstep _ s1); [done|]. split; [done|].
    intros Hs'. apply Hdown in Hs' as [?|?]; [by left|]. right. by apply elem_of_cons; right.
  - destruct Hshape as [_ Hcontinue]. destruct (Hcontinue r Hr) as [s1 ->]. rewrite Hdashed in Hk. injection Hk as <-.
    intros Hs. apply (Hstep _ s1); [done|]. destruct rest as [|next rest]; [injection Hs as <-; tauto|].
    apply IH in Hs; [done|cbn; lia].
Qed.

Lemma parsed_run_json machineJSON args spec :
  parseRemoteRunArgs ParseDuration reads machineJSON args = Ok spec →
  (machineJSON = true → rs_JSON spec = true) ∧
  (rs_JSON spec = true → machineJSON = true ∨ "--json" ∈ take (remoteArgvStart args) args).
Proof.
  unfold parseRemoteRunArgs. intros Hr. apply bind_Ok in Hr as (s & Hs%scan_json & Hr).
  unfold resolve_scan in Hr. cbv zeta in Hr. inv_ok Hr. destruct a1 as [[[cmd scripts] fromArgs] mode]. inv_ok Hr. by injection Hr as <-.
Qed.

(** ** The alias in front of the options *)

Lemma without_json_cons arg args :
  without_json (arg :: args) = if bool_decide (arg = "--json") then without_json args else arg :: without_json args.
Proof. unfold without_json. cbn [filter list_filter]. case_bool_decide; by case_decide. Qed.

Lemma splitRunAlias_inv rest alias args :
  splitRunAlias rest = Ok (alias, args) →
  HasPrefix alias "-" = false ∧
  (rest = alias :: args ∨ ∃ args', args = "--json" :: args' ∧ rest = "--json" :: alias :: args').
Proof.
  destruct rest as [|first rest]; [done|]. cbn [splitRunAlias]. case_bool_decide as Hfirst.
  - subst. destruct rest as [|a rest]; [done|]. destruct (HasPrefix a "-") eqn:Ha; [done|]. intros [= -> <-]. eauto.
  - destruct (HasPrefix first "-") eqn:Ha; [done|]. intros [= -> <-]. eauto.
Qed.

Lemma alias_is_no_stream rest alias args : splitRunAlias rest = Ok (alias, args) → runStreamRequested rest = false.
Proof.
  intros [Halias Hrest]%splitRunAlias_inv. assert (alias ≠ "--json" ∧ alias ≠ "--stream") as [? ?] by (split; by intros ->).
  assert (∀ l, without_json (alias :: l) = alias :: without_json l) as Hkeep.
  { intros l. rewrite without_json_cons. by rewrite bool_decide_eq_false_2. }
  unfold runStreamRequested. destruct Hrest as [->|(args' & -> & ->)].
  - rewrite Hkeep. by apply bool_decide_eq_false_2.
  - rewrite without_json_cons, bool_decide_eq_true_2, Hkeep by done. by apply bool_decide_eq_false_2.
Qed.

Lemma alias_region rest alias args :
  splitRunAlias rest = Ok (alias, args) → "--json" ∈ take (remoteArgvStart args) args → "--json" ∈ take (runOptionEnd rest) rest.
Proof.
  intros [Halias Hrest]%splitRunAlias_inv. assert (alias ≠ "--json") as Hne by by intros ->.
  destruct Hrest as [->|(args' & -> & ->)].
  - unfold runOptionEnd. rewrite bool_decide_eq_false_2 by done. cbn [lookup list_lookup]. rewrite Halias. cbn [negb drop Nat.add take].
    intros Hin. apply elem_of_cons. by right.
  - intros _. unfold runOptionEnd. rewrite bool_decide_eq_true_2 by done. cbn [lookup list_lookup]. rewrite Halias. cbn [negb Nat.add take].
    apply elem_of_cons. by left.
Qed.

Lemma hasJSONFlag_false args : hasJSONFlag args = false → "--json" ∉ args.
Proof. apply bool_decide_eq_false_1. Qed.

(** The mode of a run that is no stream is that of its parsed options. *)
Lemma run_once_json json args (region : list string) spec :
  parseRemoteRunArgs ParseDuration reads json args = Ok spec →
  ("--json" ∈ take (remoteArgvStart args) args → "--json" ∈ region) → json || hasJSONFlag region = json → rs_JSON spec = json.
Proof.
  intros [Hup Hdown]%parsed_run_json Hregion Hjson. destruct json; [auto|]. cbn in Hjson. apply hasJSONFlag_false in Hjson.
  apply not_true_iff_false. intros [?|Hin]%Hdown; [done|]. by apply Hjson, Hregion.
Qed.

(** C29: The output mode chosen before the command line is parsed is the one the command
    then has: the run is a stream exactly if stream output was chosen, and otherwise its
    JSON option has the chosen value, whatever the words of the remote command are. *)
Theorem startup_mode_is_final executable env_pass env_offline pass rawArgs json stream g command rest :
  isSSHCTLInvocation executable = true →
  startupOutputMode ParseDuration executable rawArgs = (json, stream) →
  parseGlobalArgs env_pass env_offline rawArgs (mkGlobals json false pass) = Ok (g, command :: rest) →
  command = "run" ∨ command = "exec" ∨ isKnownCommand true command = false →
  match dispatch_run ParseDuration (g_machineJSON g) command rest with
  | RunStream _ _ | BadAlias true _ => json = true ∧ stream = true
  | RunOnce _ machineJSON args =>
      machineJSON = json ∧ stream = false ∧
      ∀ spec, parseRemoteRunArgs ParseDuration reads machineJSON args = Ok spec → rs_JSON spec = json
  | BadAlias false _ | ShowHelp _ _ | UnknownCommand _ => g_machineJSON g = json ∧ stream = false
  end.
Proof.
  intros Hexe Hstart Hglobal Hcommand. unfold parseGlobalArgs in Hglobal.
  apply startup_args_agree in Hglobal as (j & Hj & Hg). cbn [g_machineJSON] in Hg.
  unfold startupOutputMode in Hstart. rewrite Hexe, Hj in Hstart. cbn [orb negb] in Hstart. cbv zeta iota in Hstart.
  unfold commandHasJSONFlag in Hstart. set (region := optionRegion true command rest) in *.
  assert (∀ b s : bool, (j || hasJSONFlag region, b) = (json, s) ∨ (true, b) = (json, s) →
    g_machineJSON g = json ∧ json || hasJSONFlag region = json ∧ s = b) as Hmode.
  { intros b s Hb. rewrite Hg. destruct Hb as [[= <- <-]|[= <- <-]]; by destruct j, (hasJSONFlag region). }
  unfold dispatch_run, runSSHCTLRunInvocation, commandHasJSONFlag. fold region.
  destruct (helpRequest true (command :: rest)) as [[c r]|]; [rewrite bool_decide_eq_true_2 in Hstart by eauto; by destruct (Hmode _ _ (or_introl Hstart)) as (? & _ & ->)|].
  rewrite (bool_decide_eq_false_2 (is_Some None)) in Hstart by (by intros [? ?]).
  destruct (decide (command = "run" ∨ command = "exec")) as [Hrun|Hrun].
  - rewrite bool_decide_eq_true_2 in * by done. destruct (splitRunAlias rest) as [[alias args]|err] eqn:Halias.
    + rewrite (alias_is_no_stream _ _ _ Halias) in Hstart. destruct (parseRunStreamArgs ParseDuration args); [by injection Hstart as <- <-|].
      destruct (Hmode false stream) as (-> & Hj' & ->); [by left|]. rewrite Hj'. split_and!; try done.
      intros spec Hspec. apply (run_once_json _ _ region _ Hspec); [|done]. intros Hin%(alias_region _ _ _ Halias).
      subst region. unfold optionRegion. rewrite bool_decide_eq_true_2 by tauto. done.
    + destruct (runStreamRequested rest); [by injection Hstart as <- <-|].
      by destruct (Hmode _ _ (or_introl Hstart)) as (? & _ & ->).
  - destruct Hcommand as [?|[?|Hunknown]]; [tauto|tauto|]. rewrite bool_decide_eq_false_2 in Hstart by done.
    rewrite bool_decide_eq_false_2 by done. destruct rest as [|arg rest]; [by destruct (Hmode _ _ (or_introl Hstart)) as (? & _ & ->)|].
    destruct (parseRunStreamArgs ParseDuration (arg :: rest)); [by injection Hstart as <- <-|].
    destruct (Hmode false stream) as (-> & Hj' & ->); [by left|]. split_and!; try done.
    intros spec Hspec. apply (run_once_json _ _ region _ Hspec); [|done]. subst region. unfold optionRegion.
    assert (¬ (command = "run" ∨ command = "exec" ∨ command = "plan") ∧ command ≠ "map") as [? ?].
    { split; [intros [->|[->| ->]]|intros ->]; vm_compute in Hunknown; done. }
    rewrite !bool_decide_eq_false_2 by tauto. by rewrite Hunknown.
Qed.
End Startup.

(** ** Concrete command lines *)

#[local] Existing Instance ascii_case.
Definition ex_duration (s : string) : option Z := if bool_decide (s = "10s") then Some (10 * second)%Z else None.
Definition ex_reads : Reads := mkReads (λ _, Ok ("echo hi" +:+ LF, None)) (λ _, Ok false) ("", None).
Definition ex_globals (json : bool) : Globals := mkGlobals json false "".

Lemma parsed_run_is_well_formed_witness :
  ∃ spec, parseRemoteRunArgs ex_duration ex_reads false ["-e"; "TOKEN=abc"; "--retry-dial=2"; "-f"; "a.sh"; "--preflight"; "--"; "-h"] = Ok spec ∧
    ss_Args <$> rs_Scripts spec = [["-h"]] ∧ spec_ok spec.
Proof.
  eexists. split; [vm_compute; reflexivity|]. split; [reflexivity|].
  apply (parsed_run_is_well_formed ex_duration ex_reads false
    ["-e"; "TOKEN=abc"; "--retry-dial=2"; "-f"; "a.sh"; "--preflight"; "--"; "-h"]). vm_compute. reflexivity.
Defined.

(** The command runs at most 30 seconds. *)
Lemma integer_seconds_are_exact_or_wrap_witness :
  parseCLIDuration ex_duration "--exec-timeout" "30" = Ok (30 * second)%Z ∧
  ∃ sec, Atoi "30" = Some sec ∧ (30 * second)%Z = wrap_int (sec * second).
Proof.
  split; [vm_compute; reflexivity|].
  destruct (integer_seconds_are_exact_or_wrap ex_duration "--exec-timeout" "30" (30 * second)%Z ltac:(vm_compute; reflexivity))
    as [[Hd _]|(sec & Hsec & _ & Hd & _)]; [discriminate Hd|]. exists sec. split; [exact Hsec|exact Hd].
Defined.

(** 18446744074 seconds, over 584 years, wrap to less than a third of a second, and half
    of them to a negative timeout, which is none. *)
Example long_timeout_wraps :
  parseCLIDuration ex_duration "--exec-timeout" "18446744074" = Ok 290448384%Z ∧
  parseCLIDuration ex_duration "--exec-timeout" "9223372037" = Ok (-9223372036709551616)%Z.
Proof. vm_compute. done. Qed.

Lemma startup_mode_is_final_witness :
  let raw := ["--offline"; "run"; "web"; "--json"; "--argv"; "tool"; "--stream"] in
  startupOutputMode ex_duration "/usr/local/bin/sshctl" raw = (true, false) ∧
  parseGlobalArgs "" "" raw (ex_globals true) = Ok (mkGlobals true true "", tail raw) ∧
  ∃ args, dispatch_run ex_duration true "run" (drop 2 raw) = RunOnce "web" true args ∧
    ∀ spec, parseRemoteRunArgs ex_duration ex_reads true args = Ok spec → rs_JSON spec = true.
Proof.
  intros raw. split; [vm_compute; reflexivity|]. split; [vm_compute; reflexivity|]. eexists. split; [vm_compute; reflexivity|].
  pose proof (startup_mode_is_final ex_duration ex_reads "/usr/local/bin/sshctl" "" "" "" raw true false (mkGlobals true true "")
    "run" (drop 2 raw) ltac:(vm_compute; reflexivity) ltac:(vm_compute; reflexivity) ltac:(vm_compute; reflexivity)
    ltac:(by left)) as H.
  vm_compute dispatch_run in H. exact (proj2 (proj2 H)).
Defined.
