(* ===== verification/FanOut.v ===== *)
(** * One host or many ([ssh/map.go], [cmd/ssm/connections.go])

    What a parsed run does on one host, its expansion to jobs for hosts and scripts, and
    the bounded parallel run of jobs as a step relation over the goroutines. *)

From stdpp Require Import relations.
From S2P Require Import Prelude GoStrings GoErrors GoRegexp Config JumpChain Redaction FailurePolicy MachineContract SyncProtocol RemoteCommand KnownHosts SshDial SshDialFacts RemoteRun RemoteRunFacts Suggest CommandLine.

(** ** Jobs *)

Record MapJob := mkJob {
  mj_RequestedAlias : string;
  mj_ScriptLabel : string;
  mj_Command : string;
  mj_Input : string;
  mj_RiskCommand : string;
  mj_Interpreter : string;
  mj_NonShell : bool;
  mj_Secrets : gmap string string;
  mj_Mode : string;
  mj_Preflight : bool;
  mj_RetryDial : Z;
  mj_RetryBackoff : Z;
  mj_ExecTimeout : Z;
}.

Definition script_job (alias : string) (script : ScriptSpec) (secrets : gmap string string) (preflight : bool) : MapJob :=
  mkJob alias (ss_Label script) (BuildScriptRunner script) (ss_Body script) (ss_Body script) (ss_Interpreter script)
    (ss_NonShell script) secrets "script" preflight 0 0 0.

Definition command_job (alias command : string) (secrets : gmap string string) (mode : string) : MapJob :=
  mkJob alias "" command "" "" "" false secrets mode false 0 0 0.

Definition ExpandMapJobs (aliases : list string) (command : string) (scripts : list ScriptSpec)
    (secrets : gmap string string) (mode : string) (preflight : bool) : list MapJob :=
  if bool_decide (scripts = []) then (λ a, command_job a command secrets mode) <$> aliases
  else a ← aliases; s ← scripts; [script_job a s secrets preflight].

(** The fields [runMap] sets on each job. *)
Definition with_timeout (timeout : Z) (j : MapJob) : MapJob :=
  mkJob (mj_RequestedAlias j) (mj_ScriptLabel j) (mj_Command j) (mj_Input j) (mj_RiskCommand j) (mj_Interpreter j)
    (mj_NonShell j) (mj_Secrets j) (mj_Mode j) (mj_Preflight j) (mj_RetryDial j) (mj_RetryBackoff j) timeout.
Definition with_retry (retry backoff : Z) (j : MapJob) : MapJob :=
  mkJob (mj_RequestedAlias j) (mj_ScriptLabel j) (mj_Command j) (mj_Input j) (mj_RiskCommand j) (mj_Interpreter j)
    (mj_NonShell j) (mj_Secrets j) (mj_Mode j) (mj_Preflight j) retry backoff (mj_ExecTimeout j).

(** The jobs [runMap] starts for a parsed run. *)
Definition map_jobs (aliases : list string) (spec : remoteRunSpec) : list MapJob :=
  (λ j, with_retry (rs_RetryDial spec) (rs_RetryBackoff spec) (with_timeout (rs_ExecTimeout spec) j)) <$>
  ExpandMapJobs aliases (rs_Command spec) (rs_Scripts spec) (rs_Secrets spec) (rs_Mode spec) (rs_Preflight spec).

Definition firstNonEmptyString (a b : string) : string := if bool_decide (a = "") then b else a.

Definition DefaultMapWorkers : Z := 8.
Definition map_workers (spec : remoteRunSpec) : Z := if (rs_Workers spec <=? 0)%Z then DefaultMapWorkers else rs_Workers spec.

(** The size of the semaphore of [Map]. *)
Definition clamp_workers (workers : Z) : Z :=
  (let workers := if workers <? 1 then 8 else workers in
   if 64 <? workers then 64 else workers)%Z.

Definition MapExitCode (results : list RunResult) : Z :=
  AggregateResultExit ((λ r, mkResult (rr_OK r) (rr_Exit r)) <$> results).

Section FanOut.
Context `{K : SshKeys} `{!KnownHostsPackage} `{!UnicodeCase} `{!Sha256}.
Context (RedactString : string → string) (windows : bool).
Context (net : Network) (ParsePrivateKey : string → option sshError) (knownHosts : option string) (probe : option PublicKey).
Context (reuseEnabled : bool) (rounds : nat) (redirects : Redirects).
Notation Run := (Run RedactString windows net ParsePrivateKey knownHosts probe reuseEnabled rounds redirects).
Notation RunScriptPreflight :=
  (RunScriptPreflight RedactString windows net ParsePrivateKey knownHosts probe reuseEnabled rounds redirects).

(** ** One job *)

Definition digestIfNotEmpty (value : string) : string := if bool_decide (value = "") then "" else ScriptDigest value.

Definition alias_details (message alias : string) : Details :=
  mkDetails message None alias "" [] "" 0 "" "" "" "" "" "" "" "".

Definition job_remote_command (job : MapJob) : string :=
  if bool_decide (mj_Input job ≠ "") then BuildScriptRemoteCommand (mj_Command job) (mj_Secrets job)
  else BuildRemoteCommand (mj_Command job) (mj_Secrets job).

(** The fields of a result that come from the job; [order] is that of its secrets. *)
Definition job_head (job : MapJob) (resolved user host : string) (port : Z) (mode transport : string) (order : list string) : RunHead :=
  mkRunHead (mj_RequestedAlias job) resolved user host port (RedactSecrets (job_remote_command job) order)
    (AssessRisk (firstNonEmptyString (mj_RiskCommand job) (mj_Command job))) (mj_ScriptLabel job) (mj_Interpreter job)
    (Z.of_nat (String.length (mj_Input job))) (digestIfNotEmpty (mj_Input job)) mode transport [].

Definition job_options (job : MapJob) (resolved : string) (noReuse : bool) : RunOptions :=
  mkRunOptions (mj_Command job) (mj_Input job) (mj_RiskCommand job) (mj_Secrets job) true false noReuse (mj_ExecTimeout job)
    (mj_Interpreter job) (mj_ScriptLabel job) (mj_Mode job) StdinInternal "" (mj_RetryDial job) (mj_RetryBackoff job)
    (mj_RequestedAlias job) resolved.

Definition with_label (label : string) (r : RunResult) : RunResult :=
  let h := rr_Head r in
  mkRunResult
    (mkRunHead (rh_Alias h) (rh_ResolvedAlias h) (rh_User h) (rh_Host h) (rh_Port h) (rh_RemoteCommand h) (rh_Risk h) label
       (rh_Interpreter h) (rh_InputBytes h) (rh_ScriptSHA256 h) (rh_Mode h) (rh_Transport h) (rh_sensitiveValues h))
    (rr_OK r) (rr_Exit r) (rr_Stdout r) (rr_Stderr r) (rr_TimedOut r) (rr_LatencyMS r) (rr_Metadata r) (rr_Plan r)
    (rr_Preflight r) (rr_StdinForwarded r) (rr_Warning r) (rr_DialAttempts r) (rr_failure r).

(** [wp] is what the preflight meets, [w] what the run meets. A world answers every call,
    so this is a job that ends; one whose remote command never does, which is possible
    without a time limit, stays [Holding] below and keeps its slot. *)
Definition runMapJob (v : Vault) (job : MapJob) (noReuse : bool) (wp w : RunWorld) : R RunResult :=
  match ResolveAlias redirects v (mj_RequestedAlias job) with
  | (None, resolved) =>
      mret (applyRunFailure
        (Classify RedactString MapAliasNotFound (alias_details "requested alias was not found" (mj_RequestedAlias job)))
        (new_result (job_head job resolved "" "" 0 "" "" (rw_secret_order w))))
  | (Some c, resolved) =>
      let checked := bool_decide (mj_Input job ≠ "") && mj_Preflight job in
      let run :=
        res ← Run c v (job_options job resolved noReuse) w;
        mret (with_label (mj_ScriptLabel job) (if checked then with_preflight "passed" res else res)) in
      if checked then
        let script := mkScriptSpec (mj_ScriptLabel job) (mj_Input job) (mj_Interpreter job) [] (mj_NonShell job) "" in
        preflight ← RunScriptPreflight c v script noReuse (mj_RequestedAlias job) resolved wp;
        if negb (rr_OK preflight) then mret preflight else run
      else run
  end.

(** ** One host ([executeRunSpec]) *)

(** The failure of a name that no connection has. *)
Definition run_not_found (name : string) : RunResult :=
  let failure := Classify RedactString RunAliasNotFound
    (alias_details ("connection " +:+ Quote name +:+ " not found") name) in
  mkRunResult (mkRunHead name "" "" "" 0 "" "" "" "" 0 "" "" "" []) false (ProcessExit failure) "" "" false 0
    (Failure_ResultMetadata failure) false "" None "" 0 zero_failure.

Definition spec_options (name resolved : string) (spec : remoteRunSpec) : RunOptions :=
  let opts command input risk interpreter label :=
    mkRunOptions command input risk (rs_Secrets spec) (rs_JSON spec || rs_Plan spec) (rs_Plan spec) (rs_NoReuse spec)
      (rs_ExecTimeout spec) interpreter label (rs_Mode spec) (rs_Stdin spec) (rs_StdinFile spec) (rs_RetryDial spec)
      (rs_RetryBackoff spec) name resolved in
  match rs_Scripts spec with
  | [script] => opts (BuildScriptRunner script) (ss_Body script) (ss_Body script) (ss_Interpreter script) (ss_Label script)
  | _ => opts (rs_Command spec) "" "" "" ""
  end.

Definition executeRunSpec (v : Vault) (name : string) (spec : remoteRunSpec) (wp w : RunWorld) : R RunResult :=
  match ResolveAlias redirects v name with
  | (None, _) => mret (run_not_found name)
  | (Some c, resolved) =>
      let opts := spec_options name resolved spec in
      match rs_Scripts spec with
      | [script] =>
          let run :=
            res ← Run c v opts w;
            mret (if rs_Preflight spec then with_preflight (if rs_Plan spec then "pending" else "passed") res else res) in
          if rs_Preflight spec && negb (rs_Plan spec) then
            preflight ← RunScriptPreflight c v script (rs_NoReuse spec) name resolved wp;
            if negb (rr_OK preflight) then mret preflight else run
          else run
      | _ => Run c v opts w
      end
  end.

(** ** The plan of a map ([runMap]) *)

Definition planned_job (v : Vault) (order : list string) (j : MapJob) : RunResult :=
  let transport := if bool_decide (mj_Input j ≠ "") then "ssh_stdin" else "ssh_exec" in
  let pending := if bool_decide (mj_Input j ≠ "") && mj_Preflight j then "pending" else "" in
  match ResolveAlias redirects v (mj_RequestedAlias j) with
  | (Some c, resolved) =>
      with_preflight pending (run_succeeded true
        (new_result (job_head j resolved (c_User c) (c_Host c) (port_of c) (mj_Mode j) transport order)))
  | (None, resolved) =>
      let failure := Classify RedactString MapAliasNotFound (alias_details "requested alias was not found" (mj_RequestedAlias j)) in
      mkRunResult (job_head j resolved "" "" 0 (mj_Mode j) transport order) false 0 "" "" false 0
        (mkResultMetadata (f_Error failure) "" "" "" "" "" "") true pending None "" 0 zero_failure
  end.

(** ** The goroutines of [Map] *)

(** A job's goroutine: not started, waiting for the semaphore, holding it, holding it
    with the result written, having released it, and counted as done. *)
Inductive slot :=
  | Unspawned
  | Waiting
  | Holding
  | Finished (r : RunResult)
  | Released (r : RunResult)
  | Done (r : RunResult).

Definition holds_slot (s : slot) : bool := match s with Holding | Finished _ => true | _ => false end.
Definition held (l : list slot) : nat := length (filter (λ s, holds_slot s = true) l).

(** What a job may give, whatever it meets and whatever other jobs left in the pool. *)
Definition job_outcome (v : Vault) (noReuse : bool) (job : MapJob) (r : RunResult) : Prop :=
  ∃ wp w s, (runMapJob v job noReuse wp w s).1 = r.

(** The state is that of the goroutines; [workers] is the size of the semaphore. *)
Inductive map_step (v : Vault) (noReuse : bool) (workers : nat) (jobs : list MapJob) : list slot → list slot → Prop :=
  | step_spawn l i :
      l !! i = Some Unspawned → (∀ j, j < i → l !! j ≠ Some Unspawned) →
      map_step v noReuse workers jobs l (<[i := Waiting]> l)
  | step_acquire l i :
      l !! i = Some Waiting → held l < workers → map_step v noReuse workers jobs l (<[i := Holding]> l)
  | step_finish l i job r :
      l !! i = Some Holding → jobs !! i = Some job → job_outcome v noReuse job r →
      map_step v noReuse workers jobs l (<[i := Finished r]> l)
  | step_release l i r :
      l !! i = Some (Finished r) → map_step v noReuse workers jobs l (<[i := Released r]> l)
  | step_done l i r :
      l !! i = Some (Released r) → map_step v noReuse workers jobs l (<[i := Done r]> l).

Definition map_start (jobs : list MapJob) : list slot := const Unspawned <$> jobs.

(** ** Invariants *)

(** The steps a goroutine has left, and what it has written. *)
Definition steps_left (s : slot) : nat :=
  match s with Unspawned => 5 | Waiting => 4 | Holding => 3 | Finished _ => 2 | Released _ => 1 | Done _ => 0 end.
Fixpoint remaining (l : list slot) : nat := match l with [] => 0 | s :: l' => steps_left s + remaining l' end.
Definition slot_result (s : slot) : option RunResult := match s with Finished r | Released r | Done r => Some r | _ => None end.

Definition slot_ok (v : Vault) (noReuse : bool) (job : MapJob) (s : slot) : Prop :=
  ∀ r, slot_result s = Some r → job_outcome v noReuse job r.

Lemma left_insert l i s s' : l !! i = Some s → remaining (<[i := s']> l) + steps_left s = remaining l + steps_left s'.
Proof.
  revert i. induction l as [|x l IH]; intros [|i] Hi; [done|done| |].
  - injection Hi as ->. cbn. lia.
  - specialize (IH i Hi). change (<[S i:=s']> (x :: l)) with (x :: <[i:=s']> l). cbn [remaining]. lia.
Qed.

Lemma held_insert l i s s' :
  l !! i = Some s →
  held (<[i := s']> l) + (if holds_slot s then 1 else 0) = held l + (if holds_slot s' then 1 else 0).
Proof.
  unfold held. revert i. induction l as [|x l IH]; intros [|i] Hi; [done|done| |].
  - injection Hi as ->. cbn [insert list_insert]. rewrite !filter_cons.
    repeat case_decide; destruct (holds_slot s), (holds_slot s'); cbn [length]; done || lia.
  - specialize (IH i Hi). change (<[S i:=s']> (x :: l)) with (x :: <[i:=s']> l). rewrite !filter_cons.
    destruct (decide (holds_slot x = true)); cbn [length]; lia.
Qed.

Section Map.
Context (v : Vault) (noReuse : bool) (workers : nat) (jobs : list MapJob).
Notation step := (map_step v noReuse workers jobs).

Lemma step_left l l' : step l l' → S (remaining l') = remaining l.
Proof. intros Hs. destruct Hs as [l i Hi|l i Hi|l i job r Hi|l i r Hi|l i r Hi];
  match goal with |- S (remaining (<[_ := ?s']> _)) = _ => pose proof (left_insert _ _ _ s' Hi) end; cbn in *; lia. Qed.

Lemma step_held l l' : held l ≤ workers → step l l' → held l' ≤ workers.
Proof. intros Hl Hs. destruct Hs as [l i Hi|l i Hi|l i job r Hi|l i r Hi|l i r Hi];
  match goal with |- held (<[_ := ?s']> _) ≤ _ => pose proof (held_insert _ _ _ s' Hi) end; cbn in *; lia. Qed.

Lemma step_slots l l' : Forall2 (slot_ok v noReuse) jobs l → step l l' → Forall2 (slot_ok v noReuse) jobs l'.
Proof.
  intros Hl Hs. assert (∀ i s s', l !! i = Some s →
    (∀ job, jobs !! i = Some job → slot_ok v noReuse job s → slot_ok v noReuse job s') →
    Forall2 (slot_ok v noReuse) jobs (<[i := s']> l)) as Hset.
  { intros i s s' Hi Hok. destruct (Forall2_lookup_r _ _ _ _ _ Hl Hi) as (job & Hjob & Hs').
    rewrite <- (list_insert_id jobs i job Hjob). apply Forall2_insert; auto. }
  destruct Hs as [l i Hi|l i Hi|l i job r Hi Hjob Hr|l i r Hi|l i r Hi]; (eapply Hset; [exact Hi|]); try done.
  intros job' Hjob' _ r' [= <-]. by simplify_eq.
Qed.

(** Some world, for the totality of a job. *)
Definition quiet_world : RunWorld :=
  mkRunWorld false false "" None None false None None "" "" (mkHumanOutput None (const None) (const "") (inr false)) None false 0
    (const 0%Z) (const "") [].

Lemma outcome_exists job : ∃ r, job_outcome v noReuse job r.
Proof. eexists _, quiet_world, quiet_world, (mkRunning 0 None []). reflexivity. Qed.

Lemma progress l :
  1 ≤ workers → Forall2 (slot_ok v noReuse) jobs l →
  (∃ l', step l l') ∨ ∃ results, l = Done <$> results ∧ Forall2 (job_outcome v noReuse) jobs results.
Proof.
  intros Hworkers Hl.
  assert (∀ i s, l !! i = Some s → holds_slot s = true → ∃ l', step l l') as Hholds.
  { intros i s Hi Hs. destruct s as [| | |r| |]; try done.
    - destruct (Forall2_lookup_r _ _ _ _ _ Hl Hi) as (job & Hjob & _). destruct (outcome_exists job) as [r Hr].
      eexists. by eapply step_finish.
    - eexists. by eapply step_release. }
  assert (∀ i, l !! i = Some Waiting → ∃ l', step l l') as Hwaiting.
  { intros i Hi. destruct (filter (λ s, holds_slot s = true) l) as [|s rest] eqn:Hfilter.
    - eexists. apply (step_acquire v noReuse workers jobs l i Hi). unfold held. rewrite Hfilter. cbn. lia.
    - assert (s ∈ filter (λ s, holds_slot s = true) l) as [Hs [k Hk]%list_elem_of_lookup_1]%list_elem_of_filter
        by (rewrite Hfilter; by left). by eapply Hholds. }
  assert (∀ i r, l !! i = Some (Released r) → ∃ l', step l l') as Hreleased by (intros i r Hi; eexists; by eapply step_done).
  assert (∀ k, (∃ l', step l l') ∨ (∀ i, i < k → ∀ s, l !! i = Some s → ∃ r, s = Done r)) as Hall.
  { induction k as [|k [IH|IH]]; [right; lia|by left|]. destruct (l !! k) as [s|] eqn:Hk.
    - assert ((∃ l', step l l') ∨ ∃ r, s = Done r) as [Hs|Hs]; [|by left|].
      { destruct s as [| | |r|r|r]; eauto. left. eexists. apply (step_spawn v noReuse workers jobs l k Hk).
        intros j Hj Hbad. by destruct (IH j Hj _ Hbad). }
      right. intros i Hi s' Hi'. destruct (decide (i = k)) as [->|]; [naive_solver|]. apply (IH i); [lia|done].
    - right. intros i Hi s' Hi'. apply (IH i); [|done]. destruct (decide (i = k)) as [->|]; [congruence|lia]. }
  destruct (Hall (length l)) as [|Hdone]; [by left|]. right. clear - Hl Hdone.
  revert Hdone. induction Hl as [|job s jobs' l' Hs _ IH]; intros Hdone; [by exists []|].
  destruct IH as (results & -> & Hres).
  { intros i Hi. apply (Hdone (S i)). cbn. lia. }
  destruct (Hdone 0 ltac:(cbn; lia) s eq_refl) as [r ->]. exists (r :: results). split; [done|]. constructor; [by apply Hs|done].
Qed.

Lemma start_ok : Forall2 (slot_ok v noReuse) jobs (map_start jobs) ∧ held (map_start jobs) = 0
  ∧ remaining (map_start jobs) = 5 * length jobs.
Proof.
  unfold map_start. induction jobs as [|job js (IH1 & IH2 & IH3)]; [done|]. cbn [fmap list_fmap]. split_and!.
  - constructor; [|done]. by intros r.
  - unfold held in *. rewrite filter_cons. by case_decide.
  - cbn [remaining length const steps_left]. change (const Unspawned <$> js) with (map_start js) in *. unfold map_start in *. lia.
Qed.

Lemma steps_preserve n l l' :
  nsteps step n l l' → Forall2 (slot_ok v noReuse) jobs l → held l ≤ workers →
  Forall2 (slot_ok v noReuse) jobs l' ∧ held l' ≤ workers ∧ n + remaining l' = remaining l.
Proof.
  induction 1 as [l|n l l1 l2 Hstep _ IH]; intros Hslots Hheld; [done|].
  destruct IH as (? & ? & Hn); [by eapply step_slots|by eapply step_held|]. pose proof (step_left _ _ Hstep).
  split_and!; [done|done|lia].
Qed.
End Map.

Lemma clamp_workers_bounds workers : (1 ≤ clamp_workers workers ≤ 64)%Z.
Proof. unfold clamp_workers. cbv zeta. destruct (workers <? 1)%Z eqn:Hlow; destruct (64 <? _)%Z eqn:Hhigh; bool_to_prop; lia. Qed.

(** C24: A parallel run holds at most the allowed number of sessions at a time, from 1 to
    64 whatever was asked for; in any order of the goroutines it never deadlocks and takes
    at most five steps a job, of which running the job's remote work is one, so that it
    ends when that work does (a command without a time limit may not); and at its end it
    has, in the order of the jobs, an outcome of each of them. *)
Theorem map_runs_every_job v noReuse workers jobs n l :
  let limit := Z.to_nat (clamp_workers workers) in
  nsteps (map_step v noReuse limit jobs) n (map_start jobs) l →
  1 ≤ limit ≤ 64 ∧ held l ≤ limit ∧ n ≤ 5 * length jobs ∧
  ((∃ l', map_step v noReuse limit jobs l l')
   ∨ ∃ results, l = Done <$> results ∧ Forall2 (job_outcome v noReuse) jobs results).
Proof.
  intros limit Hsteps. pose proof (clamp_workers_bounds workers) as Hbounds. destruct (start_ok v noReuse jobs) as (Hs & Hh & Hr).
  destruct (steps_preserve _ _ _ _ _ _ _ Hsteps Hs ltac:(lia)) as (Hslots & Hheld & Hn).
  split_and!; [subst limit; lia|subst limit; lia|done|lia|]. apply progress; [subst limit; lia|done].
Qed.

(** ** One script on one host *)

Lemma dial_loop_options left attempt c v o1 o2 w s :
  ro_NoReuse o1 = ro_NoReuse o2 → ro_RetryBackoff o1 = ro_RetryBackoff o2 →
  dial_loop RedactString windows net ParsePrivateKey knownHosts probe reuseEnabled rounds redirects left attempt c v o1 w s =
  dial_loop RedactString windows net ParsePrivateKey knownHosts probe reuseEnabled rounds redirects left attempt c v o2 w s.
Proof.
  intros Hreuse Hbackoff. revert attempt s. induction left as [|left IH]; intros attempt s; cbn [dial_loop];
    rewrite Hreuse; [done|]. unfold mbind, R_bind. destruct (acquire _ _ _ _ _ _ _ _ _ _ _ _ s) as [[|stage err] s']; [done|].
  destruct (_ || _); [done|]. rewrite Hbackoff. destruct (note _ s') as [[] s'']. apply IH.
Qed.

(** With a script the mode and the standard input of the options do not matter. *)
Definition as_job (o : RunOptions) : RunOptions :=
  mkRunOptions (ro_Command o) (ro_Input o) (ro_RiskCommand o) (ro_Secrets o) (ro_Capture o) (ro_PlanOnly o) (ro_NoReuse o)
    (ro_ExecTimeout o) (ro_Interpreter o) (ro_ScriptLabel o) "script" StdinInternal "" (ro_RetryDial o) (ro_RetryBackoff o)
    (ro_RequestedAlias o) (ro_ResolvedAlias o).

Lemma Run_script c v o w s : ro_Input o ≠ "" → Run c v o w s = Run c v (as_job o) w s.
Proof.
  intros Hinput.
  assert (full_command (as_job o) = full_command o) as Hfull.
  { unfold full_command. cbn. by rewrite (bool_decide_eq_false_2 (ro_Input o = "")). }
  assert (run_head c (as_job o) w = run_head c o w) as Hhead.
  { unfold run_head. rewrite Hfull. cbn. by rewrite !(bool_decide_eq_false_2 (ro_Input o = "")). }
  assert (decideRunStdin (as_job o) w = no_stdin ∧ decideRunStdin o w = no_stdin) as [Hj Ho].
  { unfold decideRunStdin. cbn. by rewrite (bool_decide_eq_false_2 (ro_Input o = "")). }
  unfold RemoteRun.Run. rewrite Hhead, Hj, Ho. cbn [ro_PlanOnly as_job]. destruct (ro_PlanOnly o); [done|].
  rewrite (bool_decide_eq_false_2 (sd_Source no_stdin = stdinFromFile)) by done. cbv iota. unfold mbind, R_bind. cbv beta.
  change (retries_of (as_job o)) with (retries_of o). rewrite (dial_loop_options _ _ c v (as_job o) o w s eq_refl eq_refl).
  destruct (dial_loop _ _ _ _ _ _ _ _ _ _ _ _ _ _ _ s) as [[attempt a] s']. destruct a as [|stage err]; [|reflexivity].
  unfold run_session. rewrite Hfull. cbn [ro_Input as_job]. rewrite (bool_decide_eq_false_2 (ro_Input o = "")) by done. reflexivity.
Qed.

(** A result keeps the label of its options. *)
Lemma with_label_same label r : rh_ScriptLabel (rr_Head r) = label → with_label label r = r.
Proof. intros <-. by destruct r as [[]]. Qed.

(** The fields of a result that come from the options stay. *)
Ltac keeps := repeat (apply gives_any; intros _); by apply gives_ret.

Lemma gives_head (m : R RunResult) (h h' : RunHead) :
  gives m (λ r, rr_Head r = h) → h = h' → gives m (λ r, rr_Head r = h').
Proof. by intros Hm <-. Qed.

Lemma ended_badly_head c o w err res : gives (run_ended_badly RedactString windows c o w err res) (λ r, rr_Head r = rr_Head res).
Proof. unfold run_ended_badly. cbv zeta. repeat case_match; keeps. Qed.

Lemma ended_head c o w res : gives (run_ended RedactString windows c o w res) (λ r, rr_Head r = rr_Head res).
Proof.
  unfold run_ended. cbv zeta. destruct (ro_Capture o); repeat (case_match; try keeps).
  all: eapply gives_head; [apply ended_badly_head|done].
Qed.

Lemma session_head c o w stdin res : gives (run_session RedactString windows c o w stdin res) (λ r, rr_Head r = rr_Head res).
Proof.
  unfold run_session. cbv beta zeta. repeat (case_match; try keeps). all: apply gives_any; intros _; eapply gives_head; [apply ended_head|done].
Qed.

Lemma run_keeps_head c v o w : gives (Run c v o w) (λ r, rr_Head r = run_head c o w).
Proof.
  unfold RemoteRun.Run. cbv zeta. destruct (ro_PlanOnly o); [keeps|].
  destruct (if bool_decide _ then rw_open w else None); [keeps|].
  apply gives_any. intros [n a]. destruct ((0 <? retries_of o) || (1 <? n)); (destruct a as [client|stage e]; [|keeps]).
  all: eapply gives_head; [apply session_head|reflexivity].
Qed.

Lemma Run_label c v o w s : with_label (ro_ScriptLabel o) (Run c v o w s).1 = (Run c v o w s).1.
Proof. apply with_label_same. pose proof (run_keeps_head c v o w s) as Hhead. cbv beta in Hhead. rewrite Hhead. reflexivity. Qed.

(** Running one script on one host with captured output is the one job of a map over
    that host: the same preflight, session, command line, result and status. *)
Theorem one_script_runs_like_a_map v name c resolved spec script wp w s :
  ResolveAlias redirects v name = (Some c, resolved) →
  rs_Scripts spec = [script] → ss_Body script ≠ "" → rs_JSON spec = true → rs_Plan spec = false →
  ∃ job, map_jobs [name] spec = [job] ∧ executeRunSpec v name spec wp w s = runMapJob v job (rs_NoReuse spec) wp w s.
Proof.
  intros Halias Hscript Hbody Hjson Hplan. eexists. split.
  { unfold map_jobs, ExpandMapJobs. rewrite Hscript. rewrite bool_decide_eq_false_2 by done. reflexivity. }
  unfold executeRunSpec, runMapJob, with_retry, with_timeout, script_job.
  cbn [mj_RequestedAlias mj_ScriptLabel mj_Command mj_Input mj_RiskCommand mj_Interpreter mj_NonShell mj_Secrets mj_Mode
    mj_Preflight mj_RetryDial mj_RetryBackoff mj_ExecTimeout].
  rewrite Halias, Hscript, Hplan, (bool_decide_eq_true_2 (ss_Body script ≠ "")) by done. cbn [negb andb]. rewrite andb_true_r.
  set (o1 := spec_options name resolved spec).
  set (o2 := job_options _ resolved (rs_NoReuse spec)).
  assert (as_job o1 = o2 ∧ ro_Input o1 ≠ "") as [Ho Hinput].
  { subst o1 o2. unfold spec_options. rewrite Hscript, Hjson, Hplan. by split. }
  assert (∀ s, (res ← Run c v o1 w; mret (if rs_Preflight spec then with_preflight "passed" res else res)) s =
    (res ← Run c v o2 w;
     mret (with_label (ss_Label script) (if rs_Preflight spec then with_preflight "passed" res else res))) s) as Hrun.
  { intros s1. unfold mbind, R_bind. rewrite (Run_script c v o1 w s1 Hinput), Ho.
    pose proof (Run_label c v o2 w s1) as Hlabel. destruct (Run c v o2 w s1) as [res s2]. cbn [fst] in Hlabel.
    unfold mret, R_ret. f_equal. destruct (rs_Preflight spec); [|done].
    change (ro_ScriptLabel o2) with (ss_Label script) in Hlabel. rewrite <- Hlabel at 1. reflexivity. }
  destruct (rs_Preflight spec); [|apply Hrun].
  change (RunScriptPreflight c v (mkScriptSpec (ss_Label script) (ss_Body script) (ss_Interpreter script) [] (ss_NonShell script) ""))
    with (RunScriptPreflight c v script).
  unfold mbind at 1 3, R_bind at 1 3. destruct (RunScriptPreflight c v script _ _ _ _ s) as [preflight s'].
  destruct (negb (rr_OK preflight)); [done|apply Hrun].
Qed.
End FanOut.
