(* ===== verification/RemoteShell.v ===== *)
(** * The shell scripts a transfer sends

    The commands of the scripts in [ssh/filecopy.go] and [ssh/resume.go], as data: the
    text that is sent, and what a POSIX shell on the remote host does with it. The
    remote host may kill the shell, send it a signal its trap sees, or let any command
    fail, at any step. Paths are compared as texts, and no other process touches the
    files of the transfer. *)

From stdpp Require Import pretty.
From Stdlib Require Import Ascii Strings.Byte.
From S2P Require Import Prelude GoStrings GoErrors SyncProtocol RemoteCommand GoStringFacts.

(** ** Files and processes *)

Inductive node := RFile (content : bytes) (mode : Z) | RDir.
#[export] Instance node_eq_dec : EqDecision node.
Proof. solve_decision. Defined.

Abbreviation RemoteFS := (gmap string node).

(** How a shell ended. *)
Inductive ending := Exited (status : Z) | Killed.

(** Before a command: the shell is killed, a signal arrives that the trap sees, or the
    command fails with a status; [fl_partial] bytes are what a failing [cat] copies; and
    what expanding a text that was not meant to be expanded does to the files and the
    variables, and whether it fails. *)
Record fault := mkFault {
  fl_kill : bool; fl_signal : bool; fl_status : option Z; fl_partial : nat;
  fl_expansion : gmap string node → gmap string string → gmap string node * gmap string string * bool;
}.

Record Shell := mkShell {
  sh_fs : RemoteFS;
  sh_vars : gmap string string;
  sh_stdin : bytes;
  sh_stdout : string;
  sh_umask : Z;
  (** the variable that names the file the trap removes *)
  sh_trap : option string;
  sh_status : Z;
  sh_end : option ending;
  sh_step : nat;
}.

Definition with_fs (fs : RemoteFS) (s : Shell) : Shell :=
  mkShell fs (sh_vars s) (sh_stdin s) (sh_stdout s) (sh_umask s) (sh_trap s) (sh_status s) (sh_end s) (sh_step s).
Definition with_var (v x : string) (s : Shell) : Shell :=
  mkShell (sh_fs s) (<[v:=x]> (sh_vars s)) (sh_stdin s) (sh_stdout s) (sh_umask s) (sh_trap s) (sh_status s) (sh_end s) (sh_step s).
Definition with_vars (vs : gmap string string) (s : Shell) : Shell :=
  mkShell (sh_fs s) vs (sh_stdin s) (sh_stdout s) (sh_umask s) (sh_trap s) (sh_status s) (sh_end s) (sh_step s).
Definition no_more_stdin (s : Shell) : Shell :=
  mkShell (sh_fs s) (sh_vars s) [] (sh_stdout s) (sh_umask s) (sh_trap s) (sh_status s) (sh_end s) (sh_step s).
Definition print_line (l : string) (s : Shell) : Shell :=
  mkShell (sh_fs s) (sh_vars s) (sh_stdin s) (sh_stdout s +:+ l +:+ LF) (sh_umask s) (sh_trap s) (sh_status s) (sh_end s) (sh_step s).
Definition with_umask (m : Z) (s : Shell) : Shell :=
  mkShell (sh_fs s) (sh_vars s) (sh_stdin s) (sh_stdout s) m (sh_trap s) (sh_status s) (sh_end s) (sh_step s).
Definition with_trap (t : option string) (s : Shell) : Shell :=
  mkShell (sh_fs s) (sh_vars s) (sh_stdin s) (sh_stdout s) (sh_umask s) t (sh_status s) (sh_end s) (sh_step s).
Definition with_status (z : Z) (s : Shell) : Shell :=
  mkShell (sh_fs s) (sh_vars s) (sh_stdin s) (sh_stdout s) (sh_umask s) (sh_trap s) z (sh_end s) (sh_step s).
Definition with_end (e : option ending) (s : Shell) : Shell :=
  mkShell (sh_fs s) (sh_vars s) (sh_stdin s) (sh_stdout s) (sh_umask s) (sh_trap s) (sh_status s) e (sh_step s).
Definition next_step (s : Shell) : Shell :=
  mkShell (sh_fs s) (sh_vars s) (sh_stdin s) (sh_stdout s) (sh_umask s) (sh_trap s) (sh_status s) (sh_end s) (S (sh_step s)).

(** ** Commands *)

(** An argument: a variable in double quotes, a quoted word, or a plain word. *)
Inductive arg := Var (v : string) | Quoted (s : string) | Plain (s : string).

Inductive simple :=
  | Umask (mode : Z)
  (** the definitions of [ssm_sha256_tool] and [ssm_sha256] *)
  | Functions
  | ToolProbe
  | Echo (text : arg)
  (** [echo "remote destination ... is a directory" >&2] *)
  | EchoDirectory (path : string)
  (** [mkdir -p -- dir] and [mkdir -p dir] *)
  | Mkdir (dashes : bool) (dir : string)
  (** [v='path'.suffix.$$] *)
  | AssignTemp (v path suffix : string)
  | Assign (v text : string)
  (** [v=$(wc -c < file | tr -d ' ')] and [v=$(ssm_sha256 file)] *)
  | AssignSize (v : string) (file : arg)
  | AssignDigest (v : string) (file : arg)
  (** [trap 'rm -f -- "$v"' EXIT HUP INT TERM] and [trap - EXIT HUP INT TERM] *)
  | TrapRemove (v : string)
  | TrapReset
  (** [cat > file] and [cat >> file] *)
  | CatInto (file : arg)
  | CatAppend (file : arg)
  | Chmod (mode : Z) (file : arg)
  (** [[ a = b ]], [[ a -le n ]] and the file tests *)
  | TestEq (a b : arg)
  | TestLe (a : arg) (n : Z)
  | TestDir (file : arg)
  | TestFile (file : arg)
  | TestExists (file : arg)
  | RemoveFile (file : arg)
  | Move (src dst : arg)
  (** [printf 'TAG %s %s\n' a b] *)
  | PrintTwo (tag : string) (a b : arg)
  (** [set -- $(cat -- file)] *)
  | SetWords (file : arg)
  (** [: > file], [printf 'v1 %s %s\n' n 'digest' > file] *)
  | Truncate (file : arg)
  | WriteMeta (size : Z) (digest : string) (file : arg)
  (** [find dir -maxdepth 1 -type f -name pattern -mtime +7 -delete 2>/dev/null] *)
  | FindDelete (dir pattern : string)
  | TrueCommand
  | Exit (n : Z)
  (** [exit $?] *)
  | ExitStatus.

Inductive sh :=
  | Do (c : simple)
  | Seq (a b : sh)
  | And (a b : sh)
  | Or (a b : sh)
  | Group (a : sh)
  | Sub (a : sh)
  | If (c t e : sh).

Fixpoint seq_all (l : list sh) : sh :=
  match l with [] => Do TrueCommand | [a] => a | a :: l' => Seq a (seq_all l') end.

(** ** Texts *)

Definition octal_digit (z : Z) : string := pretty (Z.modulo z 8).
(** [%03o] of permission bits. *)
Definition octal (mode : Z) : string := octal_digit (mode / 64) +:+ octal_digit (mode / 8) +:+ octal_digit mode.

Definition in_dquotes (s : string) : string := dquote +:+ s +:+ dquote.

Definition arg_text (a : arg) : string :=
  match a with Var v => in_dquotes ("$" +:+ v) | Quoted s => ShellQuote s | Plain s => s end.

(** A name that stays itself when its quoted form is put in double quotes: without a
    quote, which would end one of the quotations, and without an expansion or escape. *)
Definition plain_in_dquotes (p : string) : bool := negb (ContainsAny p ("$`\" +:+ dquote +:+ "'")).

(** The command that puts a name in double quotes, for a name that is not plain: the shell
    expands it first. A name with a quote, or with an expansion that does not end, also
    changes how the rest of the script is read ([TransferExamples.name_in_double_quotes]),
    which is not modelled: the commands are the ones of the text for every other name. *)
Definition expands (c : simple) : bool :=
  match c with EchoDirectory p => negb (plain_in_dquotes p) | _ => false end.

Definition sha256_functions : string :=
  "ssm_sha256_tool() { if command -v sha256sum >/dev/null 2>&1; then echo sha256sum; "
  +:+ "elif command -v shasum >/dev/null 2>&1; then echo shasum; "
  +:+ "elif command -v openssl >/dev/null 2>&1; then echo openssl; else return 1; fi; }; "
  +:+ "ssm_sha256() { case " +:+ in_dquotes "$(ssm_sha256_tool)" +:+ " in "
  +:+ "sha256sum) sha256sum < " +:+ in_dquotes "$1" +:+ " | awk '{print $1}';; "
  +:+ "shasum) shasum -a 256 < " +:+ in_dquotes "$1" +:+ " | awk '{print $1}';; "
  +:+ "openssl) openssl dgst -sha256 < " +:+ in_dquotes "$1" +:+ " | awk '{print $NF}';; "
  +:+ "*) return 127;; esac; }".

Definition simple_text (c : simple) : string :=
  match c with
  | Umask m => "umask " +:+ octal m
  | Functions => sha256_functions
  | ToolProbe => "ssm_sha256_tool >/dev/null"
  | Echo a => "echo " +:+ arg_text a
  | EchoDirectory p => "echo " +:+ in_dquotes ("remote destination " +:+ ShellQuote p +:+ " is a directory") +:+ " >&2"
  | Mkdir dashes d => (if dashes then "mkdir -p -- " else "mkdir -p ") +:+ ShellQuote d
  | AssignTemp v p suffix => v +:+ "=" +:+ ShellQuote p +:+ suffix +:+ ".$$"
  | Assign v t => v +:+ "=" +:+ t
  | AssignSize v f => v +:+ "=$(wc -c < " +:+ arg_text f +:+ " | tr -d ' ')"
  | AssignDigest v f => v +:+ "=$(ssm_sha256 " +:+ arg_text f +:+ ")"
  | TrapRemove v => "trap 'rm -f -- " +:+ arg_text (Var v) +:+ "' EXIT HUP INT TERM"
  | TrapReset => "trap - EXIT HUP INT TERM"
  | CatInto f => "cat > " +:+ arg_text f
  | CatAppend f => "cat >> " +:+ arg_text f
  | Chmod m f => "chmod 0" +:+ octal m +:+ " " +:+ arg_text f
  | TestEq a b => "[ " +:+ arg_text a +:+ " = " +:+ arg_text b +:+ " ]"
  | TestLe a n => "[ " +:+ arg_text a +:+ " -le " +:+ pretty n +:+ " ]"
  | TestDir f => "[ -d " +:+ arg_text f +:+ " ]"
  | TestFile f => "[ -f " +:+ arg_text f +:+ " ]"
  | TestExists f => "[ -e " +:+ arg_text f +:+ " ]"
  | RemoveFile f => "rm -f -- " +:+ arg_text f
  | Move a b => "mv -f -- " +:+ arg_text a +:+ " " +:+ arg_text b
  | PrintTwo tag a b => "printf '" +:+ tag +:+ " %s %s\n' " +:+ arg_text a +:+ " " +:+ arg_text b
  | SetWords f => "set -- $(cat -- " +:+ arg_text f +:+ ")"
  | Truncate f => ": > " +:+ arg_text f
  | WriteMeta n d f => "printf 'v1 %s %s\n' " +:+ pretty n +:+ " " +:+ ShellQuote d +:+ " > " +:+ arg_text f
  | FindDelete d p =>
      "find " +:+ ShellQuote d +:+ " -maxdepth 1 -type f -name " +:+ ShellQuote p +:+ " -mtime +7 -delete 2>/dev/null"
  | TrueCommand => "true"
  | Exit n => "exit " +:+ pretty n
  | ExitStatus => "exit $?"
  end.

Fixpoint sh_text (c : sh) : string :=
  match c with
  | Do c => simple_text c
  | Seq a b => sh_text a +:+ "; " +:+ sh_text b
  | And a b => sh_text a +:+ " && " +:+ sh_text b
  | Or a b => sh_text a +:+ " || " +:+ sh_text b
  | Group a => "{ " +:+ sh_text a +:+ "; }"
  | Sub a => "(" +:+ sh_text a +:+ ")"
  | If c t e => "if " +:+ sh_text c +:+ "; then " +:+ sh_text t +:+ "; else " +:+ sh_text e +:+ "; fi"
  end.

(** ** What the shell does *)

Section Exec.
Context `{!Sha256}.
(** The process number, whether a SHA-256 tool exists, which files are older than a
    week, and what happens before each command. *)
Context (pid : string) (sha_tool : bool) (stale : string → bool) (faults : nat → fault).

Definition arg_value (s : Shell) (a : arg) : string :=
  match a with Var v => default "" (sh_vars s !! v) | Quoted x => x | Plain x => x end.

Definition digest_of (content : bytes) : string := hex_encode (sha256 content).

(** The directories a path is in, and itself, from the outermost. *)
Definition path_prefixes (dir : string) : list string :=
  filter (λ p, p ≠ "") (imap (λ i _, Join (take (S i) (Split "/" dir)) "/") (Split "/" dir)).

Definition is_file (fs : RemoteFS) (p : string) : bool := match fs !! p with Some (RFile _ _) => true | _ => false end.
Definition is_directory (fs : RemoteFS) (p : string) : bool := bool_decide (fs !! p = Some RDir).

Definition make_all (dirs : list string) (fs : RemoteFS) : option RemoteFS :=
  if existsb (is_file fs) dirs then None else Some (foldr (λ p fs, <[p := RDir]> fs) fs dirs).
Definition make_dirs (dir : string) (fs : RemoteFS) : option RemoteFS := make_all (path_prefixes dir) fs.

(** A redirection to a file: it keeps the mode of a file that is there. *)
Definition write_file (s : Shell) (p : string) (data : bytes) : option RemoteFS :=
  if bool_decide (p = "") then None
  else match sh_fs s !! p with
       | Some RDir => None
       | Some (RFile _ m) => Some (<[p := RFile data m]> (sh_fs s))
       | None => Some (<[p := RFile data (Z.land 438 (Z.lnot (sh_umask s)))]> (sh_fs s))
       end.
Definition append_file (s : Shell) (p : string) (data : bytes) : option RemoteFS :=
  write_file s p (match sh_fs s !! p with Some (RFile c _) => c | _ => [] end ++ data).

(** [mv]: into a directory, or in place of a file. *)
Definition move (fs : RemoteFS) (src dst : string) : option RemoteFS :=
  match fs !! src with
  | Some n =>
      let dst := if is_directory fs dst then dst +:+ "/" +:+ Base src else dst in
      if bool_decide (dst = src) || is_directory fs dst then None else Some (<[dst := n]> (delete src fs))
  | None => None
  end.

Definition remove (fs : RemoteFS) (p : string) : option RemoteFS :=
  if is_directory fs p then None else if bool_decide (p = "") then Some fs else Some (delete p fs).

Definition matches_pattern (dir pattern p : string) : bool :=
  let d := if bool_decide (dir = ".") then "" else dir +:+ "/" in
  HasPrefix p (d +:+ TrimSuffix pattern "*").

Definition of_bool (b : bool) : Z := if b then 0 else 1.
Definition succeed (fs : option RemoteFS) (s : Shell) : Shell :=
  match fs with Some fs => with_status 0 (with_fs fs s) | None => with_status 1 s end.

(** Words split at blanks and line breaks. *)
Definition shell_words (content : bytes) : list string := Fields (string_of_bytes content).

Definition meta_line (size : Z) (digest : string) : string := "v1 " +:+ pretty size +:+ " " +:+ digest +:+ LF.

Fixpoint set_words (i : nat) (ws : list string) (vs : gmap string string) : gmap string string :=
  match ws with [] => vs | w :: ws' => set_words (S i) ws' (<[pretty (N.of_nat i) := w]> vs) end.

Definition run_simple (c : simple) (s : Shell) : Shell :=
  let v := arg_value s in
  match c with
  | Umask m => with_status 0 (with_umask m s)
  | Functions | TrueCommand => with_status 0 s
  | ToolProbe => with_status (of_bool sha_tool) s
  | Echo a => with_status 0 (print_line (v a) s)
  | EchoDirectory _ => with_status 0 s
  | Mkdir _ d => succeed (make_dirs d (sh_fs s)) s
  | AssignTemp x p suffix => with_status 0 (with_var x (p +:+ suffix +:+ "." +:+ pid) s)
  | Assign x t => with_status 0 (with_var x t s)
  | AssignSize x f =>
      with_status 0 (with_var x (match sh_fs s !! v f with
                                 | Some (RFile d _) => pretty (Z.of_nat (length d)) | _ => "" end) s)
  | AssignDigest x f =>
      if sha_tool then
        with_status 0 (with_var x (match sh_fs s !! v f with Some (RFile d _) => digest_of d | _ => "" end) s)
      else with_status 127 s
  | TrapRemove x => with_status 0 (with_trap (Some x) s)
  | TrapReset => with_status 0 (with_trap None s)
  | CatInto f => succeed (write_file s (v f) (sh_stdin s)) (no_more_stdin s)
  | CatAppend f => succeed (append_file s (v f) (sh_stdin s)) (no_more_stdin s)
  | Chmod m f =>
      match sh_fs s !! v f with
      | Some (RFile d _) => with_status 0 (with_fs (<[v f := RFile d m]> (sh_fs s)) s)
      | Some RDir => with_status 0 s
      | None => with_status 1 s
      end
  | TestEq a b => with_status (of_bool (bool_decide (v a = v b))) s
  | TestLe a n =>
      with_status (match Atoi (v a) with Some z => of_bool (z <=? n)%Z | None => 2 end) s
  | TestDir f => with_status (of_bool (is_directory (sh_fs s) (v f))) s
  | TestFile f => with_status (of_bool (is_file (sh_fs s) (v f))) s
  | TestExists f => with_status (of_bool (bool_decide (is_Some (sh_fs s !! v f)))) s
  | RemoveFile f => succeed (remove (sh_fs s) (v f)) s
  | Move a b => succeed (move (sh_fs s) (v a) (v b)) s
  | PrintTwo tag a b => with_status 0 (print_line (tag +:+ " " +:+ v a +:+ " " +:+ v b) s)
  | SetWords f =>
      match sh_fs s !! v f with
      | Some (RFile d _) =>
          let ws := shell_words d in
          with_status 0 (with_vars (set_words 1 ws (<["#" := pretty (N.of_nat (length ws))]> (sh_vars s))) s)
      | _ => with_status 0 (with_vars (<["#" := "0"]> (sh_vars s)) s)
      end
  | Truncate f => succeed (write_file s (v f) []) s
  | WriteMeta n d f => succeed (write_file s (v f) (bytes_of_string (meta_line n d))) s
  | FindDelete dir pattern =>
      with_status 0 (with_fs (filter (λ kn, ¬ (matches_pattern dir pattern kn.1 = true ∧ stale kn.1 = true)) (sh_fs s)) s)
  | Exit n => with_end (Some (Exited n)) s
  | ExitStatus => with_end (Some (Exited (sh_status s))) s
  end.

(** The commands that the shell evaluates itself, without writing anything, do not fail. *)
Definition cannot_fail (c : simple) : bool :=
  match c with
  | Umask _ | Functions | AssignTemp _ _ _ | Assign _ _ | TrapRemove _ | TrapReset | TestEq _ _ | TestLe _ _ | TestDir _
  | TestFile _ | TestExists _ | TrueCommand | Exit _ | ExitStatus => true
  | _ => false
  end.

(** What a command leaves when it fails: [cat] may have copied some bytes and [mkdir -p]
    made some directories. The status of a pipeline is its last command's, so one whose
    first command fails may assign nothing and succeed. *)
Definition fail_simple (c : simple) (status : Z) (partial : nat) (s : Shell) : Shell :=
  let status := if bool_decide (status = 0%Z) then 1%Z else status in
  let v := arg_value s in
  match c with
  | CatInto f => with_status status (with_fs (default (sh_fs s) (write_file s (v f) (take partial (sh_stdin s)))) (no_more_stdin s))
  | CatAppend f => with_status status (with_fs (default (sh_fs s) (append_file s (v f) (take partial (sh_stdin s)))) (no_more_stdin s))
  | Mkdir _ d =>
      with_status status (with_fs (default (sh_fs s) (make_all (take partial (path_prefixes d)) (sh_fs s))) s)
  | AssignSize x _ | AssignDigest x _ =>
      if partial =? 0 then with_status status s else with_status 0 (with_var x "" s)
  | _ => with_status status s
  end.

(** The action of the trap; without one a signal ends the shell. *)
Definition run_trap (s : Shell) : Shell :=
  match sh_trap s with
  | Some x => with_fs (default (sh_fs s) (remove (sh_fs s) (arg_value s (Var x)))) s
  | None => s
  end.
Definition on_signal (s : Shell) : Shell :=
  match sh_trap s with Some _ => run_trap s | None => with_end (Some Killed) s end.

Definition ended (s : Shell) : bool := bool_decide (is_Some (sh_end s)).

(** Command substitutions run whatever the name says; an expansion that fails ends the
    shell. *)
Definition expand (f : fault) (s : Shell) : Shell :=
  let '(fs, vs, failed) := fl_expansion f (sh_fs s) (sh_vars s) in
  let s := with_fs fs (with_vars vs s) in
  if failed then with_end (Some (Exited 1)) s else s.

Definition step (c : simple) (s : Shell) : Shell :=
  let f := faults (sh_step s) in
  let s := next_step s in
  if fl_kill f then with_end (Some Killed) s
  else
    let s := if fl_signal f then on_signal s else s in
    let s := if negb (ended s) && expands c then expand f s else s in
    if ended s then s
    else match fl_status f with
         | Some status => if cannot_fail c then run_simple c s else fail_simple c status (fl_partial f) s
         | None => run_simple c s
         end.

(** A subshell has variables, a mask and traps of its own; its [exit] is its status. *)
Definition leave_subshell (outer s : Shell) : Shell :=
  let s := with_trap (sh_trap outer) (with_umask (sh_umask outer) (with_vars (sh_vars outer) s)) in
  match sh_end s with
  | Some (Exited z) => with_status z (with_end None s)
  | _ => s
  end.

Definition succeeded (s : Shell) : bool := bool_decide (sh_status s = 0%Z).

Fixpoint exec (c : sh) (s : Shell) : Shell :=
  if ended s then s
  else
    match c with
    | Do c => step c s
    | Seq a b => exec b (exec a s)
    | And a b => let s := exec a s in if succeeded s then exec b s else s
    | Or a b => let s := exec a s in if succeeded s then s else exec b s
    | Group a => exec a s
    | Sub a => leave_subshell s (exec a (with_trap None s))
    | If c t e => let s := exec c s in if succeeded s then exec t s else exec e s
    end.

Definition start (fs : RemoteFS) (stdin : bytes) : Shell := mkShell fs ∅ stdin "" 18 None 0 None 0.

(** [sh -c]: at the end the trap runs, unless the shell was killed. *)
Definition run_script (c : sh) (fs : RemoteFS) (stdin : bytes) : Shell :=
  let s := exec c (start fs stdin) in
  match sh_end s with
  | Some Killed => s
  | Some (Exited _) => run_trap s
  | None => run_trap (with_end (Some (Exited (sh_status s))) s)
  end.

(** The exit status the client sees, if there is one. *)
Definition exit_status (s : Shell) : option Z :=
  match sh_end s with Some (Exited z) => Some z | _ => None end.
End Exec.

(** ** Reasoning about the scripts of a transfer

    Hoare triples over [exec] with two postconditions: one for a script that runs to
    its end and one for a shell that has ended, by [exit] or because it was killed. An
    assertion is stable when neither a signal nor the end of the shell between two
    commands invalidates what it promises. *)

(** ** Texts *)

(** Texts as lists of pieces, so that two of them are compared without moving brackets. *)
Inductive piece := Lit (s : string) | Cat (a b : piece).
Fixpoint piece_text (p : piece) : string := match p with Lit s => s | Cat a b => piece_text a +:+ piece_text b end.
Fixpoint pieces_before (p : piece) (rest : string) : string :=
  match p with Lit s => s +:+ rest | Cat a b => pieces_before a (pieces_before b rest) end.

Lemma pieces_before_text p rest : pieces_before p rest = piece_text p +:+ rest.
Proof. revert rest. induction p as [s|a IHa b IHb]; intros rest; cbn; [done|]. by rewrite IHb, IHa, str_app_assoc. Qed.

Lemma same_pieces p q : pieces_before p "" = pieces_before q "" → piece_text p = piece_text q.
Proof. rewrite !pieces_before_text. by rewrite !str_app_nil_r. Qed.

Ltac pieces_of t :=
  lazymatch t with
  | ?a +:+ ?b => let p := pieces_of a in let q := pieces_of b in constr:(Cat p q)
  | _ => constr:(Lit t)
  end.
Ltac same_text :=
  lazymatch goal with
  | |- ?s = ?t =>
      let p := pieces_of s in let q := pieces_of t in
      change (piece_text p = piece_text q); apply same_pieces; cbn [pieces_before String.append]; reflexivity
  end.

(** ** Triples *)

Section Logic.
Context `{!Sha256}.
Context (pid : string) (sha_tool : bool) (stale : string → bool) (faults : nat → fault).

Notation assertion := (Shell → Prop).

Definition after (Q E : assertion) (s : Shell) : Prop :=
  match sh_end s with None => Q s | Some _ => E s end.

(** From a shell that has not ended and satisfies [P]. *)
Definition runs_sh (c : sh) (P Q E : assertion) : Prop :=
  ∀ s, sh_end s = None → P s → after Q E (exec pid sha_tool stale faults c s).

Record stable (P E : assertion) : Prop := {
  stable_next : ∀ s, P s → P (next_step s);
  stable_trap : ∀ s, sh_trap s ≠ None → P s → P (run_trap s);
  stable_kill : ∀ s, P s → E (with_end (Some Killed) s);
}.

Definition succeeds (P : assertion) (s : Shell) : Prop := sh_status s = 0%Z ∧ P s.
Definition fails (P : assertion) (s : Shell) : Prop := sh_status s ≠ 0%Z ∧ P s.

Lemma run_trap_end s : sh_end (run_trap s) = sh_end s.
Proof. unfold run_trap. by destruct (sh_trap s). Qed.
Lemma run_trap_status s : sh_status (run_trap s) = sh_status s.
Proof. unfold run_trap. by destruct (sh_trap s). Qed.

Lemma stable_succeeds P E : stable P E → stable (succeeds P) E.
Proof.
  intros [Hn Ht Hk]. split; intros s; [intros [??]; split; auto| |intros [??]; auto].
  intros Htr [??]. split; [by rewrite run_trap_status|auto].
Qed.
Lemma stable_fails P E : stable P E → stable (fails P) E.
Proof.
  intros [Hn Ht Hk]. split; intros s; [intros [??]; split; auto| |intros [??]; auto].
  intros Htr [??]. split; [by rewrite run_trap_status|auto].
Qed.

Lemma after_weaken (Q Q' E : assertion) s : (∀ s, Q s → Q' s) → after Q E s → after Q' E s.
Proof. unfold after. intros HQ. destruct (sh_end s); auto. Qed.

Lemma exec_ended c s : sh_end s ≠ None → exec pid sha_tool stale faults c s = s.
Proof.
  intros He. assert (ended s = true) as Hs.
  { unfold ended. apply bool_decide_true. by apply not_eq_None_Some. }
  destruct c; cbn [exec]; by rewrite Hs.
Qed.

Lemma exec_running s : sh_end s = None → ended s = false.
Proof. intros He. unfold ended. rewrite He. apply bool_decide_false. intros [? [=]]. Qed.

Lemma after_seq (Q Q' E : assertion) c s :
  runs_sh c Q Q' E → after Q E s → after Q' E (exec pid sha_tool stale faults c s).
Proof.
  intros Hc Hs. unfold after in Hs. destruct (sh_end s) as [e|] eqn:He; [|by apply Hc].
  rewrite exec_ended by congruence. unfold after. by rewrite He.
Qed.

Lemma runs_weaken c (P P' Q Q' E : assertion) :
  (∀ s, P s → P' s) → (∀ s, Q' s → Q s) → runs_sh c P' Q' E → runs_sh c P Q E.
Proof. intros HP HQ Hc s He Hs. eapply after_weaken; [exact HQ|]. apply Hc; auto. Qed.

(** What a signal leaves before a command. *)
Lemma signalled (P E : assertion) s :
  stable P E → sh_end s = None → P s →
  let t := if fl_signal (faults (sh_step s)) then on_signal (next_step s) else next_step s in
  (sh_end t = None ∧ P t) ∨ (sh_end t = Some Killed ∧ E t).
Proof.
  intros [Hn Ht Hk] He HP. cbv zeta. destruct (fl_signal _); [|left; auto]. unfold on_signal.
  destruct (sh_trap (next_step s)) eqn:Etr.
  - left. split; [by rewrite run_trap_end|]. apply Ht; [congruence|auto].
  - right. split; [done|]. apply Hk; auto.
Qed.

(** A command: a signal may come first, and it may fail. *)
Lemma runs_do c (P Q E : assertion) :
  expands c = false
  → stable P E
  → (∀ s, sh_end s = None → P s → after Q E (run_simple pid sha_tool stale c s))
  → (cannot_fail c = false →
      ∀ s status partial, sh_end s = None → P s → after Q E (fail_simple c status partial s))
  → runs_sh (Do c) P Q E.
Proof.
  intros Hdata Hst Hrun Hfail s He HP. cbn [exec]. rewrite exec_running by done. unfold step. rewrite Hdata, andb_false_r.
  destruct (fl_kill _); [destruct Hst as [Hn _ Hk]; apply Hk; auto|].
  pose proof (signalled P E s Hst He HP) as Hsig. cbv zeta in Hsig.
  set (t := if fl_signal (faults (sh_step s)) then on_signal (next_step s) else next_step s) in *.
  destruct Hsig as [[Het HPt]|[Het HEt]].
  - rewrite exec_running by done. destruct (fl_status _); [|auto].
    destruct (cannot_fail c) eqn:Ec; auto.
  - unfold ended. rewrite bool_decide_true by (rewrite Het; eauto). unfold after. by rewrite Het.
Qed.

(** The command that may expand a name: unless the name is plain, nothing is known after
    it but that the shell went on or ended with an error. *)
Lemma runs_echo_directory p (P Q E : assertion) :
  stable P E
  → (∀ s status, sh_end s = None → P s → after Q E (with_status status s))
  → (plain_in_dquotes p = false → (∀ s, Q s) ∧ ∀ s, sh_end s = Some (Exited 1) → E s)
  → runs_sh (Do (EchoDirectory p)) P Q E.
Proof.
  intros Hst Hecho Hunsafe s He HP. cbn [exec]. rewrite exec_running by done. unfold step. cbn [expands cannot_fail run_simple fail_simple].
  destruct (fl_kill _); [destruct Hst as [Hn _ Hk]; apply Hk; auto|].
  pose proof (signalled P E s Hst He HP) as Hsig. cbv zeta in Hsig.
  set (t := if fl_signal (faults (sh_step s)) then on_signal (next_step s) else next_step s) in *.
  destruct Hsig as [[Het HPt]|[Het HEt]].
  - rewrite (exec_running t Het). cbn [negb andb]. destruct (plain_in_dquotes p) eqn:Hp; cbn [negb].
    + rewrite (exec_running t Het). destruct (fl_status _); by apply Hecho.
    + destruct (Hunsafe eq_refl) as [HQ HE]. unfold expand. destruct (fl_expansion _ _ _) as [[fs vs] [|]].
      * unfold ended. cbn. unfold after. cbn. by apply HE.
      * rewrite exec_running by exact Het. destruct (fl_status _); unfold after; cbn; rewrite Het; apply HQ.
  - assert (ended t = true) as Hended by (unfold ended; rewrite bool_decide_true; [done|rewrite Het; eauto]).
    rewrite Hended. cbn [negb andb]. rewrite Hended. unfold after. by rewrite Het.
Qed.

Lemma runs_seq a b (P Q R E : assertion) : runs_sh a P Q E → runs_sh b Q R E → runs_sh (Seq a b) P R E.
Proof.
  intros Ha Hb s He HP. cbn [exec]. rewrite exec_running by done. eapply after_seq; [exact Hb|]. by apply Ha.
Qed.

Lemma succeeded_spec s : succeeded s = true ↔ sh_status s = 0%Z.
Proof. unfold succeeded. by rewrite bool_decide_eq_true. Qed.

Lemma after_end (Q E : assertion) s e : sh_end s = Some e → after Q E s → E s.
Proof. unfold after. by intros ->. Qed.

(** [a && b] *)
Lemma runs_and a b (P Q R E : assertion) :
  runs_sh a P Q E → runs_sh b (succeeds Q) R E → (∀ s, fails Q s → R s) → runs_sh (And a b) P R E.
Proof.
  intros Ha Hb Hf s He HP. cbn [exec]. rewrite exec_running by done. specialize (Ha s He HP).
  set (t := exec _ _ _ _ a s) in *. destruct (sh_end t) as [e|] eqn:Et.
  - pose proof (after_end _ _ _ _ Et Ha) as HE.
    destruct (succeeded t); [rewrite exec_ended by congruence|]; unfold after; by rewrite Et.
  - unfold after in Ha. rewrite Et in Ha. destruct (succeeded t) eqn:Es.
    + apply Hb; [done|]. split; [by apply succeeded_spec|done].
    + unfold after. rewrite Et. apply Hf. split; [|done]. intros H0. apply succeeded_spec in H0. congruence.
Qed.

(** [a || b] *)
Lemma runs_or a b (P Q R E : assertion) :
  runs_sh a P Q E → runs_sh b (fails Q) R E → (∀ s, succeeds Q s → R s) → runs_sh (Or a b) P R E.
Proof.
  intros Ha Hb Hf s He HP. cbn [exec]. rewrite exec_running by done. specialize (Ha s He HP).
  set (t := exec _ _ _ _ a s) in *. destruct (sh_end t) as [e|] eqn:Et.
  - pose proof (after_end _ _ _ _ Et Ha) as HE.
    destruct (succeeded t); [|rewrite exec_ended by congruence]; unfold after; by rewrite Et.
  - unfold after in Ha. rewrite Et in Ha. destruct (succeeded t) eqn:Es.
    + unfold after. rewrite Et. apply Hf. split; [by apply succeeded_spec|done].
    + apply Hb; [done|]. split; [|done]. intros H0. apply succeeded_spec in H0. congruence.
Qed.

Lemma runs_group a (P Q E : assertion) : runs_sh a P Q E → runs_sh (Group a) P Q E.
Proof. intros Ha s He HP. cbn [exec]. rewrite exec_running by done. by apply Ha. Qed.

Lemma runs_if c a b (P Q R E : assertion) :
  runs_sh c P Q E → runs_sh a (succeeds Q) R E → runs_sh b (fails Q) R E → runs_sh (If c a b) P R E.
Proof.
  intros Hc Ha Hb s He HP. cbn [exec]. rewrite exec_running by done. specialize (Hc s He HP).
  set (t := exec _ _ _ _ c s) in *. destruct (sh_end t) as [e|] eqn:Et.
  - pose proof (after_end _ _ _ _ Et Hc) as HE.
    destruct (succeeded t); rewrite exec_ended by congruence; unfold after; by rewrite Et.
  - unfold after in Hc. rewrite Et in Hc. destruct (succeeded t) eqn:Es; [apply Ha|apply Hb]; try done; split; try done.
    + by apply succeeded_spec.
    + intros H0. apply succeeded_spec in H0. congruence.
Qed.

(** A subshell: what its commands leave, seen with the variables and the trap of the
    shell around it. *)
Lemma runs_sub a (P Q E P' Q' E' : assertion) :
  (∀ o, P o → P' (with_trap None o))
  → runs_sh a P' Q' E'
  → (∀ o s, sh_end o = None → P o → sh_end s = None → Q' s → Q (leave_subshell o s))
  → (∀ o s, sh_end o = None → P o → sh_end s ≠ None → E' s → after Q E (leave_subshell o s))
  → runs_sh (Sub a) P Q E.
Proof.
  intros HP Ha HQ HE o He Ho. cbn [exec]. rewrite exec_running by done.
  specialize (Ha (with_trap None o) He (HP o Ho)). set (s := exec _ _ _ _ a _) in *. unfold after in Ha.
  destruct (sh_end s) as [e|] eqn:Es; [apply HE; auto; congruence|].
  unfold after. unfold leave_subshell. cbn. rewrite Es. cbn. rewrite Es.
  specialize (HQ o s He Ho Es Ha). unfold leave_subshell in HQ. cbn in HQ. by rewrite Es in HQ.
Qed.

(** [exit] ends the shell. *)
Lemma runs_exit n (P Q E : assertion) :
  stable P E → (∀ s, P s → E (with_end (Some (Exited n)) s)) → runs_sh (Do (Exit n)) P Q E.
Proof.
  intros HP HE. apply runs_do; [done|done| |done]. intros s He Hs. unfold after. cbn. by apply HE.
Qed.

(** A list of commands: it ends in a state of the last assertion. *)
Lemma runs_cons a l (P Q R E : assertion) :
  l ≠ [] → runs_sh a P Q E → runs_sh (seq_all l) Q R E → runs_sh (seq_all (a :: l)) P R E.
Proof. intros Hl Ha Hr. destruct l as [|b l]; [done|]. cbn [seq_all]. by eapply runs_seq. Qed.

Lemma runs_app l1 l2 (P Q R E : assertion) :
  l1 ≠ [] → l2 ≠ [] → runs_sh (seq_all l1) P Q E → runs_sh (seq_all l2) Q R E → runs_sh (seq_all (l1 ++ l2)) P R E.
Proof.
  intros H1 H2 Hl Hr s He HP. specialize (Hl s He HP).
  assert (Hassoc : exec pid sha_tool stale faults (seq_all (l1 ++ l2)) s
    = exec pid sha_tool stale faults (seq_all l2) (exec pid sha_tool stale faults (seq_all l1) s)).
  { clear Hl Hr HP. revert s He. induction l1 as [|a l1 IH]; [done|]. intros s He.
    assert (Hcons : ∀ b l s, l ≠ [] → sh_end s = None →
      exec pid sha_tool stale faults (seq_all (b :: l)) s = exec pid sha_tool stale faults (seq_all l) (exec pid sha_tool stale faults b s)).
    { intros b l u Hl Hu. destruct l; [done|]. cbn [seq_all exec]. by rewrite exec_running. }
    destruct l1 as [|b l1].
    - cbn [app]. rewrite Hcons by done. done.
    - change ((a :: b :: l1) ++ l2) with (a :: ((b :: l1) ++ l2)).
      rewrite (Hcons a ((b :: l1) ++ l2)), (Hcons a (b :: l1)) by (try done; by destruct l2).
      destruct (sh_end (exec pid sha_tool stale faults a s)) as [e|] eqn:Ea; [|by apply IH].
      rewrite (exec_ended (seq_all ((b :: l1) ++ l2))) by congruence.
      rewrite (exec_ended (seq_all (b :: l1))) by congruence. by rewrite (exec_ended (seq_all l2)) by congruence. }
  rewrite Hassoc. by eapply after_seq.
Qed.
End Logic.

(** A command whose text is data, which is found by computation. *)
Ltac run_do := apply runs_do; [first [reflexivity|assumption]|..].
