(* ===== verification/Upload.v ===== *)
(** * Uploading a file ([ssh/filecopy.go])

    The command line of an upload, the script it is, and the client around it. The
    script is what RemoteShell runs on the remote host; what the file system, the
    session and the clock answer to the client is the [UploadWorld]. *)

From stdpp Require Import pretty.
From Stdlib Require Import Ascii Strings.Byte.
From S2P Require Import Prelude GoStrings GoErrors GoRegexp Config Redaction FailurePolicy MachineContract SyncProtocol RemoteCommand SshDial RemoteShell.

(** ** The command line *)

Definition DefaultUploadDirMode : Z := 493.
Definition dirMode (mode : Z) : Z := if bool_decide (mode = 0%Z) then DefaultUploadDirMode else Z.land mode 511.

Definition integrityToolMissingMarker : string := "SSM_INTEGRITY_TOOL_MISSING".
Definition remoteSHA256UnavailableMessage : string := "remote host has none of sha256sum, shasum, or openssl".
Definition remoteSHA256Helpers : string := sha256_functions +:+ "; ".

Definition remoteMkdirParents (dir : string) (mode : Z) : string :=
  "(umask " +:+ octal (Z.land 511 (Z.lnot mode)) +:+ "; mkdir -p -- " +:+ ShellQuote dir +:+ ")".

Definition guard_dash (remotePath : string) : string :=
  if HasPrefix remotePath "-" then "./" +:+ remotePath else remotePath.

Definition tmp_ref : string := in_dquotes "$tmp".
Definition mismatch_exit : string := "{ echo SSM_INTEGRITY_MISMATCH; exit 65; }; ".

Definition upload_prefix (parent digest : string) (dirMode : Z) : string :=
  "umask 077; "
  +:+ (if bool_decide (digest ≠ "")
       then remoteSHA256Helpers +:+ "ssm_sha256_tool >/dev/null || { echo " +:+ integrityToolMissingMarker +:+ "; exit 69; }; "
       else "")
  +:+ (if bool_decide (parent ≠ "") then remoteMkdirParents parent dirMode +:+ " && " else "").

Definition upload_checks (size : Z) (digest : string) : string :=
  "actual_size=$(wc -c < " +:+ tmp_ref +:+ " | tr -d ' ') || exit 74; "
  +:+ (if (0 <=? size)%Z
       then "[ " +:+ in_dquotes "$actual_size" +:+ " = " +:+ pretty size +:+ " ] || " +:+ mismatch_exit else "")
  +:+ (if bool_decide (digest ≠ "")
       then "actual_sha=$(ssm_sha256 " +:+ tmp_ref +:+ ") || exit 74; [ " +:+ in_dquotes "$actual_sha" +:+ " = "
            +:+ ShellQuote digest +:+ " ] || " +:+ mismatch_exit
       else "actual_sha=-; ").

Definition uploadCommandWithIntegrity (remotePath : string) (mode size : Z) (digest : string) (dirMode : Z) : string :=
  let remotePath := guard_dash remotePath in
  let quotedPath := ShellQuote remotePath in
  upload_prefix (RemoteParentDir remotePath) digest dirMode
  +:+ "tmp=" +:+ quotedPath +:+ ".ssm-upload.$$; trap 'rm -f -- " +:+ tmp_ref +:+ "' EXIT HUP INT TERM; cat > " +:+ tmp_ref
  +:+ " && chmod 0" +:+ octal mode +:+ " " +:+ tmp_ref +:+ " || exit $?; "
  +:+ upload_checks size digest
  +:+ "[ -d " +:+ quotedPath +:+ " ] && { rm -f -- " +:+ tmp_ref +:+ "; echo "
  +:+ in_dquotes ("remote destination " +:+ quotedPath +:+ " is a directory") +:+ " >&2; exit 73; }; mv -f -- "
  +:+ tmp_ref +:+ " " +:+ quotedPath +:+ " && trap - EXIT HUP INT TERM && printf 'SSM_TRANSFER %s %s\n' "
  +:+ in_dquotes "$actual_size" +:+ " " +:+ in_dquotes "$actual_sha".

Definition downloadCommand (remotePath : string) : string := "cat -- " +:+ ShellQuote remotePath.

(** ** The script the command line is *)

Definition tool_check (message : arg) : sh := Or (Do ToolProbe) (Group (Seq (Do (Echo message)) (Do (Exit 69)))).
Definition mismatch : sh := Group (Seq (Do (Echo (Plain "SSM_INTEGRITY_MISMATCH"))) (Do (Exit 65))).

Definition temp_assignment (path : string) (dirMode : Z) : sh :=
  let assign := Do (AssignTemp "tmp" path ".ssm-upload") in
  let parent := RemoteParentDir path in
  if bool_decide (parent ≠ "")
  then And (Sub (Seq (Do (Umask (Z.land 511 (Z.lnot dirMode)))) (Do (Mkdir true parent)))) assign
  else assign.

Definition size_check (size : Z) : list sh :=
  if (0 <=? size)%Z then [Or (Do (TestEq (Var "actual_size") (Plain (pretty size)))) mismatch] else [].
Definition digest_check (digest : string) : list sh :=
  if bool_decide (digest ≠ "") then
    [Or (Do (AssignDigest "actual_sha" (Var "tmp"))) (Do (Exit 74));
     Or (Do (TestEq (Var "actual_sha") (Quoted digest))) mismatch]
  else [Do (Assign "actual_sha" "-")].

Definition publish_file (path : string) : list sh :=
  [And (Do (TestDir (Quoted path)))
     (Group (Seq (Do (RemoveFile (Var "tmp"))) (Seq (Do (EchoDirectory path)) (Do (Exit 73)))));
   And (And (Do (Move (Var "tmp") (Quoted path))) (Do TrapReset))
     (Do (PrintTwo "SSM_TRANSFER" (Var "actual_size") (Var "actual_sha")))].

Definition receive_file (mode : Z) : list sh :=
  [Do (TrapRemove "tmp"); Or (And (Do (CatInto (Var "tmp"))) (Do (Chmod mode (Var "tmp")))) (Do ExitStatus);
   Or (Do (AssignSize "actual_size" (Var "tmp"))) (Do (Exit 74))].

Definition upload_script (remotePath : string) (mode size : Z) (digest : string) (dirMode : Z) : sh :=
  let path := guard_dash remotePath in
  seq_all
    ([Do (Umask 63)]
     ++ (if bool_decide (digest ≠ "") then [Do Functions; tool_check (Plain integrityToolMissingMarker)] else [])
     ++ [temp_assignment path dirMode]
     ++ receive_file mode ++ size_check size ++ digest_check digest ++ publish_file path).

Definition parseUploadReceipt (output : string) : option (Z * string) :=
  match Fields (TrimSpace output) with
  | [tag; size; digest] =>
      if bool_decide (tag ≠ "SSM_TRANSFER") then None
      else match Atoi size with
           | Some size => Some (size, if bool_decide (digest = "-") then "" else digest)
           | None => None
           end
  | _ => None
  end.

(** ** The client *)

Record TransferError := mkTransferError { te_Failure : Failure; te_BytesSent : Z; te_Cause : sshError }.

Record TransferResult := mkTransferResult {
  tr_OK : bool;
  tr_Direction : string;
  tr_Kind : string;
  tr_Stage : string;
  tr_BytesSent : Z;
  tr_BytesReceived : Z;
  tr_Integrity : string;
  tr_LocalSHA256 : string;
  tr_RemoteSHA256 : string;
  tr_Atomic : bool;
  tr_Resume : string;
  tr_BytesReused : Z;
}.

Definition tr_with_stage (x : string) (r : TransferResult) : TransferResult :=
  mkTransferResult (tr_OK r) (tr_Direction r) (tr_Kind r) x (tr_BytesSent r) (tr_BytesReceived r) (tr_Integrity r) (tr_LocalSHA256 r) (tr_RemoteSHA256 r)
    (tr_Atomic r) (tr_Resume r) (tr_BytesReused r).
Definition tr_with_sent (x : Z) (r : TransferResult) : TransferResult :=
  mkTransferResult (tr_OK r) (tr_Direction r) (tr_Kind r) (tr_Stage r) x (tr_BytesReceived r) (tr_Integrity r) (tr_LocalSHA256 r) (tr_RemoteSHA256 r)
    (tr_Atomic r) (tr_Resume r) (tr_BytesReused r).
Definition tr_with_integrity (x : string) (r : TransferResult) : TransferResult :=
  mkTransferResult (tr_OK r) (tr_Direction r) (tr_Kind r) (tr_Stage r) (tr_BytesSent r) (tr_BytesReceived r) x (tr_LocalSHA256 r) (tr_RemoteSHA256 r)
    (tr_Atomic r) (tr_Resume r) (tr_BytesReused r).
Definition tr_with_local (x : string) (r : TransferResult) : TransferResult :=
  mkTransferResult (tr_OK r) (tr_Direction r) (tr_Kind r) (tr_Stage r) (tr_BytesSent r) (tr_BytesReceived r) (tr_Integrity r) x (tr_RemoteSHA256 r)
    (tr_Atomic r) (tr_Resume r) (tr_BytesReused r).
Definition tr_with_remote (x : string) (r : TransferResult) : TransferResult :=
  mkTransferResult (tr_OK r) (tr_Direction r) (tr_Kind r) (tr_Stage r) (tr_BytesSent r) (tr_BytesReceived r) (tr_Integrity r) (tr_LocalSHA256 r) x
    (tr_Atomic r) (tr_Resume r) (tr_BytesReused r).
Definition tr_with_resume (x : string) (reused : Z) (r : TransferResult) : TransferResult :=
  mkTransferResult (tr_OK r) (tr_Direction r) (tr_Kind r) (tr_Stage r) (tr_BytesSent r) (tr_BytesReceived r) (tr_Integrity r) (tr_LocalSHA256 r)
    (tr_RemoteSHA256 r) (tr_Atomic r) x reused.
Definition tr_completed (integrity remote : string) (r : TransferResult) : TransferResult :=
  mkTransferResult true (tr_Direction r) (tr_Kind r) "complete" (tr_BytesSent r) (tr_BytesReceived r) integrity (tr_LocalSHA256 r) remote
    (tr_Atomic r) (tr_Resume r) (tr_BytesReused r).

Record UploadOptions := mkUploadOptions {
  uo_VerifySHA256 : bool; uo_Timeout : Z; uo_ResumeVersion : string; uo_DirMode : Z;
}.

(** The answer to a command: [session.Start], the bytes [io.Copy] wrote (in a download, the
    bytes the command wrote) and its error,
    [stdin.Close], [session.Wait], whether the deadline passed, and the output. *)
Record Answer := mkAnswer {
  ra_start : option sshError;
  ra_sent : bytes;
  ra_copy : option sshError;
  ra_close : option sshError;
  ra_wait : option sshError;
  ra_timed_out : bool;
  ra_stdout : string;
  ra_stderr : string;
}.

(** What the client is answered. *)
Record UploadWorld := mkUploadWorld {
  (** [os.Open], [f.Stat] with the mode and size of a regular file, the first pass over
      the file and the rewind *)
  uw_open : option sshError;
  uw_stat : sshError + option (Z * Z);
  uw_read : sshError + bytes;
  uw_seek : option sshError;
  (** [dialSSH], [newSessionRetry], [StdinPipe] and the remote host *)
  uw_dial : option sshError;
  uw_session : option sshError;
  uw_stdin : option sshError;
  uw_exec : string → Answer;
}.

Section Client.
Context `{!Sha256} `{!UnicodeCase}.
Context (RedactString : string → string) (windows : bool).

Definition cause_details (e : sshError) : Details :=
  mkDetails "" (Some (x_Message e)) "" "" [] "" 0 "" "" "" "" "" "" "" "".

Definition transferClassifiedError (f : Failure) (sent : Z) (cause : sshError) : TransferError :=
  mkTransferError f sent cause.
Definition transferError (kind : Kind) (sent : Z) (cause : sshError) : TransferError :=
  transferClassifiedError (Classify RedactString kind (cause_details cause)) sent cause.
Definition transferKindError (kind : Kind) (sent : Z) (cause : sshError) : TransferError :=
  let f := Classify RedactString kind (cause_details cause) in
  transferClassifiedError f sent (classified_error f (Some cause)).

Definition isExecRefused (e : sshError) : bool :=
  HasPrefix (x_Message e) "ssh: command " && HasSuffix (x_Message e) " failed".

Definition remoteShellProbeDetailLimit : nat := 120.
Definition remoteShellUnsupportedError (output : string) (cause : option sshError) : TransferError :=
  let detail := Join (Fields output) " " in
  let detail :=
    if remoteShellProbeDetailLimit <? String.length detail
    then take_string remoteShellProbeDetailLimit detail +:+ "..." else detail in
  let message := "the remote host does not run a POSIX shell for commands" in
  let message :=
    if bool_decide (detail ≠ "") then message +:+ " (received " +:+ Quote detail +:+ ")"
    else match cause with Some e => message +:+ ": " +:+ x_Message e | None => message end in
  transferKindError RemoteShellUnsupported 0 (plain_error message).

(** When writing the input failed: the marker of a remote that ended first wins. *)
Definition collectRemoteFirst (w : Answer) (result : TransferResult) (written : Z) (cause : sshError) (fallback : Kind) :
    TransferResult * TransferError :=
  if ra_timed_out w then (result, transferError TransferTimedOut written cause)
  else if bool_decide (is_Some (ra_wait w)) && Contains (ra_stdout w) integrityToolMissingMarker then
    (tr_with_stage "capability" result,
     transferKindError IntegrityToolUnavailable written (plain_error remoteSHA256UnavailableMessage))
  else if bool_decide (is_Some (ra_wait w)) && Contains (ra_stdout w) "SSM_INTEGRITY_MISMATCH" then
    (tr_with_integrity "mismatch" (tr_with_stage "integrity" result),
     transferError TransferIntegrityMismatch written (plain_error "remote integrity verification failed"))
  else (result, transferError fallback written cause).

(** [session.Wait] failed. *)
Definition upload_failed (w : Answer) (result : TransferResult) (written : Z) (err : sshError) :
    TransferResult * TransferError :=
  if ra_timed_out w then (result, transferError TransferTimedOut written err)
  else if Contains (ra_stdout w) integrityToolMissingMarker then
    (tr_with_stage "capability" result,
     transferKindError IntegrityToolUnavailable written (plain_error remoteSHA256UnavailableMessage))
  else if Contains (ra_stdout w) "SSM_INTEGRITY_MISMATCH" then
    (tr_with_integrity "mismatch" (tr_with_stage "integrity" result),
     transferError TransferIntegrityMismatch written (plain_error "remote integrity verification failed"))
  else
    let message := TrimSpace (ra_stderr w) in
    if bool_decide (message = "") && bool_decide (x_ExitStatus err = None) then
      (result, transferError TransferRemoteWriteFailed written err)
    else
      let message := if bool_decide (message = "") then x_Message err else message in
      if Contains message "remote destination" && Contains message "is a directory" then
        (result, transferError TransferRemoteWriteFailed written (plain_error message))
      else (result, transferError TransferRemotePermissionsFailed written (plain_error message)).

(** The command of the session, from what was found locally. *)
Definition upload_command (remotePath : string) (opts : UploadOptions) (mode size : Z) (digest : string) : string :=
  uploadCommandWithIntegrity remotePath (Z.land mode 511) size digest (dirMode (uo_DirMode opts)).

(** The session: the command, the payload and the receipt. *)
Definition upload_session (opts : UploadOptions) (w : UploadWorld) (cmd : string) (size : Z) (digest : string) (result : TransferResult) :
    TransferResult * option TransferError :=
  match uw_session w with
  | Some e => (result, Some (transferError TransferSessionOpenFailed 0 e))
  | None =>
  match uw_stdin w with
  | Some e => (result, Some (transferError TransferStdinOpenFailed 0 e))
  | None =>
  let a := uw_exec w cmd in
  match ra_start a with
  | Some e =>
      if isExecRefused e then (result, Some (remoteShellUnsupportedError "" (Some e)))
      else (result, Some (transferError TransferStartFailed 0 e))
  | None =>
      let result := tr_with_stage "remote_write" result in
      let written := Z.of_nat (length (ra_sent a)) in
      let result := tr_with_sent written result in
      let failing r := (r.1, Some r.2) in
      match ra_copy a with
      | Some e => failing (collectRemoteFirst a result written e TransferRemoteWriteFailed)
      | None =>
      match ra_close a with
      | Some e => failing (collectRemoteFirst a result written e TransferRemoteCloseFailed)
      | None =>
      match ra_wait a with
      | Some e => failing (upload_failed a result written e)
      | None =>
          let invalid :=
            (tr_with_integrity "mismatch" (tr_with_stage "integrity" result),
             Some (transferError TransferReceiptInvalid written (plain_error "invalid remote integrity receipt"))) in
          match parseUploadReceipt (ra_stdout a) with
          | None => invalid
          | Some (remoteSize, remoteDigest) =>
              if negb (bool_decide (remoteSize = size)) || (uo_VerifySHA256 opts && negb (bool_decide (remoteDigest = digest)))
              then invalid
              else (tr_completed (if uo_VerifySHA256 opts then "sha256_verified" else "size_verified") remoteDigest result, None)
          end
      end end end
  end end end.

(** [UploadFileWithOptions] without a resume version. *)
Definition upload_whole_file (c : Connection) (remotePath : string) (opts : UploadOptions) (w : UploadWorld) :
    TransferResult * option TransferError :=
  let result := mkTransferResult false "" "" "local_read" 0 0 "not_checked" "" "" true "unsupported" 0 in
  match uw_open w with
  | Some e => (result, Some (transferError TransferLocalRead 0 e))
  | None =>
  match uw_stat w with
  | inl e => (result, Some (transferError TransferLocalFileStat 0 e))
  | inr None => (result, Some (transferError TransferRegularFileRequired 0 (plain_error "not a regular file")))
  | inr (Some (mode, size)) =>
      let hashed :=
        if negb (uo_VerifySHA256 opts) then inr ("", result)
        else
          match uw_read w with
          | inl e => inl (result, transferError TransferIntegritySourceRead 0 e)
          | inr content =>
              let digest := digest_of content in
              let result := tr_with_local digest result in
              match uw_seek w with
              | Some e => inl (result, transferError TransferSeekableSourceRequired 0 e)
              | None => inr (digest, result)
              end
          end in
      match hashed with
      | inl (result, e) => (result, Some e)
      | inr (digest, result) =>
          let result := tr_with_stage "dial" result in
          match uw_dial w with
          | Some e =>
              let classified := ClassifyError RedactString windows e c in
              (result, Some (transferClassifiedError classified 0 (classified_error classified (Some e))))
          | None => upload_session opts w (upload_command remotePath opts mode size digest) size digest result
          end
      end
  end end.
End Client.
