(* ===== verification/UploadFacts.v ===== *)
(** * What an upload leaves on the remote host

    The command line is the text of [upload_script]; the script, whatever signal or
    failure interrupts it, leaves a destination whose name is plain in double quotes as it
    was or holding the complete payload, and succeeds only in the second case. *)

From stdpp Require Import pretty.
From Stdlib Require Import Ascii Strings.Byte.
From S2P Require Import Prelude GoStrings GoStringFacts GoErrors GoRegexp Redaction FailurePolicy MachineContract SyncProtocol RemoteCommand SshDial RemoteShell Upload.

(** ** The command line is the text of the script *)

Theorem upload_text remotePath mode size digest dirMode :
  uploadCommandWithIntegrity remotePath mode size digest dirMode
  = sh_text (upload_script remotePath mode size digest dirMode).
Proof.
  unfold uploadCommandWithIntegrity, upload_script, upload_prefix, upload_checks, temp_assignment, receive_file, size_check,
    digest_check, publish_file, tool_check, mismatch, mismatch_exit, remoteMkdirParents, remoteSHA256Helpers, tmp_ref, in_dquotes.
  set (path := guard_dash remotePath). clearbody path.
  destruct (bool_decide (digest ≠ "")), (bool_decide (RemoteParentDir path ≠ "")), (0 <=? size)%Z;
    cbn [seq_all app sh_text simple_text arg_text]; unfold in_dquotes;
    change (pretty 69%Z) with "69"; change (pretty 65%Z) with "65"; change (pretty 73%Z) with "73";
    change (pretty 74%Z) with "74"; change (octal 63) with "077";
    generalize (ShellQuote path); generalize (ShellQuote digest); generalize (octal mode); generalize (pretty size);
    generalize (octal (Z.land 511 (Z.lnot dirMode))); generalize (ShellQuote (RemoteParentDir path));
    generalize sha256_functions; intros; same_text.
Qed.

(** ** Paths *)

Lemma length_Join_take n (l : list string) sep : String.length (Join (take n l) sep) ≤ String.length (Join l sep).
Proof.
  revert n. induction l as [|a l IH]; intros n; [by rewrite take_nil|]. destruct n as [|n]; [cbn; lia|].
  cbn [take]. specialize (IH n). destruct l as [|b l]; [by rewrite take_nil|]. destruct n as [|n].
  - cbn [take Join]. rewrite length_str_app. lia.
  - cbn [take] in *. cbn [Join] in *. rewrite !length_str_app in *. lia.
Qed.

Lemma Join_Split c s : Join (Split c s) (String c "") = s.
Proof.
  induction s as [|d s IH]; [done|]. cbn [Split]. destruct (Ascii.eqb d c) eqn:E.
  - apply Ascii.eqb_eq in E as ->. destruct (Split c s) as [|p ps] eqn:Es; [by destruct s; cbn in Es; repeat case_match|].
    change (Join ("" :: p :: ps) (String c "")) with (String c "" +:+ Join (p :: ps) (String c "")). by rewrite IH.
  - destruct (Split c s) as [|p ps] eqn:Es; [by destruct s; cbn in Es; repeat case_match|].
    cbn [Join] in *. destruct ps; cbn; by rewrite <- IH.
Qed.

Lemma path_prefixes_short dir q : q ∈ path_prefixes dir → String.length q ≤ String.length dir.
Proof.
  unfold path_prefixes. rewrite list_elem_of_filter. intros [_ Hq]. apply list_elem_of_lookup in Hq as [i Hi].
  rewrite list_lookup_imap in Hi. destruct (Split "/" dir !! i); [|done]. cbn in Hi. injection Hi as <-.
  etrans; [apply length_Join_take|]. by rewrite Join_Split.
Qed.

Lemma length_string_rev s : String.length (string_rev s) = String.length s.
Proof.
  induction s as [|c s IH]; [done|]. rewrite string_rev_cons, length_str_app, IH. cbn. lia.
Qed.

Lemma length_trim_left chars s : String.length (trim_left_set chars s) ≤ String.length s.
Proof. induction s as [|c s IH]; cbn; [lia|]. destruct (contains_char c chars); cbn; lia. Qed.

Lemma LastIndexByte_bound s c i : LastIndexByte s c = Some i → i < String.length s.
Proof.
  revert i. induction s as [|d s IH]; intros i; cbn; [done|].
  destruct (LastIndexByte s c) as [j|]; [intros [= <-]; specialize (IH j eq_refl); lia|].
  destruct (Ascii.eqb d c); [intros [= <-]; lia|done].
Qed.

Lemma length_take_string n s : String.length (take_string n s) ≤ n.
Proof. revert s. induction n as [|n IH]; intros [|c s]; cbn; [lia..|]. specialize (IH s). lia. Qed.

Lemma parent_is_shorter p : p ≠ "" → String.length (RemoteParentDir p) < String.length p.
Proof.
  intros Hp. assert (Hpos : 0 < String.length p) by (destruct p; [done|cbn; lia]).
  unfold RemoteParentDir. pose proof (length_trim_left "/" (string_rev p)) as Hlen.
  rewrite length_string_rev in Hlen. unfold TrimRight. set (q := string_rev (trim_left_set "/" (string_rev p))).
  assert (Hq : String.length q ≤ String.length p) by (unfold q; rewrite length_string_rev; lia).
  case_bool_decide as Hdot; [cbn; lia|]. destruct (LastIndexByte q "/") as [[|i]|] eqn:Hi; [|apply LastIndexByte_bound in Hi|cbn; lia].
  - (* the root *)
    cbn. destruct q as [|c [|d q']] eqn:Eq; [done| |cbn in Hq; lia].
    exfalso. cbn in Hi. destruct (Ascii.eqb c "/") eqn:Ec; [|done]. apply Ascii.eqb_eq in Ec as ->.
    assert (Hrev : trim_left_set "/" (string_rev p) = "/").
    { rewrite <- (string_rev_involutive (trim_left_set "/" (string_rev p))). fold q. by rewrite Eq. }
    clear -Hrev. induction (string_rev p) as [|c s IH]; cbn in Hrev; [done|].
    destruct (Ascii.eqb c "/") eqn:Ec; cbn in Hrev; [auto|]. injection Hrev as -> ->. done.
  - pose proof (length_take_string (S i) q). lia.
Qed.

(** ** The invariant of the script *)

Section Upload.
Context `{!Sha256}.
Context (pid : string) (sha_tool : bool) (stale : string → bool) (faults : nat → fault).
Context (fs0 : RemoteFS) (payload : bytes) (path : string) (mode size : Z) (digest : string) (dmode : Z).
Context (Hpath : path ≠ "").

Notation runs_sh := (runs_sh pid sha_tool stale faults).

Definition upload_temp : string := path +:+ ".ssm-upload" +:+ "." +:+ pid.
Definition upload_dirs : list string := path_prefixes (RemoteParentDir path).

(** The payload the client announced: its length and its digest, when they were given. *)
Definition announced : Prop :=
  ((0 ≤ size)%Z → Z.of_nat (length payload) = size) ∧ (digest ≠ "" → digest_of payload = digest) ∧ fs0 !! path ≠ Some RDir.

Definition untouched (fs : RemoteFS) : Prop :=
  ∀ q, q ≠ path → q ≠ upload_temp → q ∉ upload_dirs → fs !! q = fs0 !! q.

Definition published (s : Shell) : Prop := sh_fs s !! path = Some (RFile payload mode) ∧ announced.

Definition temp_or_nothing (v : option string) : Prop := v = None ∨ v = Some upload_temp.

Record upload_inv (s : Shell) : Prop := {
  inv_frame : untouched (sh_fs s);
  inv_path : sh_fs s !! path = fs0 !! path ∨ published s;
  inv_var : temp_or_nothing (sh_vars s !! "tmp");
  inv_trap : sh_trap s = None ∨ sh_trap s = Some "tmp";
  inv_temp : sh_fs s !! upload_temp = fs0 !! upload_temp ∨ sh_fs s !! upload_temp = None
             ∨ (sh_trap s = Some "tmp" ∧ sh_vars s !! "tmp" = Some upload_temp ∧ sh_fs s !! upload_temp ≠ Some RDir);
}.

(** What a name that is not plain in double quotes takes away: the message about a
    directory may run anything. *)
Definition plain_inv (s : Shell) : Prop := plain_in_dquotes path = true → upload_inv s.

(** What is true of a shell that ended: it succeeded only at the end of the script. *)
Definition upload_ended (s : Shell) : Prop := plain_inv s ∧ sh_end s ≠ Some (Exited 0).

Lemma temp_not_path : upload_temp ≠ path.
Proof. intros E. apply (f_equal String.length) in E. unfold upload_temp in E. rewrite !length_str_app in E. cbn [String.length] in E. lia. Qed.
Lemma path_not_dir : path ∉ upload_dirs.
Proof. intros Hin. apply path_prefixes_short in Hin. pose proof (parent_is_shorter path Hpath). lia. Qed.
Lemma temp_not_dir : upload_temp ∉ upload_dirs.
Proof.
  intros Hin. apply path_prefixes_short in Hin. pose proof (parent_is_shorter path Hpath).
  unfold upload_temp in Hin. rewrite length_str_app in Hin. lia.
Qed.

(** What the trap does to the files. *)
Lemma trap_fs s :
  temp_or_nothing (sh_vars s !! "tmp") → sh_trap s = None ∨ sh_trap s = Some "tmp" →
  run_trap s = with_fs (sh_fs s) s
  ∨ (sh_vars s !! "tmp" = Some upload_temp ∧ run_trap s = with_fs (delete upload_temp (sh_fs s)) s).
Proof.
  intros Hv Ht. unfold run_trap. destruct Ht as [-> | ->]; [left; by destruct s|].
  unfold arg_value. destruct Hv as [-> | ->]; cbn [default from_option id]; unfold remove.
  - left. by destruct (is_directory (sh_fs s) "").
  - destruct (is_directory (sh_fs s) upload_temp) eqn:Hd; [by left|]. right. split; [done|].
    rewrite bool_decide_false; [done|]. unfold upload_temp. by destruct path.
Qed.

Lemma upload_inv_trap s : upload_inv s → upload_inv (run_trap s).
Proof.
  intros [Hf Hp Hv Ht Htmp]. destruct (trap_fs s Hv Ht) as [-> | [Hvar ->]]; [by split|]. split; [| |done..|].
  - intros q ???. cbn. rewrite lookup_delete_ne; auto.
  - unfold published. cbn. rewrite lookup_delete_ne; [done|apply temp_not_path].
  - right. left. cbn. apply lookup_delete_eq.
Qed.

Lemma upload_inv_end s e : upload_inv s → upload_inv (with_end e s).
Proof. intros [????]. by split. Qed.

Lemma upload_inv_stable : stable upload_inv upload_ended.
Proof.
  split.
  - intros s [????]. by split.
  - intros s _. apply upload_inv_trap.
  - intros s Hs. split; [intros _; by apply upload_inv_end|done].
Qed.

Lemma plain_inv_stable : stable plain_inv upload_ended.
Proof.
  split.
  - intros s Hs Hplain. by apply (stable_next _ _ upload_inv_stable), Hs.
  - intros s _ Hs Hplain. by apply upload_inv_trap, Hs.
  - intros s Hs. split; [intros Hplain; by apply upload_inv_end, Hs|done].
Qed.

(** The phases of the script: the invariant and what is known on top of it. *)
Definition phase (X : Shell → Prop) (s : Shell) : Prop := upload_inv s ∧ X s.

Lemma phase_stable X :
  (∀ s, X s → X (next_step s))
  → (∀ s, sh_trap s ≠ None → sh_vars s !! "tmp" = Some upload_temp → X s → X (with_fs (delete upload_temp (sh_fs s)) s))
  → stable (phase X) upload_ended.
Proof.
  intros Hn Ht. split.
  - intros s [Hi HX]. split; [by apply (stable_next _ _ upload_inv_stable)|auto].
  - intros s Htr [Hi HX]. split; [by apply upload_inv_trap|].
    destruct (trap_fs s (inv_var s Hi) (inv_trap s Hi)) as [-> | [Hv ->]]; [by destruct s|auto].
  - intros s [Hi _]. by apply (stable_kill _ _ upload_inv_stable).
Qed.

(** Nothing was received yet. *)
Definition waiting (trap : option string) (s : Shell) : Prop :=
  sh_fs s !! path = fs0 !! path ∧ sh_stdin s = payload ∧ sh_stdout s = "" ∧ sh_trap s = trap
  ∧ (trap = None → sh_fs s !! upload_temp = fs0 !! upload_temp).

Definition quiet (s : Shell) : Prop :=
  sh_fs s !! path = fs0 !! path ∧ sh_stdout s = "" ∧ sh_trap s = Some "tmp".

(** The temporary file was written, with permissions of which [M] holds; a signal may
    have removed it. *)
Definition holds_payload (M : Z → Prop) (s : Shell) : Prop :=
  sh_vars s !! "tmp" = Some upload_temp
  ∧ (sh_fs s !! upload_temp = None ∨ ∃ m, sh_fs s !! upload_temp = Some (RFile payload m) ∧ M m).

Definition received (s : Shell) : Prop := quiet s ∧ holds_payload (λ m, m = mode) s.

Definition value (v : string) (s : Shell) : string := default "" (sh_vars s !! v).

Lemma delete_temp_path (fs : RemoteFS) : delete upload_temp fs !! path = fs !! path.
Proof. apply lookup_delete_ne, temp_not_path. Qed.

Lemma waiting_stable tr : stable (phase (waiting tr)) upload_ended.
Proof.
  apply phase_stable; [done|]. intros s Htr _ (? & ? & ? & Ht & _). split_and!; cbn; try done.
  - by rewrite delete_temp_path.
  - congruence.
Qed.

Lemma quiet_delete s : quiet s → quiet (with_fs (delete upload_temp (sh_fs s)) s).
Proof. intros (?&?&?). split_and!; cbn; try done. by rewrite delete_temp_path. Qed.

Lemma holds_delete M s : holds_payload M s → holds_payload M (with_fs (delete upload_temp (sh_fs s)) s).
Proof. intros [? _]. split; [done|]. left. cbn. apply lookup_delete_eq. Qed.

(** ** One command at a time *)

Lemma inv_with_var x v s : x ≠ "tmp" → upload_inv s → upload_inv (with_var x v s).
Proof. intros Hx [????]. split; cbn; rewrite ?lookup_insert_ne by done; done. Qed.

Lemma inv_with_status z s : upload_inv s → upload_inv (with_status z s).
Proof. intros [????]. by split. Qed.

Lemma inv_no_stdin s : upload_inv s → upload_inv (no_more_stdin s).
Proof. intros [????]. by split. Qed.

Lemma inv_print l s : upload_inv s → upload_inv (print_line l s).
Proof. intros [????]. by split. Qed.

(** The temporary file is written only when the trap knows it. *)
Lemma inv_write_temp n s :
  n ≠ RDir → sh_trap s = Some "tmp" → sh_vars s !! "tmp" = Some upload_temp
  → upload_inv s → upload_inv (with_fs (<[upload_temp := n]> (sh_fs s)) s).
Proof.
  intros Hn Htr Hv [Hf Hp ???]. split; cbn; [| |done..|].
  - intros q ???. rewrite lookup_insert_ne; auto.
  - unfold published. cbn. rewrite lookup_insert_ne; [done|]. apply temp_not_path.
  - right. right. split_and!; [done..|]. rewrite lookup_insert_eq. congruence.
Qed.

Lemma inv_dirs ds s :
  (∀ q, q ∈ ds → q ∈ upload_dirs) → upload_inv s → upload_inv (with_fs (default (sh_fs s) (make_all ds (sh_fs s))) s).
Proof.
  intros Hds Hs. unfold make_all. destruct (existsb _ _); [by destruct s|]. cbn [default from_option id].
  assert (Hother : ∀ q, q ∉ ds → foldr (λ p (fs : RemoteFS), <[p := RDir]> fs) (sh_fs s) ds !! q = sh_fs s !! q).
  { intros q Hq. clear Hds. induction ds as [|d ds IH]; [done|]. cbn. apply not_elem_of_cons in Hq as [??].
    rewrite lookup_insert_ne by done. auto. }
  destruct Hs as [Hf Hp ???]. split; cbn; [|unfold published; cbn| |..]; try done.
  - intros q Hq1 Hq2 Hq3. rewrite Hother; [auto|]. intros Hin. by apply Hq3, Hds.
  - rewrite Hother; [done|]. intros Hin. by apply path_not_dir, Hds.
  - rewrite Hother; [done|]. intros Hin. by apply temp_not_dir, Hds.
Qed.

Lemma runs_mismatch (P Q : Shell → Prop) :
  (∀ s, P s → upload_inv s) → runs_sh mismatch P Q upload_ended.
Proof.
  intros HP. apply runs_group. apply runs_seq with upload_inv.
  - eapply runs_weaken; [exact HP|by intros s Hs; exact Hs|]. run_do; [apply upload_inv_stable| |].
    + intros s He Hs. unfold after. cbn. rewrite He. by apply inv_with_status, inv_print.
    + intros _ s z n He Hs. unfold after. cbn. rewrite He. by apply inv_with_status.
  - apply runs_exit; [apply upload_inv_stable|]. intros s Hs. split; [intros _; by apply upload_inv_end|done].
Qed.

Lemma runs_exit_inv n (P Q : Shell → Prop) :
  n ≠ 0%Z → stable P upload_ended → (∀ s, P s → plain_inv s) → runs_sh (Do (Exit n)) P Q upload_ended.
Proof.
  intros Hn Hst HP. apply runs_exit; [done|]. intros s Hs. split; [intros Hplain; by apply upload_inv_end, HP|]. cbn. congruence.
Qed.

(** ** The parents and the temporary name *)

Definition fresh (s : Shell) : Prop := waiting None s ∧ sh_vars s !! "tmp" = None.

Lemma fresh_stable : stable (phase fresh) upload_ended.
Proof.
  apply phase_stable; [done|]. intros s Htr _ [(_ & _ & _ & Ht & _) _]. congruence.
Qed.

Lemma fresh_with s s' :
  sh_fs s' !! path = sh_fs s !! path → sh_fs s' !! upload_temp = sh_fs s !! upload_temp
  → sh_stdin s' = sh_stdin s → sh_stdout s' = sh_stdout s → sh_trap s' = sh_trap s → sh_vars s' = sh_vars s
  → fresh s → fresh s'.
Proof.
  intros Hp Ht Hi Ho Htr Hv [(?&?&?&?&?) ?]. unfold fresh, waiting. rewrite Hp, Ht, Hi, Ho, Htr, Hv. done.
Qed.

Definition killed_sub (s : Shell) : Prop :=
  upload_inv s ∧ sh_fs s !! upload_temp = fs0 !! upload_temp ∧ sh_end s = Some Killed.

Lemma fresh_sub_stable : stable (phase fresh) killed_sub.
Proof.
  destruct fresh_stable as [Hn Ht _]. split; [done..|]. intros s Hs.
  split_and!; [by apply upload_inv_end, Hs| |done]. destruct Hs as [_ [(_&_&_&_&Htmp) _]]. by apply Htmp.
Qed.

Lemma phase_fresh_status z s : phase fresh s → phase fresh (with_status z s).
Proof. intros [Hi Hf]. split; [by apply inv_with_status|]. by apply (fresh_with s). Qed.

Lemma phase_fresh_dirs ds s :
  (∀ q, q ∈ ds → q ∈ upload_dirs) → phase fresh s
  → phase fresh (with_fs (default (sh_fs s) (make_all ds (sh_fs s))) s).
Proof.
  intros Hds [Hi Hf]. split; [by apply inv_dirs|].
  unfold make_all. destruct (existsb _ _); [by destruct s|]. cbn [default from_option id].
  assert (Hother : ∀ q, q ∉ ds → foldr (λ p (fs : RemoteFS), <[p := RDir]> fs) (sh_fs s) ds !! q = sh_fs s !! q).
  { intros q Hq. clear Hds. induction ds as [|d ds IH]; [done|]. cbn. apply not_elem_of_cons in Hq as [??].
    rewrite lookup_insert_ne by done. auto. }
  apply (fresh_with s); cbn; try done; apply Hother; intros Hin; apply Hds in Hin.
  - by apply path_not_dir.
  - by apply temp_not_dir.
Qed.

Lemma runs_make_parents dm :
  runs_sh (Sub (Seq (Do (Umask dm)) (Do (Mkdir true (RemoteParentDir path))))) (phase fresh) (phase fresh) upload_ended.
Proof.
  apply (runs_sub _ _ _ _ _ _ _ _ (phase fresh) (phase fresh) killed_sub).
  - intros o [[Hfr Hpa Hva Htp Hte] Hf]. pose proof Hf as [(?&?&?&Htr&Ht) ?]. split; [|by apply (fresh_with o)].
    split; cbn; [done|done|done|by left|]. left. by apply Ht.
  - apply runs_seq with (phase fresh).
    + run_do; [apply fresh_sub_stable| |done]. intros s He Hs. unfold after. cbn. rewrite He.
      apply phase_fresh_status. destruct Hs as [[] Hf]. split; [by split|]. by apply (fresh_with s).
    + run_do; [apply fresh_sub_stable| |].
      * intros s He Hs. unfold after. cbn. unfold succeed, make_dirs.
        destruct (make_all _ _) eqn:Em; cbn; rewrite He; apply phase_fresh_status; [|done].
        pose proof (phase_fresh_dirs (path_prefixes (RemoteParentDir path)) s ltac:(done) Hs) as Hd. by rewrite Em in Hd.
      * intros _ s z n He Hs. unfold after. cbn. rewrite He. apply phase_fresh_status, phase_fresh_dirs; [|done].
        intros q Hq. unfold upload_dirs. rewrite <- (take_drop n (path_prefixes _)). apply elem_of_app. by left.
  - intros o s Ho [_ [(?&?&?&Htr&?) ?]] He [Hi Hf]. pose proof Hf as [(?&?&?&Htrs&?) ?]. destruct Hi.
    unfold leave_subshell. cbn. rewrite He. split.
    + split; cbn; try done; [by left|by left|]. left. auto.
    + split; [split_and!|]; cbn; done.
  - intros o s Ho [_ [(?&?&?&Htr&?) Hv]] He (Hi & Ht & Hk). destruct Hi. unfold leave_subshell. cbn. rewrite Hk.
    unfold after. cbn. rewrite Hk. split; [|cbn; congruence].
    split; cbn; try done; by left.
Qed.

Lemma runs_temp_assignment dm :
  runs_sh (temp_assignment path dm) (phase fresh) (phase (waiting None)) upload_ended.
Proof.
  assert (Hassign : ∀ P : Shell → Prop, stable P upload_ended → (∀ s, P s → phase fresh s) →
    runs_sh (Do (AssignTemp "tmp" path ".ssm-upload")) P (phase (waiting None)) upload_ended).
  { intros P HP Himp. run_do; [done| |done]. intros s He Hs. apply Himp in Hs as [Hi [Hw Hv]]. unfold after. cbn. rewrite He.
    pose proof Hw as (?&?&?&Htr&Ht). destruct Hi. split; [|by split_and!].
    split; cbn; try done; rewrite ?lookup_insert_eq; [by right|]. left. auto. }
  unfold temp_assignment. destruct (bool_decide _).
  - eapply runs_and; [apply runs_make_parents| |].
    + apply Hassign; [apply stable_succeeds, fresh_stable|]. by intros s [_ Hs].
    + by intros s [_ [Hi [Hw _]]].
  - apply Hassign; [apply fresh_stable|done].
Qed.

(** ** Receiving the payload *)

Definition perhaps_received (M : Z → Prop) (s : Shell) : Prop :=
  quiet s ∧ (sh_status s = 0%Z → holds_payload M s).

Lemma perhaps_received_stable M : stable (phase (perhaps_received M)) upload_ended.
Proof.
  apply phase_stable; [done|]. intros s Htr _ [Hq Hh]. split; [by apply quiet_delete|].
  intros H0. apply holds_delete. by apply Hh.
Qed.

Lemma quiet_write_temp n s : quiet s → quiet (with_fs (<[upload_temp := n]> (sh_fs s)) s).
Proof.
  intros (?&?&?). split_and!; cbn; try done. rewrite lookup_insert_ne; [done|apply temp_not_path].
Qed.

Lemma quiet_status z s : quiet s → quiet (with_status z s).
Proof. done. Qed.

(** Writing to the temporary file, or to nothing. *)
Lemma write_temp s data fs' :
  upload_inv s → write_file s (arg_value s (Var "tmp")) data = Some fs' →
  sh_vars s !! "tmp" = Some upload_temp ∧ ∃ m, fs' = <[upload_temp := RFile data m]> (sh_fs s).
Proof.
  intros Hi. unfold write_file, arg_value. destruct (inv_var s Hi) as [-> | ->]; cbn [default from_option id].
  - rewrite bool_decide_true by done. done.
  - case_bool_decide; [done|]. destruct (sh_fs s !! upload_temp) as [[c m|]|]; intros [= <-]; eauto.
Qed.

Lemma runs_cat :
  runs_sh (Do (CatInto (Var "tmp"))) (phase (waiting (Some "tmp"))) (phase (perhaps_received (λ _, True))) upload_ended.
Proof.
  assert (Hquiet : ∀ s, waiting (Some "tmp") s → quiet s) by (intros s (?&?&?&?&?); by split_and!).
  run_do; [apply waiting_stable| |].
  - intros s He [Hi Hw]. pose proof (Hquiet _ Hw) as Hq. pose proof Hw as (?&Hin&?&Htr&?). unfold after. cbn. unfold succeed.
    destruct (write_file _ _ _) as [fs'|] eqn:Hwr; cbn; rewrite He.
    + apply write_temp in Hwr as [Hv [m ->]]; [|done]. split.
      * apply inv_with_status, (inv_write_temp _ (no_more_stdin s)); [done..|]. by apply inv_no_stdin.
      * split; [by apply quiet_status, (quiet_write_temp _ (no_more_stdin s))|]. intros _.
        split; [done|]. right. exists m. cbn. by rewrite lookup_insert_eq, Hin.
    + split; [by apply inv_with_status, inv_no_stdin|]. by split.
  - intros _ s z n He [Hi Hw]. pose proof (Hquiet _ Hw) as Hq. pose proof Hw as (?&Hin&?&Htr&?). unfold after. cbn. rewrite He.
    destruct (write_file _ _ _) as [fs'|] eqn:Hwr; cbn [default from_option id].
    + apply write_temp in Hwr as [Hv [m ->]]; [|done]. split.
      * apply inv_with_status. apply (inv_write_temp _ (no_more_stdin s)); [done..|]. by apply inv_no_stdin.
      * split; [by apply quiet_status, (quiet_write_temp _ (no_more_stdin s))|]. cbn. case_bool_decide; lia.
    + split; [destruct Hi; by split|]. split; [done|]. cbn. case_bool_decide; lia.
Qed.

Lemma runs_chmod :
  runs_sh (Do (Chmod mode (Var "tmp"))) (succeeds (phase (perhaps_received (λ _, True))))
    (phase (perhaps_received (λ m, m = mode))) upload_ended.
Proof.
  run_do; [apply stable_succeeds, perhaps_received_stable| |].
  - intros s He [H0 [Hi [Hq Hh]]]. destruct (Hh H0) as [Hv Ht]. unfold after. cbn. unfold arg_value. rewrite Hv.
    cbn [default from_option id]. destruct Ht as [-> | (m & -> & _)]; cbn; rewrite He.
    + split; [by apply inv_with_status|]. split; [done|]. cbn. lia.
    + split; [apply inv_with_status; apply inv_write_temp; [done|by destruct Hq as (?&?&?)|done..]|].
      split; [by apply quiet_status, quiet_write_temp|]. intros _. split; [done|]. right. exists mode. cbn.
      by rewrite lookup_insert_eq.
  - intros _ s z n He [H0 [Hi [Hq Hh]]]. unfold after. cbn. rewrite He.
    split; [by apply inv_with_status|]. split; [done|]. cbn. case_bool_decide; lia.
Qed.

Lemma received_stable : stable (phase received) upload_ended.
Proof.
  apply phase_stable; [done|]. intros s Htr _ [Hq Hh]. split; [by apply quiet_delete|by apply holds_delete].
Qed.

Lemma runs_receive :
  runs_sh (Or (And (Do (CatInto (Var "tmp"))) (Do (Chmod mode (Var "tmp")))) (Do ExitStatus))
    (phase (waiting (Some "tmp"))) (phase received) upload_ended.
Proof.
  apply runs_or with (phase (perhaps_received (λ m, m = mode))).
  - eapply runs_and; [apply runs_cat|apply runs_chmod|].
    intros s [H0 [Hi [Hq Hh]]]. split; [done|]. split; [done|]. intros H1. by destruct (H0 H1).
  - run_do; [apply stable_fails, perhaps_received_stable| |done].
    intros s He [H0 [Hi _]]. unfold after. cbn. split; [intros _; by apply upload_inv_end|]. cbn. congruence.
  - intros s [H0 [Hi [Hq Hh]]]. split; [done|]. split; auto.
Qed.

Lemma runs_set_trap : runs_sh (Do (TrapRemove "tmp")) (phase (waiting None)) (phase (waiting (Some "tmp"))) upload_ended.
Proof.
  run_do; [apply waiting_stable| |done]. intros s He [[Hf Hp Hv Ht Hte] (?&?&?&Htr&Htmp)].
  unfold after. cbn. rewrite He. split; [|by split_and!].
  split; cbn; try done; [by right|]. left. auto.
Qed.

(** ** Checking the payload *)

(** What the variables and the status say once the file was received. *)
Definition knows (V : Shell → Prop) (s : Shell) : Prop := received s ∧ V s.

Definition from_vars (V : Shell → Prop) : Prop := ∀ s s', sh_vars s' = sh_vars s → V s → V s'.

Lemma knows_stable V :
  (∀ s s', sh_vars s' = sh_vars s → sh_status s' = sh_status s → V s → V s') → stable (phase (knows V)) upload_ended.
Proof.
  intros HV. apply phase_stable.
  - intros s [Hr Hs]. split; [done|]. by apply (HV s).
  - intros s Htr _ [[Hq Hh] Hs]. split; [split; [by apply quiet_delete|by apply holds_delete]|]. by apply (HV s).
Qed.

Definition measured (s : Shell) : Prop :=
  value "actual_size" s = "" ∨ value "actual_size" s = pretty (Z.of_nat (length payload)).
(** What [wc] counted, compared with the length that was given. *)
Definition size_word (w : string) : Prop :=
  (w = "" ∨ w = pretty (Z.of_nat (length payload))) ∧ ((0 ≤ size)%Z → w = pretty size ∧ Z.of_nat (length payload) = size).
Definition right_size (s : Shell) : Prop := size_word (value "actual_size" s).
Definition hashed (s : Shell) : Prop :=
  right_size s ∧ (value "actual_sha" s = "" ∨ value "actual_sha" s = digest_of payload).
Definition receipt_digest : string := if bool_decide (digest = "") then "-" else digest.
Definition right_digest (s : Shell) : Prop :=
  right_size s ∧ value "actual_sha" s = receipt_digest ∧ (digest ≠ "" → digest_of payload = digest).

Lemma received_with_var x v s : x ≠ "tmp" → received s → received (with_var x v s).
Proof. intros Hx [Hq [Hv Ht]]. split; [done|]. split; [|done]. cbn. by rewrite lookup_insert_ne. Qed.

Lemma received_temp s : received s → sh_vars s !! "tmp" = Some upload_temp
  ∧ (sh_fs s !! upload_temp = None ∨ sh_fs s !! upload_temp = Some (RFile payload mode)).
Proof. intros [_ [Hv Ht]]. split; [done|]. destruct Ht as [?|(m & ? & ->)]; auto. Qed.

Lemma arg_value_vars s s' a : sh_vars s' = sh_vars s → arg_value s' a = arg_value s a.
Proof. intros Hv. unfold arg_value. by rewrite Hv. Qed.

(** A check: the commands after it know that it held. *)
Lemma upload_check (P V : Shell → Prop) a b :
  from_vars V → (∀ s, P s → phase (knows V) s) → stable P upload_ended →
  runs_sh (Or (Do (TestEq a b)) mismatch) P
    (phase (knows (λ s, V s ∧ arg_value s a = arg_value s b))) upload_ended.
Proof.
  intros HV HP Hst. set (W := λ s, V s ∧ (sh_status s = 0%Z → arg_value s a = arg_value s b)).
  apply runs_or with (phase (knows W)).
  - run_do; [done| |done]. intros s He Hs. apply HP in Hs as [Hi [Hr HVs]]. unfold after. cbn. rewrite He.
    split; [by apply inv_with_status|]. split; [done|]. split; [by apply (HV s)|].
    cbn. case_bool_decide as Heq; [intros _; exact Heq|done].
  - apply runs_mismatch. by intros s [_ [Hi _]].
  - intros s [H0 [Hi [Hr [HVs Heq]]]]. split; [done|]. split; [done|]. auto.
Qed.

(** [v=$(...) || exit 74] *)
Lemma runs_assign_or_exit c (P V : Shell → Prop) :
  from_vars V → stable P upload_ended → stable (phase (knows V)) upload_ended
  → runs_sh (Do c) P (phase (λ s, sh_status s = 0%Z → knows V s)) upload_ended
  → stable (phase (λ s, sh_status s = 0%Z → knows V s)) upload_ended
  → runs_sh (Or (Do c) (Do (Exit 74))) P (phase (knows V)) upload_ended.
Proof.
  intros HV HP Hk Hc Hst. eapply runs_or; [exact Hc| |].
  - apply runs_exit_inv; [done|by apply stable_fails|]. by intros s [_ [? _]] _.
  - intros s [H0 [Hi Hs]]. split; auto.
Qed.

Lemma runs_size : runs_sh (Or (Do (AssignSize "actual_size" (Var "tmp"))) (Do (Exit 74)))
  (phase received) (phase (knows measured)) upload_ended.
Proof.
  assert (HV : from_vars measured) by (intros s s' Hv; unfold measured, value; by rewrite Hv).
  apply runs_assign_or_exit; [done|apply received_stable|apply knows_stable; intros ??? _; by apply HV| |].
  - run_do; [apply received_stable| |].
    + intros s He [Hi Hr]. unfold after. cbn. rewrite He. split; [by apply inv_with_status, inv_with_var|]. intros _.
      split; [by apply (received_with_var "actual_size")|]. unfold measured, value. cbn. rewrite lookup_insert_eq.
      destruct (received_temp s Hr) as [-> [Hf|Hf]]; cbn; rewrite Hf; auto.
    + intros _ s z n He [Hi Hr]. unfold after. cbn. destruct (n =? 0); cbn; rewrite He.
      * split; [by apply inv_with_status|]. cbn. case_bool_decide; lia.
      * split; [by apply inv_with_status, inv_with_var|]. intros _.
        split; [by apply (received_with_var "actual_size")|]. left. unfold value. cbn. by rewrite lookup_insert_eq.
  - apply phase_stable; [done|]. intros s Htr Hv Hs H0. destruct (Hs H0) as [[Hq Hh] HVs].
    split; [split; [by apply quiet_delete|by apply holds_delete]|]. by apply (HV s).
Qed.


Lemma runs_size_check (P : Shell → Prop) :
  stable P upload_ended → (∀ s, P s → phase (knows measured) s) →
  runs_sh (Or (Do (TestEq (Var "actual_size") (Plain (pretty size)))) mismatch) P (phase (knows right_size)) upload_ended.
Proof.
  intros Hst HP. eapply runs_weaken; [by intros s Hs; exact Hs| |apply (upload_check P measured); [|exact HP|done]].
  - intros s [Hi [Hr [Hm Heq]]]. split; [done|]. split; [done|]. cbn in Heq. unfold right_size, size_word.
    split; [exact Hm|]. intros _. split; [exact Heq|]. destruct Hm as [Hm|Hm]; unfold value in Hm; rewrite Hm in Heq.
    + by destruct (pretty_Z_not_empty size).
    + by apply (inj pretty) in Heq.
  - intros s s' Hv. unfold measured, value. by rewrite Hv.
Qed.

Lemma runs_digest : runs_sh (Or (Do (AssignDigest "actual_sha" (Var "tmp"))) (Do (Exit 74)))
  (phase (knows right_size)) (phase (knows hashed)) upload_ended.
Proof.
  assert (HV : from_vars hashed) by (intros s s' Hv; unfold hashed, right_size, value; by rewrite Hv).
  assert (Hst : stable (phase (knows right_size)) upload_ended).
  { apply knows_stable. intros s s' Hv _. unfold right_size, value. by rewrite Hv. }
  assert (Hset : ∀ w s, (w = "" ∨ w = digest_of payload) → right_size s → hashed (with_status 0 (with_var "actual_sha" w s))).
  { intros w s Hw. unfold hashed, right_size, value. cbn. rewrite lookup_insert_eq, lookup_insert_ne by done. auto. }
  apply runs_assign_or_exit; [done|done|apply knows_stable; intros ??? _; by apply HV| |].
  - run_do; [done| |].
    + intros s He [Hi [Hr Hs]]. unfold after. cbn. destruct sha_tool; cbn; rewrite He.
      * split; [by apply inv_with_status, inv_with_var|]. intros _.
        split; [by apply (received_with_var "actual_sha")|]. apply Hset; [|done].
        destruct (received_temp s Hr) as [-> [Hf|Hf]]; cbn; rewrite Hf; auto.
      * split; [by apply inv_with_status|]. cbn. lia.
    + intros _ s z n He [Hi [Hr Hs]]. unfold after. cbn. destruct (n =? 0); cbn; rewrite He.
      * split; [by apply inv_with_status|]. cbn. case_bool_decide; lia.
      * split; [by apply inv_with_status, inv_with_var|]. intros _.
        split; [by apply (received_with_var "actual_sha")|]. apply Hset; auto.
  - apply phase_stable; [done|]. intros s Htr Hv Hs H0. destruct (Hs H0) as [[Hq Hh] HVs].
    split; [split; [by apply quiet_delete|by apply holds_delete]|]. by apply (HV s).
Qed.

Lemma right_digest_vars : from_vars right_digest.
Proof. intros s s' Hv. unfold right_digest, right_size, value. by rewrite Hv. Qed.

Lemma right_size_stable : stable (phase (knows right_size)) upload_ended.
Proof. apply knows_stable. intros s s' Hv _. unfold right_size, value. by rewrite Hv. Qed.
Lemma hashed_stable : stable (phase (knows hashed)) upload_ended.
Proof. apply knows_stable. intros s s' Hv _. unfold hashed, right_size, value. by rewrite Hv. Qed.
Lemma right_digest_stable : stable (phase (knows right_digest)) upload_ended.
Proof. apply knows_stable. intros s s' Hv _. by apply right_digest_vars. Qed.

Lemma runs_digest_check : runs_sh (seq_all (digest_check digest)) (phase (knows right_size)) (phase (knows right_digest)) upload_ended.
Proof.
  unfold digest_check. case_bool_decide as Hd; cbn [seq_all].
  - apply runs_seq with (phase (knows hashed)); [apply runs_digest|].
    eapply runs_weaken; [by intros s Hs; exact Hs| |apply (upload_check (phase (knows hashed)) hashed); [|done|apply hashed_stable]].
    + intros s [Hi [Hr [[Hz Hm] Heq]]]. split; [done|]. split; [done|]. cbn in Heq. split; [done|].
      unfold receipt_digest, value in *. rewrite bool_decide_false by done. split; [done|]. intros _.
      destruct Hm as [Hm|Hm]; congruence.
    + intros s s' Hv. unfold hashed, right_size, value. by rewrite Hv.
  - destruct (decide (digest = "")) as [Hempty|Hempty]; [|by destruct Hd].
    run_do; [apply right_size_stable| |done]. intros s He [Hi [Hr Hz]]. unfold after. cbn. rewrite He.
    split; [by apply inv_with_status, inv_with_var|]. split; [by apply (received_with_var "actual_sha")|].
    unfold right_digest, right_size, value, receipt_digest in *. cbn.
    rewrite lookup_insert_eq, lookup_insert_ne by done. rewrite bool_decide_true by done.
    split_and!; [exact Hz|done|done].
Qed.

(** ** Publishing *)

Definition ready (s : Shell) : Prop := right_digest s ∧ fs0 !! path ≠ Some RDir.

Lemma ready_stable : stable (phase (knows ready)) upload_ended.
Proof. apply knows_stable. intros s s' Hv _ [Hr ?]. split; [by apply (right_digest_vars s)|done]. Qed.

Lemma runs_remove_temp : runs_sh (Do (RemoveFile (Var "tmp"))) upload_inv upload_inv upload_ended.
Proof.
  run_do; [apply upload_inv_stable| |].
  - intros s He Hi. unfold after. cbn. unfold succeed. destruct (remove _ _) as [fs'|] eqn:Hrm; cbn; rewrite He;
      apply inv_with_status; [|done].
    destruct Hi as [Hf Hp Hv Ht Htmp]. unfold arg_value in Hrm.
    assert (fs' = sh_fs s ∨ fs' = delete upload_temp (sh_fs s)) as [-> | ->].
    { revert Hrm. unfold remove. destruct Hv as [-> | ->]; cbn [default from_option id];
        (destruct (is_directory _ _); [done|]); case_bool_decide; try done; intros [= <-]; auto. }
    { by split. }
    split; cbn; [| |done..|].
    + intros q ???. rewrite lookup_delete_ne; auto.
    + unfold published. cbn. by rewrite delete_temp_path.
    + right. left. apply lookup_delete_eq.
  - intros _ s z n He Hi. unfold after. cbn. rewrite He. by apply inv_with_status.
Qed.

Lemma runs_directory_guard :
  runs_sh (And (Do (TestDir (Quoted path)))
     (Group (Seq (Do (RemoveFile (Var "tmp"))) (Seq (Do (EchoDirectory path)) (Do (Exit 73))))))
    (phase (knows right_digest)) (phase (knows ready)) upload_ended.
Proof.
  set (W := λ s, right_digest s ∧ (sh_status s ≠ 0%Z → fs0 !! path ≠ Some RDir)).
  apply runs_and with (phase (knows W)).
  - run_do; [apply right_digest_stable| |done]. intros s He [Hi [Hr Hd]]. unfold after. cbn. rewrite He.
    split; [by apply inv_with_status|]. split; [done|]. split; [by apply (right_digest_vars s)|].
    cbn. unfold is_directory. destruct Hr as [(Hold & _) _]. rewrite Hold. by case_bool_decide.
  - apply runs_group. eapply runs_weaken with (P' := upload_inv); [by intros s [_ [? _]]|by intros s Hs; exact Hs|].
    eapply runs_seq; [apply runs_remove_temp|]. apply runs_seq with plain_inv.
    + apply runs_echo_directory; [apply upload_inv_stable| |].
      * intros s z He Hi. unfold after. cbn. rewrite He. intros _. by apply inv_with_status.
      * intros Hname. assert (Hany : ∀ s, plain_inv s) by (intros s Hplain; congruence).
        split; [done|]. intros s He. split; [done|]. congruence.
    + apply runs_exit_inv; [done|apply plain_inv_stable|done].
  - intros s [H0 [Hi [Hr [Hd Hn]]]]. split; [done|]. split; [done|]. split; auto.
Qed.

(** After the move: published, if it succeeded. *)
Definition moved (s : Shell) : Prop :=
  sh_stdout s = "" ∧ size_word (value "actual_size" s) ∧ value "actual_sha" s = receipt_digest
  ∧ (sh_status s = 0%Z → published s ∧ sh_fs s !! upload_temp = None).

Lemma moved_stable : stable (phase moved) upload_ended.
Proof.
  apply phase_stable; [done|]. intros s Htr Hv (Ho & Hz & Hd & Hm). split_and!; [done..|].
  intros H0. destruct (Hm H0) as [[Hp Ha] Ht]. split; [split; [|done]; cbn; by rewrite delete_temp_path|].
  cbn. apply lookup_delete_eq.
Qed.

Lemma runs_move : runs_sh (Do (Move (Var "tmp") (Quoted path))) (phase (knows ready)) (phase moved) upload_ended.
Proof.
  run_do; [apply ready_stable| |].
  - intros s He [Hi [Hr [[Hz [Hd Hdig]] Hdir]]]. pose proof Hr as [(Hold & Ho & Htr) _].
    assert (Hnodir : is_directory (sh_fs s) path = false) by (unfold is_directory; rewrite Hold; by apply bool_decide_false).
    unfold after. cbn. unfold succeed, move, arg_value. destruct (received_temp s Hr) as [-> Ht]. cbn [default from_option id].
    destruct Ht as [-> | ->].
    + cbn. rewrite He. split; [by apply inv_with_status|]. split_and!; [done..|]. cbn. lia.
    + rewrite Hnodir. rewrite bool_decide_false by (intros E; by apply temp_not_path). cbn. rewrite ?Hnodir. cbn. rewrite He.
      assert (Hpub : published (with_status 0 (with_fs (<[path:=RFile payload mode]> (delete upload_temp (sh_fs s))) s))).
      { split; [cbn; by rewrite lookup_insert_eq|]. split_and!; [|done..]. intros Hge. by apply Hz. }
      split; [|split_and!; try done; intros _; split; [done|]; cbn].
      * destruct Hi as [Hf Hp Hv Ht Htmp]. split; cbn; try done.
        -- intros q ???. rewrite lookup_insert_ne, lookup_delete_ne by done. auto.
        -- by right.
        -- right. left. rewrite lookup_insert_ne by (intros E; by apply temp_not_path). apply lookup_delete_eq.
      * rewrite lookup_insert_ne by (intros E; by apply temp_not_path). apply lookup_delete_eq.
  - intros _ s z n He [Hi [Hr [[Hz [Hd Hdig]] Hdir]]]. pose proof Hr as [(Hold & Ho & Htr) _].
    unfold after. cbn. rewrite He. split; [by apply inv_with_status|]. split_and!; [done..|]. cbn. case_bool_decide; lia.
Qed.

Lemma runs_reset_trap : runs_sh (Do TrapReset) (succeeds (phase moved)) (phase moved) upload_ended.
Proof.
  run_do; [apply stable_succeeds, moved_stable| |done].
  intros s He [H0 [[] (Ho & Hz & Hd & Hm)]]. unfold after. cbn. rewrite He. destruct (Hm H0) as [Hp Ht].
  split; [|by split_and!]. split; cbn; try done; [by left|]. by right; left.
Qed.

Definition receipt_of (w : string) : string := "SSM_TRANSFER" +:+ " " +:+ w +:+ " " +:+ receipt_digest +:+ LF.
Definition upload_receipt : string := receipt_of (pretty size).
(** The receipt says what was counted. *)
Definition receipted (s : Shell) : Prop := ∃ w, size_word w ∧ sh_stdout s = receipt_of w.
Definition complete (s : Shell) : Prop := sh_status s = 0%Z → published s ∧ receipted s.

Lemma runs_print_receipt :
  runs_sh (Do (PrintTwo "SSM_TRANSFER" (Var "actual_size") (Var "actual_sha"))) (succeeds (phase moved)) (phase complete)
    upload_ended.
Proof.
  run_do; [apply stable_succeeds, moved_stable| |].
  - intros s He [H0 [Hi (Ho & Hz & Hd & Hm)]]. unfold after. cbn. rewrite He. destruct (Hm H0) as [Hp Ht].
    split; [by apply inv_with_status, inv_print|]. intros _. split; [done|]. exists (value "actual_size" s). split; [exact Hz|].
    cbn. unfold value in *. rewrite Hd, Ho. unfold receipt_of. same_text.
  - intros _ s z n He [H0 [Hi _]]. unfold after. cbn. rewrite He. split; [by apply inv_with_status|].
    unfold complete. cbn. case_bool_decide; lia.
Qed.

Lemma runs_publish : runs_sh (seq_all (publish_file path)) (phase (knows right_digest)) (phase complete) upload_ended.
Proof.
  unfold publish_file. cbn [seq_all]. eapply runs_seq; [apply runs_directory_guard|].
  eapply runs_and; [eapply runs_and; [apply runs_move|apply runs_reset_trap|by intros s [_ Hs]]|apply runs_print_receipt|].
  intros s [H0 [Hi _]]. by split.
Qed.

(** ** The whole script *)

Lemma fresh_do c :
  (∀ s, run_simple pid sha_tool stale c s = with_status (sh_status (run_simple pid sha_tool stale c s)) s
        ∨ ∃ m, run_simple pid sha_tool stale c s = with_status 0 (with_umask m s)) →
  (∀ s z n, fail_simple c z n s = with_status (sh_status (fail_simple c z n s)) s) →
  expands c = false →
  runs_sh (Do c) (phase fresh) (phase fresh) upload_ended.
Proof.
  intros Hrun Hfail Hdata. run_do; [apply fresh_stable| |].
  - intros s He Hs. unfold after. destruct (Hrun s) as [-> | [m ->]]; cbn; rewrite He; apply phase_fresh_status; [done|].
    destruct Hs as [[] Hf]. split; [by split|]. by apply (fresh_with s).
  - intros _ s z n He Hs. unfold after. rewrite Hfail. cbn. rewrite He. by apply phase_fresh_status.
Qed.

Lemma runs_tool_check : runs_sh (tool_check (Plain integrityToolMissingMarker)) (phase fresh) (phase fresh) upload_ended.
Proof.
  unfold tool_check. apply runs_or with (phase fresh).
  - apply fresh_do; [intros s; left| |]; done.
  - apply runs_group. apply runs_seq with upload_inv.
    + eapply runs_weaken with (P' := upload_inv); [by intros s [_ [? _]]|by intros s Hs; exact Hs|].
      run_do; [apply upload_inv_stable| |]; intros; unfold after; cbn; match goal with H : sh_end _ = None |- _ => rewrite H end.
      * by apply inv_with_status, inv_print.
      * by apply inv_with_status.
    + apply runs_exit_inv; [done|apply upload_inv_stable|by intros s Hs _].
  - by intros s [_ Hs].
Qed.

(** The length is checked when it was given, and the digest after it. *)
Lemma runs_checks :
  runs_sh (seq_all (size_check size ++ digest_check digest)) (phase (knows measured)) (phase (knows right_digest)) upload_ended.
Proof.
  assert (Hd : digest_check digest ≠ []) by (unfold digest_check; by case_bool_decide).
  assert (Hst : stable (phase (knows measured)) upload_ended).
  { apply knows_stable. intros s s' Hv _. unfold measured, value. by rewrite Hv. }
  unfold size_check. destruct (Z.leb_spec 0 size) as [Hsize|Hsize]; cbn [app].
  - eapply runs_cons; [done|by apply runs_size_check|apply runs_digest_check].
  - eapply runs_weaken; [|by intros s Hs; exact Hs|apply runs_digest_check].
    intros s [Hi [Hr Hm]]. split; [done|]. split; [done|]. split; [exact Hm|lia].
Qed.

Lemma runs_upload_body :
  runs_sh (seq_all ([temp_assignment path dmode] ++ receive_file mode ++ size_check size ++ digest_check digest ++ publish_file path))
    (phase fresh) (phase complete) upload_ended.
Proof.
  assert (Hc : ∀ l : list sh, size_check size ++ digest_check digest ++ l ≠ []).
  { intros l. unfold size_check, digest_check. by destruct (0 <=? size)%Z, (bool_decide _). }
  eapply runs_app; [done|done|apply runs_temp_assignment|]. eapply runs_app; [done|apply Hc| |].
  - unfold receive_file. cbn [seq_all]. eapply runs_seq; [apply runs_set_trap|].
    eapply runs_seq; [apply runs_receive|apply runs_size].
  - rewrite app_assoc. eapply runs_app; [|done|apply runs_checks|apply runs_publish].
    intros Hnil. apply (Hc []). by rewrite app_nil_r.
Qed.

Lemma runs_upload :
  runs_sh (seq_all ([Do (Umask 63)]
     ++ (if bool_decide (digest ≠ "") then [Do Functions; tool_check (Plain integrityToolMissingMarker)] else [])
     ++ [temp_assignment path dmode]
     ++ receive_file mode ++ size_check size ++ digest_check digest ++ publish_file path))
    (phase fresh) (phase complete) upload_ended.
Proof.
  eapply runs_app; [done|by case_bool_decide| |].
  - cbn [seq_all]. apply fresh_do; [intros s; right; by exists 63%Z|done|done].
  - case_bool_decide; [|apply runs_upload_body]. eapply runs_app; [done|done| |apply runs_upload_body].
    cbn [seq_all]. eapply runs_seq; [|apply runs_tool_check]. apply fresh_do; [intros s; left| |]; done.
Qed.

Lemma start_fresh : phase fresh (start fs0 payload).
Proof.
  split; [split; cbn; try done; by left|]. repeat split.
Qed.

(** The shell at its end, after the trap. *)
Lemma upload_outcome (script : sh) :
  runs_sh script (phase fresh) (phase complete) upload_ended →
  let s := run_script pid sha_tool stale faults script fs0 payload in
  plain_inv s
  ∧ (exit_status s = Some 0%Z → published s ∧ receipted s)
  ∧ (plain_in_dquotes path = true → exit_status s ≠ None
     → sh_fs s !! upload_temp = fs0 !! upload_temp ∨ sh_fs s !! upload_temp = None).
Proof.
  intros Hrun. specialize (Hrun (start fs0 payload) eq_refl start_fresh). unfold run_script.
  set (s := exec _ _ _ _ _ _) in *. unfold after in Hrun.
  assert (Hclean : ∀ t, upload_inv t → sh_fs (run_trap t) !! upload_temp = fs0 !! upload_temp
    ∨ sh_fs (run_trap t) !! upload_temp = None).
  { intros t Hi. pose proof (upload_inv_trap t Hi) as Hi'. destruct (inv_temp _ Hi') as [?|[?|(Htr & Hv & Hd)]]; [auto..|].
    right. unfold run_trap in *. destruct (inv_trap _ Hi) as [Et|Et]; rewrite Et in *; [cbn in Htr; congruence|].
    cbn in Hv. cbn. unfold arg_value in *. rewrite Hv in *. cbn [default from_option id] in *. revert Hd. unfold remove, is_directory.
    case_bool_decide as Hdir; [cbn; congruence|]. rewrite bool_decide_false by (unfold upload_temp; by destruct path).
    intros _. apply lookup_delete_eq. }
  assert (Hpub : ∀ t, upload_inv t → published t ∧ receipted t → published (run_trap t) ∧ receipted (run_trap t)).
  { intros t Hi [[Hp Ha] Ho]. destruct (trap_fs t (inv_var t Hi) (inv_trap t Hi)) as [-> | [_ ->]]; [by split|].
    split; [split; [|done]|done]. cbn. by rewrite delete_temp_path. }
  assert (Hexit : ∀ t, exit_status (run_trap t) = exit_status t) by (intros t; unfold exit_status; by rewrite run_trap_end).
  destruct (sh_end s) as [[z|]|] eqn:Es.
  - destruct Hrun as [Hi Hz]. split_and!; [intros Hn; by apply upload_inv_trap, Hi| |by intros Hn _; apply Hclean, Hi].
    rewrite Hexit. unfold exit_status. rewrite Es. intros [= ->]. done.
  - destruct Hrun as [Hi _]. split_and!; [done| |]; unfold exit_status; rewrite Es; done.
  - destruct Hrun as [Hi Hc]. pose proof (upload_inv_end s (Some (Exited (sh_status s))) Hi) as Hi'.
    split_and!; [by intros _; apply upload_inv_trap| |by intros _ _; apply Hclean].
    rewrite Hexit. cbn. intros [= H0]. apply Hpub; [done|]. destruct (Hc H0) as [[??] ?]. done.
Qed.
End Upload.

(** C15: The remote host, whatever happens there during the script, for a destination
    whose name has no quote, dollar sign, backquote or backslash (the message about a
    directory puts the name in double quotes, where those are not data): the destination
    is as it was, or it is a file with the announced payload and permissions (a copy
    between hosts announces its digest only); nothing but the parent directories and the
    temporary file is touched; the temporary file is gone unless the shell was killed; and
    success is reported only with the second outcome. *)
Theorem upload_is_atomic `{!Sha256} pid sha_tool stale faults fs payload remotePath mode size digest dm s :
  guard_dash remotePath ≠ ""
  → plain_in_dquotes (guard_dash remotePath) = true
  → run_script pid sha_tool stale faults (upload_script remotePath mode size digest dm) fs payload = s
  → let path := guard_dash remotePath in
    let temp := path +:+ ".ssm-upload" +:+ "." +:+ pid in
    let complete := sh_fs s !! path = Some (RFile payload mode) ∧ ((0 ≤ size)%Z → Z.of_nat (length payload) = size)
                    ∧ (digest ≠ "" → digest_of payload = digest) ∧ fs !! path ≠ Some RDir in
    (sh_fs s !! path = fs !! path ∨ complete)
    ∧ (∀ q, q ≠ path → q ≠ temp → q ∉ path_prefixes (RemoteParentDir path) → sh_fs s !! q = fs !! q)
    ∧ (exit_status s = Some 0%Z → complete ∧ ∃ w, sh_stdout s = receipt_of digest w
         ∧ (w = "" ∨ w = pretty (Z.of_nat (length payload))) ∧ ((0 ≤ size)%Z → w = pretty size))
    ∧ (exit_status s ≠ None → sh_fs s !! temp = fs !! temp ∨ sh_fs s !! temp = None).
Proof.
  intros Hpath Hname <-. cbv zeta.
  destruct (upload_outcome pid sha_tool stale faults fs payload (guard_dash remotePath) mode size digest Hpath _
    (runs_upload pid sha_tool stale faults fs payload (guard_dash remotePath) mode size digest dm Hpath))
    as (Hi & He & Ht).
  destruct (Hi Hname) as [Hf Hp _ _ _].
  split_and!; [exact Hp|exact Hf| |exact (Ht Hname)]. intros Hexit. destruct (He Hexit) as [Hpub (w & [Hw Hsize] & Ho)].
  split; [exact Hpub|]. exists w. split_and!; [exact Ho|exact Hw|]. by intros [??]%Hsize.
Qed.
