(* ===== verification/TransferFacts.v ===== *)
(** * What a successful upload means

    The receipt the script prints is the one the client reads, so a client that
    reports success has published the file, and an undisturbed upload succeeds. *)

From stdpp Require Import pretty.
From Stdlib Require Import Ascii Strings.Byte.
From S2P Require Import Prelude GoStrings GoStringFacts GoErrors GoRegexp Redaction FailurePolicy MachineContract SyncProtocol RemoteCommand KnownHostsFacts SshDial RemoteShell Upload UploadFacts.

(** ** The receipt *)

Lemma TrimSpace_line a w :
  string_forall solid a = true ∧ a ≠ "" → ∀ m, string_forall solid w = true → w ≠ "" →
  TrimSpace (a +:+ m +:+ w +:+ LF) = a +:+ m +:+ w.
Proof.
  intros [Ha Hane] m Hw Hwne. unfold TrimSpace, trim_left_space, trim_right_space.
  assert (Hhead : ∀ fuel rest, trim_left_fuel fuel unicode_spaces (a +:+ rest) = a +:+ rest).
  { intros fuel rest. destruct a as [|c a]; [done|]. rewrite app_cons. apply string_forall_head in Ha.
    apply trim_left_fuel_solid; [|exact (proj1 strip_any_empty)].
    intros c' t [= <- _]. exact (proj1 (strip_any_solid c _ Ha)). }
  rewrite Hhead. rewrite !str_app_assoc, string_rev_distr. change (string_rev LF) with LF.
  set (body := (a +:+ m) +:+ w).
  assert (Hlast : ∀ fuel, trim_left_fuel fuel (string_rev <$> unicode_spaces) (string_rev body) = string_rev body).
  { intros fuel. apply trim_left_fuel_solid; [|exact (proj2 strip_any_empty)]. intros c t Hc.
    rewrite Hc. unfold body in Hc. rewrite string_rev_distr in Hc. rewrite <- string_forall_rev in Hw.
    destruct (string_rev w) as [|d v] eqn:Ev.
    - exfalso. apply Hwne. by rewrite <- (string_rev_involutive w), Ev.
    - rewrite app_cons in Hc. injection Hc as <- _. apply string_forall_head in Hw. exact (proj2 (strip_any_solid d _ Hw)). }
  rewrite length_str_app. change (String.length LF) with 1. rewrite Nat.add_1_r. cbn [trim_left_fuel].
  change (strip_any (string_rev <$> unicode_spaces) (LF +:+ string_rev body)) with (Some (string_rev body)).
  cbv iota. rewrite Hlast. apply string_rev_involutive.
Qed.

Lemma solid_is_text s : string_forall solid s = true → solid_text s = true.
Proof.
  apply string_forall_impl. intros c Hc. destruct c as [[] [] [] [] [] [] [] []]; vm_compute in Hc |- *; done.
Qed.

Lemma Fields_three a b c :
  solid_text a = true → solid_text b = true → solid_text c = true → a ≠ "" → b ≠ "" → c ≠ "" →
  Fields (a +:+ " " +:+ b +:+ " " +:+ c) = [a; b; c].
Proof.
  intros Ha Hb Hc Hna Hnb Hnc.
  assert (Hsp : ∀ t, Fields (String " " t) = Fields t).
  { intros t. unfold Fields. cbn [fields_from]. by rewrite space_length_text. }
  rewrite Fields_word by done. change (" " +:+ b +:+ " " +:+ c) with (String " " (b +:+ " " +:+ c)).
  rewrite Hsp, Fields_word by done. change (" " +:+ c) with (String " " c). rewrite Hsp.
  rewrite <- (str_app_nil_r c) at 1. by rewrite Fields_word.
Qed.

Lemma receipt_is_read size digest :
  (0 ≤ size ≤ max_int)%Z → string_forall solid digest = true → digest ≠ "-" →
  parseUploadReceipt (upload_receipt size digest) = Some (size, digest).
Proof.
  intros Hsize Hsolid Hdash.
  assert (Hd : string_forall solid (receipt_digest digest) = true ∧ receipt_digest digest ≠ "").
  { unfold receipt_digest. by case_bool_decide. }
  destruct Hd as [Hd Hne]. unfold parseUploadReceipt, upload_receipt, receipt_of.
  pose proof (TrimSpace_line "SSM_TRANSFER" (receipt_digest digest) ltac:(done) (" " +:+ pretty size +:+ " ") Hd Hne) as Htrim.
  rewrite <- !str_app_assoc in Htrim. rewrite Htrim. clear Htrim.
  rewrite Fields_three; try done; [|apply solid_is_text, pretty_Z_solid; lia|by apply solid_is_text|apply pretty_Z_not_empty].
  rewrite bool_decide_false by (intros Hneq; by apply Hneq). rewrite Atoi_pretty by done. f_equal. f_equal.
  unfold receipt_digest. destruct (decide (digest = "")) as [->|He]; [done|].
  by rewrite !(bool_decide_false (digest = "")), bool_decide_false.
Qed.

(** ** The client *)

Section Client.
Context `{!Sha256} `{!Sha256Laws _} `{!UnicodeCase}.
Context (RedactString : string → string) (windows : bool).

Lemma digest_not_empty content : digest_of content ≠ "".
Proof.
  intros E. apply (f_equal String.length) in E. unfold digest_of in E. by rewrite hex_encode_length, sha256_length in E.
Qed.

(** The remote host answers the script [script] as a shell would that starts with the
    files [fs] and ends with [s]: [session.Wait] reports no error only for status 0. *)
Definition answered_by_shell (a : Answer) (fs : RemoteFS) (script : sh) (s : Shell) : Prop :=
  ∃ pid sha_tool stale faults payload, run_script pid sha_tool stale faults script fs payload = s
    ∧ (ra_wait a = None → exit_status s = Some 0%Z ∧ ra_stdout a = sh_stdout s).

(** What a session that succeeded says. *)
Lemma upload_session_ok opts w cmd size digest result r :
  upload_session RedactString opts w cmd size digest result = (r, None) →
  ra_wait (uw_exec w cmd) = None ∧
  ∃ remoteDigest, parseUploadReceipt (ra_stdout (uw_exec w cmd)) = Some (size, remoteDigest)
    ∧ (uo_VerifySHA256 opts = true → remoteDigest = digest)
    ∧ tr_OK r = true ∧ tr_RemoteSHA256 r = remoteDigest ∧ tr_LocalSHA256 r = tr_LocalSHA256 result.
Proof.
  unfold upload_session. destruct (uw_session w); [done|]. destruct (uw_stdin w); [done|]. set (a := uw_exec w cmd).
  destruct (ra_start a); [by destruct (isExecRefused _)|]. cbv zeta. destruct (ra_copy a); [done|].
  destruct (ra_close a); [done|]. destruct (ra_wait a) eqn:Hw; [done|].
  destruct (parseUploadReceipt _) as [[z d]|]; [|done].
  destruct (negb _ || _) eqn:Hbad; [done|]. intros [= <-]. split; [done|]. exists d.
  apply orb_false_iff in Hbad as [Hz%negb_false_iff%bool_decide_eq_true Hd]. subst z. split_and!; try done.
  intros Hv. rewrite Hv in Hd. cbn in Hd. by apply negb_false_iff, bool_decide_eq_true in Hd.
Qed.

(** What was found locally. *)
Lemma upload_ok_local c remotePath opts w r :
  upload_whole_file RedactString windows c remotePath opts w = (r, None) →
  ∃ mode size digest result, uw_stat w = inr (Some (mode, size))
    ∧ upload_session RedactString opts w (upload_command remotePath opts mode size digest) size digest result = (r, None)
    ∧ (if uo_VerifySHA256 opts then ∃ content, uw_read w = inr content ∧ digest = digest_of content ∧ tr_LocalSHA256 result = digest
       else digest = "").
Proof.
  unfold upload_whole_file. destruct (uw_open w); [done|]. destruct (uw_stat w) as [|[[mode size]|]]; [done| |done].
  cbv zeta. destruct (uo_VerifySHA256 opts) eqn:Hv; cbn [negb].
  - destruct (uw_read w) as [|content]; [done|]. destruct (uw_seek w); [done|]. destruct (uw_dial w); [done|].
    intros Hs. eexists _, _, _, _. split_and!; [done|exact Hs|]. by exists content.
  - destruct (uw_dial w); [done|]. intros Hs. by eexists _, _, _, _.
Qed.

(** C3: The client reports success only when the destination holds a file with the length,
    and when verification was asked for the digest, of what was read locally. *)
Theorem upload_success_is_published c remotePath opts w r :
  upload_whole_file RedactString windows c remotePath opts w = (r, None)
  → guard_dash remotePath ≠ ""
  → (∀ mode size, uw_stat w = inr (Some (mode, size)) → (0 ≤ size)%Z)
  → ∃ mode size digest,
      let path := guard_dash remotePath in
      let script := upload_script remotePath (Z.land mode 511) size digest (dirMode (uo_DirMode opts)) in
      tr_OK r = true ∧ uw_stat w = inr (Some (mode, size))
      ∧ (uo_VerifySHA256 opts = true →
         ∃ content, uw_read w = inr content ∧ digest = digest_of content ∧ tr_LocalSHA256 r = digest ∧ tr_RemoteSHA256 r = digest)
      ∧ ∀ fs s, answered_by_shell (uw_exec w (sh_text script)) fs script s →
          fs !! path ≠ Some RDir
          ∧ ∃ payload, sh_fs s !! path = Some (RFile payload (Z.land mode 511)) ∧ Z.of_nat (length payload) = size
              ∧ (uo_VerifySHA256 opts = true → digest_of payload = digest).
Proof.
  intros Hok Hpath Hsizes. apply upload_ok_local in Hok as (mode & size & digest & result & Hstat & Hses & Hlocal).
  apply upload_session_ok in Hses as (Hwait & remote & Hparse & Hver & HOK & Hremote & Hloc).
  exists mode, size, digest. cbv zeta. split_and!; [done|done| |].
  - intros Hv. rewrite Hv in Hlocal. destruct Hlocal as (content & Hread & -> & Hdig). exists content.
    split_and!; [done|done|congruence|by rewrite Hremote, Hver].
  - intros fs s (pid & tool & stale & faults & payload & Hrun & Hans).
    unfold upload_command in Hwait. rewrite upload_text in Hwait. destruct (Hans Hwait) as [Hexit _].
    destruct (upload_outcome pid tool stale faults fs payload (guard_dash remotePath) (Z.land mode 511) size digest Hpath _
      (runs_upload pid tool stale faults fs payload (guard_dash remotePath) (Z.land mode 511) size digest
        (dirMode (uo_DirMode opts)) Hpath)) as (_ & Hdone & _).
    fold (upload_script remotePath (Z.land mode 511) size digest (dirMode (uo_DirMode opts))) in Hdone.
    rewrite Hrun in Hdone. destruct (Hdone Hexit) as [[Hfile (Hlen & Hdg & Hdir)] _]. split; [done|].
    exists payload. split_and!; [done|by apply Hlen, (Hsizes mode)|]. intros Hv. rewrite Hv in Hlocal.
    destruct Hlocal as (content & _ & -> & _). apply Hdg, digest_not_empty.
Qed.
End Client.
