(* ===== verification/Resume.v ===== *)
(** * Resumable uploads ([ssh/resume.go])

    A partial file and its description are kept beside the destination under names made
    from the path and the digest of the payload. A first command finds or creates them
    and says how much is there; a second one appends the rest, checks the whole and
    moves it into place. *)

From stdpp Require Import pretty.
From Stdlib Require Import Ascii Strings.Byte.
From S2P Require Import Prelude GoStrings GoErrors GoRegexp Config Redaction FailurePolicy MachineContract SyncProtocol RemoteCommand SshDial RemoteShell Upload.

Definition resumeProtocolV1 : string := "v1".

Record resumeState := mkResumeState { rs_Offset : Z; rs_Digest : string }.

(** ** Names *)

(** [filepath.Clean], with slashes. *)
Fixpoint clean_components (rooted : bool) (done todo : list string) : list string :=
  match todo with
  | [] => rev done
  | p :: todo' =>
      if bool_decide (p = "" ∨ p = ".") then clean_components rooted done todo'
      else if bool_decide (p = "..") then
        match done with
        | [] => clean_components rooted (if rooted then [] else [".."]) todo'
        | d :: done' => clean_components rooted (if bool_decide (d = "..") then ".." :: done else done') todo'
        end
      else clean_components rooted (p :: done) todo'
  end.
Definition Clean (path : string) : string :=
  let rooted := HasPrefix path "/" in
  let cleaned := Join (clean_components rooted [] (Split "/" path)) "/" in
  if rooted then "/" +:+ cleaned else if bool_decide (cleaned = "") then "." else cleaned.

Section Names.
Context `{!Sha256}.

Definition resumePaths (remotePath digest : string) : string * string * string :=
  let prefix := ".ssm-resume-v1-" +:+ hex_encode (take 8 (sha256 (bytes_of_string remotePath))) +:+ "-" in
  let partial :=
    if bool_decide (RemoteParentDir remotePath = "") then prefix +:+ digest
    else Clean (RemoteParentDir remotePath +:+ "/" +:+ prefix +:+ digest) in
  (partial, partial +:+ ".meta", prefix +:+ "*").
End Names.

(** ** The command lines *)

Definition exit_with (marker : string) (status : Z) : string :=
  "{ echo '" +:+ marker +:+ "'; exit " +:+ pretty status +:+ "; }; ".
Definition tool_missing : string := "SSM_RESUME_ERROR tool_missing".
Definition incompatible : string := "SSM_RESUME_ERROR incompatible".
Definition state_changed : string := "SSM_RESUME_ERROR state_changed".

(** The description is three words: the version, the size and the digest. *)
Definition read_meta (metadata digest : string) (size : Z) : string :=
  "set -- $(cat -- " +:+ metadata +:+ "); [ " +:+ in_dquotes "$#" +:+ " = 3 ] && [ " +:+ in_dquotes "$1" +:+ " = v1 ] && [ "
  +:+ in_dquotes "$2" +:+ " = " +:+ pretty size +:+ " ] && [ " +:+ in_dquotes "$3" +:+ " = " +:+ digest +:+ " ] || ".

Definition probe_parent (partial : string) : string :=
  let parent := RemoteParentDir partial in if bool_decide (parent = "") then "." else parent.

Definition probeCommand (partial metadata cleanupPattern : string) (size : Z) (digest : string) : string :=
  let parent := ShellQuote (probe_parent partial) in
  let metaTemp := ShellQuote (metadata +:+ ".new.$$") in
  let partial := ShellQuote partial in
  let metadata := ShellQuote metadata in
  let digest := ShellQuote digest in
  remoteSHA256Helpers +:+ "ssm_sha256_tool >/dev/null || " +:+ exit_with tool_missing 69
  +:+ "umask 077; mkdir -p " +:+ parent +:+ " || exit 73; find " +:+ parent +:+ " -maxdepth 1 -type f -name "
  +:+ ShellQuote cleanupPattern +:+ " -mtime +7 -delete 2>/dev/null || true; "
  +:+ "if [ -e " +:+ partial +:+ " ] || [ -e " +:+ metadata +:+ " ]; then "
  +:+ "[ -f " +:+ partial +:+ " ] && [ -f " +:+ metadata +:+ " ] || " +:+ exit_with incompatible 65
  +:+ read_meta metadata digest size +:+ exit_with incompatible 65
  +:+ "offset=$(wc -c < " +:+ partial +:+ " | tr -d ' ') || exit 74; [ " +:+ in_dquotes "$offset" +:+ " -le " +:+ pretty size +:+ " ] || "
  +:+ exit_with incompatible 65 +:+ "prefix_sha=$(ssm_sha256 " +:+ partial +:+ ") || exit 74; "
  +:+ "else : > " +:+ partial +:+ " && chmod 0600 " +:+ partial +:+ " || exit 73; printf 'v1 %s %s\n' " +:+ pretty size +:+ " " +:+ digest
  +:+ " > " +:+ metaTemp +:+ " && chmod 0600 " +:+ metaTemp +:+ " && mv -f -- " +:+ metaTemp +:+ " " +:+ metadata
  +:+ " || exit 73; offset=0; prefix_sha=$(ssm_sha256 " +:+ partial +:+ ") || exit 74; fi; "
  +:+ "printf 'SSM_RESUME %s %s\n' " +:+ in_dquotes "$offset" +:+ " " +:+ in_dquotes "$prefix_sha".

Definition resumeAppendCommand (remotePath partial metadata : string) (mode size : Z) (digest : string) (offset : Z)
    (prefixDigest : string) : string :=
  let partial := ShellQuote partial in
  let metadata := ShellQuote metadata in
  let digest := ShellQuote digest in
  remoteSHA256Helpers +:+ "ssm_sha256_tool >/dev/null || " +:+ exit_with tool_missing 69
  +:+ "[ -f " +:+ partial +:+ " ] && [ -f " +:+ metadata +:+ " ] || " +:+ exit_with state_changed 65
  +:+ read_meta metadata digest size +:+ exit_with state_changed 65
  +:+ "actual_size=$(wc -c < " +:+ partial +:+ " | tr -d ' ') || exit 74; [ " +:+ in_dquotes "$actual_size" +:+ " = " +:+ pretty offset
  +:+ " ] || " +:+ exit_with state_changed 65
  +:+ "prefix_sha=$(ssm_sha256 " +:+ partial +:+ ") || exit 74; [ " +:+ in_dquotes "$prefix_sha" +:+ " = " +:+ ShellQuote prefixDigest
  +:+ " ] || " +:+ exit_with state_changed 65
  +:+ "cat >> " +:+ partial +:+ " || exit 74; chmod 0" +:+ octal mode +:+ " " +:+ partial +:+ " || exit 73; actual_size=$(wc -c < "
  +:+ partial +:+ " | tr -d ' ') || exit 74; actual_sha=$(ssm_sha256 " +:+ partial +:+ ") || exit 74; "
  +:+ "[ " +:+ in_dquotes "$actual_size" +:+ " = " +:+ pretty size +:+ " ] && [ " +:+ in_dquotes "$actual_sha" +:+ " = " +:+ digest
  +:+ " ] || " +:+ exit_with "SSM_RESUME_ERROR digest_mismatch" 65
  +:+ "mv -f -- " +:+ partial +:+ " " +:+ ShellQuote remotePath +:+ " || " +:+ exit_with "SSM_RESUME_ERROR publish_failed" 73
  +:+ "rm -f -- " +:+ metadata +:+ "; printf 'SSM_TRANSFER %s %s\n' " +:+ in_dquotes "$actual_size" +:+ " " +:+ in_dquotes "$actual_sha".

(** ** The scripts they are *)

Definition leave_with (marker : string) (status : Z) : sh := Group (Seq (Do (Echo (Quoted marker))) (Do (Exit status))).

Definition meta_check (metadata digest : string) (size : Z) (otherwise : sh) : list sh :=
  [Do (SetWords (Quoted metadata));
   Or (And (And (And (Do (TestEq (Var "#") (Plain "3"))) (Do (TestEq (Var "1") (Plain "v1"))))
                (Do (TestEq (Var "2") (Plain (pretty size)))))
           (Do (TestEq (Var "3") (Quoted digest)))) otherwise].

Definition files_check (partial metadata : string) (otherwise : sh) : sh :=
  Or (And (Do (TestFile (Quoted partial))) (Do (TestFile (Quoted metadata)))) otherwise.

Definition size_or_exit (v partial : string) : sh := Or (Do (AssignSize v (Quoted partial))) (Do (Exit 74)).
Definition digest_or_exit (v partial : string) : sh := Or (Do (AssignDigest v (Quoted partial))) (Do (Exit 74)).

Definition found_partial (partial metadata digest : string) (size : Z) : list sh :=
  [files_check partial metadata (leave_with incompatible 65)]
  ++ meta_check metadata digest size (leave_with incompatible 65)
  ++ [size_or_exit "offset" partial; Or (Do (TestLe (Var "offset") size)) (leave_with incompatible 65);
      digest_or_exit "prefix_sha" partial].

Definition new_partial (partial metadata digest : string) (size : Z) : list sh :=
  let metaTemp := metadata +:+ ".new.$$" in
  [Or (And (Do (Truncate (Quoted partial))) (Do (Chmod 384 (Quoted partial)))) (Do (Exit 73));
   Or (And (And (Do (WriteMeta size digest (Quoted metaTemp))) (Do (Chmod 384 (Quoted metaTemp))))
           (Do (Move (Quoted metaTemp) (Quoted metadata)))) (Do (Exit 73));
   Do (Assign "offset" "0"); digest_or_exit "prefix_sha" partial].

Definition probe_script (partial metadata cleanupPattern : string) (size : Z) (digest : string) : sh :=
  let parent := probe_parent partial in
  seq_all
    [Do Functions; tool_check (Quoted tool_missing); Do (Umask 63); Or (Do (Mkdir false parent)) (Do (Exit 73));
     Or (Do (FindDelete parent cleanupPattern)) (Do TrueCommand);
     If (Or (Do (TestExists (Quoted partial))) (Do (TestExists (Quoted metadata))))
       (seq_all (found_partial partial metadata digest size)) (seq_all (new_partial partial metadata digest size));
     Do (PrintTwo "SSM_RESUME" (Var "offset") (Var "prefix_sha"))].

Definition append_checks (partial metadata digest : string) (size offset : Z) (prefixDigest : string) : list sh :=
  [files_check partial metadata (leave_with state_changed 65)]
  ++ meta_check metadata digest size (leave_with state_changed 65)
  ++ [size_or_exit "actual_size" partial;
      Or (Do (TestEq (Var "actual_size") (Plain (pretty offset)))) (leave_with state_changed 65);
      digest_or_exit "prefix_sha" partial;
      Or (Do (TestEq (Var "prefix_sha") (Quoted prefixDigest))) (leave_with state_changed 65)].

Definition append_rest (partial : string) (mode : Z) : list sh :=
  [Or (Do (CatAppend (Quoted partial))) (Do (Exit 74)); Or (Do (Chmod mode (Quoted partial))) (Do (Exit 73));
   size_or_exit "actual_size" partial; digest_or_exit "actual_sha" partial].

Definition append_publish (remotePath partial metadata digest : string) (size : Z) : list sh :=
  [Or (And (Do (TestEq (Var "actual_size") (Plain (pretty size)))) (Do (TestEq (Var "actual_sha") (Quoted digest))))
      (leave_with "SSM_RESUME_ERROR digest_mismatch" 65);
   Or (Do (Move (Quoted partial) (Quoted remotePath))) (leave_with "SSM_RESUME_ERROR publish_failed" 73);
   Do (RemoveFile (Quoted metadata)); Do (PrintTwo "SSM_TRANSFER" (Var "actual_size") (Var "actual_sha"))].

Definition append_script (remotePath partial metadata : string) (mode size : Z) (digest : string) (offset : Z)
    (prefixDigest : string) : sh :=
  seq_all
    ([Do Functions; tool_check (Quoted tool_missing)] ++ append_checks partial metadata digest size offset prefixDigest
     ++ append_rest partial mode ++ append_publish remotePath partial metadata digest size).

(** ** The client *)

(** What the client is answered: [os.Open], [f.Stat] (the mode and size of a regular
    file), the pass over the file, the connection, the two sessions, the first bytes of
    the file read again, and the rewind. *)
Record ResumeWorld := mkResumeWorld {
  rw_open : option sshError;
  rw_stat : sshError + option (Z * Z);
  rw_read : sshError + bytes;
  rw_dial : option sshError;
  rw_probe_session : option sshError;
  rw_probe : string → Answer;
  rw_prefix : Z → sshError + bytes;
  rw_seek : Z → option sshError;
  rw_session : option sshError;
  rw_stdin : option sshError;
  rw_exec : string → Answer;
}.

Section Client.
Context `{!Sha256} `{!UnicodeCase}.
Context (RedactString : string → string) (windows : bool).

Notation transferError := (transferError RedactString).

(** The answer of the first command. *)
Definition parse_resume_state (stdout : string) (size : Z) : resumeState + TransferError :=
  match Fields (TrimSpace stdout) with
  | [tag; offset; digest] =>
      if bool_decide (tag ≠ "SSM_RESUME") then
        inr (transferError ResumeProbeResponseInvalid 0 (plain_error "invalid remote resume state"))
      else
        let invalid := inr (transferError ResumeProbeResponseInvalid 0 (plain_error "invalid remote resume offset or digest")) in
        match Atoi offset with
        | Some n =>
            if (n <? 0)%Z || (size <? n)%Z || negb (String.length digest =? 64) then invalid else inl (mkResumeState n digest)
        | None => invalid
        end
  | _ => inr (transferError ResumeProbeResponseInvalid 0 (plain_error "invalid remote resume state"))
  end.

Definition first_line (stderr : string) (err : sshError) : string :=
  let message := TrimSpace stderr in if bool_decide (message = "") then x_Message err else message.

Definition probeResumeState (w : ResumeWorld) (partial metadata cleanupPattern : string) (size : Z) (digest : string) :
    resumeState + TransferError :=
  match rw_probe_session w with
  | Some e => inr (transferError ResumeProbeSessionFailed 0 e)
  | None =>
      let a := rw_probe w (probeCommand partial metadata cleanupPattern size digest) in
      match ra_wait a with
      | Some e =>
          if Contains (ra_stdout a) tool_missing then
            inr (transferError ResumeVerificationToolMissing 0 (plain_error remoteSHA256UnavailableMessage))
          else if Contains (ra_stdout a) incompatible then
            inr (transferError ResumeStateIncompatible 0 (plain_error "incompatible remote partial state"))
          else inr (transferError ResumeProbeFailed 0 (plain_error (first_line (ra_stderr a) e)))
      | None => parse_resume_state (ra_stdout a) size
      end
  end.

(** The reasons the second command gives on its output. *)
Definition resume_marker (stdout : string) (written : Z) (result : TransferResult) : option (TransferResult * TransferError) :=
  if Contains stdout tool_missing then
    Some (result, transferError ResumeVerificationToolMissing written (plain_error remoteSHA256UnavailableMessage))
  else if Contains stdout state_changed then
    Some (result, transferError ResumeStateChanged written (plain_error "remote partial state changed"))
  else if Contains stdout "SSM_RESUME_ERROR digest_mismatch" then
    Some (tr_with_integrity "mismatch" result,
          transferError ResumeIntegrityMismatch written (plain_error "remote final digest mismatch"))
  else if Contains stdout "SSM_RESUME_ERROR publish_failed" then
    Some (result, transferError ResumePublishFailed written (plain_error "atomic publish failed"))
  else None.

Definition collectResumeRemoteFirst (a : Answer) (result : TransferResult) (written : Z) (cause : sshError) (fallback : Kind) :
    TransferResult * TransferError :=
  if ra_timed_out a then (result, transferError ResumeTimedOut written cause)
  else match (if bool_decide (is_Some (ra_wait a)) then resume_marker (ra_stdout a) written result else None) with
       | Some r => r
       | None => (result, transferError fallback written cause)
       end.

Definition resume_failed (a : Answer) (result : TransferResult) (written : Z) (err : sshError) : TransferResult * TransferError :=
  if ra_timed_out a then (result, transferError ResumeTimedOut written err)
  else match resume_marker (ra_stdout a) written result with
       | Some r => r
       | None => (result, transferError ResumeRetryFailed written (plain_error (first_line (ra_stderr a) err)))
       end.

Definition resume_session (w : ResumeWorld) (cmd : string) (size : Z) (digest : string) (result : TransferResult) :
    TransferResult * option TransferError :=
  match rw_session w with
  | Some e => (result, Some (transferError TransferSessionOpenFailed 0 e))
  | None =>
  match rw_stdin w with
  | Some e => (result, Some (transferError ResumeStdinOpenFailed 0 e))
  | None =>
  let a := rw_exec w cmd in
  match ra_start a with
  | Some e => (result, Some (transferError ResumeStartFailed 0 e))
  | None =>
      let written := Z.of_nat (length (ra_sent a)) in
      let result := tr_with_sent written (tr_with_stage "remote_write" result) in
      let failing r := (r.1, Some r.2) in
      match ra_copy a with
      | Some e => failing (collectResumeRemoteFirst a result written e ResumeRemoteWriteFailed)
      | None =>
      match ra_close a with
      | Some e => failing (collectResumeRemoteFirst a result written e ResumeRetryFailed)
      | None =>
      match ra_wait a with
      | Some e => failing (resume_failed a result written e)
      | None =>
          let invalid :=
            (tr_with_integrity "mismatch" result,
             Some (transferError ResumeReceiptInvalid written (plain_error "invalid resume completion receipt"))) in
          match parseUploadReceipt (ra_stdout a) with
          | None => invalid
          | Some (remoteSize, remoteDigest) =>
              if negb (bool_decide (remoteSize = size)) || negb (bool_decide (remoteDigest = digest)) then invalid
              else (tr_completed "sha256_verified" remoteDigest result, None)
          end
      end end end
  end end end.

Definition uploadFileResumable (c : Connection) (remotePath : string) (opts : UploadOptions) (w : ResumeWorld) :
    TransferResult * option TransferError :=
  let result := mkTransferResult false "" "" "local_read" 0 0 "not_checked" "" "" true "v1" 0 in
  if bool_decide (uo_ResumeVersion opts ≠ resumeProtocolV1) then
    (result, Some (transferError ResumeVersionUnsupported 0
       (plain_error ("unsupported resume version " +:+ Quote (uo_ResumeVersion opts)))))
  else
  match rw_open w with
  | Some e => (result, Some (transferError TransferLocalRead 0 e))
  | None =>
  match rw_stat w with
  | inl e => (result, Some (transferError ResumeRegularFileRequired 0 e))
  | inr None =>
      (result, Some (transferError ResumeRegularFileRequired 0 (plain_error "resumable put supports regular files only")))
  | inr (Some (mode, size)) =>
  match rw_read w with
  | inl e => (result, Some (transferError ResumeSourceReadFailed 0 e))
  | inr content =>
      let fullDigest := digest_of content in
      let '(partial, metadata, cleanupPattern) := resumePaths remotePath fullDigest in
      let result := tr_with_stage "resume_probe" (tr_with_local fullDigest result) in
      match rw_dial w with
      | Some e =>
          let classified := ClassifyError RedactString windows e c in
          (result, Some (transferClassifiedError classified 0 (classified_error classified (Some e))))
      | None =>
      match probeResumeState w partial metadata cleanupPattern size fullDigest with
      | inr e => (result, Some e)
      | inl state =>
          let result := tr_with_resume (if (0 <? rs_Offset state)%Z then "resumed" else "started") (rs_Offset state) result in
          match rw_prefix w (rs_Offset state) with
          | inl e => (result, Some (transferError ResumeSourceChanged 0 e))
          | inr prefix =>
              if bool_decide (digest_of prefix ≠ rs_Digest state) then
                (tr_with_integrity "mismatch" (tr_with_stage "resume_validate" result),
                 Some (transferError ResumePartialMismatch 0 (plain_error "remote partial digest does not match local prefix")))
              else
                match rw_seek w (rs_Offset state) with
                | Some e => (result, Some (transferError ResumeSourceSeekFailed 0 e))
                | None =>
                    resume_session w
                      (resumeAppendCommand remotePath partial metadata (Z.land mode 511) size fullDigest (rs_Offset state) (rs_Digest state))
                      size fullDigest result
                end
          end
      end end
  end end end.

Definition UploadFileWithOptions (c : Connection) (remotePath : string) (opts : UploadOptions) (w : UploadWorld) (rw : ResumeWorld) :
    TransferResult * option TransferError :=
  if bool_decide (uo_ResumeVersion opts ≠ "") then uploadFileResumable c remotePath opts rw
  else upload_whole_file RedactString windows c remotePath opts w.
End Client.
