(* ===== verification/ResumeFacts.v ===== *)
(** * What a resumed upload leaves on the remote host *)

From stdpp Require Import pretty.
From Stdlib Require Import Ascii Strings.Byte.
From S2P Require Import Prelude GoStrings GoStringFacts GoErrors GoRegexp Redaction FailurePolicy MachineContract SyncProtocol RemoteCommand SshDial RemoteShell Upload UploadFacts TransferFacts Resume.

(** ** The command lines are the texts of the scripts *)

Ltac script_text :=
  cbn [seq_all app sh_text simple_text arg_text]; unfold in_dquotes, integrityToolMissingMarker;
  change (pretty 69%Z) with "69"; change (pretty 65%Z) with "65"; change (pretty 73%Z) with "73";
  change (pretty 74%Z) with "74"; change (octal 63) with "077"; change (octal 384) with "600";
  repeat match goal with |- context [ShellQuote ?x] => generalize (ShellQuote x); intros ? end;
  repeat match goal with |- context [pretty ?x] => generalize (pretty x); intros ? end;
  generalize sha256_functions; intros ?.

Lemma append_text remotePath partial metadata mode size digest offset prefixDigest :
  resumeAppendCommand remotePath partial metadata mode size digest offset prefixDigest
  = sh_text (append_script remotePath partial metadata mode size digest offset prefixDigest).
Proof.
  unfold resumeAppendCommand, append_script, append_checks, append_rest, append_publish, files_check, meta_check, size_or_exit,
    digest_or_exit, leave_with, tool_check, exit_with, read_meta, remoteSHA256Helpers, tool_missing, state_changed.
  change (ShellQuote "SSM_RESUME_ERROR tool_missing") with "'SSM_RESUME_ERROR tool_missing'".
  cbn [seq_all app sh_text simple_text arg_text].
  change (ShellQuote "SSM_RESUME_ERROR tool_missing") with "'SSM_RESUME_ERROR tool_missing'".
  change (ShellQuote "SSM_RESUME_ERROR state_changed") with "'SSM_RESUME_ERROR state_changed'".
  change (ShellQuote "SSM_RESUME_ERROR digest_mismatch") with "'SSM_RESUME_ERROR digest_mismatch'".
  change (ShellQuote "SSM_RESUME_ERROR publish_failed") with "'SSM_RESUME_ERROR publish_failed'".
  script_text. generalize (octal mode); intros ?. same_text.
Qed.

Lemma probe_text partial metadata cleanupPattern size digest :
  probeCommand partial metadata cleanupPattern size digest
  = sh_text (probe_script partial metadata cleanupPattern size digest).
Proof.
  unfold probeCommand, probe_script, found_partial, new_partial, files_check, meta_check, size_or_exit,
    digest_or_exit, leave_with, tool_check, exit_with, read_meta, remoteSHA256Helpers, tool_missing, incompatible.
  generalize (probe_parent partial); intros parent.
  cbn [seq_all app sh_text simple_text arg_text].
  change (ShellQuote "SSM_RESUME_ERROR tool_missing") with "'SSM_RESUME_ERROR tool_missing'".
  change (ShellQuote "SSM_RESUME_ERROR incompatible") with "'SSM_RESUME_ERROR incompatible'".
  script_text. same_text.
Qed.

(** ** The invariant of the second command *)

Section Append.
Context `{!Sha256}.
Context (pid : string) (sha_tool : bool) (stale : string → bool) (faults : nat → fault).
Context (fs0 : RemoteFS) (path partial metadata : string) (mode size : Z) (digest : string).
Context (Hpartial : partial ≠ path) (Hmetadata : metadata ≠ path) (Hdir : fs0 !! path ≠ Some RDir) (Hdigest : digest ≠ "").

Notation runs_sh := (runs_sh pid sha_tool stale faults).

Definition verified (content : bytes) : Prop := Z.of_nat (length content) = size ∧ digest_of content = digest.
Definition resumed (fs : RemoteFS) : Prop := ∃ content, fs !! path = Some (RFile content mode) ∧ verified content.

Record append_inv (s : Shell) : Prop := {
  ai_frame : ∀ q, q ≠ path → q ≠ partial → q ≠ metadata → sh_fs s !! q = fs0 !! q;
  ai_path : sh_fs s !! path = fs0 !! path ∨ resumed (sh_fs s);
  ai_trap : sh_trap s = None;
}.

Definition append_ended (s : Shell) : Prop := append_inv s ∧ sh_end s ≠ Some (Exited 0).

(** What is known on top of the invariant, from the files, the variables, the output and
    the status. *)
Definition known (X : RemoteFS → gmap string string → string → Z → Prop) (s : Shell) : Prop :=
  append_inv s ∧ X (sh_fs s) (sh_vars s) (sh_stdout s) (sh_status s).

Lemma known_stable X : stable (known X) append_ended.
Proof.
  split.
  - intros s [[] HX]. by split.
  - intros s Htr [[] _]. congruence.
  - intros s [[] _]. by split.
Qed.

(** The same files and trap. *)
Lemma append_inv_files s s' : sh_fs s' = sh_fs s → sh_trap s' = sh_trap s → append_inv s → append_inv s'.
Proof. intros Hf Ht []. split; by rewrite ?Hf, ?Ht. Qed.

(** Nothing was published or printed, and at first the partial file is what was found. *)
Definition unpublished (fs : RemoteFS) (out : string) : Prop := fs !! path = fs0 !! path ∧ out = "".
Definition as_found (fs : RemoteFS) (out : string) : Prop := unpublished fs out ∧ fs !! partial = fs0 !! partial.
Definition checking : Shell → Prop := known (λ fs _ out _, as_found fs out).

(** Commands that read, test and assign. *)
Definition harmless (c : simple) : bool :=
  match c with
  | Functions | ToolProbe | TestEq _ _ | TestFile _ | AssignSize _ _ | AssignDigest _ _ | SetWords _ | TrueCommand => true
  | _ => false
  end.

Lemma harmless_run c s : harmless c = true →
  let s' := run_simple pid sha_tool stale c s in
  sh_fs s' = sh_fs s ∧ sh_trap s' = sh_trap s ∧ sh_end s' = sh_end s ∧ sh_stdout s' = sh_stdout s.
Proof.
  intros Hc. destruct c; try done; cbn [run_simple].
  - by destruct sha_tool.
  - by destruct (sh_fs s !! arg_value s file) as [[]|].
Qed.

Lemma harmless_fail c z n s : harmless c = true →
  let s' := fail_simple c z n s in
  sh_fs s' = sh_fs s ∧ sh_trap s' = sh_trap s ∧ sh_end s' = sh_end s ∧ sh_stdout s' = sh_stdout s.
Proof. intros Hc. destruct c; try done; cbn [fail_simple]; by destruct (n =? 0). Qed.

Lemma runs_harmless c : harmless c = true → runs_sh (Do c) checking checking append_ended.
Proof.
  intros Hc. assert (Hdata : expands c = false) by (by destruct c). run_do; [apply known_stable| |].
  - intros s He [Hi Hx]. destruct (harmless_run c s Hc) as (Hf & Ht & Hend & Hout). unfold after. rewrite Hend, He.
    split; [by apply (append_inv_files s)|]. by rewrite Hf, Hout.
  - intros _ s z n He [Hi Hx]. destruct (harmless_fail c z n s Hc) as (Hf & Ht & Hend & Hout). unfold after. rewrite Hend, He.
    split; [by apply (append_inv_files s)|]. by rewrite Hf, Hout.
Qed.

Lemma runs_leave_with marker status (P Q : Shell → Prop) :
  status ≠ 0%Z → (∀ s, P s → append_inv s) → runs_sh (leave_with marker status) P Q append_ended.
Proof.
  intros Hst HP. apply runs_group. apply runs_seq with (known (λ _ _ _ _, True)).
  - eapply runs_weaken with (P' := known (λ _ _ _ _, True)); [by intros s Hs; split; [apply HP|]|by intros s Hs; exact Hs|].
    run_do; [apply known_stable| |]; intros; unfold after; cbn;
      match goal with H : sh_end _ = None |- _ => rewrite H end; split; try done;
      match goal with H : known _ ?s |- _ => destruct H as [? _]; by apply (append_inv_files s) end.
  - apply runs_exit; [apply known_stable|]. intros s [Hi _]. split; [by apply (append_inv_files s)|]. cbn. congruence.
Qed.

Lemma runs_leave n (P Q : Shell → Prop) :
  n ≠ 0%Z → stable P append_ended → (∀ s, P s → append_inv s) → runs_sh (Do (Exit n)) P Q append_ended.
Proof.
  intros Hn Hst HP. apply runs_exit; [done|]. intros s Hs. split; [|cbn; congruence].
  apply (append_inv_files s); [done..|]. by apply HP.
Qed.

(** A condition made of harmless commands, and what follows when it does not hold. *)
Fixpoint harmless_condition (c : sh) : bool :=
  match c with Do c => harmless c | And a b => harmless_condition a && harmless_condition b | _ => false end.

Lemma runs_condition c : harmless_condition c = true → runs_sh c checking checking append_ended.
Proof.
  induction c as [c| |a IHa b IHb| | | |]; cbn [harmless_condition]; try done; [apply runs_harmless|].
  intros [Ha Hb]%andb_true_iff. eapply runs_and; [by apply IHa| |by intros s [_ Hs]].
  eapply runs_weaken; [|by intros s Hs; exact Hs|by apply IHb]. by intros s [_ Hs].
Qed.

Lemma runs_required c otherwise :
  harmless_condition c = true
  → (∀ P Q : Shell → Prop, stable P append_ended → (∀ s, P s → append_inv s) → runs_sh otherwise P Q append_ended)
  → runs_sh (Or c otherwise) checking checking append_ended.
Proof.
  intros Hc Ho. eapply runs_or; [by apply runs_condition| |by intros s [_ Hs]].
  apply Ho; [apply stable_fails, known_stable|]. by intros s [_ [Hi _]].
Qed.

Definition stops (otherwise : sh) : Prop :=
  ∀ P Q : Shell → Prop, stable P append_ended → (∀ s, P s → append_inv s) → runs_sh otherwise P Q append_ended.

Lemma stops_exit n : n ≠ 0%Z → stops (Do (Exit n)).
Proof. intros Hn P Q. by apply runs_leave. Qed.
Lemma stops_leave_with marker n : n ≠ 0%Z → stops (leave_with marker n).
Proof. intros Hn P Q _. by apply runs_leave_with. Qed.

Lemma runs_or_stop c otherwise (P : Shell → Prop) (X : RemoteFS → gmap string string → string → Prop) :
  stops otherwise → runs_sh c P (known (λ fs vs out st, st = 0%Z → X fs vs out)) append_ended
  → runs_sh (Or c otherwise) P (known (λ fs vs out _, X fs vs out)) append_ended.
Proof.
  intros Ho Hc. eapply runs_or; [exact Hc| |].
  - apply Ho; [apply stable_fails, known_stable|]. by intros s [_ [Hi _]].
  - intros s [H0 [Hi HX]]. split; auto.
Qed.

(** A command that changes the partial file only. *)
Lemma append_inv_partial s n : append_inv s → append_inv (with_fs (<[partial := n]> (sh_fs s)) s).
Proof.
  intros [Hf Hp Ht]. split; cbn; [| |done].
  - intros q ???. rewrite lookup_insert_ne; auto.
  - unfold resumed. rewrite lookup_insert_ne by done. exact Hp.
Qed.

Lemma append_partial (s : Shell) data fs' : append_file s partial data = Some fs' →
  ∃ c m, fs' = <[partial := RFile c m]> (sh_fs s).
Proof.
  unfold append_file, write_file. case_bool_decide; [done|].
  destruct (sh_fs s !! partial) as [[c m|]|]; intros [= <-]; eauto.
Qed.

Lemma runs_append : runs_sh (Do (CatAppend (Quoted partial))) checking
  (known (λ fs vs out st, st = 0%Z → unpublished fs out ∧ ∃ c m, fs !! partial = Some (RFile c m))) append_ended.
Proof.
  run_do; [apply known_stable| |].
  - intros s He [Hi [[Hp Ho] _]]. unfold after. cbn. unfold succeed. destruct (append_file _ _ _) as [fs'|] eqn:Hw; cbn; rewrite He.
    + apply append_partial in Hw as (c & m & ->). split.
      * apply (append_inv_files (with_fs (<[partial := RFile c m]> (sh_fs s)) s)); [done..|]. by apply append_inv_partial.
      * intros _. split; [split; [|done]; cbn; by rewrite lookup_insert_ne|]. exists c, m. cbn. apply lookup_insert_eq.
    + split; [by apply (append_inv_files s)|]. cbn. lia.
  - intros _ s z n He [Hi _]. unfold after. cbn. rewrite He. split; [|cbn; case_bool_decide; lia].
    destruct (append_file _ _ _) as [fs'|] eqn:Hw; cbn [default from_option id].
    + apply append_partial in Hw as (c & m & ->).
      apply (append_inv_files (with_fs (<[partial := RFile c m]> (sh_fs s)) s)); [done..|]. by apply append_inv_partial.
    + by apply (append_inv_files s).
Qed.

Definition holding (V : bytes → gmap string string → Prop) (fs : RemoteFS) (vs : gmap string string) (out : string) : Prop :=
  unpublished fs out ∧ ∃ c, fs !! partial = Some (RFile c mode) ∧ V c vs.

Lemma runs_set_mode :
  runs_sh (Do (Chmod mode (Quoted partial))) (known (λ fs vs out _, unpublished fs out ∧ ∃ c m, fs !! partial = Some (RFile c m)))
    (known (λ fs vs out st, st = 0%Z → holding (λ _ _, True) fs vs out)) append_ended.
Proof.
  run_do; [apply known_stable| |].
  - intros s He [Hi [[Hp Ho] (c & m & Hc)]]. unfold after. cbn. rewrite Hc. cbn. rewrite He. split.
    + apply (append_inv_files (with_fs (<[partial := RFile c mode]> (sh_fs s)) s)); [done..|]. by apply append_inv_partial.
    + intros _. split; [split; [|done]; cbn; by rewrite lookup_insert_ne|]. exists c. cbn. by rewrite lookup_insert_eq.
  - intros _ s z n He [Hi _]. unfold after. cbn. rewrite He. split; [by apply (append_inv_files s)|].
    cbn. case_bool_decide; lia.
Qed.

Definition var (v : string) (vs : gmap string string) : string := default "" (vs !! v).

(** An assignment from the partial file. *)
Lemma runs_measure c (P : bytes → gmap string string → Prop) (v : string) (f : bytes → string) :
  c = AssignSize v (Quoted partial) ∧ (∀ d, f d = pretty (Z.of_nat (length d))) ∨ c = AssignDigest v (Quoted partial) ∧ (∀ d, f d = digest_of d)
  → runs_sh (Or (Do c) (Do (Exit 74))) (known (λ fs vs out _, holding P fs vs out))
      (known (λ fs vs out _, holding (λ d vs, ∃ old w, vs = <[v := w]> old ∧ P d old ∧ (w = "" ∨ w = f d)) fs vs out)) append_ended.
Proof.
  intros Hc. apply runs_or_stop; [by apply stops_exit|].
  assert (Hset : ∀ s w, append_inv s → holding P (sh_fs s) (sh_vars s) (sh_stdout s) →
    (∀ d, sh_fs s !! partial = Some (RFile d mode) → w = "" ∨ w = f d) →
    known (λ fs vs out st, st = 0%Z → holding (λ d vs, ∃ old w, vs = <[v := w]> old ∧ P d old ∧ (w = "" ∨ w = f d)) fs vs out)
      (with_status 0 (with_var v w s))).
  { intros s w Hi [Hu (d & Hd & HP)] Hw. split; [by apply (append_inv_files s)|]. intros _. split; [done|]. exists d.
    split; [done|]. exists (sh_vars s), w. split_and!; auto. }
  assert (Hdata : expands c = false) by (destruct Hc as [[-> _]|[-> _]]; done).
  run_do; [apply known_stable| |].
  - intros s He [Hi Hh]. unfold after.
    destruct Hc as [[-> Hf]|[-> Hf]]; cbn [run_simple arg_value]; [|destruct sha_tool].
    + change (sh_end _) with (sh_end s). rewrite He. apply Hset; [done..|]. intros d ->. by right.
    + change (sh_end _) with (sh_end s). rewrite He. apply Hset; [done..|]. intros d ->. by right.
    + cbn. rewrite He. split; [by apply (append_inv_files s)|]. cbn. lia.
  - intros _ s z n He [Hi Hh]. unfold after.
    assert (fail_simple c z n s = with_status (if bool_decide (z = 0%Z) then 1%Z else z) s ∨ fail_simple c z n s = with_status 0 (with_var v "" s))
      as [-> | ->] by (destruct Hc as [[-> _]|[-> _]]; cbn [fail_simple]; destruct (n =? 0); auto).
    + cbn. rewrite He. split; [by apply (append_inv_files s)|]. cbn. case_bool_decide; lia.
    + change (sh_end _) with (sh_end s). rewrite He. apply Hset; [done..|]. by left.
Qed.

(** ** What was found *)

(** The partial file as it was found has the measure [word]. *)
Definition found_with (f : bytes → string) (word : string) : Prop :=
  ∃ c m, fs0 !! partial = Some (RFile c m) ∧ f c = word.
Definition length_word (c : bytes) : string := pretty (Z.of_nat (length c)).

(** A measurement of it, before anything is written. *)
Lemma runs_first_measure c (v : string) (f : bytes → string) :
  (c = AssignSize v (Quoted partial) ∧ f = length_word) ∨ (c = AssignDigest v (Quoted partial) ∧ f = digest_of)
  → runs_sh (Or (Do c) (Do (Exit 74))) checking
      (known (λ fs vs out _, as_found fs out ∧ (var v vs = "" ∨ found_with f (var v vs)))) append_ended.
Proof.
  intros Hc. apply runs_or_stop; [by apply stops_exit|].
  assert (Hdata : expands c = false) by (destruct Hc as [[-> _]|[-> _]]; done).
  assert (Hset : ∀ s w, append_inv s → as_found (sh_fs s) (sh_stdout s) → w = "" ∨ found_with f w →
    known (λ fs vs out st, st = 0%Z → as_found fs out ∧ (var v vs = "" ∨ found_with f (var v vs))) (with_status 0 (with_var v w s))).
  { intros s w Hi Hx Hw. split; [by apply (append_inv_files s)|]. intros _. split; [exact Hx|].
    unfold var. cbn. by rewrite lookup_insert_eq. }
  run_do; [apply known_stable| |].
  - intros s He [Hi Hx]. unfold after. pose proof Hx as [_ Hsame].
    destruct Hc as [[-> ->]|[-> ->]]; cbn [run_simple arg_value]; [|destruct sha_tool].
    + change (sh_end _) with (sh_end s). rewrite He. apply Hset; [done..|]. unfold found_with. rewrite Hsame.
      destruct (fs0 !! partial) as [[]|]; eauto.
    + change (sh_end _) with (sh_end s). rewrite He. apply Hset; [done..|]. unfold found_with. rewrite Hsame.
      destruct (fs0 !! partial) as [[]|]; eauto.
    + cbn. rewrite He. split; [by apply (append_inv_files s)|]. cbn. lia.
  - intros _ s z n He [Hi Hx]. unfold after.
    assert (fail_simple c z n s = with_status (if bool_decide (z = 0%Z) then 1%Z else z) s ∨ fail_simple c z n s = with_status 0 (with_var v "" s))
      as [-> | ->] by (destruct Hc as [[-> _]|[-> _]]; cbn [fail_simple]; destruct (n =? 0); auto).
    + cbn. rewrite He. split; [by apply (append_inv_files s)|]. cbn. case_bool_decide; lia.
    + change (sh_end _) with (sh_end s). rewrite He. apply Hset; auto.
Qed.

(** A fact that does not depend on the shell. *)
Lemma runs_with_fact (fact : Prop) c (P Q : Shell → Prop) :
  runs_sh c P Q append_ended → runs_sh c (λ s, P s ∧ fact) (λ s, Q s ∧ fact) append_ended.
Proof. intros Hc s He [HP Hfact]. eapply after_weaken; [|by apply Hc]. by intros t Ht. Qed.

(** What the two measurements said. *)
Definition measured_both (c : bytes) (vs : gmap string string) : Prop :=
  (var "actual_size" vs = "" ∨ var "actual_size" vs = pretty (Z.of_nat (length c)))
  ∧ (var "actual_sha" vs = "" ∨ var "actual_sha" vs = digest_of c).
Definition both_right (vs : gmap string string) : Prop := var "actual_size" vs = pretty size ∧ var "actual_sha" vs = digest.

Lemma runs_append_rest :
  runs_sh (seq_all (append_rest partial mode)) checking (known (λ fs vs out _, holding measured_both fs vs out)) append_ended.
Proof.
  unfold append_rest. cbn [seq_all].
  eapply runs_seq; [apply runs_or_stop; [by apply stops_exit|apply runs_append]|].
  eapply runs_seq; [apply runs_or_stop; [by apply stops_exit|apply runs_set_mode]|].
  eapply runs_seq; [apply (runs_measure _ _ "actual_size" (λ d, pretty (Z.of_nat (length d)))); by left|].
  eapply runs_weaken; [by intros s Hs; exact Hs| |apply (runs_measure _ _ "actual_sha" digest_of); by right].
  intros s [Hi [Hu (c & Hc & old & w & Hvs & (old' & w' & -> & _ & Hw') & Hw)]]. split; [done|]. split; [done|].
  exists c. split; [done|]. unfold measured_both, var. rewrite Hvs. split.
  - rewrite lookup_insert_ne, lookup_insert_eq by done. exact Hw'.
  - by rewrite lookup_insert_eq.
Qed.

Lemma runs_known_test a b (X : RemoteFS → gmap string string → string → Prop) (P : Shell → Prop) :
  stable P append_ended → (∀ s, P s → known (λ fs vs out _, X fs vs out) s)
  → runs_sh (Do (TestEq a b)) P
      (known (λ fs vs out st, X fs vs out ∧ (st = 0%Z →
         match a with Var v => var v vs | Quoted x | Plain x => x end = match b with Var v => var v vs | Quoted x | Plain x => x end)))
      append_ended.
Proof.
  intros Hst HP. run_do; [done| |done]. intros s He Hs. apply HP in Hs as [Hi HX]. unfold after. cbn. rewrite He.
  split; [by apply (append_inv_files s)|]. split; [done|]. cbn. case_bool_decide as Heq; [|done]. intros _.
  destruct a, b; exact Heq.
Qed.

Lemma runs_final_check :
  runs_sh (Or (And (Do (TestEq (Var "actual_size") (Plain (pretty size)))) (Do (TestEq (Var "actual_sha") (Quoted digest))))
      (leave_with "SSM_RESUME_ERROR digest_mismatch" 65))
    (known (λ fs vs out _, holding measured_both fs vs out))
    (known (λ fs vs out _, holding (λ c vs, verified c ∧ both_right vs) fs vs out)) append_ended.
Proof.
  apply runs_or_stop; [by apply stops_leave_with|].
  eapply runs_and; [apply (runs_known_test _ _ (λ fs vs out, holding measured_both fs vs out)); [apply known_stable|done]| |].
  - eapply runs_weaken; [by intros s Hs; exact Hs| |
      apply (runs_known_test (Var "actual_sha") (Quoted digest)
        (λ fs vs out, holding measured_both fs vs out ∧ var "actual_size" vs = pretty size)); [apply stable_succeeds, known_stable|]].
    + intros s [Hi [[[Hu (c & Hc & Hz & Hd)] Hsz] Hsha]]. split; [done|]. intros H0. split; [done|]. exists c. split; [done|].
      specialize (Hsha H0). split; [|done]. rewrite Hsz in Hz. rewrite Hsha in Hd. split.
      * destruct Hz as [Hz|Hz]; [by destruct (pretty_Z_not_empty size)|]. by apply (inj pretty) in Hz.
      * destruct Hd as [Hd|Hd]; congruence.
    + intros s [H0 [Hi [Hh Hz]]]. split; [done|]. split; [done|]. by apply Hz.
  - intros s [H0 [Hi _]]. split; [done|]. intros H1. by destruct (H0 H1).
Qed.

Definition was_moved (fs : RemoteFS) (vs : gmap string string) (out : string) : Prop := resumed fs ∧ out = "" ∧ both_right vs.

Lemma runs_move_partial :
  runs_sh (Or (Do (Move (Quoted partial) (Quoted path))) (leave_with "SSM_RESUME_ERROR publish_failed" 73))
    (known (λ fs vs out _, holding (λ c vs, verified c ∧ both_right vs) fs vs out)) (known (λ fs vs out _, was_moved fs vs out))
    append_ended.
Proof.
  apply runs_or_stop; [by apply stops_leave_with|]. run_do; [apply known_stable| |].
  - intros s He [Hi [[Hp Ho] (c & Hc & Hv & Hb)]]. unfold after. cbn. unfold succeed, move. rewrite Hc.
    assert (is_directory (sh_fs s) path = false) as Hnd by (unfold is_directory; rewrite Hp; by apply bool_decide_false).
    rewrite !Hnd. rewrite bool_decide_false by done. cbn. rewrite ?Hnd. cbn. rewrite He.
    assert (Hres : resumed (<[path:=RFile c mode]> (delete partial (sh_fs s)))) by (exists c; by rewrite lookup_insert_eq).
    split; [|intros _; by split].
    destruct Hi as [Hf Hpp Ht]. split; cbn; [|by right|done].
    intros q ???. rewrite lookup_insert_ne, lookup_delete_ne by done. auto.
  - intros _ s z n He [Hi _]. unfold after. cbn. rewrite He. split; [by apply (append_inv_files s)|]. cbn. case_bool_decide; lia.
Qed.

Lemma runs_remove_metadata :
  runs_sh (Do (RemoveFile (Quoted metadata))) (known (λ fs vs out _, was_moved fs vs out)) (known (λ fs vs out _, was_moved fs vs out))
    append_ended.
Proof.
  run_do; [apply known_stable| |].
  - intros s He [Hi (Hr & Ho & Hb)]. unfold after. cbn. unfold succeed, remove. destruct (is_directory _ _); [|case_bool_decide]; cbn; rewrite He.
    1,2: split; [by apply (append_inv_files s)|done].
    assert (Hres : resumed (delete metadata (sh_fs s))).
    { destruct Hr as (c & Hc & Hv). exists c. by rewrite lookup_delete_ne. }
    split; [|done]. destruct Hi as [Hf Hpp Ht]. split; cbn; [|by right|done].
    intros q ???. rewrite lookup_delete_ne; auto.
  - intros _ s z n He [Hi Hm]. unfold after. cbn. rewrite He. split; [by apply (append_inv_files s)|done].
Qed.

Definition append_complete : Shell → Prop :=
  known (λ fs vs out st, st = 0%Z → resumed fs ∧ out = upload_receipt size digest).

Lemma runs_print_append :
  runs_sh (Do (PrintTwo "SSM_TRANSFER" (Var "actual_size") (Var "actual_sha"))) (known (λ fs vs out _, was_moved fs vs out))
    append_complete append_ended.
Proof.
  run_do; [apply known_stable| |].
  - intros s He [Hi (Hr & Ho & Hz & Hd)]. unfold after. cbn. rewrite He. split; [by apply (append_inv_files s)|]. intros _.
    split; [done|]. cbn. unfold var in Hz, Hd. rewrite Hz, Hd, Ho. unfold upload_receipt, receipt_of, receipt_digest.
    rewrite bool_decide_false by done. same_text.
  - intros _ s z n He [Hi _]. unfold after. cbn. rewrite He. split; [by apply (append_inv_files s)|]. cbn. case_bool_decide; lia.
Qed.

(** A measurement and the test of it: afterwards the file as it was found is known to have
    that measure. *)
Lemma runs_first_test c (v : string) (f : bytes → string) (b : arg) (word : string) :
  (c = AssignSize v (Quoted partial) ∧ f = length_word) ∨ (c = AssignDigest v (Quoted partial) ∧ f = digest_of)
  → b = Plain word ∨ b = Quoted word → word ≠ ""
  → runs_sh (Seq (Or (Do c) (Do (Exit 74))) (Or (Do (TestEq (Var v) b)) (leave_with state_changed 65))) checking
      (λ s, checking s ∧ found_with f word) append_ended.
Proof.
  intros Hc Hb Hword. eapply runs_seq; [by apply runs_first_measure|].
  eapply runs_weaken; [by intros s Hs; exact Hs| |apply (runs_or_stop _ _ _ (λ fs vs out, as_found fs out ∧ found_with f word))].
  - by intros s [Hi [Hx Hfound]].
  - by apply stops_leave_with.
  - eapply runs_weaken; [by intros s Hs; exact Hs| |
      apply (runs_known_test _ _ (λ fs vs out, as_found fs out ∧ (var v vs = "" ∨ found_with f (var v vs)))); [apply known_stable|done]].
    intros s [Hi [[Hx Hv] Heq]]. split; [done|]. intros H0. specialize (Heq H0). split; [done|].
    assert (var v (sh_vars s) = word) as Hw by (by destruct Hb as [-> | ->]).
    rewrite Hw in Hv. by destruct Hv.
Qed.

(** The partial file as it was found: its length and its digest. *)
Definition agreed (offset : Z) (prefixDigest : string) : Prop :=
  ∃ c m, fs0 !! partial = Some (RFile c m) ∧ Z.of_nat (length c) = offset ∧ digest_of c = prefixDigest.

Lemma found_agreed offset prefixDigest :
  found_with length_word (pretty offset) → found_with digest_of prefixDigest → agreed offset prefixDigest.
Proof.
  intros (c & m & Hc & Hl) (c' & m' & Hc' & Hd). rewrite Hc in Hc'. injection Hc' as <- <-.
  exists c, m. split; [done|]. split; [|done].
  unfold length_word in Hl. by apply (inj pretty) in Hl.
Qed.

(** ** The whole command *)

Lemma runs_all (l : list sh) : Forall (λ c, runs_sh c checking checking append_ended) l → l ≠ []
  → runs_sh (seq_all l) checking checking append_ended.
Proof.
  induction l as [|c l IH]; [done|]. intros [Hc Hl]%Forall_cons _. destruct l as [|d l]; [done|].
  eapply runs_cons; [done|exact Hc|by apply IH].
Qed.

Lemma runs_append_checks offset prefixDigest :
  prefixDigest ≠ ""
  → runs_sh (seq_all ([Do Functions; tool_check (Quoted tool_missing)] ++ append_checks partial metadata digest size offset prefixDigest))
      checking (λ s, checking s ∧ agreed offset prefixDigest) append_ended.
Proof.
  intros Hpre. unfold append_checks. rewrite !app_assoc. eapply runs_app; [done|done| |].
  - apply runs_all; [|done]. unfold meta_check, files_check, tool_check. cbn [app].
    repeat apply Forall_cons_2; [by apply runs_harmless| |..|apply Forall_nil_2];
      first [by apply runs_harmless | apply runs_required; [done|first [by apply stops_leave_with|by apply stops_exit]]].
  - unfold size_or_exit, digest_or_exit.
    apply (runs_app _ _ _ _ [_; _] [_; _] checking (λ s, checking s ∧ found_with length_word (pretty offset))); [done|done| |].
    + apply (runs_first_test _ _ length_word); [by left|by left|]. apply pretty_Z_not_empty.
    + eapply runs_weaken; [by intros s Hs; exact Hs| |apply runs_with_fact, (runs_first_test _ _ digest_of); [by right|by right|done]].
      intros s [[Hs Hd] Hl]. split; [done|]. by apply found_agreed.
Qed.

Lemma runs_append_script offset prefixDigest :
  prefixDigest ≠ ""
  → runs_sh (append_script path partial metadata mode size digest offset prefixDigest) checking
      (λ s, append_complete s ∧ agreed offset prefixDigest) append_ended.
Proof.
  intros Hpre. unfold append_script. rewrite app_assoc. eapply runs_app; [done|done|by apply runs_append_checks|].
  apply runs_with_fact. eapply runs_app; [done|done|apply runs_append_rest|]. unfold append_publish. cbn [seq_all].
  eapply runs_seq; [apply runs_final_check|]. eapply runs_seq; [apply runs_move_partial|].
  eapply runs_seq; [apply runs_remove_metadata|apply runs_print_append].
Qed.

Lemma append_outcome (fact : Prop) script payload :
  runs_sh script checking (λ s, append_complete s ∧ fact) append_ended →
  let s := run_script pid sha_tool stale faults script fs0 payload in
  append_inv s ∧ (exit_status s = Some 0%Z → resumed (sh_fs s) ∧ sh_stdout s = upload_receipt size digest ∧ fact).
Proof.
  intros Hrun. assert (Hstart : checking (start fs0 payload)) by (split; [split; cbn; auto|done]).
  specialize (Hrun (start fs0 payload) eq_refl Hstart). unfold run_script. set (s := exec _ _ _ _ _ _) in *. unfold after in Hrun.
  assert (Htrap : ∀ t, append_inv t → run_trap t = t) by (intros t [_ _ Ht]; unfold run_trap; by rewrite Ht).
  destruct (sh_end s) as [[z|]|] eqn:Es.
  - destruct Hrun as [Hi Hz]. rewrite Htrap by done. split; [done|]. unfold exit_status. rewrite Es. intros [= ->]. done.
  - destruct Hrun as [Hi _]. split; [done|]. unfold exit_status. by rewrite Es.
  - destruct Hrun as [[Hi Hc] Hfact]. rewrite Htrap by (by apply (append_inv_files s)). split; [by apply (append_inv_files s)|].
    cbn. intros [= H0]. by destruct (Hc H0).
Qed.
End Append.

(** The second command on the remote host, whatever happens there: a destination that is
    no directory is as it was, or it is a file with the announced length, digest and
    permissions; only the partial file and its description are touched besides; and
    success is reported only with the second outcome, when the partial file had the
    announced length and digest before anything was appended. *)
Theorem resume_is_atomic `{!Sha256} pid sha_tool stale faults fs payload path partial metadata mode size digest offset prefixDigest s :
  partial ≠ path → metadata ≠ path → fs !! path ≠ Some RDir → digest ≠ "" → prefixDigest ≠ ""
  → run_script pid sha_tool stale faults (append_script path partial metadata mode size digest offset prefixDigest) fs payload = s
  → let complete := ∃ content, sh_fs s !! path = Some (RFile content mode) ∧ Z.of_nat (length content) = size ∧ digest_of content = digest in
    (sh_fs s !! path = fs !! path ∨ complete)
    ∧ (∀ q, q ≠ path → q ≠ partial → q ≠ metadata → sh_fs s !! q = fs !! q)
    ∧ (exit_status s = Some 0%Z → complete ∧ sh_stdout s = upload_receipt size digest
       ∧ ∃ found m, fs !! partial = Some (RFile found m) ∧ Z.of_nat (length found) = offset ∧ digest_of found = prefixDigest).
Proof.
  intros Hp Hm Hdir Hd Hpre <-. cbv zeta.
  destruct (append_outcome pid sha_tool stale faults fs path partial metadata mode size digest _ _ payload
    (runs_append_script pid sha_tool stale faults fs path partial metadata mode size digest Hp Hm Hdir Hd offset prefixDigest Hpre))
    as ([Hf Hpath _] & He).
  split_and!; [exact Hpath|exact Hf|exact He].
Qed.

(** ** The client *)

Section Client.
Context `{!Sha256} `{!Sha256Laws _} `{!UnicodeCase}.
Context (RedactString : string → string) (windows : bool).

Lemma resume_session_ok w cmd size digest result r :
  resume_session RedactString w cmd size digest result = (r, None) →
  ra_wait (rw_exec w cmd) = None ∧ tr_OK r = true ∧ tr_RemoteSHA256 r = digest ∧ tr_LocalSHA256 r = tr_LocalSHA256 result
  ∧ parseUploadReceipt (ra_stdout (rw_exec w cmd)) = Some (size, digest).
Proof.
  unfold resume_session. destruct (rw_session w); [done|]. destruct (rw_stdin w); [done|]. set (a := rw_exec w cmd).
  destruct (ra_start a); [done|]. cbv zeta. destruct (ra_copy a); [done|]. destruct (ra_close a); [done|].
  destruct (ra_wait a) eqn:Hw; [done|]. destruct (parseUploadReceipt _) as [[z d]|]; [|done].
  destruct (negb _ || _) eqn:Hbad; [done|]. intros [= <-].
  apply orb_false_iff in Hbad as [Hz%negb_false_iff%bool_decide_eq_true Hd%negb_false_iff%bool_decide_eq_true]. by subst z d.
Qed.

Lemma probeResumeState_range w partial metadata pattern size digest state :
  probeResumeState RedactString w partial metadata pattern size digest = inl state → (0 ≤ rs_Offset state ≤ size)%Z.
Proof.
  unfold probeResumeState. destruct (rw_probe_session w); [done|]. destruct (ra_wait _); [repeat case_match; done|].
  unfold parse_resume_state. destruct (Fields _) as [|t [|o [|d [|? ?]]]]; try done.
  destruct (bool_decide _); [done|]. destruct (Atoi o) as [n|]; [|done].
  destruct ((n <? 0)%Z || (size <? n)%Z || _) eqn:Hb; [done|]. intros [= <-]. cbn.
  apply orb_false_iff in Hb as [Hb _]. apply orb_false_iff in Hb as [?%Z.ltb_ge ?%Z.ltb_ge]. done.
Qed.

(** C16: A resumed upload reports success only when the first command reported an offset
    and, as the digest of what is there, the digest of the local file's bytes before that
    offset; when the second command found a partial file of just that length and digest;
    and when the destination, unless it is a directory, holds a file with the length and
    digest of the whole local file. *)
Theorem resume_success_is_published c remotePath opts w r :
  uploadFileResumable RedactString windows c remotePath opts w = (r, None)
  → ∃ mode size content prefix offset partial metadata pattern,
      let digest := digest_of content in
      resumePaths remotePath digest = (partial, metadata, pattern) ∧
      let script := append_script remotePath partial metadata (Z.land mode 511) size digest offset (digest_of prefix) in
      tr_OK r = true ∧ rw_stat w = inr (Some (mode, size)) ∧ rw_read w = inr content ∧ rw_prefix w offset = inr prefix
      ∧ probeResumeState RedactString w partial metadata pattern size digest = inl (mkResumeState offset (digest_of prefix))
      ∧ (0 ≤ offset ≤ size)%Z ∧ tr_LocalSHA256 r = digest ∧ tr_RemoteSHA256 r = digest
      ∧ ∀ fs s, partial ≠ remotePath → metadata ≠ remotePath → fs !! remotePath ≠ Some RDir
          → answered_by_shell (rw_exec w (sh_text script)) fs script s
          → (∃ found m, fs !! partial = Some (RFile found m) ∧ Z.of_nat (length found) = offset ∧ digest_of found = digest_of prefix)
            ∧ ∃ payload, sh_fs s !! remotePath = Some (RFile payload (Z.land mode 511))
              ∧ Z.of_nat (length payload) = size ∧ digest_of payload = digest.
Proof.
  unfold uploadFileResumable. cbv zeta. destruct (bool_decide _); [done|]. destruct (rw_open w); [done|].
  destruct (rw_stat w) as [|[[mode size]|]] eqn:Hstat; [done| |done]. destruct (rw_read w) as [|content] eqn:Hread; [done|].
  destruct (resumePaths remotePath (digest_of content)) as [[partial metadata] pattern] eqn:Hpaths.
  destruct (rw_dial w); [done|]. destruct (probeResumeState _ _ _ _ _ _ _) as [state|] eqn:Hprobe; [|done].
  destruct (rw_prefix w (rs_Offset state)) as [|prefix] eqn:Hprefix; [done|].
  case_bool_decide as Hpre; [done|]. destruct (rw_seek w (rs_Offset state)); [done|]. intros Hses.
  pose proof (probeResumeState_range _ _ _ _ _ _ _ Hprobe) as Hrange.
  apply resume_session_ok in Hses as (Hwait & HOK & Hremote & Hlocal & _).
  assert (Hdigest : rs_Digest state = digest_of prefix) by (destruct (decide (digest_of prefix = rs_Digest state)); [done|by destruct Hpre]).
  exists mode, size, content, prefix, (rs_Offset state), partial, metadata, pattern. cbv zeta.
  split_and!; try done; [by destruct state; cbn in *; subst|lia|lia|].
  intros fs s Hp Hm Hdir (pid & tool & stale & faults & payload & Hrun & Hans).
  rewrite Hdigest, append_text in Hwait. destruct (Hans Hwait) as [Hexit _].
  destruct (append_outcome pid tool stale faults fs remotePath partial metadata (Z.land mode 511) size (digest_of content) _ _ payload
    (runs_append_script pid tool stale faults fs remotePath partial metadata (Z.land mode 511) size (digest_of content) Hp Hm Hdir
      (digest_not_empty content) (rs_Offset state) (digest_of prefix) (digest_not_empty prefix))) as [_ Hdone].
  rewrite Hrun in Hdone. destruct (Hdone Hexit) as [(data & Hfile & Hlen & Hdg) [_ Hfound]]. split; [exact Hfound|by exists data].
Qed.
End Client.

(** The command lines of an upload, of a probe and of a resumed upload are, byte for byte
    and for all names, sizes and digests, the texts of the scripts that the theorems about
    the remote host are proved for. *)
Theorem transfer_commands_are_scripts :
  (∀ remotePath mode size digest dirMode,
     uploadCommandWithIntegrity remotePath mode size digest dirMode = sh_text (upload_script remotePath mode size digest dirMode))
  ∧ (∀ partial metadata cleanupPattern size digest,
     probeCommand partial metadata cleanupPattern size digest = sh_text (probe_script partial metadata cleanupPattern size digest))
  ∧ (∀ remotePath partial metadata mode size digest offset prefixDigest,
     resumeAppendCommand remotePath partial metadata mode size digest offset prefixDigest
     = sh_text (append_script remotePath partial metadata mode size digest offset prefixDigest)).
Proof. split_and!; intros; [apply upload_text|apply probe_text|apply append_text]. Qed.
