(* ===== verification/Download.v ===== *)
(** * Downloads ([ssh/filecopy.go], [ssh/download_staging.go])

    A file is received under a temporary name beside its destination and renamed; a
    directory is received over a copy of the destination and changed places with it.
    The local files are a map; what each call answers is an argument. *)

From stdpp Require Import pretty.
From Stdlib Require Import Ascii Strings.Byte.
From S2P Require Import Prelude GoStrings GoErrors GoRegexp Config Redaction FailurePolicy MachineContract SyncProtocol RemoteCommand SshDial RemoteShell Upload.

(** ** Local files *)

(** A directory is the files below it, by their path in it. *)
Abbreviation tree := (gmap string (bytes * Z)).
Inductive local_node := LFile (content : bytes) (mode : Z) | LTree (t : tree).
#[export] Instance local_node_eq_dec : EqDecision local_node.
Proof. solve_decision. Defined.
Abbreviation LocalFS := (gmap string local_node).

(** [os.Rename] of something that is there, in place of what has the new name. *)
Definition rename_node (old new : string) (fs : LocalFS) : LocalFS :=
  match fs !! old with Some n => <[new := n]> (delete old fs) | None => fs end.

(** What a call answers: its error, or that it did its work. *)
Definition call (err : option sshError) (done fs : LocalFS) : LocalFS := match err with None => done | Some _ => fs end.

Section Download.
Context `{!Sha256} `{!UnicodeCase}.
Context (RedactString : string → string) (windows : bool).

Notation transferError := (transferError RedactString).
Notation transferKindError := (transferKindError RedactString).

(** An error of a download: one with a failure of its own, or any other. *)
Abbreviation DownloadError := (TransferError + sshError)%type.

(** ** The digest of a remote file *)

Definition remote_digest_command (remotePath : string) : string :=
  remoteSHA256Helpers +:+ "ssm_sha256_tool >/dev/null || { echo " +:+ integrityToolMissingMarker +:+ "; exit 69; }; "
  +:+ "[ -f " +:+ ShellQuote remotePath +:+ " ] || { echo 'not a regular file' >&2; exit 66; }; ssm_sha256 " +:+ ShellQuote remotePath.

Definition stderr_or_error (stderr : string) (err : sshError) : string :=
  let message := TrimSpace stderr in if bool_decide (message = "") then x_Message err else message.

Definition remoteFileSHA256 (session : option sshError) (exec : string → Answer) (remotePath : string) : string + TransferError :=
  match session with
  | Some e => inr (transferError TransferSessionOpenFailed 0 e)
  | None =>
      let a := exec (remote_digest_command remotePath) in
      match ra_wait a with
      | Some e =>
          if Contains (ra_stdout a) integrityToolMissingMarker then
            inr (transferKindError IntegrityToolUnavailable 0 (plain_error remoteSHA256UnavailableMessage))
          else inr (transferError TransferDownloadRemoteRead 0 (plain_error (stderr_or_error (ra_stderr a) e)))
      | None =>
          let digest := ToLower (TrimSpace (ra_stdout a)) in
          if negb (String.length digest =? 64) then
            inr (transferError TransferDownloadRemoteRead 0 (plain_error "remote returned an invalid SHA-256 digest"))
          else inl digest
      end
  end.

(** ** Files *)

Record DownloadOptions := mkDownloadOptions { do_VerifySHA256 : bool; do_Timeout : Z }.

(** [os.MkdirAll], [os.CreateTemp], the connection, the digest, the session, the spool of
    its diagnostics, the run of [cat] with the bytes it wrote, reading the file back, and
    [Stat], [Close], [Chmod], [Rename], [Remove] and the replay of the diagnostics. *)
Record DownloadWorld := mkDownloadWorld {
  dw_mkdir : option sshError;
  dw_create : sshError + string;
  dw_dial : option sshError;
  dw_digest_session : option sshError;
  dw_digest : string → Answer;
  dw_session : option sshError;
  dw_spool : option sshError;
  dw_exec : string → Answer;
  dw_read : option sshError;
  dw_stat : option sshError;
  dw_close : option sshError;
  dw_chmod : option sshError;
  dw_rename : option sshError;
  dw_remove : option sshError;
  dw_replay : bool → option sshError;
}.

Definition newFileDownloadStaging (w : DownloadWorld) (fs : LocalFS) : LocalFS * (string + TransferError) :=
  match dw_mkdir w with
  | Some e => (fs, inr (transferError TransferDownloadLocalWrite 0 (wrap_error "create local parent dir: " e)))
  | None =>
      match dw_create w with
      | inl e => (fs, inr (transferError TransferDownloadLocalWrite 0 e))
      | inr name => (<[name := LFile [] 384]> fs, inl name)
      end
  end.

(** Without a publication the temporary file is removed. *)
Definition cleanup (w : DownloadWorld) (name : string) (published : bool) (fs : LocalFS) : LocalFS :=
  if published then fs else call (dw_remove w) (delete name fs) fs.

Definition node_size (n : option local_node) : Z := match n with Some (LFile c _) => Z.of_nat (length c) | _ => 0 end.
Definition change_mode (name : string) (mode : Z) (fs : LocalFS) : LocalFS :=
  match fs !! name with Some (LFile c _) => <[name := LFile c mode]> fs | _ => fs end.

(** The bytes received, whether the file has its name, and the error. *)
Definition publish (w : DownloadWorld) (name localPath : string) (fs : LocalFS) : LocalFS * Z * bool * option TransferError :=
  match dw_stat w with
  | Some e => (fs, 0%Z, false, Some (transferError TransferDownloadLocalWrite 0 e))
  | None =>
      let received := node_size (fs !! name) in
      match dw_close w with
      | Some e => (fs, received, false, Some (transferError TransferDownloadLocalWrite 0 e))
      | None =>
      match dw_chmod w with
      | Some e => (fs, received, false, Some (transferError TransferDownloadLocalWrite 0 e))
      | None =>
          let fs := change_mode name 384 fs in
          match dw_rename w with
          | Some e => (fs, received, false, Some (transferError TransferDownloadPublish 0 e))
          | None => (rename_node name localPath fs, received, true, None)
          end
      end end
  end.

Definition tr_with_received (x : Z) (r : TransferResult) : TransferResult :=
  mkTransferResult (tr_OK r) (tr_Direction r) (tr_Kind r) (tr_Stage r) (tr_BytesSent r) x (tr_Integrity r) (tr_LocalSHA256 r)
    (tr_RemoteSHA256 r) (tr_Atomic r) (tr_Resume r) (tr_BytesReused r).

(** From the digest on: what is left, whether it was published, the result, the error. *)
Definition receive_remote (w : DownloadWorld) (opts : DownloadOptions) (c : Connection) (remotePath localPath name : string)
    (remoteDigest : string) (result : TransferResult) (fs : LocalFS) : LocalFS * bool * TransferResult * option DownloadError :=
  match dw_session w with
  | Some e =>
      let classified := ClassifyError RedactString windows e c in
      (fs, false, tr_with_stage "session" result, Some (inr (classified_error classified (Some e))))
  | None =>
  match dw_spool w with
  | Some e => (fs, false, result, Some (inr e))
  | None =>
      (* the deferred replay: its error is reported when there is no other *)
      let finish fs published result err succeeded :=
        let replay := dw_replay w succeeded in
        (fs, published, result, match err with Some e => Some e | None => inr <$> replay end) in
      let a := dw_exec w (downloadCommand remotePath) in
      let fs := <[name := LFile (ra_sent a) 384]> fs in
      let result := tr_with_stage "remote_read" result in
      match ra_wait a with
      | Some e =>
          if ra_timed_out a then finish fs false (tr_with_stage "timeout" result) (Some (inl (transferError TransferTimedOut 0 e))) false
          else finish fs false result (Some (inl (transferError TransferDownloadRemoteRead 0 e))) false
      | None =>
          let verified :=
            if negb (do_VerifySHA256 opts) then inr result
            else match dw_read w with
                 | Some e => inl (result, transferError TransferDownloadLocalWrite 0 e)
                 | None =>
                     let localDigest := digest_of (ra_sent a) in
                     let result := tr_with_local localDigest result in
                     if bool_decide (localDigest ≠ remoteDigest) then
                       inl (tr_with_integrity "mismatch" (tr_with_stage "integrity" result),
                            transferError TransferDownloadIntegrityMismatch 0
                              (plain_error "downloaded file SHA-256 does not match the remote digest"))
                     else inr result
                 end in
          match verified with
          | inl (result, e) => finish fs false result (Some (inl e)) false
          | inr result =>
              let '(fs, received, published, err) := publish w name localPath fs in
              let result := tr_with_received received result in
              match err with
              | Some e => finish fs published (tr_with_stage (f_Stage (te_Failure e)) result) (Some (inl e)) false
              | None =>
                  finish fs published
                    (tr_completed (if do_VerifySHA256 opts then "sha256_verified" else tr_Integrity result) (tr_RemoteSHA256 result) result)
                    None true
              end
          end
      end
  end end.

Definition downloadFileWithOptions (w : DownloadWorld) (opts : DownloadOptions) (c : Connection) (remotePath localPath : string)
    (fs : LocalFS) : LocalFS * TransferResult * option DownloadError :=
  let result := mkTransferResult false "get" "file" "local_write" 0 0 "not_checked" "" "" true "unsupported" 0 in
  let '(fs, staging) := newFileDownloadStaging w fs in
  match staging with
  | inr e => (fs, result, Some (inl e))
  | inl name =>
      match dw_dial w with
      | Some e => (cleanup w name false fs, tr_with_stage "dial" result, Some (inr e))
      | None =>
          let digest :=
            if do_VerifySHA256 opts then
              match remoteFileSHA256 (dw_digest_session w) (dw_digest w) remotePath with
              | inr e =>
                  if ra_timed_out (dw_digest w (remote_digest_command remotePath)) then inr (transferError TransferTimedOut 0 (te_Cause e))
                  else inr e
              | inl d => inl d
              end
            else inl "" in
          let result := if do_VerifySHA256 opts then tr_with_stage "integrity" result else result in
          match digest with
          | inr e => (cleanup w name false fs, result, Some (inl e))
          | inl d =>
              let result := if do_VerifySHA256 opts then tr_with_remote d result else result in
              let '(fs, published, result, err) := receive_remote w opts c remotePath localPath name d result fs in
              (cleanup w name published fs, result, err)
          end
      end
  end.
End Download.

(** ** Downloads leave the old file or the whole new one *)

Section Facts.
Context `{!Sha256} `{!UnicodeCase}.
Context (RedactString : string → string) (windows : bool).

(** ** Files *)

Lemma lookup_call err (done fs : LocalFS) q : call err done fs !! q = match err with None => done !! q | Some _ => fs !! q end.
Proof. by destruct err. Qed.

Lemma change_mode_file name c m mode (fs : LocalFS) :
  fs !! name = Some (LFile c m) → change_mode name mode fs = <[name := LFile c mode]> fs.
Proof. unfold change_mode. by intros ->. Qed.

(** The temporary file is new and is not the destination. *)
Definition fresh_name (w : DownloadWorld) (localPath : string) (fs : LocalFS) : Prop :=
  ∀ name, dw_create w = inr name → fs !! name = None ∧ name ≠ localPath.

(** What a publication left. *)
Definition arrived (w : DownloadWorld) (opts : DownloadOptions) (remotePath localPath : string) (fs : LocalFS) (r : TransferResult) : Prop :=
  let a := dw_exec w (downloadCommand remotePath) in
  fs !! localPath = Some (LFile (ra_sent a) 384) ∧ ra_wait a = None ∧ tr_OK r = true
  ∧ tr_BytesReceived r = Z.of_nat (length (ra_sent a))
  ∧ (do_VerifySHA256 opts = true → tr_LocalSHA256 r = digest_of (ra_sent a) ∧ tr_RemoteSHA256 r = digest_of (ra_sent a)).

Lemma receive_remote_cases w opts c remotePath localPath name d result fs fs' published r err :
  receive_remote RedactString windows w opts c remotePath localPath name d result fs = (fs', published, r, err)
  → name ≠ localPath → tr_OK result = false → (do_VerifySHA256 opts = true → tr_RemoteSHA256 result = d)
  → (∀ q, q ≠ name → q ≠ localPath → fs' !! q = fs !! q)
    ∧ if published then arrived w opts remotePath localPath fs' r ∧ fs' !! name = None
      else fs' !! localPath = fs !! localPath ∧ tr_OK r = false ∧ err ≠ None.
Proof.
  unfold receive_remote. intros Hr Hne HOK Hd.
  destruct (dw_session w); [by injection Hr as <- <- <- <-|]. destruct (dw_spool w); [by injection Hr as <- <- <- <-|].
  cbv zeta in Hr. set (a := dw_exec w (downloadCommand remotePath)) in *. set (fs1 := <[name:=LFile (ra_sent a) 384]> fs) in *.
  assert (Hother : ∀ q, q ≠ name → fs1 !! q = fs !! q) by (intros q ?; unfold fs1; by rewrite lookup_insert_ne).
  assert (Hname : fs1 !! name = Some (LFile (ra_sent a) 384)) by apply lookup_insert_eq.
  destruct (ra_wait a) as [e|] eqn:Hwait.
  { destruct (ra_timed_out a); injection Hr as <- <- <- <-; (split; [auto|]); split_and!; auto. }
  set (verified := if negb (do_VerifySHA256 opts) then _ else _) in Hr.
  assert (Hver : match verified with
    | inl (r, _) => tr_OK r = false
    | inr r => tr_OK r = false ∧ tr_RemoteSHA256 r = tr_RemoteSHA256 result
               ∧ (do_VerifySHA256 opts = true → tr_LocalSHA256 r = digest_of (ra_sent a) ∧ d = digest_of (ra_sent a)) end).
  { unfold verified. destruct (do_VerifySHA256 opts); cbn [negb]; [|done]. destruct (dw_read w); [done|].
    case_bool_decide as Heq; [done|]. split_and!; [done..|]. intros _. split; [done|].
    destruct (decide (d = digest_of (ra_sent a))) as [|Hneq]; [done|]. by destruct Heq. }
  destruct verified as [[r0 e]|r0].
  { injection Hr as <- <- <- <-. split; [auto|]. split_and!; auto. }
  destruct Hver as (HOK0 & Hrem & Hdig). unfold publish in Hr.
  destruct (dw_stat w); [injection Hr as <- <- <- <-; split; [auto|]; split_and!; auto|].
  destruct (dw_close w); [injection Hr as <- <- <- <-; split; [auto|]; split_and!; auto|].
  destruct (dw_chmod w); [injection Hr as <- <- <- <-; split; [auto|]; split_and!; auto|].
  rewrite (change_mode_file _ _ _ _ _ Hname) in Hr.
  assert (Hsame : <[name:=LFile (ra_sent a) 384]> fs1 = fs1) by (by apply insert_id). rewrite Hsame in Hr.
  destruct (dw_rename w); [injection Hr as <- <- <- <-; split; [auto|]; split_and!; auto|].
  rewrite Hname in Hr. cbn [node_size] in Hr. unfold rename_node in Hr. rewrite Hname in Hr. injection Hr as <- <- <- <-.
  split.
  - intros q ??. rewrite lookup_insert_ne, lookup_delete_ne by done. auto.
  - split; [|by rewrite lookup_insert_ne, lookup_delete_eq].
    unfold arrived. cbv zeta. fold a. split_and!; [by rewrite lookup_insert_eq|done..|].
    intros Hv. destruct (Hdig Hv) as [Hl Hd']. cbn. split; [done|]. rewrite Hrem, (Hd Hv). exact Hd'.
Qed.

(** The cleanup leaves the destination alone and removes the temporary file. *)
Lemma cleanup_facts w name published localPath (fs0 fs : LocalFS) :
  name ≠ localPath → fs0 !! name = None → (∀ q, q ≠ name → q ≠ localPath → fs !! q = fs0 !! q)
  → (published = true → fs !! name = None)
  → cleanup w name published fs !! localPath = fs !! localPath
    ∧ (∀ q, q ≠ localPath → q ≠ name → cleanup w name published fs !! q = fs0 !! q)
    ∧ (dw_remove w = None → cleanup w name published fs !! name = None).
Proof.
  intros Hne Hnew Hother Hpub. unfold cleanup. destruct published.
  - split_and!; [done| |by auto]. intros q ??. auto.
  - split_and!.
    + rewrite lookup_call. destruct (dw_remove w); [done|]. by rewrite lookup_delete_ne.
    + intros q Hq Hqn. rewrite lookup_call. destruct (dw_remove w); rewrite ?lookup_delete_ne by done; auto.
    + intros Hrm. rewrite lookup_call, Hrm. apply lookup_delete_eq.
Qed.

(** C17: A download leaves the destination as it was, or the whole new file under its name,
    verified when that was asked for; in the first case it reports an error, in the
    second that the transfer is complete. Nothing else is touched, and the temporary file
    is gone when it could be removed. *)
Theorem download_is_all_or_nothing w opts c remotePath localPath fs fs' r err :
  fresh_name w localPath fs
  → downloadFileWithOptions RedactString windows w opts c remotePath localPath fs = (fs', r, err)
  → (arrived w opts remotePath localPath fs' r ∨ fs' !! localPath = fs !! localPath ∧ tr_OK r = false ∧ err ≠ None)
    ∧ (∀ q, q ≠ localPath → dw_create w ≠ inr q → fs' !! q = fs !! q)
    ∧ (dw_remove w = None → ∀ name, dw_create w = inr name → fs' !! name = None).
Proof.
  intros Hfresh. unfold downloadFileWithOptions, newFileDownloadStaging.
  destruct (dw_mkdir w) as [e|].
  { intros [= <- <- <-]. split_and!; [by right|done|]. intros _ name Hname. by destruct (Hfresh name Hname). }
  destruct (dw_create w) as [e|name] eqn:Hcreate.
  { intros [= <- <- <-]. split_and!; [by right|done|done]. }
  destruct (Hfresh name Hcreate) as [Hnew Hne]. set (fs1 := <[name:=LFile [] 384]> fs).
  assert (Hfs1 : ∀ q, q ≠ name → fs1 !! q = fs !! q) by (intros q ?; unfold fs1; by rewrite lookup_insert_ne).
  clearbody fs1.
  assert (Hearly : ∀ r0 (e : TransferError + sshError), tr_OK r0 = false → (cleanup w name false fs1, r0, Some e) = (fs', r, err) →
    (arrived w opts remotePath localPath fs' r ∨ fs' !! localPath = fs !! localPath ∧ tr_OK r = false ∧ err ≠ None)
    ∧ (∀ q, q ≠ localPath → inr name ≠ inr (A := sshError) q → fs' !! q = fs !! q)
    ∧ (dw_remove w = None → ∀ n, inr name = inr (A := sshError) n → fs' !! n = None)).
  { intros r0 e HOK [= <- <- <-].
    destruct (cleanup_facts w name false localPath fs fs1 Hne Hnew ltac:(intros q Hq _; by apply Hfs1) ltac:(done)) as (Hl & Ho & Hn).
    unfold cleanup in Hl, Ho, Hn. split_and!; [right; split_and!; [by rewrite Hl, Hfs1|done|done]| |by intros Hrm n [= <-]; auto].
    intros q Hq Hqn. apply Ho; congruence. }
  destruct (dw_dial w) as [e|]; [by apply Hearly|]. cbv zeta.
  set (digest := if do_VerifySHA256 opts then _ else _). destruct digest as [d|e]; [|apply Hearly; by destruct (do_VerifySHA256 opts)].
  set (result := if do_VerifySHA256 opts then tr_with_remote d _ else _).
  assert (HOK : tr_OK result = false) by (unfold result; by destruct (do_VerifySHA256 opts)).
  assert (Hrem : do_VerifySHA256 opts = true → tr_RemoteSHA256 result = d) by (unfold result; by intros ->).
  destruct (receive_remote _ _ _ _ _ _ _ _ _ _ _) as [[[fs2 published] r2] err2] eqn:Hrec. intros [= <- <- <-].
  apply receive_remote_cases in Hrec as [Hother Hcases]; try done.
  destruct (cleanup_facts w name published localPath fs fs2 Hne Hnew) as (Hl & Ho & Hn).
  { intros q ??. rewrite Hother by done. by apply Hfs1. }
  { intros ->. apply Hcases. }
  split_and!; [| |by intros Hrm n [= <-]; auto].
  - destruct published.
    + left. destruct Hcases as [(Hf & Harr) _]. split; [by rewrite Hl|done].
    + right. destruct Hcases as (Hf & ? & ?). split_and!; [|done..]. rewrite Hl, Hf. by apply Hfs1.
  - intros q Hq Hqn. apply Ho; congruence.
Qed.
End Facts.
