(* ===== verification/DirectoryTransfer.v ===== *)
(** * Directories ([ssh/dirsync.go], [ssh/download_staging.go])

    A directory is received over a copy of its destination, which then changes places
    with it; it is sent as an archive, or file by file where there is no local [tar].
    A publication is the list of the file systems it goes through, since the program may
    be stopped after any of its calls. *)

From stdpp Require Import pretty.
From Stdlib Require Import Ascii Strings.Byte.
From S2P Require Import Prelude GoStrings GoErrors GoRegexp Config Redaction FailurePolicy MachineContract SyncProtocol RemoteCommand SshDial RemoteShell Upload Download Resume.

(** ** The two ends of a download *)

Inductive downloadEnd := downloadEndNone | downloadEndRemote | downloadEndLocal.
#[export] Instance downloadEnd_eq_dec : EqDecision downloadEnd.
Proof. solve_decision. Defined.

Definition is_exit (e : option sshError) : bool :=
  match e with Some e => bool_decide (is_Some (x_ExitStatus e)) | None => false end.

(** Which end failed first, from the one that ended first and what both said; an end that
    was killed or closed after the other failed says so in its error. *)
Definition superviseDirectoryDownload (remote_first : bool) (remoteErr localErr : option sshError) : downloadEnd :=
  if remote_first then
    match remoteErr, localErr with
    | Some _, _ => downloadEndRemote
    | None, Some _ => downloadEndLocal
    | None, None => downloadEndNone
    end
  else
    match localErr with
    | None => match remoteErr with Some _ => downloadEndRemote | None => downloadEndNone end
    | Some _ => if is_exit remoteErr then downloadEndRemote else downloadEndLocal
    end.

(** ** The staging directory *)

Inductive stat_result := StatDirectory | StatOther | StatMissing | StatError (e : sshError).

Record DirectoryWorld := mkDirectoryWorld {
  (** [os.MkdirAll], [os.MkdirTemp], [os.Stat], whether the destination is a link and
      where it leads, [os.CopyFS], the modes, and [os.RemoveAll] *)
  yw_mkdir : option sshError;
  yw_temp : sshError + string;
  yw_stat : stat_result;
  yw_link : option (sshError + string);
  yw_copy : option sshError;
  yw_modes : option sshError;
  yw_remove : option sshError;
  (** the connection, the session, the pipes and spools, [session.Start], the start of
      the local [tar] *)
  yw_dial : option sshError;
  yw_session : option sshError;
  yw_pipes : option sshError;
  yw_start : string → option sshError;
  yw_tar : option sshError;
  (** how both ends finished, what the archive left in the staging directory, whether a
      signal arrived (with its exit status) and whether the deadline passed *)
  yw_remote_first : bool;
  yw_remote : option sshError;
  yw_local : option sshError;
  yw_extract : tree → tree;
  yw_interrupt : option Z;
  yw_timed_out : bool;
  (** special entries, the modes again, the name of the backup, its removal, the renames
      of the destination and of the staging directory, the one back, the replay *)
  yw_special : option sshError;
  yw_modes_again : option sshError;
  yw_backup : sshError + string;
  yw_backup_remove : option sshError;
  yw_rename_away : option sshError;
  yw_rename_in : option sshError;
  yw_rename_back : option sshError;
  yw_replay : bool → option sshError;
}.

Record directoryDownloadStaging := mkStaging { st_path : string; st_destinationPath : string; st_destinationExists : bool }.

Definition tree_at (name : string) (fs : LocalFS) : tree := match fs !! name with Some (LTree t) => t | _ => ∅ end.

Section Directory.
Context `{!Sha256} `{!UnicodeCase}.
Context (RedactString : string → string) (windows : bool).

Notation transferError := (transferError RedactString).
Notation transferKindError := (transferKindError RedactString).
Abbreviation DownloadError := (TransferError + sshError)%type.

Definition cleanup_directory (w : DirectoryWorld) (name : string) (published : bool) (fs : LocalFS) : LocalFS :=
  if published then fs else call (yw_remove w) (delete name fs) fs.

Definition newDirectoryDownloadStaging (w : DirectoryWorld) (localPath : string) (fs : LocalFS) :
    LocalFS * (directoryDownloadStaging + TransferError) :=
  let fail e := transferError TransferDownloadLocalWrite 0 e in
  match yw_mkdir w with
  | Some e => (fs, inr (fail e))
  | None =>
  match yw_temp w with
  | inl e => (fs, inr (fail e))
  | inr path =>
      let fs := <[path := LTree ∅]> fs in
      let abandon e := (cleanup_directory w path false fs, inr (fail e)) in
      match yw_stat w with
      | StatError e => abandon e
      | StatOther => abandon (plain_error "local destination is not a directory")
      | StatMissing => (fs, inl (mkStaging path localPath false))
      | StatDirectory =>
          match (match yw_link w with Some (inl e) => inl e | Some (inr p) => inr p | None => inr localPath end) with
          | inl e => abandon e
          | inr destination =>
              match yw_copy w with
              | Some e => abandon (wrap_error "stage existing local directory: " e)
              | None =>
                  let fs := <[path := LTree (tree_at destination fs)]> fs in
                  match yw_modes w with
                  | Some e => (cleanup_directory w path false fs, inr (fail (wrap_error "preserve local directory modes: " e)))
                  | None => (fs, inl (mkStaging path destination true))
                  end
              end
          end
      end
  end end.

(** The file systems a publication goes through, whether it was made, and its error. *)
Definition publish_directory (w : DirectoryWorld) (st : directoryDownloadStaging) (fs : LocalFS) :
    list LocalFS * bool * option TransferError :=
  let fail e := transferError TransferDownloadPublish 0 e in
  let moved_in fs := rename_node (st_path st) (st_destinationPath st) fs in
  if st_destinationExists st then
    match yw_backup w with
    | inl e => ([fs], false, Some (fail e))
    | inr backup =>
        let made := <[backup := LTree ∅]> fs in
        match yw_backup_remove w with
        | Some e => ([made; call (yw_remove w) fs made], false, Some (fail e))
        | None =>
            let fs := delete backup made in
            match yw_rename_away w with
            | Some e => ([made; fs], false, Some (fail (wrap_error "preserve local directory before publish: " e)))
            | None =>
                let away := rename_node (st_destinationPath st) backup fs in
                match yw_rename_in w with
                | Some e =>
                    match yw_rename_back w with
                    | Some r =>
                        ([made; fs; away], false,
                         Some (transferError TransferDownloadRestoreFailed 0
                           (plain_error ("publish local directory: " +:+ x_Message e +:+ LF
                              +:+ "restore preserved local directory from " +:+ backup +:+ ": " +:+ x_Message r))))
                    | None =>
                        ([made; fs; away; rename_node backup (st_destinationPath st) away], false,
                         Some (fail (wrap_error "publish local directory: " e)))
                    end
                | None =>
                    let done := moved_in away in
                    ([made; fs; away; done; call (yw_remove w) (delete backup done) done], true, None)
                end
            end
        end
    end
  else
    match yw_rename_in w with
    | Some e => ([fs], false, Some (fail (wrap_error "publish local directory: " e)))
    | None => ([fs; moved_in fs], true, None)
    end.

(** ** The download *)

(** After the archive was extracted. *)
Definition finish_download (w : DirectoryWorld) (st : directoryDownloadStaging) (fs : LocalFS) : list LocalFS * bool * option TransferError :=
  let fail e := ([fs], false, Some (transferError TransferDownloadLocalWrite 0 e)) in
  match yw_special w with
  | Some e => fail e
  | None =>
      match (if st_destinationExists st then yw_modes_again w else None) with
      | Some e => fail (wrap_error "preserve local directory modes: " e)
      | None => publish_directory w st fs
      end
  end.

Definition interrupted (exit : Z) : TransferError :=
  let f := Classify RedactString RunInterrupted
    (mkDetails ("interrupted by local signal; exit " +:+ pretty exit) None "" "" [] "" exit "" "" "" "" "" "" "" "") in
  transferClassifiedError f 0 (classified_error f None).

(** How the two ends ended: an error, or that the archive is complete. *)
Definition directory_received (w : DirectoryWorld) (timeout : string) : option TransferError :=
  match yw_interrupt w with
  | Some exit => Some (interrupted exit)
  | None =>
      match superviseDirectoryDownload (yw_remote_first w) (yw_remote w) (yw_local w) with
      | downloadEndNone => None
      | downloadEndLocal =>
          if yw_timed_out w then Some (transferError TransferTimedOut 0 (plain_error ("directory download exceeded " +:+ timeout)))
          else match yw_local w with Some e => Some (transferError TransferDownloadLocalWrite 0 e) | None => None end
      | downloadEndRemote =>
          if yw_timed_out w then Some (transferError TransferTimedOut 0 (plain_error ("directory download exceeded " +:+ timeout)))
          else match yw_remote w with Some e => Some (transferError TransferDownloadRemoteRead 0 e) | None => None end
      end
  end.

Definition download_tar_command (remoteDir : string) : string := "tar -C " +:+ ShellQuote remoteDir +:+ " -cf - .".

(** The file systems the download goes through; the last one is what it leaves. *)
Definition downloadDirTar (w : DirectoryWorld) (c : Connection) (remoteDir localDir timeout : string) (fs : LocalFS) :
    list LocalFS * bool * option DownloadError :=
  let '(fs, staging) := newDirectoryDownloadStaging w localDir fs in
  match staging with
  | inr e => ([fs], false, Some (inl e))
  | inl st =>
      let left_with states published err :=
        (states ++ [cleanup_directory w (st_path st) published (List.last states fs)], published, err) in
      match yw_dial w with
      | Some e => left_with [fs] false (Some (inr e))
      | None =>
      match yw_session w with
      | Some e =>
          let classified := ClassifyError RedactString windows e c in
          left_with [fs] false (Some (inr (classified_error classified (Some e))))
      | None =>
      match yw_pipes w with
      | Some e => left_with [fs] false (Some (inr e))
      | None =>
          (* the deferred replay: its error is reported when there is no other *)
          let report succeeded err := match err with Some e => Some e | None => inr <$> yw_replay w succeeded end in
          match yw_start w (download_tar_command remoteDir) with
          | Some e => left_with [fs] false (report false (Some (inr e)))
          | None =>
          match yw_tar w with
          | Some e => left_with [fs] false (report false (Some (inl (transferError TransferDownloadLocalWrite 0 (wrap_error "local tar: " e)))))
          | None =>
              let fs := <[st_path st := LTree (yw_extract w (tree_at (st_path st) fs))]> fs in
              match directory_received w timeout with
              | Some e => left_with [fs] false (report false (Some (inl e)))
              | None =>
                  let '(states, published, err) := finish_download w st fs in
                  left_with (fs :: states) published (report (bool_decide (err = None)) (inl <$> err))
              end
          end end
      end end end
  end.

(** ** What is at the remote path *)

Definition path_probe_command (remotePath : string) : string :=
  "if [ -d " +:+ ShellQuote remotePath +:+ " ]; then echo DIR; elif [ -f " +:+ ShellQuote remotePath
  +:+ " ]; then echo FILE; else echo MISSING; fi".

(** [ra_stdout] is both outputs of the command. *)
Definition remoteIsDirOn (session : option sshError) (exec : string → Answer) (remotePath : string) : bool + DownloadError :=
  match session with
  | Some e => inr (inr e)
  | None =>
      let a := exec (path_probe_command remotePath) in
      match ra_wait a with
      | Some e =>
          if is_exit (Some e) || isExecRefused e then inr (inl (remoteShellUnsupportedError RedactString (ra_stdout a) (Some e)))
          else inr (inr e)
      | None =>
          let answer := TrimSpace (ra_stdout a) in
          if bool_decide (answer = "DIR") then inl true
          else if bool_decide (answer = "FILE") then inl false
          else if bool_decide (answer = "MISSING") then inr (inr (plain_error ("remote path " +:+ remotePath +:+ " not found")))
          else inr (inl (remoteShellUnsupportedError RedactString (ra_stdout a) None))
      end
  end.

Definition unknown_result (direction kind stage integrity resume : string) : TransferResult :=
  mkTransferResult false direction kind stage 0 0 integrity "" "" false resume 0.

(** [DownloadPathWithOptions] of a host that is reached by commands. *)
Definition DownloadPathWithOptions (dial probe_session : option sshError) (exec : string → Answer) (fw : DownloadWorld) (dw : DirectoryWorld)
    (opts : DownloadOptions) (c : Connection) (remotePath localPath timeout : string) (fs : LocalFS) :
    LocalFS * TransferResult * option DownloadError :=
  let isDir := match dial with Some e => inr (inr e) | None => remoteIsDirOn probe_session exec remotePath end in
  match isDir with
  | inr e => (fs, unknown_result "get" "unknown" "discovery" "" "", Some e)
  | inl false => downloadFileWithOptions RedactString windows fw opts c remotePath localPath fs
  | inl true =>
      if do_VerifySHA256 opts then
        (fs, unknown_result "get" "directory" "validate" "not_available" "unsupported",
         Some (inl (transferError TransferDirectoryOptionsUnsupported 0 (plain_error "directory transfer does not support --sha256"))))
      else
        let '(states, _, err) := downloadDirTar dw c remotePath localPath timeout fs in
        let result := unknown_result "get" "directory" "remote_read" "not_available" "unsupported" in
        (List.last states fs,
         match err with
         | None => mkTransferResult true "get" "directory" "complete" 0 0 "not_available" "" "" false "unsupported" 0
         | Some (inl e) => if bool_decide (f_Stage (te_Failure e) = "timeout") then tr_with_stage "timeout" result else result
         | Some (inr _) => result
         end, err)
  end.

(** ** Sending an archive *)

Definition remoteDirCreateCommand (remoteDir : string) (dirMode : Z) : string :=
  remoteMkdirParents remoteDir (if bool_decide (dirMode = 0%Z) then DefaultUploadDirMode else dirMode).
Definition upload_tar_command (remoteDir : string) (dirMode : Z) : string :=
  remoteDirCreateCommand remoteDir dirMode +:+ " && tar -C " +:+ ShellQuote remoteDir +:+ " -xf -".

(** The connection, session, pipe and spools, [session.Start], the pipe and the start of
    the local [tar], closing the spools, the copy, how [tar] exited and what it wrote,
    what the session answered and wrote, the last write to the spool and the replay. *)
Record TarWorld := mkTarWorld {
  tw_dial : option sshError;
  tw_session : option sshError;
  tw_pipes : option sshError;
  tw_start : string → option sshError;
  tw_tar_pipe : option sshError;
  tw_tar_start : option sshError;
  tw_spools_closed : option sshError;
  tw_copy : option sshError;
  tw_tar : option sshError;
  tw_tar_output : string;
  tw_remote : option sshError;
  tw_remote_output : string;
  tw_spooled : option sshError;
  tw_replay : bool → option sshError;
}.

Definition looksLikeBrokenPipe (message : string) : bool :=
  let lower := ToLower message in
  Contains lower "broken pipe" || Contains lower "write error" || Contains lower "cannot write" || Contains lower "not recoverable".

Definition remoteExtractError (stderr : string) (remoteErr : sshError) (note : string) : TransferError :=
  let message := if bool_decide (stderr = "") then x_Message remoteErr else stderr in
  transferKindError TransferRemoteExtractFailed 0 (plain_error ("remote tar extraction failed: " +:+ message +:+ note)).

Definition local_tar_failed (tarErr : sshError) (output : string) : TransferError :=
  transferKindError TransferLocalRead 0
    (plain_error ("local tar failed: " +:+ x_Message tarErr +:+ (if bool_decide (output ≠ "") then ": " +:+ output else "")
       +:+ "; the remote destination may contain partially extracted files")).

(** How the two ends finished. *)
Definition tar_outcome (w : TarWorld) : option DownloadError :=
  let output := TrimSpace (tw_tar_output w) in
  let failed := bool_decide (is_Some (tw_tar w)) || bool_decide (is_Some (tw_copy w)) in
  let at_once :=
    if failed then
      match tw_remote w with
      | Some e =>
          if is_exit (Some e) then
            let note := match tw_tar w with
              | Some t => if bool_decide (output ≠ "") && negb (looksLikeBrokenPipe output)
                          then "; local tar also reported: " +:+ x_Message t +:+ ": " +:+ output else ""
              | None => "" end in
            Some (inl (remoteExtractError (tw_remote_output w) e note))
          else Some (inr e)
      | None => match tw_tar w with Some t => Some (inl (local_tar_failed t output)) | None => None end
      end
    else None in
  match at_once with
  | Some e => Some e
  | None =>
      match tw_spooled w with
      | Some e => Some (inr e)
      | None =>
          match tw_remote w with
          | Some e => if is_exit (Some e) then Some (inl (remoteExtractError (tw_remote_output w) e "")) else Some (inr e)
          | None => None
          end
      end
  end.

(** [None]: there is no local [tar] to run. *)
Definition uploadDirTarStream (w : TarWorld) (c : Connection) (remoteDir : string) (dirMode : Z) : option (option DownloadError) :=
  match tw_dial w with
  | Some e => Some (Some (inr e))
  | None =>
  match tw_session w with
  | Some e =>
      let classified := ClassifyError RedactString windows e c in Some (Some (inr (classified_error classified (Some e))))
  | None =>
  match tw_pipes w with
  | Some e => Some (Some (inr e))
  | None =>
      let report succeeded err := match err with Some e => Some e | None => inr <$> tw_replay w succeeded end in
      match tw_start w (upload_tar_command remoteDir dirMode) with
      | Some e => Some (Some (inr e))
      | None =>
      match tw_tar_pipe w with
      | Some e => Some (Some (inr e))
      | None =>
      match tw_tar_start w with
      | Some _ => match tw_spools_closed w with Some e => Some (Some (inr e)) | None => None end
      | None => let err := tar_outcome w in Some (report (bool_decide (err = None)) err)
      end end end
  end end end.

(** ** Sending a tree file by file *)

Inductive entry_kind := RegularEntry | DirectoryEntry | OtherEntry.
#[export] Instance entry_kind_eq_dec : EqDecision entry_kind.
Proof. solve_decision. Defined.
(** An entry [filepath.Walk] visits: its path, as names below the root, and its kind. *)
Record walked := mkWalked { wk_rel : list string; wk_kind : entry_kind }.

Definition parent_of (rel : list string) : list string := removelast rel.

(** The directories seen, and whether each has an entry; an entry that is neither a
    regular file nor a directory ends the walk. *)
Fixpoint dirs_with_entries (walk : list walked) (dirs : gmap (list string) bool) : gmap (list string) bool + sshError :=
  match walk with
  | [] => inl dirs
  | e :: walk' =>
      match wk_kind e with
      | DirectoryEntry =>
          let dirs := <[wk_rel e := false]> dirs in
          dirs_with_entries walk' (if bool_decide (wk_rel e ≠ []) then <[parent_of (wk_rel e) := true]> dirs else dirs)
      | RegularEntry => dirs_with_entries walk' (<[parent_of (wk_rel e) := true]> dirs)
      | OtherEntry =>
          inr (plain_error ("directory fallback cannot preserve non-regular entry " +:+ GoStrings.Join (wk_rel e) "/"))
      end
  end.

Definition validateUploadDirWalk (walk : list walked) : option sshError :=
  match dirs_with_entries walk ∅ with
  | inr e => Some e
  | inl dirs =>
      match filter (λ kv : list string * bool, kv.1 ≠ [] ∧ kv.2 = false) (map_to_list dirs) with
      | [] => None
      | kv :: _ => Some (plain_error ("directory fallback cannot preserve empty directory " +:+ GoStrings.Join kv.1 "/"))
      end
  end.

(** The path of an entry on the remote host. *)
Definition remote_entry (remoteDir : string) (rel : list string) : string :=
  TrimRight remoteDir "/" +:+ "/" +:+ GoStrings.Join rel "/".

(** [upload] sends one file; the first error ends the walk. What was sent comes first. *)
Fixpoint uploadDirWalk (upload : list string → string → option TransferError) (remoteDir : string) (walk : list walked) :
    list (list string * string) * option TransferError :=
  match walk with
  | [] => ([], None)
  | e :: walk' =>
      match wk_kind e with
      | RegularEntry =>
          let remote := remote_entry remoteDir (wk_rel e) in
          match upload (wk_rel e) remote with
          | Some err => ([], Some err)
          | None => let '(sent, err) := uploadDirWalk upload remoteDir walk' in ((wk_rel e, remote) :: sent, err)
          end
      | _ => uploadDirWalk upload remoteDir walk'
      end
  end.

(** [remoteMkdir]. *)
Definition remoteMkdir (dial session : option sshError) (exec : string → Answer) (c : Connection) (remoteDir : string) (dirMode : Z) :
    option DownloadError :=
  match dial with
  | Some e => Some (inr e)
  | None =>
  match session with
  | Some e => let classified := ClassifyError RedactString windows e c in Some (inr (classified_error classified (Some e)))
  | None =>
      let a := exec (remoteDirCreateCommand remoteDir dirMode) in
      match ra_wait a with
      | None => None
      | Some e =>
          if negb (is_exit (Some e)) then Some (inr e)
          else
            let message := if bool_decide (ra_stderr a = "") then x_Message e else ra_stderr a in
            Some (inl (transferKindError TransferRemotePermissionsFailed 0 (plain_error message)))
      end
  end end.

Definition uploadDirFallback (walk : list walked) (made : option DownloadError) (upload : list string → string → option TransferError)
    (remoteDir : string) : list (list string * string) * option DownloadError :=
  match validateUploadDirWalk walk with
  | Some e => ([], Some (inr e))
  | None =>
      match made with
      | Some e => ([], Some e)
      | None => let '(sent, err) := uploadDirWalk upload remoteDir walk in (sent, inl <$> err)
      end
  end.

(** [uploadDirTar]: [None] of the stream, or no [tar] in the path, selects the other way. *)
Definition uploadDirTar (stream : option (option (option DownloadError))) (walk : list walked) (made : option DownloadError)
    (upload : list string → string → option TransferError) (remoteDir : string) : option DownloadError :=
  match stream with
  | Some (Some err) => err
  | _ => (uploadDirFallback walk made upload remoteDir).2
  end.

(** ** What is uploaded *)

Inductive upload_source := SourceFile | SourceDirectory | SourceOther | SourceError (e : sshError).

(** [UploadPathWithOptions] of a host that is reached by commands. *)
Definition UploadPathWithOptions (source : upload_source) (opts : UploadOptions) (file : TransferResult * option TransferError)
    (directory : option DownloadError) : TransferResult * option DownloadError :=
  match source with
  | SourceError e => (unknown_result "put" "unknown" "local_read" "not_checked" "unsupported", Some (inl (transferError TransferLocalRead 0 e)))
  | SourceFile =>
      let r := file.1 in
      (mkTransferResult (tr_OK r) "put" "file" (tr_Stage r) (tr_BytesSent r) (tr_BytesReceived r) (tr_Integrity r) (tr_LocalSHA256 r)
         (tr_RemoteSHA256 r) (tr_Atomic r) (tr_Resume r) (tr_BytesReused r), inl <$> file.2)
  | SourceOther =>
      (unknown_result "put" "unknown" "local_read" "not_checked" "unsupported",
       Some (inl (transferError TransferDirectorySourceUnsupported 0 (plain_error "not a regular file or directory"))))
  | SourceDirectory =>
      if uo_VerifySHA256 opts || (0 <? uo_Timeout opts)%Z || bool_decide (uo_ResumeVersion opts ≠ "") then
        (unknown_result "put" "directory" "validate" "not_available" "unsupported",
         Some (inl (transferError TransferDirectoryOptionsUnsupported 0
           (plain_error "directory transfer does not support requested reliability options"))))
      else
        match directory with
        | None => (mkTransferResult true "put" "directory" "complete" 0 0 "not_available" "" "" false "unsupported" 0, None)
        | Some e =>
            let stage := match e with
              | inl t => if bool_decide (f_Stage (te_Failure t) ≠ "") then f_Stage (te_Failure t) else "remote_write"
              | inr _ => "remote_write" end in
            (unknown_result "put" "directory" stage "not_available" "unsupported", Some e)
        end
  end.
End Directory.
