(* ===== verification/DirectoryTransferFacts.v ===== *)
(** * A directory download never loses the old tree *)

From stdpp Require Import pretty.
From Stdlib Require Import Ascii Strings.Byte.
From S2P Require Import Prelude GoStrings GoStringFacts GoErrors GoRegexp Config Redaction FailurePolicy MachineContract SyncProtocol RemoteCommand SshDial RemoteShell Upload Download Resume DirectoryTransfer.

(** Neither end failed exactly when no failure is blamed. *)
Lemma supervise_none remote_first r l : superviseDirectoryDownload remote_first r l = downloadEndNone ↔ r = None ∧ l = None.
Proof.
  unfold superviseDirectoryDownload. destruct remote_first, r as [r|], l as [l|]; cbn [is_exit];
    try (destruct (bool_decide _)); (split; [try done; by split|by intros [? ?]]).
Qed.

Section Facts.
Context `{!Sha256} `{!UnicodeCase}.
Context (RedactString : string → string) (windows : bool).

(** The old tree has its name or the backup's, or the new tree is in place. *)
Definition tree_is_kept (dest backup : string) (old : option local_node) (new : tree) (s : LocalFS) : Prop :=
  s !! dest = old ∨ s !! backup = old ∨ s !! dest = Some (LTree new).

Definition others_are_kept (dest path backup : string) (fs s : LocalFS) : Prop :=
  ∀ q, q ≠ dest → q ≠ path → q ≠ backup → s !! q = fs !! q.

(** What a publication that ended leaves. *)
Definition publication_outcome (dest path backup : string) (old : option local_node) (new : tree) (published : bool)
    (err : option TransferError) (s : LocalFS) : Prop :=
  if published then err = None ∧ s !! dest = Some (LTree new) ∧ s !! path = None
  else err ≠ None ∧ (s !! dest = old
    ∨ s !! backup = old ∧ ∃ text r, err = Some (transferError RedactString TransferDownloadRestoreFailed 0
        (plain_error (text +:+ "restore preserved local directory from " +:+ backup +:+ ": " +:+ r)))).

Lemma rename_other old new fs q : q ≠ old → q ≠ new → rename_node old new fs !! q = fs !! q.
Proof. intros ??. unfold rename_node. destruct (fs !! old); [|done]. by rewrite lookup_insert_ne, lookup_delete_ne. Qed.
Lemma rename_new old new fs n : fs !! old = Some n → rename_node old new fs !! new = Some n.
Proof. intros Ho. unfold rename_node. rewrite Ho. by rewrite lookup_insert_eq. Qed.
Lemma rename_old old new fs n : fs !! old = Some n → old ≠ new → rename_node old new fs !! old = None.
Proof. intros Ho ?. unfold rename_node. rewrite Ho. by rewrite lookup_insert_ne, lookup_delete_eq. Qed.

Lemma publish_directory_states w st backup new oldt fs states published err :
  publish_directory RedactString w st fs = (states, published, err) →
  st_path st ≠ st_destinationPath st → fs !! st_path st = Some (LTree new) →
  (if st_destinationExists st
   then fs !! st_destinationPath st = Some oldt ∧ (∀ b, yw_backup w = inr b → b = backup ∧ b ≠ st_path st ∧ b ≠ st_destinationPath st)
   else True) →
  let old := fs !! st_destinationPath st in
  states ≠ [] ∧
  (∀ s, s ∈ states → tree_is_kept (st_destinationPath st) backup old new s
                     ∧ others_are_kept (st_destinationPath st) (st_path st) backup fs s)
  ∧ publication_outcome (st_destinationPath st) (st_path st) backup old new published err (List.last states fs).
Proof.
  intros Hpub Hne Hpath Hex. cbv zeta. unfold publish_directory in Hpub.
  destruct st as [path dest exists_]; cbn [st_path st_destinationPath st_destinationExists] in *. destruct exists_.
  - destruct Hex as [Hold Hb]. destruct (yw_backup w) as [e|b].
    { injection Hpub as <- <- <-. split; [done|]. split.
      - intros s ->%list_elem_of_singleton. split; [by left|done].
      - split; [done|by left]. }
    destruct (Hb b eq_refl) as (-> & Hbp & Hbd). set (made := <[backup:=LTree ∅]> fs) in *.
    assert (Hmade : ∀ q, q ≠ backup → made !! q = fs !! q) by (intros; unfold made; by rewrite lookup_insert_ne).
    assert (Hfirst : tree_is_kept dest backup (fs !! dest) new made ∧ others_are_kept dest path backup fs made).
    { split; [left; auto|]. intros q ???. auto. }
    assert (Hgone : ∀ q, q ≠ backup → delete backup made !! q = fs !! q) by (intros; rewrite lookup_delete_ne by done; auto).
    set (fs1 := delete backup made) in *.
    assert (Hsecond : tree_is_kept dest backup (fs !! dest) new fs1 ∧ others_are_kept dest path backup fs fs1).
    { split; [left; auto|]. intros q ???. auto. }
    destruct (yw_backup_remove w) as [e|].
    { injection Hpub as <- <- <-. split; [done|]. split.
      - intros s Hs. repeat (apply elem_of_cons in Hs as [->|Hs]; [|]); [done| |by apply elem_of_nil in Hs].
        destruct (yw_remove w); cbn [call]; [done|]. split; [by left|done].
      - cbn. split; [done|left]. destruct (yw_remove w); cbn [call]; auto. }
    destruct (yw_rename_away w) as [e|].
    { injection Hpub as <- <- <-. split; [done|]. split.
      - intros s Hs. repeat (apply elem_of_cons in Hs as [->|Hs]; [done|]). by apply elem_of_nil in Hs.
      - split; [done|left]. cbn. auto. }
    assert (Hd1 : fs1 !! dest = Some oldt) by (rewrite Hgone by done; done).
    set (away := rename_node dest backup fs1) in *.
    assert (Hab : away !! backup = Some oldt) by (by apply rename_new).
    assert (Hap : away !! path = Some (LTree new)) by (unfold away; rewrite rename_other, Hgone by done; done).
    assert (Hthird : tree_is_kept dest backup (fs !! dest) new away ∧ others_are_kept dest path backup fs away).
    { split; [right; left; by rewrite Hab, Hold|]. intros q ???. unfold away. rewrite rename_other by done. auto. }
    destruct (yw_rename_in w) as [e|].
    + set (back := rename_node backup dest away) in *.
      assert (Hback : back !! dest = fs !! dest) by (rewrite Hold; by apply rename_new).
      destruct (yw_rename_back w) as [r|]; injection Hpub as <- <- <-; (split; [done|]); split.
      * intros s Hs. repeat (apply elem_of_cons in Hs as [->|Hs]; [done|]). by apply elem_of_nil in Hs.
      * split; [done|]. right. cbn. split; [by rewrite Hab, Hold|].
        exists ("publish local directory: " +:+ x_Message e +:+ LF), (x_Message r). do 3 f_equal. by rewrite <- !str_app_assoc.
      * intros s Hs. repeat (apply elem_of_cons in Hs as [->|Hs]; [try done|]); [|by apply elem_of_nil in Hs].
        split; [by left|]. intros q ???. unfold back. rewrite rename_other by done. by apply Hthird.
      * split; [done|]. left. exact Hback.
    + set (placed := rename_node path dest away) in *.
      assert (Hpd : placed !! dest = Some (LTree new)) by (by apply rename_new).
      assert (Hpo : ∀ q, q ≠ path → q ≠ dest → placed !! q = away !! q) by (intros; by apply rename_other).
      assert (Hpp : placed !! path = None) by (by eapply rename_old).
      injection Hpub as <- <- <-. split; [done|]. split.
      * intros s Hs. repeat (apply elem_of_cons in Hs as [->|Hs]; [try done|]); [| |by apply elem_of_nil in Hs].
        -- split; [by right; right|]. intros q ???. rewrite Hpo by done. by apply Hthird.
        -- destruct (yw_remove w); cbn [call].
           ++ split; [by right; right|]. intros q ???. rewrite Hpo by done. by apply Hthird.
           ++ split; [right; right; by rewrite lookup_delete_ne|]. intros q ???. rewrite lookup_delete_ne, Hpo by done. by apply Hthird.
      * cbn. split; [done|]. destruct (yw_remove w); cbn [call]; [done|]. by rewrite !lookup_delete_ne.
  - destruct (yw_rename_in w) as [e|]; injection Hpub as <- <- <-; (split; [done|]); split.
    + intros s ->%list_elem_of_singleton. split; [by left|done].
    + split; [done|by left].
    + intros s Hs. repeat (apply elem_of_cons in Hs as [->|Hs]; [|]); [by split; [left|]| |by apply elem_of_nil in Hs].
      split; [right; right; by apply rename_new|]. intros q ???. by apply rename_other.
    + cbn. split; [done|]. split; [by apply rename_new|by eapply rename_old].
Qed.

(** ** The whole download *)

Definition destination (w : DirectoryWorld) (localPath : string) : string :=
  match yw_stat w, yw_link w with StatDirectory, Some (inr p) => p | _, _ => localPath end.
Definition old_tree (w : DirectoryWorld) (localPath : string) (fs : LocalFS) : tree :=
  match yw_stat w with StatDirectory => tree_at (destination w localPath) fs | _ => ∅ end.

(** The calls that make names make new ones, and [os.Stat] tells the truth. *)
Record consistent (w : DirectoryWorld) (localPath backup : string) (fs : LocalFS) : Prop := {
  co_temp : ∀ name, yw_temp w = inr name → fs !! name = None ∧ name ≠ destination w localPath;
  co_stat : yw_stat w = StatDirectory → ∃ t, fs !! destination w localPath = Some (LTree t);
  co_backup : (∀ b, yw_backup w = inr b → b = backup) ∧ backup ≠ destination w localPath ∧ yw_temp w ≠ inr backup;
}.

Lemma staging_facts w localPath fs fs1 st :
  newDirectoryDownloadStaging RedactString w localPath fs = (fs1, st) →
  (∀ name, yw_temp w = inr name → fs !! name = None ∧ name ≠ destination w localPath) →
  (∀ q, yw_temp w ≠ inr q → fs1 !! q = fs !! q)
  ∧ match st with
    | inl st => yw_temp w = inr (st_path st) ∧ st_destinationPath st = destination w localPath
        ∧ st_destinationExists st = (match yw_stat w with StatDirectory => true | _ => false end)
        ∧ fs1 !! st_path st = Some (LTree (old_tree w localPath fs))
    | inr _ => yw_remove w = None → ∀ name, yw_temp w = inr name → fs1 !! name = None
    end.
Proof.
  unfold newDirectoryDownloadStaging. intros Hnew Htemp. destruct (yw_mkdir w).
  { injection Hnew as <- <-. split; [done|]. intros _ name Hname. apply (Htemp name Hname). }
  destruct (yw_temp w) as [|name] eqn:Hname; [by injection Hnew as <- <-|].
  assert (Hclean : ∀ fs2 q, fs2 !! q = fs !! q → q ≠ name → cleanup_directory w name false fs2 !! q = fs !! q).
  { intros fs2 q Hq ?. unfold cleanup_directory. destruct (yw_remove w); cbn [call]; [done|]. by rewrite lookup_delete_ne. }
  assert (Hins : ∀ (n : local_node) q, inr name ≠ inr (A := sshError) q → <[name:=n]> fs !! q = fs !! q).
  { intros n q Hq. rewrite lookup_insert_ne; congruence. }
  assert (Habandon : ∀ q, inr name ≠ inr (A := sshError) q → cleanup_directory w name false (<[name:=LTree ∅]> fs) !! q = fs !! q).
  { intros q Hq. apply Hclean; [by apply Hins|congruence]. }
  assert (Hgone : ∀ fs2 : LocalFS, yw_remove w = None → ∀ n, inr name = inr (A := sshError) n → cleanup_directory w name false fs2 !! n = None).
  { intros fs2 Hrm n [= <-]. unfold cleanup_directory. rewrite Hrm. apply lookup_delete_eq. }
  destruct (Htemp name eq_refl) as [_ Hne]. clear Htemp. unfold destination, old_tree in *. destruct (yw_stat w) eqn:Hstat.
  - destruct (match yw_link w with Some (inl e) => inl e | Some (inr p) => inr p | None => inr localPath end) as [e|dest] eqn:Hlink;
      [injection Hnew as <- <-; split; [exact Habandon|apply Hgone]|].
    assert (match yw_link w with Some (inr p) => p | _ => localPath end = dest) as Hdest by (destruct (yw_link w) as [[?|?]|]; congruence).
    destruct (yw_copy w); [injection Hnew as <- <-; split; [exact Habandon|apply Hgone]|].
    assert (Hcopy : ∀ q, inr name ≠ inr (A := sshError) q → <[name:=LTree (tree_at dest (<[name:=LTree ∅]> fs))]> (<[name:=LTree ∅]> fs) !! q = fs !! q).
    { intros q Hq. rewrite lookup_insert_ne by congruence. by apply Hins. }
    destruct (yw_modes w).
    { injection Hnew as <- <-. split; [|apply Hgone]. intros q Hq. apply Hclean; [by apply Hcopy|congruence]. }
    injection Hnew as <- <-. split; [done|]. cbn [st_path st_destinationPath st_destinationExists]. split_and!; [done|done|done|].
    rewrite lookup_insert_eq. unfold destination. rewrite Hstat, Hdest. do 2 f_equal. unfold tree_at.
    by rewrite lookup_insert_ne by (rewrite <- Hdest; done).
  - injection Hnew as <- <-; split; [exact Habandon|apply Hgone].
  - injection Hnew as <- <-. split; [apply Hins|]. cbn. split_and!; try done. by rewrite lookup_insert_eq.
  - injection Hnew as <- <-; split; [exact Habandon|apply Hgone].
Qed.

Lemma received_both w timeout : directory_received RedactString w timeout = None → yw_remote w = None ∧ yw_local w = None.
Proof.
  unfold directory_received. destruct (yw_interrupt w); [done|]. destruct (superviseDirectoryDownload _ _ _) eqn:Hs.
  - intros _. by apply supervise_none in Hs.
  - unfold superviseDirectoryDownload in Hs. destruct (yw_timed_out w), (yw_remote w); try done.
    destruct (yw_remote_first w), (yw_local w); done.
  - unfold superviseDirectoryDownload in Hs. destruct (yw_timed_out w), (yw_local w); try done.
    destruct (yw_remote_first w), (yw_remote w); done.
Qed.

(** The only error after the publication is that of showing the saved diagnostics. *)
Definition download_outcome (w : DirectoryWorld) (dest backup : string) (old : option local_node) (new : tree) (published : bool)
    (err : option (TransferError + sshError)) (s : LocalFS) : Prop :=
  if published then err = inr <$> yw_replay w true ∧ s !! dest = Some (LTree new) ∧ yw_remote w = None ∧ yw_local w = None
  else err ≠ None ∧ (s !! dest = old
    ∨ s !! backup = old ∧ ∃ text r, err = Some (inl (transferError RedactString TransferDownloadRestoreFailed 0
        (plain_error (text +:+ "restore preserved local directory from " +:+ backup +:+ ": " +:+ r))))).

(** The deferred removal of the staging directory, after the last state. *)
Lemma cleanup_states w path dest backup (old : option local_node) new (fs d : LocalFS) states published :
  path ≠ dest → path ≠ backup → states ≠ []
  → (∀ s, s ∈ states → tree_is_kept dest backup old new s ∧ others_are_kept dest path backup fs s)
  → (published = true → List.last states d !! path = None)
  → let final := cleanup_directory w path published (List.last states d) in
    (∀ s, s ∈ states ++ [final] → tree_is_kept dest backup old new s ∧ others_are_kept dest path backup fs s)
    ∧ List.last (states ++ [final]) fs = final
    ∧ final !! dest = List.last states d !! dest ∧ final !! backup = List.last states d !! backup
    ∧ (yw_remove w = None → final !! path = None).
Proof.
  intros Hpd Hpb Hne Hall Hpub. cbv zeta. set (l := List.last states d) in *.
  assert (Hl : l ∈ states).
  { unfold l. destruct (exists_last Hne) as (init & x & ->). rewrite List.last_last. apply elem_of_app. right. by left. }
  assert (Hq : ∀ q, q ≠ path → cleanup_directory w path published l !! q = l !! q).
  { intros q ?. unfold cleanup_directory. destruct published; [done|]. destruct (yw_remove w); cbn [call]; [done|].
    by rewrite lookup_delete_ne. }
  destruct (Hall l Hl) as [Hkept Hother]. split_and!.
  - intros s [Hs| ->%list_elem_of_singleton]%elem_of_app; [by apply Hall|]. split.
    + unfold tree_is_kept in *. by rewrite !Hq by done.
    + intros q ???. rewrite Hq by done. by apply Hother.
  - apply List.last_last.
  - by apply Hq.
  - by apply Hq.
  - intros Hrm. unfold cleanup_directory. destruct published; [by apply Hpub|]. rewrite Hrm. apply lookup_delete_eq.
Qed.

(** From a staging directory on: what the states and the outcome are when the run goes
    through [sts] and then removes the directory. *)
Section Staged.
Context (w : DirectoryWorld) (dest path backup : string) (new : tree) (fs fs1 : LocalFS).
Context (Hpd : path ≠ dest) (Hpb : path ≠ backup) (Hname : yw_temp w = inr path).
Context (Hother : ∀ q, yw_temp w ≠ inr q → fs1 !! q = fs !! q).

Definition run_result (result : list LocalFS * bool * option (TransferError + sshError)) : Prop :=
  let '(states, published, err) := result in
  (∀ s, s ∈ states → tree_is_kept dest backup (fs !! dest) new s ∧ ∀ q, q ≠ dest → q ≠ backup → yw_temp w ≠ inr q → s !! q = fs !! q)
  ∧ download_outcome w dest backup (fs !! dest) new published err (List.last states fs)
  ∧ (yw_remove w = None → ∀ name, yw_temp w = inr name → List.last states fs !! name = None).

Lemma staged_result (sts : list LocalFS) pub err :
  sts ≠ [] →
  (∀ s, s ∈ sts → tree_is_kept dest backup (fs !! dest) new s ∧ others_are_kept dest path backup fs1 s) →
  (pub = true → List.last sts fs1 !! path = None) →
  download_outcome w dest backup (fs !! dest) new pub err (List.last sts fs1) →
  run_result (sts ++ [cleanup_directory w path pub (List.last sts fs1)], pub, err).
Proof.
  intros Hne Hall Hpub Hout.
  destruct (cleanup_states w path dest backup (fs !! dest) new fs1 fs1 sts pub Hpd Hpb Hne Hall Hpub) as (Hall' & _ & Hd & Hbk & Hgone).
  unfold run_result. rewrite List.last_last. split_and!.
  - intros s Hs. destruct (Hall' s Hs) as [? Ho]. split; [done|]. intros q Hq1 Hq2 Hq3. rewrite Ho; [by apply Hother|done| |done].
    intros E. apply Hq3. by rewrite E.
  - unfold download_outcome in *. destruct pub; rewrite Hd; [done|]. by rewrite Hbk.
  - intros Hrm name Hn. rewrite Hname in Hn. injection Hn as <-. by apply Hgone.
Qed.

Lemma untouched_dest (s : LocalFS) : (∀ q, q ≠ path → s !! q = fs1 !! q) → s !! dest = fs !! dest.
Proof. intros Hs. rewrite Hs by done. apply Hother. rewrite Hname. congruence. Qed.

(** A failure before the publication. *)
Lemma failed_result (sts : list LocalFS) err :
  sts ≠ [] → (∀ s, s ∈ sts → ∀ q, q ≠ path → s !! q = fs1 !! q)
  → run_result (sts ++ [cleanup_directory w path false (List.last sts fs1)], false, Some err).
Proof.
  intros Hne Hs. apply staged_result; [done| |done|].
  - intros s Hin. split; [left; by apply untouched_dest, Hs|]. intros q ???. by apply Hs.
  - split; [done|]. left. apply untouched_dest. apply Hs. destruct (exists_last Hne) as (init & x & ->).
    rewrite List.last_last. apply elem_of_app. right. by left.
Qed.
End Staged.

Lemma elem_of_two {A} (x s : A) : s ∈ [x; x] → s = x.
Proof. intros Hs. repeat (apply elem_of_cons in Hs as [->|Hs]; [done|]). by apply elem_of_nil in Hs. Qed.

(** The end of a download that was received: the checks and the publication. *)
Lemma finished_result w st dest backup new oldt fs fs1 fs2 report :
  st_destinationPath st = dest → st_path st ≠ dest → st_path st ≠ backup → backup ≠ dest
  → yw_temp w = inr (st_path st) → (∀ q, yw_temp w ≠ inr q → fs1 !! q = fs !! q)
  → (∀ b, yw_backup w = inr b → b = backup) → yw_remote w = None → yw_local w = None
  → (st_destinationExists st = true → fs2 !! dest = Some oldt)
  → (∀ q, q ≠ st_path st → fs2 !! q = fs1 !! q) → fs2 !! st_path st = Some (LTree new)
  → (∀ ok (e : option (TransferError + sshError)), e ≠ None → report ok e = e)
  → (∀ ok, report ok None = inr <$> yw_replay w ok)
  → run_result w dest backup new fs
      (let '(states, published, err) := finish_download RedactString w st fs2 in
       ((fs2 :: states) ++ [cleanup_directory w (st_path st) published (List.last (fs2 :: states) fs1)], published,
        report (bool_decide (err = None)) (inl <$> err))).
Proof.
  intros Hdst Hpd Hpb Hbd Hname Hother Hb Hremote Hlocal Hold Hfs2 Hnewp Hreport Hreplay. unfold finish_download.
  assert (Htwo : ∀ s, s ∈ [fs2; fs2] → ∀ q, q ≠ st_path st → s !! q = fs1 !! q) by (by intros s ->%elem_of_two).
  destruct (yw_special w); [rewrite Hreport by done; by apply (failed_result w dest _ backup new fs fs1 Hpd Hpb Hname Hother [fs2; fs2])|].
  destruct (if st_destinationExists st then yw_modes_again w else None);
    [rewrite Hreport by done; by apply (failed_result w dest _ backup new fs fs1 Hpd Hpb Hname Hother [fs2; fs2])|].
  destruct (publish_directory _ w st fs2) as [[sts pub] perr] eqn:Hpub.
  apply (publish_directory_states w st backup new oldt) in Hpub as (Hne & Hall & Hout); [|by rewrite Hdst|done|].
  2: { destruct (st_destinationExists st) eqn:Hex; [|done]. rewrite Hdst. split; [auto|]. intros b Hbk. rewrite (Hb b Hbk). done. }
  assert (Hdest : fs2 !! dest = fs !! dest) by (by apply (untouched_dest w dest (st_path st) fs fs1 Hpd Hname Hother)).
  rewrite Hdst, Hdest in Hall, Hout.
  assert (Hlast : List.last (fs2 :: sts) fs1 = List.last sts fs2).
  { destruct (exists_last Hne) as (init & x & ->). change (fs2 :: init ++ [x]) with ((fs2 :: init) ++ [x]). by rewrite !List.last_last. }
  apply (staged_result w dest _ backup new fs fs1 Hpd Hpb Hname Hother (fs2 :: sts)); [done|..].
  - intros s [->|Hs]%elem_of_cons.
    + split; [by left|]. intros q ???. by apply Hfs2.
    + destruct (Hall s Hs) as [? Ho]. split; [done|]. intros q ???. rewrite Ho by done. by apply Hfs2.
  - rewrite Hlast. intros ->. apply Hout.
  - rewrite Hlast. unfold publication_outcome in Hout. unfold download_outcome. destruct pub.
    + destruct Hout as (-> & Hd & _). split; [apply Hreplay|done].
    + destruct Hout as [Herr Hkept]. destruct perr as [e|]; [|done]. rewrite Hreport by done. split; [done|].
      destruct Hkept as [Hk|[Hk (text & r & [= He])]]; [by left|right]. split; [done|]. exists text, r. cbn. by rewrite He.
Qed.

(** C4: When the names that are made are new and [os.Stat] tells the truth: in every state
    the download goes through, the old tree has its name or the backup's,
    or the whole new tree is in place. At the end either the new tree was not published,
    there is an error, and the old tree is under its name or the error says that it is
    under the backup's; or the new tree was published and is in place, both ends
    succeeded, and the error, if there is one, is that the saved diagnostics of the
    transfer could not be shown, which is done after the publication. The staging
    directory is gone when it could be removed. *)
Theorem directory_download_keeps_the_tree w c remoteDir localDir timeout backup fs states published err :
  consistent w localDir backup fs
  → downloadDirTar RedactString windows w c remoteDir localDir timeout fs = (states, published, err)
  → let dest := destination w localDir in
    let new := yw_extract w (old_tree w localDir fs) in
    (∀ s, s ∈ states → tree_is_kept dest backup (fs !! dest) new s
                       ∧ ∀ q, q ≠ dest → q ≠ backup → yw_temp w ≠ inr q → s !! q = fs !! q)
    ∧ download_outcome w dest backup (fs !! dest) new published err (List.last states fs)
    ∧ (yw_remove w = None → ∀ name, yw_temp w = inr name → List.last states fs !! name = None).
Proof.
  intros [Htemp Hstat (Hb & Hbd & Hbt)] Hrun. cbv zeta. unfold downloadDirTar in Hrun.
  destruct (newDirectoryDownloadStaging _ w localDir fs) as [fs1 staging] eqn:Hnew.
  pose proof (staging_facts _ _ _ _ _ Hnew Htemp) as [Hother Hst].
  set (dest := destination w localDir) in *. set (new := yw_extract w (old_tree w localDir fs)).
  assert (Hdest : fs1 !! dest = fs !! dest) by (apply Hother; intros H1; by destruct (Htemp _ H1)).
  destruct staging as [st|e].
  2: { injection Hrun as <- <- <-. split_and!; [|split; [done|by left]|exact Hst].
       intros s ->%list_elem_of_singleton. split; [by left|]. intros q _ _ Hq. by apply Hother. }
  destruct Hst as (Hname & Hdst & Hexists & Hpath). destruct (Htemp _ Hname) as [Hfresh Hpd].
  assert (Hpb : st_path st ≠ backup) by (intros E; apply Hbt; by rewrite <- E).
  change (run_result w dest backup new fs (states, published, err)). rewrite <- Hrun. cbv zeta.
  assert (Hfail : ∀ s e, (∀ q, q ≠ st_path st → s !! q = fs1 !! q) →
    run_result w dest backup new fs ([s] ++ [cleanup_directory w (st_path st) false (List.last [s] fs1)], false, Some e)).
  { intros s e Hs. apply (failed_result w dest _ backup new fs fs1 Hpd Hpb Hname Hother [s]); [done|].
    by intros t ->%list_elem_of_singleton. }
  destruct (yw_dial w); [by apply Hfail|]. destruct (yw_session w); [by apply Hfail|]. destruct (yw_pipes w); [by apply Hfail|].
  destruct (yw_start w _); [by apply Hfail|]. destruct (yw_tar w); [by apply Hfail|].
  set (fs2 := <[st_path st:=LTree (yw_extract w (tree_at (st_path st) fs1))]> fs1).
  assert (Hfs2 : ∀ q, q ≠ st_path st → fs2 !! q = fs1 !! q) by (intros; unfold fs2; by rewrite lookup_insert_ne).
  destruct (directory_received RedactString w timeout) eqn:Hrec; [by apply Hfail|].
  apply received_both in Hrec as [Hremote Hlocal].
  destruct (decide (st_destinationExists st = true)) as [Hex|Hex].
  - assert (∃ t, fs !! dest = Some (LTree t)) as [t Ht].
    { apply Hstat. rewrite Hexists in Hex. by destruct (yw_stat w). }
    apply (finished_result w st dest backup new (LTree t) fs fs1 fs2
      (λ ok err, match err with Some e => Some e | None => inr <$> yw_replay w ok end)); try done.
    + intros _. by rewrite Hfs2, Hdest.
    + unfold fs2, new. rewrite lookup_insert_eq. unfold tree_at. by rewrite Hpath.
    + by intros ok [].
  - apply (finished_result w st dest backup new (LTree ∅) fs fs1 fs2
      (λ ok err, match err with Some e => Some e | None => inr <$> yw_replay w ok end)); try done.
    + unfold fs2, new. rewrite lookup_insert_eq. unfold tree_at. by rewrite Hpath.
    + by intros ok [].
Qed.
End Facts.

(** ** Sending a directory *)

Section Upload.
Context `{!Sha256} `{!UnicodeCase}.
Context (RedactString : string → string) (windows : bool).

(** An archive counts as sent only when the local [tar] and the remote one succeeded. *)
Lemma tar_success w : tar_outcome RedactString w = None → tw_tar w = None ∧ tw_remote w = None.
Proof.
  unfold tar_outcome. destruct (tw_tar w), (tw_copy w), (tw_remote w) as [e|]; cbn;
    try (destruct (bool_decide (is_Some (x_ExitStatus e)))); destruct (tw_spooled w); done.
Qed.

Lemma stream_success w c remoteDir dirMode :
  uploadDirTarStream RedactString windows w c remoteDir dirMode = Some None → tw_tar w = None ∧ tw_remote w = None.
Proof.
  unfold uploadDirTarStream. destruct (tw_dial w); [done|]. destruct (tw_session w); [done|]. destruct (tw_pipes w); [done|].
  destruct (tw_start w _); [done|]. destruct (tw_tar_pipe w); [done|]. destruct (tw_tar_start w); [by destruct (tw_spools_closed w)|].
  cbv zeta. destruct (tar_outcome RedactString w) eqn:Ht; [done|]. intros _. by apply tar_success.
Qed.

Lemma dirs_seen walk dirs d : dirs_with_entries walk dirs = inl d →
  (∀ e, e ∈ walk → wk_kind e ≠ OtherEntry)
  ∧ (∀ rel, is_Some (dirs !! rel) → is_Some (d !! rel))
  ∧ (∀ e, e ∈ walk → wk_kind e = DirectoryEntry → is_Some (d !! wk_rel e))
  ∧ (∀ rel, d !! rel = Some true → dirs !! rel = Some true ∨ ∃ e, e ∈ walk ∧ parent_of (wk_rel e) = rel ∧ (rel ≠ [] → wk_rel e ≠ [])).
Proof.
  revert dirs d. induction walk as [|e walk IH]; intros dirs d; cbn [dirs_with_entries].
  { intros [= <-]. split_and!; [by intros e ?%elem_of_nil|done|by intros e ?%elem_of_nil|by left]. }
  assert (Hkeep : ∀ k (b : bool) rel, is_Some (dirs !! rel) → is_Some (<[k:=b]> dirs !! rel)).
  { intros k b rel Hr. destruct (decide (k = rel)) as [->|]; [rewrite lookup_insert_eq; eauto|by rewrite lookup_insert_ne]. }
  assert (Hpar : ∀ rel, parent_of (wk_rel e) = rel → rel ≠ [] → wk_rel e ≠ []).
  { intros rel <- Hne Hz. apply Hne. by rewrite Hz. }
  destruct (wk_kind e) eqn:Hk; [..|done]; intros Hd; apply IH in Hd as (Hother & Hsome & Hdirs & Htrue).
  - split_and!.
    + intros e' [->|He]%elem_of_cons; [by rewrite Hk|by apply Hother].
    + intros rel Hr. apply Hsome. by apply Hkeep.
    + intros e' [->|He]%elem_of_cons; [congruence|by apply Hdirs].
    + intros rel Hr. destruct (Htrue rel Hr) as [Hin|(e' & He & Hp & Hn)]; [|right; exists e'; split_and!; [by right|done..]].
      destruct (decide (parent_of (wk_rel e) = rel)) as [Heq|Hneq].
      * right. exists e. split_and!; [by left|done|by apply Hpar].
      * left. by rewrite lookup_insert_ne in Hin.
  - set (base := <[wk_rel e:=false]> dirs) in *.
    assert (Hbase : ∀ rel, base !! rel = Some true → dirs !! rel = Some true).
    { intros rel. unfold base. destruct (decide (wk_rel e = rel)) as [->|]; [by rewrite lookup_insert_eq|by rewrite lookup_insert_ne]. }
    assert (Hstep : ∀ rel, is_Some (base !! rel) → is_Some ((if bool_decide (wk_rel e ≠ []) then <[parent_of (wk_rel e):=true]> base else base) !! rel)).
    { intros rel Hr. case_bool_decide; [|done]. destruct (decide (parent_of (wk_rel e) = rel)) as [->|]; [rewrite lookup_insert_eq; eauto|by rewrite lookup_insert_ne]. }
    split_and!.
    + intros e' [->|He]%elem_of_cons; [by rewrite Hk|by apply Hother].
    + intros rel Hr. apply Hsome, Hstep. by apply Hkeep.
    + intros e' [->|He]%elem_of_cons; [|by apply Hdirs]. intros _. apply Hsome, Hstep. unfold base. rewrite lookup_insert_eq. eauto.
    + intros rel Hr. destruct (Htrue rel Hr) as [Hin|(e' & He & Hp & Hn)]; [|right; exists e'; split_and!; [by right|done..]].
      case_bool_decide as Hne; [|left; by apply Hbase].
      destruct (decide (parent_of (wk_rel e) = rel)) as [Heq|Hneq].
      * right. exists e. split_and!; [by left|done|done].
      * left. rewrite lookup_insert_ne in Hin by done. by apply Hbase.
Qed.

Lemma validated walk : validateUploadDirWalk walk = None →
  (∀ e, e ∈ walk → wk_kind e ≠ OtherEntry)
  ∧ (∀ e, e ∈ walk → wk_kind e = DirectoryEntry → wk_rel e ≠ [] → ∃ e', e' ∈ walk ∧ wk_rel e' ≠ [] ∧ parent_of (wk_rel e') = wk_rel e).
Proof.
  unfold validateUploadDirWalk. destruct (dirs_with_entries walk ∅) as [d|] eqn:Hd; [|done].
  destruct (filter _ _) as [|] eqn:Hf; [|done]. intros _. apply dirs_seen in Hd as (Hother & _ & Hdirs & Htrue). split; [done|].
  intros e He Hk Hne. destruct (Hdirs e He Hk) as [[] Hb].
  - destruct (Htrue _ Hb) as [?|(e' & ? & ? & ?)]; [done|]. exists e'. split_and!; auto.
  - exfalso. assert ((wk_rel e, false) ∈ filter (λ kv : list string * bool, kv.1 ≠ [] ∧ kv.2 = false) (map_to_list d)) as Hin.
    { apply list_elem_of_filter. split; [done|]. by apply elem_of_map_to_list. }
    rewrite Hf in Hin. by apply elem_of_nil in Hin.
Qed.

Lemma walk_sent upload remoteDir walk sent : uploadDirWalk upload remoteDir walk = (sent, None) →
  sent = (λ e, (wk_rel e, remote_entry remoteDir (wk_rel e))) <$> filter (λ e, wk_kind e = RegularEntry) walk
  ∧ ∀ rel remote, (rel, remote) ∈ sent → upload rel remote = None.
Proof.
  revert sent. induction walk as [|e walk IH]; intros sent; cbn [uploadDirWalk].
  { intros [= <-]. split; [done|]. by intros ?? ?%elem_of_nil. }
  destruct (wk_kind e) eqn:Hk.
  - destruct (upload _ _) eqn:Hu; [done|]. destruct (uploadDirWalk upload remoteDir walk) as [s err] eqn:Hw. intros [= <- ->].
    destruct (IH s eq_refl) as [-> Hall]. rewrite filter_cons_True by done. split; [done|].
    intros rel remote [[= -> ->]|Hin]%elem_of_cons; [done|by apply Hall].
  - rewrite filter_cons_False by congruence. apply IH.
  - rewrite filter_cons_False by congruence. apply IH.
Qed.

(** A directory of a tree that was validated leads to a file. *)
Lemma directory_has_file walk n : validateUploadDirWalk walk = None →
  (∀ e, e ∈ walk → length (wk_rel e) ≤ n) →
  ∀ k e, e ∈ walk → wk_rel e ≠ [] → wk_kind e = DirectoryEntry → n ≤ length (wk_rel e) + k →
  ∃ f, f ∈ walk ∧ wk_kind f = RegularEntry ∧ wk_rel e `prefix_of` wk_rel f.
Proof.
  intros Hv Hn. destruct (validated walk Hv) as [Hother Hdirs].
  induction k as [|k IH]; intros e He Hne Hk Hlen; destruct (Hdirs e He Hk Hne) as (e' & He' & Hne' & Hp);
    destruct (exists_last Hne') as (init & x & Hlast); unfold parent_of in Hp; rewrite Hlast, List.removelast_last in Hp; subst init.
  - specialize (Hn e' He'). rewrite Hlast, length_app in Hn. cbn in Hn. lia.
  - destruct (wk_kind e') eqn:Hk'.
    + exists e'. split_and!; [done|done|]. rewrite Hlast. by exists [x].
    + destruct (IH e' He' Hne' Hk') as (f & Hf & Hkf & Hpre).
      { rewrite Hlast, length_app. cbn. lia. }
      exists f. split_and!; [done|done|]. etrans; [|exact Hpre]. rewrite Hlast. by exists [x].
    + by destruct (Hother e' He').
Qed.

(** Without a local [tar], a directory counts as sent only when every entry is on the
    remote host: the regular files under their names, the directories because each of
    them leads to a file; there is no other entry. *)
Theorem fallback_sends_everything walk made upload remoteDir sent :
  uploadDirFallback walk made upload remoteDir = (sent, None)
  → made = None
    ∧ sent = (λ e, (wk_rel e, remote_entry remoteDir (wk_rel e))) <$> filter (λ e, wk_kind e = RegularEntry) walk
    ∧ (∀ rel remote, (rel, remote) ∈ sent → upload rel remote = None)
    ∧ ∀ e, e ∈ walk → wk_kind e = RegularEntry ∨ wk_kind e = DirectoryEntry ∧ (wk_rel e = [] ∨ ∃ f, f ∈ sent ∧ wk_rel e `prefix_of` f.1).
Proof.
  unfold uploadDirFallback. destruct (validateUploadDirWalk walk) eqn:Hv; [done|]. destruct made; [done|].
  destruct (uploadDirWalk upload remoteDir walk) as [s err] eqn:Hw. intros [= <- Herr]. destruct err; [done|].
  destruct (walk_sent _ _ _ _ Hw) as [-> Hall]. split_and!; [done|done|done|]. intros e He.
  destruct (validated walk Hv) as [Hother _]. destruct (wk_kind e) eqn:Hk; [by left| |by destruct (Hother e He)]. right. split; [done|].
  destruct (decide (wk_rel e = [])) as [|Hne]; [by left|right].
  set (n := foldr (λ e m, length (wk_rel e) `max` m) 0 walk).
  assert (Hmax : ∀ e, e ∈ walk → length (wk_rel e) ≤ n).
  { unfold n. clear. induction walk as [|d l IH]; intros e; [by intros ?%elem_of_nil|].
    intros [->|He]%elem_of_cons; cbn [foldr]; [lia|]. specialize (IH e He). lia. }
  destruct (directory_has_file walk n Hv Hmax n e He Hne Hk ltac:(lia)) as (f & Hf & Hkf & Hpre).
  exists (wk_rel f, remote_entry remoteDir (wk_rel f)). split; [|done].
  apply list_elem_of_fmap. exists f. split; [done|]. by apply list_elem_of_filter.
Qed.
End Upload.
