(* ===== verification/Copy.v ===== *)
(** * Copies between hosts ([ssh/copy.go], [ssh/copy_direct.go])

    One regular file streamed from a host to another through this machine: the digest at
    the source, the relay, and the upload script of the destination, which checks that
    digest before it renames; or pushed by the source itself through [ssh], with an agent
    that holds only the destination's key. The deadline's own removal of that key, which
    can only shorten the time it is held, is left out. *)

From stdpp Require Import pretty.
From Stdlib Require Import Ascii Strings.Byte.
From S2P Require Import Prelude GoStrings GoStringFacts GoErrors GoRegexp Config Redaction FailurePolicy MachineContract SyncProtocol RemoteCommand KnownHosts SshDial RemoteShell Upload Download DirectoryTransfer.

Record CopyResult := mkCopyResult {
  cr_OK : bool;
  cr_Route : string;
  cr_Stage : string;
  cr_Bytes : Z;
  cr_Integrity : string;
  cr_SourceSHA256 : string;
  cr_LocalSHA256 : string;
  cr_DestinationSHA256 : string;
  cr_Atomic : bool;
}.
Definition cr_with_stage (x : string) (r : CopyResult) : CopyResult :=
  mkCopyResult (cr_OK r) (cr_Route r) x (cr_Bytes r) (cr_Integrity r) (cr_SourceSHA256 r) (cr_LocalSHA256 r)
    (cr_DestinationSHA256 r) (cr_Atomic r).
Definition cr_with_source (x : string) (r : CopyResult) : CopyResult :=
  mkCopyResult (cr_OK r) (cr_Route r) (cr_Stage r) (cr_Bytes r) (cr_Integrity r) x (cr_LocalSHA256 r)
    (cr_DestinationSHA256 r) (cr_Atomic r).
Definition cr_with_relayed (bytes : Z) (digest : string) (r : CopyResult) : CopyResult :=
  mkCopyResult (cr_OK r) (cr_Route r) (cr_Stage r) bytes (cr_Integrity r) (cr_SourceSHA256 r) digest
    (cr_DestinationSHA256 r) (cr_Atomic r).
Definition cr_with_destination (x : string) (r : CopyResult) : CopyResult :=
  mkCopyResult (cr_OK r) (cr_Route r) (cr_Stage r) (cr_Bytes r) (cr_Integrity r) (cr_SourceSHA256 r) (cr_LocalSHA256 r)
    x (cr_Atomic r).
Definition cr_with_integrity (x : string) (r : CopyResult) : CopyResult :=
  mkCopyResult (cr_OK r) (cr_Route r) (cr_Stage r) (cr_Bytes r) x (cr_SourceSHA256 r) (cr_LocalSHA256 r)
    (cr_DestinationSHA256 r) (cr_Atomic r).
Definition cr_completed (r : CopyResult) : CopyResult :=
  mkCopyResult true (cr_Route r) "complete" (cr_Bytes r) "sha256_verified" (cr_SourceSHA256 r) (cr_LocalSHA256 r)
    (cr_DestinationSHA256 r) (cr_Atomic r).

(** The connections and sessions, the pipes, the commands on both hosts, the bytes the
    source gives before its end or an error of reading, and the number of bytes after
    which the destination stops accepting them. *)
Record CopyWorld := mkCopyWorld {
  cw_probe_dial : option sshError;
  cw_probe_session : option sshError;
  cw_dial_src : option sshError;
  cw_dial_dst : option sshError;
  cw_digest_session : option sshError;
  cw_mode_session : option sshError;
  cw_session_src : option sshError;
  cw_session_dst : option sshError;
  cw_stdout_pipe : option sshError;
  cw_stdin_pipe : option sshError;
  cw_src : string → Answer;
  cw_dst : string → Answer;
  cw_stream : bytes * option sshError;
  cw_accept : option (nat * sshError);
}.

(** [io.Copy] through [copyRelay]: what the destination accepted, the error of the copy,
    and whether it is the destination's. *)
Definition relay (w : CopyWorld) : bytes * option sshError * bool :=
  match cw_accept w with
  | Some (n, e) => (take n (cw_stream w).1, Some e, true)
  | None => ((cw_stream w).1, (cw_stream w).2, false)
  end.

(** [strconv.ParseUint(s, 8, 32)]. *)
Fixpoint octal_digits (acc : Z) (s : string) : option Z :=
  match s with
  | EmptyString => Some acc
  | String c s' => if in_range 48 55 c then octal_digits (acc * 8 + Z.of_N (code c - 48)) s' else None
  end.
Definition ParseUint8 (s : string) : option Z :=
  if bool_decide (s = "") then None
  else match octal_digits 0 s with Some z => if (z <? 2 ^ 32)%Z then Some z else None | None => None end.

Definition mode_command (remotePath : string) : string :=
  "stat -c %a -- " +:+ ShellQuote remotePath +:+ " 2>/dev/null || stat -f %Lp -- " +:+ ShellQuote remotePath +:+ " 2>/dev/null".

Definition remoteFileMode (session : option sshError) (exec : string → Answer) (remotePath : string) : Z :=
  match session with
  | Some _ => 384
  | None =>
      let a := exec (mode_command remotePath) in
      match ra_wait a with
      | Some _ => 384
      | None =>
          match ParseUint8 (TrimSpace (ra_stdout a)) with
          | Some value => if (4095 <? value)%Z then 384 else Z.land value 511
          | None => 384
          end
      end
  end.

Abbreviation CopyError := (TransferError + sshError)%type.

Section Copy.
Context `{!Sha256} `{!UnicodeCase}.
Context (RedactString : string → string) (windows : bool).
(** Whether a result that is returned beside a call is read after the call. *)
Context (late : bool).

Notation transferError := (transferError RedactString).
Notation transferKindError := (transferKindError RedactString).
Definition failed_copy (r : CopyResult) (e : CopyError) : CopyResult * option CopyError := (r, Some e).

(** An error that is no transfer error: its own failure, or [kind]. *)
Definition classify_copy_error (kind : Kind) (err : CopyError) : CopyError :=
  match err with
  | inl e => inl e
  | inr e =>
      match FailureFromError (Some e) with
      | Some failure => inl (transferClassifiedError failure 0 e)
      | None => inl (transferError kind 0 e)
      end
  end.
Definition copySourceError : CopyError → CopyError := classify_copy_error TransferDownloadRemoteRead.
Definition copyDestinationError : CopyError → CopyError := classify_copy_error TransferRemoteWriteFailed.

(** The error, or the timeout when the deadline has passed. *)
Definition timeoutOr (fired : bool) (r : CopyResult) (cause : sshError) (err : CopyError) : CopyResult * option CopyError :=
  if fired then (if late then cr_with_stage "timeout" r else r, Some (inl (transferError TransferTimedOut (cr_Bytes r) cause)))
  else (r, Some err).
Definition timeout_transfer (fired : bool) (r : CopyResult) (e : TransferError) : CopyResult * option CopyError :=
  timeoutOr fired r (te_Cause e) (inl e).

(** The result [collectRemoteFirst] fills is not looked at. *)
Definition no_result : TransferResult := mkTransferResult false "" "" "" 0 0 "" "" "" false "" 0.

(** [sessionDst.Wait] failed. *)
Definition destination_failed (a : Answer) (r : CopyResult) (err : sshError) : CopyResult * option CopyError :=
  if ra_timed_out a then timeoutOr true r err (inr err)
  else if Contains (ra_stdout a) integrityToolMissingMarker then
    failed_copy (cr_with_stage "capability" r)
      (inl (transferKindError IntegrityToolUnavailable (cr_Bytes r) (plain_error remoteSHA256UnavailableMessage)))
  else if Contains (ra_stdout a) "SSM_INTEGRITY_MISMATCH" then
    failed_copy (cr_with_integrity "mismatch" (cr_with_stage "integrity" r))
      (inl (transferError TransferIntegrityMismatch (cr_Bytes r)
         (plain_error "destination digest does not match the source digest; nothing was published")))
  else if bool_decide (TrimSpace (ra_stderr a) = "") && negb (is_exit (Some err)) then
    failed_copy r (inl (transferError TransferRemoteWriteFailed (cr_Bytes r) err))
  else
    failed_copy r (inl (transferError TransferRemotePermissionsFailed (cr_Bytes r) (plain_error (stderr_or_error (ra_stderr a) err)))).

(** What the destination said it published. *)
Definition check_receipt (a : Answer) (r : CopyResult) : CopyResult * option CopyError :=
  let r := cr_with_stage "integrity" r in
  match parseUploadReceipt (ra_stdout a) with
  | None =>
      failed_copy (cr_with_integrity "mismatch" (cr_with_destination "" r))
        (inl (transferError TransferReceiptInvalid (cr_Bytes r) (plain_error "invalid destination integrity receipt")))
  | Some (size, digest) =>
      let r := cr_with_destination digest r in
      if bool_decide (size ≠ cr_Bytes r ∨ digest ≠ cr_LocalSHA256 r ∨ cr_LocalSHA256 r ≠ cr_SourceSHA256 r) then
        failed_copy (cr_with_integrity "mismatch" r)
          (inl (transferError TransferIntegrityMismatch (cr_Bytes r)
             (plain_error "source, relayed and destination digests or sizes do not agree")))
      else (cr_completed r, None)
  end.

(** Both commands were started: [a] is the destination's answer, [s] the source's. *)
Definition copy_streams (w : CopyWorld) (a s : Answer) (r : CopyResult) : CopyResult * option CopyError :=
  let '(written, copyErr, destination) := relay w in
  let complete := bool_decide (copyErr = None) && bool_decide (ra_wait s = None) in
  let r := cr_with_relayed (Z.of_nat (length written)) (if complete then digest_of written else "") r in
  if negb complete then
    if destination then
      timeout_transfer (ra_timed_out a) r
        (collectRemoteFirst RedactString a no_result (cr_Bytes r) (default (plain_error "") copyErr) TransferRemoteWriteFailed).2
    else
      let cause := match copyErr with Some e => e | None => default (plain_error "") (ra_wait s) end in
      let message := stderr_or_error (ra_stderr s) cause in
      timeout_transfer (ra_timed_out s) (cr_with_stage "remote_read" r)
        (transferError TransferDownloadRemoteRead (cr_Bytes r) (plain_error message))
  else
    match ra_close a with
    | Some e =>
        timeout_transfer (ra_timed_out a) r
          (collectRemoteFirst RedactString a no_result (cr_Bytes r) e TransferRemoteCloseFailed).2
    | None =>
        match ra_wait a with
        | Some e => destination_failed a r e
        | None => check_receipt a r
        end
    end.

Definition session_failed (r : CopyResult) (e : sshError) (c : Connection) : CopyResult * option CopyError :=
  failed_copy (cr_with_stage "session" r) (inr (classified_error (ClassifyError RedactString windows e c) (Some e))).

(** The sessions and the start of both commands. *)
Definition copy_sessions (w : CopyWorld) (src dst : Connection) (srcPath dstPath sourceDigest : string) (mode : Z) (r : CopyResult) :
    CopyResult * option CopyError :=
  match cw_session_src w with
  | Some e => session_failed r e src
  | None =>
  match cw_session_dst w with
  | Some e => session_failed r e dst
  | None =>
  match cw_stdout_pipe w with
  | Some e => failed_copy r (inl (transferError TransferDownloadRemoteRead 0 e))
  | None =>
  match cw_stdin_pipe w with
  | Some e => failed_copy r (inl (transferError TransferStdinOpenFailed 0 e))
  | None =>
      let r := cr_with_stage "remote_write" r in
      let a := cw_dst w (uploadCommandWithIntegrity dstPath mode (-1) sourceDigest DefaultUploadDirMode) in
      let not_started kind fired e :=
        if isExecRefused e then failed_copy r (inl (remoteShellUnsupportedError RedactString "" (Some e)))
        else timeout_transfer fired r (transferError kind 0 e) in
      match ra_start a with
      | Some e => not_started TransferStartFailed (ra_timed_out a) e
      | None =>
          let s := cw_src w (downloadCommand srcPath) in
          match ra_start s with
          | Some e => not_started TransferDownloadRemoteRead (ra_timed_out s) e
          | None => copy_streams w a s r
          end
      end
  end end end end.

(** [CopyFile] without [Direct]. *)
Definition CopyFile (w : CopyWorld) (src : Connection) (srcPath : string) (dst : Connection) (dstPath : string) :
    CopyResult * option CopyError :=
  let r := mkCopyResult false "local_relay" "validate" 0 "not_checked" "" "" "" true in
  if UsesSFTP src || UsesSFTP dst then
    failed_copy r (inl (transferKindError TransferSFTPUnsupported 0
      (plain_error "cp needs a POSIX shell on both hosts; hosts with transfer: sftp are not supported (use get and put)")))
  else
    let r := cr_with_stage "discovery" r in
    let isDir := match cw_probe_dial w with
      | Some e => inr (inr e)
      | None => remoteIsDirOn RedactString (cw_probe_session w) (cw_src w) srcPath end in
    match isDir with
    | inr e => failed_copy r (copySourceError e)
    | inl true =>
        failed_copy r (inl (transferKindError CopyDirectoryUnsupported 0
          (plain_error (srcPath +:+ " is a directory; cp copies single regular files only"))))
    | inl false =>
        let r := cr_with_stage "dial" r in
        match cw_dial_src w with
        | Some e => failed_copy r (copySourceError (inr e))
        | None =>
        match cw_dial_dst w with
        | Some e => failed_copy r (copyDestinationError (inr e))
        | None =>
            let r := cr_with_stage "integrity" r in
            match remoteFileSHA256 RedactString (cw_digest_session w) (cw_src w) srcPath with
            | inr e => timeout_transfer (ra_timed_out (cw_src w (remote_digest_command srcPath))) r e
            | inl digest =>
                copy_sessions w src dst srcPath dstPath digest (remoteFileMode (cw_mode_session w) (cw_src w) srcPath)
                  (cr_with_source digest r)
            end
        end end
    end.

(** ** The direct copy *)

Definition directSSHProbeMarker : string := "SSM_SSH_OK".
Definition directNoAgentExit : Z := 71.
Definition directTimeoutExit : Z := 72.

Definition directUnsupported (message : string) : TransferError :=
  transferKindError CopyDirectUnsupported 0 (plain_error message).

(** How far the private key of the destination can be loaded. *)
Inductive KeyLoading := KeyLoaded | NotParsed | NoSigner | NotAdded (e : string).

(** The private keys of the agent. *)
Definition directAgent (load : string → KeyLoading) (dst : Connection) (v : Vault) : TransferError + list string :=
  let name := c_Name dst in
  if bool_decide (c_KeyName dst = "") then
    inl (directUnsupported (name +:+ " authenticates with a password only; cp --direct needs a key from the vault for the destination and never sends a password to the source host"))
  else
    match GetKey v (c_KeyName dst) with
    | None => inl (directUnsupported ("key " +:+ Quote (c_KeyName dst) +:+ " of destination " +:+ name +:+ " was not found in the vault"))
    | Some key =>
        let refused why := inl (directUnsupported
          ("the key of destination " +:+ name +:+ " cannot be loaded into the scoped agent (" +:+ why +:+ ")")) in
        match load (k_PrivateKey key) with
        | NotParsed => refused "encrypted or unsupported key"
        | NoSigner => refused "unsupported key"
        | NotAdded e => refused e
        | KeyLoaded => inr [k_PrivateKey key]
        end
    end.

Definition directSafeToken (value : string) : bool :=
  if bool_decide (value = "") || HasPrefix value "-" then false
  else negb (ContainsAny value (" " +:+ string_of_codes [9; 13; 10]%N +:+ "'" +:+ dquote +:+ "\$`;&|<>(){}*?!#~")).

Section KnownHostsLines.
Context `{K : SshKeys} `{!KnownHostsPackage} `{!HostNameHash}.
(** [gossh.ParseKnownHosts] of a line: its marker, its patterns and its key. *)
Context (ParseKnownHosts : string → option (string * list string * PublicKey)).

Definition unknown_host_key (dst : Connection) : TransferError :=
  let unknown := mkSSHError "knownhosts: key is unknown" None None false (Some 0) None None None false false false false None None in
  let failure := ClassifyError RedactString windows unknown dst in
  transferClassifiedError failure 0 (classified_error failure (Some unknown)).

(** The line of an entry that is copied. *)
Definition trusted_line (verify : string → PublicKey → option refusal) (dst : Connection) (text : string) : option string :=
  let trimmed := TrimSpace text in
  if bool_decide (trimmed = "") || HasPrefix trimmed "#" then None
  else
    match ParseKnownHosts trimmed with
    | None => None
    | Some (marker, hosts, key) =>
        if bool_decide (marker ≠ "") then None
        else if negb (existsb (λ host, knownHostPatternIs host (Normalize (hostPortOf dst))) hosts) then None
        else match verify (hostPortOf dst) key with
             | Some _ => None
             | None => Some (knownhosts_Line (hostPortOf dst) key)
             end
    end.

(** [data] is what reading the file gave, [file] what the callback found. *)
Definition directKnownHostsLines (path : string) (data : option string) (file : KnownHostsFile) (dst : Connection) :
    TransferError + list string :=
  match data with
  | None => inl (unknown_host_key dst)
  | Some data =>
      let verify := buildHostKeyCallbackForPath path file in
      match dedup_strings (omap (trusted_line verify dst) (Split (char 10) data)) with
      | [] => inl (unknown_host_key dst)
      | lines => inr lines
      end
  end.
End KnownHostsLines.

Definition directSSHCommand (srcPath : string) (dst : Connection) (knownHostsLines : list string)
    (connectSeconds timeoutSeconds : Z) (putScript : string) : string :=
  let limited := (0 <? timeoutSeconds)%Z in
  let wrapper :=
    if limited then "to=; if timeout --version >/dev/null 2>&1; then to='timeout " +:+ pretty timeoutSeconds +:+ "'; fi; " else "" in
  let runner := if limited then "$to " else "" in
  let suffix :=
    if limited then "; rc=$?; if [ -n " +:+ in_dquotes "$to" +:+ " ] && [ " +:+ in_dquotes "$rc" +:+ " = 124 ]; then exit "
      +:+ pretty directTimeoutExit +:+ "; fi; exit $rc" else "" in
  "umask 077; kh=$(mktemp " +:+ in_dquotes "${TMPDIR:-/tmp}/ssm-kh.XXXXXXXX" +:+ ") || exit 70; "
  +:+ "trap 'rm -f -- " +:+ in_dquotes "$kh" +:+ "' EXIT HUP INT TERM; "
  +:+ "printf '%s\n' " +:+ Join (ShellQuote <$> knownHostsLines) " " +:+ " > " +:+ in_dquotes "$kh" +:+ " || exit 70; "
  +:+ "[ -n " +:+ in_dquotes "$SSH_AUTH_SOCK" +:+ " ] || { echo 'no forwarded agent' >&2; exit " +:+ pretty directNoAgentExit +:+ "; }; "
  +:+ wrapper +:+ runner
  +:+ "ssh -F /dev/null -T -o BatchMode=yes -o StrictHostKeyChecking=yes -o " +:+ in_dquotes "UserKnownHostsFile=$kh"
  +:+ " -o GlobalKnownHostsFile=/dev/null "
  +:+ "-o VerifyHostKeyDNS=no -o UpdateHostKeys=no -o CheckHostIP=no -o ClearAllForwardings=yes -o ForwardAgent=no "
  +:+ "-o ProxyCommand=none -o PermitLocalCommand=no -o ControlMaster=no -o ControlPath=none "
  +:+ "-o PubkeyAuthentication=yes -o PasswordAuthentication=no -o KbdInteractiveAuthentication=no -o HostbasedAuthentication=no "
  +:+ "-o IdentityFile=/dev/null -o ConnectTimeout=" +:+ pretty connectSeconds +:+ " "
  +:+ "-p " +:+ pretty (port_of dst) +:+ " -- " +:+ ShellQuote (c_User dst +:+ "@" +:+ c_Host dst) +:+ " " +:+ ShellQuote putScript
  +:+ " < " +:+ ShellQuote srcPath +:+ suffix.

(** A duration in nanoseconds, in seconds rounded up. *)
Definition Second : Z := 10 ^ 9.
Definition seconds_up (d : Z) : Z := wrap_int (d + Second - 1) `quot` Second.
Definition directConnectSeconds (dialTimeout : Z) : Z := Z.max (seconds_up dialTimeout) 1.

Definition directAgentRefused : TransferError :=
  transferKindError CopyDirectAgentUnavailable 0
    (plain_error "the SSH server of the source host did not provide the forwarded agent; cp --direct needs agent forwarding (AllowAgentForwarding)").

(** What a direct copy does that others can see: a connection with the credentials it
    uses, a command, and the keys the agent on the source's connection holds. *)
Inductive copy_event :=
  | Dialed (c : Connection)
  | OnSource (cmd : string)
  | OnDestination (cmd : string)
  | Forwarded (keys : list string)
  | Cleared.

#[export] Instance copy_event_eq_dec : EqDecision copy_event.
Proof. solve_decision. Defined.

(** The connections, the sessions, the forwarding of the agent, and the answers of both
    hosts. The deadline passed during a call when the answer of its command says so. *)
Record DirectWorld := mkDirectWorld {
  ct_dial_dst : option sshError;
  ct_dial_src : option sshError;
  ct_probe_session : option sshError;
  ct_ssh_session : option sshError;
  ct_digest_session : option sshError;
  ct_mode_session : option sshError;
  ct_session : option sshError;
  ct_forward : option sshError;
  ct_request : option sshError;
  ct_check_session : option sshError;
  ct_src : string → Answer;
  ct_dst : string → Answer;
}.

Definition Logged (A : Type) : Type := list copy_event * A.
#[export] Instance Logged_ret : MRet Logged := λ A a, ([], a).
#[export] Instance Logged_bind : MBind Logged := λ A B f m, let '(l, a) := m in let '(l', b) := f a in (l ++ l', b).
Definition emit (e : copy_event) : Logged () := ([e], ()).

(** A session that was acquired runs its command. *)
Definition in_session (session : option sshError) (e : copy_event) : Logged () :=
  match session with None => emit e | Some _ => mret () end.

Definition ssh_probe_command : string := "command -v ssh >/dev/null 2>&1 && echo " +:+ directSSHProbeMarker.

Definition directRequireSSH (session : option sshError) (exec : string → Answer) : option TransferError :=
  match session with
  | Some e => Some (transferError TransferSessionOpenFailed 0 e)
  | None =>
      let a := exec ssh_probe_command in
      let checked :=
        if negb (Contains (ra_stdout a) directSSHProbeMarker)
        then Some (transferKindError CopyDirectSSHUnavailable 0 (plain_error "the source host has no ssh client")) else None in
      match ra_wait a with
      | Some e =>
          if isExecRefused e then Some (remoteShellUnsupportedError RedactString (ra_stdout a) (Some e))
          else if negb (is_exit (Some e)) then Some (transferError TransferDownloadRemoteRead 0 e)
          else checked
      | None => checked
      end
  end.

(** The command on the source failed. *)
Definition direct_failed (src dst : Connection) (a : Answer) (r : CopyResult) (err : sshError) : CopyResult * option CopyError :=
  let failed r e := failed_copy r (inl e) in
  if ra_timed_out a then timeoutOr true r err (inr err)
  else if Contains (ra_stdout a) integrityToolMissingMarker then
    failed (cr_with_stage "capability" r)
      (transferKindError IntegrityToolUnavailable 0 (plain_error remoteSHA256UnavailableMessage))
  else if Contains (ra_stdout a) "SSM_INTEGRITY_MISMATCH" then
    failed (cr_with_integrity "mismatch" (cr_with_stage "integrity" r))
      (transferError TransferIntegrityMismatch 0
         (plain_error "destination digest does not match the source digest; nothing was published"))
  else if bool_decide (x_ExitStatus err = Some directNoAgentExit) then failed (cr_with_stage "capability" r) directAgentRefused
  else if bool_decide (x_ExitStatus err = Some directTimeoutExit) then
    failed (cr_with_stage "timeout" r)
      (transferError TransferTimedOut 0 (plain_error "the transfer on the source host exceeded --timeout"))
  else
    let message := stderr_or_error (ra_stderr a) err in
    if bool_decide (x_ExitStatus err = Some 255%Z) then
      failed r (transferError TransferRemoteWriteFailed 0
        (plain_error ("ssh from " +:+ c_Name src +:+ " to " +:+ c_Name dst +:+ " failed: " +:+ message)))
    else if bool_decide (TrimSpace (ra_stderr a) = "") && negb (is_exit (Some err)) then
      failed r (transferError TransferRemoteWriteFailed 0 err)
    else failed r (transferError TransferRemotePermissionsFailed 0 (plain_error message)).

Definition digests_disagree (r : CopyResult) : CopyResult * option CopyError :=
  failed_copy (cr_with_integrity "mismatch" r)
    (inl (transferError TransferIntegrityMismatch (cr_Bytes r) (plain_error "source and destination digests do not agree"))).
Definition cr_with_bytes (x : Z) (r : CopyResult) : CopyResult := cr_with_relayed x (cr_LocalSHA256 r) r.

(** The destination's receipt, and its own digest of the file. *)
Definition direct_verified (w : DirectWorld) (a : Answer) (dstPath sourceDigest : string) (r : CopyResult) :
    Logged (CopyResult * option CopyError) :=
  let r := cr_with_stage "integrity" r in
  match parseUploadReceipt (ra_stdout a) with
  | None =>
      mret (failed_copy (cr_with_integrity "mismatch" r)
        (inl (transferError TransferReceiptInvalid 0 (plain_error "invalid destination integrity receipt"))))
  | Some (size, receipt) =>
      let r := cr_with_bytes size r in
      if bool_decide (receipt ≠ sourceDigest) then mret (digests_disagree (cr_with_destination receipt r))
      else
        in_session (ct_check_session w) (OnDestination (remote_digest_command dstPath));;
        match remoteFileSHA256 RedactString (ct_check_session w) (ct_dst w) dstPath with
        | inr e => mret (timeout_transfer (ra_timed_out (ct_dst w (remote_digest_command dstPath))) r e)
        | inl digest =>
            let r := cr_with_destination digest r in
            if bool_decide (digest ≠ sourceDigest) then mret (digests_disagree r) else mret (cr_completed r, None)
        end
  end.

(** The session that pushes the file: the agent holds the keys while its command runs. *)
Definition direct_session (w : DirectWorld) (src dst : Connection) (keys : list string) (command dstPath sourceDigest : string)
    (r : CopyResult) : Logged (CopyResult * option CopyError) :=
  match ct_session w with
  | Some e => mret (session_failed r e src)
  | None =>
  match ct_forward w with
  | Some e => mret (failed_copy r (inl (transferError TransferStartFailed 0 e)))
  | None =>
      emit (Forwarded keys);;
      match ct_request w with
      | Some _ => mret (failed_copy (cr_with_stage "capability" r) (inl directAgentRefused))
      | None =>
          let r := cr_with_stage "remote_write" r in
          let a := ct_src w command in
          emit (OnSource command);;
          emit Cleared;;
          match ra_start a with
          | Some e =>
              mret (if isExecRefused e then failed_copy r (inl (remoteShellUnsupportedError RedactString "" (Some e)))
                    else timeout_transfer (ra_timed_out a) r (transferError TransferStartFailed 0 e))
          | None =>
              match ra_wait a with
              | Some e => mret (direct_failed src dst a r e)
              | None => direct_verified w a dstPath sourceDigest r
              end
          end
      end
  end end.

(** Both hosts are connected. *)
Definition direct_connected (w : DirectWorld) (timeout dialTimeout : Z) (src dst : Connection) (keys knownHostsLines : list string)
    (srcPath dstPath : string) (r : CopyResult) : Logged (CopyResult * option CopyError) :=
  let timed_out cmd := ra_timed_out (ct_src w cmd) in
  let r := cr_with_stage "discovery" r in
  in_session (ct_probe_session w) (OnSource (path_probe_command srcPath));;
  match remoteIsDirOn RedactString (ct_probe_session w) (ct_src w) srcPath with
  | inr e =>
      mret (match copySourceError e with
            | inl e => timeout_transfer (timed_out (path_probe_command srcPath)) r e
            | inr e => timeoutOr (timed_out (path_probe_command srcPath)) r e (inr e)
            end)
  | inl true =>
      mret (failed_copy r (inl (transferKindError CopyDirectoryUnsupported 0
        (plain_error (srcPath +:+ " is a directory; cp copies single regular files only")))))
  | inl false =>
      let r := cr_with_stage "capability" r in
      in_session (ct_ssh_session w) (OnSource ssh_probe_command);;
      match directRequireSSH (ct_ssh_session w) (ct_src w) with
      | Some e => mret (timeout_transfer (timed_out ssh_probe_command) r e)
      | None =>
          let r := cr_with_stage "integrity" r in
          in_session (ct_digest_session w) (OnSource (remote_digest_command srcPath));;
          match remoteFileSHA256 RedactString (ct_digest_session w) (ct_src w) srcPath with
          | inr e => mret (timeout_transfer (timed_out (remote_digest_command srcPath)) r e)
          | inl digest =>
              let r := cr_with_source digest r in
              in_session (ct_mode_session w) (OnSource (mode_command srcPath));;
              let mode := remoteFileMode (ct_mode_session w) (ct_src w) srcPath in
              let seconds := if (0 <? timeout)%Z then seconds_up timeout else 0%Z in
              let command := directSSHCommand srcPath dst knownHostsLines (directConnectSeconds dialTimeout) seconds
                (uploadCommandWithIntegrity dstPath mode (-1) digest DefaultUploadDirMode) in
              direct_session w src dst keys command dstPath digest r
          end
      end
  end.

Definition without_password (c : Connection) : Connection :=
  mkConnection (c_Name c) (c_Host c) (c_Port c) (c_User c) "" (c_KeyName c) (c_Group c) (c_Transfer c) (c_ProxyJump c).

(** [keyring.RemoveAll] is deferred once there is a keyring. *)
Definition cleared {A} (m : Logged A) : Logged A := a ← m; emit Cleared;; mret a.

Section Direct.
Context `{K : SshKeys} `{!KnownHostsPackage} `{!HostNameHash}.
Context (ParseKnownHosts : string → option (string * list string * PublicKey)) (load : string → KeyLoading).
(** [KnownHostsPath], what reading that file gave and what the callback found. *)
Context (knownHosts : option string) (data : option string) (file : KnownHostsFile).

(** [CopyFile] with [Direct], after its first check. *)
Definition copyFileDirect (w : DirectWorld) (timeout dialTimeout : Z) (src : Connection) (srcPath : string) (dst : Connection)
    (dstPath : string) (v : Vault) : Logged (CopyResult * option CopyError) :=
  let r := mkCopyResult false "direct" "validate" 0 "not_checked" "" "" "" true in
  let failed e := mret (failed_copy r (inl e)) in
  if bool_decide (TrimSpace (c_ProxyJump dst) ≠ "") then
    failed (directUnsupported (c_Name dst +:+ " is reached through proxy_jump; cp --direct needs B to be directly reachable from A"))
  else if negb (directSafeToken (c_User dst)) || negb (directSafeToken (c_Host dst)) then
    failed (directUnsupported ("the user or host of " +:+ c_Name dst +:+ " cannot be passed safely to ssh on the source host"))
  else
    match directAgent load dst v with
    | inl e => failed e
    | inr keys => cleared (
        match knownHosts with
        | None => mret (failed_copy r (inr (knownHostsPathError RedactString)))
        | Some path =>
        match directKnownHostsLines ParseKnownHosts path data file dst with
        | inl e => failed e
        | inr lines =>
            let r := cr_with_stage "dial" r in
            emit (Dialed (without_password dst));;
            match ct_dial_dst w with
            | Some e =>
                mret (failed_copy r
                  match FailureFromError (Some e) with
                  | Some failure =>
                      if bool_decide (f_Error failure = CodeAuth) then
                        inl (directUnsupported (c_Name dst +:+ " did not accept its vault key; cp --direct uses key authentication only and never sends a password to the source host"))
                      else copyDestinationError (inr e)
                  | None => copyDestinationError (inr e)
                  end)
            | None =>
                emit (Dialed src);;
                match ct_dial_src w with
                | Some e => mret (failed_copy r (copySourceError (inr e)))
                | None => direct_connected w timeout dialTimeout src dst keys lines srcPath dstPath r
                end
            end
        end end)
    end.
End Direct.

(** ** The arguments of [cp] ([cmd/ssm/cp.go]) *)

Record cpOptions := mkCpOptions {
  cp_srcAlias : string;
  cp_srcPath : string;
  cp_dstAlias : string;
  cp_dstPath : string;
  cp_timeout : Z;
  cp_direct : bool;
  cp_yes : bool;
}.
Definition cp_with_timeout (x : Z) (o : cpOptions) : cpOptions :=
  mkCpOptions (cp_srcAlias o) (cp_srcPath o) (cp_dstAlias o) (cp_dstPath o) x (cp_direct o) (cp_yes o).
Definition cp_with_direct (o : cpOptions) : cpOptions :=
  mkCpOptions (cp_srcAlias o) (cp_srcPath o) (cp_dstAlias o) (cp_dstPath o) (cp_timeout o) true (cp_yes o).
Definition cp_with_yes (o : cpOptions) : cpOptions :=
  mkCpOptions (cp_srcAlias o) (cp_srcPath o) (cp_dstAlias o) (cp_dstPath o) (cp_timeout o) (cp_direct o) true.
Definition cp_with_endpoints (src dst : string * string) (o : cpOptions) : cpOptions :=
  mkCpOptions src.1 src.2 dst.1 dst.2 (cp_timeout o) (cp_direct o) (cp_yes o).

Definition splitCopyEndpoint (operand : string) : result (string * string) :=
  let refused := Fail (Errorf (Quote operand +:+ " is not <alias>:<path>")) in
  match IndexByte operand ":" with
  | None => refused
  | Some index =>
      let alias := take_string index operand in
      let path := drop_string (index + 1) operand in
      if bool_decide (alias = "" ∨ path = "") || ContainsAny alias "/\" then refused else Ok (alias, path)
  end.

Section Arguments.
Context (ParseDuration : string → option Z).

Definition cp_timeout_value (value : string) (o : cpOptions) : result cpOptions :=
  match ParseDuration value with
  | Some d => if (0 <? d)%Z then Ok (cp_with_timeout d o) else Fail (Errorf "--timeout requires a positive duration")
  | None => Fail (Errorf "--timeout requires a positive duration")
  end.

(** The loop: [json] is [machineJSON], and stays set when the arguments are refused. *)
Fixpoint cp_args (args : list string) (json : bool) (o : cpOptions) (positionals : list string) :
    bool * result (cpOptions * list string) :=
  match args with
  | [] => (json, Ok (o, positionals))
  | arg :: rest =>
      if bool_decide (arg = "--json") then cp_args rest true o positionals
      else if bool_decide (arg = "--direct") then cp_args rest json (cp_with_direct o) positionals
      else if bool_decide (arg = "--yes") then cp_args rest json (cp_with_yes o) positionals
      else
        let other :=
          if HasPrefix arg "--timeout=" then
            match cp_timeout_value (TrimPrefix arg "--timeout=") o with
            | Ok o => cp_args rest json o positionals
            | Fail e => (json, Fail e)
            end
          else if HasPrefix arg "-" then (json, Fail (Errorf ("unknown cp option " +:+ Quote arg)))
          else cp_args rest json o (positionals ++ [arg]) in
        if bool_decide (arg = "--timeout") then
          match rest with
          | value :: rest' =>
              match cp_timeout_value value o with
              | Ok o => cp_args rest' json o positionals
              | Fail e => (json, Fail e)
              end
          | [] => other
          end
        else other
  end.

Definition parseCpArgs (json : bool) (args : list string) : bool * result cpOptions :=
  let '(json, parsed) := cp_args args json (mkCpOptions "" "" "" "" 0 false false) [] in
  (json,
   match parsed with
   | Fail e => Fail e
   | Ok (o, [src; dst]) =>
       if cp_yes o && negb (cp_direct o) then Fail (Errorf "--yes only confirms --direct; plain cp needs no confirmation")
       else match splitCopyEndpoint src, splitCopyEndpoint dst with
            | Ok src, Ok dst => Ok (cp_with_endpoints src dst o)
            | Fail e, _ | _, Fail e => Fail e
            end
   | Ok _ => Fail (Errorf "cp requires <alias>:<path> for the source and the destination")
   end).

(** What is refused before anything is read or connected. *)
Definition runCpArgs (json : bool) (args : list string) : bool * (Failure + cpOptions) :=
  let '(json, parsed) := parseCpArgs json args in
  (json,
   match parsed with
   | Fail e => inl (Classify RedactString CopyArgumentsInvalid (cause_details (plain_error (error_text e))))
   | Ok o =>
       if cp_direct o && negb (cp_yes o) then
         inl (Classify RedactString CopyDirectConfirmationRequired
           (mkDetails "cp --direct needs explicit confirmation: host A can use B's key through a forwarded agent while the copy runs, and anyone who controls A can use it too"
              None "" "" [] "" 0 "" "" "" "" "" "" "" ""))
       else inr o
   end).
End Arguments.
End Copy.
