(* ===== verification/CopyFacts.v ===== *)
(** * What a copy between hosts leaves behind

    A copy that succeeds published the source's bytes; a direct copy lends the source
    only the destination's key, for one command that is pinned to the trusted host; and
    the arguments never ask for one without its confirmation. *)

From stdpp Require Import pretty.
From Stdlib Require Import Ascii Strings.Byte.
From S2P Require Import Prelude GoStrings GoStringFacts GoErrors GoRegexp Config Redaction FailurePolicy MachineContract SyncProtocol RemoteCommand KnownHosts SshDial RemoteShell Upload UploadFacts TransferFacts Download DirectoryTransfer Copy.

(** ** The copy through this machine *)

Section Copy.
Context `{!Sha256} `{!Sha256Laws _} `{!UnicodeCase}.
Context (RedactString : string → string) (windows late : bool).

Lemma timeoutOr_fails fired r cause e r' : timeoutOr RedactString late fired r cause e ≠ (r', None).
Proof. unfold timeoutOr. by destruct fired. Qed.

(** Both streams ended well and the destination sent a receipt of the same bytes. *)
Lemma copy_streams_ok w a s r r' :
  copy_streams RedactString late w a s r = (r', None) →
  let content := (cw_stream w).1 in
  cw_accept w = None ∧ (cw_stream w).2 = None ∧ ra_wait s = None ∧ ra_wait a = None
  ∧ cr_OK r' = true ∧ cr_Bytes r' = Z.of_nat (length content)
  ∧ parseUploadReceipt (ra_stdout a) = Some (cr_Bytes r', digest_of content)
  ∧ cr_SourceSHA256 r' = cr_SourceSHA256 r ∧ cr_SourceSHA256 r = digest_of content
  ∧ cr_LocalSHA256 r' = digest_of content ∧ cr_DestinationSHA256 r' = digest_of content.
Proof.
  unfold copy_streams, relay. destruct (cw_accept w) as [[n e]|]; cbn [fst snd].
  { cbn. intros Hr. by apply timeoutOr_fails in Hr. }
  destruct (cw_stream w) as [content [e|]]; cbn [fst snd].
  { cbn. intros Hr. by apply timeoutOr_fails in Hr. }
  destruct (ra_wait s) as [e|] eqn:Hs; cbn -[digest_of check_receipt destination_failed].
  { intros Hr. by apply timeoutOr_fails in Hr. }
  destruct (ra_close a); [intros Hr; by apply timeoutOr_fails in Hr|].
  destruct (ra_wait a) as [e|] eqn:Ha.
  { unfold destination_failed. repeat case_match; try done; intros Hr; by apply timeoutOr_fails in Hr. }
  unfold check_receipt. cbn -[digest_of]. destruct (parseUploadReceipt _) as [[z d]|]; [|done]. case_bool_decide as Hbad; [done|].
  intros [= <-]. cbn -[digest_of] in *.
  assert (z = Z.of_nat (length content) ∧ d = digest_of content ∧ digest_of content = cr_SourceSHA256 r) as (-> & -> & Hd).
  { repeat split; apply dec_stable; tauto. }
  by split_and!.
Qed.

Lemma copy_sessions_ok w src dst srcPath dstPath digest mode r r' :
  copy_sessions RedactString windows late w src dst srcPath dstPath digest mode r = (r', None) →
  copy_streams RedactString late w (cw_dst w (uploadCommandWithIntegrity dstPath mode (-1) digest DefaultUploadDirMode))
    (cw_src w (downloadCommand srcPath)) (cr_with_stage "remote_write" r) = (r', None).
Proof.
  unfold copy_sessions, session_failed. repeat case_match; try done; intros Hr; by apply timeoutOr_fails in Hr.
Qed.

Lemma CopyFile_ok w src srcPath dst dstPath r :
  CopyFile RedactString windows late w src srcPath dst dstPath = (r, None) →
  ∃ digest r0, remoteFileSHA256 RedactString (cw_digest_session w) (cw_src w) srcPath = inl digest ∧ cr_SourceSHA256 r0 = digest
    ∧ remoteIsDirOn RedactString (cw_probe_session w) (cw_src w) srcPath = inl false
    ∧ copy_sessions RedactString windows late w src dst srcPath dstPath digest
        (remoteFileMode (cw_mode_session w) (cw_src w) srcPath) r0 = (r, None).
Proof.
  unfold CopyFile. destruct (_ || _); [done|]. cbv zeta. destruct (cw_probe_dial w); [done|].
  destruct (remoteIsDirOn _ _ _ _) as [[]|]; [done| |done]. destruct (cw_dial_src w); [done|]. destruct (cw_dial_dst w); [done|].
  destruct (remoteFileSHA256 _ _ _ _) as [digest|e] eqn:Hd; [|intros Hr; by apply timeoutOr_fails in Hr].
  intros Hs. eexists digest, _. split_and!; [done| |done|exact Hs]. done.
Qed.

(** C5: A copy through this machine reports success only when the source's stream ended
    well, its bytes have the digest the source gave before, and the destination holds a
    file of that digest. *)
Theorem copy_success_is_published w src srcPath dst dstPath r :
  CopyFile RedactString windows late w src srcPath dst dstPath = (r, None) → guard_dash dstPath ≠ "" →
  let content := (cw_stream w).1 in
  let digest := digest_of content in
  let path := guard_dash dstPath in
  let mode := remoteFileMode (cw_mode_session w) (cw_src w) srcPath in
  let script := upload_script dstPath mode (-1) digest DefaultUploadDirMode in
  (cr_OK r = true ∧ cr_Bytes r = Z.of_nat (length content)
   ∧ cr_SourceSHA256 r = digest ∧ cr_LocalSHA256 r = digest ∧ cr_DestinationSHA256 r = digest)
  ∧ (cw_accept w = None ∧ (cw_stream w).2 = None ∧ ra_wait (cw_src w (downloadCommand srcPath)) = None
     ∧ remoteFileSHA256 RedactString (cw_digest_session w) (cw_src w) srcPath = inl digest
     ∧ remoteIsDirOn RedactString (cw_probe_session w) (cw_src w) srcPath = inl false)
  ∧ ∀ fs s, answered_by_shell (cw_dst w (sh_text script)) fs script s →
      fs !! path ≠ Some RDir ∧ ∃ payload, sh_fs s !! path = Some (RFile payload mode) ∧ digest_of payload = digest.
Proof.
  intros Hok Hpath. cbv zeta. apply CopyFile_ok in Hok as (digest & r0 & Hprobe & Hsrc & Hdir & Hok).
  apply copy_sessions_ok, copy_streams_ok in Hok as (Hacc & Herr & Hwait & Hdwait & HOK & Hbytes & _ & Hs & Hd & Hl & Hdst).
  cbn -[digest_of] in Hs, Hd. rewrite Hsrc in *. subst digest. rewrite Hd in Hprobe, Hs.
  split; [by split_and!|]. split; [by split_and!|].
  intros fs s (pid & tool & stale & faults & payload & Hrun & Hans).
  rewrite Hd, upload_text in Hdwait. destruct (Hans Hdwait) as [Hexit _].
  set (mode := remoteFileMode _ _ _) in *. set (path := guard_dash dstPath) in *.
  destruct (upload_outcome pid tool stale faults fs payload path mode (-1) (digest_of (cw_stream w).1) Hpath _
    (runs_upload pid tool stale faults fs payload path mode (-1) (digest_of (cw_stream w).1) DefaultUploadDirMode Hpath))
    as (_ & Hdone & _).
  fold path in Hrun. unfold upload_script in Hrun. fold path in Hrun. rewrite Hrun in Hdone.
  destruct (Hdone Hexit) as [[Hfile (_ & Hdg & Hnodir)] _]. split; [done|]. exists payload. split; [done|].
  apply Hdg, digest_not_empty.
Qed.
End Copy.

(** ** The direct copy *)

(** The keys the agent holds after some events. *)
Definition agent_step (keys : list string) (e : copy_event) : list string :=
  match e with Forwarded new => new | Cleared => [] | _ => keys end.
Definition agent_after (keys : list string) (l : list copy_event) : list string := fold_left agent_step l keys.

Lemma agent_after_app keys l l' : agent_after keys (l ++ l') = agent_after (agent_after keys l) l'.
Proof. apply fold_left_app. Qed.

(** Every event is permitted to the keys the agent holds at it. *)
Section Watch.
Context (permitted : list string → copy_event → Prop).

Definition watched (keys : list string) (l : list copy_event) : Prop :=
  ∀ l1 e l2, l = l1 ++ e :: l2 → permitted (agent_after keys l1) e.

Definition watch {A} (keys : list string) (m : Logged A) (after : list string → Prop) : Prop :=
  watched keys m.1 ∧ after (agent_after keys m.1).

Lemma watched_app keys l l' : watched keys l → watched (agent_after keys l) l' → watched keys (l ++ l').
Proof.
  intros Hl Hl' l1 e l2 E. apply app_eq_inv in E as [(k & -> & E)|(k & -> & ->)].
  - destruct k as [|e' k]; cbn in E.
    + rewrite app_nil_r in Hl'. by apply (Hl' [] e l2).
    + injection E as <- E. by apply (Hl l1 e k).
  - rewrite agent_after_app. by apply (Hl' k e l2).
Qed.

Lemma watch_ret {A} keys (a : A) (after : list string → Prop) : after keys → watch keys (mret a) after.
Proof. intros Ha. split; [|done]. by intros [|??] ??. Qed.

Lemma watch_bind {A B} keys (m : Logged A) (f : A → Logged B) (mid after : list string → Prop) :
  watch keys m mid → (∀ k, mid k → watch k (f m.2) after) → watch keys (m ≫= f) after.
Proof.
  intros [Hm Hmid] Hf. destruct (Hf _ Hmid) as [Hw Ha]. unfold watch, mbind, Logged_bind in *. destruct m as [l a]. cbn [fst snd] in *.
  destruct (f a) as [l' b]. cbn [fst snd] in *. split; [by apply watched_app|]. by rewrite agent_after_app.
Qed.

Lemma watch_emit keys e (after : list string → Prop) : permitted keys e → after (agent_step keys e) → watch keys (emit e) after.
Proof.
  intros He Ha. split; [|done]. intros [|e' l1] e0 l2 E; [by injection E as <- <-|]. by destruct l1.
Qed.

Lemma watch_session keys session e : (session = None → permitted keys e) → agent_step keys e = keys → watch keys (in_session session e) (eq keys).
Proof.
  intros He Ha. destruct session; [by apply watch_ret|]. apply watch_emit; [by apply He|done].
Qed.

Lemma watch_weaken {A} keys (m : Logged A) (after after' : list string → Prop) :
  watch keys m after → (∀ k, after k → after' k) → watch keys m after'.
Proof. intros [??] Hw. split; auto. Qed.
End Watch.

Section Direct.
Context `{!Sha256} `{!Sha256Laws _} `{!UnicodeCase} `{K : SshKeys} `{!KnownHostsPackage} `{!HostNameHash}.
Context (RedactString : string → string) (windows late : bool).
Context (ParseKnownHosts : string → option (string * list string * PublicKey)) (load : string → KeyLoading).
Context (knownHosts data : option string) (file : KnownHostsFile).
Context (w : DirectWorld) (timeout dialTimeout : Z) (src dst : Connection) (srcPath dstPath : string) (v : Vault).

Notation copied := (copyFileDirect RedactString windows late ParseKnownHosts load knownHosts data file w timeout dialTimeout src srcPath dst dstPath v).

(** A line of known_hosts whose key this machine trusts for the destination. *)
Definition trusted_for (path line : string) : Prop :=
  ∃ key, buildHostKeyCallbackForPath path file (hostPortOf dst) key = None ∧ line = knownhosts_Line (hostPortOf dst) key.

(** The one command that may run while the agent holds a key: it knows nothing of the
    destination's password. *)
Definition pinned (cmd : string) : Prop :=
  ∃ path lines mode digest seconds,
    knownHosts = Some path ∧ lines ≠ [] ∧ Forall (trusted_for path) lines
    ∧ cmd = directSSHCommand srcPath (without_password dst) lines (directConnectSeconds dialTimeout) seconds
              (uploadCommandWithIntegrity dstPath mode (-1) digest DefaultUploadDirMode).

Definition permitted (keys : list string) (e : copy_event) : Prop :=
  match e with
  | Dialed c => c = without_password dst ∨ c = src ∧ ct_dial_dst w = None
  | OnSource cmd => ct_dial_dst w = None ∧ (keys = [] ∨ pinned cmd)
  | OnDestination cmd => cmd = remote_digest_command dstPath ∧ keys = []
  | Forwarded keys => ∃ key, GetKey v (c_KeyName dst) = Some key ∧ keys = [k_PrivateKey key]
  | Cleared => True
  end.

Local Abbreviation watching := (watch permitted).

Lemma add_new_elem seen out l x : x ∈ add_new seen out l → x ∈ out ∨ x ∈ l.
Proof.
  revert seen out. induction l as [|y l IH]; intros seen out; cbn; [by left|]. case_bool_decide; intros [Hin|Hin]%IH; auto using list_elem_of_further.
  apply elem_of_app in Hin as [?|Hx%list_elem_of_singleton]; [by left|]. subst. right. apply list_elem_of_here.
Qed.

Lemma known_lines path lines :
  directKnownHostsLines RedactString windows ParseKnownHosts path data file dst = inr lines → lines ≠ [] ∧ Forall (trusted_for path) lines.
Proof.
  unfold directKnownHostsLines. destruct data as [text|]; [|done].
  destruct (dedup_strings _) as [|line lines'] eqn:Hd; [done|]. intros [= <-]. split; [done|]. rewrite <- Hd.
  apply Forall_forall. intros x Hx. apply add_new_elem in Hx as [Hx|Hx]; [by apply elem_of_nil in Hx|].
  apply list_elem_of_omap in Hx as (t & _ & Ht). unfold trusted_line in Ht. repeat case_match; try done.
  injection Ht as <-. by eexists.
Qed.

Lemma agent_key keys : directAgent RedactString load dst v = inr keys → ∃ key, GetKey v (c_KeyName dst) = Some key ∧ keys = [k_PrivateKey key].
Proof.
  unfold directAgent. case_bool_decide; [done|]. destruct (GetKey v (c_KeyName dst)) as [key|]; [|done]. cbv zeta.
  destruct (load _); try done. intros [= <-]. by exists key.
Qed.

Lemma watch_verified a digest r : watching [] (direct_verified RedactString late w a dstPath digest r) (λ _, True).
Proof.
  unfold direct_verified. cbv zeta. destruct (parseUploadReceipt _) as [[size receipt]|]; [|by apply watch_ret].
  case_bool_decide; [by apply watch_ret|]. eapply watch_bind; [by apply watch_session|].
  intros k _. destruct (remoteFileSHA256 _ _ _ _); [case_bool_decide|]; by apply watch_ret.
Qed.

Lemma watch_direct_session keys command digest r :
  ct_dial_dst w = None → permitted [] (Forwarded keys) → pinned command
  → watching [] (direct_session RedactString windows late w src dst keys command dstPath digest r) (λ _, True).
Proof.
  intros Hdst Hkeys Hcmd. unfold direct_session, session_failed. destruct (ct_session w); [by apply watch_ret|].
  destruct (ct_forward w); [by apply watch_ret|].
  apply watch_bind with (eq keys); [by apply watch_emit|]. intros k <-. destruct (ct_request w); [by apply watch_ret|]. cbv zeta.
  apply watch_bind with (eq keys); [by apply watch_emit; [split; [|right]|]|]. intros k <-.
  apply watch_bind with (eq []); [by apply watch_emit|]. intros k <-.
  destruct (ra_start _); [by apply watch_ret|]. destruct (ra_wait _); [by apply watch_ret|]. apply watch_verified.
Qed.

Lemma watch_on_source session cmd : ct_dial_dst w = None → watching [] (in_session session (OnSource cmd)) (eq []).
Proof. intros Hdst. apply watch_session; [|done]. intros _. split; [done|by left]. Qed.

Lemma watch_connected path keys lines r :
  ct_dial_dst w = None → permitted [] (Forwarded keys) → knownHosts = Some path → lines ≠ [] → Forall (trusted_for path) lines
  → watching [] (direct_connected RedactString windows late w timeout dialTimeout src dst keys lines srcPath dstPath r) (λ _, True).
Proof.
  intros Hdst Hkeys Hpath Hne Hlines. unfold direct_connected. cbv zeta.
  eapply watch_bind; [by apply watch_on_source|]. intros k <-.
  destruct (remoteIsDirOn _ _ _ _) as [[]|e]; [by apply watch_ret| |by destruct (copySourceError _ _); apply watch_ret].
  eapply watch_bind; [by apply watch_on_source|]. intros k <-. destruct (directRequireSSH _ _ _); [by apply watch_ret|].
  eapply watch_bind; [by apply watch_on_source|]. intros k <-.
  destruct (remoteFileSHA256 _ _ _ _) as [digest|e]; [|by apply watch_ret].
  eapply watch_bind; [by apply watch_on_source|]. intros k <-. apply watch_direct_session; [done|done|].
  eexists path, lines, _, digest, _. by split_and!.
Qed.

Lemma watch_copied : watching [] copied (eq []).
Proof.
  unfold copyFileDirect. cbv zeta. case_bool_decide; [by apply watch_ret|]. destruct (_ || _); [by apply watch_ret|].
  destruct (directAgent _ _ _ _) as [e|keys] eqn:Hkeys; [by apply watch_ret|]. apply agent_key in Hkeys.
  unfold cleared. apply watch_bind with (λ _, True); [|intros k _; apply watch_bind with (eq []); [by apply watch_emit|];
    intros k' <-; by apply watch_ret].
  destruct knownHosts as [path|] eqn:Hpath; [|by apply watch_ret].
  destruct (directKnownHostsLines _ _ _ _ _ _ _) as [e|lines] eqn:Hlines; [by apply watch_ret|]. apply known_lines in Hlines as [Hne Hlines].
  apply watch_bind with (eq []); [by apply watch_emit; [left|]|]. intros k <-. destruct (ct_dial_dst w) eqn:Hdst; [by apply watch_ret|].
  apply watch_bind with (eq []); [by apply watch_emit; [right|]|]. intros k <-. destruct (ct_dial_src w); [by apply watch_ret|].
  by eapply watch_connected.
Qed.

(** C6: A direct copy lends the source the destination's key and nothing else: only that key
    is ever put into the agent, only the pinned command runs while it is there, and it is
    gone at the end. The destination's password is used for no connection, and nothing
    runs on the source before the destination took the key. *)
Theorem direct_agent_is_scoped events out :
  copied = (events, out) →
  agent_after [] events = []
  ∧ ∀ before e after, events = before ++ e :: after → permitted (agent_after [] before) e.
Proof. intros E. pose proof watch_copied as [Hw Ha]. rewrite E in *. by split. Qed.

(** ** What a direct copy that succeeds reports *)

Lemma direct_failed_fails a r e r' : direct_failed RedactString late src dst a r e ≠ (r', None).
Proof. unfold direct_failed. cbv zeta. destruct (ra_timed_out a); [apply timeoutOr_fails|]. by repeat case_match. Qed.

Lemma direct_session_ok keys command digest r l r' :
  direct_session RedactString windows late w src dst keys command dstPath digest r = (l, (r', None)) →
  let a := ct_src w command in
  ra_start a = None ∧ ra_wait a = None ∧ cr_OK r' = true ∧ cr_SourceSHA256 r' = cr_SourceSHA256 r ∧ cr_DestinationSHA256 r' = digest
  ∧ parseUploadReceipt (ra_stdout a) = Some (cr_Bytes r', digest)
  ∧ remoteFileSHA256 RedactString (ct_check_session w) (ct_dst w) dstPath = inl digest.
Proof.
  unfold direct_session, session_failed. destruct (ct_session w); [done|]. destruct (ct_forward w); [done|].
  destruct (ct_request w); [done|]. cbv zeta. set (a := ct_src w command).
  destruct (ra_start a) as [e|].
  { intros Hr%(f_equal snd). cbn in Hr. destruct (isExecRefused e); [done|]. by apply timeoutOr_fails in Hr. }
  destruct (ra_wait a) as [e|].
  { intros Hr%(f_equal snd). cbn in Hr. by apply direct_failed_fails in Hr. }
  unfold direct_verified. cbv zeta. destruct (parseUploadReceipt _) as [[size receipt]|]; [|done].
  case_bool_decide as Hreceipt; [done|]. subst receipt.
  destruct (remoteFileSHA256 _ _ _ _) as [d|e]; [|by destruct (ct_check_session w); intros Hr%(f_equal snd); apply timeoutOr_fails in Hr].
  case_bool_decide as Hd; [by destruct (ct_check_session w)|]. subst d.
  destruct (ct_check_session w); cbn; intros [= _ <-]; by split_and!.
Qed.

Lemma direct_connected_ok keys lines r l r' :
  direct_connected RedactString windows late w timeout dialTimeout src dst keys lines srcPath dstPath r = (l, (r', None)) →
  ∃ digest seconds r0 l',
    remoteFileSHA256 RedactString (ct_digest_session w) (ct_src w) srcPath = inl digest ∧ cr_SourceSHA256 r0 = digest
    ∧ direct_session RedactString windows late w src dst keys
        (directSSHCommand srcPath dst lines (directConnectSeconds dialTimeout) seconds
           (uploadCommandWithIntegrity dstPath (remoteFileMode (ct_mode_session w) (ct_src w) srcPath) (-1) digest DefaultUploadDirMode))
        dstPath digest r0 = (l', (r', None)).
Proof.
  unfold direct_connected. cbv zeta. intros Hr%(f_equal snd). revert Hr.
  assert (Hseq : ∀ session e (m : Logged (CopyResult * option CopyError)), (in_session session e;; m).2 = m.2).
  { intros session e [l1 x]. by destruct session. }
  rewrite Hseq. destruct (remoteIsDirOn _ _ _ _) as [[]|e];
    [done| |destruct (copySourceError _ _); cbn; intros Hr; by apply timeoutOr_fails in Hr].
  rewrite Hseq. destruct (directRequireSSH _ _ _); [cbn; intros Hr; by apply timeoutOr_fails in Hr|].
  rewrite Hseq. destruct (remoteFileSHA256 _ (ct_digest_session w) _ _) as [digest|e];
    [|cbn; intros Hr; by apply timeoutOr_fails in Hr].
  rewrite Hseq. intros Hr. cbn [snd] in Hr.
  match type of Hr with snd ?m = _ => destruct m as [l' out] eqn:Hm end. cbn [snd] in Hr. subst out.
  eexists digest, _, _, l'. split_and!; [done| |exact Hm]. done.
Qed.

(** A direct copy reports success only when the destination's receipt for the pinned
    command and the destination's own digest of the file afterwards are the digest the
    source gave before; the destination is reached without a jump and by names that [ssh]
    on the source cannot take for options. *)
Theorem direct_success_is_verified events r :
  copied = (events, (r, None)) →
  let digest := cr_SourceSHA256 r in
  (cr_OK r = true ∧ cr_DestinationSHA256 r = digest)
  ∧ remoteFileSHA256 RedactString (ct_digest_session w) (ct_src w) srcPath = inl digest
  ∧ remoteFileSHA256 RedactString (ct_check_session w) (ct_dst w) dstPath = inl digest
  ∧ (TrimSpace (c_ProxyJump dst) = "" ∧ directSafeToken (c_User dst) = true ∧ directSafeToken (c_Host dst) = true)
  ∧ ∃ path lines mode seconds,
      let a := ct_src w (directSSHCommand srcPath dst lines (directConnectSeconds dialTimeout) seconds
        (uploadCommandWithIntegrity dstPath mode (-1) digest DefaultUploadDirMode)) in
      knownHosts = Some path ∧ Forall (trusted_for path) lines
      ∧ ra_start a = None ∧ ra_wait a = None ∧ parseUploadReceipt (ra_stdout a) = Some (cr_Bytes r, digest).
Proof.
  unfold copyFileDirect. cbv zeta. case_bool_decide as Hjump; [done|].
  destruct (directSafeToken (c_User dst)) eqn:Huser; [|done]. destruct (directSafeToken (c_Host dst)) eqn:Hhost; [|done]. cbn [negb orb].
  destruct (directAgent _ _ _ _) as [e|keys]; [done|]. intros Hr%(f_equal snd). revert Hr.
  assert (Hcleared : ∀ m : Logged (CopyResult * option CopyError), (cleared m).2 = m.2) by (by intros []).
  assert (Hemit : ∀ e (m : Logged (CopyResult * option CopyError)), (emit e;; m).2 = m.2) by (by intros ? []).
  rewrite Hcleared. destruct knownHosts as [path|] eqn:Hpath; [|done].
  destruct (directKnownHostsLines _ _ _ _ _ _ _) as [e|lines] eqn:Hlines; [done|]. apply known_lines in Hlines as [_ Hlines].
  rewrite Hemit. destruct (ct_dial_dst w); [done|]. rewrite Hemit. destruct (ct_dial_src w); [done|].
  intros Hr. match type of Hr with snd ?m = _ => destruct m as [l out] eqn:Hm end. cbn [snd] in Hr. subst out.
  apply direct_connected_ok in Hm as (digest & seconds & r0 & l' & Hprobe & Hsrc & Hm).
  apply direct_session_ok in Hm as (Hstart & Hwait & HOK & Hs & Hd & Hparse & Hcheck).
  rewrite Hs, Hsrc. split_and!; try done. by eexists path, lines, _, seconds.
Qed.
End Direct.

(** ** The arguments *)

Section Arguments.
Context `{!UnicodeCase} (RedactString : string → string) (ParseDuration : string → option Z).

Notation cp_args := (cp_args ParseDuration).

Lemma cp_timeout_value_ok value o o' :
  cp_timeout_value ParseDuration value o = Ok o' → ∃ d, (0 < d)%Z ∧ o' = cp_with_timeout d o.
Proof.
  unfold cp_timeout_value. destruct (ParseDuration value) as [d|]; [|done]. destruct (Z.ltb_spec 0 d); [|done].
  intros [= <-]. by exists d.
Qed.

(** What was read is among the arguments. *)
Definition read_from (args : list string) (o : cpOptions) (positionals : list string) (o' : cpOptions) (ps : list string) : Prop :=
  (∀ p, p ∈ ps → p ∈ positionals ∨ p ∈ args)
  ∧ (cp_direct o' = true → cp_direct o = true ∨ "--direct" ∈ args)
  ∧ (cp_yes o' = true → cp_yes o = true ∨ "--yes" ∈ args)
  ∧ (0 ≤ cp_timeout o → 0 ≤ cp_timeout o')%Z.

Lemma read_from_more args args' o o0 positionals o' ps :
  (∀ p, p ∈ args → p ∈ args') → (cp_direct o = true → cp_direct o0 = true ∨ "--direct" ∈ args')
  → (cp_yes o = true → cp_yes o0 = true ∨ "--yes" ∈ args') → (0 ≤ cp_timeout o0 → 0 ≤ cp_timeout o)%Z
  → read_from args o positionals o' ps → read_from args' o0 positionals o' ps.
Proof.
  intros Ha Hd Hy Ht (Rp & Rd & Ry & Rt). split_and!.
  - intros p [?|?]%Rp; auto.
  - intros [?|?]%Rd; auto.
  - intros [?|?]%Ry; auto.
  - auto.
Qed.

Lemma cp_args_read args json o positionals j o' ps :
  cp_args args json o positionals = (j, Ok (o', ps)) → read_from args o positionals o' ps.
Proof.
  assert (Hlen : length args ≤ length args) by done. revert Hlen. generalize (length args) at 2 as n. intros n.
  revert args json o positionals. induction n as [|n IH]; intros [|arg rest] json o positionals Hlen; cbn [length] in Hlen; try lia.
  1,2: intros [= _ <- <-]; split_and!; auto.
  assert (Hin : ∀ p, p ∈ rest → p ∈ arg :: rest) by (intros; by apply list_elem_of_further).
  assert (Hnext : ∀ args json o0 positionals, (∀ p, p ∈ args → p ∈ rest) → length args ≤ n
    → (cp_direct o0 = true → cp_direct o = true) → (cp_yes o0 = true → cp_yes o = true) → (0 ≤ cp_timeout o → 0 ≤ cp_timeout o0)%Z
    → cp_args args json o0 positionals = (j, Ok (o', ps)) → read_from (arg :: rest) o positionals o' ps).
  { intros args json0 o0 positionals0 Hsub Hn Hd Hy Ht Hrun. apply IH in Hrun; [|done].
    refine (read_from_more _ _ _ _ _ _ _ _ _ _ _ Hrun); [by intros; apply Hin, Hsub|by left; apply Hd|by left; apply Hy|done]. }
  assert (Htimed : ∀ value args, (∀ p, p ∈ args → p ∈ rest) → length args ≤ n
    → match cp_timeout_value ParseDuration value o with Ok o => cp_args args json o positionals | Fail e => (json, Fail e) end
      = (j, Ok (o', ps)) → read_from (arg :: rest) o positionals o' ps).
  { intros value args Hsub Hn. destruct (cp_timeout_value _ _ _) as [o1|] eqn:Hv; [|done].
    apply cp_timeout_value_ok in Hv as (d & Hd & ->). apply Hnext; try done. cbn. lia. }
  cbn [Copy.cp_args]. case_bool_decide; [apply Hnext; [done|lia|done..]|].
  case_bool_decide as Hdirect.
  { intros Hrun. apply IH in Hrun; [|lia]. refine (read_from_more _ _ _ _ _ _ _ Hin _ _ _ Hrun); [right|by left|done]. subst. apply list_elem_of_here. }
  case_bool_decide as Hyes.
  { intros Hrun. apply IH in Hrun; [|lia]. refine (read_from_more _ _ _ _ _ _ _ Hin _ _ _ Hrun); [by left|right|done]. subst. apply list_elem_of_here. }
  cbv zeta. set (other := if HasPrefix arg "--timeout=" then _ else _).
  assert (Hother : other = (j, Ok (o', ps)) → read_from (arg :: rest) o positionals o' ps).
  { unfold other. destruct (HasPrefix arg "--timeout="); [apply Htimed; [done|lia]|]. destruct (HasPrefix arg "-"); [done|].
    intros Hrun. apply IH in Hrun as (Rp & Rd & Ry & Rt); [|lia]. split_and!; [|intros [?|?]%Rd; auto|intros [?|?]%Ry; auto|done].
    intros p [[?|Hp%list_elem_of_singleton]%elem_of_app|?]%Rp; [by left|subst; right; by apply list_elem_of_here|right; by apply Hin]. }
  clearbody other. case_bool_decide; [|exact Hother]. destruct rest as [|value rest']; [exact Hother|].
  cbn [length] in Hlen. apply Htimed; [intros; by apply list_elem_of_further|lia].
Qed.

Lemma IndexByte_before s c i : IndexByte s c = Some i → contains_char c (take_string i s) = false ∧ s = take_string i s +:+ String c (drop_string (i + 1) s).
Proof.
  revert i. induction s as [|d s IH]; intros i; cbn; [done|]. destruct (Ascii.eqb d c) eqn:E.
  - apply Ascii.eqb_eq in E as ->. intros [= <-]. by destruct s.
  - destruct (IndexByte s c) as [k|]; [|done]. intros [= <-]. destruct (IH k eq_refl) as [Hk Hs]. cbn. rewrite Hk, orb_false_r.
    split; [by rewrite Ascii.eqb_sym|]. by rewrite Hs at 1.
Qed.

Lemma splitCopyEndpoint_ok operand alias path :
  splitCopyEndpoint operand = Ok (alias, path) →
  operand = alias +:+ ":" +:+ path ∧ alias ≠ "" ∧ path ≠ "" ∧ contains_char ":" alias = false ∧ ContainsAny alias "/\" = false.
Proof.
  unfold splitCopyEndpoint. destruct (IndexByte operand ":") as [i|] eqn:Hi; [|done]. cbv zeta. apply IndexByte_before in Hi as [Hcolon Hs].
  case_bool_decide as Hne; [done|]. destruct (ContainsAny _ _) eqn:Hany; [done|]. intros [= <- <-]. split_and!; try done; tauto.
Qed.

(** What the arguments of [cp] lead to: two endpoints that are operands of the command
    line, each an alias without a colon or slash before its first colon and a path after
    it; a timeout that is positive or absent; and a direct copy only when [--direct] was
    asked for and [--yes] confirmed it, [--yes] alone being refused. *)
Theorem parsed_copy_is_confirmed json args j o :
  runCpArgs RedactString ParseDuration json args = (j, inr o) →
  (cp_direct o = true → "--direct" ∈ args ∧ "--yes" ∈ args) ∧ cp_yes o = cp_direct o ∧ (0 ≤ cp_timeout o)%Z
  ∧ Forall (λ endpoint : string * string,
      endpoint.1 +:+ ":" +:+ endpoint.2 ∈ args ∧ endpoint.1 ≠ "" ∧ endpoint.2 ≠ ""
      ∧ contains_char ":" endpoint.1 = false ∧ ContainsAny endpoint.1 "/\" = false)
      [(cp_srcAlias o, cp_srcPath o); (cp_dstAlias o, cp_dstPath o)].
Proof.
  unfold runCpArgs, parseCpArgs. destruct (cp_args _ _ _ _) as [json' [[o1 ps]|e]] eqn:Hrun; [|done].
  apply cp_args_read in Hrun as (Hps & Hd & Hy & Ht). destruct ps as [|s [|d [|? ?]]]; try done.
  destruct (cp_yes o1 && negb (cp_direct o1)) eqn:Hone; [done|].
  destruct (splitCopyEndpoint s) as [[a p]|] eqn:Hs; [|done]. destruct (splitCopyEndpoint d) as [[a' p']|] eqn:Hd'; [|done].
  destruct (_ && _) eqn:Hconfirmed in |- *; [done|]. intros [= _ <-]. cbn in *.
  apply splitCopyEndpoint_ok in Hs as (-> & ?), Hd' as (-> & ?).
  assert (Hin : ∀ x, x ∈ [a +:+ ":" +:+ p; a' +:+ ":" +:+ p'] → x ∈ args) by (intros x [Hx|?]%Hps; [by apply elem_of_nil in Hx|done]).
  split_and!; [|by destruct (cp_direct o1), (cp_yes o1)|by apply Ht|].
  - intros Hdir. rewrite Hdir in Hconfirmed. destruct (cp_yes o1); [|done].
    destruct (Hd Hdir) as [?|?]; [done|]. by destruct (Hy eq_refl).
  - repeat apply Forall_cons_2; [split; [|done]; apply Hin..|apply Forall_nil_2]; [apply list_elem_of_here|].
    by apply list_elem_of_further, list_elem_of_here.
Qed.
End Arguments.
