(* ===== verification/TransferExamples.v ===== *)
(** * Transfers on concrete hosts

    Scripts run on small file systems, the answers a client gets from them, and what the
    commands do with unusual names. *)

From stdpp Require Import pretty.
From Stdlib Require Import Ascii Strings.Byte.
From S2P Require Import Prelude GoStrings GoErrors GoRegexp NamedList VaultBlob Config Redaction RedactionFacts FailurePolicy MachineContract SyncProtocol RemoteCommand PosixShell KnownHosts SshDial RemoteShell Upload UploadFacts TransferFacts Download Resume ResumeFacts DirectoryTransfer DirectoryTransferFacts Copy CopyFacts.

#[local] Existing Instance ascii_case.
#[local] Instance plain_sha256 : Sha256 := λ data, take 32 (data ++ replicate 32 x00).
#[local] Instance plain_sha256_laws : Sha256Laws plain_sha256.
Proof. intros data. change (length (take 32 (data ++ replicate 32 x00)) = 32). rewrite length_take, length_app, length_replicate. lia. Qed.

Definition no_expansion (fs : RemoteFS) (vs : gmap string string) : RemoteFS * gmap string string * bool := (fs, vs, false).
Definition no_fault : fault := mkFault false false None 0 no_expansion.
Definition undisturbed : nat → fault := λ _, no_fault.
Definition nothing_stale : string → bool := λ _, false.
(** One fault, before the [n]-th command. *)
Definition only_at (n : nat) (f : fault) : nat → fault := λ i, if i =? n then f else no_fault.

Definition content : bytes := bytes_of_string "key=1".
Definition old_files : RemoteFS := {["/srv/app.conf" := RFile (bytes_of_string "old") 420]}.
Abbreviation put faults sent :=
  (run_script "4711" true nothing_stale faults (upload_script "/srv/app.conf" 420 5 (digest_of content) 493) old_files sent).

(** ** Uploads *)

Example upload_publishes :
  exit_status (put undisturbed content) = Some 0%Z
  ∧ sh_fs (put undisturbed content) !! "/srv/app.conf" = Some (RFile content 420)
  ∧ sh_fs (put undisturbed content) !! "/srv/app.conf.ssm-upload.4711" = None.
Proof. vm_compute. by split_and!. Qed.

(** The connection is cut after three bytes, the shell is killed before the move, a
    signal arrives after the digest was taken, and [chmod] fails. *)
Example disturbed_uploads_keep_the_old_file :
  let kept s := sh_fs s !! "/srv/app.conf" = Some (RFile (bytes_of_string "old") 420) in
  (kept (put undisturbed (take 3 content)) ∧ exit_status (put undisturbed (take 3 content)) = Some 65%Z)
  ∧ (let s := put (only_at 14 (mkFault true false None 0 no_expansion)) content in kept s ∧ exit_status s = None)
  ∧ (let s := put (only_at 14 (mkFault false true None 0 no_expansion)) content in kept s ∧ exit_status s = Some 1%Z)
  ∧ (let s := put (only_at 8 (mkFault false false (Some 1%Z) 0 no_expansion)) content in kept s ∧ exit_status s = Some 1%Z).
Proof. vm_compute. by split_and!. Qed.

Lemma upload_is_atomic_witness :
  let s := put (only_at 14 (mkFault false true None 0 no_expansion)) content in
  sh_fs s !! "/srv/app.conf" = Some (RFile (bytes_of_string "old") 420) ∨ sh_fs s !! "/srv/app.conf" = Some (RFile content 420).
Proof.
  intros s.
  assert (Hpath : guard_dash "/srv/app.conf" ≠ "") by done.
  assert (Hname : plain_in_dquotes (guard_dash "/srv/app.conf") = true) by (vm_compute; reflexivity).
  assert (Hrun : put (only_at 14 (mkFault false true None 0 no_expansion)) content = s) by reflexivity.
  clearbody s.
  pose proof (upload_is_atomic _ _ _ _ _ _ _ _ _ _ _ _ Hpath Hname Hrun) as Hatomic. cbv zeta in Hatomic.
  assert (guard_dash "/srv/app.conf" = "/srv/app.conf") as Hguard by (vm_compute; reflexivity). rewrite Hguard in Hatomic.
  destruct Hatomic as ([Hold|[Hnew _]] & _).
  - left. rewrite Hold. apply lookup_singleton_eq.
  - right. exact Hnew.
Defined.

Definition answer_of (s : Shell) (sent : bytes) : Answer :=
  mkAnswer None sent None None
    (match exit_status s with
     | Some 0%Z => None
     | _ => Some (plain_error "Process exited") end) false (sh_stdout s) "".
Definition verify : UploadOptions := mkUploadOptions true 0 "" 0.
Definition upload_host (s : Shell) : UploadWorld :=
  mkUploadWorld None (inr (Some (420, 5)%Z)) (inr content) None None None None (λ _, answer_of s content).
Definition target : Connection := mkConnection "web" "10.0.0.1" 22 "root" "pw" "" "" "" "".
Abbreviation uploaded s := (upload_whole_file (λ x : string, x) false target "/srv/app.conf" verify (upload_host s)).

Lemma upload_success_is_published_witness : ∃ r, uploaded (put undisturbed content) = (r, None) ∧ tr_OK r = true.
Proof.
  destruct (uploaded (put undisturbed content)) as [r e] eqn:Hrun. exists r.
  assert (e = None) as -> by (apply (f_equal (λ p, bool_decide (is_Some p.2))) in Hrun; revert Hrun; vm_compute; by destruct e).
  assert (Hpath : guard_dash "/srv/app.conf" ≠ "") by done.
  assert (Hsizes : ∀ mode size, uw_stat (upload_host (put undisturbed content)) = inr (Some (mode, size)) → (0 ≤ size)%Z).
  { intros mode size [= _ <-]. discriminate. }
  pose proof (upload_success_is_published _ _ _ _ _ _ _ Hrun Hpath Hsizes) as (? & ? & ? & HOK & _).
  split; [reflexivity|exact HOK].
Defined.

(** ** Names in double quotes *)

(** The quoting at the end of a text, and the characters that are not in single quotes. *)
Fixpoint scan_quotes (m : quoting) (s : string) : quoting * string :=
  match s with
  | EmptyString => (m, "")
  | String c s' =>
      let keep r := (r.1, String c r.2) in
      match m with
      | Single => scan_quotes (if Ascii.eqb c squote_char then Unquoted else Single) s'
      | Double =>
          if Ascii.eqb c dquote_char then scan_quotes Unquoted s'
          else keep (scan_quotes Double s')
      | Unquoted =>
          if Ascii.eqb c squote_char then scan_quotes Single s'
          else if Ascii.eqb c dquote_char then scan_quotes Double s'
          else keep (scan_quotes Unquoted s')
      end
  end.

Definition command_for (path : string) : string := uploadCommandWithIntegrity path 420 5 "" 493.

(** The message about a directory has the quoted name in double quotes: a name with a
    single quote leaves the command without its closing quote, and in the name [$(id)]
    is left for the shell to run. *)
Example name_in_double_quotes :
  (scan_quotes Unquoted (command_for "/srv/app.conf")).1 = Unquoted
  ∧ (scan_quotes Unquoted (command_for "/srv/it's")).1 ≠ Unquoted
  ∧ Contains (scan_quotes Unquoted (command_for "/srv/$(id)")).2 "$(id)" = true
  ∧ Contains (scan_quotes Unquoted (downloadCommand "/srv/$(id)")).2 "$(id)" = false.
Proof. vm_compute. by split_and!. Qed.

(** When that destination is a directory the substitution runs: here it removes a file
    that has nothing to do with the upload. *)
Definition removes_key : fault :=
  mkFault false false None 0 (λ fs vs, (delete "/root/key" fs, vs, false)).
Example directory_message_runs_the_name :
  let path := "/srv/$(rm /root/key)" in
  let fs : RemoteFS := {[path := RDir; "/root/key" := RFile content 384]} in
  let put path faults := run_script "4711" true nothing_stale faults (upload_script path 420 5 "" 493) fs content in
  plain_in_dquotes path = false
  ∧ sh_fs (put path (λ _, removes_key)) !! "/root/key" = None
  ∧ exit_status (put path (λ _, removes_key)) = Some 73%Z
  ∧ sh_fs (put "/srv/app" (λ _, removes_key)) !! "/root/key" = Some (RFile content 384).
Proof. vm_compute. by split_and!. Qed.

(** ** Resumed uploads *)

Definition half : string := "/srv/.part".
Definition half_meta : string := "/srv/.part.meta".
Definition resumable (dest : option node) : RemoteFS :=
  partial_alter (λ _, dest) "/srv/app.conf"
    {[half := RFile (take 2 content) 384; half_meta := RFile (bytes_of_string (meta_line 5 (digest_of content))) 384]}.
Abbreviation resume dest :=
  (run_script "4712" true nothing_stale undisturbed
    (append_script "/srv/app.conf" half half_meta 420 5 (digest_of content) 2 (digest_of (take 2 content)))
    (resumable dest) (drop 2 content)).

Example resume_publishes :
  exit_status (resume None) = Some 0%Z ∧ sh_fs (resume None) !! "/srv/app.conf" = Some (RFile content 420)
  ∧ sh_fs (resume None) !! half = None ∧ sh_fs (resume None) !! half_meta = None.
Proof. vm_compute. by split_and!. Qed.

(** There is no check that the destination is a directory: the file ends up in it, and
    the command reports success with a receipt. *)
Example resume_into_a_directory_reports_success :
  exit_status (resume (Some RDir)) = Some 0%Z ∧ sh_stdout (resume (Some RDir)) = upload_receipt 5 (digest_of content)
  ∧ sh_fs (resume (Some RDir)) !! "/srv/app.conf" = Some RDir
  ∧ sh_fs (resume (Some RDir)) !! "/srv/app.conf/.part" = Some (RFile content 420).
Proof. vm_compute. by split_and!. Qed.

(** The temporary name of the description is quoted whole, so it is the same in every
    shell. *)
Example metadata_temp_is_shared :
  Contains (probeCommand half half_meta ".ssm*" 5 "d") (ShellQuote (half_meta +:+ ".new.$$")) = true.
Proof. by vm_compute. Qed.

Lemma resume_is_atomic_witness :
  let s := resume (Some (RFile (bytes_of_string "old") 420)) in
  sh_fs s !! "/srv/app.conf" = resumable (Some (RFile (bytes_of_string "old") 420)) !! "/srv/app.conf"
  ∨ ∃ c, sh_fs s !! "/srv/app.conf" = Some (RFile c 420).
Proof.
  intros s.
  assert (Hpartial : half ≠ "/srv/app.conf") by done. assert (Hmeta : half_meta ≠ "/srv/app.conf") by done.
  assert (Hdir : resumable (Some (RFile (bytes_of_string "old") 420)) !! "/srv/app.conf" ≠ Some RDir).
  { unfold resumable. rewrite lookup_partial_alter_eq. discriminate. }
  assert (Hdigest : digest_of content ≠ "") by (vm_compute; discriminate).
  assert (Hprefix : digest_of (take 2 content) ≠ "") by (vm_compute; discriminate).
  assert (Hrun : resume (Some (RFile (bytes_of_string "old") 420)) = s) by reflexivity.
  clearbody s.
  pose proof (resume_is_atomic _ _ _ _ _ _ _ _ _ _ _ _ _ _ _ Hpartial Hmeta Hdir Hdigest Hprefix Hrun) as Hatomic. cbv zeta in Hatomic.
  destruct Hatomic as ([Hold|(c & Hnew & _)] & _).
  - left. exact Hold.
  - right. exists c. exact Hnew.
Defined.

Definition resume_option : UploadOptions := mkUploadOptions true 0 "v1" 0.
Definition resume_host : ResumeWorld :=
  mkResumeWorld None (inr (Some (420, 5)%Z)) (inr content) None None
    (λ _, mkAnswer None [] None None None false ("SSM_RESUME 2 " +:+ digest_of (take 2 content) +:+ LF) "")
    (λ n, inr (take (Z.to_nat n) content)) (λ _, None) None None (λ _, answer_of (resume None) (drop 2 content)).
Abbreviation resumed_upload := (uploadFileResumable (λ x : string, x) false target "/srv/app.conf" resume_option resume_host).

Lemma resume_success_is_published_witness : ∃ r, resumed_upload = (r, None) ∧ tr_OK r = true.
Proof.
  destruct resumed_upload as [r e] eqn:Hrun. exists r.
  assert (e = None) as -> by (apply (f_equal (λ p, bool_decide (is_Some p.2))) in Hrun; revert Hrun; vm_compute; by destruct e).
  pose proof (resume_success_is_published _ _ _ _ _ _ _ Hrun) as Hr.
  destruct Hr as (? & ? & ? & ? & ? & ? & ? & ? & _ & HOK & _).
  split; [reflexivity|exact HOK].
Defined.

(** ** Downloads *)

Definition local_files : LocalFS := {["/home/u/app.conf" := LFile (bytes_of_string "old") 384]}.
Definition sends (data : bytes) : Answer := mkAnswer None data None None None false "" "".
(** The digest of the remote file is that of [content]; [received] is what arrives. *)
Definition download_world (received : bytes) (rename : option sshError) : DownloadWorld :=
  mkDownloadWorld None (inr "/home/u/.ssm-get-1") None None
    (λ _, mkAnswer None [] None None None false (digest_of content +:+ LF) "")
    None None (λ _, sends received) None None None None rename None (λ _, None).
Abbreviation got received rename :=
  (downloadFileWithOptions (λ x : string, x) false (download_world received rename) (mkDownloadOptions true 0) target
    "/srv/app.conf" "/home/u/app.conf" local_files).

(** The destination, the temporary file, the stage and whether it counts as done. *)
Definition download_summary (x : LocalFS * TransferResult * option (TransferError + sshError)) :=
  let '(fs, r, err) := x in
  (fs !! "/home/u/app.conf", fs !! "/home/u/.ssm-get-1", tr_Stage r, bool_decide (is_Some err)).

Example downloads :
  download_summary (got content None) = (Some (LFile content 384), None, "complete", false)
  ∧ download_summary (got (take 3 content) None) = (Some (LFile (bytes_of_string "old") 384), None, "integrity", true)
  ∧ download_summary (got content (Some (plain_error "rename"))) = (Some (LFile (bytes_of_string "old") 384), None, "publish", true).
Proof. vm_compute. by split_and!. Qed.

Lemma download_is_all_or_nothing_witness :
  ∃ fs r err, got content None = (fs, r, err) ∧ (fs !! "/home/u/app.conf" = Some (LFile content 384)
    ∨ fs !! "/home/u/app.conf" = local_files !! "/home/u/app.conf").
Proof.
  destruct (got content None) as [[fs r] err] eqn:Hrun. exists fs, r, err. split; [reflexivity|].
  assert (Hfresh : fresh_name (download_world content None) "/home/u/app.conf" local_files).
  { intros name Hname. injection Hname as <-. split; [by apply lookup_singleton_ne|done]. }
  pose proof (download_is_all_or_nothing _ _ _ _ _ _ _ _ _ _ _ Hfresh Hrun) as ([(Hf & _)|[Hf _]] & _); [left|right]; exact Hf.
Defined.

Definition local_tree : tree := {["a.txt" := (bytes_of_string "a", 420%Z)]}.
Definition local_dir : LocalFS := {["/home/u/site" := LTree local_tree]}.
Definition add_file (t : tree) : tree := <["b.txt" := (bytes_of_string "b", 420%Z)]> t.
Definition directory_world (rename_in rename_back : option sshError) : DirectoryWorld :=
  mkDirectoryWorld None (inr "/home/u/.ssm-get-dir-1") StatDirectory None None None None
    None None None (λ _, None) None true None None add_file None false
    None None (inr "/home/u/.ssm-get-backup-1") None None rename_in rename_back (λ _, None).
Abbreviation got_directory rename_in rename_back :=
  (downloadDirTar (λ x : string, x) false (directory_world rename_in rename_back) target "/srv/site" "/home/u/site" "1m0s" local_dir).

(** The names at the end, whether it was published, and whether the error names the
    backup. *)
Definition directory_summary (x : list LocalFS * bool * option (TransferError + sshError)) :=
  let '(states, published, err) := x in
  let fs := List.last states ∅ in
  (tree_at "/home/u/site" fs !! "b.txt", bool_decide (is_Some (fs !! "/home/u/site")), bool_decide (is_Some (fs !! "/home/u/.ssm-get-backup-1")),
   published, match err with Some (inl t) => Contains (x_Message (te_Cause t)) "/home/u/.ssm-get-backup-1" | _ => false end).

(** A publication, one that is undone, and one that cannot be undone. *)
Example directory_downloads :
  directory_summary (got_directory None None) = (Some (bytes_of_string "b", 420%Z), true, false, true, false)
  ∧ directory_summary (got_directory (Some (plain_error "busy")) None) = (None, true, false, false, false)
  ∧ directory_summary (got_directory (Some (plain_error "busy")) (Some (plain_error "busy"))) = (None, false, true, false, true).
Proof. vm_compute. by split_and!. Qed.

Lemma directory_download_keeps_the_tree_witness :
  ∃ states published err, got_directory (Some (plain_error "busy")) (Some (plain_error "busy")) = (states, published, err)
    ∧ ∀ s, s ∈ states → tree_is_kept "/home/u/site" "/home/u/.ssm-get-backup-1" (local_dir !! "/home/u/site")
        (add_file (tree_at "/home/u/site" local_dir)) s.
Proof.
  destruct (got_directory (Some (plain_error "busy")) (Some (plain_error "busy"))) as [[states published] err] eqn:Hrun.
  exists states, published, err. split; [reflexivity|].
  assert (Hc : consistent (directory_world (Some (plain_error "busy")) (Some (plain_error "busy"))) "/home/u/site" "/home/u/.ssm-get-backup-1" local_dir).
  { split.
    - intros name Hname. injection Hname as <-. split; [by apply lookup_singleton_ne|discriminate].
    - intros _. exists local_tree. apply lookup_singleton_eq.
    - split_and!; [|discriminate|discriminate]. intros b Hb. injection Hb as <-. reflexivity. }
  pose proof (directory_download_keeps_the_tree _ _ _ _ _ _ _ _ _ _ _ _ Hc Hrun) as (Hall & _).
  intros s Hs. exact (proj1 (Hall s Hs)).
Defined.

(** ** A tree sent file by file *)

Definition site_walk : list walked :=
  [mkWalked [] DirectoryEntry; mkWalked ["css"] DirectoryEntry; mkWalked ["css"; "main.css"] RegularEntry; mkWalked ["index.html"] RegularEntry].
Abbreviation sent_site :=
  (uploadDirFallback site_walk None (λ (_ : list string) (_ : string), None) "/var/www/").

Lemma fallback_sends_everything_witness : ∃ sent, sent_site = (sent, None)
  ∧ sent = [(["css"; "main.css"], "/var/www/css/main.css"); (["index.html"], "/var/www/index.html")].
Proof.
  destruct sent_site as [sent err] eqn:Hrun. exists sent.
  assert (err = None) as -> by (apply (f_equal (λ p, bool_decide (is_Some p.2))) in Hrun; revert Hrun; vm_compute; by destruct err).
  pose proof (fallback_sends_everything _ _ _ _ _ Hrun) as (_ & Hsent & _). split; [reflexivity|].
  rewrite Hsent. vm_compute. reflexivity.
Defined.

Example empty_directories_and_links_are_refused :
  validateUploadDirWalk [mkWalked [] DirectoryEntry; mkWalked ["empty"] DirectoryEntry] ≠ None
  ∧ validateUploadDirWalk [mkWalked [] DirectoryEntry; mkWalked ["link"] OtherEntry] ≠ None
  ∧ validateUploadDirWalk [mkWalked [] DirectoryEntry] = None.
Proof. vm_compute. by split_and!. Qed.

(** ** Copies between hosts *)

Definition said (stdout : string) : Answer := mkAnswer None [] None None None false stdout "".
(** A host that has [content] in [/etc/app.conf], with permissions 644. *)
Definition source_answers (cmd : string) : Answer :=
  if bool_decide (cmd = path_probe_command "/etc/app.conf") then said ("FILE" +:+ LF)
  else if bool_decide (cmd = remote_digest_command "/etc/app.conf") then said (digest_of content)
  else if bool_decide (cmd = mode_command "/etc/app.conf") then said ("644" +:+ LF)
  else if bool_decide (cmd = ssh_probe_command) then said ("SSM_SSH_OK" +:+ LF)
  else said "".
Abbreviation relayed sent :=
  (run_script "4711" true nothing_stale undisturbed (upload_script "/srv/app.conf" 420 (-1) (digest_of content) 493) old_files sent).
Definition copy_world (sent : bytes) : CopyWorld :=
  mkCopyWorld None None None None None None None None None None source_answers (λ _, answer_of (relayed sent) sent) (sent, None) None.
Definition origin : Connection := mkConnection "db" "10.0.0.2" 22 "root" "pw" "" "" "" "".
Abbreviation copied sent :=
  (CopyFile (λ x : string, x) false false (copy_world sent) origin "/etc/app.conf" target "/srv/app.conf").

Lemma copy_success_is_published_witness :
  ∃ r, copied content = (r, None) ∧ cr_OK r = true ∧ sh_fs (relayed content) !! "/srv/app.conf" ≠ Some RDir.
Proof.
  destruct (copied content) as [r e] eqn:Hrun. exists r.
  assert (e = None) as -> by (apply (f_equal (λ p, bool_decide (is_Some p.2))) in Hrun; revert Hrun; vm_compute; by destruct e).
  assert (Hpath : guard_dash "/srv/app.conf" ≠ "") by done.
  pose proof (copy_success_is_published _ _ _ _ _ _ _ _ _ Hrun Hpath) as ((HOK & _) & _ & Hshell). cbv zeta in Hshell.
  split; [reflexivity|]. split; [exact HOK|].
  destruct (Hshell old_files (relayed content)) as [_ (payload & Hfile & _)].
  { exists "4711", true, nothing_stale, undisturbed, content. split; [reflexivity|]. vm_compute. by split. }
  intros Hdir. change (guard_dash "/srv/app.conf") with "/srv/app.conf" in Hfile. congruence.
Defined.

(** The source changed while it was copied: nothing is published. *)
Example changed_source_is_not_published :
  let sent := bytes_of_string "key=2" in
  is_Some (copied sent).2 ∧ cr_OK (copied sent).1 = false
  ∧ sh_fs (relayed sent) !! "/srv/app.conf" = Some (RFile (bytes_of_string "old") 420).
Proof. vm_compute. split_and!; [by eexists|done..]. Qed.

#[local] Instance plain_keys : SshKeys := {|
  PublicKey := string; key_Type _ := "ssh-ed25519"; certified_Key _ := None; FingerprintSHA256 k := k;
|}.
#[local] Instance plain_known_hosts : KnownHostsPackage := {|
  knownhosts_New content := Ok (λ address key, if Contains content (address +:+ " ssh-ed25519 " +:+ key) then Trusted else KeyError []);
  knownhosts_Line token key := token +:+ " ssh-ed25519 " +:+ key;
  Normalize := λ s, s;
|}.
#[local] Instance plain_hash : HostNameHash := {| base64_decode _ := None; hmac_sha1 _ data := data |}.

Definition parse_line (line : string) : option (string * list string * @PublicKey plain_keys) :=
  match Fields line with [host; _; key] => Some ("", [host], key) | _ => None end.
Definition keyed : Connection := mkConnection "web" "10.0.0.1" 22 "root" "pw" "deploy" "" "" "".
Definition one_key : Vault := mkVault [origin; keyed] [mkSSHKey "deploy" "PRIVATE"; mkSSHKey "other" "SECRET"] None [].
Definition known_text : string := "# hosts" +:+ LF +:+ "10.0.0.1:22 ssh-ed25519 WEB" +:+ LF +:+ "10.0.0.9:22 ssh-ed25519 DB" +:+ LF.

Definition pushed : string :=
  directSSHCommand "/etc/app.conf" keyed ["10.0.0.1:22 ssh-ed25519 WEB"] 15 60
    (uploadCommandWithIntegrity "/srv/app.conf" 420 (-1) (digest_of content) 493).
Definition direct_world (request : option sshError) : DirectWorld :=
  mkDirectWorld None None None None None None None None request None
    (λ cmd, if bool_decide (cmd = pushed) then said (receipt_of (digest_of content) "5") else source_answers cmd)
    (λ _, said (digest_of content)).
Abbreviation pushing request :=
  (copyFileDirect (λ x : string, x) false false parse_line (λ _, KeyLoaded) (Some "/home/u/.ssh/known_hosts") (Some known_text) (File known_text)
     (direct_world request) (60 * Second) (15 * Second) origin "/etc/app.conf" keyed "/srv/app.conf" one_key).

Example direct_copy_events :
  (pushing None).1
  = [Dialed (without_password keyed); Dialed origin; OnSource (path_probe_command "/etc/app.conf"); OnSource ssh_probe_command;
     OnSource (remote_digest_command "/etc/app.conf"); OnSource (mode_command "/etc/app.conf"); Forwarded ["PRIVATE"]; OnSource pushed;
     Cleared; OnDestination (remote_digest_command "/srv/app.conf"); Cleared]
  ∧ (pushing None).2.2 = None ∧ cr_OK (pushing None).2.1 = true.
Proof. vm_compute. by split_and!. Qed.

(** The server of the source refuses the agent: it is withdrawn all the same. *)
Lemma direct_agent_is_scoped_witness :
  let events := (pushing (Some (plain_error "refused"))).1 in Forwarded ["PRIVATE"] ∈ events ∧ agent_after [] events = [].
Proof.
  destruct (pushing (Some (plain_error "refused"))) as [events out] eqn:Hrun. cbn [fst].
  pose proof (direct_agent_is_scoped _ _ _ _ _ _ _ _ _ _ _ _ _ _ _ _ _ _ Hrun) as [Hgone _].
  split; [|exact Hgone]. apply (f_equal fst) in Hrun. cbn [fst] in Hrun. rewrite <- Hrun.
  apply (bool_decide_eq_true_1 _). vm_compute. reflexivity.
Defined.

(** The command line the repository's own test expects, with [@@] for a double quote. *)
Example direct_command_is_exact :
  directSSHCommand "/srv/a b/it's.bin" (mkConnection "b" "b.example" 2222 "deploy" "" "" "" "" "")
    ["[b.example]:2222 ssh-ed25519 AAAA"] 15 0 "echo 'hi'"
  = ReplaceAll
      ("umask 077; kh=$(mktemp @@${TMPDIR:-/tmp}/ssm-kh.XXXXXXXX@@) || exit 70; "
       +:+ "trap 'rm -f -- @@$kh@@' EXIT HUP INT TERM; "
       +:+ "printf '%s\n' '[b.example]:2222 ssh-ed25519 AAAA' > @@$kh@@ || exit 70; "
       +:+ "[ -n @@$SSH_AUTH_SOCK@@ ] || { echo 'no forwarded agent' >&2; exit 71; }; "
       +:+ "ssh -F /dev/null -T -o BatchMode=yes -o StrictHostKeyChecking=yes -o @@UserKnownHostsFile=$kh@@ -o GlobalKnownHostsFile=/dev/null "
       +:+ "-o VerifyHostKeyDNS=no -o UpdateHostKeys=no -o CheckHostIP=no -o ClearAllForwardings=yes -o ForwardAgent=no "
       +:+ "-o ProxyCommand=none -o PermitLocalCommand=no -o ControlMaster=no -o ControlPath=none "
       +:+ "-o PubkeyAuthentication=yes -o PasswordAuthentication=no -o KbdInteractiveAuthentication=no -o HostbasedAuthentication=no "
       +:+ "-o IdentityFile=/dev/null -o ConnectTimeout=15 "
       +:+ "-p 2222 -- 'deploy@b.example' 'echo '@@'@@'hi'@@'@@'' < '/srv/a b/it'@@'@@'s.bin'") "@@" dquote.
Proof. vm_compute. reflexivity. Qed.

Example direct_tokens :
  Forall (λ value, directSafeToken value = false) [""; "-oProxyCommand=x"; "a b"; "h;id"; "$(id)"; "h'x"]
  ∧ Forall (λ value, directSafeToken value = true) ["deploy"; "b.example"; "10.0.0.1"; "fe80::1"; "web-1"].
Proof. split; repeat (apply Forall_cons_2; [vm_compute; reflexivity|]); apply Forall_nil_2. Qed.

(** [--direct] without [--yes], [--yes] alone, and a confirmed direct copy. *)
Definition one_minute (s : string) : option Z := if bool_decide (s = "1m") then Some (60 * Second)%Z else None.
Abbreviation cp args := (runCpArgs (λ x : string, x) one_minute false args).
Definition refused_as (code : string) (r : bool * (Failure + cpOptions)) : bool :=
  match r.2 with inl f => bool_decide (f_Error f = code) | inr _ => false end.

Example cp_arguments :
  refused_as "confirmation_required" (cp ["--direct"; "db:/etc/app.conf"; "web:/srv/app.conf"]) = true
  ∧ refused_as CodeInvalidArgs (cp ["--yes"; "db:/etc/app.conf"; "web:/srv/app.conf"]) = true
  ∧ cp ["--direct"; "--timeout"; "1m"; "db:/etc/a:b"; "--json"; "--yes"; "web:/srv/app.conf"]
    = (true, inr (mkCpOptions "db" "/etc/a:b" "web" "/srv/app.conf" (60 * Second) true true)).
Proof. vm_compute. by split_and!. Qed.
