(* ===== verification/RemoteExamples.v ===== *)
(** * Remote runs on concrete networks

    A small key package and known_hosts reader, networks that answer as real ones do,
    and runs through them: the witnesses of the theorems on dialing and running. *)

From Stdlib Require Import Ascii Strings.Byte.
From stdpp Require Import pretty.
From S2P Require Import Prelude GoStrings GoErrors NamedList VaultBlob Config JumpChain Redaction RedactionFacts FailurePolicy MachineContract SyncProtocol RemoteCommand PosixShell ShellQuoting KnownHosts KnownHostsFacts SshDial SshDialFacts RemoteRun RemoteRunFacts Suggest CommandLine FanOut.

#[local] Existing Instance ascii_case.
#[local] Instance plain_sha256 : Sha256 := λ data, take 32 (data ++ replicate 32 x00).
Abbreviation shown := (λ s : string, s).

(** Keys are their type and a text; known_hosts has one host, type and key a line. *)
#[local] Instance plain_keys : SshKeys := {|
  PublicKey := string * string;
  key_Type := fst;
  certified_Key _ := None;
  FingerprintSHA256 k := "SHA256:" +:+ k.2;
|}.

Definition entries_of (content address : string) : list KnownKey :=
  omap (λ nl, match Fields nl.2 with
    | [host; type; key] => if bool_decide (host = address) then Some (mkKnownKey (type, key) "known_hosts" (Z.of_nat nl.1)) else None
    | _ => None
    end) (imap (λ i l, (S i, l)) (Split (char 10) content)).

#[local] Instance plain_known_hosts : KnownHostsPackage := {|
  knownhosts_New content := Ok (λ address key,
    let known := entries_of content address in
    if existsb (λ k, bool_decide (kk_Key k = key)) known then Trusted else KeyError known);
  knownhosts_Line token key := token +:+ " " +:+ key.1 +:+ " " +:+ key.2;
  Normalize := λ s, s;
|}.

(** ** Hosts *)

Definition host (name address jump : string) : Connection := mkConnection name address 22 "root" "pw" "" "" "" jump.
Definition vault : Vault := mkVault [host "bastion" "10.0.0.1" ""; host "db" "10.0.0.2" "bastion"] [] None [].
Definition known : KnownHostsFile :=
  File ("10.0.0.1:22 ssh-ed25519 AAAA" +:+ String (char 10) "10.0.0.2:22 ssh-ed25519 BBBB" +:+ String (char 10) "").
Definition no_key_error : string → option sshError := λ _, None.

(** A handshake of a server with this key: the client refuses it or sends its first
    credential. *)
Definition greet (key : PublicKey) (cfg : ClientConfig) : list hs_event * option sshError :=
  match cc_HostKey cfg key with
  | Some _ => ([HostKeyArrived key], Some (plain_error "ssh: handshake failed: host key"))
  | None => (HostKeyArrived key :: (AuthSent <$> take 1 (cc_Auth cfg)), None)
  end.

Lemma greet_laws key cfg l1 m l2 : (greet key cfg).1 = l1 ++ AuthSent m :: l2 →
  m ∈ cc_Auth cfg ∧ ∃ k, HostKeyArrived k ∈ l1 ∧ cc_HostKey cfg k = None.
Proof.
  unfold greet. destruct (cc_HostKey cfg key) eqn:Hk; cbn [fst]; intros Hl.
  - by destruct l1 as [|e [|? ?]].
  - destruct (cc_Auth cfg) as [|a auth], l1 as [|e l1]; [done|by destruct l1|done|].
    injection Hl as <- Hl. split; [|exists key; split; [left|done]].
    destruct l1 as [|e l1]; [injection Hl as -> _; left|by destruct l1].
Qed.

(** The key of the server a handshake with this configuration meets. *)
Definition server_key (cfg : ClientConfig) : PublicKey :=
  if bool_decide (is_Some (cc_HostKey cfg ("ssh-ed25519", "AAAA"))) then ("ssh-ed25519", "BBBB") else ("ssh-ed25519", "AAAA").

(** The first connection times out, the next ones succeed. *)
Definition flaky : Network := mkNetwork
  (λ n, if n <=? 1 then Some (timeout_error "dial tcp 10.0.0.1:22: i/o timeout") else None)
  (λ _, None) (λ _, None) (λ _, None) (λ _, false) (λ _, false)
  (λ _ cfg, greet (server_key cfg) cfg) (λ _, None) (λ _, true) (λ _, known).

#[local] Instance flaky_laws : NetworkLaws flaky.
Proof.
  split.
  - intros n cfg l1 m l2. apply greet_laws.
  - intros n cfg e. cbn. unfold greet. by destruct (cc_HostKey _ _); [intros [= <-]|].
  - done.
Qed.

#[local] Instance flaky_sound : SoundErrors flaky no_key_error.
Proof.
  split; try done.
  - intros n e. cbn. case_match; intros [= <-]. apply timeout_sound.
  - intros n cfg e. cbn. unfold greet. destruct (cc_HostKey _ _); intros [= <-]. apply plain_sound.
Qed.

Definition dialed (net : Network) (c : Connection) : (sshError + string) * Dialing :=
  dialSSHFresh shown false net no_key_error (Some "known_hosts") None ∅ c vault (mkDialing 2 []).

(** The jump host is trusted before it gets its password, and so is the target. *)
Example chain_log : dl_log (dialed flaky (host "db" "10.0.0.2" "bastion")).2 =
  [Connecting "10.0.0.1:22" None; Handshaking "10.0.0.1:22" (HostKeyArrived ("ssh-ed25519", "AAAA"));
   Handshaking "10.0.0.1:22" (AuthSent (Password "pw")); ClientOpened "10.0.0.1:22";
   Connecting "10.0.0.2:22" (Some "10.0.0.1:22"); Handshaking "10.0.0.2:22" (HostKeyArrived ("ssh-ed25519", "BBBB"));
   Handshaking "10.0.0.2:22" (AuthSent (Password "pw")); ClientOpened "10.0.0.2:22"].
Proof. by vm_compute. Qed.

Lemma credentials_follow_trust_witness :
  let d := dialed flaky (host "db" "10.0.0.2" "bastion") in
  d.1 = inr "10.0.0.2:22" ∧
  ∃ l, dl_log d.2 = [] ++ l ∧
    safe flaky no_key_error vault [host "bastion" "10.0.0.1" ""; host "db" "10.0.0.2" "bastion"] l.
Proof.
  split; [by vm_compute|].
  exact (credentials_follow_trust shown false flaky no_key_error (Some "known_hosts") None ∅
    (host "db" "10.0.0.2" "bastion") vault (mkDialing 2 [])).
Defined.

(** ** Runs *)

Definition quiet_output : humanOutput := mkHumanOutput None (λ _, None) (λ _, "") (inr false).
Definition world (ended : option sshError) : RunWorld :=
  mkRunWorld false false "" None None false None ended "out" "" quiet_output None false 12 (λ _, 7%Z) (λ _, "1s") ["s3cret"].
Definition options (retries : Z) : RunOptions :=
  mkRunOptions "uptime" "" "" {["TOKEN" := "s3cret"]} true false false 0 "" "" "" StdinInternal "" retries 0 "db" "db".
Definition ran (net : Network) (retries : Z) (w : RunWorld) (c : Connection) : RunResult * Running :=
  Run shown false net no_key_error (Some "known_hosts") None true 4 ∅ c vault (options retries) w (mkRunning 0 None []).

(** Two connections time out, each after its wait the next is tried, then the command
    runs once. *)
Example retried_run :
  let '(r, s) := ran flaky 3 (world None) (host "db" "10.0.0.2" "") in
  rr_OK r = true ∧ rr_Exit r = 0%Z ∧ rr_Stdout r = "out" ∧ rr_DialAttempts r = 2%Z ∧
  executions (rn_log s) = ["TOKEN='s3cret' uptime"] ∧
  rh_RemoteCommand (rr_Head r) = "TOKEN='***' uptime" ∧ length (attempts (rn_log s)) = 2.
Proof. vm_compute. by split_and!. Qed.

Lemma command_runs_at_most_once_witness :
  ∃ r s, ran flaky 3 (world None) (host "db" "10.0.0.2" "") = (r, s) ∧
  ∃ l, rn_log s = [] ++ l ∧ run_story shown false (host "db" "10.0.0.2" "") (options 3) (world None) r l ∧
    length (attempts l) ≤ attempts_of (options 3) ∧
    (executions l = [] ∧ (rr_OK r = true → ro_PlanOnly (options 3) = true ∧ rr_Plan r = true ∧ l = []) ∨
     executions l = [full_command (options 3)] ∧ (rr_OK r = true ↔ delivered (options 3) (world None))).
Proof.
  destruct (ran flaky 3 (world None) (host "db" "10.0.0.2" "")) as [r s] eqn:Hran. exists r, s. split; [done|].
  exact (command_runs_at_most_once shown false flaky no_key_error (Some "known_hosts") None true 4 ∅ _ _ _ _ _ _ _ Hran).
Defined.

(** A remote command that exits with 3. *)
Definition exit_3 : sshError :=
  mkSSHError "Process exited with status 3" None None false None None None None false false false false None (Some 3%Z).

Lemma run_status_is_honest_witness :
  let r := (ran flaky 3 (world (Some exit_3)) (host "db" "10.0.0.2" "")).1 in
  rr_Exit r = 3%Z ∧ (rr_OK r = true ↔ rr_Exit r = 0%Z).
Proof.
  split; [by vm_compute|].
  apply (run_status_is_honest shown false flaky no_key_error (Some "known_hosts") None true 4 ∅
    (host "db" "10.0.0.2" "") vault (options 3) (world (Some exit_3)) (mkRunning 0 None [])).
  intros e [= <-] f Hf. done.
Defined.

(** ** Several hosts *)

(** A script on two hosts, one session at a time. *)
Definition greeting : ScriptSpec := mkScriptSpec "a.sh" ("echo hi" +:+ LF) "sh" ["x"] false "".
Definition script_run : remoteRunSpec :=
  mkRunSpec "" false true false false ∅ 1 [greeting] false "script" true StdinDefault "" 2 250 0 0.
Abbreviation on_hosts := (map_jobs ["bastion"; "db"] script_run).
Abbreviation scheduled := (map_step shown false flaky no_key_error (Some "known_hosts") None true 4 ∅ vault false 1 on_hosts).

Lemma map_runs_every_job_witness :
  nsteps scheduled 3 (map_start on_hosts) [Holding; Waiting] ∧
  held [Holding; Waiting] = 1 ∧ clamp_workers (map_workers script_run) = 1%Z ∧ ∃ l', scheduled [Holding; Waiting] l'.
Proof.
  assert (nsteps scheduled 3 (map_start on_hosts) [Holding; Waiting]) as Hsteps.
  { eapply nsteps_l; [apply (step_spawn _ _ _ _ _ _ _ _ _ _ _ _ _ _ 0); [done|intros j Hj; lia]|].
    eapply nsteps_l; [apply (step_spawn _ _ _ _ _ _ _ _ _ _ _ _ _ _ 1); [done|intros [|j] Hj; [done|lia]]|].
    eapply nsteps_l; [apply (step_acquire _ _ _ _ _ _ _ _ _ _ _ _ _ _ 0); [done|apply Nat.ltb_lt; reflexivity]|]. constructor. }
  split_and!; [exact Hsteps|by vm_compute|by vm_compute|].
  destruct (map_runs_every_job shown false flaky no_key_error (Some "known_hosts") None true 4 ∅ vault false 1 on_hosts 3 _ Hsteps)
    as (_ & _ & _ & [Hstep|(results & Hresults & _)]); [exact Hstep|]. by destruct results as [|? [|? ?]].
Defined.

Lemma one_script_runs_like_a_map_witness :
  ∃ job, map_jobs ["db"] script_run = [job] ∧ mj_Command job = BuildScriptRunner greeting ∧
  executeRunSpec shown false flaky no_key_error (Some "known_hosts") None true 4 ∅ vault "db" script_run (world None) (world None)
    (mkRunning 2 None []) =
  runMapJob shown false flaky no_key_error (Some "known_hosts") None true 4 ∅ vault job false (world None) (world None) (mkRunning 2 None []).
Proof.
  assert (ResolveAlias ∅ vault "db" = (Some (host "db" "10.0.0.2" "bastion"), "db")) as Halias by (vm_compute; reflexivity).
  destruct (one_script_runs_like_a_map shown false flaky no_key_error (Some "known_hosts") None true 4 ∅ vault "db"
    (host "db" "10.0.0.2" "bastion") "db" script_run greeting (world None) (world None) (mkRunning 2 None []) Halias eq_refl ltac:(discriminate) eq_refl eq_refl)
    as (job & Hjob & Hsame). exists job. split; [exact Hjob|]. split; [|exact Hsame].
  change (map_jobs ["db"] script_run) with [with_retry 2 250 (with_timeout 0 (script_job "db" greeting ∅ true))] in Hjob.
  by injection Hjob as <-.
Defined.

Definition script : ScriptSpec := mkScriptSpec "deploy.sh" ("echo hi" +:+ String (char 10) "") "bash" [] false "".

Lemma preflight_only_checks_syntax_witness :
  ∃ r s, RunScriptPreflight shown false flaky no_key_error (Some "known_hosts") None true 4 ∅
    (host "db" "10.0.0.2" "") vault script false "db" "db" (world None) (mkRunning 2 None []) = (r, s) ∧
  ∃ l, rn_log s = [] ++ l ∧ rr_Preflight r = (if rr_OK r then "passed" else "failed") ∧
    (executions l = [] ∧ rr_OK r = false ∨
     ∃ command, BuildScriptSyntaxRunner script = Ok command ∧ executions l = [command] ∧
       (rr_OK r = true ↔ delivered (preflight_options script command false "db" "db") (world None))).
Proof.
  destruct (RunScriptPreflight _ _ _ _ _ _ _ _ _ _ _ _ _ _ _ _ _) as [r s] eqn:Hran. exists r, s. split; [done|].
  exact (preflight_only_checks_syntax shown false flaky no_key_error (Some "known_hosts") None true 4 ∅
    _ _ _ _ _ _ _ _ _ _ Hran).
Defined.

Lemma retry_waits_are_bounded_witness :
  let delay := grown_delay 1000000000 4 in
  delay = 8000000000%Z ∧ (1000000000 <= delay <= RetryDelay 1000000000 4 5)%Z ∧
  (RetryDelay 1000000000 4 5 <= delay + delay ÷ 4)%Z.
Proof.
  pose proof (retry_waits_are_bounded 1000000000 4 5 ltac:(reflexivity) ltac:(by split)) as (Hd & Hf & Hc).
  split; [exact Hd|]. split; [exact Hf|exact Hc].
Defined.

(** A base close to the largest duration overflows with the jitter: no wait at all. *)
Example retry_wait_can_overflow : (RetryDelay (2 ^ 63 - 1) 1 1 < 0)%Z.
Proof. by vm_compute. Qed.

(** ** Boundary behaviour *)

(** A jump host that forbids forwarding refuses the channel of the tunnel as a full host
    refuses a session. *)
Definition forwarding_denied : sshError :=
  mkSSHError "ssh: rejected: administratively prohibited (open failed)" None None false None None None None
    false false false false (Some Prohibited) None.
Definition no_forwarding : Network := mkNetwork
  (λ _, None) (λ _, None) (λ _, None) (λ _, Some forwarding_denied) (λ _, false) (λ _, false)
  (λ _ cfg, greet (server_key cfg) cfg) (λ _, None) (λ _, true) (λ _, known).

(** The acquisition waits for a session slot and dials the chain again, authenticating to
    the jump host each time, and reports the stage [session] in the end. *)
Example denied_forwarding_is_polled :
  let '(r, s) := ran no_forwarding 0 (world None) (host "db" "10.0.0.2" "bastion") in
  rm_Error (rr_Metadata r) = CodeDialNetwork ∧ rm_Stage (rr_Metadata r) = "session" ∧
  match rn_log s with
  | [Attempted _ did] => opens did = ["10.0.0.1:22"; "10.0.0.1:22"; "10.0.0.1:22"; "10.0.0.1:22"; "10.0.0.1:22"]
  | _ => False
  end.
Proof. vm_compute. by split_and!. Qed.

(** A connection that the peer closed right after the handshake. *)
Definition closed_early : sshError :=
  mkSSHError "set tcp: use of closed network connection" None None false None None None (Some "set") true
    false false false None None.
Definition drops_early : Network := mkNetwork
  (λ _, None) (λ _, None) (λ _, Some closed_early) (λ _, None) (λ _, false) (λ _, false)
  (λ _ cfg, greet (server_key cfg) cfg) (λ _, None) (λ _, false) (λ _, known).

(** It is reported as lost with an unknown outcome although no command was executed. *)
Example lost_before_the_command :
  let '(r, s) := ran drops_early 0 (world None) (host "db" "10.0.0.2" "") in
  rm_Error (rr_Metadata r) = CodeConnectionLost ∧ rm_Outcome (rr_Metadata r) = OutcomeUnknown ∧
  executions (rn_log s) = [].
Proof. vm_compute. by split_and!. Qed.

(** ** Command lines *)

Lemma joined_command_is_what_was_given_witness :
  let parts := ["A=b c"; "echo"; "x;y"; "$HOME"] in
  JoinRemoteCommand parts false = "A='b c' 'echo' 'x;y' '$HOME'" ∧
  ∃ assigns args, parts = (assignment_text <$> assigns) ++ args ∧ args ≠ [] ∧
    (∀ p q rest, args = p :: q :: rest → isEnvAssign p = false) ∧
    simple_command (JoinRemoteCommand parts false) = Some (assigns, args).
Proof.
  split; [by vm_compute|].
  apply (joined_command_is_what_was_given ["A=b c"; "echo"; "x;y"; "$HOME"]); [cbn; lia|by vm_compute].
Defined.

Lemma secrets_become_assignments_witness :
  let secrets : gmap string string := {["TOKEN" := "a b"]} in
  simple_command (BuildRemoteCommand "X=1 deploy 'now'" secrets) =
    Some (secret_assigns secrets (secret_keys secrets) ++ [("X", "1")], ["deploy"; "now"]).
Proof.
  apply (secrets_become_assignments "X=1 deploy 'now'" {["TOKEN" := "a b"]} [("X", "1")] ["deploy"; "now"]); [|by vm_compute].
  apply map_Forall_singleton. by vm_compute.
Defined.

Definition prepared : ScriptSpec :=
  mkScriptSpec "deploy.sh" ("echo hi" +:+ String (char 10) "") "bash" ["a b"] false "".

Lemma prepared_scripts_are_data_witness :
  PrepareScriptWithInterpreter "deploy.sh" ("echo hi" +:+ String (char 13) (String (char 10) "")) "bash" "" ["a b"] = Ok prepared ∧
  contains_char NUL (ss_Body prepared) = false ∧
  tokens Unquoted None (BuildScriptRemoteCommand (BuildScriptRunner prepared) ∅) =
    Some (export_tokens (secret_assigns ∅ (secret_keys ∅))
          ++ runner_tokens (ss_Interpreter prepared) (runner_words prepared)).
Proof.
  assert (PrepareScriptWithInterpreter "deploy.sh" ("echo hi" +:+ String (char 13) (String (char 10) "")) "bash" "" ["a b"] =
    Ok prepared) as Hp by by vm_compute.
  split; [exact Hp|].
  destruct (prepared_scripts_are_data _ _ _ _ _ _ ∅ Hp (map_Forall_empty _)) as (Hn & _ & _ & _ & _ & Ht).
  split; [exact Hn|exact Ht].
Defined.

Lemma shown_command_hides_secrets_witness :
  RedactSecrets "TOKEN='s3cret' curl s3cret" ["s3cret"] = "TOKEN='***' curl ***" ∧
  ¬ occurs "s3cret" (RedactSecrets "TOKEN='s3cret' curl s3cret" ["s3cret"]).
Proof.
  split; [by vm_compute|].
  apply (shown_command_hides_secrets "TOKEN='s3cret' curl s3cret" ["s3cret"] "s3cret"); [left|cbn; lia|by vm_compute].
Defined.

(** ** known_hosts *)

#[local] Instance plain_hash : HostNameHash := {| base64_decode _ := None; hmac_sha1 _ data := data |}.

Definition new_key : @PublicKey plain_keys := ("ssh-ed25519", "NEW").

Definition two_hosts : string :=
  "db,web ssh-ed25519 OLD" +:+ String (char 10) ("db ssh-rsa KEPT" +:+ String (char 10) "").

Example replaced_entry : replaced_content two_hosts "db" new_key =
  "web ssh-ed25519 OLD" +:+ String (char 10) ("db ssh-rsa KEPT" +:+ String (char 10) ("db ssh-ed25519 NEW" +:+ String (char 10) "")).
Proof. by vm_compute. Qed.

(** A comment with an accent, an entry of another host with a trailing comma and the two
    entries. *)
Definition noted_hosts : string :=
  "# cl" +:+ string_of_codes [195; 169]%N +:+ String (char 10) ("nas, ssh-ed25519 OTHER" +:+ String (char 10) two_hosts).

Lemma replacement_keeps_other_entries_witness :
  ∃ before,
    split_lines (replaced_content noted_hosts "db" new_key) = before ++ [knownhosts_Line "db" new_key +:+ LF1] ∧
    (complete_line <$> filter (λ l, names "db" (key_Type new_key) l = false) (split_lines noted_hosts)) `sublist_of` before ∧
    Forall (λ l, names "db" (key_Type new_key) l = false) before.
Proof.
  assert (Hhosts : Forall (λ l, names "db" (key_Type new_key) l = true → plain_hosts "db" l) (split_lines noted_hosts)).
  { repeat constructor; vm_compute; discriminate || (split; [reflexivity|discriminate]). }
  destruct (replacement_keeps_other_entries noted_hosts "db" new_key Hhosts ltac:(vm_compute; reflexivity))
    as (before & Hlines & Hkept & Hgone & _).
  exists before. exact (conj Hlines (conj Hkept Hgone)).
Defined.

(** An entry whose host list ends in a comma loses its hosts and keeps its key: the line
    that is left has no host field. *)
Example trailing_comma_leaves_no_host :
  dropKnownHostEntry ("db, ssh-ed25519 OLD" +:+ String (char 10) "") "db" "ssh-ed25519" =
    " ssh-ed25519 OLD" +:+ String (char 10) "".
Proof. by vm_compute. Qed.
