(* ===== verification/Release.v ===== *)
(** * Choosing and checking a release ([update/update.go], [releaseasset])

    Which release an update takes, which assets a release must have, the checksum of
    an asset, and what has to hold before the executable is replaced. Responses,
    files and the provenance verifier are arguments. *)

From Stdlib Require Import Ascii.
From stdpp Require Import pretty.
From S2P Require Import Prelude GoStrings GoErrors Config SyncProtocol.

(** ** Versions *)

Record semanticVersion := mkVersion { sv_major : Z; sv_minor : Z; sv_patch : Z }.

(** A component: digits without a leading zero, within [int]. *)
Definition version_part (part : string) : option Z :=
  match part with
  | EmptyString => None
  | String "0" (String _ _) => None
  | _ =>
      match Atoi part with
      | Some n => if bool_decide (n < 0)%Z then None else Some n
      | None => None
      end
  end.

Definition parseSemanticVersion (value : string) : option semanticVersion :=
  let value := TrimPrefix (TrimSpace value) "v" in
  if bool_decide (value = "") || ContainsAny value "-+" then None
  else
    match Split "." value with
    | [a; b; c] =>
        major ← version_part a; minor ← version_part b; patch ← version_part c;
        Some (mkVersion major minor patch)
    | _ => None
    end.

(** Differences of [int]. *)
Definition compareVersion (left right : semanticVersion) : Z :=
  if negb (bool_decide (sv_major left = sv_major right)) then wrap_int (sv_major left - sv_major right)
  else if negb (bool_decide (sv_minor left = sv_minor right)) then wrap_int (sv_minor left - sv_minor right)
  else wrap_int (sv_patch left - sv_patch right).

(** ** Releases *)

Record Release := mkRelease {
  r_TagName : string;
  r_Name : string;
  r_Body : string;
  r_Draft : bool;
  r_Prerelease : bool;
  r_Assets : list string;
}.

Definition releaseNewer (left right : string) : bool :=
  match parseSemanticVersion left, parseSemanticVersion right with
  | Some l, Some r => bool_decide (0 < compareVersion l r)%Z
  | _, _ => false
  end.

(** One round of the loop over the releases. *)
Definition select_step (current : semanticVersion) (selected : option Release * option Release)
    (candidate : Release) : option Release * option Release :=
  let '(sameMajor, crossMajor) := selected in
  match parseSemanticVersion (r_TagName candidate) with
  | None => selected
  | Some version =>
      if r_Draft candidate || r_Prerelease candidate || bool_decide (compareVersion version current ≤ 0)%Z
      then selected
      else if bool_decide (sv_major version = sv_major current) then
        match sameMajor with
        | Some chosen =>
            if releaseNewer (r_TagName candidate) (r_TagName chosen) then (Some candidate, crossMajor) else selected
        | None => (Some candidate, crossMajor)
        end
      else if bool_decide (sv_major current < sv_major version)%Z then
        match crossMajor with
        | None => (sameMajor, Some candidate)
        | Some chosen =>
            let chosen_version := default (mkVersion 0 0 0) (parseSemanticVersion (r_TagName chosen)) in
            if bool_decide (0 < compareVersion version chosen_version)%Z then (sameMajor, Some candidate) else selected
        end
      else selected
  end.

Definition SelectRelease (releases : list Release) (current : string) : option Release * option Release :=
  match parseSemanticVersion current with
  | None => (None, None)
  | Some current => fold_left (select_step current) releases (None, None)
  end.

(** ** Assets *)

Record Target := mkTarget { t_GOOS : string; t_GOARCH : string }.

Definition supportedTargets : list Target :=
  [mkTarget "linux" "amd64"; mkTarget "linux" "arm64"; mkTarget "darwin" "amd64"; mkTarget "darwin" "arm64";
   mkTarget "windows" "amd64"; mkTarget "windows" "arm64"].

Definition Name (goos goarch : string) : string :=
  let name := "ssm-" +:+ goos +:+ "-" +:+ goarch in
  if bool_decide (goos = "windows") then name +:+ ".exe" else name.
Definition ProvenanceName (asset : string) : string := asset +:+ ".sigstore.json".

Definition target_name (t : Target) : string := Name (t_GOOS t) (t_GOARCH t).
Definition ExpectedReleaseNames : list string :=
  (target_name <$> supportedTargets) ++ (ProvenanceName ∘ target_name <$> supportedTargets) ++
  ["install.sh"; "checksums.txt"].

Fixpoint check_names (expected seen names : list string) : result (list string) :=
  match names with
  | [] => Ok seen
  | name :: names' =>
      if negb (bool_decide (name ∈ expected)) then Fail (Errorf "release asset is unsupported or misnamed")
      else if bool_decide (name ∈ seen) then Fail (Errorf "release asset is duplicated")
      else check_names expected (name :: seen) names'
  end.

Definition ValidateReleaseNames (names : list string) : result () :=
  let expected := ExpectedReleaseNames in
  if negb (length names =? length expected) then Fail (Errorf "release declares a wrong number of assets")
  else
    seen ← check_names expected [] names;
    check (forallb (λ name, bool_decide (name ∈ seen)) expected) (Errorf "release asset is missing").

Definition validateReleaseAssets (release : Release) : result () :=
  match ValidateReleaseNames (r_Assets release) with
  | Ok _ => Ok ()
  | Fail e => Fail (Wrap "asset selection failed" [e])
  end.

(** ** Checksums *)

(** [strings.Fields]. *)
Fixpoint fields_from (fuel : nat) (field s : string) : list string :=
  let ended := if bool_decide (field = "") then [] else [field] in
  match fuel, s with
  | S n, String c s' =>
      match strip_any unicode_spaces s with
      | Some rest => ended ++ fields_from n "" rest
      | None => fields_from n (field +:+ String c "") s'
      end
  | _, _ => ended
  end.
Definition Fields (s : string) : list string := fields_from (String.length s) "" s.

Section Checksums.
Context `{!UnicodeCase}.

(** The checksum a line gives for the asset. *)
Definition line_sum (asset line : string) : option string :=
  match Fields line with
  | sum :: name :: _ => if bool_decide (TrimPrefix name "*" = asset) then Some (ToLower sum) else None
  | _ => None
  end.

Definition checksum_ok (sum : string) : bool := (String.length sum =? 64) && string_forall is_hex_digit sum.

Fixpoint checksum_lines (asset : string) (lines : list string) (found : string) : result string :=
  match lines with
  | [] => if bool_decide (found = "") then Fail (Errorf "checksum not found") else Ok found
  | line :: lines' =>
      match line_sum asset line with
      | None => checksum_lines asset lines' found
      | Some sum =>
          if negb (checksum_ok sum) then Fail (Errorf "invalid checksum")
          else if negb (bool_decide (found = "")) then Fail (Errorf "multiple checksums found")
          else checksum_lines asset lines' sum
      end
  end.

Definition checksumForAsset (data : bytes) (asset : string) : result string :=
  checksum_lines asset (Split (char 10) (string_of_bytes data)) "".
End Checksums.

(** ** Which repository, and when *)

Section Update.
Context `{!UnicodeCase} `{!Sha256}.

Definition defaultRepo : string := "Cd1s/ssm".
Definition maxChecksums : Z := Z.shiftl 16 10.
Definition MaxBundleBytes : Z := Z.shiftl 1 20.
Definition maxBinary : Z := Z.shiftl 64 20.
Definition cooldown : Z := 6 * 3600.

Definition updateDisabled (repo : string) : bool :=
  bool_decide (ToLower (TrimSpace repo) ∈ ["off"; "none"; "disabled"]).

(** The environment variable, the file [update_repo] and the setting, in this order. *)
Fixpoint first_repo (candidates : list string) : string :=
  match candidates with
  | [] => defaultRepo
  | c :: candidates' =>
      let repo := TrimSpace c in
      if bool_decide (repo = "") then first_repo candidates'
      else if updateDisabled repo then "" else repo
  end.
Definition releaseRepo (env : string) (file : option string) (setting : string) : string :=
  first_repo [env; default "" file; setting].

(** The white space [fmt.Sscanf] skips before an operand; a newline ends the input. *)
Fixpoint skip_space (fuel : nat) (s : string) : option string :=
  match fuel, s with
  | S n, String c s' =>
      if Ascii.eqb c (char 13) && HasPrefix s' (String (char 10) "") then skip_space n s'
      else if Ascii.eqb c (char 10) then None
      else match strip_any unicode_spaces s with Some rest => skip_space n rest | None => Some s end
  | _, _ => Some s
  end.
Fixpoint digits_prefix (s : string) : string :=
  match s with
  | String c s' => if is_digit c then String c (digits_prefix s') else ""
  | EmptyString => ""
  end.
(** [fmt.Sscanf(s, "%d", &ts)] on a zero [ts], the error ignored. *)
Definition Sscanf_d (s : string) : Z :=
  match skip_space (String.length s) s with
  | None => 0
  | Some s =>
      let number :=
        match s with
        | String c s' => if Ascii.eqb c "-" || Ascii.eqb c "+" then String c (digits_prefix s') else digits_prefix s
        | EmptyString => ""
        end in
      default 0%Z (Atoi number)
  end.

(** [strings.SplitN(s, "\n", 2)], the second part. *)
Fixpoint second_line (s : string) : option string :=
  match s with
  | EmptyString => None
  | String c s' => if Ascii.eqb c (char 10) then Some s' else second_line s'
  end.

Definition second : Z := 1000000000.

(** The flag file names the latest version and the second of the check; [now] is in
    nanoseconds. *)
Definition shouldCheck (flag : option string) (now : Z) : bool :=
  match flag with
  | None => true
  | Some data =>
      match second_line data with
      | None => true
      | Some ts => bool_decide (cooldown * second < now - Sscanf_d ts * second)%Z
      end
  end.

Definition markChecked (latest : string) (now : Z) : string :=
  (if bool_decide (latest = "") then "-" else latest) +:+ String (char 10) (pretty (now / second)%Z).

(** ** The installed executable *)

(** [filepath.Base] on Unix. *)
Definition Base (path : string) : string :=
  if bool_decide (path = "") then "."
  else
    let name := after_last "/" (TrimRight path "/") in
    if bool_decide (name = "") then "/" else name.
Definition IsAbs (path : string) : bool := HasPrefix path "/".

Definition installedNames : list string := ["ssm"; "sshctl"; "ssm.exe"; "sshctl.exe"].
Definition installed_name (path : string) : bool := bool_decide (Base path ∈ installedNames).

(** What the operating system answers about the running program. *)
Record ProgramOS := mkProgramOS {
  os_Executable : result string;
  os_EvalSymlinks : string → result string;
  os_Arg0 : string;
  os_LookPath : string → result string;
  os_Abs : string → result string;
  (** [os.Stat]: whether the file is regular *)
  os_Regular : string → result bool;
}.

Definition refuseForeignExecutable : goerror := Errorf "refusing to update: not an ssm binary".

Definition or_refuse {A} (r : result A) : result A :=
  match r with Ok a => Ok a | Fail _ => Fail refuseForeignExecutable end.

Definition resolveInstalledExecutable (os : ProgramOS) : result string :=
  exe ← match os_Executable os with Ok exe => Ok exe | Fail e => Fail (Wrap "find current executable" [e]) end;
  canonical ← match os_EvalSymlinks os exe with
              | Ok canonical => Ok canonical
              | Fail e => Fail (Wrap "resolve current executable" [e])
              end;
  if installed_name exe || installed_name canonical then Ok canonical
  else
    _ ← check (installed_name (os_Arg0 os)) refuseForeignExecutable;
    found ← or_refuse (os_LookPath os (os_Arg0 os));
    found ← (if IsAbs found then Ok found else or_refuse (os_Abs os found));
    found ← or_refuse (os_EvalSymlinks os found);
    _ ← check (installed_name found) refuseForeignExecutable;
    regular ← or_refuse (os_Regular os found);
    _ ← check regular refuseForeignExecutable;
    Ok found.

(** ** Downloading and replacing *)

(** What an update is given: the responses, the answers of the file system, the
    provenance verifier and the replacement of the executable. *)
Record UpdateIO := mkUpdateIO {
  up_repo : string;
  up_asset : string;
  up_checksums : string → result bytes;
  up_bundle : string → result bytes;
  up_binary : string → result (Z * bytes);
  up_os : ProgramOS;
  up_inspect : string → result (bool * Z);
  up_stage : option goerror;
  up_copy : option goerror;
  up_close : option goerror;
  up_verify : bytes → string → string → bytes → option goerror;
  up_before : option goerror;
  up_replace : option goerror;
}.

(** A call of [replaceExecutable]: the staged bytes, the executable, the authenticated
    digest and the mode. *)
Record Replacement := mkReplacement {
  rp_content : bytes; rp_target : string; rp_digest : bytes; rp_mode : Z }.

Definition limited (limit : Z) (body : result bytes) : result bytes :=
  data ← body;
  _ ← check (bool_decide (Z.of_nat (length data) ≤ limit)%Z) (Errorf "exceeds the limit");
  Ok data.

Definition copyAndVerifyDigest (io : UpdateIO) (content : bytes) (expected : string) : result bytes :=
  match up_copy io with
  | Some e => Fail e
  | None =>
      _ ← check (bool_decide (Z.of_nat (length content) ≤ maxBinary)%Z) (Errorf "binary exceeds the limit");
      _ ← check (bool_decide (hashBytes content = ToLower expected)) (Errorf "checksum mismatch");
      Ok (sha256 content)
  end.

Definition fail_if (e : option goerror) : result () := match e with Some e => Fail e | None => Ok () end.

(** Everything up to the replacement. *)
Definition verified_download (io : UpdateIO) (version : string) : result Replacement :=
  _ ← check (negb (bool_decide (up_repo io = ""))) (Errorf "update repo is not configured");
  checksums ← limited maxChecksums (up_checksums io version);
  expected ← checksumForAsset checksums (up_asset io);
  bundle ← limited MaxBundleBytes (up_bundle io version);
  _ ← check (negb (bool_decide (bundle = []))) (Errorf "provenance is empty");
  '(contentLength, content) ← up_binary io version;
  _ ← check (bool_decide (contentLength ≤ maxBinary)%Z) (Errorf "exceeds the limit");
  exe ← resolveInstalledExecutable (up_os io);
  '(regular, mode) ← up_inspect io exe;
  _ ← check regular (Errorf "current binary is not a regular file");
  _ ← fail_if (up_stage io);
  digest ← copyAndVerifyDigest io content expected;
  _ ← fail_if (up_close io);
  _ ← fail_if (up_verify io bundle (up_asset io) version digest);
  _ ← fail_if (up_before io);
  Ok (mkReplacement content exe digest mode).

(** The calls of [replaceExecutable] and the error. *)
Definition DownloadVersionBeforeReplace (io : UpdateIO) (version : string) : list Replacement * option goerror :=
  match verified_download io version with
  | Fail e => ([], Some e)
  | Ok r => ([r], up_replace io)
  end.

Record OrdinaryResult := mkOrdinary { or_Installed : string; or_CrossMajorAvailable : string }.

Definition tag (r : option Release) : string := match r with Some r => r_TagName r | None => "" end.

Definition supported (r : Release) : bool :=
  bool_decide (is_Some (parseSemanticVersion (r_TagName r))) && negb (r_Draft r) && negb (r_Prerelease r).

(** Installing a release whose assets are complete. *)
Definition install_release (io : UpdateIO) (r : Release) : list Replacement * option goerror :=
  match validateReleaseAssets r with
  | Fail e => ([], Some e)
  | Ok _ => DownloadVersionBeforeReplace io (r_TagName r)
  end.

Definition Download (io : UpdateIO) (releases : result (list Release)) (currentVersion : string) :
    OrdinaryResult * list Replacement * option goerror :=
  match releases with
  | Fail e => (mkOrdinary "" "", [], Some e)
  | Ok releases =>
      let '(sameMajor, crossMajor) := SelectRelease releases currentVersion in
      let available := tag crossMajor in
      match sameMajor with
      | None =>
          if negb (bool_decide (available = "")) || existsb supported releases
          then (mkOrdinary "" available, [], None)
          else (mkOrdinary "" available, [], Some (Errorf "no supported newer release found"))
      | Some r =>
          match install_release io r with
          | (calls, Some e) => (mkOrdinary "" available, calls, Some e)
          | (calls, None) => (mkOrdinary (r_TagName r) available, calls, None)
          end
      end
  end.

(** [Auto]: the flag file it leaves, the calls of [replaceExecutable], the error. *)
Definition Auto (io : UpdateIO) (flag : option string) (now : Z)
    (releases : result (list Release)) (currentVersion : string) :
    option string * list Replacement * option goerror :=
  if bool_decide (up_repo io = "") then (flag, [], None)
  else if negb (shouldCheck flag now) then (flag, [], None)
  else
    match releases with
    | Fail e => (Some (markChecked "" now), [], Some e)
    | Ok releases =>
        let '(sameMajor, crossMajor) := SelectRelease releases currentVersion in
        let available := tag crossMajor in
        let flag := Some (markChecked available now) in
        match sameMajor with
        | None => (flag, [], None)
        | Some r =>
            match install_release io r with
            | (calls, Some e) => (flag, calls, Some e)
            | (calls, None) => (if bool_decide (available = "") then None else flag, calls, None)
            end
        end
    end.
End Update.
