(* ===== verification/ReleaseFacts.v ===== *)
(** * An update takes the right release and installs only verified bytes *)

From Stdlib Require Import Ascii.
From stdpp Require Import pretty.
From S2P Require Import Prelude GoStrings GoStringFacts GoErrors Config SyncProtocol Release.

(** ** Versions are ordered lexicographically *)

Definition valid_version (v : semanticVersion) : Prop :=
  (0 ≤ sv_major v ≤ max_int ∧ 0 ≤ sv_minor v ≤ max_int ∧ 0 ≤ sv_patch v ≤ max_int)%Z.

Definition version_lt (a b : semanticVersion) : Prop :=
  (sv_major a < sv_major b ∨ sv_major a = sv_major b ∧
    (sv_minor a < sv_minor b ∨ sv_minor a = sv_minor b ∧ sv_patch a < sv_patch b))%Z.

Lemma wrap_int_small z : (min_int ≤ z ≤ max_int)%Z → wrap_int z = z.
Proof. unfold wrap_int, min_int, max_int. intros Hz. rewrite Z.mod_small; lia. Qed.

Lemma Atoi_range s n : Atoi s = Some n → (min_int ≤ n ≤ max_int)%Z.
Proof.
  unfold Atoi. destruct (match s with EmptyString => _ | _ => _ end) as [sign body].
  destruct body as [|c body]; [done|]. destruct (digits_value 0 _) as [m|]; [|done].
  case_bool_decide; [by intros [= <-]|done].
Qed.

Lemma version_part_range s n : version_part s = Some n → (0 ≤ n ≤ max_int)%Z.
Proof.
  unfold version_part. intros H.
  destruct (Atoi s) as [m|] eqn:E; [apply Atoi_range in E|]; repeat (case_match; simplify_eq); bool_to_prop; lia.
Qed.

Lemma parse_valid s v : parseSemanticVersion s = Some v → valid_version v.
Proof.
  unfold parseSemanticVersion. intros H. repeat (case_match; simplify_eq).
  repeat (apply bind_Some in H as (? & ?%version_part_range & H)). simplify_eq. unfold valid_version. simpl. lia.
Qed.

Lemma compare_sign a b :
  valid_version a → valid_version b →
  ((compareVersion a b < 0)%Z ↔ version_lt a b) ∧
  ((0 < compareVersion a b)%Z ↔ version_lt b a) ∧ (compareVersion a b = 0%Z ↔ a = b).
Proof.
  unfold valid_version, version_lt, compareVersion, max_int. destruct a as [a1 a2 a3], b as [b1 b2 b3]; simpl.
  intros Ha Hb. assert (mkVersion a1 a2 a3 = mkVersion b1 b2 b3 ↔ a1 = b1 ∧ a2 = b2 ∧ a3 = b3) as ->
    by (split; [by intros [= -> -> ->]|by intros (-> & -> & ->)]).
  repeat case_bool_decide; simpl; rewrite wrap_int_small by (unfold min_int, max_int; lia); lia.
Qed.

(** The subtractions of [compareVersion] never overflow for the versions
    [parseSemanticVersion] accepts, and its sign is their lexicographic order. *)
Theorem compare_version_orders s t a b :
  parseSemanticVersion s = Some a → parseSemanticVersion t = Some b →
  ((compareVersion a b < 0)%Z ↔ version_lt a b) ∧
  ((0 < compareVersion a b)%Z ↔ version_lt b a) ∧ (compareVersion a b = 0%Z ↔ a = b).
Proof. intros ?%parse_valid ?%parse_valid. by apply compare_sign. Qed.

Lemma compare_positive a b :
  valid_version a → valid_version b → (0 < compareVersion a b)%Z ↔ version_lt b a.
Proof. intros. by apply compare_sign. Qed.

(** ** The selected releases *)

(** A release an update may take: a published version above the running one. *)
Definition eligible (current : semanticVersion) (r : Release) (v : semanticVersion) : Prop :=
  parseSemanticVersion (r_TagName r) = Some v ∧ r_Draft r = false ∧ r_Prerelease r = false ∧ version_lt current v.
Definition same_major (current : semanticVersion) (r : Release) (v : semanticVersion) : Prop :=
  eligible current r v ∧ sv_major v = sv_major current.
Definition cross_major (current : semanticVersion) (r : Release) (v : semanticVersion) : Prop :=
  eligible current r v ∧ (sv_major current < sv_major v)%Z.

(** The first of the newest releases of a kind, if there is one. *)
Definition first_newest (kind : Release → semanticVersion → Prop) (l : list Release) (o : option Release) : Prop :=
  match o with
  | None => ∀ r v, r ∈ l → ¬ kind r v
  | Some r => ∃ l1 l2 v, l = l1 ++ r :: l2 ∧ kind r v ∧
      (∀ r' v', r' ∈ l1 → kind r' v' → version_lt v' v) ∧
      (∀ r' v', r' ∈ l2 → kind r' v' → ¬ version_lt v v')
  end.

Lemma version_lt_trans a b c : version_lt a b → version_lt b c → version_lt a c.
Proof. unfold version_lt. lia. Qed.

Lemma version_lt_weak a b c : ¬ version_lt a b → version_lt a c → version_lt b c.
Proof. unfold version_lt. lia. Qed.

Lemma first_newest_skip kind l o c :
  (∀ v, ¬ kind c v) → first_newest kind l o → first_newest kind (l ++ [c]) o.
Proof.
  intros Hno. destruct o as [r|]; cbn.
  - intros (l1 & l2 & v & -> & Hk & H1 & H2). exists l1, (l2 ++ [c]), v. rewrite <- (assoc_L (++)).
    split_and!; [done..|]. intros r' v' [Hr|Hr%list_elem_of_singleton]%elem_of_app; [by apply H2|]. subst r'. by intros ?%Hno.
  - intros Hnone r v [Hr|Hr%list_elem_of_singleton]%elem_of_app; [by apply Hnone|by subst r].
Qed.

Lemma first_newest_take (kind : Release → semanticVersion → Prop) l o c v :
  (∀ r v v', kind r v → kind r v' → v' = v) → kind c v →
  match o with
  | None => True
  | Some r => ∀ vr, kind r vr → version_lt vr v
  end →
  first_newest kind l o → first_newest kind (l ++ [c]) (Some c).
Proof.
  intros Hfun Hk Hbetter Hbest. exists l, [], v. split_and!; [done..| |intros r' v' Hin; by apply not_elem_of_nil in Hin].
  intros r' v' Hin Hk'. destruct o as [r|]; [|by destruct (Hbest r' v' Hin)].
  destruct Hbest as (l1 & l2 & vr & -> & Hr & H1 & H2). specialize (Hbetter vr Hr).
  apply elem_of_app in Hin as [Hin|[->|Hin]%elem_of_cons].
  - eapply version_lt_trans; [by eapply H1|done].
  - by rewrite (Hfun _ _ _ Hr Hk').
  - eapply version_lt_weak; [by apply (H2 r' v')|done].
Qed.

(** A release that is not newer than the chosen one changes nothing. *)
Lemma first_newest_keep (kind : Release → semanticVersion → Prop) l r c v :
  (∀ r v v', kind r v → kind r v' → v' = v) → kind c v →
  (∀ vr, kind r vr → ¬ version_lt vr v) →
  first_newest kind l (Some r) → first_newest kind (l ++ [c]) (Some r).
Proof.
  intros Hfun Hk Hnot (l1 & l2 & vr & -> & Hr & H1 & H2). exists l1, (l2 ++ [c]), vr.
  rewrite <- (assoc_L (++)). split_and!; [done..|].
  intros r' v' [Hin|Hin%list_elem_of_singleton]%elem_of_app Hk'; [by eapply H2|].
  subst r'. rewrite (Hfun _ _ _ Hk Hk'). by apply Hnot.
Qed.

Lemma eligible_functional current r v v' : eligible current r v → eligible current r v' → v' = v.
Proof. intros (Hv & _) (Hv' & _). congruence. Qed.

Section Select.
Context (current : semanticVersion) (Hcurrent : valid_version current).

Definition selection_ok (l : list Release) (selected : option Release * option Release) : Prop :=
  first_newest (same_major current) l selected.1 ∧ first_newest (cross_major current) l selected.2.

Lemma first_newest_kind kind l r : first_newest kind l (Some r) → ∃ v, kind r v.
Proof. intros (l1 & l2 & v & _ & ? & _). by exists v. Qed.

Lemma select_step_ok l selected c : selection_ok l selected → selection_ok (l ++ [c]) (select_step current selected c).
Proof.
  destruct selected as [same cross]. intros [Hsame Hcross]. unfold select_step, selection_ok in *. cbn [fst snd] in *.
  assert (∀ r v v', same_major current r v → same_major current r v' → v' = v) as Hfs
    by (intros r v v' [? _] [? _]; by eapply eligible_functional).
  assert (∀ r v v', cross_major current r v → cross_major current r v' → v' = v) as Hfc
    by (intros r v v' [? _] [? _]; by eapply eligible_functional).
  assert ((∀ v, ¬ eligible current c v) → first_newest (same_major current) (l ++ [c]) same ∧
    first_newest (cross_major current) (l ++ [c]) cross) as Hskip.
  { intros Hno. split; apply first_newest_skip; try done; intros v [? _]; by eapply Hno. }
  destruct (parseSemanticVersion (r_TagName c)) as [v|] eqn:Ev.
  2: { apply Hskip. intros v (? & _). congruence. }
  apply parse_valid in Ev as Hv.
  destruct (r_Draft c || r_Prerelease c || _) eqn:Eskip.
  { apply Hskip. intros v' (Hp & Hd & Hpre & Hlt). rewrite Hd, Hpre in Eskip. simpl in Eskip.
    apply bool_decide_eq_true in Eskip. assert (v' = v) as -> by congruence.
    apply compare_positive in Hlt; [lia|done..]. }
  bool_to_prop. assert (eligible current c v) as Hel.
  { split_and!; [done..|]. apply compare_positive; [done..|lia]. }
  destruct (bool_decide (sv_major v = sv_major current)) eqn:Emaj; bool_to_prop.
  - assert (same_major current c v) as Hk by by split.
    assert (∀ v', ¬ cross_major current c v') as Hnc.
    { intros v' [Hel' Hlt]. rewrite (eligible_functional _ _ _ _ Hel Hel') in Hlt. lia. }
    destruct same as [r|]; [|cbn; split; [by eapply (first_newest_take _ l None)|by apply first_newest_skip]].
    unfold releaseNewer. rewrite Ev. destruct (first_newest_kind _ _ _ Hsame) as (vr & Hkr).
    pose proof Hkr as [(Hpr & _) _]. rewrite Hpr. pose proof (parse_valid _ _ Hpr) as Hvr.
    case_bool_decide as Hcmp; cbn; (split; [|by apply first_newest_skip]).
    + eapply (first_newest_take _ l (Some r)); [done..| |done]. intros vr' Hkr'. rewrite (Hfs _ _ _ Hkr Hkr'). by apply compare_positive.
    + eapply first_newest_keep; [done..| |done]. intros vr' Hkr' Hlt. rewrite (Hfs _ _ _ Hkr Hkr') in Hlt.
      by apply compare_positive in Hlt.
  - case_bool_decide as Hmaj.
    2: { cbn. split; apply first_newest_skip; try done; intros v' [Hel' Hm];
           rewrite (eligible_functional _ _ _ _ Hel Hel') in Hm; lia. }
    assert (cross_major current c v) as Hk by by split.
    assert (∀ v', ¬ same_major current c v') as Hns.
    { intros v' [Hel' Hm]. rewrite (eligible_functional _ _ _ _ Hel Hel') in Hm. lia. }
    destruct cross as [r|]; [|cbn; split; [by apply first_newest_skip|by eapply (first_newest_take _ l None)]].
    destruct (first_newest_kind _ _ _ Hcross) as (vr & Hkr).
    pose proof Hkr as [(Hpr & _) _]. rewrite Hpr. pose proof (parse_valid _ _ Hpr) as Hvr. cbn [default].
    case_bool_decide as Hcmp; cbn; (split; [by apply first_newest_skip|]).
    + eapply (first_newest_take _ l (Some r)); [done..| |done]. intros vr' Hkr'. rewrite (Hfc _ _ _ Hkr Hkr'). by apply compare_positive.
    + eapply first_newest_keep; [done..| |done]. intros vr' Hkr' Hlt. rewrite (Hfc _ _ _ Hkr Hkr') in Hlt.
      by apply compare_positive in Hlt.
Qed.

Lemma select_ok l : selection_ok l (fold_left (select_step current) l (None, None)).
Proof.
  enough (∀ before selected, selection_ok before selected →
    selection_ok (before ++ l) (fold_left (select_step current) l selected)) as H.
  { apply (H []). split; intros r v Hin; by apply not_elem_of_nil in Hin. }
  induction l as [|c l IH]; intros before selected Hok; cbn [fold_left]; [by rewrite app_nil_r|].
  rewrite cons_middle, (assoc_L (++)). apply IH. by apply select_step_ok.
Qed.
End Select.

(** An update takes the first of the newest published releases of its own major
    version, and offers the first of the newest of a later one; it never takes a
    draft, a prerelease, an unparsable tag or a version that is not newer. *)
Theorem select_release_is_first_newest releases current version :
  parseSemanticVersion current = Some version →
  let '(sameMajor, crossMajor) := SelectRelease releases current in
  first_newest (same_major version) releases sameMajor ∧ first_newest (cross_major version) releases crossMajor.
Proof.
  intros Hv. unfold SelectRelease. rewrite Hv. pose proof (select_ok version (parse_valid _ _ Hv) releases) as Hok.
  by destruct (fold_left _ releases _).
Qed.

(** ** Assets *)

Lemma check_names_spec expected seen names seen' :
  check_names expected seen names = Ok seen' →
  NoDup names ∧ (∀ n, n ∈ names → n ∈ expected ∧ n ∉ seen) ∧ (∀ n, n ∈ seen' ↔ n ∈ seen ∨ n ∈ names).
Proof.
  revert seen. induction names as [|n names IH]; intros seen; cbn [check_names].
  - intros [= <-]. split_and!; [apply NoDup_nil_2|set_solver|set_solver].
  - case_bool_decide; [|done]. cbn [negb]. case_bool_decide; [done|]. intros Hc.
    apply IH in Hc as (Hnd & Hin & Hseen). split_and!.
    + apply NoDup_cons. split; [|done]. intros Hn. apply (Hin n) in Hn as [_ Hn]. set_solver.
    + intros m [->|Hm]%elem_of_cons; [done|]. destruct (Hin m Hm). set_solver.
    + intros m. rewrite Hseen. set_solver.
Qed.

Lemma check_names_ok expected seen names :
  NoDup names → (∀ n, n ∈ names → n ∈ expected ∧ n ∉ seen) → ∃ seen', check_names expected seen names = Ok seen'.
Proof.
  revert seen. induction names as [|n names IH]; intros seen Hnd Hin; cbn [check_names]; [by eexists|].
  apply NoDup_cons in Hnd as [Hn Hnd]. destruct (Hin n) as [He Hs]; [left|].
  rewrite (bool_decide_eq_true_2 _ He), (bool_decide_eq_false_2 _ Hs). cbn [negb]. apply IH; [done|].
  intros m Hm. destruct (Hin m); [by right|]. split; [done|]. set_solver.
Qed.

Lemma expected_names_distinct : NoDup ExpectedReleaseNames.
Proof. apply (bool_decide_unpack (NoDup ExpectedReleaseNames)). by vm_compute. Qed.

Lemma validate_assets_spec r : validateReleaseAssets r = Ok () ↔ r_Assets r ≡ₚ ExpectedReleaseNames.
Proof.
  assert (NoDup ExpectedReleaseNames) as Hnd by exact expected_names_distinct.
  unfold validateReleaseAssets, ValidateReleaseNames. generalize ExpectedReleaseNames Hnd. clear Hnd. intros E HE.
  transitivity (length (r_Assets r) = length E ∧ ∃ seen, check_names E [] (r_Assets r) = Ok seen ∧ ∀ n, n ∈ E → n ∈ seen).
  - destruct (length (r_Assets r) =? length E) eqn:El; cbn [negb].
    2: { apply Nat.eqb_neq in El. split; [done|]. by intros [? _]. }
    apply Nat.eqb_eq in El. destruct (check_names E [] (r_Assets r)) as [seen|e]; cbn; [|naive_solver].
    unfold check. destruct (forallb _ E) eqn:Ef.
    + split; [|done]. intros _. split; [done|]. exists seen. split; [done|]. intros n Hn.
      rewrite forallb_forall in Ef. specialize (Ef n). rewrite <- list_elem_of_In in Ef.
      by apply Ef, bool_decide_eq_true_1 in Hn.
    + split; [done|]. intros [_ (seen' & [= <-] & Hall)]. exfalso. apply not_true_iff_false in Ef. apply Ef.
      apply forallb_forall. intros n Hn%list_elem_of_In. by apply bool_decide_eq_true_2, Hall.
  - split.
    + intros [Hlen (seen & Hc & Hall)]. apply check_names_spec in Hc as (Hnd & Hin & Hseen).
      apply NoDup_Permutation; [done..|]. intros n. split; [by intros Hn; apply Hin|].
      intros Hn. apply Hall, Hseen in Hn as [Hn|?]; [by apply not_elem_of_nil in Hn|done].
    + intros Hp. split; [by rewrite Hp|]. destruct (check_names_ok E [] (r_Assets r)) as [seen Hc].
      * by rewrite Hp.
      * intros n Hn. rewrite Hp in Hn. split; [done|]. apply not_elem_of_nil.
      * exists seen. split; [done|]. apply check_names_spec in Hc as (_ & _ & Hseen). intros n Hn.
        apply Hseen. right. by rewrite Hp.
Qed.

(** A release is accepted exactly when its assets are the expected ones, in any
    order: every binary with its provenance, the installer and the checksums. *)
Theorem release_assets_are_exact r :
  validateReleaseAssets r = Ok () ↔ r_Assets r ≡ₚ ExpectedReleaseNames.
Proof. exact (validate_assets_spec r). Qed.

(** ** Checksums *)

Section Install.
Context `{!UnicodeCase} `{!Sha256}.

Lemma checksum_lines_spec asset lines found sum :
  (found ≠ "" → checksum_ok found = true) →
  checksum_lines asset lines found = Ok sum ↔
  checksum_ok sum = true ∧
  (if bool_decide (found = "") then [] else [found]) ++ omap (line_sum asset) lines = [sum].
Proof.
  revert found. induction lines as [|line lines IH]; intros found Hfound; cbn [checksum_lines omap list_omap].
  - case_bool_decide; [by split; [done|intros [_ ?]]|]. rewrite app_nil_r. split.
    + intros [= <-]. split; [by apply Hfound|done].
    + by intros [_ [= ->]].
  - destruct (line_sum asset line) as [s|] eqn:El; [|by apply IH].
    destruct (checksum_ok s) eqn:Es; cbn [negb].
    + assert (s ≠ "") as Hs by (intros ->; by vm_compute in Es).
      case_bool_decide; cbn [negb].
      * rewrite IH by done. rewrite (bool_decide_eq_false_2 _ Hs). done.
      * split; [done|]. by intros [_ ?].
    + split; [done|]. intros [Hok Hl]. exfalso. case_bool_decide; simplify_eq/=. congruence.
Qed.

Lemma checksum_spec data asset sum :
  checksumForAsset data asset = Ok sum ↔
  checksum_ok sum = true ∧ omap (line_sum asset) (Split (char 10) (string_of_bytes data)) = [sum].
Proof. unfold checksumForAsset. rewrite checksum_lines_spec by done. done. Qed.

(** The checksum of an asset is found exactly when one single line names the asset,
    and with a well-formed SHA-256 value. *)
Theorem checksum_is_the_only_one data asset sum :
  checksumForAsset data asset = Ok sum ↔
  String.length sum = 64 ∧ string_forall is_hex_digit sum = true ∧
  omap (line_sum asset) (Split (char 10) (string_of_bytes data)) = [sum].
Proof.
  rewrite checksum_spec. unfold checksum_ok. rewrite andb_true_iff, Nat.eqb_eq. tauto.
Qed.

(** ** What is installed *)

(** The bytes of a call of [replaceExecutable] are the ones the checksum file and the
    verified provenance of this version name. *)
Definition verified (io : UpdateIO) (version : string) (r : Replacement) : Prop :=
  ∃ checksums bundle sum,
    up_repo io ≠ "" ∧ up_checksums io version = Ok checksums ∧ up_bundle io version = Ok bundle ∧ bundle ≠ [] ∧
    checksumForAsset checksums (up_asset io) = Ok sum ∧ hashBytes (rp_content r) = ToLower sum ∧
    rp_digest r = sha256 (rp_content r) ∧ (Z.of_nat (length (rp_content r)) ≤ maxBinary)%Z ∧
    up_verify io bundle (up_asset io) version (rp_digest r) = None ∧
    resolveInstalledExecutable (up_os io) = Ok (rp_target r) ∧ up_inspect io (rp_target r) = Ok (true, rp_mode r) ∧
    up_before io = None.

Lemma fail_if_Ok e u : fail_if e = Ok u ↔ e = None.
Proof. by destruct e, u. Qed.

Lemma verified_download_verified io version r : verified_download io version = Ok r → verified io version r.
Proof.
  unfold verified_download, limited, copyAndVerifyDigest. intros Hok.
  repeat match goal with
  | H : (_ ≫= _) = Ok _ |- _ => apply bind_Ok in H as (? & ? & ?)
  | H : check _ _ = Ok _ |- _ => apply check_Ok in H
  | H : fail_if _ = Ok _ |- _ => apply fail_if_Ok in H
  | H : (let '(_, _) := ?x in _) = Ok _ |- _ => destruct x
  | H : match up_copy io with _ => _ end = Ok _ |- _ => destruct (up_copy io); [done|]
  | H : Ok _ = Ok _ |- _ => injection H as <-
  end.
  bool_to_prop. subst. unfold verified. cbn. naive_solver.
Qed.

(** A download stops before the replacement, or calls it once. *)
Lemma download_cases io releases current :
  (∃ available err, Download io releases current = (mkOrdinary "" available, [], err)) ∨
  (∃ l r v call available, releases = Ok l ∧ parseSemanticVersion current = Some v ∧
    first_newest (same_major v) l (Some r) ∧ r_Assets r ≡ₚ ExpectedReleaseNames ∧ verified io (r_TagName r) call ∧
    Download io releases current =
      (mkOrdinary (match up_replace io with Some _ => "" | None => r_TagName r end) available, [call], up_replace io)).
Proof.
  unfold Download. destruct releases as [l|e]; [|left; eauto].
  assert (∀ r, (SelectRelease l current).1 = Some r → ∃ v, parseSemanticVersion current = Some v ∧
    first_newest (same_major v) l (Some r)) as Hsel.
  { unfold SelectRelease. destruct (parseSemanticVersion current) as [v|] eqn:Ev; [|done].
    pose proof (select_ok v (parse_valid _ _ Ev) l) as [Hok _]. intros r Hr. rewrite Hr in Hok. by exists v. }
  destruct (SelectRelease l current) as [[r|] cross]; cbn [fst] in Hsel; [|left; case_match; eauto].
  destruct (Hsel r eq_refl) as (v & Hv & Hnewest). unfold install_release.
  destruct (validateReleaseAssets r) as [[]|e] eqn:Ea; [|left; eauto].
  unfold DownloadVersionBeforeReplace. destruct (verified_download io (r_TagName r)) as [call|e] eqn:Ed; [|left; eauto].
  right. exists l, r, v, call, (tag cross). split_and!; [done..|by apply validate_assets_spec|by apply verified_download_verified|].
  by destruct (up_replace io).
Qed.

(** Nothing is installed but the verified bytes of the release that was chosen: a
    manual update replaces the executable at most once, for the first of the newest
    releases of its own major version, whose assets are complete, with bytes that
    match its only checksum and its provenance; and it reports a version as installed
    only when that replacement succeeded. *)
Theorem update_installs_only_verified io releases current result calls err :
  Download io releases current = (result, calls, err) →
  length calls ≤ 1 ∧
  (∀ call, call ∈ calls → ∃ l r v version, releases = Ok l ∧ parseSemanticVersion current = Some v ∧
    first_newest (same_major v) l (Some r) ∧ version = r_TagName r ∧
    r_Assets r ≡ₚ ExpectedReleaseNames ∧ verified io version call ∧
    (err = None → up_replace io = None ∧ or_Installed result = version)) ∧
  (or_Installed result ≠ "" → calls ≠ [] ∧ err = None).
Proof.
  intros Hrun. destruct (download_cases io releases current) as [(available & err' & Hd)|(l & r & v & call & available & ? & ? & ? & ? & ? & Hd)];
    rewrite Hd in Hrun; injection Hrun as <- <- <-; cbn.
  - split_and!; [lia|set_solver|done].
  - split_and!; [lia| |by destruct (up_replace io)].
    intros c ->%list_elem_of_singleton. exists l, r, v, (r_TagName r). split_and!; [done..|]. by intros ->.
Qed.
End Install.

(** ** The automatic check *)

Lemma digits_value_app acc s t n : digits_value acc s = Some n → digits_value acc (s +:+ t) = digits_value n t.
Proof.
  revert acc. induction s as [|c s IH]; intros acc; cbn [digits_value].
  - rewrite app_nil. by intros [= ->].
  - rewrite app_cons. cbn [digits_value]. destruct (is_digit c); [apply IH|done].
Qed.

Lemma digits_prefix_all acc s n : digits_value acc s = Some n → digits_prefix s = s.
Proof.
  revert acc. induction s as [|c s IH]; intros acc; cbn [digits_value digits_prefix]; [done|].
  destruct (is_digit c); [|done]. intros Hv. by erewrite IH.
Qed.

Lemma digit_first c s fuel : is_digit c = true →
  skip_space (S fuel) (String c s) = Some (String c s) ∧ Ascii.eqb c "-" || Ascii.eqb c "+" = false.
Proof. destruct c as [[] [] [] [] [] [] [] []]; vm_compute; done. Qed.

Lemma Sscanf_digits s n :
  s ≠ "" → digits_value 0 s = Some n → (min_int ≤ n ≤ max_int)%Z → Sscanf_d s = n.
Proof.
  intros Hs Hv Hn. destruct s as [|c s]; [done|]. pose proof Hv as Hd. cbn [digits_value] in Hd.
  destruct (is_digit c) eqn:Hc; [|done]. clear Hd. unfold Sscanf_d.
  destruct (digit_first c s (String.length s) Hc) as [Hskip Hsign]. cbn [String.length]. rewrite Hskip, Hsign.
  rewrite (digits_prefix_all _ _ _ Hv). unfold Atoi.
  apply orb_false_iff in Hsign as [-> ->]. rewrite Hv, Z.mul_1_l, bool_decide_eq_true_2 by done. done.
Qed.

Lemma Sscanf_pretty z : (0 ≤ z ≤ max_int)%Z → Sscanf_d (pretty z) = z.
Proof.
  intros Hz. unfold pretty, pretty_Z.
  assert (∀ n : N, pretty n ≠ "") as Hne.
  { intros n Hn. pose proof (pretty_N_value n) as Hv. destruct (decide (n = 0)%N) as [->|]; [done|].
    rewrite Hn in Hv. cbn in Hv. injection Hv. lia. }
  destruct z as [|p|p]; [by vm_compute| |lia].
  apply (Sscanf_digits _ (Z.of_N (N.pos p))); [apply pretty_N_not_empty|apply pretty_N_value|unfold min_int; lia].
Qed.

Lemma second_line_app s t : contains_char (char 10) s = false → second_line (s +:+ String (char 10) t) = Some t.
Proof.
  induction s as [|c s IH]; [done|]. rewrite app_cons. cbn [contains_char second_line].
  intros [Hc Hs]%orb_false_iff. rewrite Ascii.eqb_sym, Hc. auto.
Qed.

(** The flag file of a check postpones the next one by the cooldown. *)
Lemma marked_not_due latest now now' :
  contains_char (char 10) latest = false → (0 ≤ now / second ≤ max_int)%Z →
  shouldCheck (Some (markChecked latest now)) now' = bool_decide (cooldown * second < now' - now / second * second)%Z.
Proof.
  intros Hl Hnow. unfold shouldCheck, markChecked. rewrite second_line_app by (by case_bool_decide).
  by rewrite Sscanf_pretty.
Qed.

Section Automatic.
Context `{!UnicodeCase} `{!Sha256}.

Lemma fold_select_from current l sel :
  let '(same, cross) := fold_left (select_step current) l sel in
  (∀ r, cross = Some r → r ∈ l ∨ sel.2 = Some r).
Proof.
  revert sel. induction l as [|c l IH]; intros [same cross]; cbn [fold_left]; [by right|].
  specialize (IH (select_step current (same, cross) c)).
  destruct (fold_left _ _ _) as [same' cross']. intros r Hr. apply IH in Hr as [Hr|Hr]; [left; by right|].
  assert ((select_step current (same, cross) c).2 = Some c ∨ (select_step current (same, cross) c).2 = cross) as Hstep.
  { unfold select_step. repeat case_match; by (left + right). }
  destruct Hstep as [Hs|Hs]; rewrite Hs in Hr; [left; simplify_eq; by left|by right].
Qed.

(** Automatic checks are at least the cooldown apart, and not for ever: a check that
    was due and left its flag file, whatever it found and whether it failed, makes the
    next call of [Auto] do nothing until the cooldown has passed, when a check is due
    again. *)
Theorem automatic_checks_wait io flag now releases current flag' calls err now' :
  up_repo io ≠ "" → shouldCheck flag now = true → (0 ≤ now / second ≤ max_int)%Z →
  (∀ l r, releases = Ok l → r ∈ l → contains_char (char 10) (r_TagName r) = false) →
  Auto io flag now releases current = (Some flag', calls, err) →
  if bool_decide (now' ≤ (now / second + cooldown) * second)%Z
  then ∀ io' releases' current', Auto io' (Some flag') now' releases' current' = (Some flag', [], None)
  else shouldCheck (Some flag') now' = true.
Proof.
  intros Hrepo Hdue Hnow Htags Hauto.
  assert (∃ latest, contains_char (char 10) latest = false ∧ flag' = markChecked latest now) as (latest & Hl & ->).
  { revert Hauto. unfold Auto. rewrite bool_decide_eq_false_2, Hdue by done. cbn [negb].
    destruct releases as [l|e]; [|intros [= <- _ _]; by exists ""].
    unfold SelectRelease. destruct (parseSemanticVersion current) as [v|].
    2: { intros [= <- _ _]. by exists "". }
    pose proof (fold_select_from v l (None, None)) as Hcross. destruct (fold_left _ _ _) as [same cross].
    assert (contains_char (char 10) (tag cross) = false).
    { destruct cross as [r|]; [|done]. destruct (Hcross r eq_refl) as [Hr|?]; [by apply (Htags l)|done]. }
    repeat case_match; intros [= <- _ _]; by exists (tag cross). }
  case_bool_decide.
  - intros. unfold Auto. rewrite marked_not_due, (bool_decide_eq_false_2 (_ < _)%Z) by (done || lia).
    by case_bool_decide.
  - rewrite marked_not_due by done. apply bool_decide_eq_true_2. lia.
Qed.

(** Only an executable that carries one of the installed names, or whose path the
    system reports by one, is ever replaced. *)
Lemma resolved_is_installed os path :
  resolveInstalledExecutable os = Ok path →
  (∃ exe, os_Executable os = Ok exe ∧ os_EvalSymlinks os exe = Ok path ∧ (installed_name exe ∨ installed_name path)) ∨
  installed_name (os_Arg0 os) ∧ installed_name path ∧ os_Regular os path = Ok true.
Proof.
  unfold resolveInstalledExecutable, or_refuse. intros Hok.
  destruct (os_Executable os) as [exe|] eqn:He; [|done]. cbn in Hok.
  destruct (os_EvalSymlinks os exe) as [canonical|] eqn:Hc; [|done]. cbn in Hok.
  destruct (installed_name exe || installed_name canonical) eqn:Hn.
  - left. injection Hok as <-. exists exe. apply orb_true_iff in Hn. naive_solver.
  - right. inv_ok Hok. repeat case_match; simplify_eq/=; naive_solver.
Qed.
End Automatic.
