(* ===== verification/FileWorld.v ===== *)
(** * A Unix file system shared with other processes

    Directory entries name objects; an open file is its object. A program is a
    sequence of system calls: before each, other processes act, and each may fail and
    then leaves the file system alone. Object numbers are not reused, and closing a
    descriptor or flushing it changes nothing here. *)

From S2P Require Import Prelude GoStrings GoErrors.

(** ** Objects and entries *)

(** [Symlink (Some (d, name))] resolves to the entry [name] of directory [d],
    [Symlink None] to nothing. *)
Inductive kind := Regular | Directory | Symlink (to : option (N * string)) | Special.
#[export] Instance kind_eq : EqDecision kind.
Proof. solve_decision. Defined.

Record object := mkObject { o_kind : kind; o_content : bytes; o_mode : Z }.

Record FS := mkFS {
  fs_objects : gmap N object;
  (** a directory and a name *)
  fs_entries : gmap (N * string) N;
  (** the directory the path of the executable's parent resolves to, and whether that
      path itself is a symbolic link *)
  fs_parent : N;
  fs_parent_symlink : bool;
}.

Definition entry (fs : FS) (d : N) (name : string) : option N := fs_entries fs !! (d, name).
Definition set_entries (g : gmap (N * string) N → gmap (N * string) N) (fs : FS) : FS :=
  mkFS (fs_objects fs) (g (fs_entries fs)) (fs_parent fs) (fs_parent_symlink fs).
Definition set_objects (g : gmap N object → gmap N object) (fs : FS) : FS :=
  mkFS (g (fs_objects fs)) (fs_entries fs) (fs_parent fs) (fs_parent_symlink fs).

(** The number of names of an object. *)
Definition links (fs : FS) (i : N) : nat := size (filter (λ e, e.2 = i) (fs_entries fs)).

(** What [stat] tells about an object. *)
Record Stat := mkStat { st_ino : N; st_kind : kind; st_perm : Z; st_nlink : nat }.

Definition perm (mode : Z) : Z := Z.land mode 511.
Definition is_regular (s : Stat) : bool := bool_decide (st_kind s = Regular).
Definition is_dir (s : Stat) : bool := bool_decide (st_kind s = Directory).
Definition SameFile (a b : Stat) : bool := bool_decide (st_ino a = st_ino b).

(** A number no object and no directory entry uses. *)
Definition fresh_object (fs : FS) : N :=
  fresh (dom (fs_objects fs) ∪ set_map fst (dom (fs_entries fs)) ∪ map_img (fs_entries fs) : gset N).

(** ** Errors *)

Definition ENOENT : goerror := Sentinel "ENOENT" [].
Definition EEXIST : goerror := Sentinel "EEXIST" [].
Definition EISDIR : goerror := Sentinel "EISDIR" [].
Definition ENOTDIR : goerror := Sentinel "ENOTDIR" [].
Definition ENOTEMPTY : goerror := Sentinel "ENOTEMPTY" [].
Definition EPERM : goerror := Sentinel "EPERM" [].
Definition ELOOP : goerror := Sentinel "ELOOP" [].
Definition EINVAL : goerror := Sentinel "EINVAL" [].

(** ** What the calls do when they are not made to fail *)

Definition of_option {A} (o : option A) (e : goerror) : result A :=
  match o with Some a => Ok a | None => Fail e end.

Definition stat_object (fs : FS) (i : N) : result Stat :=
  o ← of_option (fs_objects fs !! i) ENOENT; Ok (mkStat i (o_kind o) (o_mode o) (links fs i)).
(** [fstatat] with [AT_SYMLINK_NOFOLLOW]. *)
Definition stat_at (fs : FS) (d : N) (name : string) : result Stat :=
  i ← of_option (entry fs d name) ENOENT; stat_object fs i.

(** The object an opened name resolves to. *)
Definition open_at (fs : FS) (d : N) (name : string) : result N :=
  s ← stat_at fs d name;
  match st_kind s with
  | Symlink (Some (d, name)) => of_option (entry fs d name) ENOENT
  | Symlink None => Fail ENOENT
  | _ => Ok (st_ino s)
  end.
(** [openat] with [O_DIRECTORY] and [O_NOFOLLOW], and with [O_PATH] and [O_NOFOLLOW]. *)
Definition open_dir_at (fs : FS) (d : N) (name : string) : result N :=
  s ← stat_at fs d name; if is_dir s then Ok (st_ino s) else Fail ENOTDIR.
Definition open_path_at (fs : FS) (d : N) (name : string) : result N :=
  s ← stat_at fs d name; Ok (st_ino s).

Definition create_at (fs : FS) (d : N) (name : string) (o : object) : result N * FS :=
  match entry fs d name with
  | Some _ => (Fail EEXIST, fs)
  | None =>
      let i := fresh_object fs in
      (Ok i, set_entries <[(d, name) := i]> (set_objects <[i := o]> fs))
  end.

Definition linked (fs : FS) (i d : N) (name : string) : result () * FS :=
  match entry fs d name with
  | Some _ => (Fail EEXIST, fs)
  | None => (Ok (), set_entries <[(d, name) := i]> fs)
  end.
(** [linkat] of a name. *)
Definition link_at (fs : FS) (d : N) (name : string) (d' : N) (name' : string) : result () * FS :=
  match stat_at fs d name with
  | Fail e => (Fail e, fs)
  | Ok s => if is_dir s then (Fail EPERM, fs) else linked fs (st_ino s) d' name'
  end.
(** [linkat] of a descriptor's link under [/proc]. *)
Definition link_object (fs : FS) (i d : N) (name : string) : result () * FS :=
  if links fs i =? 0 then (Fail ENOENT, fs) else linked fs i d name.

Definition directory_empty (fs : FS) (d : N) : bool :=
  bool_decide (map_Forall (λ (k : N * string) _, k.1 ≠ d) (fs_entries fs)).

Definition unlink_at (fs : FS) (d : N) (name : string) (removedir : bool) : result () * FS :=
  match stat_at fs d name with
  | Fail e => (Fail e, fs)
  | Ok s =>
      if removedir then
        if negb (is_dir s) then (Fail ENOTDIR, fs)
        else if negb (directory_empty fs (st_ino s)) then (Fail ENOTEMPTY, fs)
        else (Ok (), set_entries (delete (d, name)) fs)
      else if is_dir s then (Fail EISDIR, fs)
      else (Ok (), set_entries (delete (d, name)) fs)
  end.

(** [renameat]: nothing happens when both names are the same object. *)
Definition rename_at (fs : FS) (d : N) (name : string) (d' : N) (name' : string) : result () * FS :=
  let moved i := (Ok (), set_entries (λ m, <[(d', name') := i]> (delete (d, name) m)) fs) in
  match stat_at fs d name with
  | Fail e => (Fail e, fs)
  | Ok s =>
      if bool_decide (st_ino s = d') then (Fail EINVAL, fs)
      else
        match stat_at fs d' name' with
        | Fail _ => moved (st_ino s)
        | Ok s' =>
            if SameFile s s' then (Ok (), fs)
            else if is_dir s then
              if negb (is_dir s') then (Fail ENOTDIR, fs)
              else if negb (directory_empty fs (st_ino s')) then (Fail ENOTEMPTY, fs)
              else moved (st_ino s)
            else if is_dir s' then (Fail EISDIR, fs)
            else moved (st_ino s)
        end
  end.

Definition update_object (g : object → object) (i : N) (fs : FS) : FS := set_objects (alter g i) fs.
Definition chmod_object (mode : Z) (o : object) : object := mkObject (o_kind o) (o_content o) mode.
(** Writing at an offset, the gap filled with zeros. *)
Definition write_object (off : nat) (data : bytes) (o : object) : object :=
  mkObject (o_kind o)
    (take off (o_content o) ++ replicate (off - length (o_content o)) Byte.x00 ++ data ++
     drop (off + length data) (o_content o)) (o_mode o).

(** ** Programs *)

(** Before the call: what other processes do, whether the call then fails, the random
    part of a temporary name, and how many bytes a read returns at most. *)
Record Event := mkEvent {
  ev_env : FS → FS;
  ev_fail : option goerror;
  ev_name : string;
  ev_size : nat;
}.

(** The log has the file system before and after each call, the last first. *)
Record World := mkWorld { w_fs : FS; w_time : nat; w_log : list (FS * FS) }.

Definition P (A : Type) : Type := World → result A * World.
#[export] Instance P_ret : MRet P := λ A a w, (Ok a, w).
#[export] Instance P_bind : MBind P := λ A B f m w,
  match m w with
  | (Ok a, w') => f a w'
  | (Fail e, w') => (Fail e, w')
  end.

Definition fail {A} (e : goerror) : P A := λ w, (Fail e, w).
Definition lift {A} (r : result A) : P A := λ w, (r, w).
Definition require (b : bool) (e : goerror) : P () := lift (check b e).
Definition attempt {A} (m : P A) : P (result A) := λ w, let '(r, w') := m w in (Ok r, w').
(** A deferred action: it runs whatever happens, and its error is dropped. *)
Definition finally {A} (m : P A) (cleanup : result A → P ()) : P A := λ w,
  let '(r, w') := m w in
  let '(_, w'') := cleanup r w' in
  (r, w'').
Definition wrapping {A} (msg : string) (m : P A) : P A := λ w,
  match m w with
  | (Fail e, w') => (Fail (Wrap msg [e]), w')
  | other => other
  end.
Definition on_fail (m : P ()) {A} (r : result A) : P () := match r with Ok _ => mret () | Fail _ => m end.

Section Calls.
Context (sched : nat → Event).

Definition call {A} (f : Event → FS → result A * FS) : P A := λ w,
  let e := sched (w_time w) in
  let fs := ev_env e (w_fs w) in
  let '(r, fs') := match ev_fail e with Some err => (Fail err, fs) | None => f e fs end in
  (r, mkWorld fs' (S (w_time w)) ((fs, fs') :: w_log w)).
Definition query {A} (f : FS → result A) : P A := call (λ _ fs, (f fs, fs)).

(** By descriptor. *)
Definition Stat_ (i : N) : P Stat := query (λ fs, stat_object fs i).
Definition Chmod (i : N) (mode : Z) : P () := call (λ _ fs, (Ok (), update_object (chmod_object mode) i fs)).
Definition Sync (i : N) : P () := query (λ _, Ok ()).
Definition Seek (i : N) : P () := query (λ _, Ok ()).
Definition ReadAt (i : N) (off len : nat) : P bytes := call (λ e fs,
  (o ← of_option (fs_objects fs !! i) EINVAL;
   Ok (take (len `min` S (ev_size e)) (drop off (o_content o))), fs)).
Definition WriteAt (i : N) (off : nat) (data : bytes) : P () :=
  call (λ _ fs, (Ok (), update_object (write_object off data) i fs)).

(** By directory descriptor and name. *)
Definition Fstatat (d : N) (name : string) : P Stat := query (λ fs, stat_at fs d name).
Definition Linkat (d : N) (name : string) (d' : N) (name' : string) : P () :=
  call (λ _ fs, link_at fs d name d' name').
Definition LinkDescriptor (i d : N) (name : string) : P () := call (λ _ fs, link_object fs i d name).
Definition Unlinkat (d : N) (name : string) (removedir : bool) : P () :=
  call (λ _ fs, unlink_at fs d name removedir).
Definition Renameat (d : N) (name : string) (d' : N) (name' : string) : P () :=
  call (λ _ fs, rename_at fs d name d' name').
Definition OpenDirAt (d : N) (name : string) : P N := query (λ fs, open_dir_at fs d name).
Definition OpenPathAt (d : N) (name : string) : P N := query (λ fs, open_path_at fs d name).
Definition CreateAt (d : N) (name : string) (mode : Z) : P N :=
  call (λ _ fs, create_at fs d name (mkObject Regular [] mode)).

(** By path, in the parent directory. *)
Definition Open (name : string) : P N := query (λ fs, open_at fs (fs_parent fs) name).
Definition Lstat (name : string) : P Stat := query (λ fs, stat_at fs (fs_parent fs) name).
Definition OpenParent : P N := query (λ fs, if fs_parent_symlink fs then Fail ELOOP else Ok (fs_parent fs)).
(** [os.Remove]: as a file, then as a directory. *)
Definition Remove (name : string) : P () :=
  r ← attempt (call (λ _ fs, unlink_at fs (fs_parent fs) name false));
  match r with
  | Ok _ => mret ()
  | Fail _ => call (λ _ fs, unlink_at fs (fs_parent fs) name true)
  end.

(** [os.CreateTemp] and [os.MkdirTemp]: a random part until the name is free. *)
Fixpoint temp_loop (tries : nat) (o : object) (prefix suffix : string) : P (N * string) :=
  match tries with
  | 0 => fail EEXIST
  | S tries' =>
      r ← attempt (call (λ e fs,
            let name := prefix +:+ ev_name e +:+ suffix in
            let '(r, fs') := create_at fs (fs_parent fs) name o in
            ((λ i, (i, name)) <$> r, fs')));
      match r with
      | Ok found => mret found
      | Fail e => if is_sentinel e EEXIST then temp_loop tries' o prefix suffix else fail e
      end
  end.
Definition tries : nat := 10000.
Definition CreateTemp (prefix suffix : string) : P (N * string) :=
  temp_loop tries (mkObject Regular [] 384) prefix suffix.
Definition MkdirTemp (prefix suffix : string) : P (N * string) :=
  temp_loop tries (mkObject Directory [] 448) prefix suffix.

(** ** [io.Copy] of at most [limit] bytes *)

(** Early exit from at most [2 ^ n] rounds. *)
Fixpoint rounds {X Y} (n : nat) (f : X → P (X + Y)) (x : X) : P (X + Y) :=
  match n with
  | 0 => f x
  | S n' =>
      r ← rounds n' f x;
      match r with
      | inl x' => rounds n' f x'
      | inr y => mret (inr y)
      end
  end.

Definition chunk : nat := 32768.

(** A round reads a chunk from [src] and writes it to [dst]; the state is what was
    read. *)
Definition copy_round (src : N) (dst : option N) (limit : N) (acc : bytes) : P (bytes + bytes) :=
  let left := (limit - N.of_nat (length acc))%N in
  if bool_decide (left = 0)%N then mret (inr acc)
  else
    data ← ReadAt src (length acc) (N.to_nat (left `min` N.of_nat chunk)%N);
    if bool_decide (data = []) then mret (inr acc)
    else
      _ ← match dst with Some dst => WriteAt dst (length acc) data | None => mret () end;
      mret (inl (acc ++ data)).

Definition copy_rounds : nat := 27.
Definition Copy (src : N) (dst : option N) (limit : N) : P bytes :=
  r ← rounds copy_rounds (copy_round src dst limit) [];
  match r with inl acc => mret acc | inr acc => mret acc end.
End Calls.

(** ** Rely-guarantee reasoning about programs of system calls

    [spec P m Q]: when the other processes keep to [rely] and [P] holds of the file
    system and the log, [Q] holds of them and of the result afterwards. *)

Definition steps : Type := list (FS * FS).
Definition assertion : Type := FS → steps → Prop.

Section Logic.
Context (sched : nat → Event) (rely : FS → FS → Prop).
Implicit Types I : assertion.

Definition Stable (I : assertion) : Prop := ∀ fs fs' l, I fs l → rely fs fs' → I fs' l.

Definition spec {A} (I : assertion) (m : P A) (Q : result A → assertion) : Prop :=
  ∀ w, I (w_fs w) (w_log w) → let '(r, w') := m w in Q r (w_fs w') (w_log w').
Definition keeps {A} (I : assertion) (m : P A) : Prop := spec I m (λ _, I).

Lemma runs_conseq {A} (I I' : assertion) (m : P A) (Q Q' : result A → assertion) :
  (∀ fs l, I fs l → I' fs l) → (∀ r fs l, Q' r fs l → Q r fs l) → spec I' m Q' → spec I m Q.
Proof. intros HI HQ Hm w Hw. specialize (Hm w (HI _ _ Hw)). destruct (m w). auto. Qed.

Lemma runs_post {A} (I : assertion) (m : P A) (Q Q' : result A → assertion) :
  (∀ r fs l, Q' r fs l → Q r fs l) → spec I m Q' → spec I m Q.
Proof. intros. by eapply runs_conseq. Qed.

Lemma runs_pre {A} (I I' : assertion) (m : P A) (Q : result A → assertion) :
  (∀ fs l, I fs l → I' fs l) → spec I' m Q → spec I m Q.
Proof. intros. by eapply runs_conseq. Qed.

Lemma runs_pure {A} (φ : Prop) I (m : P A) Q : (φ → spec I m Q) → spec (λ fs l, φ ∧ I fs l) m Q.
Proof. intros Hm w [? ?]. by apply Hm. Qed.

Lemma runs_exists {A X} (I : X → assertion) (m : P A) Q :
  (∀ x, spec (I x) m Q) → spec (λ fs l, ∃ x, I x fs l) m Q.
Proof. intros Hm w [x Hw]. exact (Hm x w Hw). Qed.

Lemma runs_ret {A} (a : A) (Q : result A → assertion) : spec (Q (Ok a)) (mret a) Q.
Proof. by intros w Hw. Qed.

Lemma runs_lift {A} (r : result A) (Q : result A → assertion) : spec (Q r) (lift r) Q.
Proof. by intros w Hw. Qed.

Lemma runs_bind {A B} I (m : P A) (f : A → P B) (R : A → assertion) (Q : result B → assertion) :
  spec I m (λ r, match r with Ok a => R a | Fail e => Q (Fail e) end) →
  (∀ a, spec (R a) (f a) Q) → spec I (m ≫= f) Q.
Proof.
  intros Hm Hf w Hw. specialize (Hm w Hw). unfold mbind, P_bind. destruct (m w) as [[a|e] w']; [|done].
  by apply Hf.
Qed.

Lemma runs_require (b : bool) e I (Q : result () → assertion) :
  (∀ fs l, I fs l → if b then Q (Ok ()) fs l else Q (Fail e) fs l) → spec I (require b e) Q.
Proof. intros HI w Hw. specialize (HI _ _ Hw). by destruct b. Qed.

Lemma runs_attempt {A} I (m : P A) (Q : result (result A) → assertion) :
  spec I m (λ r, Q (Ok r)) → spec I (attempt m) Q.
Proof. intros Hm w Hw. specialize (Hm w Hw). unfold attempt. by destruct (m w). Qed.

Lemma runs_wrapping {A} msg I (m : P A) (Q : result A → assertion) :
  spec I m (λ r, match r with Ok a => Q (Ok a) | Fail e => Q (Fail (Wrap msg [e])) end) → spec I (wrapping msg m) Q.
Proof. intros Hm w Hw. specialize (Hm w Hw). unfold wrapping. by destruct (m w) as [[] ?]. Qed.

Lemma runs_finally {A} I (m : P A) cleanup (R Q : result A → assertion) :
  spec I m R → (∀ r, spec (R r) (cleanup r) (λ _, Q r)) → spec I (finally m cleanup) Q.
Proof.
  intros Hm Hc w Hw. specialize (Hm w Hw). unfold finally. destruct (m w) as [r w'].
  specialize (Hc r w' Hm). by destruct (cleanup r w').
Qed.

Context (Hrely : ∀ t fs, rely fs (ev_env (sched t) fs)).

Lemma runs_call_failing {A} I (f : Event → FS → result A * FS) (Q : result A → assertion) :
  Stable I →
  (∀ t fs l, I fs l → (∀ err, ev_fail (sched t) = Some err → Q (Fail err) fs ((fs, fs) :: l)) ∧
     Q (f (sched t) fs).1 (f (sched t) fs).2 ((fs, (f (sched t) fs).2) :: l)) →
  spec I (call sched f) Q.
Proof.
  intros HI Hf w Hw. unfold call. set (e := sched (w_time w)).
  assert (I (ev_env e (w_fs w)) (w_log w)) as He by (eapply HI; [done|apply Hrely]).
  destruct (Hf (w_time w) _ _ He) as [Hfail Hok]. fold e in Hok, Hfail. destruct (ev_fail e); [by apply Hfail|].
  by destruct (f e _).
Qed.

Lemma runs_call_at {A} I (f : Event → FS → result A * FS) (Q : result A → assertion) :
  Stable I →
  (∀ t fs l, I fs l → (∀ err, Q (Fail err) fs ((fs, fs) :: l)) ∧
     Q (f (sched t) fs).1 (f (sched t) fs).2 ((fs, (f (sched t) fs).2) :: l)) →
  spec I (call sched f) Q.
Proof. intros HI Hf. apply runs_call_failing; [done|]. intros t fs l Hl. destruct (Hf t fs l Hl). auto. Qed.

Lemma runs_call {A} I (f : Event → FS → result A * FS) (Q : result A → assertion) :
  Stable I →
  (∀ e fs l, I fs l → (∀ err, Q (Fail err) fs ((fs, fs) :: l)) ∧ Q (f e fs).1 (f e fs).2 ((fs, (f e fs).2) :: l)) →
  spec I (call sched f) Q.
Proof. intros HI Hf. apply runs_call_at; [done|]. intros t. apply Hf. Qed.

Lemma runs_query {A} I (f : FS → result A) (Q : result A → assertion) :
  Stable I →
  (∀ fs l, I fs l → (∀ err, Q (Fail err) fs ((fs, fs) :: l)) ∧ Q (f fs) fs ((fs, fs) :: l)) →
  spec I (query sched f) Q.
Proof. intros HI Hf. apply runs_call; [done|]. intros e fs l Hi. by apply Hf. Qed.

(** ** Assertions that survive *)

Lemma runs_true {A} (I : assertion) (m : P A) : spec I m (λ _ _ _, True).
Proof. intros w _. by destruct (m w). Qed.

Lemma survives_ret {A} I (a : A) : keeps I (mret a).
Proof. by intros w Hw. Qed.
Lemma survives_fail {A} I e : keeps I (fail (A := A) e).
Proof. by intros w Hw. Qed.
Lemma survives_lift {A} I (r : result A) : keeps I (lift r).
Proof. by intros w Hw. Qed.
Lemma survives_require I b e : keeps I (require b e).
Proof. apply survives_lift. Qed.
Lemma survives_bind {A B} I (m : P A) (f : A → P B) : keeps I m → (∀ a, keeps I (f a)) → keeps I (m ≫= f).
Proof. intros Hm Hf. apply (runs_bind _ _ _ (λ _, I)); [|exact Hf]. eapply runs_post; [|exact Hm]. by intros []. Qed.
Lemma survives_attempt {A} I (m : P A) : keeps I m → keeps I (attempt m).
Proof. intros Hm. by apply runs_attempt. Qed.
Lemma survives_wrapping {A} I msg (m : P A) : keeps I m → keeps I (wrapping msg m).
Proof. intros Hm. unfold keeps. apply runs_wrapping. eapply runs_post; [|exact Hm]. by intros []. Qed.
Lemma survives_finally {A} I (m : P A) cleanup : keeps I m → (∀ r, keeps I (cleanup r)) → keeps I (finally m cleanup).
Proof. intros Hm Hc. by eapply runs_finally. Qed.
Lemma survives_on_fail {A} I m (r : result A) : keeps I m → keeps I (on_fail m r).
Proof. intros Hm. destruct r; [apply survives_ret|done]. Qed.
Lemma survives_rounds {X Y} I n (f : X → P (X + Y)) x : (∀ x, keeps I (f x)) → keeps I (rounds n f x).
Proof.
  intros Hf. revert x. induction n as [|n IH]; intros x; cbn [rounds]; [done|].
  apply survives_bind; [done|]. intros [x'|y]; [done|apply survives_ret].
Qed.
End Logic.

(** ** Steps that leave some names alone *)

Definition private (o : object) : Prop := o_kind o = Directory ∧ perm (o_mode o) = 448%Z.

(** Objects persist, keep their kind, and private directories do not change. *)
Definition objects_persist (fs fs' : FS) : Prop :=
  ∀ i o, fs_objects fs !! i = Some o →
    ∃ o', fs_objects fs' !! i = Some o' ∧ o_kind o' = o_kind o ∧ (private o → o' = o).

(** What other processes may do: everything but in directories private to the owner. *)
Definition civil (fs fs' : FS) : Prop :=
  objects_persist fs fs' ∧
  ∀ d o name, fs_objects fs !! d = Some o → private o → entry fs' d name = entry fs d name.

(** A step that leaves the entries of some names alone, in every directory. *)
Definition harmless (names : list string) (fs fs' : FS) : Prop :=
  objects_persist fs fs' ∧ ∀ d name, name ∈ names → entry fs' d name = entry fs d name.

Lemma objects_persist_refl fs : objects_persist fs fs.
Proof. intros i o Ho. by exists o. Qed.
Lemma harmless_refl names fs : harmless names fs fs.
Proof. split; [apply objects_persist_refl|done]. Qed.
Lemma civil_refl fs : civil fs fs.
Proof. split; [apply objects_persist_refl|done]. Qed.

Lemma entry_set_ne fs d name d' name' i :
  (d, name) ≠ (d', name') → entry (set_entries <[(d', name') := i]> fs) d name = entry fs d name.
Proof. intros Hne. unfold entry, set_entries. cbn. by rewrite lookup_insert_ne by congruence. Qed.
Lemma entry_delete_ne fs d name d' name' :
  (d, name) ≠ (d', name') → entry (set_entries (delete (d', name')) fs) d name = entry fs d name.
Proof. intros Hne. unfold entry, set_entries. cbn. by rewrite lookup_delete_ne by congruence. Qed.

Lemma fresh_object_spec fs :
  fs_objects fs !! fresh_object fs = None ∧ (∀ name, entry fs (fresh_object fs) name = None) ∧
  (∀ d name, entry fs d name ≠ Some (fresh_object fs)).
Proof.
  unfold fresh_object. set (used := _ ∪ _). pose proof (is_fresh used) as Hf.
  assert (∀ i, i ∈ used ↔ i ∈ dom (fs_objects fs) ∨ i ∈ (set_map fst (dom (fs_entries fs)) : gset N) ∨
    i ∈ (map_img (fs_entries fs) : gset N)) as Hused by set_solver.
  split_and!.
  - apply not_elem_of_dom. intros Hin. by apply Hf, Hused; left.
  - intros name. apply not_elem_of_dom. intros Hin. apply Hf, Hused. right; left.
    apply elem_of_map. by exists (fresh used, name).
  - intros d name Hin. apply Hf, Hused. right; right. by eapply elem_of_map_img_2.
Qed.

Lemma set_entries_persist g fs : objects_persist fs (set_entries g fs).
Proof. intros i o Ho. by exists o. Qed.

Section Harmless.
Context (names : list string).

Lemma create_harmless fs d name o : name ∉ names → harmless names fs (create_at fs d name o).2.
Proof.
  intros Hn. unfold create_at. destruct (entry fs d name); [apply harmless_refl|]. cbn. split.
  - intros i o' Ho. exists o'. split; [|done]. cbn. rewrite lookup_insert_ne; [done|].
    intros <-. pose proof (fresh_object_spec fs). naive_solver.
  - intros d' name' Hin. rewrite entry_set_ne; [done|]. intros [= _ ->]. by apply Hn.
Qed.

Lemma linked_harmless fs i d name : name ∉ names → harmless names fs (linked fs i d name).2.
Proof.
  intros Hn. unfold linked. destruct (entry fs d name); [apply harmless_refl|]. split; [apply set_entries_persist|].
  intros d' name' Hin. cbn [snd]. rewrite entry_set_ne; [done|]. intros [= _ ->]. by apply Hn.
Qed.

Lemma link_harmless fs d name d' name' : name' ∉ names → harmless names fs (link_at fs d name d' name').2.
Proof.
  intros Hn. unfold link_at. destruct (stat_at fs d name); [|apply harmless_refl].
  destruct (is_dir _); [apply harmless_refl|by apply linked_harmless].
Qed.

Lemma link_object_harmless fs i d name : name ∉ names → harmless names fs (link_object fs i d name).2.
Proof. intros Hn. unfold link_object. destruct (_ =? 0); [apply harmless_refl|by apply linked_harmless]. Qed.

Lemma unlink_harmless fs d name removedir : name ∉ names → harmless names fs (unlink_at fs d name removedir).2.
Proof.
  intros Hn. assert (harmless names fs (set_entries (delete (d, name)) fs)).
  { split; [apply set_entries_persist|]. intros d' name' Hin. rewrite entry_delete_ne; [done|]. intros [= _ ->]. by apply Hn. }
  unfold unlink_at. repeat case_match; try apply harmless_refl; done.
Qed.

Lemma rename_harmless fs d name d' name' :
  name ∉ names → name' ∉ names → harmless names fs (rename_at fs d name d' name').2.
Proof.
  intros Hn Hn'. assert (∀ i, harmless names fs (set_entries (λ m, <[(d', name') := i]> (delete (d, name) m)) fs)).
  { intros i. split; [apply set_entries_persist|]. intros d'' name'' Hin. unfold entry, set_entries. cbn.
    rewrite lookup_insert_ne by (intros [= _ ->]; by apply Hn'). rewrite lookup_delete_ne by (intros [= _ ->]; by apply Hn). done. }
  unfold rename_at. repeat case_match; try apply harmless_refl; cbn [snd]; auto.
Qed.

(** A change of an object that is not a directory. *)
Lemma update_harmless fs g i o :
  fs_objects fs !! i = Some o → o_kind o ≠ Directory → (∀ o, o_kind (g o) = o_kind o) →
  harmless names fs (update_object g i fs).
Proof.
  intros Hi Hk Hg. split; [|done]. intros j o' Hj. cbn. destruct (decide (i = j)) as [<-|].
  - rewrite lookup_alter_eq. exists (g o'). rewrite Hj. split; [done|]. split; [apply Hg|]. intros [? _]. congruence.
  - rewrite lookup_alter_ne by done. by exists o'.
Qed.
End Harmless.

(** ** What the log shows stays shown *)

Definition extends {A} (m : P A) : Prop := ∀ w, ∃ l, w_log (m w).2 = l ++ w_log w.

Section Extends.
Context (sched : nat → Event).

Lemma extends_call {A} (f : Event → FS → result A * FS) : extends (call sched f).
Proof. intros w. unfold call. destruct (match ev_fail _ with Some _ => _ | None => _ end) as [r fs']. by eexists [_]. Qed.
Lemma extends_query {A} (f : FS → result A) : extends (query sched f).
Proof. apply extends_call. Qed.
Lemma extends_ret {A} (a : A) : extends (mret a).
Proof. intros w. by exists []. Qed.
Lemma extends_fail {A} e : extends (fail (A := A) e).
Proof. intros w. by exists []. Qed.
Lemma extends_require b e : extends (require b e).
Proof. intros w. by exists []. Qed.
Lemma extends_bind {A B} (m : P A) (f : A → P B) : extends m → (∀ a, extends (f a)) → extends (m ≫= f).
Proof.
  intros Hm Hf w. destruct (Hm w) as [l Hl]. unfold mbind, P_bind. destruct (m w) as [[a|e] w1]; [|by exists l].
  destruct (Hf a w1) as [l' Hl']. exists (l' ++ l). by rewrite Hl', <- (assoc_L (++)), <- Hl.
Qed.
Lemma extends_attempt {A} (m : P A) : extends m → extends (attempt m).
Proof. intros Hm w. specialize (Hm w). unfold attempt. by destruct (m w). Qed.
Lemma extends_finally {A} (m : P A) cleanup : extends m → (∀ r, extends (cleanup r)) → extends (finally m cleanup).
Proof.
  intros Hm Hc w. destruct (Hm w) as [l Hl]. unfold finally. destruct (m w) as [r w1].
  destruct (Hc r w1) as [l' Hl']. destruct (cleanup r w1) as [r' w2]. exists (l' ++ l). cbn in *.
  by rewrite Hl', <- (assoc_L (++)), <- Hl.
Qed.
End Extends.

(** A moment of the run at which [φ] held, before one of its calls. *)
Definition met (φ : FS → Prop) (l : steps) : Prop := ∃ s, s ∈ l ∧ φ s.1.

Lemma met_app φ l l' : met φ l → met φ (l' ++ l).
Proof. intros (s & Hs & Hφ). exists s. set_solver. Qed.

Lemma runs_with {A} (X : steps → Prop) I (m : P A) (Q : result A → assertion) :
  (∀ l l', X l → X (l' ++ l)) → extends m → spec I m Q →
  spec (λ fs l, X l ∧ I fs l) m (λ r fs l, X l ∧ Q r fs l).
Proof.
  intros HX Hm Hspec w [Hx Hi]. specialize (Hspec w Hi). destruct (Hm w) as [l Hl]. destruct (m w) as [r w'].
  cbn in Hl. rewrite Hl in *. split; [by apply HX|done].
Qed.
