(* ===== verification/PrivateFiles.v ===== *)
(** * Private files: modes, replacement by rename, removal
      ([privatepath_unix.go], [config/writefile.go], [syncserver/server.go])

    The files the program keeps for its owner alone, as programs of system calls of
    FileWorld: what a path must be and which mode it gets, and how a new content is
    written next to the old one and renamed over it. Closing a descriptor may fail. *)

From stdpp Require Import pretty.
From S2P Require Import Prelude GoStrings GoErrors FileWorld.

(** A path: the entry of its directory, the directory that is, and the last element. The
    directories on the way are taken to stay what they are while a program runs; one
    that is missing is made under that number. *)
Record Path := mkPath { p_dir : N * string; p_in : N; p_base : string }.

(** [%o] of a mode. *)
Fixpoint octal_digits (n : nat) (m : Z) (acc : string) : string :=
  match n with
  | O => acc
  | S n' =>
      let acc := pretty (m mod 8)%Z +:+ acc in
      if bool_decide (m / 8 = 0)%Z then acc else octal_digits n' (m / 8)%Z acc
  end.
Definition octal (m : Z) : string := octal_digits 22 m "".

Definition stat_path (fs : FS) (d : N) (name : string) : result Stat := i ← open_at fs d name; stat_object fs i.

(** [mkdir] of a name, as the object [i]. *)
Definition mkdir_as (fs : FS) (i d : N) (name : string) : result () * FS :=
  match entry fs d name, fs_objects fs !! i with
  | None, None => (Ok (), set_entries <[(d, name) := i]> (set_objects <[i := mkObject Directory [] 448]> fs))
  | _, _ => (Fail EEXIST, fs)
  end.

(** At the end of an object, what one [write] takes of [data]. *)
Definition append_object (data : bytes) (o : object) : object := write_object (length (o_content o)) data o.

Section PrivateFiles.
Context (sched : nat → Event).

(** ** Calls by path *)

Definition Stat_path (d : N) (name : string) : P Stat := query sched (λ fs, stat_path fs d name).
Definition Chmod_path (d : N) (name : string) (mode : Z) : P () := call sched (λ _ fs,
  match open_at fs d name with
  | Ok i => (Ok (), update_object (chmod_object mode) i fs)
  | Fail e => (Fail e, fs)
  end).
(** [os.Remove]: the error is that of [rmdir] unless the name is no directory. *)
Definition Remove_path (d : N) (name : string) : P () :=
  r ← attempt (Unlinkat sched d name false);
  match r with
  | Ok _ => mret ()
  | Fail e =>
      r ← attempt (Unlinkat sched d name true);
      match r with
      | Ok _ => mret ()
      | Fail e' => fail (if is_sentinel e' ENOTDIR then e else e')
      end
  end.
(** [os.MkdirAll] of the directory of a path whose own parent exists. *)
Definition MkdirAll (p : Path) : P () :=
  let '(d, name) := p_dir p in
  r ← attempt (Stat_path d name);
  match r with
  | Ok s => if is_dir s then mret () else fail ENOTDIR
  | Fail _ =>
      r ← attempt (call sched (λ _ fs, mkdir_as fs (p_in p) d name));
      match r with
      | Ok _ => mret ()
      | Fail e =>
          s ← attempt (Fstatat sched d name);
          match s with Ok s => if is_dir s then mret () else fail e | Fail _ => fail e end
      end
  end.
Definition Close (i : N) : P () := query sched (λ _, Ok ()).

(** ** By descriptor *)

(** [os.CreateTemp] in a directory. *)
Fixpoint create_temp (tries : nat) (d : N) (prefix suffix : string) : P (N * string) :=
  match tries with
  | 0 => fail EEXIST
  | S tries' =>
      r ← attempt (call sched (λ e fs,
            let name := prefix +:+ ev_name e +:+ suffix in
            let '(r, fs') := create_at fs d name (mkObject Regular [] 384) in
            ((λ i, (i, name)) <$> r, fs')));
      match r with
      | Ok found => mret found
      | Fail e => if is_sentinel e EEXIST then create_temp tries' d prefix suffix else fail e
      end
  end.
Definition CreateTempIn (d : N) (prefix suffix : string) : P (N * string) := create_temp tries d prefix suffix.

(** [File.Write]: calls of [write] until everything is written; each takes at least a
    byte, so that [length data] of them are enough. *)
Fixpoint write_loop (calls : nat) (i : N) (data : bytes) : P () :=
  match calls, data with
  | _, [] => mret ()
  | 0, _ :: _ => fail (Errorf "short write")
  | S calls', _ :: _ =>
      n ← call sched (λ e fs,
        let n := length data `min` S (ev_size e) in
        (Ok n, update_object (append_object (take n data)) i fs));
      write_loop calls' i (drop n data)
  end.
Definition Write (i : N) (data : bytes) : P () := write_loop (length data) i data.

(** ** Private paths *)

Definition requirePathType (d : N) (name : string) (directory : bool) : P () :=
  info ← wrapping "inspect private path" (Fstatat sched d name);
  match st_kind info with
  | Symlink _ => fail (Errorf "private path is a symbolic link")
  | _ =>
      _ ← require (negb (directory && negb (is_dir info))) (Errorf "private path is not a directory");
      require (negb (negb directory && negb (is_regular info))) (Errorf "private path is not a regular file")
  end.

Definition VerifyDirectory (d : N) (name : string) : P () :=
  _ ← requirePathType d name true;
  info ← wrapping "inspect private directory mode" (Fstatat sched d name);
  require (bool_decide (perm (st_perm info) = 448%Z))
    (Errorf ("private directory mode is " +:+ octal (perm (st_perm info)) +:+ ", need 700")).

Definition RestrictDirectory (d : N) (name : string) : P () :=
  _ ← requirePathType d name true;
  _ ← wrapping "restrict private directory mode" (Chmod_path d name 448);
  VerifyDirectory d name.

Definition VerifyFile (d : N) (name : string) : P () :=
  _ ← requirePathType d name false;
  info ← wrapping "inspect private file mode" (Fstatat sched d name);
  require (bool_decide (perm (st_perm info) = 384%Z))
    (Errorf ("private file mode is " +:+ octal (perm (st_perm info)) +:+ ", need 600")).

Definition RestrictFile (d : N) (name : string) : P () :=
  _ ← requirePathType d name false;
  _ ← wrapping "restrict private file mode" (Chmod_path d name 384);
  VerifyFile d name.

Definition WarnIfBroad (d : N) (name : string) : P bool :=
  r ← attempt (Stat_path d name);
  mret (match r with
        | Ok info => is_regular info && negb (bool_decide (Z.land (perm (st_perm info)) 63 = 0%Z))
        | Fail _ => false
        end).

(** ** [config/writefile.go] *)

Definition restrictPrivateDirectory (p : Path) : P () := Chmod_path (p_dir p).1 (p_dir p).2 448.

Definition syncPrivateDirectory (p : Path) : P () :=
  directory ← query sched (λ fs, open_at fs (p_dir p).1 (p_dir p).2);
  syncErr ← attempt (Sync sched directory);
  closeErr ← attempt (Close directory);
  _ ← lift syncErr;
  lift closeErr.

Definition EnsurePrivateDir (p : Path) : P () :=
  _ ← MkdirAll p;
  restrictPrivateDirectory p.

(** The deferred removal of the temporary file, unless the program got to its end. *)
Definition remove_unless_committed {A} (d : N) (tmp : string) (m : P A) : P A :=
  finally m (on_fail (Remove_path d tmp)).

Definition temp_prefix (p : Path) : string := "." +:+ p_base p +:+ ".".
Definition temp_suffix : string := ".tmp".

Definition WritePrivateFile (p : Path) (data : bytes) : P () :=
  _ ← EnsurePrivateDir p;
  '(tmp, tmpPath) ← CreateTempIn (p_in p) (temp_prefix p) temp_suffix;
  remove_unless_committed (p_in p) tmpPath (
    _ ← Chmod sched tmp 384;
    _ ← RestrictFile (p_in p) tmpPath;
    _ ← Write tmp data;
    _ ← Sync sched tmp;
    _ ← Close tmp;
    _ ← Renameat sched (p_in p) tmpPath (p_in p) (p_base p);
    _ ← RestrictFile (p_in p) (p_base p);
    syncPrivateDirectory p).

Definition RemovePrivateFile (p : Path) : P () :=
  r ← attempt (Remove_path (p_in p) (p_base p));
  match r with
  | Ok _ => syncPrivateDirectory p
  | Fail e => if is_sentinel e ENOENT then mret () else fail e
  end.

(** ** [syncserver/server.go] *)

Definition writePrivateFile (p : Path) (data : bytes) : P () :=
  _ ← MkdirAll p;
  _ ← Chmod_path (p_dir p).1 (p_dir p).2 448;
  '(tmp, tmpPath) ← CreateTempIn (p_in p) (temp_prefix p) temp_suffix;
  remove_unless_committed (p_in p) tmpPath (
    _ ← Write tmp data;
    _ ← Chmod sched tmp 384;
    _ ← Close tmp;
    _ ← Renameat sched (p_in p) tmpPath (p_in p) (p_base p);
    RestrictFile (p_in p) (p_base p)).
End PrivateFiles.
