(* ===== verification/PrivateFilesFacts.v ===== *)
(** * Private files are replaced as a whole

    Whatever calls fail and whatever other processes do, except to a temporary file
    this program just made under a name it drew: no call changes what is at the path
    but one, which puts the complete new content there. *)

From S2P Require Import Prelude GoStrings GoStringFacts GoErrors FileWorld PrivateFiles.

(** ** Steps *)

(** The object keeps its kind and content. *)
Definition same_content (fs fs' : FS) (i : N) : Prop :=
  ∀ o, fs_objects fs !! i = Some o →
    ∃ o', fs_objects fs' !! i = Some o' ∧ o_kind o' = o_kind o ∧ o_content o' = o_content o.

(** A step that leaves what is at the entry, but perhaps its mode. *)
Definition left_alone (d : N) (base : string) (s : FS * FS) : Prop :=
  entry s.2 d base = entry s.1 d base ∧ ∀ i, entry s.1 d base = Some i → same_content s.1 s.2 i.
(** A step after which the entry is the object [o]. *)
Definition installs (d : N) (base : string) (o : object) (s : FS * FS) : Prop :=
  ∃ i, entry s.2 d base = Some i ∧ fs_objects s.2 !! i = Some o.

Definition untouched (d : N) (base : string) (l : steps) : Prop := Forall (left_alone d base) l.
(** One step installed [o], and the others left the entry alone. *)
Definition replaced_once (d : N) (base : string) (o : object) (l : steps) : Prop :=
  ∃ later s earlier, l = later ++ s :: earlier ∧ installs d base o s ∧ untouched d base later ∧ untouched d base earlier.

Lemma same_content_refl fs i : same_content fs fs i.
Proof. intros o Ho. by exists o. Qed.
Lemma left_alone_refl d base fs : left_alone d base (fs, fs).
Proof. split; [done|]. intros i _. apply same_content_refl. Qed.

Lemma left_alone_update d base fs g i :
  (∀ o, o_kind (g o) = o_kind o) → (entry fs d base = Some i → ∀ o, o_content (g o) = o_content o) →
  left_alone d base (fs, update_object g i fs).
Proof.
  intros Hk Hc. split; [done|]. intros j Hj o Ho. cbn in *. destruct (decide (i = j)) as [<-|].
  - exists (g o). rewrite lookup_alter_eq, Ho. split_and!; [done|apply Hk|by apply Hc].
  - exists o. by rewrite lookup_alter_ne.
Qed.

Lemma left_alone_entries d base fs g :
  (∀ m, g m !! (d, base) = m !! (d, base)) → left_alone d base (fs, set_entries g fs).
Proof. intros Hg. split; [by unfold entry; cbn; rewrite Hg|]. intros i _. by intros o Ho; exists o. Qed.

Lemma left_alone_unlink d base fs d' name removedir :
  (d', name) ≠ (d, base) → left_alone d base (fs, (unlink_at fs d' name removedir).2).
Proof.
  intros Hne. assert (left_alone d base (fs, set_entries (delete (d', name)) fs)).
  { apply left_alone_entries. intros m. by rewrite lookup_delete_ne. }
  unfold unlink_at. repeat case_match; try apply left_alone_refl; done.
Qed.

Lemma left_alone_create d base fs d' name o :
  (d', name) ≠ (d, base) → left_alone d base (fs, (create_at fs d' name o).2).
Proof.
  intros Hne. unfold create_at. destruct (entry fs d' name); [apply left_alone_refl|]. cbn [snd]. split.
  - cbn [fst snd]. unfold entry. cbn. by rewrite lookup_insert_ne.
  - intros i _ o' Ho. cbn in *. exists o'. rewrite lookup_insert_ne; [done|]. intros <-.
    pose proof (fresh_object_spec fs). naive_solver.
Qed.

Lemma left_alone_mkdir d base fs i d' name :
  (d', name) ≠ (d, base) → left_alone d base (fs, (mkdir_as fs i d' name).2).
Proof.
  intros Hne. unfold mkdir_as. destruct (entry fs d' name); [apply left_alone_refl|].
  destruct (fs_objects fs !! i) eqn:Hi; [apply left_alone_refl|]. cbn [snd]. split.
  - cbn [fst snd]. unfold entry. cbn. by rewrite lookup_insert_ne.
  - intros j _ o Ho. cbn in *. exists o. rewrite lookup_insert_ne; [done|]. intros ->. congruence.
Qed.

(** ** What the other processes do, and the temporary file *)

(** The object has no other name. *)
Definition sole (fs : FS) (d : N) (name : string) (i : N) : Prop :=
  ∀ d' name', entry fs d' name' = Some i → (d', name') = (d, name).
Definition staged (d : N) (tmp : string) (i : N) (o : object) (fs : FS) : Prop :=
  entry fs d tmp = Some i ∧ sole fs d tmp i ∧ fs_objects fs !! i = Some o.
(** Others leave a file alone that only has a name of the given ones. *)
Definition spares (d : N) (mine : string → Prop) (fs fs' : FS) : Prop :=
  ∀ tmp i o, mine tmp → staged d tmp i o fs → staged d tmp i o fs'.

Section Facts.
Context (sched : nat → Event) (d : N) (base prefix suffix : string).
(** The names this program draws. *)
Definition drawn (tmp : string) : Prop := ∃ t, tmp = prefix +:+ ev_name (sched t) +:+ suffix.
Context (Hspares : ∀ t fs, spares d drawn fs (ev_env (sched t) fs)).
Context (Hnames : ∀ tmp, drawn tmp → tmp ≠ base).
Implicit Types (X : steps → Prop) (o : object).

Local Abbreviation rely := (spares d drawn).
Local Abbreviation Spec := (spec (A := _)).

(** Assertions that calls changing nothing keep. *)
Class Calm (I : assertion) : Prop := {
  calm_stable : Stable rely I;
  calm_step fs l : I fs l → I fs ((fs, fs) :: l);
}.

(** What is shown by a log, and by one with another step that leaves the entry alone. *)
Class Grows X : Prop := grows s l : left_alone d base s → X l → X (s :: l).

#[export] Instance untouched_grows : Grows (untouched d base).
Proof. intros s l Hs Hl. by apply Forall_cons. Qed.
#[export] Instance replaced_grows o : Grows (replaced_once d base o).
Proof.
  intros s l Hs (later & s' & earlier & -> & Hi & Hl & He). exists (s :: later), s', earlier.
  split_and!; [done|done|by apply Forall_cons|done].
Qed.
#[export] Instance or_grows X Y : Grows X → Grows Y → Grows (λ l, X l ∨ Y l).
Proof. intros HX HY s l Hs [?|?]; [left|right]; by apply grows. Qed.

Definition logged X : assertion := λ _ l, X l.
Definition staging (tmp : string) (i : N) o : assertion := λ fs l, untouched d base l ∧ staged d tmp i o fs.

#[export] Instance logged_calm X : Grows X → Calm (logged X).
Proof. intros HX. split; [by intros ? ? ? ? ?|]. intros fs l Hl. apply grows; [apply left_alone_refl|done]. Qed.
Lemma staging_calm tmp i o : drawn tmp → Calm (staging tmp i o).
Proof.
  intros Ht. split.
  - intros fs fs' l [Hl Hs] Hr. split; [done|]. by apply Hr.
  - intros fs l [Hl Hs]. split; [|done]. apply grows; [apply left_alone_refl|done].
Qed.

Lemma calm_query {A} I (f : FS → result A) : Calm I → keeps I (query sched f).
Proof. intros HI. apply (runs_query _ rely Hspares); [apply HI|]. intros fs l Hl. split; [intros _|]; by apply calm_step. Qed.

(** ** Calls that leave the entry alone *)

Lemma logged_call {A} X (f : Event → FS → result A * FS) :
  Grows X → (∀ t fs, left_alone d base (fs, (f (sched t) fs).2)) → keeps (logged X) (call sched f).
Proof.
  intros HX Hf. apply (runs_call_at _ rely Hspares); [by intros ? ? ?|]. intros t fs l Hl.
  split; [intros _|]; (apply grows; [|exact Hl]); [apply left_alone_refl|apply Hf].
Qed.

Lemma logged_chmod_path X d' name mode : Grows X → keeps (logged X) (Chmod_path sched d' name mode).
Proof.
  intros HX. apply logged_call; [done|]. intros t fs. destruct (open_at fs d' name); [|apply left_alone_refl].
  by apply left_alone_update.
Qed.

Lemma logged_unlink X d' name removedir : Grows X → (d', name) ≠ (d, base) → keeps (logged X) (Unlinkat sched d' name removedir).
Proof. intros HX Hne. apply logged_call; [done|]. intros t fs. by apply left_alone_unlink. Qed.

Ltac calm_step :=
  lazymatch goal with
  | |- keeps _ (mret _) => apply survives_ret
  | |- keeps _ (fail _) => apply survives_fail
  | |- keeps _ (lift _) => apply survives_lift
  | |- keeps _ (require _ _) => apply survives_require
  | |- keeps _ (wrapping _ _) => apply survives_wrapping
  | |- keeps _ (attempt _) => apply survives_attempt
  | |- keeps _ (_ ≫= _) => apply survives_bind; [|intros ?]
  | |- keeps _ (query _ _) => apply calm_query; eauto with typeclass_instances
  | |- keeps _ (Sync _ _) => apply calm_query; eauto with typeclass_instances
  | |- keeps _ (Close _ _) => apply calm_query; eauto with typeclass_instances
  | |- keeps _ (Fstatat _ _ _) => apply calm_query; eauto with typeclass_instances
  | |- keeps _ (Stat_path _ _ _) => apply calm_query; eauto with typeclass_instances
  | |- keeps _ (Chmod_path _ _ _ _) => by apply logged_chmod_path
  | |- keeps _ (Unlinkat _ _ _ _) => by apply logged_unlink
  | |- keeps _ (match ?x with _ => _ end) => destruct x
  end.
Ltac calm_steps := repeat calm_step.

Lemma calm_requirePathType I d' name directory : Calm I → keeps I (requirePathType sched d' name directory).
Proof. intros HI. unfold requirePathType. calm_steps. Qed.

Lemma calm_VerifyFile I d' name : Calm I → keeps I (VerifyFile sched d' name).
Proof. intros HI. unfold VerifyFile. calm_steps. by apply calm_requirePathType. Qed.

Lemma logged_RestrictFile X d' name : Grows X → keeps (logged X) (RestrictFile sched d' name).
Proof.
  intros HX. unfold RestrictFile. calm_steps; [|apply calm_VerifyFile; apply _]. apply calm_requirePathType. apply _.
Qed.

Lemma logged_MkdirAll X p : Grows X → p_dir p ≠ (d, base) → keeps (logged X) (MkdirAll sched p).
Proof.
  intros HX Hp. unfold MkdirAll. destruct (p_dir p) as [pd pn]. calm_steps.
  apply logged_call; [done|]. intros t fs. by apply left_alone_mkdir.
Qed.

Lemma logged_EnsurePrivateDir X p : Grows X → p_dir p ≠ (d, base) → keeps (logged X) (EnsurePrivateDir sched p).
Proof. intros HX Hp. unfold EnsurePrivateDir, restrictPrivateDirectory. calm_steps. by apply logged_MkdirAll. Qed.

Lemma logged_syncPrivateDirectory X p : Grows X → keeps (logged X) (syncPrivateDirectory sched p).
Proof. intros HX. unfold syncPrivateDirectory. calm_steps. Qed.

Lemma logged_Remove_path X name : Grows X → name ≠ base → keeps (logged X) (Remove_path sched d name).
Proof. intros HX Hn. unfold Remove_path. calm_steps; apply logged_unlink; [done|congruence|done|congruence]. Qed.

(** ** The temporary file *)

Local Abbreviation untouched_so_far := (logged (untouched d base)).

Lemma staging_untouched tmp i o fs l : staging tmp i o fs l → untouched_so_far fs l.
Proof. by intros [? ?]. Qed.

(** What a program on a temporary file leaves: [Q], or a failure. *)
Definition or_untouched {A} (Q : A → assertion) (r : result A) : assertion :=
  match r with Ok a => Q a | Fail _ => untouched_so_far end.

Lemma staging_bind {A B} I (m : P A) (f : A → P B) (R : A → assertion) (Q : B → assertion) :
  spec I m (or_untouched R) → (∀ a, spec (R a) (f a) (or_untouched Q)) → spec I (m ≫= f) (or_untouched Q).
Proof. intros Hm Hf. apply (runs_bind _ _ _ R); [|done]. eapply runs_post; [|exact Hm]. by intros [a|e]. Qed.

Lemma keeps_staging {A} tmp i o (m : P A) :
  keeps (staging tmp i o) m → spec (staging tmp i o) m (or_untouched (λ _, staging tmp i o)).
Proof. intros Hm. eapply runs_post; [|exact Hm]. intros [a|e] fs l Hl; [done|]. by eapply staging_untouched. Qed.

Lemma runs_create_temp : spec untouched_so_far (CreateTempIn sched d prefix suffix)
  (or_untouched (λ '(i, tmp) fs l, drawn tmp ∧ staging tmp i (mkObject Regular [] 384) fs l)).
Proof.
  unfold CreateTempIn. generalize tries. intros n. induction n as [|n IH]; cbn [create_temp].
  { intros w Hw. exact Hw. }
  eapply runs_bind.
  2: { intros r. instantiate (1 := λ r, match r with
         | Ok (i, tmp) => λ fs l, drawn tmp ∧ staging tmp i (mkObject Regular [] 384) fs l
         | Fail _ => untouched_so_far end).
       destruct r as [[i tmp]|e]; [exact (runs_ret (i, tmp) (or_untouched _))|].
       destruct (is_sentinel e EEXIST); [exact IH|]. intros w Hw. exact Hw. }
  cbn beta. apply runs_attempt. apply (runs_call_at _ rely Hspares); [by intros ? ? ?|].
  intros t fs l Hl. assert (untouched d base ((fs, fs) :: l)) as Hsame by (apply Forall_cons; split; [apply left_alone_refl|done]).
  split; [by intros _|]. set (tmp := prefix +:+ ev_name (sched t) +:+ suffix).
  assert (drawn tmp) as Hdrawn by by exists t.
  pose proof (left_alone_create d base fs d tmp (mkObject Regular [] 384)) as Hstep.
  unfold create_at in *. destruct (entry fs d tmp) as [j|] eqn:Hentry; [exact Hsame|]. cbn. split; [done|]. split; [|unfold staged; split_and!].
  - apply Forall_cons. split; [|done]. apply Hstep. intros [= Ht]. by destruct (Hnames tmp Hdrawn).
  - unfold entry. cbn. by rewrite lookup_insert_eq.
  - intros d' name'. unfold entry. cbn. destruct (decide ((d', name') = (d, tmp))) as [|Hne]; [done|].
    rewrite lookup_insert_ne by done. intros He. destruct (fresh_object_spec fs) as (_ & _ & Hno). by destruct (Hno d' name').
  - cbn. by rewrite lookup_insert_eq.
Qed.

(** A change of the temporary file. *)
Lemma staged_update tmp i o g fs l :
  drawn tmp → (∀ o, o_kind (g o) = o_kind o) → staging tmp i o fs l →
  staging tmp i (g o) (update_object g i fs) ((fs, update_object g i fs) :: l).
Proof.
  intros Ht Hg [Hl (He & Hs & Ho)]. split; [|unfold staged; split_and!].
  - apply Forall_cons. split; [|done]. apply left_alone_update; [done|]. intros Hb. apply Hs in Hb.
    injection Hb as Hb. by destruct (Hnames tmp Ht).
  - done.
  - exact Hs.
  - cbn. by rewrite lookup_alter_eq, Ho.
Qed.

Lemma staged_Chmod tmp i o mode :
  drawn tmp → spec (staging tmp i o) (Chmod sched i mode) (or_untouched (λ _, staging tmp i (chmod_object mode o))).
Proof.
  intros Ht. apply (runs_call _ rely Hspares); [by apply staging_calm|]. intros e fs l Hl. split.
  - intros err. eapply staging_untouched. by apply staging_calm.
  - by apply staged_update.
Qed.

Lemma staged_Chmod_path tmp i o :
  drawn tmp → o_kind o = Regular → keeps (staging tmp i o) (Chmod_path sched d tmp (o_mode o)).
Proof.
  intros Ht Hk. apply (runs_call _ rely Hspares); [by apply staging_calm|]. intros e fs l Hl.
  split; [intros err; by apply staging_calm|]. destruct Hl as [Hl (He & Hs & Ho)].
  assert (open_at fs d tmp = Ok i) as ->.
  { unfold open_at, stat_at. rewrite He. cbn. unfold stat_object. rewrite Ho. cbn. by rewrite Hk. }
  replace o with (chmod_object (o_mode o) o) at 1 by by destruct o. by apply staged_update.
Qed.

Lemma staged_RestrictFile tmp i o : drawn tmp → o_kind o = Regular → o_mode o = 384%Z →
  spec (staging tmp i o) (RestrictFile sched d tmp) (or_untouched (λ _, staging tmp i o)).
Proof.
  intros Ht Hk Hm. apply keeps_staging. unfold RestrictFile. pose proof (staging_calm tmp i o Ht).
  calm_steps; [by apply calm_requirePathType|rewrite <- Hm; by apply staged_Chmod_path|by apply calm_VerifyFile].
Qed.

Definition extended o (data : bytes) : object := mkObject (o_kind o) (o_content o ++ data) (o_mode o).

Lemma extended_nil o : extended o [] = o.
Proof. destruct o. unfold extended. cbn. by rewrite app_nil_r. Qed.
Lemma extended_app o data data' : extended (extended o data) data' = extended o (data ++ data').
Proof. unfold extended. cbn. by rewrite (assoc_L (++)). Qed.
Lemma append_object_extended o data : append_object data o = extended o data.
Proof.
  unfold append_object, write_object, extended. f_equal. rewrite firstn_all, Nat.sub_diag, drop_ge by lia.
  cbn. by rewrite app_nil_r.
Qed.

Lemma staged_Write tmp i o data :
  drawn tmp → spec (staging tmp i o) (Write sched i data) (or_untouched (λ _, staging tmp i (extended o data))).
Proof.
  intros Ht. unfold Write. assert (length data ≤ length data) as Hn by done. revert Hn.
  generalize (length data) at 2 3. intros n. revert o data.
  induction n as [|n IH]; intros o [|b data] Hn; cbn [length] in Hn; [|lia| |]; cbn [write_loop].
  1,2: rewrite extended_nil; exact (runs_ret () (or_untouched _)).
  set (more := b :: data). eapply (staging_bind _ _ _ (λ k, λ fs l, 1 ≤ k ∧ staging tmp i (extended o (take k more)) fs l)).
  - apply (runs_call _ rely Hspares); [by apply staging_calm|]. intros e fs l Hl. split.
    + intros err. eapply staging_untouched. by apply staging_calm.
    + cbn [fst snd or_untouched]. split; [subst more; cbn [length]; lia|].
      rewrite <- append_object_extended. by apply staged_update.
  - intros k. apply runs_pure. intros Hk. eapply runs_post; [|apply IH].
    + intros [[]|e] fs l Hr; [|done]. cbn [or_untouched] in *. by rewrite extended_app, take_drop in Hr.
    + rewrite length_drop. subst more. cbn [length]. lia.
Qed.

Lemma staged_Rename tmp i o : drawn tmp → o_kind o = Regular →
  spec (staging tmp i o) (Renameat sched d tmp d base) (or_untouched (λ _, logged (replaced_once d base o))).
Proof.
  intros Ht Hk. apply (runs_call _ rely Hspares); [by apply staging_calm|]. intros _ fs l Hl.
  assert (untouched_so_far fs ((fs, fs) :: l)) as Hsame by (eapply staging_untouched; by apply staging_calm).
  split; [done|]. destruct Hl as [Hl (He & Hs & Ho)].
  assert (stat_at fs d tmp = Ok (mkStat i Regular (o_mode o) (links fs i))) as Hstat.
  { unfold stat_at. rewrite He. cbn. unfold stat_object. rewrite Ho. cbn. by rewrite Hk. }
  unfold rename_at. rewrite Hstat. cbn [st_ino is_dir st_kind].
  set (moved := (Ok (), set_entries (λ m, <[(d, base) := i]> (delete (d, tmp) m)) fs)).
  assert (or_untouched (λ _, logged (replaced_once d base o)) moved.1 moved.2 ((fs, moved.2) :: l)) as Hmoved.
  { exists [], (fs, moved.2), l. split; [done|]. split; [|by split; [constructor|]]. exists i. split; [|done].
    unfold entry. cbn. by rewrite lookup_insert_eq. }
  destruct (bool_decide (i = d)); [exact Hsame|].
  destruct (stat_at fs d base) as [s'|] eqn:Hbase; [|exact Hmoved].
  unfold SameFile. cbn [st_ino]. case_bool_decide as Hi; [|cbn [is_dir st_kind]; unfold is_dir; cbn [st_kind]].
  - exfalso. unfold stat_at in Hbase. destruct (entry fs d base) as [j|] eqn:Hj; [|done]. cbn in Hbase.
    unfold stat_object in Hbase. destruct (fs_objects fs !! j); [|done]. injection Hbase as <-. cbn in Hi. subst j.
    apply Hs in Hj. injection Hj as Hj. by destruct (Hnames tmp Ht).
  - rewrite bool_decide_eq_false_2 by done. destruct (bool_decide _); [exact Hsame|exact Hmoved].
Qed.

(** ** Replacing as a whole *)

Definition whole o (r : result ()) : assertion :=
  match r with
  | Ok _ => logged (replaced_once d base o)
  | Fail _ => logged (λ l, untouched d base l ∨ replaced_once d base o l)
  end.

Lemma runs_committed tmp o I (m : P ()) :
  drawn tmp → spec I m (whole o) → spec I (remove_unless_committed sched d tmp m) (whole o).
Proof.
  intros Ht Hm. unfold remove_unless_committed. eapply runs_finally; [exact Hm|].
  intros [[]|e]; cbn [on_fail whole]; [by apply survives_ret|].
  eapply runs_post; [|apply logged_Remove_path; [apply _|by apply Hnames]]. done.
Qed.

(** After the rename only the mode of the file may change. *)
Lemma staging_rename tmp i o (rest : P ()) : drawn tmp → o_kind o = Regular →
  keeps (logged (replaced_once d base o)) rest →
  spec (staging tmp i o) (_ ← Renameat sched d tmp d base; rest) (whole o).
Proof.
  intros Ht Hk Hrest.
  apply (runs_bind _ _ _ (λ _, logged (replaced_once d base o))); [|intros []; eapply runs_post; [|exact Hrest]].
  - eapply runs_post; [|by apply staged_Rename]. intros [[]|e] fs l Hl; [exact Hl|by left].
  - intros [[]|e] fs l Hl; [done|by right].
Qed.

Lemma untouched_whole {B} I (m : P B) (f : B → P ()) (R : B → assertion) o :
  spec I m (or_untouched R) → (∀ b, spec (R b) (f b) (whole o)) → spec I (m ≫= f) (whole o).
Proof.
  intros Hm Hf. apply (runs_bind _ _ _ R); [|exact Hf]. eapply runs_post; [|exact Hm]. intros [b|e] fs l Hl; [done|by left].
Qed.

Lemma keeps_untouched {B} (m : P B) :
  keeps untouched_so_far m → spec untouched_so_far m (or_untouched (λ _, untouched_so_far)).
Proof. intros Hm. eapply runs_post; [|exact Hm]. by intros []. Qed.

Lemma staged_calm_call tmp i o (m : P ()) : drawn tmp → (∀ I, Calm I → keeps I m) →
  spec (staging tmp i o) m (or_untouched (λ _, staging tmp i o)).
Proof. intros Ht Hm. by apply keeps_staging, Hm, staging_calm. Qed.

Lemma calm_Sync I i : Calm I → keeps I (Sync sched i).
Proof. intros HI. by apply calm_query. Qed.
Lemma calm_Close I i : Calm I → keeps I (Close sched i).
Proof. intros HI. by apply calm_query. Qed.
End Facts.

(** One step of a program that writes a temporary file. *)
Ltac staged_step :=
  first
    [ eapply untouched_whole; [by eapply staged_RestrictFile|intros []]
    | eapply untouched_whole; [by eapply staged_Chmod|intros []]
    | eapply untouched_whole; [by eapply staged_Write|intros []]
    | eapply untouched_whole; [eapply staged_calm_call; [eassumption|intros; eapply calm_Sync; eassumption]|intros []]
    | eapply untouched_whole; [eapply staged_calm_call; [eassumption|intros; eapply calm_Close; eassumption]|intros []] ].

Lemma drawn_not_base (sched : nat → Event) p tmp : drawn sched (temp_prefix p) temp_suffix tmp → tmp ≠ p_base p.
Proof.
  intros (t & ->) Hbase. apply (f_equal String.length) in Hbase. unfold temp_prefix, temp_suffix in Hbase.
  rewrite !length_str_app in Hbase. cbn [String.length] in Hbase. lia.
Qed.

Definition private_file (data : bytes) : object := mkObject Regular data 384.

Section Writes.
Context (sched : nat → Event) (p : Path).
Context (Hspares : ∀ t fs, spares (p_in p) (drawn sched (temp_prefix p) temp_suffix) fs (ev_env (sched t) fs)).
Context (Hdir : p_dir p ≠ (p_in p, p_base p)).

(** C19: A private file is replaced as a whole: if writing it succeeds, one call put the
    complete content there with mode 0600 and no other call changed what is at the path;
    if it fails, the path was left alone or has the complete content. *)
Theorem WritePrivateFile_is_atomic data w r w' :
  w_log w = [] → WritePrivateFile sched p data w = (r, w') →
  whole (p_in p) (p_base p) (private_file data) r (w_fs w') (w_log w').
Proof.
  intros Hlog Hrun. pose proof (drawn_not_base sched p) as Hnames.
  assert (spec (logged (untouched (p_in p) (p_base p))) (WritePrivateFile sched p data)
            (whole (p_in p) (p_base p) (private_file data))) as Hspec.
  2: { specialize (Hspec w). rewrite Hrun in Hspec. apply Hspec. rewrite Hlog. by constructor. }
  unfold WritePrivateFile. eapply untouched_whole.
  { apply keeps_untouched. eapply logged_EnsurePrivateDir; [done|apply _|done]. }
  intros []. eapply untouched_whole; [by apply runs_create_temp|]. intros [i tmp]. apply runs_pure. intros Ht.
  eapply runs_committed; [done..|]. repeat staged_step. eapply staging_rename; [done..|].
  apply survives_bind; [|intros []].
  - eapply logged_RestrictFile; [done|apply _].
  - eapply logged_syncPrivateDirectory; [done|apply _].
Qed.

(** The server's accounts and vaults are replaced the same way. *)
Theorem writePrivateFile_is_atomic data w r w' :
  w_log w = [] → writePrivateFile sched p data w = (r, w') →
  whole (p_in p) (p_base p) (private_file data) r (w_fs w') (w_log w').
Proof.
  intros Hlog Hrun. pose proof (drawn_not_base sched p) as Hnames.
  assert (spec (logged (untouched (p_in p) (p_base p))) (writePrivateFile sched p data)
            (whole (p_in p) (p_base p) (private_file data))) as Hspec.
  2: { specialize (Hspec w). rewrite Hrun in Hspec. apply Hspec. rewrite Hlog. by constructor. }
  unfold writePrivateFile. eapply untouched_whole.
  { apply keeps_untouched. eapply logged_MkdirAll; [done|apply _|done]. }
  intros []. eapply untouched_whole.
  { apply keeps_untouched. eapply logged_chmod_path; [done|apply _]. }
  intros []. eapply untouched_whole; [by apply runs_create_temp|]. intros [i tmp]. apply runs_pure. intros Ht.
  eapply runs_committed; [done..|]. repeat staged_step. eapply staging_rename; [done..|].
  eapply logged_RestrictFile; [done|apply _].
Qed.
End Writes.
