(* ===== verification/HostKeyAccept.v ===== *)
(** * Writing known_hosts ([ssh/hostkey.go], [ssh/auth.go])

    How a key is recorded on Unix: appended when the endpoint is new, or in place of the
    endpoint's old entries by a new file that is renamed over the old one. Programs of
    system calls of FileWorld; what an entry is, is in KnownHosts. *)

From stdpp Require Import pretty.
From S2P Require Import Prelude GoStrings GoErrors FailurePolicy MachineContract KnownHosts FileWorld PrivateFiles Config JumpChain Redaction SshDial.

(** [hostKeyError] of a failed call. *)
Definition hostKeyFailure (kind : Kind) (e : goerror) : goerror := ClassifiedError kind (error_text e).

Definition classifying {A} (kind : Kind) (m : P A) : P A := λ w,
  match m w with
  | (Fail e, w') => (Fail (hostKeyFailure kind e), w')
  | other => other
  end.

Section Update.
Context `{K : SshKeys} `{!KnownHostsPackage} `{!HostNameHash}.
Context (sched : nat → Event).

(** [os.ReadFile]: a file this small is read by one call. *)
Definition read_path (fs : FS) (d : N) (name : string) : result bytes :=
  i ← open_at fs d name; o ← of_option (fs_objects fs !! i) ENOENT; Ok (o_content o).
Definition ReadFile (d : N) (name : string) : P bytes := query sched (λ fs, read_path fs d name).

(** [filepath.EvalSymlinks]. *)
Definition resolve_path (fs : FS) (p : Path) : result (N * string) :=
  s ← stat_at fs (p_in p) (p_base p);
  match st_kind s with
  | Symlink (Some (d, name)) => _ ← stat_at fs d name; Ok (d, name)
  | Symlink None => Fail ENOENT
  | _ => Ok (p_in p, p_base p)
  end.
Definition EvalSymlinks (p : Path) : P (N * string) := query sched (λ fs, resolve_path fs p).

(** What reading the file for an inspection gives: [os.Stat], then its content if it can
    be read. *)
Definition known_hosts_file (p : Path) : P (result KnownHostsFile) :=
  info ← attempt (Stat_path sched (p_in p) (p_base p));
  match info with
  | Fail e => mret (Ok (if is_sentinel e ENOENT then NoFile else StatFails e))
  | Ok _ =>
      content ← attempt (ReadFile (p_in p) (p_base p));
      mret (File ∘ string_of_bytes <$> content)
  end.

Definition known_hosts_temp : string := ".known_hosts.ssm.".

Definition replaceKnownHost (p : Path) (token : string) (key : PublicKey) : P () :=
  resolved ← attempt (EvalSymlinks p);
  let '(d, name) := match resolved with Ok place => place | Fail _ => (p_in p, p_base p) end in
  info ← classifying KnownHostsPermissionsFailed (Stat_path sched d name);
  original ← classifying KnownHostsPermissionsFailed (ReadFile d name);
  let updated := bytes_of_string (replaced_content (string_of_bytes original) token key) in
  '(tmp, tmpPath) ← classifying SSHDirectoryPermissionsFailed (CreateTempIn sched d known_hosts_temp "");
  remove_unless_committed sched d tmpPath (
    _ ← classifying SSHDirectoryPermissionsFailed (Chmod sched tmp (perm (st_perm info)));
    _ ← classifying KnownHostsUnchanged (Write sched tmp updated);
    _ ← classifying KnownHostsUnchanged (Sync sched tmp);
    _ ← classifying KnownHostsUnchanged (Close sched tmp);
    classifying KnownHostsUnchanged (Renameat sched d tmpPath d name)).

(** [os.OpenFile] for appending, which makes the file. *)
Definition open_append (fs : FS) (d : N) (name : string) : result N * FS :=
  match entry fs d name with
  | None => create_at fs d name (mkObject Regular [] 384)
  | Some _ => (i ← open_at fs d name; o ← of_option (fs_objects fs !! i) ENOENT;
      _ ← check (bool_decide (o_kind o ≠ Directory)) EISDIR; Ok i, fs)
  end.
Definition OpenAppend (d : N) (name : string) : P N := call sched (λ _ fs, open_append fs d name).

Definition newline : bytes := bytes_of_string (String (char 10) "").

(** The size [Stat] gives, and the last byte. *)
Definition Size (i : N) : P nat := query sched (λ fs, o ← of_option (fs_objects fs !! i) ENOENT; Ok (length (o_content o))).

Definition unterminated (f : N) : P bool :=
  size ← attempt (Size f);
  match size with
  | Ok (S n) =>
      last ← attempt (ReadAt sched f n 1);
      mret (match last with Ok last => bool_decide (last ≠ newline) | Fail _ => false end)
  | _ => mret false
  end.

Definition saveHostKey (p : Path) (hostname : string) (key : PublicKey) : P () :=
  _ ← MkdirAll sched p;
  _ ← RestrictDirectory sched (p_dir p).1 (p_dir p).2;
  f ← OpenAppend (p_in p) (p_base p);
  let entry := bytes_of_string (knownhosts_Line hostname key) ++ newline in
  glued ← unterminated f;
  _ ← Write sched f (if glued : bool then newline ++ entry else entry);
  _ ← Close sched f;
  RestrictFile sched (p_in p) (p_base p).
End Update.

(** ** Inspecting and accepting a host key ([ssh/hostkey.go])

    The target's key is observed in a handshake that carries no credential and is broken
    off when the key arrives; it is recorded only if it has, when observed again, exactly
    the fingerprint that was given. The observation runs on SshDial, the files are those
    of the known_hosts file; the state has both. *)

Record HostKeyInspection := mkInspection {
  hi_OK : bool;
  hi_Alias : string;
  hi_ResolvedAlias : string;
  hi_Host : string;
  hi_Port : Z;
  hi_Address : string;
  hi_Status : string;
  hi_Classification : string;
  hi_Algorithm : string;
  hi_Fingerprint : string;
  hi_ObservedFingerprint : string;
  hi_KnownFingerprints : list string;
  hi_KnownHostsPath : string;
  hi_Accepted : bool;
  hi_Message : string;
  hi_Hint : string;
}.

(** Why a key was not inspected or accepted: an error of dialing, of [hostKeyError], or
    of reading and writing known_hosts. *)
Inductive AcceptError :=
  | DialFailed (e : sshError)
  | HostKeyFailed (kind : Kind) (message : string)
  | FileFailed (e : goerror).

Section Accept.
Context `{K : SshKeys} `{!KnownHostsPackage} `{!HostNameHash} `{!UnicodeCase}.
Context (RedactString : string → string) (windows : bool).
Context (net : Network) (ParsePrivateKey : string → option sshError) (probe : option PublicKey).
Context (sched : nat → Event).
(** [KnownHostsPath()]: the text of the path, and what it is on the file system. *)
Context (knownHosts : option string) (p : Path).

Record Accepting := mkAccepting { a_dial : Dialing; a_world : World }.

Definition HK (A : Type) : Type := Accepting → A * Accepting.
#[export] Instance HK_ret : MRet HK := λ A a s, (a, s).
#[export] Instance HK_bind : MBind HK := λ A B f m s, let '(a, s') := m s in f a s'.

Definition dialing {A} (m : D A) : HK A := λ s,
  let '(a, d) := m (a_dial s) in (a, mkAccepting d (a_world s)).
(** The log of the calls goes on from the one before. *)
Definition on_files {A} (m : P A) : HK (result A) := λ s,
  let w := a_world s in
  let '(r, w') := m (mkWorld (w_fs w) (w_time w) []) in
  (r, mkAccepting (a_dial s) (mkWorld (w_fs w') (w_time w') (w_log w' ++ w_log w))).

(** ** Observing a key *)

(** The connection for the observation: the jump clients to close afterwards, the first
    dialed first. *)
Definition openObservationConn (redirects : Redirects) (c : Connection) (v : Vault) (address : string) :
    D (sshError + list string) :=
  if bool_decide (TrimSpace (c_ProxyJump c) = "") then
    err ← dialConnectDeadline net address;
    match err with
    | Some e => mret (inl (classified_error (ClassifyError RedactString windows e c) (Some e)))
    | None => mret (inr [])
    end
  else
    match ResolveJumpChain redirects v c with
    | Some (inl e) => mret (inl (invalidJumpChainError RedactString c e))
    | None => mret (inl (plain_error ""))
    | Some (inr chain) =>
        (** [dialJumpPrefix] *)
        jumps ← dialHops RedactString windows net ParsePrivateKey knownHosts probe (removelast chain) (default c (last chain)) v;
        match jumps with
        | inl e => mret (inl e)
        | inr clients =>
            err ← dialTunnel net (default "" (last clients)) address;
            match err with
            | Some e =>
                _ ← closeClients clients;
                mret (inl (classified_error (classifyHop RedactString windows e c c true false true) (Some e)))
            | None => mret (inr clients)
            end
        end
    end.

(** No credential, and a callback that refuses every key. *)
Definition stop_at_key : refusal := OtherRefusal (Errorf "ssm host key captured").
Definition observation_config (c : Connection) (path : string) (file : KnownHostsFile) : ClientConfig :=
  mkClientConfig (c_User c) [] (λ _, Some stop_at_key) (hostKeyAlgorithmsFor path file probe (hostPortOf c)).

(** The key the callback was last called with. *)
Definition observed_key (trace : list hs_event) : option PublicKey :=
  last (omap (λ e, match e with HostKeyArrived k => Some k | AuthSent _ => None end) trace).

(** The handshake, then the deferred release of the connection. *)
Definition capture (address : string) (cfg : ClientConfig) (clients : list string) : D (option PublicKey * option sshError) :=
  n ← tick;
  let '(trace, err) := nw_handshake net n cfg in
  _ ← log_all (Handshaking address <$> trace);
  _ ← closeClients clients;
  mret (observed_key trace, err).

(** What an inspection and the second look share. *)
Definition observe (redirects : Redirects) (c : Connection) (v : Vault) (path : string) :
    HK (sshError + option PublicKey * option sshError) :=
  opened ← dialing (openObservationConn redirects c v (hostPortOf c));
  match opened with
  | inl e => mret (inl e)
  | inr clients =>
      file ← on_files (known_hosts_file sched p);
      let file := match file with Ok (Ok file) => file | Ok (Fail e) | Fail e => StatFails e end in
      captured ← dialing (capture (hostPortOf c) (observation_config c path file) clients);
      mret (inr captured)
  end.

Definition no_key_message : string := "SSH handshake ended before a host key was received".
Definition handshake_message (err : option sshError) : string :=
  match err with Some e => x_Message e | None => no_key_message end.

(** ** Inspection *)

Definition new_report (c : Connection) : HostKeyInspection :=
  mkInspection false (c_Name c) (c_Name c) (c_Host c) (port_of c) (hostPortOf c) "" "" "" "" "" [] "" false "" "".
Definition with_path (path : string) (r : HostKeyInspection) : HostKeyInspection :=
  mkInspection (hi_OK r) (hi_Alias r) (hi_ResolvedAlias r) (hi_Host r) (hi_Port r) (hi_Address r) (hi_Status r)
    (hi_Classification r) (hi_Algorithm r) (hi_Fingerprint r) (hi_ObservedFingerprint r) (hi_KnownFingerprints r) path
    (hi_Accepted r) (hi_Message r) (hi_Hint r).
Definition with_key (key : PublicKey) (r : HostKeyInspection) : HostKeyInspection :=
  mkInspection (hi_OK r) (hi_Alias r) (hi_ResolvedAlias r) (hi_Host r) (hi_Port r) (hi_Address r) (hi_Status r)
    (hi_Classification r) (key_Type key) (FingerprintSHA256 key) (FingerprintSHA256 key) (hi_KnownFingerprints r)
    (hi_KnownHostsPath r) (hi_Accepted r) (hi_Message r) (hi_Hint r).

(** The message and the hint of a status. *)
Definition status_texts (status : string) : option (string * string) :=
  if bool_decide (status = "trusted") then
    Some ("observed host key matches known_hosts", "no host-key change is required")
  else if bool_decide (status = "new") then
    Some ("endpoint has no trusted host key entry",
          "verify observed_fingerprint through a trusted channel, then use host-key accept with the exact fingerprint and --yes")
  else if bool_decide (status = "mismatch") then
    Some ("observed host key differs from known_hosts",
          "treat as a possible interception until rebuild or reassignment is confirmed out-of-band; never remove and rescan automatically")
  else if bool_decide (status = "type_changed") then
    Some ("observed host key type is not among the key types recorded in known_hosts",
          "the server no longer presents a recorded key type; verify observed_fingerprint out-of-band before host-key accept, which adds this key type and keeps the other recorded types; never remove and rescan automatically")
  else None.

Definition with_status (status : string) (known : list string) (r : HostKeyInspection) : HostKeyInspection :=
  let '(message, hint) := default (hi_Message r, hi_Hint r) (status_texts status) in
  mkInspection true (hi_Alias r) (hi_ResolvedAlias r) (hi_Host r) (hi_Port r) (hi_Address r) status status (hi_Algorithm r)
    (hi_Fingerprint r) (hi_ObservedFingerprint r) known (hi_KnownHostsPath r) (hi_Accepted r) message hint.

Definition InspectHostKeyWithVault (redirects : Redirects) (c : Connection) (v : Vault) :
    HK (HostKeyInspection * option AcceptError) :=
  let report := new_report c in
  match knownHosts with
  | None => mret (report, Some (DialFailed (knownHostsPathError RedactString)))
  | Some path =>
      let report := with_path path report in
      captured ← observe redirects c v path;
      match captured with
      | inl e => mret (report, Some (DialFailed e))
      | inr (None, err) => mret (report, Some (HostKeyFailed HostKeyScanDirectFailed (handshake_message err)))
      | inr (Some key, _) =>
          let report := with_key key report in
          file ← on_files (known_hosts_file sched p);
          let inspected :=
            match file with
            | Fail e | Ok (Fail e) => Fail (hostKeyFailure KnownHostsMalformed e)
            | Ok (Ok file) => inspectKnownHost path file (hostPortOf c) key
            end in
          match inspected with
          | Fail e => mret (report, Some (FileFailed e))
          | Ok (status, known) => mret (with_status status known report, None)
          end
      end
  end.

(** ** Acceptance *)

Definition knownHostToken (c : Connection) : string := Normalize (hostPortOf c).

Definition scanObservedKey (redirects : Redirects) (c : Connection) (v : Vault) : HK (AcceptError + PublicKey) :=
  match knownHosts with
  | None => mret (inl (DialFailed (knownHostsPathError RedactString)))
  | Some path =>
      captured ← observe redirects c v path;
      match captured with
      | inl e => mret (inl (DialFailed e))
      | inr (None, err) => mret (inl (HostKeyFailed HostKeyScanFailed (handshake_message err)))
      | inr (Some key, _) => mret (inr key)
      end
  end.

Definition with_accepted (r : HostKeyInspection) : HostKeyInspection :=
  mkInspection (hi_OK r) (hi_Alias r) (hi_ResolvedAlias r) (hi_Host r) (hi_Port r) (hi_Address r) (hi_Status r)
    (hi_Classification r) (hi_Algorithm r) (hi_Fingerprint r) (hi_ObservedFingerprint r) (hi_KnownFingerprints r)
    (hi_KnownHostsPath r) true (hi_Message r) (hi_Hint r).
Definition with_recorded (fingerprint : string) (r : HostKeyInspection) : HostKeyInspection :=
  mkInspection (hi_OK r) (hi_Alias r) (hi_ResolvedAlias r) (hi_Host r) (hi_Port r) (hi_Address r) "trusted"
    "trusted" (hi_Algorithm r) (hi_Fingerprint r) (hi_ObservedFingerprint r) [fingerprint]
    (hi_KnownHostsPath r) true "exact observed host key fingerprint accepted"
    "future connections will require this trusted key".

(** How the key is recorded: in place of the old entries or next to the others. *)
Definition record_key (status : string) (c : Connection) (key : PublicKey) : P () :=
  if bool_decide (status = "mismatch") then replaceKnownHost sched p (knownHostToken c) key
  else classifying KnownHostsPermissionsFailed (saveHostKey sched p (knownHostToken c) key).

Definition AcceptHostKeyWithVault (redirects : Redirects) (c : Connection) (v : Vault) (expectedFingerprint : string) :
    HK (HostKeyInspection * option AcceptError) :=
  '(report, err) ← InspectHostKeyWithVault redirects c v;
  match err with
  | Some e => mret (report, Some e)
  | None =>
      if bool_decide (expectedFingerprint = "" ∨ expectedFingerprint ≠ hi_Fingerprint report) then
        mret (report, Some (HostKeyFailed HostKeyFingerprintMismatch
          ("observed fingerprint " +:+ Quote (hi_Fingerprint report) +:+
           " does not match the explicitly accepted fingerprint")))
      else if bool_decide (hi_Status report = "trusted") then mret (with_accepted report, None)
      else
        scanned ← scanObservedKey redirects c v;
        match scanned with
        | inl e => mret (report, Some e)
        | inr key =>
            if bool_decide (FingerprintSHA256 key ≠ expectedFingerprint) then
              mret (report, Some (HostKeyFailed HostKeyFingerprintChanged
                "host key changed between inspection and known_hosts update"))
            else
              made ← on_files (classifying SSHDirectoryPermissionsFailed (MkdirAll sched p));
              match made with
              | Fail e => mret (report, Some (FileFailed e))
              | Ok _ =>
                  recorded ← on_files (record_key (hi_Status report) c key);
                  match recorded with
                  | Fail e => mret (report, Some (FileFailed e))
                  | Ok _ => mret (with_recorded expectedFingerprint report, None)
                  end
              end
        end
  end.
End Accept.
