(* ===== verification/HostKeyAcceptFacts.v ===== *)
(** * A host key is recorded only when it was seen twice with the given fingerprint

    And an observation sends no credential to the host it observes: only jump hosts are
    sent their own, after known_hosts trusted their keys. *)

From stdpp Require Import pretty.
From S2P Require Import Prelude GoStrings GoErrors Config JumpChain Redaction FailurePolicy MachineContract KnownHosts SshDial SshDialFacts FileWorld PrivateFiles HostKeyAccept.

Section Facts.
Context `{K : SshKeys} `{!KnownHostsPackage} `{!HostNameHash} `{!UnicodeCase}.
Context (RedactString : string → string) (windows : bool).
Context (net : Network) `{!NetworkLaws net} (ParsePrivateKey : string → option sshError) (probe : option PublicKey).
Context (sched : nat → Event) (knownHosts : option string) (p : Path).

(** ** What a program logs and which calls it makes *)

Definition acts {A} (m : HK A) (Q : A → list dial_event → steps → Prop) : Prop :=
  ∀ s, ∃ l k, dl_log (a_dial (m s).2) = dl_log (a_dial s) ++ l ∧
    w_log (a_world (m s).2) = k ++ w_log (a_world s) ∧ Q (m s).1 l k.

Lemma acts_ret {A} (a : A) (Q : A → list dial_event → steps → Prop) : Q a [] [] → acts (mret a) Q.
Proof. intros HQ s. exists [], []. by rewrite app_nil_r. Qed.

Lemma acts_mono {A} (m : HK A) (Q Q' : A → list dial_event → steps → Prop) :
  acts m Q → (∀ a l k, Q a l k → Q' a l k) → acts m Q'.
Proof. intros Hm HQ s. destruct (Hm s) as (l & k & ? & ? & ?). exists l, k. auto. Qed.

Lemma acts_bind {A B} (m : HK A) (f : A → HK B) (R : A → list dial_event → steps → Prop) Q :
  acts m R → (∀ a l k, R a l k → acts (f a) (λ b l' k', Q b (l ++ l') (k' ++ k))) → acts (m ≫= f) Q.
Proof.
  intros Hm Hf s. destruct (Hm s) as (l & k & Hl & Hk & HR). unfold mbind, HK_bind. destruct (m s) as [a s1].
  destruct (Hf a l k HR s1) as (l' & k' & Hl' & Hk' & HQ). exists (l ++ l'), (k' ++ k). cbn [fst snd] in *.
  rewrite Hl', Hl, Hk', Hk, !(assoc_L (++)). by split_and!.
Qed.

Lemma acts_dialing {A} (m : D A) (Q : A → list dial_event → Prop) :
  does m Q → acts (dialing m) (λ a l k, Q a l ∧ k = []).
Proof.
  intros Hm s. destruct (Hm (a_dial s)) as (l & Hl & HQ). unfold dialing. destruct (m (a_dial s)) as [a d].
  by exists l, [].
Qed.

Lemma acts_on_files {A} (m : P A) :
  acts (on_files m) (λ r l k, l = [] ∧ ∃ w w', w_log w = [] ∧ m w = (r, w') ∧ k = w_log w').
Proof.
  intros s. unfold on_files. destruct (m _) as [r w'] eqn:Hrun. exists [], (w_log w'). rewrite app_nil_r.
  split_and!; [done..|]. by exists (mkWorld (w_fs (a_world s)) (w_time (a_world s)) []), w'.
Qed.

(** Calls that only look. *)
Definition looks (k : steps) : Prop := Forall (λ s, s.1 = s.2) k.

Lemma looks_query {A} (f : FS → result A) : keeps (λ _, looks) (query sched f).
Proof.
  intros w Hw. unfold query, call. destruct (match ev_fail _ with Some _ => _ | None => _ end) as [r fs'] eqn:Hf.
  apply Forall_cons. split; [|done]. cbn. by destruct (ev_fail _); injection Hf as <- <-.
Qed.

Lemma looks_known_hosts_file : keeps (λ _, looks) (known_hosts_file sched p).
Proof.
  unfold known_hosts_file. apply survives_bind; [apply survives_attempt, looks_query|]. intros [info|e]; [|apply survives_ret].
  apply survives_bind; [apply survives_attempt, looks_query|]. intros content. apply survives_ret.
Qed.

Lemma acts_known_hosts_file : acts (on_files (known_hosts_file sched p)) (λ _ l k, l = [] ∧ looks k).
Proof.
  eapply acts_mono; [apply acts_on_files|]. intros r l k (-> & w & w' & Hw & Hrun & ->). split; [done|].
  pose proof (looks_known_hosts_file w) as Hl. rewrite Hrun in Hl. apply Hl. rewrite Hw. by constructor.
Qed.

(** ** Observation *)

(** The jump hosts in front of the target. *)
Definition jumps_of (redirects : Redirects) (c : Connection) (v : Vault) : list Connection :=
  if bool_decide (TrimSpace (c_ProxyJump c) = "") then []
  else match ResolveJumpChain redirects v c with Some (inr chain) => removelast chain | _ => [] end.

Local Abbreviation safely := (safe net ParsePrivateKey).
Local Abbreviation open_conn := (openObservationConn RedactString windows net ParsePrivateKey probe knownHosts).

(** What opening the connection leaves: the clients to close, or none. *)
Definition conn_result (v : Vault) (jumps : list Connection) (r : sshError + list string) (l : list dial_event) : Prop :=
  safely v jumps l ∧
  match r with
  | inl _ => closes l = reverse (opens l)
  | inr clients => opens l = clients ∧ closes l = []
  end.

Lemma observing_and {A} (m : D A) (P Q : A → list dial_event → Prop) : does m P → does m Q → does m (λ a l, P a l ∧ Q a l).
Proof.
  intros HP HQ s. destruct (HP s) as (l & Hl & Hp), (HQ s) as (l' & Hl' & Hq). exists l. split; [done|].
  rewrite Hl in Hl'. apply app_inv_head in Hl' as <-. by split.
Qed.

Lemma tunnel_result previous address :
  does (dialTunnel net previous address) (λ _ l, l = [Connecting address (Some previous)]).
Proof.
  unfold dialTunnel. apply does_bind_tick. intros n. apply does_bind_log. by destruct (nw_tunnel_expired net n); apply does_ret.
Qed.

Lemma connect_result address : does (dialConnectDeadline net address) (λ _ l, l = [Connecting address None]).
Proof.
  unfold dialConnectDeadline. apply does_bind_tick. intros n. apply does_bind_log. by destruct (nw_connect net n); apply does_ret.
Qed.

Lemma safely_app v hops l l' : safely v hops l → safely v hops l' → safely v hops (l ++ l').
Proof. apply (safe_app RedactString). apply _. Qed.
Lemma safe_connecting v hops address via : safely v hops [Connecting address via].
Proof. apply safe_quiet. intros a m Hin. by apply list_elem_of_singleton in Hin. Qed.

Lemma conn_results redirects c v : does (open_conn redirects c v (hostPortOf c)) (conn_result v (jumps_of redirects c v)).
Proof.
  unfold openObservationConn, jumps_of. destruct (bool_decide _); [|destruct (ResolveJumpChain redirects v c) as [[e|chain]|]].
  - eapply does_bind; [apply connect_result|]. intros [e|] l ->; apply does_ret; (split; [apply safe_connecting|done]).
  - apply does_ret. split; [apply safe_nil|done].
  - set (jumps := removelast chain). set (target := default c (last chain)).
    pose proof (keeps_safe_hops RedactString windows net ParsePrivateKey knownHosts probe v jumps jumps target []
      (reflexivity _)) as Hsafe.
    pose proof (dial_hops_result RedactString windows net ParsePrivateKey knownHosts probe jumps target v []) as Hdial.
    eapply does_bind; [exact (observing_and _ _ _ Hsafe Hdial)|].
    intros [e|clients] l [Hs Hr]; [apply does_ret; rewrite app_nil_r; split; [done|apply Hr]|].
    cbn in Hr. destruct Hr as (-> & Ho & Hc & _).
    eapply does_bind; [apply tunnel_result|]. intros [e|] l' ->.
    + eapply does_bind; [exact (observing_and _ _ _ (keeps_safe_close RedactString net ParsePrivateKey v jumps _) (close_result _))|].
      intros [] l' (Hs' & Hc' & Ho' & _). apply does_ret. rewrite app_nil_r. split.
      * apply safely_app; [exact Hs|]. apply (safely_app _ _ [_]); [apply safe_connecting|exact Hs'].
      * by rewrite !closes_app, !opens_app, Hc, Hc', Ho, Ho', !app_nil_r.
    + apply does_ret. rewrite app_nil_r. split; [apply safely_app; [exact Hs|apply safe_connecting]|].
      by rewrite opens_app, closes_app, Ho, Hc, app_nil_r.
  - apply does_ret. split; [apply safe_nil|done].
Qed.

(** The key arrived in a handshake with the target. *)
Definition seen (c : Connection) (key : PublicKey) (l : list dial_event) : Prop :=
  Handshaking (hostPortOf c) (HostKeyArrived key) ∈ l.

Lemma observed_key_arrived trace key : observed_key trace = Some key → HostKeyArrived key ∈ trace.
Proof.
  unfold observed_key. intros Hlast%last_Some_elem_of. apply list_elem_of_omap in Hlast as (e & He & Heq).
  destruct e; [by injection Heq as ->|done].
Qed.

Lemma capture_result address c path file clients :
  does (capture net address (observation_config probe c path file) clients) (λ r l,
    (∀ a m, Handshaking a (AuthSent m) ∉ l) ∧ opens l = [] ∧ closes l = reverse clients ∧
    ∀ key, r.1 = Some key → Handshaking address (HostKeyArrived key) ∈ l).
Proof.
  unfold capture. apply does_bind_tick. intros n. set (cfg := observation_config probe c path file).
  destruct (nw_handshake net n cfg) as [trace err] eqn:Htrace.
  eapply does_bind; [by apply (does_log_all _ (λ _ l, l = Handshaking address <$> trace))|]. intros [] l ->.
  eapply does_bind; [apply close_result|]. intros [] l (Hc & Ho & Hs). apply does_ret. rewrite app_nil_r.
  split_and!.
  - intros a m [(e & He & Hin)%list_elem_of_fmap|Hin]%elem_of_app; [|by apply (Hs a); exists m].
    injection He as -> <-. apply list_elem_of_split in Hin as (l1 & l2 & Hsplit).
    destruct (sent_after_trust n cfg l1 m l2) as (Hm & _); [by rewrite Htrace|]. by apply elem_of_nil in Hm.
  - by rewrite opens_app, opens_trace, Ho.
  - by rewrite closes_app, closes_trace, Hc.
  - intros key Hkey. apply elem_of_app. left. apply list_elem_of_fmap. exists (HostKeyArrived key).
    split; [done|]. by apply observed_key_arrived.
Qed.

(** Credentials went only to trusted jump hosts, and all clients were closed. *)
Definition clean (redirects : Redirects) (c : Connection) (v : Vault) (l : list dial_event) : Prop :=
  safely v (jumps_of redirects c v) l ∧ closes l ≡ₚ opens l.

Lemma clean_nil redirects c v : clean redirects c v [].
Proof. split; [apply safe_nil|done]. Qed.
Lemma clean_app redirects c v l l' : clean redirects c v l → clean redirects c v l' → clean redirects c v (l ++ l').
Proof. intros [Hs Hc] [Hs' Hc']. split; [by apply safely_app|]. by rewrite closes_app, opens_app, Hc, Hc'. Qed.

Lemma looks_app k k' : looks k → looks k' → looks (k' ++ k).
Proof. intros Hk Hk'. by apply Forall_app. Qed.

Local Abbreviation observe_ := (observe RedactString windows net ParsePrivateKey probe sched knownHosts p).

Lemma observe_result redirects c v path : acts (observe_ redirects c v path) (λ r l k,
  clean redirects c v l ∧ looks k ∧ ∀ key err, r = inr (Some key, err) → seen c key l).
Proof.
  unfold observe. eapply acts_bind; [apply acts_dialing, conn_results|].
  intros [e|clients] l k [[Hs Hr] ->]; cbn beta iota in Hr.
  - apply acts_ret. rewrite app_nil_r. split_and!; [split; [done|by rewrite Hr, reverse_Permutation]|by constructor|done].
  - destruct Hr as [Ho Hc]. eapply acts_bind; [apply acts_known_hosts_file|]. intros file l' k [-> Hk].
    set (known := match file with Ok (Ok f) => f | Ok (Fail e) | Fail e => StatFails e end).
    eapply acts_bind; [apply acts_dialing, (capture_result _ c path known)|].
    intros [key err] l' k' [(Hquiet & Ho' & Hc' & Hkey) ->]. apply acts_ret. rewrite !app_nil_r, !app_nil_l.
    split_and!; [split|done|].
    + apply safely_app; [done|]. by apply safe_quiet.
    + by rewrite closes_app, opens_app, Hc, Hc', Ho, Ho', app_nil_r, app_nil_l, reverse_Permutation.
    + intros key' err' [= -> ->]. apply elem_of_app. right. by apply Hkey.
Qed.

(** ** Inspection *)

Local Abbreviation inspect_ := (InspectHostKeyWithVault RedactString windows net ParsePrivateKey probe sched knownHosts p).

Definition inspected (redirects : Redirects) (c : Connection) (v : Vault) (r : HostKeyInspection * option AcceptError)
    (l : list dial_event) (k : steps) : Prop :=
  clean redirects c v l ∧ looks k ∧ hi_Accepted r.1 = false ∧
  (r.2 = None → hi_OK r.1 = true ∧ ∃ key, seen c key l ∧ hi_Fingerprint r.1 = FingerprintSHA256 key).

Lemma with_status_keeps status known r :
  hi_Accepted (with_status status known r) = hi_Accepted r ∧ hi_OK (with_status status known r) = true ∧
  hi_Fingerprint (with_status status known r) = hi_Fingerprint r.
Proof. unfold with_status. by destruct (default _ (status_texts status)). Qed.

Lemma inspect_result redirects c v : acts (inspect_ redirects c v) (inspected redirects c v).
Proof.
  pose proof (observe_result redirects c v) as Hobserve. unfold InspectHostKeyWithVault. destruct knownHosts as [path|].
  2: { apply acts_ret. split_and!; [apply clean_nil|by constructor|done|done]. }
  eapply acts_bind; [apply Hobserve|]. intros [e|[[key|] err]] l k (Hl & Hk & Hseen).
  1, 3: apply acts_ret; rewrite app_nil_r; by split_and!; [apply Hl|done|done|done].
  eapply acts_bind; [apply acts_known_hosts_file|]. intros file l' k' [-> Hk'].
  destruct (match file with Ok (Ok f) => _ | Ok (Fail e) | Fail e => _ end) as [[status known]|e].
  - apply acts_ret. rewrite !app_nil_r, app_nil_l. unfold inspected. cbn [fst snd].
    destruct (with_status_keeps status known (with_key key (with_path path (new_report c)))) as (-> & -> & ->).
    split_and!; [apply Hl|by apply looks_app|done|]. intros _. split; [done|]. exists key. by split; [eapply Hseen|].
  - apply acts_ret. rewrite !app_nil_r, app_nil_l. split_and!; [apply Hl|by apply looks_app|done|done].
Qed.

(** ** Acceptance *)

Local Abbreviation accept_ := (AcceptHostKeyWithVault RedactString windows net ParsePrivateKey probe sched knownHosts p).
Local Abbreviation scan_ := (scanObservedKey RedactString windows net ParsePrivateKey probe sched knownHosts p).

Lemma scan_result redirects c v : acts (scan_ redirects c v) (λ r l k,
  clean redirects c v l ∧ looks k ∧ ∀ key, r = inr key → seen c key l).
Proof.
  pose proof (observe_result redirects c v) as Hobserve. unfold scanObservedKey. destruct knownHosts as [path|].
  2: { apply acts_ret. split_and!; [apply clean_nil|by constructor|done]. }
  eapply acts_bind; [apply Hobserve|]. intros [e|[[key|] err]] l k (Hl & Hk & Hseen); apply acts_ret; rewrite app_nil_r.
  1, 3: by split_and!; [apply Hl|done|done].
  split_and!; [apply Hl|done|]. intros key' [= <-]. by eapply Hseen.
Qed.

(** The calls of a run of a program on the files. *)
Definition calls_of {A} (m : P A) (k : steps) : Prop := ∃ w r w', w_log w = [] ∧ m w = (r, w') ∧ k = w_log w'.

(** Both looks at the target showed a key with the fingerprint; the second one's key is
    what the calls record. *)
Definition confirmed (c : Connection) (expected : string) (l : list dial_event) (k : steps) : Prop :=
  ∃ l1 l2 k0 k1 k2 key key' status,
    l = l1 ++ l2 ∧ k = k2 ++ k1 ++ k0 ∧ expected ≠ "" ∧
    seen c key l1 ∧ FingerprintSHA256 key = expected ∧ seen c key' l2 ∧ FingerprintSHA256 key' = expected ∧
    looks k0 ∧ calls_of (classifying SSHDirectoryPermissionsFailed (MkdirAll sched p)) k1 ∧
    (k2 = [] ∨ calls_of (record_key sched p status c key') k2).

Definition acceptance (redirects : Redirects) (c : Connection) (v : Vault) (expected : string)
    (r : HostKeyInspection * option AcceptError) (l : list dial_event) (k : steps) : Prop :=
  clean redirects c v l ∧ (looks k ∨ confirmed c expected l k) ∧
  (hi_Accepted r.1 = true ↔ r.2 = None) ∧
  (r.2 = None → hi_Status r.1 = "trusted" ∧ hi_Fingerprint r.1 = expected ∧
     ∃ key, seen c key l ∧ FingerprintSHA256 key = expected).

Lemma acts_calls {A} (m : P A) : acts (on_files m) (λ _ l k, l = [] ∧ calls_of m k).
Proof.
  eapply acts_mono; [apply acts_on_files|]. intros r l k (-> & w & w' & Hw & Hrun & ->). split; [done|]. by exists w, r, w'.
Qed.

(** A failure after the inspection, which recorded nothing. *)
Lemma acceptance_refused redirects c v expected report e l k :
  clean redirects c v l → looks k ∨ confirmed c expected l k → hi_Accepted report = false →
  acceptance redirects c v expected (report, Some e) l k.
Proof. intros Hl Hk Ha. split_and!; [apply Hl|done| |done]. cbn. by rewrite Ha. Qed.

Lemma accept_result redirects c v expected : acts (accept_ redirects c v expected) (acceptance redirects c v expected).
Proof.
  unfold AcceptHostKeyWithVault. eapply acts_bind; [apply inspect_result|].
  intros [report err] l k (Hl & Hk & Ha & Hok). cbn [fst snd] in *. destruct err as [e|].
  { apply acts_ret. rewrite app_nil_r. by apply acceptance_refused; [|left|]. }
  destruct (Hok eq_refl) as (_ & key & Hseen & Hfp). case_bool_decide as Hexp.
  { apply acts_ret. rewrite app_nil_r. by apply acceptance_refused; [|left|]. }
  assert (expected ≠ "" ∧ FingerprintSHA256 key = expected) as [Hne Hkey].
  { split; [by intros ->; apply Hexp; left|]. destruct (decide (expected = hi_Fingerprint report)) as [->|Hn]; [done|].
    exfalso. apply Hexp. by right. }
  case_bool_decide as Hst.
  { apply acts_ret. rewrite app_nil_r. split_and!; [apply Hl|by left|done|]. intros _. cbn. split_and!; [done|congruence|eauto]. }
  eapply acts_bind; [apply scan_result|]. intros [e|key'] l' k' (Hl' & Hk' & Hseen').
  { apply acts_ret. rewrite app_nil_r. by apply acceptance_refused; [apply clean_app|left; apply looks_app|]. }
  case_bool_decide as Hfp'.
  { apply acts_ret. rewrite app_nil_r. by apply acceptance_refused; [apply clean_app|left; apply looks_app|]. }
  specialize (Hseen' key' eq_refl).
  assert (∀ l'' k1 k2 status, l'' = [] → calls_of (classifying SSHDirectoryPermissionsFailed (MkdirAll sched p)) k1 →
    k2 = [] ∨ calls_of (record_key sched p status c key') k2 →
    confirmed c expected (l ++ l' ++ l'') (((k2 ++ k1) ++ k') ++ k)) as Hconfirmed.
  { intros l'' k1 k2 status -> Hk1 Hk2. exists l, l', (k' ++ k), k1, k2, key, key', status. rewrite app_nil_r.
    split_and!; [done|by rewrite <- !(assoc_L (++))|done..|by apply looks_app|done|done]. }
  eapply acts_bind; [apply acts_calls|]. intros [[]|e] l1 k1 [-> Hk1].
  2: { apply acts_ret. apply acceptance_refused; [rewrite !app_nil_r; by apply clean_app| |done]. right.
       by apply (Hconfirmed _ k1 [] ""); [|done|left]. }
  eapply acts_bind; [apply acts_calls|]. intros [[]|e] l2 k2 [-> Hk2]; apply acts_ret.
  - split_and!; [rewrite !app_nil_r; by apply clean_app|right; by apply (Hconfirmed _ k1 k2 (hi_Status report)); [|done|right]|done|].
    intros _. cbn. split_and!; [done|congruence|]. exists key. split; [|done]. apply elem_of_app. by left.
  - apply acceptance_refused; [rewrite !app_nil_r; by apply clean_app| |done]. right.
    by apply (Hconfirmed _ k1 k2 (hi_Status report)); [|done|right].
Qed.

(** C21: Accepting a host key changes no file unless the target showed, in two separate
    handshakes, a key with exactly the fingerprint that was given, and it is the key of
    the second that is recorded. No credential is sent to the target: only jump hosts are
    sent their own, after known_hosts trusted their keys; and every client that was
    opened is closed. Success is reported exactly when the key was accepted. *)
Theorem accepted_key_was_confirmed redirects c v expected s :
  ∃ l k, dl_log (a_dial (accept_ redirects c v expected s).2) = dl_log (a_dial s) ++ l ∧
    w_log (a_world (accept_ redirects c v expected s).2) = k ++ w_log (a_world s) ∧
    acceptance redirects c v expected (accept_ redirects c v expected s).1 l k.
Proof. exact (accept_result redirects c v expected s). Qed.
End Facts.
