(* ===== verification/KnownHostsUpdateFacts.v ===== *)
(** * known_hosts is replaced as a whole, or only added to

    Whatever calls fail and whatever other processes do, except to the temporary file:
    replacing an entry installs the complete new content made of what the file was read
    to hold, or changes nothing; saving a new key only adds its entry. *)

From S2P Require Import Prelude GoStrings GoStringFacts GoErrors FailurePolicy MachineContract KnownHosts KnownHostsFacts FileWorld PrivateFiles PrivateFilesFacts HostKeyAccept.

Lemma extends_classifying {A} kind (m : P A) : extends m → extends (classifying kind m).
Proof. intros Hm w. specialize (Hm w). unfold classifying. by destruct (m w) as [[] ?]. Qed.

Lemma runs_classifying {A} kind I (m : P A) (Q : result A → assertion) :
  spec I m (λ r, match r with Ok a => Q (Ok a) | Fail e => Q (Fail (hostKeyFailure kind e)) end) →
  spec I (classifying kind m) Q.
Proof. intros Hm w Hw. specialize (Hm w Hw). unfold classifying. by destruct (m w) as [[] ?]. Qed.

Lemma classifying_or_untouched {A} d base kind I (m : P A) (Q : A → assertion) :
  spec I m (or_untouched d base Q) → spec I (classifying kind m) (or_untouched d base Q).
Proof. intros Hm. apply runs_classifying. eapply runs_post; [|exact Hm]. by intros [a|e]. Qed.

Section Extends.
Context (sched : nat → Event).

Lemma extends_create_temp n d prefix suffix : extends (create_temp sched n d prefix suffix).
Proof.
  induction n as [|n IH]; cbn [create_temp]; [apply extends_fail|].
  apply extends_bind; [apply extends_attempt, extends_call|]. intros [found|e]; [apply extends_ret|].
  destruct (is_sentinel e EEXIST); [done|apply extends_fail].
Qed.

Lemma extends_Write i data : extends (Write sched i data).
Proof.
  unfold Write. generalize (length data). intros n. revert data.
  induction n as [|n IH]; intros [|b data]; cbn [write_loop]; try apply extends_ret; [apply extends_fail|].
  apply extends_bind; [apply extends_call|]. intros k. apply IH.
Qed.

Lemma extends_Remove_path d name : extends (Remove_path sched d name).
Proof.
  unfold Remove_path. apply extends_bind; [apply extends_attempt, extends_call|]. intros [[]|e]; [apply extends_ret|].
  apply extends_bind; [apply extends_attempt, extends_call|]. intros [[]|e']; [apply extends_ret|apply extends_fail].
Qed.
End Extends.

Section Replace.
Context `{K : SshKeys} `{!KnownHostsPackage} `{!HostNameHash}.
Context (sched : nat → Event) (p : Path) (token : string) (key : PublicKey).
Context (Hspares : ∀ d t fs, spares d (drawn sched known_hosts_temp "") fs (ev_env (sched t) fs)).

(** The file made of what the known_hosts file was read to hold, with its permissions. *)
Definition replacement (d : N) (name : string) (o : object) (l : steps) : Prop :=
  ∃ original info,
    met (λ fs, stat_path fs d name = Ok info) l ∧ met (λ fs, read_path fs d name = Ok original) l ∧
    o = mkObject Regular (bytes_of_string (replaced_content (string_of_bytes original) token key)) (perm (st_perm info)).

(** The known_hosts file: what its path resolves to. *)
Definition known_hosts_place (l : steps) (place : N * string) : Prop :=
  place = (p_in p, p_base p) ∨ met (λ fs, resolve_path fs p = Ok place) l.

Lemma known_hosts_place_app l l' place : known_hosts_place l place → known_hosts_place (l' ++ l) place.
Proof. intros [?|?]; [by left|right]. by apply met_app. Qed.

(** The call saw what it returned. *)
Lemma runs_query_met {A} I (f : FS → result A) (rely : FS → FS → Prop) (Q : result A → assertion) :
  (∀ t fs, rely fs (ev_env (sched t) fs)) → Stable rely I →
  (∀ fs l e, I fs l → Q (Fail e) fs ((fs, fs) :: l)) →
  (∀ fs l a, I fs l → met (λ fs, f fs = Ok a) ((fs, fs) :: l) → Q (Ok a) fs ((fs, fs) :: l)) →
  spec I (query sched f) Q.
Proof.
  intros Hrely HI He Ha. apply (runs_query _ rely Hrely); [done|]. intros fs l Hl. split; [intros err; by apply He|].
  destruct (f fs) as [a|e] eqn:Hf; [|by apply He]. apply Ha; [done|]. exists (fs, fs). split; [left|done].
Qed.

Section Place.
Context (d : N) (name : string) (Hname : ∀ tmp, drawn sched known_hosts_temp "" tmp → tmp ≠ name).

Definition staged_tail (tmp : N) (tmpPath : string) (mode : Z) (updated : bytes) : P () :=
  _ ← classifying SSHDirectoryPermissionsFailed (Chmod sched tmp mode);
  _ ← classifying KnownHostsUnchanged (Write sched tmp updated);
  _ ← classifying KnownHostsUnchanged (Sync sched tmp);
  _ ← classifying KnownHostsUnchanged (Close sched tmp);
  classifying KnownHostsUnchanged (Renameat sched d tmpPath d name).

Lemma runs_staged_tail tmp tmpPath mode updated : drawn sched known_hosts_temp "" tmpPath →
  spec (staging d name tmpPath tmp (mkObject Regular [] 384)) (staged_tail tmp tmpPath mode updated)
    (or_untouched d name (λ _, logged (replaced_once d name (mkObject Regular updated mode)))).
Proof.
  intros Ht. unfold staged_tail. eapply staging_bind; [by eapply classifying_or_untouched, staged_Chmod|intros []].
  eapply staging_bind; [by eapply classifying_or_untouched, staged_Write|intros []].
  eapply staging_bind; [eapply classifying_or_untouched, staged_calm_call; [exact Ht|intros; by eapply calm_Sync]|intros []].
  eapply staging_bind; [eapply classifying_or_untouched, staged_calm_call; [exact Ht|intros; by eapply calm_Close]|intros []].
  eapply classifying_or_untouched. by eapply staged_Rename.
Qed.

Lemma runs_replacement info original :
  let updated := bytes_of_string (replaced_content (string_of_bytes original) token key) in
  spec (logged (untouched d name))
    ('(tmp, tmpPath) ← classifying SSHDirectoryPermissionsFailed (CreateTempIn sched d known_hosts_temp "");
     remove_unless_committed sched d tmpPath (staged_tail tmp tmpPath (perm (st_perm info)) updated))
    (or_untouched d name (λ _, logged (replaced_once d name (mkObject Regular updated (perm (st_perm info)))))).
Proof.
  intros updated. eapply staging_bind; [by eapply classifying_or_untouched, runs_create_temp|].
  intros [tmp tmpPath]. apply runs_pure. intros Ht. unfold remove_unless_committed.
  eapply runs_finally; [by apply runs_staged_tail|]. intros [[]|e]; cbn [on_fail]; [by apply survives_ret|].
  eapply logged_Remove_path; [by apply Hspares|apply _|by apply Hname].
Qed.
End Place.

(** What replacing leaves at the place of the file. *)
Definition outcome (d : N) (name : string) (r : result ()) (l : steps) : Prop :=
  match r with
  | Ok _ => ∃ o, replacement d name o l ∧ replaced_once d name o l
  | Fail _ => untouched d name l
  end.

(** The program once the place is known. *)
Definition replace_at (d : N) (name : string) : P () :=
  info ← classifying KnownHostsPermissionsFailed (Stat_path sched d name);
  original ← classifying KnownHostsPermissionsFailed (ReadFile sched d name);
  let updated := bytes_of_string (replaced_content (string_of_bytes original) token key) in
  '(tmp, tmpPath) ← classifying SSHDirectoryPermissionsFailed (CreateTempIn sched d known_hosts_temp "");
  remove_unless_committed sched d tmpPath (staged_tail d name tmp tmpPath (perm (st_perm info)) updated).

Lemma extends_staged_tail d name tmp tmpPath mode updated : extends (staged_tail d name tmp tmpPath mode updated).
Proof.
  unfold staged_tail. repeat (apply extends_bind; [apply extends_classifying|intros []]).
  all: try apply extends_classifying.
  all: first [apply extends_Write | apply extends_call].
Qed.

Lemma extends_staging d name mode updated : extends
  ('(tmp, tmpPath) ← classifying SSHDirectoryPermissionsFailed (CreateTempIn sched d known_hosts_temp "");
   remove_unless_committed sched d tmpPath (staged_tail d name tmp tmpPath mode updated)).
Proof.
  apply extends_bind; [apply extends_classifying, extends_create_temp|]. intros [tmp tmpPath].
  apply extends_finally; [apply extends_staged_tail|]. intros [[]|e]; [apply extends_ret|apply extends_Remove_path].
Qed.

Lemma extends_replace_at d name : extends (replace_at d name).
Proof.
  unfold replace_at. apply extends_bind; [apply extends_classifying, extends_query|]. intros info.
  apply extends_bind; [apply extends_classifying, extends_query|]. intros original. apply extends_staging.
Qed.

Lemma runs_replace_at d name :
  (∀ tmp, drawn sched known_hosts_temp "" tmp → tmp ≠ name) →
  spec (logged (untouched d name)) (replace_at d name) (λ r _ l, outcome d name r l).
Proof.
  intros Hname. unfold replace_at.
  assert (∀ t fs, (λ _ _, True : Prop) fs (ev_env (sched t) fs)) as Hany by done.
  assert (∀ l fs, untouched d name l → untouched d name ((fs, fs) :: l)) as Hsame.
  { intros l fs Hl. apply Forall_cons. split; [apply left_alone_refl|done]. }
  apply (runs_bind _ _ _ (λ info _ l, met (λ fs, stat_path fs d name = Ok info) l ∧ untouched d name l)).
  { apply runs_classifying. apply (runs_query_met _ _ _ _ Hany); [by intros ? ? ?| |].
    - intros fs l e. apply Hsame.
    - intros fs l info Hl Hmet. by split; [|apply Hsame]. }
  intros info. apply (runs_bind _ _ _ (λ original _ l, (met (λ fs, stat_path fs d name = Ok info) l ∧
    met (λ fs, read_path fs d name = Ok original) l) ∧ untouched d name l)).
  { apply runs_classifying. apply (runs_query_met _ _ _ _ Hany); [by intros ? ? ?| |].
    - intros fs l e [_ Hl]. by apply Hsame.
    - intros fs l original [Hinfo Hl] Hmet. split; [split; [by apply (met_app _ _ [_])|done]|by apply Hsame]. }
  intros original. pose proof (runs_replacement d name Hname info original) as Hrun. cbn zeta in Hrun.
  pose proof (runs_with (λ l, met (λ fs, stat_path fs d name = Ok info) l ∧ met (λ fs, read_path fs d name = Ok original) l)
    _ _ _ (λ l l' HX, conj (met_app _ _ l' (proj1 HX)) (met_app _ _ l' (proj2 HX))) (extends_staging _ _ _ _) Hrun) as Hspec.
  eapply runs_post; [|exact Hspec].
  intros [[]|e] fs l [[Hinfo Horig] Hl]; [|exact Hl]. eexists. split; [by exists original, info|exact Hl].
Qed.

Lemma runs_replaceKnownHost : spec (λ _ l, l = []) (replaceKnownHost sched p token key) (λ r _ l,
  ∃ d name, known_hosts_place l (d, name) ∧
    ((∀ tmp, drawn sched known_hosts_temp "" tmp → tmp ≠ name) → outcome d name r l)).
Proof.
  assert (∀ t fs, (λ _ _, True : Prop) fs (ev_env (sched t) fs)) as Hany by done.
  unfold replaceKnownHost. apply (runs_bind _ _ _ (λ resolved _ l,
    known_hosts_place l (match resolved with Ok place => place | Fail _ => (p_in p, p_base p) end) ∧
    ∀ d name, untouched d name l)).
  { apply runs_attempt. apply (runs_query_met _ _ _ _ Hany); [by intros ? ? ?| |].
    - intros fs l e ->. split; [by left|]. intros d name. apply Forall_singleton, left_alone_refl.
    - intros fs l place -> Hmet. split; [by right|]. intros d name. apply Forall_singleton, left_alone_refl. }
  intros resolved. set (place := match resolved with Ok place => place | Fail _ => _ end).
  destruct place as [d name]. intros w [Hplace Hl].
  change (let '(r, w') := replace_at d name w in ∃ d name, known_hosts_place (w_log w') (d, name) ∧
    ((∀ tmp, drawn sched known_hosts_temp "" tmp → tmp ≠ name) → outcome d name r (w_log w'))).
  destruct (extends_replace_at d name w) as [l' Hlog]. pose proof (λ Hname, runs_replace_at d name Hname w (Hl d name)) as Hrun.
  destruct (replace_at d name w) as [r w']. exists d, name. split; [|exact Hrun].
  cbn in Hlog. rewrite Hlog. by apply known_hosts_place_app.
Qed.

(** C20: When accepting a changed key succeeds, one call installed the complete new
    known_hosts file, made of what the file was read to hold and with its permissions,
    and no other call changed what is there; when it fails, known_hosts was not changed. *)
Theorem replaceKnownHost_is_atomic w r w' :
  w_log w = [] → replaceKnownHost sched p token key w = (r, w') →
  ∃ d name, known_hosts_place (w_log w') (d, name) ∧
    ((∀ tmp, drawn sched known_hosts_temp "" tmp → tmp ≠ name) → outcome d name r (w_log w')).
Proof. intros Hlog Hrun. pose proof (runs_replaceKnownHost w Hlog) as Hspec. by rewrite Hrun in Hspec. Qed.
End Replace.

(** ** Saving a new host key only adds to known_hosts

    When nobody else writes the file: what it held stays in front; a save that succeeds
    added the entry on a line of its own, one that fails a part of it or nothing. *)

Section Save.
Context `{K : SshKeys} `{!KnownHostsPackage} `{!HostNameHash}.
Context (sched : nat → Event) (p : Path) (token : string) (key : PublicKey).

(** What known_hosts holds: [None] when there is no file. *)
Definition holds (content : option bytes) (fs : FS) : Prop :=
  match content with
  | None => entry fs (p_in p) (p_base p) = None
  | Some c => ∃ i o, open_at fs (p_in p) (p_base p) = Ok i ∧ fs_objects fs !! i = Some o ∧ o_kind o ≠ Directory ∧ o_content o = c
  end.
(** Nobody else changes what it holds. *)
Definition undisturbed (fs fs' : FS) : Prop :=
  ∀ c i, (holds c fs → holds c fs') ∧ (open_at fs (p_in p) (p_base p) = Ok i → open_at fs' (p_in p) (p_base p) = Ok i).
Context (Hrely : ∀ t fs, undisturbed fs (ev_env (sched t) fs)).
Context (Hdir : p_dir p ≠ (p_in p, p_base p)).

Definition known_entry : bytes := bytes_of_string (knownhosts_Line token key) ++ newline.
Definition content_of (content : option bytes) : bytes := default [] content.
(** Whether the file's last line lacks its line break. *)
Definition unfinished (c : bytes) : bool := negb (bool_decide (c = [])) && bool_decide (drop (length c - 1) c ≠ newline).

(** The open file [i] and what it holds. *)
Definition opened (i : N) (c : bytes) : assertion := λ fs _,
  open_at fs (p_in p) (p_base p) = Ok i ∧ ∃ o, fs_objects fs !! i = Some o ∧ o_kind o ≠ Directory ∧ o_content o = c.
Definition holding (content : option bytes) : assertion := λ fs _, holds content fs.

Lemma opened_holding i c fs l : opened i c fs l → holding (Some c) fs l.
Proof. intros (Ho & o & ?). by exists i, o. Qed.

Lemma holding_stable content : Stable undisturbed (holding content).
Proof. intros fs fs' l Hh Hr. by apply (Hr content 0%N). Qed.
Lemma opened_stable i c : Stable undisturbed (opened i c).
Proof.
  intros fs fs' l [Hopen Ho] Hr. destruct (Hr (Some c) i) as [Hh Hi]. specialize (Hi Hopen). split; [done|].
  destruct Hh as (i' & o & Hopen' & ?); [by exists i; destruct Ho as (o & ?); exists o|].
  assert (i' = i) as -> by congruence. by exists o.
Qed.

Lemma open_at_update fs g i d name :
  (∀ o, o_kind (g o) = o_kind o) → open_at (update_object g i fs) d name = open_at fs d name.
Proof.
  intros Hg. unfold open_at, stat_at. change (entry (update_object g i fs)) with (entry fs).
  destruct (entry fs d name) as [j|]; [|done]. cbn. unfold stat_object. cbn.
  destruct (decide (i = j)) as [<-|]; [rewrite lookup_alter_eq|by rewrite lookup_alter_ne].
  destruct (fs_objects fs !! i) as [o|]; [|done]. cbn. by rewrite Hg.
Qed.

Lemma opened_update g i j c c' fs l : (∀ o, o_kind (g o) = o_kind o) →
  (∀ o, o_content o = c → o_content (g o) = if bool_decide (i = j) then c' else o_content o) →
  opened i c fs l → opened i (if bool_decide (i = j) then c' else c) (update_object g j fs) l.
Proof.
  intros Hg Hc (Hopen & o & Ho & Hk & Hoc). split; [by rewrite open_at_update|]. cbn. case_bool_decide as Hij.
  - subst j. exists (g o). rewrite lookup_alter_eq, Ho. split_and!; [done|by rewrite Hg|by apply Hc].
  - exists o. by rewrite lookup_alter_ne.
Qed.

(** Calls that change nothing but modes keep what the file holds. *)
Lemma opened_chmod_object mode i j c fs l : opened i c fs l → opened i c (update_object (chmod_object mode) j fs) l.
Proof.
  intros Ho. pose proof (opened_update (chmod_object mode) i j c c fs l) as Hupd. revert Hupd.
  case_bool_decide; intros Hupd; by apply Hupd.
Qed.

Lemma holds_chmod mode content j fs : holds content fs → holds content (update_object (chmod_object mode) j fs).
Proof.
  destruct content as [c|]; [|done]. intros (i & o & Hopen & Ho).
  destruct (opened_chmod_object mode i j c fs []) as (Hopen' & o' & Ho'); [by split; [|exists o]|]. by exists i, o'.
Qed.

Lemma holds_mkdir content i d name fs :
  (d, name) ≠ (p_in p, p_base p) → holds content fs → holds content (mkdir_as fs i d name).2.
Proof.
  intros Hne Hh. unfold mkdir_as. destruct (entry fs d name) eqn:Hentry; [done|].
  destruct (fs_objects fs !! i) eqn:Hi; [done|]. cbn [snd]. destruct content as [c|].
  2: { unfold holds, entry in *. cbn. by rewrite lookup_insert_ne. }
  destruct Hh as (j & o & Hopen & Ho & Hk & Hc). exists j, o.
  assert (i ≠ j) as Hij by by intros ->; rewrite Ho in Hi.
  split_and!; [|by cbn; rewrite lookup_insert_ne|done|done]. revert Hopen. unfold open_at, stat_at, entry in *. cbn.
  rewrite lookup_insert_ne by done. destruct (fs_entries fs !! (p_in p, p_base p)) as [k|]; [|done]. cbn.
  unfold stat_object. cbn. destruct (fs_objects fs !! k) as [ok|] eqn:Hok; [|done].
  rewrite lookup_insert_ne by (intros ->; congruence). rewrite Hok. cbn. destruct (o_kind ok) as [| |[[d' n']|]|]; try done.
  destruct (decide ((d', n') = (d, name))) as [[= -> ->]|Hn]; [by rewrite Hentry|by rewrite lookup_insert_ne].
Qed.

(** Assertions such calls keep. *)
Class Unwritten (I : assertion) : Prop := {
  unwritten_stable : Stable undisturbed I;
  unwritten_chmod mode j fs l : I fs l → I (update_object (chmod_object mode) j fs) l;
  unwritten_log fs l s : I fs l → I fs (s :: l);
}.
#[export] Instance holding_unwritten content : Unwritten (holding content).
Proof. split; [apply holding_stable|intros; by apply holds_chmod|done]. Qed.
#[export] Instance opened_unwritten i c : Unwritten (opened i c).
Proof. split; [apply opened_stable|intros; by apply opened_chmod_object|done]. Qed.

Lemma unwritten_query {A} I (f : FS → result A) : Unwritten I → keeps I (query sched f).
Proof. intros HI. apply (runs_query _ _ Hrely); [apply HI|]. intros fs l Hl. split; [intros err|]; by apply HI. Qed.
Lemma unwritten_chmod_path I d name mode : Unwritten I → keeps I (Chmod_path sched d name mode).
Proof.
  intros HI. apply (runs_call _ _ Hrely); [apply HI|]. intros e fs l Hl. split; [intros err; by apply HI|].
  destruct (open_at fs d name); apply unwritten_log; [by apply unwritten_chmod|done].
Qed.

Ltac unwritten_step :=
  lazymatch goal with
  | |- keeps _ (mret _) => apply survives_ret
  | |- keeps _ (fail _) => apply survives_fail
  | |- keeps _ (require _ _) => apply survives_require
  | |- keeps _ (wrapping _ _) => apply survives_wrapping
  | |- keeps _ (attempt _) => apply survives_attempt
  | |- keeps _ (_ ≫= _) => apply survives_bind; [|intros ?]
  | |- keeps _ (Close _ _) => by apply unwritten_query
  | |- keeps _ (Fstatat _ _ _) => by apply unwritten_query
  | |- keeps _ (Stat_path _ _ _) => by apply unwritten_query
  | |- keeps _ (Chmod_path _ _ _ _) => by apply unwritten_chmod_path
  | |- keeps _ (match ?x with _ => _ end) => destruct x
  end.
Ltac unwritten_steps := repeat unwritten_step.

Lemma unwritten_RestrictFile I d name : Unwritten I → keeps I (RestrictFile sched d name).
Proof. intros HI. unfold RestrictFile, VerifyFile, requirePathType. unwritten_steps. Qed.
Lemma unwritten_RestrictDirectory I d name : Unwritten I → keeps I (RestrictDirectory sched d name).
Proof. intros HI. unfold RestrictDirectory, VerifyDirectory, requirePathType. unwritten_steps. Qed.

Lemma holding_MkdirAll content : keeps (holding content) (MkdirAll sched p).
Proof.
  unfold MkdirAll. destruct (p_dir p) as [d name] eqn:Hp. pose proof (holding_unwritten content). unwritten_steps.
  apply (runs_call _ _ Hrely); [apply holding_stable|]. intros ev fs l Hl. split; [done|]. apply holds_mkdir; [congruence|done].
Qed.

Lemma runs_OpenAppend content : spec (holding content) (OpenAppend sched (p_in p) (p_base p))
  (λ r, match r with Ok i => opened i (content_of content) | Fail _ => holding content end).
Proof.
  apply (runs_call _ _ Hrely); [apply holding_stable|]. intros _ fs l Hl. split; [done|].
  unfold open_append. destruct content as [c|]; cbn [holding holds content_of default] in *.
  - destruct Hl as (i & o & Hopen & Ho & Hk & Hc). assert (is_Some (entry fs (p_in p) (p_base p))) as [k ->].
    { unfold open_at, stat_at in Hopen. by destruct (entry fs (p_in p) (p_base p)). }
    cbn [fst snd]. rewrite Hopen. cbn. rewrite Ho. cbn. rewrite bool_decide_eq_true_2 by done. cbn. by split; [|exists o].
  - unfold holding, holds in Hl. rewrite Hl. unfold create_at. rewrite Hl. cbn [fst snd].
    unfold opened, open_at, stat_at, entry, stat_object. cbn. rewrite lookup_insert_eq. cbn. rewrite lookup_insert_eq. cbn.
    split; [done|]. by eexists.
Qed.

(** No call fails. *)
Definition nothing_fails : Prop := ∀ t, ev_fail (sched t) = None.

Lemma newline_length : length newline = 1.
Proof. done. Qed.

Lemma runs_unterminated i c : spec (opened i c) (unterminated sched i)
  (λ r fs l, opened i c fs l ∧ ∃ b, r = Ok b ∧ (nothing_fails → b = unfinished c)).
Proof.
  unfold unterminated. apply (runs_bind _ _ _ (λ size fs l, opened i c fs l ∧
    match size with Ok n => n = length c | Fail _ => ¬ nothing_fails end)).
  { apply runs_attempt. apply (runs_call_failing _ _ Hrely); [apply opened_stable|]. intros t fs l Hl. split.
    - intros err He. split; [by apply unwritten_log|]. intros Hno. by rewrite Hno in He.
    - pose proof Hl as (_ & o & Ho & _ & <-). cbn [fst snd]. rewrite Ho. cbn. by split; [apply unwritten_log|]. }
  intros [[|n]|e] w [Hl Hsize].
  - split; [done|]. exists false. split; [done|]. intros _. by destruct c.
  - revert w Hl. change (spec (opened i c) (last ← attempt (ReadAt sched i n 1);
      mret (match last with Ok last => bool_decide (last ≠ newline) | Fail _ => false end))
      (λ r fs l, opened i c fs l ∧ ∃ b, r = Ok b ∧ (nothing_fails → b = unfinished c))).
    apply (runs_bind _ _ _ (λ last fs l, opened i c fs l ∧
      match last with Ok last => last = drop n c | Fail _ => ¬ nothing_fails end)).
    + apply runs_attempt. apply (runs_call_failing _ _ Hrely); [apply opened_stable|]. intros t fs l Hl. split.
      * intros err He. split; [by apply unwritten_log|]. intros Hno. by rewrite Hno in He.
      * pose proof Hl as (_ & o & Ho & _ & <-). cbn [fst snd]. rewrite Ho. cbn [of_option mbind result_bind].
        split; [by apply unwritten_log|]. rewrite take_ge; [done|]. rewrite length_drop. lia.
    + intros [last|e] w [Hl Hlast]; (split; [done|]; eexists; split; [done|]); intros Hno; [|by destruct Hlast].
      subst last. unfold unfinished. rewrite <- Hsize. rewrite (bool_decide_eq_false_2 (c = [])) by by intros ->.
      cbn [negb andb]. by replace (S n - 1) with n by lia.
  - split; [done|]. exists false. split; [done|]. intros Hno. by destruct Hsize.
Qed.

Lemma runs_open_append i c data : spec (opened i c) (Write sched i data) (λ r,
  match r with
  | Ok _ => opened i (c ++ data)
  | Fail _ => λ fs l, ∃ part rest, data = part ++ rest ∧ opened i (c ++ part) fs l
  end).
Proof.
  unfold Write. assert (length data ≤ length data) as Hn by done. revert Hn. generalize (length data) at 2 3. intros n.
  revert c data. induction n as [|n IH]; intros c [|b data] Hn; cbn [length] in Hn; [|lia| |]; cbn [write_loop].
  1,2: intros w Hw; cbn [mret P_ret]; by rewrite app_nil_r.
  set (more := b :: data). apply (runs_bind _ _ _ (λ k fs l, 1 ≤ k ∧ opened i (c ++ take k more) fs l)).
  - apply (runs_call _ _ Hrely); [apply opened_stable|]. intros ev fs l Hl. split.
    { intros err. exists [], more. split; [done|]. rewrite app_nil_r. by apply unwritten_log. }
    cbn [fst snd]. split; [subst more; cbn [length]; lia|]. set (k := length more `min` S (ev_size ev)).
    apply unwritten_log. pose proof (opened_update (append_object (take k more)) i i c (c ++ take k more) fs l) as Hupd.
    rewrite bool_decide_eq_true_2 in Hupd by done. apply Hupd; [done| |exact Hl].
    intros o <-. by rewrite append_object_extended.
  - intros k w [Hk Hl]. assert (length (drop k more) ≤ n) as Hlen by (rewrite length_drop; subst more; cbn [length]; lia).
    specialize (IH (c ++ take k more) (drop k more) Hlen w Hl). destruct (write_loop sched n i (drop k more) w) as [[[]|e] w'].
    + by rewrite <- (assoc_L (++)), take_drop in IH.
    + destruct IH as (part & rest & Heq & Ho). exists (take k more ++ part), rest.
      rewrite <- (assoc_L (++)), <- Heq, take_drop. split; [done|]. by rewrite (assoc_L (++)).
Qed.

(** The bytes a save adds. *)
Definition added (glued : bool) : bytes := if glued then newline ++ known_entry else known_entry.

Definition saved (content : option bytes) (r : result ()) (fs : FS) : Prop :=
  match r with
  | Ok _ => ∃ glued, (nothing_fails → glued = unfinished (content_of content)) ∧ holds (Some (content_of content ++ added glued)) fs
  | Fail _ => holds content fs ∨ ∃ glued part rest, added glued = part ++ rest ∧ holds (Some (content_of content ++ part)) fs
  end.

Lemma runs_saveHostKey content :
  spec (holding content) (saveHostKey sched p token key) (λ r fs _, saved content r fs).
Proof.
  assert (∀ {B} (m : P B), keeps (holding content) m →
    spec (holding content) m (λ r, match r with Ok _ => holding content | Fail e => λ fs _, saved content (Fail e) fs end)) as Hbefore.
  { intros B m Hm. eapply runs_post; [|exact Hm]. intros [b|e] fs l Hl; [done|by left]. }
  unfold saveHostKey. apply (runs_bind _ _ _ (λ _, holding content)); [apply Hbefore, holding_MkdirAll|]. intros [].
  apply (runs_bind _ _ _ (λ _, holding content)); [by apply Hbefore, unwritten_RestrictDirectory; apply _|]. intros [].
  set (c := content_of content). apply (runs_bind _ _ _ (λ i, opened i c)).
  { eapply runs_post; [|apply runs_OpenAppend]. intros [i|e] fs l Hl; [done|by left]. }
  intros i. apply (runs_bind _ _ _ (λ b fs l, (nothing_fails → b = unfinished c) ∧ opened i c fs l)).
  { eapply runs_post; [|apply runs_unterminated]. intros r fs l (Hl & b & -> & Hb). by split. }
  intros glued. apply runs_pure. intros Hglued. fold known_entry. fold (added glued).
  assert (∀ fs l part rest, added glued = part ++ rest → opened i (c ++ part) fs l →
    ∀ e, saved content (Fail e) fs) as Hpart.
  { intros fs l part rest Heq Ho e. right. exists glued, part, rest. split; [done|]. by eapply opened_holding. }
  apply (runs_bind _ _ _ (λ _, opened i (c ++ added glued))).
  { eapply runs_post; [|apply runs_open_append]. intros [[]|e] fs l Hl; [done|]. destruct Hl as (part & rest & Heq & Ho).
    by eapply Hpart. }
  intros []. assert (∀ {B} (m : P B), keeps (opened i (c ++ added glued)) m → spec (opened i (c ++ added glued)) m
    (λ r, match r with Ok _ => opened i (c ++ added glued) | Fail e => λ fs _, saved content (Fail e) fs end)) as Hafter.
  { intros B m Hm. eapply runs_post; [|exact Hm]. intros [b|e] fs l Hl; [done|].
    by apply (Hpart fs l (added glued) []); [rewrite app_nil_r|]. }
  apply (runs_bind _ _ _ (λ _, opened i (c ++ added glued))); [apply Hafter; by apply unwritten_query, _|]. intros [].
  eapply runs_post; [|apply Hafter; by apply unwritten_RestrictFile, _]. intros [[]|e] fs l Hl; [|done].
  exists glued. split; [done|]. by eapply opened_holding.
Qed.

(** ** The content as text *)

Lemma bytes_of_string_app s t : bytes_of_string (s +:+ t) = bytes_of_string s ++ bytes_of_string t.
Proof. induction s as [|a s IH]; [done|]. rewrite app_cons. by apply (f_equal (cons (Ascii.byte_of_ascii a))). Qed.

Lemma ends_with_newline_bytes c : ends_with_newline (string_of_bytes c) = true ↔ ∃ front, c = front ++ newline.
Proof.
  rewrite ends_with_newline_iff. split.
  - intros [b Hb]. exists (bytes_of_string b). rewrite <- (bytes_of_string_of_bytes c), Hb. apply bytes_of_string_app.
  - intros [front ->]. exists (string_of_bytes front). rewrite <- (string_of_bytes_of_string (_ +:+ LF1)).
    by rewrite bytes_of_string_app, bytes_of_string_of_bytes.
Qed.

Lemma unfinished_text c :
  unfinished c = negb (bool_decide (string_of_bytes c = "")) && negb (ends_with_newline (string_of_bytes c)).
Proof.
  unfold unfinished. f_equal.
  { f_equal. apply bool_decide_ext. split; [by intros ->|]. intros Hc.
    by rewrite <- (bytes_of_string_of_bytes c), Hc. }
  apply eq_bool_prop_intro. rewrite bool_decide_spec, negb_True, Is_true_true, ends_with_newline_bytes.
  split; intros Hc; [intros [front ->]|intros Hd]; apply Hc.
  - by rewrite length_app, newline_length, Nat.add_sub, drop_app_length.
  - exists (take (length c - 1) c). by rewrite <- Hd, take_drop.
Qed.

Lemma added_text c :
  c ++ added (unfinished c) = bytes_of_string (saved_content (string_of_bytes c) token key).
Proof.
  unfold saved_content. rewrite <- unfinished_text, !bytes_of_string_app, bytes_of_string_of_bytes. f_equal.
  unfold added, known_entry. by destruct (unfinished c).
Qed.

(** Saving a key of a new endpoint only adds to known_hosts, when nobody else writes
    it: if it succeeds, the entry follows what the file held, on a line of its own
    (unless looking at the last byte failed); if it fails, the file holds what it held
    and at most a part of the entry. *)
Theorem saveHostKey_only_adds content w r w' :
  holds content (w_fs w) → saveHostKey sched p token key w = (r, w') →
  match r with
  | Ok _ => ∃ c, holds (Some c) (w_fs w') ∧ content_of content `prefix_of` c ∧
      (nothing_fails → c = bytes_of_string (saved_content (string_of_bytes (content_of content)) token key))
  | Fail _ => holds content (w_fs w') ∨ ∃ glued part rest,
      added glued = part ++ rest ∧ holds (Some (content_of content ++ part)) (w_fs w')
  end.
Proof.
  intros Hh Hrun. pose proof (runs_saveHostKey content w Hh) as Hspec. rewrite Hrun in Hspec.
  destruct r as [[]|e]; [|exact Hspec]. destruct Hspec as (glued & Hglued & Hc). eexists. split; [exact Hc|].
  split; [by apply prefix_app_r|]. intros Hno. by rewrite Hglued, added_text.
Qed.
End Save.
