(* ===== verification/PrivateFilesExamples.v ===== *)
(** * Private files and known_hosts on concrete file systems *)

From Stdlib Require Import Strings.Byte.
From stdpp Require Import pretty.
From S2P Require Import Prelude GoStrings GoErrors Config JumpChain Redaction RedactionFacts FailurePolicy MachineContract SyncProtocol KnownHosts KnownHostsFacts SshDial SshDialFacts RemoteExamples FileWorld PrivateFiles PrivateFilesFacts HostKeyAccept KnownHostsUpdateFacts HostKeyAcceptFacts.

#[local] Existing Instance ascii_case.
#[local] Existing Instance plain_keys.
#[local] Existing Instance plain_known_hosts.
#[local] Existing Instance plain_hash.
#[local] Existing Instance flaky_laws.

Definition lf : string := String (char 10) "".

(** The home directory 1 has the directory 2, [.ssh], with known_hosts, the object 3. *)
Definition ssh_fs (known_hosts : string) : FS := mkFS
  (list_to_map [(1%N, mkObject Directory [] 493); (2%N, mkObject Directory [] 448);
                (3%N, mkObject Regular (bytes_of_string known_hosts) 384)])
  (list_to_map [((1%N, ".ssh"), 2%N); ((2%N, "known_hosts"), 3%N)]) 1 false.
Definition known_path : Path := mkPath (1%N, ".ssh") 2 "known_hosts".

Definition still : Event := mkEvent (λ fs, fs) None "7" 4.
Definition failing (n : nat) : nat → Event := λ time,
  if time =? n then mkEvent (λ fs, fs) (Some EPERM) "7" 4 else still.

Definition file_text (fs : FS) (d : N) (name : string) : option string :=
  match open_at fs d name with
  | Ok i => (λ o, string_of_bytes (o_content o)) <$> fs_objects fs !! i
  | Fail _ => None
  end.
Definition start (fs : FS) : World := mkWorld fs 0 [].

(** ** Private files *)

Definition settings : Path := mkPath (1%N, ".ssh") 2 "config.json".
Definition new_settings : bytes := bytes_of_string "{}".
Abbreviation settings_run := (WritePrivateFile (λ _, still) settings new_settings (start (ssh_fs ""))).

Example settings_written : (is_ok settings_run.1, file_text (w_fs settings_run.2) 2 "config.json") = (true, Some "{}").
Proof. by vm_compute. Qed.

(** The rename fails: nothing is there, and the temporary file is gone. *)
Abbreviation settings_failed := (WritePrivateFile (failing 11) settings new_settings (start (ssh_fs ""))).
Example settings_not_written :
  (is_ok settings_failed.1, file_text (w_fs settings_failed.2) 2 "config.json",
   length (map_to_list (fs_entries (w_fs settings_failed.2)))) = (false, None, 2).
Proof. by vm_compute. Qed.

(** Making it durable fails: an error, and the new content is there. *)
Example settings_not_durable :
  let r := WritePrivateFile (failing 16) settings new_settings (start (ssh_fs "")) in
  (is_ok r.1, file_text (w_fs r.2) 2 "config.json") = (false, Some "{}").
Proof. by vm_compute. Qed.

Lemma settings_apart : p_dir settings ≠ (p_in settings, p_base settings).
Proof. done. Qed.
Lemma known_path_apart : p_dir known_path ≠ (p_in known_path, p_base known_path).
Proof. done. Qed.
Lemma still_spares d names time n fs : spares d names fs (ev_env (failing n time) fs).
Proof. unfold failing. destruct (time =? n); by intros tmp i o _ Hstaged. Qed.

Lemma WritePrivateFile_is_atomic_witness :
  ∃ r w', WritePrivateFile (failing 11) settings new_settings (start (ssh_fs "")) = (r, w') ∧
    whole 2 "config.json" (private_file new_settings) r (w_fs w') (w_log w').
Proof.
  destruct (WritePrivateFile (failing 11) settings new_settings (start (ssh_fs ""))) as [r w'] eqn:Hrun.
  exists r, w'. split; [done|].
  exact (WritePrivateFile_is_atomic (failing 11) settings (λ time fs, still_spares _ _ time 11 fs)
    settings_apart new_settings (start (ssh_fs "")) r w' eq_refl Hrun).
Defined.

(** ** known_hosts *)

Definition old_line : string := "10.0.0.2:22 ssh-ed25519 OLD" +:+ lf.
Definition other_line : string := "10.0.0.9:22 ssh-ed25519 XX" +:+ lf.
Definition new_line : string := "10.0.0.2:22 ssh-ed25519 BBBB" +:+ lf.
Definition shown_key : @PublicKey plain_keys := ("ssh-ed25519", "BBBB").

Abbreviation replaced n fs := (replaceKnownHost (failing n) known_path "10.0.0.2:22" shown_key (start fs)).

Example replaced_in_place :
  let r := replaced 99 (ssh_fs (old_line +:+ other_line)) in
  (is_ok r.1, file_text (w_fs r.2) 2 "known_hosts") = (true, Some (other_line +:+ new_line)).
Proof. by vm_compute. Qed.

Lemma replaceKnownHost_is_atomic_witness :
  ∃ r w', replaced 99 (ssh_fs old_line) = (r, w') ∧
  ∃ d name, known_hosts_place known_path (w_log w') (d, name) ∧
    ((∀ tmp, drawn (failing 99) known_hosts_temp "" tmp → tmp ≠ name) →
     outcome "10.0.0.2:22" shown_key d name r (w_log w')).
Proof.
  destruct (replaced 99 (ssh_fs old_line)) as [r w'] eqn:Hrun. exists r, w'. split; [done|].
  exact (replaceKnownHost_is_atomic (failing 99) known_path "10.0.0.2:22" shown_key
    (λ d time fs, still_spares d _ time 99 fs) (start (ssh_fs old_line)) r w' eq_refl Hrun).
Defined.

(** Between the reading and the rename another process appends an entry: it is lost. *)
Definition append_other (fs : FS) : FS := update_object (append_object (bytes_of_string other_line)) 3 fs.
Definition appending (n : nat) : nat → Event := λ time,
  if time =? n then mkEvent append_other None "7" 4 else still.
Example concurrent_entry_is_lost :
  let r := replaceKnownHost (appending 5) known_path "10.0.0.2:22" shown_key (start (ssh_fs old_line)) in
  (is_ok r.1, file_text (w_fs r.2) 2 "known_hosts") = (true, Some new_line).
Proof. by vm_compute. Qed.

(** Saving next to other entries, the last of which has no line break. *)
Abbreviation saved_run n fs := (saveHostKey (failing n) known_path "10.0.0.2:22" shown_key (start fs)).
Example saved_on_its_own_line :
  let r := saved_run 99 (ssh_fs "10.0.0.9:22 ssh-ed25519 XX") in
  (is_ok r.1, file_text (w_fs r.2) 2 "known_hosts") = (true, Some (other_line +:+ new_line)).
Proof. by vm_compute. Qed.

Lemma still_undisturbed time n fs : undisturbed known_path fs (ev_env (failing n time) fs).
Proof. unfold failing. destruct (time =? n); intros c i; by split. Qed.

Lemma saveHostKey_only_adds_witness :
  let r := saved_run 99 (ssh_fs other_line) in
  is_ok r.1 = true ∧
  match r.1 with
  | Ok _ => ∃ c, holds known_path (Some c) (w_fs r.2) ∧ bytes_of_string other_line `prefix_of` c ∧
      (nothing_fails (failing 99) → c = bytes_of_string (saved_content (string_of_bytes (bytes_of_string other_line)) "10.0.0.2:22" shown_key))
  | Fail _ => holds known_path (Some (bytes_of_string other_line)) (w_fs r.2) ∨ ∃ glued part rest,
      added "10.0.0.2:22" shown_key glued = part ++ rest ∧
      holds known_path (Some (bytes_of_string other_line ++ part)) (w_fs r.2)
  end.
Proof.
  split; [by vm_compute|]. destruct (saved_run 99 (ssh_fs other_line)) as [r w'] eqn:Hrun. cbn [fst snd].
  assert (holds known_path (Some (bytes_of_string other_line)) (ssh_fs other_line)) as Hholds.
  { exists 3%N, (mkObject Regular (bytes_of_string other_line) 384). by split_and!. }
  exact (saveHostKey_only_adds (failing 99) known_path "10.0.0.2:22" shown_key (λ time fs, still_undisturbed time 99 fs)
    known_path_apart (Some (bytes_of_string other_line)) (start (ssh_fs other_line)) r w' Hholds Hrun).
Defined.

(** known_hosts is a symbolic link: the key is added, and saving reports a failure. *)
Definition linked_fs : FS := mkFS
  (list_to_map [(1%N, mkObject Directory [] 493); (2%N, mkObject Directory [] 448);
                (3%N, mkObject (Symlink (Some (4%N, "hosts"))) [] 511); (4%N, mkObject Directory [] 493);
                (5%N, mkObject Regular (bytes_of_string other_line) 384)])
  (list_to_map [((1%N, ".ssh"), 2%N); ((2%N, "known_hosts"), 3%N); ((4%N, "hosts"), 5%N)]) 1 false.
Example linked_known_hosts_is_reported_failed :
  let r := saved_run 99 linked_fs in
  (r.1, file_text (w_fs r.2) 2 "known_hosts") =
  (Fail (Errorf "private path is a symbolic link"), Some (other_line +:+ new_line)).
Proof. by vm_compute. Qed.
(** Replacing an entry goes through the link. *)
Example linked_known_hosts_is_replaced :
  let r := replaced 99 linked_fs in
  (is_ok r.1, file_text (w_fs r.2) 4 "hosts", file_text (w_fs r.2) 2 "known_hosts") =
  (true, Some (other_line +:+ new_line), Some (other_line +:+ new_line)).
Proof. by vm_compute. Qed.

(** ** Acceptance *)

Definition at_start (fs : FS) : Accepting := mkAccepting (mkDialing 2 []) (start fs).
Abbreviation accepted expected c fs :=
  (AcceptHostKeyWithVault shown false flaky no_key_error None (λ _, still) (Some "known_hosts") known_path ∅ c vault
     expected (at_start fs)).
Abbreviation db_direct := (host "db" "10.0.0.2" "").
Abbreviation db_behind := (host "db" "10.0.0.2" "bastion").

Example accepted_new_key :
  let '((report, err), s) := accepted "SHA256:BBBB" db_behind (ssh_fs other_line) in
  (hi_Accepted report, hi_Status report, err) = (true, "trusted", None) ∧
  file_text (w_fs (a_world s)) 2 "known_hosts" = Some (other_line +:+ new_line) ∧
  opens (dl_log (a_dial s)) = ["10.0.0.1:22"; "10.0.0.1:22"] ∧ closes (dl_log (a_dial s)) = opens (dl_log (a_dial s)).
Proof. vm_compute. by split_and!. Qed.

Example changed_key_replaces_the_old_one :
  let '((report, err), s) := accepted "SHA256:BBBB" db_direct (ssh_fs (old_line +:+ other_line)) in
  (hi_Accepted report, err, file_text (w_fs (a_world s)) 2 "known_hosts") = (true, None, Some (other_line +:+ new_line)).
Proof. by vm_compute. Qed.

Example other_fingerprint_is_refused :
  let '((report, err), s) := accepted "SHA256:AAAA" db_direct (ssh_fs old_line) in
  (hi_Accepted report, hi_Status report, file_text (w_fs (a_world s)) 2 "known_hosts") =
  (false, "mismatch", Some old_line) ∧
  err = Some (HostKeyFailed HostKeyFingerprintMismatch
    ("observed fingerprint " +:+ Quote "SHA256:BBBB" +:+ " does not match the explicitly accepted fingerprint")).
Proof. vm_compute. by split_and!. Qed.

Lemma accepted_key_was_confirmed_witness :
  let run := accepted "SHA256:BBBB" db_behind (ssh_fs other_line) in
  run.1.2 = None ∧
  ∃ l k, dl_log (a_dial run.2) = [] ++ l ∧ w_log (a_world run.2) = k ++ [] ∧
    acceptance flaky no_key_error (λ _, still) known_path ∅ db_behind vault "SHA256:BBBB" run.1 l k.
Proof.
  split; [by vm_compute|].
  exact (accepted_key_was_confirmed shown false flaky no_key_error None (λ _, still) (Some "known_hosts") known_path
    ∅ db_behind vault "SHA256:BBBB" (at_start (ssh_fs other_line))).
Defined.
