(* ===== verification/UnixReplace.v ===== *)
(** * Replacing the executable on Unix

    [replaceExecutable] (update/replace_other.go), the Linux commit
    (replace_commit_unix.go) and the Darwin and BSD commit by copy
    (replace_commit_copy_unix.go), as programs of system calls of FileWorld. The
    target is the name [target] in the parent directory; deferred calls run in the
    order of the code. *)

From S2P Require Import Prelude GoStrings GoErrors SyncProtocol Release FileWorld.

Section Replace.
Context `{!Sha256} (sched : nat → Event).

Abbreviation Stat_ := (FileWorld.Stat_ sched).
Abbreviation Chmod := (FileWorld.Chmod sched).
Abbreviation Sync := (FileWorld.Sync sched).
Abbreviation Seek := (FileWorld.Seek sched).
Abbreviation Copy := (FileWorld.Copy sched).
Abbreviation Fstatat := (FileWorld.Fstatat sched).
Abbreviation Linkat := (FileWorld.Linkat sched).
Abbreviation Unlinkat := (FileWorld.Unlinkat sched).
Abbreviation Renameat := (FileWorld.Renameat sched).
Abbreviation Lstat := (FileWorld.Lstat sched).

Definition unixCommitEntry : string := "authenticated-replacement".
Definition unixRollbackEntry : string := "original-target".
Definition unixDiscardedEntry : string := "discarded-replacement".

Definition copy_limit : N := Z.to_N (maxBinary + 1).

(** Hashes an open file against the digest, then inspects it. *)
Definition authenticateUnixReplacement (file : N) (expectedDigest : bytes) (expectedMode : Z) (expectedLinks : nat) :
    P () :=
  _ ← wrapping "rewind authenticated replacement" (Seek file);
  data ← wrapping "hash authenticated replacement" (Copy file None copy_limit);
  _ ← require (bool_decide (Z.of_nat (length data) ≤ maxBinary)%Z) (Errorf "authenticated replacement exceeds the limit");
  _ ← require (bool_decide (sha256 data = expectedDigest)) (Errorf "authenticated replacement digest changed before commit");
  info ← wrapping "inspect authenticated replacement" (Stat_ file);
  _ ← require (is_regular info) (Errorf "authenticated replacement is not a regular file");
  _ ← require (bool_decide (perm (st_perm info) = perm expectedMode)) (Errorf "authenticated replacement mode changed before commit");
  require (st_nlink info =? expectedLinks) (Errorf "authenticated replacement has other hard links").

Definition authenticateCanonicalUnixReplacement (source parent : N) (targetName : string) (expectedDigest : bytes)
    (expectedMode : Z) : P () :=
  _ ← authenticateUnixReplacement source expectedDigest expectedMode 1;
  canonical ← wrapping "inspect canonical replacement" (Fstatat parent targetName);
  sourceStat ← wrapping "inspect authenticated replacement source after rename" (Stat_ source);
  require (is_regular canonical && SameFile sourceStat canonical)
    (Errorf "canonical replacement is not the authenticated source object").

Definition removeUnixCommitEntry (directory : N) (name : string) : P () :=
  r ← attempt (Fstatat directory name);
  match r with
  | Fail e => if is_sentinel e ENOENT then mret () else fail e
  | Ok entry => Unlinkat directory name (is_dir entry)
  end.

Definition joined (es : list (option goerror)) : option goerror :=
  match omap id es with [] => None | es' => Some (Wrap "joined" es') end.
Definition error_of {A} (r : result A) : option goerror := match r with Ok _ => None | Fail e => Some e end.

(** Whether the original is back under its name, and what went wrong. *)
Definition restoreOriginalUnixTarget (commitDirectory parent : N) (targetName : string) :
    P (bool * option goerror) :=
  moved ← attempt (Renameat parent targetName commitDirectory unixDiscardedEntry);
  let displaceErr :=
    match moved with
    | Ok _ => None
    | Fail e => if is_sentinel e ENOENT then None else Some (Wrap "isolate changed canonical replacement" [e])
    end in
  cleaned ← match moved with
            | Ok _ => attempt (removeUnixCommitEntry commitDirectory unixDiscardedEntry)
            | Fail _ => mret (Ok ())
            end;
  restored ← attempt (Renameat commitDirectory unixRollbackEntry parent targetName);
  match restored with
  | Fail e => mret (false, joined [displaceErr; error_of cleaned; Some e])
  | Ok _ => mret (true, joined [displaceErr; error_of cleaned])
  end.

(** From the retained original to the rename. *)
Definition rename_retained (commitDirectory parent : N) (targetName : string) (original : Stat) : P () :=
  retained ← wrapping "inspect retained original replacement target" (Fstatat commitDirectory unixRollbackEntry);
  _ ← require (SameFile original retained && (st_nlink retained =? S (st_nlink original)))
        (Errorf "retained original replacement target changed before commit");
  wrapping "commit authenticated replacement" (Renameat commitDirectory unixCommitEntry parent targetName).

(** The rest of the commit once the original is linked: whether the deferred call
    still removes that link, and the result. *)
Definition commit_retained (source commitDirectory parent : N) (targetName : string) (original : Stat)
    (expectedDigest : bytes) (expectedMode : Z) : P (bool * result ()) :=
  renamed ← attempt (rename_retained commitDirectory parent targetName original);
  match renamed with
  | Fail e => mret (true, Fail e)
  | Ok _ =>
      let authenticate := authenticateCanonicalUnixReplacement source parent targetName expectedDigest expectedMode in
      authentication ← attempt (_ ← authenticate; authenticate);
      match authentication with
      | Ok _ => mret (true, Ok ())
      | Fail e =>
          '(restored, rollbackErr) ← restoreOriginalUnixTarget commitDirectory parent targetName;
          if (restored : bool)
          then mret (false, Fail (Wrap "exact original target restored" (e :: option_list rollbackErr)))
          else mret (false, Fail (Wrap "original evidence retained" [e]))
      end
  end.

Definition commitVerifiedUnixEntry (source commitDirectory parent : N) (targetName : string)
    (expectedDigest : bytes) (expectedMode : Z) : P () :=
  finally
    (original ← wrapping "inspect original replacement target" (Fstatat parent targetName);
     _ ← require (is_regular original) (Errorf "original replacement target is not a regular file");
     _ ← wrapping "retain exact original replacement target" (Linkat parent targetName commitDirectory unixRollbackEntry);
     '(rollbackLinked, r) ← commit_retained source commitDirectory parent targetName original expectedDigest expectedMode;
     _ ← if (rollbackLinked : bool) then attempt (Unlinkat commitDirectory unixRollbackEntry false) else mret (Ok ());
     lift r)
    (λ _, removeUnixCommitEntry commitDirectory unixDiscardedEntry).

(** ** The commit directory *)

(** Runs [body] in a fresh private directory, which is removed at the end if it is
    empty. *)
Definition in_commit_directory (parent : N) (targetName : string) (body : N → P ()) : P () :=
  '(_, commitDirectoryName) ← wrapping "create private replacement commit directory"
                                (MkdirTemp sched ("." +:+ targetName +:+ ".") ".commit");
  opened ← attempt (OpenDirAt sched parent commitDirectoryName);
  match opened with
  | Fail e => _ ← attempt (Unlinkat parent commitDirectoryName true);
              fail (Wrap "open private replacement commit directory" [e])
  | Ok commitDirectory =>
      finally
        (commitDirectoryInfo ← wrapping "inspect private replacement commit directory" (Stat_ commitDirectory);
         commitDirectoryPathInfo ← wrapping "inspect private replacement commit pathname" (Lstat commitDirectoryName);
         _ ← require (is_dir commitDirectoryInfo && bool_decide (perm (st_perm commitDirectoryInfo) = 448%Z) &&
                      SameFile commitDirectoryInfo commitDirectoryPathInfo)
               (Errorf "private replacement commit directory changed before binding");
         body commitDirectory)
        (λ _, Unlinkat parent commitDirectoryName true)
  end.

(** ** Linux: the staged object itself is linked and renamed *)

Definition bind_and_commit (install : N) (installName : string) (parent : N) (targetName : string)
    (expectedDigest : bytes) (expectedMode : Z) (commitDirectory : N) : P () :=
  _ ← wrapping "bind authenticated replacement descriptor" (LinkDescriptor sched install commitDirectory unixCommitEntry);
  finally
    (linkedInfo ← wrapping "inspect descriptor-bound replacement" (Stat_ install);
     _ ← require (st_nlink linkedInfo =? 2) (Errorf "descriptor-bound replacement has other hard links");
     installPathInfo ← wrapping "inspect authenticated replacement pathname at commit" (Lstat installName);
     _ ← require (is_regular installPathInfo && SameFile linkedInfo installPathInfo)
           (Errorf "authenticated replacement pathname changed at commit");
     _ ← wrapping "remove authenticated replacement staging name" (Unlinkat parent installName false);
     _ ← wrapping "authenticate descriptor-bound replacement" (authenticateUnixReplacement install expectedDigest expectedMode 1);
     commitFile ← wrapping "open descriptor-bound replacement entry" (OpenPathAt sched commitDirectory unixCommitEntry);
     commitInfo ← wrapping "inspect descriptor-bound replacement entry" (Stat_ commitFile);
     installInfo ← wrapping "reinspect authenticated replacement descriptor" (Stat_ install);
     _ ← require (is_regular commitInfo && SameFile installInfo commitInfo)
           (Errorf "descriptor-bound replacement entry changed before commit");
     wrapping "commit descriptor-bound replacement"
       (commitVerifiedUnixEntry install commitDirectory parent targetName expectedDigest expectedMode))
    (on_fail (Unlinkat commitDirectory unixCommitEntry false)).

Definition commitAuthenticatedUnixReplacement (install : N) (installName targetName : string)
    (expectedDigest : bytes) (expectedMode : Z) : P () :=
  parent ← wrapping "open replacement directory" (OpenParent sched);
  installInfo ← wrapping "inspect authenticated replacement descriptor" (Stat_ install);
  descriptorInfo ← wrapping "resolve authenticated replacement descriptor" (Stat_ install);
  _ ← require (SameFile installInfo descriptorInfo)
        (Errorf "replacement descriptor namespace did not resolve the authenticated object");
  in_commit_directory parent targetName
    (bind_and_commit install installName parent targetName expectedDigest expectedMode).

(** ** Darwin and the BSDs: a copy is committed *)

Definition copy_and_commit (install : N) (installName : string) (parent : N) (targetName : string)
    (expectedDigest : bytes) (expectedMode : Z) (commitDirectory : N) : P () :=
  commitFile ← wrapping "create descriptor-copy commit entry" (CreateAt sched commitDirectory unixCommitEntry 384%Z);
  finally
    (_ ← wrapping "rewind descriptor-copy source" (Seek install);
     data ← wrapping "copy authenticated replacement descriptor" (Copy install (Some commitFile) copy_limit);
     _ ← require (bool_decide (Z.of_nat (length data) ≤ maxBinary)%Z) (Errorf "authenticated replacement exceeds the limit");
     _ ← require (bool_decide (sha256 data = expectedDigest)) (Errorf "descriptor-copy replacement digest changed during copy");
     _ ← wrapping "set descriptor-copy replacement permissions" (Chmod commitFile (perm expectedMode));
     _ ← wrapping "sync descriptor-copy replacement" (Sync commitFile);
     _ ← wrapping "authenticate descriptor-copy replacement" (authenticateUnixReplacement commitFile expectedDigest expectedMode 1);
     installInfo ← wrapping "inspect descriptor-copy source" (Stat_ install);
     installPathInfo ← wrapping "inspect authenticated replacement pathname at commit" (Lstat installName);
     _ ← require (is_regular installPathInfo && SameFile installInfo installPathInfo)
           (Errorf "authenticated replacement pathname changed at commit");
     _ ← wrapping "remove authenticated replacement staging name" (Unlinkat parent installName false);
     _ ← wrapping "authenticated replacement staging object changed during commit"
           (authenticateUnixReplacement install expectedDigest expectedMode 0);
     _ ← wrapping "reauthenticate descriptor-copy replacement" (authenticateUnixReplacement commitFile expectedDigest expectedMode 1);
     commitInfo ← wrapping "inspect descriptor-copy replacement" (Stat_ commitFile);
     entryInfo ← wrapping "inspect descriptor-copy commit entry" (Fstatat commitDirectory unixCommitEntry);
     _ ← require (is_regular entryInfo && SameFile commitInfo entryInfo)
           (Errorf "descriptor-copy commit entry changed before rename");
     wrapping "commit descriptor-copy replacement"
       (commitVerifiedUnixEntry commitFile commitDirectory parent targetName expectedDigest expectedMode))
    (on_fail (Unlinkat commitDirectory unixCommitEntry false)).

Definition commitAuthenticatedUnixReplacementByCopy (install : N) (installName targetName : string)
    (expectedDigest : bytes) (expectedMode : Z) : P () :=
  _ ← wrapping "authenticate descriptor-copy source" (authenticateUnixReplacement install expectedDigest expectedMode 1);
  parent ← wrapping "open replacement directory" (OpenParent sched);
  in_commit_directory parent targetName
    (copy_and_commit install installName parent targetName expectedDigest expectedMode).

(** ** The replacement *)

(** The commit is the only part that depends on the platform. *)
Inductive Platform := Linux | DarwinOrBSD.
Definition commit_on (platform : Platform) : N → string → string → bytes → Z → P () :=
  match platform with
  | Linux => commitAuthenticatedUnixReplacement
  | DarwinOrBSD => commitAuthenticatedUnixReplacementByCopy
  end.

(** Copies the staged object into the fresh sibling and authenticates the copy. *)
Definition fill_and_authenticate (source install : N) (installName : string) (expectedDigest : bytes)
    (originalMode : Z) : P () :=
  data ← wrapping "copy verified replacement" (Copy source (Some install) copy_limit);
  _ ← require (bool_decide (Z.of_nat (length data) ≤ maxBinary)%Z) (Errorf "verified replacement exceeds the limit");
  _ ← require (bool_decide (sha256 data = expectedDigest))
        (Errorf "verified replacement digest does not match authenticated bytes");
  _ ← wrapping "sync authenticated replacement copy" (Sync install);
  _ ← wrapping "rewind authenticated replacement copy" (Seek install);
  copied ← wrapping "authenticate replacement copy" (Copy install None copy_limit);
  _ ← require (bool_decide (sha256 copied = expectedDigest))
        (Errorf "replacement copy digest does not match authenticated bytes");
  installInfo ← wrapping "inspect authenticated replacement copy" (Stat_ install);
  _ ← require (st_nlink installInfo =? 1) (Errorf "authenticated replacement copy has other hard links");
  pathInfo ← wrapping "inspect authenticated replacement pathname" (Lstat installName);
  _ ← require (is_regular pathInfo && SameFile installInfo pathInfo)
        (Errorf "authenticated replacement pathname changed before install");
  _ ← wrapping "set authenticated replacement permissions" (Chmod install (perm originalMode));
  _ ← wrapping "sync authenticated replacement permissions" (Sync install);
  _ ← wrapping "final authentication of replacement copy"
        (authenticateUnixReplacement install expectedDigest (perm originalMode) 1);
  finalInstallInfo ← wrapping "final inspection of authenticated replacement copy" (Stat_ install);
  finalPathInfo ← wrapping "final inspection of authenticated replacement pathname" (Lstat installName);
  require (is_regular finalPathInfo && SameFile finalInstallInfo finalPathInfo)
    (Errorf "authenticated replacement pathname changed before commit").

Definition replaceExecutable (platform : Platform) (stagedName targetName : string) (expectedDigest : bytes)
    (originalMode : Z) : P () :=
  source ← wrapping "open verified replacement" (Open sched stagedName);
  sourceInfo ← wrapping "inspect verified replacement" (Stat_ source);
  _ ← require (is_regular sourceInfo) (Errorf "verified replacement is not a regular file");
  '(install, installName) ← wrapping "create authenticated replacement copy"
                              (CreateTemp sched ("." +:+ targetName +:+ ".") ".install");
  finally
    (_ ← fill_and_authenticate source install installName expectedDigest originalMode;
     wrapping "install authenticated replacement"
       (commit_on platform install installName targetName expectedDigest (perm originalMode)))
    (on_fail (Remove sched installName)).
End Replace.
