(* ===== verification/UnixReplaceFacts.v ===== *)
(** * The original executable survives a failed replacement

    Under any interference but inside private directories, and with any calls
    failing. *)

From S2P Require Import Prelude GoStrings GoStringFacts GoErrors SyncProtocol Release FileWorld UnixReplace.

(** ** What the log shows *)

(** None of our calls changed the entry. *)
Definition quiet (p : N) (t : string) (l : steps) : Prop := Forall (λ s, entry s.2 p t = entry s.1 p t) l.
(** Before any of our calls changed it, the entry named [o]. *)
Definition inspected (p : N) (t : string) (o : N) (l : steps) : Prop :=
  ∃ s later earlier, l = later ++ s :: earlier ∧ entry s.1 p t = Some o ∧ quiet p t earlier.
(** After one of our calls the entry named [o], and no later call of ours changed it. *)
Definition left_as (p : N) (t : string) (o : N) (l : steps) : Prop :=
  ∃ s later earlier, l = later ++ s :: earlier ∧ entry s.2 p t = Some o ∧ quiet p t later.
(** One of our calls made the object. *)
Definition created (i : N) (l : steps) : Prop :=
  ∃ s, s ∈ l ∧ fs_objects s.1 !! i = None ∧ is_Some (fs_objects s.2 !! i).

Definition regular (i : N) (fs : FS) : Prop := ∃ o, fs_objects fs !! i = Some o ∧ o_kind o = Regular.
Definition private_dir (d : N) (fs : FS) : Prop := ∃ o, fs_objects fs !! d = Some o ∧ private o.
(** The original is kept under its second name. *)
Definition retained (d o : N) (fs : FS) : Prop := private_dir d fs ∧ entry fs d unixRollbackEntry = Some o.

Definition entry_names : list string := [unixCommitEntry; unixRollbackEntry; unixDiscardedEntry].

Lemma quiet_app p t l l' : quiet p t (l ++ l') ↔ quiet p t l ∧ quiet p t l'.
Proof. apply Forall_app. Qed.

(** ** Assertions that harmless calls keep *)

Class Robust (rely : FS → FS → Prop) (names : list string) (I : assertion) : Prop := {
  robust_stable : Stable rely I;
  robust_call fs fs' l : I fs l → harmless names fs fs' → I fs' ((fs, fs') :: l);
}.

Section Robust.
Context (rely : FS → FS → Prop) (Hcivil : ∀ fs fs', rely fs fs' → civil fs fs').

Lemma robust_and names (I J : assertion) :
  Robust rely names I → Robust rely names J → Robust rely names (λ fs l, I fs l ∧ J fs l).
Proof.
  intros HI HJ. split.
  - intros fs fs' l [? ?] ?. split; by eapply robust_stable.
  - intros fs fs' l [? ?] ?. split; by apply robust_call.
Qed.

Lemma robust_exists {X} names (I : X → assertion) :
  (∀ x, Robust rely names (I x)) → Robust rely names (λ fs l, ∃ x, I x fs l).
Proof.
  intros HI. split.
  - intros fs fs' l [x ?] ?. exists x. by eapply robust_stable.
  - intros fs fs' l [x ?] ?. exists x. by apply robust_call.
Qed.

Lemma robust_or names (I J : assertion) :
  Robust rely names I → Robust rely names J → Robust rely names (λ fs l, I fs l ∨ J fs l).
Proof.
  intros HI HJ. split.
  - intros fs fs' l [?|?] ?; [left|right]; by eapply robust_stable.
  - intros fs fs' l [?|?] ?; [left|right]; by apply robust_call.
Qed.

(** What only looks at the log, and may be shown later. *)
Lemma robust_log names (J : steps → Prop) :
  (∀ fs fs' l, J l → harmless names fs fs' → J ((fs, fs') :: l)) → Robust rely names (λ _ l, J l).
Proof. intros HJ. split; [by intros ? ? ?|]. intros fs fs' l. apply HJ. Qed.

Lemma robust_objects names (J : FS → Prop) :
  (∀ fs fs', J fs → objects_persist fs fs' → J fs') → Robust rely names (λ fs _, J fs).
Proof.
  intros HJ. split.
  - intros fs fs' _ Hj [Hp _]%Hcivil. by eapply HJ.
  - intros fs fs' _ Hj [Hp _]. by eapply HJ.
Qed.

Lemma regular_robust names i : Robust rely names (λ fs _, regular i fs).
Proof. apply robust_objects. intros fs fs' (o & Ho & Hk) Hp. destruct (Hp _ _ Ho) as (o' & ? & ? & _). exists o'. split; [done|congruence]. Qed.

Lemma private_robust names d : Robust rely names (λ fs _, private_dir d fs).
Proof.
  apply robust_objects. intros fs fs' (o & Ho & Hk) Hp. destruct (Hp _ _ Ho) as (o' & ? & _ & Heq).
  exists o'. by rewrite Heq in *.
Qed.

Lemma quiet_robust names p t : t ∈ names → Robust rely names (λ _ l, quiet p t l).
Proof. intros Ht. apply robust_log. intros fs fs' l Hq [_ Hh]. apply Forall_cons. split; [by apply Hh|done]. Qed.

Lemma all_quiet_robust names t : t ∈ names → Robust rely names (λ _ l, ∀ p, quiet p t l).
Proof.
  intros Ht. apply robust_log. intros fs fs' l Hq [_ Hh] p. apply Forall_cons. split; [by apply Hh|apply Hq].
Qed.

Lemma inspected_robust names p t o : Robust rely names (λ _ l, inspected p t o l).
Proof. apply robust_log. intros fs fs' l (s & later & earlier & -> & ? & ?) _. by exists s, ((fs, fs') :: later), earlier. Qed.

Lemma created_robust names i : Robust rely names (λ _ l, created i l).
Proof. apply robust_log. intros fs fs' l (s & Hs & Hc) _. exists s. split; [by right|done]. Qed.

Lemma left_as_robust names p t o : t ∈ names → Robust rely names (λ _ l, left_as p t o l).
Proof.
  intros Ht. apply robust_log. intros fs fs' l (s & later & earlier & -> & ? & ?) [_ Hh].
  exists s, ((fs, fs') :: later), earlier. split_and!; [done..|]. apply Forall_cons. split; [by apply Hh|done].
Qed.

Lemma retained_robust names d o : unixRollbackEntry ∈ names → Robust rely names (λ fs _, retained d o fs).
Proof.
  intros Hn. pose proof (private_robust names d) as [Hs Hc]. split.
  - intros fs fs' l [Hp He] Hr. split; [by eapply (Hs fs fs' l)|]. destruct Hp as (od & Hod & Hpr).
    destruct (Hcivil _ _ Hr) as [_ Hent]. by rewrite (Hent _ _ _ Hod Hpr).
  - intros fs fs' l [Hp He] Hh. split; [by eapply Hc|]. destruct Hh as [_ Hh]. by rewrite Hh.
Qed.
End Robust.

(** ** Calls and programs that keep robust assertions *)

Lemma stat_object_Ok fs i s : stat_object fs i = Ok s → st_ino s = i ∧ ∃ o, fs_objects fs !! i = Some o ∧
  o_kind o = st_kind s ∧ o_mode o = st_perm s.
Proof. unfold stat_object. destruct (fs_objects fs !! i) as [o|]; [|done]. intros [= <-]. cbn. eauto. Qed.

Lemma stat_at_Ok fs d name s : stat_at fs d name = Ok s → entry fs d name = Some (st_ino s) ∧
  stat_object fs (st_ino s) = Ok s.
Proof.
  unfold stat_at. destruct (entry fs d name) as [i|]; [|done]. cbn. intros Hs.
  by destruct (stat_object_Ok _ _ _ Hs) as [<- _].
Qed.

Section Keeps.
Context `{!Sha256} (sched : nat → Event) (rely : FS → FS → Prop).
Context (Hcivil : ∀ fs fs', rely fs fs' → civil fs fs') (Hrely : ∀ t fs, rely fs (ev_env (sched t) fs)).
Implicit Types (names : list string) (I : assertion).

Lemma survives_call {A} names I (f : Event → FS → result A * FS) : Robust rely names I →
  (∀ e fs l, I fs l → harmless names fs (f e fs).2) → keeps I (call sched f).
Proof.
  intros HI Hf. apply (runs_call _ rely Hrely); [apply HI|]. intros e fs l Hi.
  split; [intros _|]; apply robust_call; [done|apply harmless_refl|done|by eapply Hf].
Qed.

Lemma survives_query {A} names I (f : FS → result A) : Robust rely names I → keeps I (query sched f).
Proof. intros HI. apply (survives_call names); [done|]. intros. apply harmless_refl. Qed.

Lemma survives_update names I g i : Robust rely names I → (∀ o, o_kind (g o) = o_kind o) →
  (∀ fs l, I fs l → regular i fs) → keeps I (call sched (λ _ fs, (Ok (), update_object g i fs))).
Proof.
  intros HI Hg Hi. apply (survives_call names); [done|]. intros _ fs l HIfs. destruct (Hi _ _ HIfs) as (o & Ho & Hk).
  apply (update_harmless _ _ _ _ o); [done|congruence|done].
Qed.

Lemma survives_unlink names I d name removedir : Robust rely names I → name ∉ names → keeps I (Unlinkat sched d name removedir).
Proof. intros HI Hn. apply (survives_call names); [done|]. intros. by apply unlink_harmless. Qed.

Lemma survives_link names I d name d' name' : Robust rely names I → name' ∉ names → keeps I (Linkat sched d name d' name').
Proof. intros HI Hn. apply (survives_call names); [done|]. intros. by apply link_harmless. Qed.

Lemma survives_link_descriptor names I i d name : Robust rely names I → name ∉ names → keeps I (LinkDescriptor sched i d name).
Proof. intros HI Hn. apply (survives_call names); [done|]. intros. by apply link_object_harmless. Qed.

(** The steps a program is made of; what is left are calls. *)
Ltac keep_step :=
  lazymatch goal with
  | |- keeps _ (mret _) => apply survives_ret
  | |- keeps _ (fail _) => apply survives_fail
  | |- keeps _ (lift _) => apply survives_lift
  | |- keeps _ (require _ _) => apply survives_require
  | |- keeps _ (wrapping _ _) => apply survives_wrapping
  | |- keeps _ (attempt _) => apply survives_attempt
  | |- keeps _ (_ ≫= _) => apply survives_bind; [|intros ?]
  | |- keeps _ (query _ _) => eapply survives_query; eassumption
  | |- keeps _ (Stat_ _ _) => eapply survives_query; eassumption
  | |- keeps _ (Sync _ _) => eapply survives_query; eassumption
  | |- keeps _ (Seek _ _) => eapply survives_query; eassumption
  | |- keeps _ (Fstatat _ _ _) => eapply survives_query; eassumption
  | |- keeps _ (Lstat _ _) => eapply survives_query; eassumption
  | |- keeps _ (Open _ _) => eapply survives_query; eassumption
  | |- keeps _ (OpenParent _) => eapply survives_query; eassumption
  | |- keeps _ (OpenDirAt _ _ _) => eapply survives_query; eassumption
  | |- keeps _ (OpenPathAt _ _ _) => eapply survives_query; eassumption
  | |- keeps _ (Unlinkat _ _ _ _) => eapply survives_unlink; eassumption
  end.
Ltac keep_steps := repeat keep_step.

Lemma survives_copy names I src dst limit : Robust rely names I →
  (∀ d fs l, dst = Some d → I fs l → regular d fs) → keeps I (Copy sched src dst limit).
Proof.
  intros HI Hd. unfold Copy. keep_steps.
  - apply survives_rounds. intros acc. unfold copy_round. case_bool_decide; [apply survives_ret|].
    apply survives_bind.
    + apply (survives_call names); [done|]. intros. apply harmless_refl.
    + intros data. case_bool_decide; [apply survives_ret|]. keep_steps. destruct dst as [d|]; [|apply survives_ret].
      by apply (survives_update names); [done| |intros; eapply Hd].
  - case_match; apply survives_ret.
Qed.

Lemma survives_authenticate names I file digest mode links : Robust rely names I →
  keeps I (authenticateUnixReplacement sched file digest mode links).
Proof. intros HI. unfold authenticateUnixReplacement. keep_steps. by apply (survives_copy names). Qed.

Lemma survives_remove_entry names I d name : Robust rely names I → name ∉ names → keeps I (removeUnixCommitEntry sched d name).
Proof. intros HI Hn. unfold removeUnixCommitEntry. keep_steps. case_match; [by apply (survives_unlink names)|]. case_match; keep_steps. Qed.

Lemma survives_remove names I name : Robust rely names I → name ∉ names → keeps I (Remove sched name).
Proof.
  intros HI Hn. unfold Remove. keep_steps.
  - apply (survives_call names); [done|]. intros. by apply unlink_harmless.
  - case_match; keep_steps. apply (survives_call names); [done|]. intros. by apply unlink_harmless.
Qed.

(** *** Temporary names *)

(** What a fresh temporary object satisfies. *)
Definition made (o : object) (i : N) (fs : FS) (l : steps) : Prop :=
  created i l ∧ ∃ o', fs_objects fs !! i = Some o' ∧ o_kind o' = o_kind o.

Lemma made_robust names o i : Robust rely names (made o i).
Proof.
  apply robust_and; [by apply created_robust|]. apply robust_objects; [done|].
  intros fs fs' (o' & Ho & Hk) Hp. destruct (Hp _ _ Ho) as (o'' & ? & ? & _). exists o''. split; [done|congruence].
Qed.

Lemma create_at_made fs l d name o i :
  (create_at fs d name o).1 = Ok i → made o i (create_at fs d name o).2 ((fs, (create_at fs d name o).2) :: l).
Proof.
  unfold create_at. destruct (entry fs d name); [done|]. intros [= <-]. split.
  - eexists. split; [by left|]. cbn. rewrite lookup_insert_eq. split; [apply fresh_object_spec|done].
  - exists o. cbn. by rewrite lookup_insert_eq.
Qed.

Lemma runs_create names I d name mode : Robust rely names I → name ∉ names →
  spec I (CreateAt sched d name mode)
    (λ r fs l, I fs l ∧ match r with Ok i => made (mkObject Regular [] mode) i fs l | Fail _ => True end).
Proof.
  intros HI Hn. apply (runs_call _ rely Hrely); [apply HI|]. intros e fs l Hi. split.
  - intros err. split; [|done]. apply robust_call; [done|apply harmless_refl].
  - split; [apply robust_call; [done|by apply create_harmless]|].
    destruct (create_at _ _ _ _).1 eqn:Hc; [by apply create_at_made|done].
Qed.

Lemma runs_temp names I tries o prefix suffix : Robust rely names I →
  (∀ rnd, prefix +:+ rnd +:+ suffix ∉ names) →
  spec I (temp_loop sched tries o prefix suffix)
    (λ r fs l, I fs l ∧ match r with Ok (i, name) => made o i fs l ∧ name ∉ names | Fail _ => True end).
Proof.
  intros HI Hn. induction tries as [|n IH]; cbn [temp_loop]; [by intros w Hw|].
  apply (runs_bind _ _ _ (λ r fs l, I fs l ∧ match r with Ok (i, name) => made o i fs l ∧ name ∉ names | Fail _ => True end)).
  - apply runs_attempt, (runs_call _ rely Hrely); [apply HI|]. intros e fs l Hi. split.
    + intros err. split; [|done]. apply robust_call; [done|apply harmless_refl].
    + pose proof (create_harmless names fs (fs_parent fs) _ o (Hn (ev_name e))) as Hh.
      pose proof (create_at_made fs l (fs_parent fs) (prefix +:+ ev_name e +:+ suffix) o) as Hm.
      destruct (create_at _ _ _ _) as [[i|err] fs']; cbn in *.
      * split; [by apply robust_call|]. split; [by apply Hm|done].
      * split; [by apply robust_call|done].
  - intros [[i name]|e].
    + by intros w [Hi Hw].
    + case_match.
      * eapply runs_pre; [|exact IH]. by intros fs l [? _].
      * by intros w [Hi _].
Qed.

(** ** The commit *)

Context (t : string) (Ht : t ∉ entry_names).

Definition guarded : list string := [t; unixRollbackEntry].

Lemma entry_name_ok name : name ∈ [unixCommitEntry; unixDiscardedEntry] → name ∉ guarded.
Proof.
  intros Hn [->|Hr%list_elem_of_singleton]%elem_of_cons.
  - apply Ht. unfold entry_names. set_solver.
  - subst. apply elem_of_cons in Hn as [Hn|Hn%list_elem_of_singleton]; discriminate Hn.
Qed.
Lemma guarded_rollback : unixRollbackEntry ∈ guarded.
Proof. unfold guarded. set_solver. Qed.
Lemma target_not_rollback : t ≠ unixRollbackEntry.
Proof. clear - Ht. unfold entry_names in Ht. set_solver. Qed.

(** The original: untouched, or still named by the rollback entry, or put back. *)
Definition original_safe (fs : FS) (l : steps) : Prop :=
  (∀ p, quiet p t l) ∨
  ∃ p o, inspected p t o l ∧ ((∃ cd, retained cd o fs) ∨ left_as p t o l).
Definition committed (l : steps) : Prop :=
  ∃ p src o, inspected p t o l ∧ created src l ∧ left_as p t src l.
Definition outcome (r : result ()) : assertion := λ fs l,
  match r with Ok _ => committed l | Fail _ => original_safe fs l end.
(** The outcome when the rollback entry does not matter. *)
Definition early (r : result ()) : assertion := λ fs l,
  match r with Ok _ => committed l | Fail _ => ∀ p, quiet p t l end.

Lemma outcome_robust r : Robust rely guarded (outcome r).
Proof.
  assert (t ∈ guarded) by (unfold guarded; set_solver). pose proof guarded_rollback.
  destruct r; unfold outcome, committed, original_safe.
  - repeat (apply robust_exists; intros ?). apply robust_and; [by apply inspected_robust|].
    apply robust_and; [by apply created_robust|by apply left_as_robust].
  - apply robust_or; [by apply all_quiet_robust|]. repeat (apply robust_exists; intros ?).
    apply robust_and; [by apply inspected_robust|]. apply robust_or; [|by apply left_as_robust].
    apply robust_exists. intros. by apply retained_robust.
Qed.

Lemma early_robust names r : t ∈ names → Robust rely names (early r).
Proof.
  intros. destruct r; [|by apply all_quiet_robust].
  repeat (apply robust_exists; intros ?). apply robust_and; [by apply inspected_robust|].
  apply robust_and; [by apply created_robust|by apply left_as_robust].
Qed.

Lemma early_outcome r fs l : early r fs l → outcome r fs l.
Proof. destruct r; [done|]. by left. Qed.

Definition rolled (cd p o src : N) : assertion := λ fs l, retained cd o fs ∧ inspected p t o l ∧ created src l.
Lemma rolled_robust cd p o src : Robust rely [unixRollbackEntry] (rolled cd p o src).
Proof.
  apply robust_and; [apply retained_robust; [done|set_solver]|].
  apply robust_and; [by apply inspected_robust|by apply created_robust].
Qed.

Lemma rename_keeps_entry fs d name d' name' k n :
  (k, n) ≠ (d, name) → (k, n) ≠ (d', name') → entry (rename_at fs d name d' name').2 k n = entry fs k n.
Proof.
  intros H1 H2. unfold rename_at. destruct (stat_at fs d name) as [s|]; [|done].
  repeat case_match; cbn [snd]; try done; unfold entry, set_entries; cbn;
    by rewrite lookup_insert_ne, lookup_delete_ne by congruence.
Qed.

Lemma rename_persists fs d name d' name' : objects_persist fs (rename_at fs d name d' name').2.
Proof.
  unfold rename_at. repeat case_match; cbn [snd]; try apply objects_persist_refl; apply set_entries_persist.
Qed.

Lemma rename_fail fs d name d' name' e : (rename_at fs d name d' name').1 = Fail e → (rename_at fs d name d' name').2 = fs.
Proof. unfold rename_at. repeat case_match; cbn; congruence. Qed.

Lemma rename_ok fs d name d' name' o :
  entry fs d name = Some o → (rename_at fs d name d' name').1 = Ok () → (d, name) ≠ (d', name') →
  entry (rename_at fs d name d' name').2 d' name' = Some o.
Proof.
  intros He Hok Hne. revert Hok. unfold rename_at. destruct (stat_at fs d name) as [s|] eqn:Hs; [|done].
  apply stat_at_Ok in Hs as [Hs _]. assert (st_ino s = o) as Hso by congruence. subst o.
  case_bool_decide; [done|].
  assert (entry (set_entries (λ m, <[(d', name') := st_ino s]> (delete (d, name) m)) fs) d' name' = Some (st_ino s)) as Hm.
  { unfold entry, set_entries. cbn. by rewrite lookup_insert_eq. }
  destruct (stat_at fs d' name') as [s'|] eqn:Hs'; [|done]. apply stat_at_Ok in Hs' as [Hs' _].
  unfold SameFile. case_bool_decide as Heq; [cbn; congruence|].
  by repeat case_match.
Qed.

Ltac not_name := let Hin := fresh in intros Hin%list_elem_of_singleton; first [by apply target_not_rollback | by vm_compute in Hin].

Lemma survives_rename names I d name d' name' : Robust rely names I → name ∉ names → name' ∉ names →
  keeps I (Renameat sched d name d' name').
Proof. intros HI Hn Hn'. apply (survives_call names); [done|]. intros. by apply rename_harmless. Qed.

Lemma rolled_safe cd p o src fs l : rolled cd p o src fs l → original_safe fs l.
Proof. intros (? & ? & _). right. exists p, o. split; [done|]. left. by exists cd. Qed.

Lemma restore_rename cd p o src :
  spec (rolled cd p o src) (attempt (Renameat sched cd unixRollbackEntry p t)) (λ _, original_safe).
Proof.
  apply runs_attempt, (runs_call _ rely Hrely); [apply rolled_robust|]. intros _ fs l Hr.
  assert (rolled cd p o src fs ((fs, fs) :: l)) as Hsame by (apply rolled_robust; [done|apply harmless_refl]).
  split; [intros _; by eapply rolled_safe|].
  destruct (rename_at fs cd unixRollbackEntry p t).1 as [[]|e] eqn:Hren; [|rewrite (rename_fail _ _ _ _ _ _ Hren); by eapply rolled_safe].
  destruct Hr as ([_ He] & (s & later & earlier & -> & Hs & Hq) & _).
  right. exists p, o. split; [by exists s, ((fs, (rename_at fs cd unixRollbackEntry p t).2) :: later), earlier|].
  right. exists (fs, (rename_at fs cd unixRollbackEntry p t).2), [], (later ++ s :: earlier). split_and!; [done| |by apply Forall_nil].
  cbn [snd]. apply rename_ok; [done..|]. intros [= _ Heq]. by apply target_not_rollback.
Qed.

Lemma safe_robust : Robust rely guarded original_safe.
Proof. exact (outcome_robust (Fail ENOENT)). Qed.

Lemma runs_restore cd p o src :
  spec (rolled cd p o src) (restoreOriginalUnixTarget sched cd p t) (λ _, original_safe).
Proof.
  pose proof (rolled_robust cd p o src) as HR. unfold restoreOriginalUnixTarget.
  apply (runs_bind _ _ _ (λ _, rolled cd p o src)).
  { eapply runs_post; [|apply survives_attempt, (survives_rename [unixRollbackEntry]); [done|not_name..]].
    intros [] fs l Hr; [done|by eapply rolled_safe]. }
  intros moved. cbv zeta. apply (runs_bind _ _ _ (λ _, rolled cd p o src)).
  { apply (runs_post _ _ _ (λ _, rolled cd p o src)); [intros [] fs l Hr; [done|by eapply rolled_safe]|].
    destruct moved; [|apply survives_ret]. apply survives_attempt, (survives_remove_entry [unixRollbackEntry]); [done|not_name]. }
  intros cleaned. apply (runs_bind _ _ _ (λ _, original_safe)).
  - eapply runs_post; [|apply restore_rename]. by intros [].
  - intros restored. case_match; apply survives_ret.
Qed.

Lemma robust_mono names names' I : names ⊆ names' → Robust rely names I → Robust rely names' I.
Proof.
  intros Hsub HI. split; [apply HI|]. intros fs fs' l Hi [Hp Hh]. apply HI; [done|]. split; [done|]. intros. by apply Hh, Hsub.
Qed.

(** A call that changed nothing. *)
Lemma robust_idle names I fs l : Robust rely names I → I fs l → I fs ((fs, fs) :: l).
Proof. intros HI Hi. by eapply robust_call, harmless_refl. Qed.

Definition prepared (cd p o src : N) : assertion := λ fs l,
  (∀ p, quiet p t l) ∧ private_dir cd fs ∧ inspected p t o l ∧ created src l.
Lemma prepared_robust names cd p o src : t ∈ names → Robust rely names (prepared cd p o src).
Proof.
  intros. apply robust_and; [by apply all_quiet_robust|]. apply robust_and; [by apply private_robust|].
  apply robust_and; [by apply inspected_robust|by apply created_robust].
Qed.

Lemma runs_rename_retained cd p original src :
  spec (prepared cd p (st_ino original) src) (rename_retained sched cd p t original)
    (λ r fs l, match r with Ok _ => rolled cd p (st_ino original) src fs l | Fail _ => ∀ p, quiet p t l end).
Proof.
  unfold rename_retained. set (o := st_ino original).
  assert (t ∈ guarded) by (unfold guarded; set_solver). pose proof guarded_rollback.
  assert (∀ x, Robust rely guarded (λ fs l, prepared cd p o src fs l ∧ retained cd x fs)) as Hrob.
  { intros x. apply robust_and; [by apply prepared_robust|by apply retained_robust]. }
  eapply (runs_bind _ _ _ (λ s fs l, prepared cd p o src fs l ∧ retained cd (st_ino s) fs)).
  { apply runs_wrapping, (runs_query _ rely Hrely); [by apply (prepared_robust guarded)|]. intros fs l Hp.
    assert (prepared cd p o src fs ((fs, fs) :: l)) as Hp' by (by eapply robust_idle, Hp; apply (prepared_robust guarded)).
    split; [intros _; apply Hp'|]. destruct (stat_at _ _ _) as [s|] eqn:Hs; [|apply Hp'].
    apply stat_at_Ok in Hs as [Hs _]. split; [done|]. split; [apply Hp|done]. }
  intros retained_stat. apply (runs_bind _ _ _ (λ _ fs l, prepared cd p o src fs l ∧ retained cd o fs)).
  { apply runs_require. intros fs l [Hp Hr]. destruct (_ && _) eqn:Hsame; [|apply Hp].
    apply andb_true_iff in Hsame as [Hsame%bool_decide_eq_true_1 _]. split; [done|]. subst o. by rewrite Hsame. }
  intros _. apply runs_wrapping, (runs_call _ rely Hrely); [apply Hrob|]. intros _ fs l [Hp Hr].
  assert (prepared cd p o src fs ((fs, fs) :: l)) as Hp' by (by eapply robust_idle, Hp; apply (prepared_robust guarded)).
  split; [intros _; apply Hp'|]. destruct (rename_at _ _ _ _ _).1 as [[]|e] eqn:Hren.
  - apply rolled_robust; [by destruct Hp as (_ & _ & ? & ?)|]. apply rename_harmless; not_name.
  - rewrite (rename_fail _ _ _ _ _ _ Hren). apply Hp'.
Qed.

Lemma runs_canonical cd p o src digest mode :
  spec (rolled cd p o src) (authenticateCanonicalUnixReplacement sched src p t digest mode)
    (λ r fs l, rolled cd p o src fs l ∧ match r with Ok _ => left_as p t src l | Fail _ => True end).
Proof.
  unfold authenticateCanonicalUnixReplacement. pose proof (rolled_robust cd p o src) as HR.
  apply (runs_bind _ _ _ (λ _, rolled cd p o src)).
  { eapply runs_post; [|by apply (survives_authenticate [unixRollbackEntry])]. by intros []. }
  intros _. set (J := λ i fs l, rolled cd p o src fs l ∧ left_as p t i l).
  assert (∀ i, Robust rely guarded (J i)) as HJ.
  { intros i. apply robust_and; [apply (robust_mono [unixRollbackEntry]); [unfold guarded; set_solver|done]|].
    apply left_as_robust. unfold guarded. set_solver. }
  apply (runs_bind _ _ _ (λ s, J (st_ino s))).
  { apply runs_wrapping, (runs_query _ rely Hrely); [apply HR|]. intros fs l Hr.
    assert (rolled cd p o src fs ((fs, fs) :: l)) as Hr' by (by eapply robust_idle, Hr).
    split; [done|]. destruct (stat_at _ _ _) as [s|] eqn:Hs; [|done]. apply stat_at_Ok in Hs as [Hs _].
    split; [done|]. exists (fs, fs), [], l. split_and!; [done..|by apply Forall_nil]. }
  intros canonical. apply (runs_bind _ _ _ (λ s fs l, J (st_ino canonical) fs l ∧ st_ino s = src)).
  { apply runs_wrapping, (runs_query _ rely Hrely); [apply HJ|]. intros fs l Hj.
    assert (J (st_ino canonical) fs ((fs, fs) :: l)) as [Hr' Hl'] by (by eapply robust_idle, Hj; apply HJ).
    split; [done|]. destruct (stat_object fs src) as [s|] eqn:Hs; [|done]. by apply stat_object_Ok in Hs as [-> _]. }
  intros sourceStat. apply runs_require. intros fs l [[Hr Hl] Hs]. destruct (_ && _) eqn:Hsame; [|done].
  apply andb_true_iff in Hsame as [_ Hsame]. apply bool_decide_eq_true_1 in Hsame. split; [done|]. congruence.
Qed.

Lemma runs_commit_retained cd p original src digest mode :
  spec (prepared cd p (st_ino original) src) (commit_retained sched src cd p t original digest mode)
    (λ r fs l, match r with
               | Ok (true, res) => early res fs l
               | Ok (false, res) => outcome res fs l
               | Fail _ => original_safe fs l
               end).
Proof.
  set (o := st_ino original). unfold commit_retained.
  apply (runs_bind _ _ _ (λ r fs l, match r with Ok _ => rolled cd p o src fs l | Fail _ => ∀ p, quiet p t l end)).
  { apply runs_attempt. eapply runs_post; [|apply runs_rename_retained]. by intros []. }
  intros [[]|e]; [|by intros w Hw]. cbv zeta.
  apply (runs_bind _ _ _ (λ r fs l, rolled cd p o src fs l ∧ match r with Ok _ => left_as p t src l | Fail _ => True end)).
  { apply runs_attempt. apply (runs_bind _ _ _ (λ _, rolled cd p o src)).
    - eapply runs_post; [|apply runs_canonical]. intros [] fs l [? ?]; done.
    - intros _. apply runs_canonical. }
  intros [[]|e].
  - intros w [(_ & Hi & Hc) Hl]. by exists p, src, o.
  - apply (runs_pre _ (rolled cd p o src)); [by intros fs l [? _]|].
    apply (runs_bind _ _ _ (λ _, original_safe)).
    + eapply runs_post; [|apply runs_restore]. by intros [].
    + intros [[] rollbackErr]; by intros w Hw.
Qed.

Lemma runs_commit_verified cd p src digest mode :
  spec (λ fs l, (∀ p, quiet p t l) ∧ private_dir cd fs ∧ created src l)
    (commitVerifiedUnixEntry sched src cd p t digest mode) outcome.
Proof.
  set (I := λ fs l, (∀ p, quiet p t l) ∧ private_dir cd fs ∧ created src l).
  assert (Robust rely [t] I) as HI.
  { apply robust_and; [apply all_quiet_robust; set_solver|]. apply robust_and; [by apply private_robust|by apply created_robust]. }
  unfold commitVerifiedUnixEntry. apply (runs_finally _ _ _ outcome).
  2: { intros r. apply (survives_remove_entry guarded); [apply outcome_robust|apply entry_name_ok; set_solver]. }
  apply (runs_bind _ _ _ (λ original, prepared cd p (st_ino original) src)).
  { apply runs_wrapping, (runs_query _ rely Hrely); [apply HI|]. intros fs l Hi.
    assert (I fs ((fs, fs) :: l)) as Hi' by (by eapply robust_idle, Hi).
    split; [intros e; left; apply Hi'|]. destruct (stat_at _ _ _) as [s|] eqn:Hs; [|left; apply Hi'].
    apply stat_at_Ok in Hs as [Hs _]. destruct Hi' as (Hq & Hp & Hc). destruct Hi as (Hq0 & _ & _).
    split_and!; [done..| |done]. by exists (fs, fs), [], l. }
  intros original. apply (runs_bind _ _ _ (λ _, prepared cd p (st_ino original) src)).
  { apply runs_require. intros fs l Hp. case_match; [done|]. left. apply Hp. }
  intros _. apply (runs_bind _ _ _ (λ _, prepared cd p (st_ino original) src)).
  { apply (runs_post _ _ _ (λ _, prepared cd p (st_ino original) src)); [intros [] fs l Hp; [done|left; apply Hp]|].
    apply survives_wrapping, (survives_link [t]); [apply prepared_robust; set_solver|].
    intros Heq%list_elem_of_singleton. by apply target_not_rollback. }
  intros _. apply (runs_bind _ _ _ (λ '(linked, res), if (linked : bool) then early res else outcome res)).
  { eapply runs_post; [|apply runs_commit_retained]. by intros [[[] ?]|]. }
  intros [[] res].
  - apply (runs_bind _ _ _ (λ _, early res)).
    + apply runs_attempt, (survives_unlink [t]); [apply early_robust; set_solver|].
      intros Heq%list_elem_of_singleton. by apply target_not_rollback.
    + intros _. eapply runs_pre; [|apply runs_lift]. intros fs l. apply early_outcome.
  - apply (runs_bind _ _ _ (λ _, outcome res)); [by intros w Hw|intros _; apply runs_lift].
Qed.

(** ** The private directory *)

Lemma temp_name_ok rnd suffix : ("." +:+ t +:+ ".") +:+ rnd +:+ suffix ∉ guarded.
Proof.
  intros [Heq|Heq%list_elem_of_singleton]%elem_of_cons.
  - apply (f_equal String.length) in Heq. rewrite !length_str_app in Heq. cbn in Heq. lia.
  - by apply (f_equal (String.get 0)) in Heq.
Qed.

Lemma robust_impl names (φ : Prop) I : Robust rely names I → Robust rely names (λ fs l, φ → I fs l).
Proof.
  intros HI. split.
  - intros fs fs' l Hi Hr ?. eapply robust_stable; eauto.
  - intros fs fs' l Hi Hh ?. eapply robust_call; eauto.
Qed.

Lemma quiet_safe fs l : (∀ p, quiet p t l) → original_safe fs l.
Proof. by left. Qed.

(** Keeping an assertion under which nothing happened yet, or stopping safely. *)
Lemma runs_keeps {A} I (m : P A) :
  (∀ fs l, I fs l → original_safe fs l) → keeps I m →
  spec I m (λ r, match r with Ok _ => I | Fail _ => original_safe end).
Proof. intros Hs Hm. eapply runs_post; [|exact Hm]. intros [] fs l Hi; [done|by apply Hs]. Qed.

Lemma runs_check (b : bool) e I J : (∀ fs l, I fs l → original_safe fs l) → (∀ fs l, I fs l → b = true → J fs l) →
  spec I (require b e) (λ r, match r with Ok _ => J | Fail _ => original_safe end).
Proof. intros Hs HJ. apply runs_require. intros fs l Hi. destruct b; [by apply HJ|by apply Hs]. Qed.

Lemma runs_in_commit_directory I p (body : N → P ()) :
  Robust rely guarded I → (∀ fs l, I fs l → original_safe fs l) →
  (∀ cd, spec (λ fs l, I fs l ∧ private_dir cd fs) (body cd) outcome) →
  spec I (in_commit_directory sched p t body) outcome.
Proof.
  intros HI Hsafe Hbody. unfold in_commit_directory.
  apply (runs_bind _ _ _ (λ '(_, name) fs l, I fs l ∧ name ∉ guarded)).
  { apply runs_wrapping. eapply runs_post; [|apply (runs_temp guarded); [done|intros; apply temp_name_ok]].
    intros [[i name]|e] fs l [Hi Hn]; [naive_solver|by apply Hsafe]. }
  intros [_ name]. eapply runs_pre; [intros fs l [Hi Hn]; exact (conj Hn Hi)|]. apply runs_pure. intros Hn.
  apply (runs_bind _ _ _ (λ _, I)).
  { apply (runs_keeps I); [done|]. by apply survives_attempt, (survives_query guarded). }
  intros [cd|e].
  - apply (runs_finally _ _ _ outcome); [|intros r; by apply (survives_unlink guarded); [apply outcome_robust|]].
    assert (∀ s, Robust rely guarded (λ fs l, I fs l ∧ (is_dir s = true → perm (st_perm s) = 448%Z → private_dir cd fs))) as HJ.
    { intros s. apply robust_and; [done|]. do 2 apply robust_impl. by apply private_robust. }
    apply (runs_bind _ _ _ (λ s fs l, I fs l ∧ (is_dir s = true → perm (st_perm s) = 448%Z → private_dir cd fs))).
    { apply runs_wrapping, (runs_query _ rely Hrely); [apply HI|]. intros fs l Hi.
      assert (I fs ((fs, fs) :: l)) as Hi' by (by eapply robust_idle, Hi). split; [intros e; by apply Hsafe|].
      destruct (stat_object fs cd) as [s|] eqn:Hs; [|by apply Hsafe]. split; [done|]. intros Hd Hp.
      apply stat_object_Ok in Hs as (_ & o & Ho & Hk & Hm). exists o. split; [done|]. unfold is_dir in Hd. bool_to_prop.
      split; congruence. }
    intros s. apply (runs_bind _ _ _ (λ _ fs l, I fs l ∧ (is_dir s = true → perm (st_perm s) = 448%Z → private_dir cd fs))).
    { apply (runs_keeps (λ fs l, I fs l ∧ _)); [by intros ? ? [? _]; apply Hsafe|]. by apply survives_wrapping, (survives_query guarded). }
    intros s'. apply (runs_bind _ _ _ (λ _ fs l, I fs l ∧ private_dir cd fs)).
    { apply runs_check; [by intros ? ? [? _]; apply Hsafe|]. intros fs l [Hi Hp] Hb. split; [done|].
      bool_to_prop. by apply Hp. }
    intros _. apply Hbody.
  - apply (runs_bind _ _ _ (λ _, I)).
    + apply (runs_keeps I); [done|]. by apply survives_attempt, (survives_unlink guarded).
    + intros _. intros w Hw. by apply Hsafe.
Qed.

(** ** Before the commit: only names of our own change *)

(** [begun i]: the object is ours, regular, and the target was left alone. *)
Definition begun (i : N) : assertion := λ fs l, (∀ p, quiet p t l) ∧ created i l ∧ regular i fs.
Lemma begun_robust i : Robust rely guarded (begun i).
Proof.
  apply robust_and; [apply all_quiet_robust; unfold guarded; set_solver|].
  apply robust_and; [by apply created_robust|by apply regular_robust].
Qed.
Lemma begun_safe i fs l : begun i fs l → original_safe fs l.
Proof. intros [? _]. by left. Qed.

(** An assertion that includes that one. *)
Class Begun (i : N) (I : assertion) : Prop := {
  begun_is_robust :: Robust rely guarded I;
  begun_begun fs l : I fs l → begun i fs l;
}.

#[local] Instance begun_here i : Begun i (begun i).
Proof. split; [apply begun_robust|done]. Qed.
#[local] Instance begun_private i cd : Begun i (λ fs l, begun i fs l ∧ private_dir cd fs).
Proof. split; [apply robust_and; [apply begun_robust|by apply private_robust]|]. by intros fs l [? _]. Qed.
#[local] Instance begun_both i j cd : Begun i (λ fs l, (begun i fs l ∧ private_dir cd fs) ∧ begun j fs l).
Proof.
  split; [|by intros fs l [[? _] _]]. apply robust_and; [|apply begun_robust].
  apply robust_and; [apply begun_robust|by apply private_robust].
Qed.

Section Begun.
Context (i : N) (I : assertion) `{!Begun i I}.

Lemma begun_step {A B} (m : P A) (f : A → P B) (Q : result B → assertion) :
  (∀ e fs l, original_safe fs l → Q (Fail e) fs l) → keeps I m → (∀ a, spec I (f a) Q) → spec I (m ≫= f) Q.
Proof.
  intros HQ Hm Hf. apply (runs_bind _ _ _ (λ _, I)); [|done]. eapply runs_post; [|exact Hm].
  intros [] fs l Hi; [done|]. apply HQ. eapply begun_safe. by apply begun_begun.
Qed.

Lemma begun_regular fs l : I fs l → regular i fs.
Proof. intros Hi. apply (begun_begun (i := i)) in Hi. apply Hi. Qed.
End Begun.

Lemma begun_call {A} i I `{!Begun i I} (f : FS → result A) : keeps I (query sched f).
Proof. intros. apply (survives_query guarded), begun_is_robust. Qed.
Lemma begun_authenticate i I `{!Begun i I} file digest mode links :
  keeps I (authenticateUnixReplacement sched file digest mode links).
Proof. intros. apply (survives_authenticate guarded), begun_is_robust. Qed.
Lemma begun_copy i I `{!Begun i I} src dst limit : (∀ d fs l, dst = Some d → I fs l → regular d fs) →
  keeps I (Copy sched src dst limit).
Proof. intros. by apply (survives_copy guarded); [apply begun_is_robust|]. Qed.
Lemma begun_chmod i I `{!Begun i I} d mode : (∀ fs l, I fs l → regular d fs) → keeps I (Chmod sched d mode).
Proof. intros. by apply (survives_update guarded); [apply begun_is_robust|..]. Qed.
Lemma begun_unlink i I `{!Begun i I} d name removedir : name ∉ guarded → keeps I (Unlinkat sched d name removedir).
Proof. intros. by apply (survives_unlink guarded); [apply begun_is_robust|]. Qed.

Lemma runs_commit_begun i I `{!Begun i I} p cd digest mode msg : (∀ fs l, I fs l → private_dir cd fs) →
  ∀ src, (∀ fs l, I fs l → created src l) →
  spec I (wrapping msg (commitVerifiedUnixEntry sched src cd p t digest mode)) outcome.
Proof.
  intros Hp src Hc. eapply runs_pre; [|apply runs_wrapping; eapply runs_post; [|apply runs_commit_verified]].
  - intros fs l Hi. split; [|split; [by apply (Hp _ l)|by eapply Hc]].
    apply (begun_begun (i := i)) in Hi. apply Hi.
  - by intros [[]|] fs l Ho.
Qed.

Lemma outcome_on_fail cd r : keeps (outcome r) (on_fail (Unlinkat sched cd unixCommitEntry false) r).
Proof.
  apply survives_on_fail, (survives_unlink guarded); [apply outcome_robust|apply entry_name_ok; set_solver].
Qed.

(** One more step of a program that keeps an assertion of the kind [Begun]. *)
Ltac begun_next i :=
  apply (begun_step i _);
  [by intros|lazymatch goal with |- keeps _ (wrapping _ _) => apply survives_wrapping | |- _ => idtac end|intros ?];
  [lazymatch goal with
   | |- keeps _ (require _ _) => apply survives_require
   | |- keeps _ (authenticateUnixReplacement _ _ _ _ _) => apply (begun_authenticate i _)
   | |- keeps _ (Copy _ _ None _) => by apply (begun_copy i _)
   | |- keeps _ (Chmod _ _ _) => idtac
   | |- keeps _ (Copy _ _ _ _) => idtac
   | |- keeps _ (Unlinkat _ _ _ _) => by apply (begun_unlink i _)
   | |- _ => apply (begun_call i _)
   end|].

Lemma runs_bind_and_commit install name p digest mode cd : name ∉ guarded →
  spec (λ fs l, begun install fs l ∧ private_dir cd fs)
    (bind_and_commit sched install name p t digest mode cd) outcome.
Proof.
  intros Hn. unfold bind_and_commit. apply (begun_step install _); [by intros| |intros _].
  - apply survives_wrapping, (survives_link_descriptor guarded); [apply (begun_is_robust (i := install))|apply entry_name_ok; set_solver].
  - eapply (runs_finally _ _ _ outcome); [|apply outcome_on_fail]. do 10 begun_next install.
    apply (runs_commit_begun install _); [by intros ? ? [_ ?]|by intros ? ? [(_ & ? & _) _]].
Qed.

Lemma runs_copy_and_commit install name p digest mode cd : name ∉ guarded →
  spec (λ fs l, begun install fs l ∧ private_dir cd fs)
    (copy_and_commit sched install name p t digest mode cd) outcome.
Proof.
  intros Hn. unfold copy_and_commit. set (I := λ fs l, begun install fs l ∧ private_dir cd fs).
  apply (runs_bind _ _ _ (λ commitFile fs l, I fs l ∧ begun commitFile fs l)).
  { apply runs_wrapping. eapply runs_post; [|apply (runs_create guarded)].
    - intros [i|e] fs l [Hi Hm]; [|by eapply begun_safe, Hi]. split; [done|]. destruct Hm as [Hc (o & Ho & Hk)].
      split; [apply Hi|]. split; [done|]. by exists o.
    - apply (begun_is_robust (i := install)).
    - apply entry_name_ok. set_solver. }
  intros commitFile. eapply (runs_finally _ _ _ outcome); [|apply outcome_on_fail].
  begun_next install. begun_next install.
  { apply (begun_copy install _). intros d fs l [= <-] [_ Hb]. by eapply (begun_regular commitFile (begun commitFile)). }
  do 2 begun_next install. begun_next install.
  { apply (begun_chmod install _). intros fs l [_ Hb]. by eapply (begun_regular commitFile (begun commitFile)). }
  do 11 begun_next install.
  apply (runs_commit_begun install _); [by intros ? ? [[_ ?] _]|by intros ? ? [_ (_ & ? & _)]].
Qed.

Lemma runs_commit platform install name digest mode : name ∉ guarded →
  spec (begun install) (commit_on sched platform install name t digest mode) outcome.
Proof.
  intros Hn. destruct platform; cbn [commit_on].
  - unfold commitAuthenticatedUnixReplacement. do 4 begun_next install.
    apply runs_in_commit_directory; [apply begun_robust|apply begun_safe|].
    intros cd. by apply runs_bind_and_commit.
  - unfold commitAuthenticatedUnixReplacementByCopy. do 2 begun_next install.
    apply runs_in_commit_directory; [apply begun_robust|apply begun_safe|].
    intros cd. by apply runs_copy_and_commit.
Qed.

Lemma runs_fill source install name digest mode :
  spec (begun install) (fill_and_authenticate sched source install name digest mode)
    (λ r, match r with Ok _ => begun install | Fail _ => original_safe end).
Proof.
  unfold fill_and_authenticate. begun_next install.
  { apply (begun_copy install _). intros d fs l [= <-] Hb. by eapply (begun_regular install (begun install)). }
  do 10 begun_next install. begun_next install.
  { apply (begun_chmod install _). intros fs l Hb. by eapply (begun_regular install (begun install)). }
  do 4 begun_next install. apply runs_check; [apply begun_safe|by intros].
Qed.

Lemma outcome_remove name r : name ∉ guarded → keeps (outcome r) (on_fail (Remove sched name) r).
Proof. intros Hn. by apply survives_on_fail, (survives_remove guarded); [apply outcome_robust|]. Qed.

Lemma runs_replace platform staged digest mode :
  spec (λ _ l, ∀ p, quiet p t l) (replaceExecutable sched platform staged t digest mode) outcome.
Proof.
  unfold replaceExecutable. set (I := λ (_ : FS) l, ∀ p, quiet p t l).
  assert (Robust rely guarded I) as HI by (apply all_quiet_robust; unfold guarded; set_solver).
  assert (∀ fs l, I fs l → original_safe fs l) as Hsafe by apply quiet_safe.
  apply (runs_bind _ _ _ (λ _, I)).
  { by apply (runs_keeps I), survives_wrapping, (survives_query guarded). }
  intros source. apply (runs_bind _ _ _ (λ _, I)).
  { by apply (runs_keeps I), survives_wrapping, (survives_query guarded). }
  intros info. apply (runs_bind _ _ _ (λ _, I)); [by apply runs_check|]. intros _.
  apply (runs_bind _ _ _ (λ '(install, name) fs l, name ∉ guarded ∧ begun install fs l)).
  { apply runs_wrapping. eapply runs_post; [|apply (runs_temp guarded); [done|intros; apply temp_name_ok]].
    intros [[install name]|e] fs l [Hi Hm]; [|by apply Hsafe]. destruct Hm as [[Hc (o & Ho & Hk)] Hn].
    split; [done|]. split; [done|]. split; [done|]. by exists o. }
  intros [install name]. apply runs_pure. intros Hn.
  apply (runs_finally _ _ _ outcome); [|intros r; by apply outcome_remove].
  apply (runs_bind _ _ _ (λ _, begun install)); [apply runs_fill|]. intros _.
  apply runs_wrapping. eapply runs_post; [|by apply runs_commit]. by intros [[]|].
Qed.
End Keeps.

(** C8: The original executable is never lost. Other processes act between any two calls
    in any way but inside directories private to the owner, any call may fail, and
    platforms differ in the commit. A replacement that reports failure never changed
    the target's entry, or the object the target named when it was inspected is still
    named by the rollback entry of a private directory, or it was put back under the
    target's name and never moved again. One that reports success left under the
    target's name, after its last change, an object it created itself. *)
Theorem original_is_never_lost `{!Sha256} sched platform staged target digest mode fs r w' :
  target ∉ entry_names → (∀ time fs, civil fs (ev_env (sched time) fs)) →
  replaceExecutable sched platform staged target digest mode (mkWorld fs 0 []) = (r, w') →
  match r with
  | Ok _ => ∃ p src o, inspected p target o (w_log w') ∧ created src (w_log w') ∧ left_as p target src (w_log w')
  | Fail _ =>
      (∀ p, quiet p target (w_log w')) ∨
      ∃ p o, inspected p target o (w_log w') ∧
        ((∃ cd, retained cd o (w_fs w')) ∨ left_as p target o (w_log w'))
  end.
Proof.
  intros Ht Hcivil Hrun. pose proof (runs_replace sched civil (λ _ _ H, H) Hcivil target Ht platform staged digest mode) as Hspec.
  specialize (Hspec (mkWorld fs 0 []) (λ p, Forall_nil_2 _)). rewrite Hrun in Hspec. by destruct r.
Qed.
