(* ===== verification/SyncServer.v ===== *)
(** * The sync server ([internal/syncserver/server.go])

    Accounts and tokens, and the conditional storage of one opaque blob per
    account. A request is served in stages, between which other requests may run;
    each stage is what the server does under one of its locks. *)

From S2P Require Import Prelude GoStrings GoErrors Config SyncProtocol.

(** [golang.org/x/crypto/bcrypt]; the salt it draws is the first argument. *)
Class Bcrypt := {
  bcrypt_GenerateFromPassword : string → string → option string;
  bcrypt_CompareHashAndPassword : string → string → bool;
}.
Class BcryptLaws (B : Bcrypt) : Prop :=
  bcrypt_compare_generate salt password hash :
    bcrypt_GenerateFromPassword salt password = Some hash →
    bcrypt_CompareHashAndPassword hash password = true.

(** The JSON body of a login or registration: the first value of at most
    [1<<20] bytes, as email and password. *)
Class AuthJson := decode_auth : bytes → option (string * string).

Definition maxBlobBytes : Z := 67108864.
Definition maxTokenHashes : nat := 256.

Record user := mkUser {
  u_Email : string;
  u_PasswordHash : string;
  u_TokenHash : string;
  u_TokenHashes : list string;
  u_Verified : bool;
  u_UpdatedAt : string;
}.

(** [sv_Users] is the map in memory, [sv_users_file] what [users.json] holds, and
    [sv_vaults] the files under [vaults]. *)
Record Server := mkServer {
  sv_Users : gmap string user;
  sv_users_file : doc (gmap string user);
  sv_vaults : gmap string bytes;
}.

(** What one stage meets outside the server: the order in which Go iterates over
    the users, whether the vault file reads, the write, the random bytes of the
    token and of the password salt, whether the body arrives, and the time. *)
Record ServerIO := mkIO {
  io_order : list string;
  io_body_ok : bool;
  io_read_ok : bool;
  io_write : write_outcome;
  io_random : option bytes;
  io_salt : string;
  io_now : string;
}.

Section Server.
Context `{Sha256, Json, Bcrypt, AuthJson, UnicodeCase}.

(** ** Tokens and accounts *)

Definition constantTimeEqual (a b : string) : bool :=
  if empty_string a || empty_string b || negb (bool_decide (String.length a = String.length b))
  then false else bool_decide (a = b).

Definition appendTokenHash (tokens : list string) (tokenHash : string) : list string :=
  if empty_string tokenHash then tokens
  else if bool_decide (tokenHash ∈ tokens) then tokens
  else
    let tokens := tokens ++ [tokenHash] in
    if bool_decide (maxTokenHashes < length tokens)
    then drop (length tokens - maxTokenHashes) tokens else tokens.

Definition newToken (io : ServerIO) : option (string * string) :=
  raw ← io_random io;
  let token := hex_encode raw in
  Some (token, hashToken token).

Definition saveLocked (s : Server) (io : ServerIO) : Server * bool :=
  (mkServer (sv_Users s)
     (if write_stores (io_write io) then Doc (sv_Users s) else sv_users_file s) (sv_vaults s),
   write_succeeds (io_write io)).

Definition set_users (s : Server) (users : gmap string user) : Server :=
  mkServer users (sv_users_file s) (sv_vaults s).

Inductive add_result := Added | UserExists | SaveFailed.

Definition users_add (s : Server) (io : ServerIO) (u : user) : Server * add_result :=
  let key := ToLower (u_Email u) in
  match sv_Users s !! key with
  | Some _ => (s, UserExists)
  | None =>
      let '(s', ok) := saveLocked (set_users s (<[key := u]> (sv_Users s))) io in
      (s', if ok then Added else SaveFailed)
  end.

Definition users_update (s : Server) (io : ServerIO) (u : user) : Server * bool :=
  saveLocked (set_users s (<[ToLower (u_Email u) := u]> (sv_Users s))) io.

Definition users_get (s : Server) (email : string) : option user := sv_Users s !! ToLower email.

Definition token_matches (tokenHash : string) (u : user) : bool :=
  constantTimeEqual (u_TokenHash u) tokenHash
  || existsb (λ candidate, constantTimeEqual candidate tokenHash) (u_TokenHashes u).

(** The first matching user in the order of iteration. *)
Definition getByToken (s : Server) (order : list string) (tokenHash : string) : option user :=
  head (filter (λ u, token_matches tokenHash u = true) (omap (λ k, sv_Users s !! k) order)).

(** ** Responses *)

Definition writeError (status : Z) (msg : string) : Response :=
  mkResponse status "" "" (json_object "error" msg).
Definition writeJSON (name value : string) : Response :=
  mkResponse StatusOK "" "" (json_object name value).

(** ** Requests in flight *)

Inductive inflight :=
  | Arrived (r : Request)
  (** past [authenticate] *)
  | Authenticated (u : user) (r : Request)
  (** past the password check of [handleLogin] *)
  | LoggedIn (u : user)
  | Answered (answer : Response).

Definition authenticate (s : Server) (io : ServerIO) (r : Request) : Response + user :=
  let header := rq_Authorization r in
  if negb (HasPrefix header "Bearer ") then inl (writeError StatusUnauthorized "bearer token required")
  else
    let tokenHash := hashToken (TrimSpace (TrimPrefix header "Bearer ")) in
    match getByToken s (io_order io) tokenHash with
    | Some u => inr u
    | None => inl (writeError StatusUnauthorized "invalid token")
    end.

Definition vaultPath (email : string) : string := hashToken (ToLower email) +:+ ".blob".

Definition decodeAuthRequest (r : Request) : Response + (string * string) :=
  match decode_auth (rq_Body r) with
  | None => inl (writeError StatusBadRequest "invalid json")
  | Some (email, password) =>
      let email := TrimSpace (ToLower email) in
      if empty_string email || negb (Contains email "@") then
        inl (writeError StatusBadRequest "valid email required")
      else if bool_decide (String.length password < 8) then
        inl (writeError StatusBadRequest "password must be at least 8 characters")
      else inr (email, password)
  end.

Definition handleRegister (s : Server) (io : ServerIO) (r : Request) : Server * Response :=
  match decodeAuthRequest r with
  | inl answer => (s, answer)
  | inr (email, password) =>
      match bcrypt_GenerateFromPassword (io_salt io) password with
      | None => (s, writeError StatusInternalServerError "password hashing failed")
      | Some passwordHash =>
          match newToken io with
          | None => (s, writeError StatusInternalServerError "token generation failed")
          | Some (token, tokenHash) =>
              let u := mkUser email passwordHash tokenHash [tokenHash] true (io_now io) in
              match users_add s io u with
              | (s', Added) => (s', writeJSON "token" token)
              | (s', UserExists) => (s', writeError StatusConflict "account already exists")
              | (s', SaveFailed) => (s', writeError StatusInternalServerError "could not save account")
              end
          end
      end
  end.

(** [handleLogin] up to and including the password check. *)
Definition login_check (s : Server) (r : Request) : Response + user :=
  match decodeAuthRequest r with
  | inl answer => inl answer
  | inr (email, password) =>
      match users_get s email with
      | Some u =>
          if bcrypt_CompareHashAndPassword (u_PasswordHash u) password then inr u
          else inl (writeError StatusUnauthorized "invalid credentials")
      | None => inl (writeError StatusUnauthorized "invalid credentials")
      end
  end.

(** The rest of [handleLogin], on the account it read. *)
Definition login_store (s : Server) (io : ServerIO) (u : user) : Server * Response :=
  match newToken io with
  | None => (s, writeError StatusInternalServerError "token generation failed")
  | Some (token, tokenHash) =>
      let u' := mkUser (u_Email u) (u_PasswordHash u) tokenHash
                  (appendTokenHash (u_TokenHashes u) tokenHash) (u_Verified u) (io_now io) in
      match users_update s io u' with
      | (s', true) => (s', writeJSON "token" token)
      | (s', false) => (s', writeError StatusInternalServerError "could not save account")
      end
  end.

Definition handleStatus (u : user) : Response :=
  mkResponse StatusOK "" "" (json_object_bool "verified" (u_Verified u)).

Definition precondition_failed : Response :=
  writeError StatusPreconditionFailed "sync blob precondition failed".

(** [handlePush] under the account's push lock, from the read to the answer. *)
Definition push_locked (s : Server) (io : ServerIO) (path : string) (r : Request) : Server * Response :=
  if negb (io_read_ok io) then (s, writeError StatusInternalServerError "could not read sync blob")
  else
    let current := sv_vaults s !! path in
    let ifMatch := TrimSpace (rq_IfMatch r) in
    let ifNoneMatch := TrimSpace (rq_IfNoneMatch r) in
    let preconditioned := negb (empty_string ifMatch) || negb (empty_string ifNoneMatch) in
    let matches :=
      match current with
      | Some old => bool_decide (ifMatch = "*") || bool_decide (ifMatch = quoteETag (hashBytes old))
      | None => false
      end in
    if negb (empty_string ifMatch) && negb matches then (s, precondition_failed)
    else if bool_decide (ifNoneMatch = "*") && bool_decide (is_Some current) then (s, precondition_failed)
    else
      let s' := if write_stores (io_write io)
        then mkServer (sv_Users s) (sv_users_file s) (<[path := rq_Body r]> (sv_vaults s)) else s in
      if write_succeeds (io_write io)
      then (s', mkResponse StatusOK (quoteETag (hashBytes (rq_Body r)))
                  (if preconditioned then "1" else "") (json_object "status" "ok"))
      else (s', writeError StatusInternalServerError "could not store sync blob").

Definition handlePush (s : Server) (io : ServerIO) (u : user) (r : Request) : Server * Response :=
  if negb (io_body_ok io) || bool_decide (maxBlobBytes < Z.of_nat (length (rq_Body r)))%Z then
    (s, writeError StatusRequestEntityTooLarge "sync blob too large")
  else if bool_decide (rq_Body r = []) then (s, writeError StatusBadRequest "sync blob required")
  else push_locked s io (vaultPath (u_Email u)) r.

(** The file [handlePull] and [handleHead] read. *)
Definition read_vault (s : Server) (io : ServerIO) (u : user) : Response + bytes :=
  if negb (io_read_ok io) then inl (writeError StatusInternalServerError "could not read sync blob")
  else
    match sv_vaults s !! vaultPath (u_Email u) with
    | None => inl (writeError StatusNotFound "no vault found")
    | Some data => inr data
    end.

Definition handlePull (s : Server) (io : ServerIO) (u : user) : Response :=
  match read_vault s io u with
  | inl answer => answer
  | inr data => mkResponse StatusOK (quoteETag (hashBytes data)) "" data
  end.

(** A response to [HEAD] has no body. *)
Definition no_body (answer : Response) : Response :=
  mkResponse (rp_Status answer) (rp_ETag answer) (rp_Precondition answer) [].

Definition handleHead (s : Server) (io : ServerIO) (u : user) : Response :=
  no_body
    match read_vault s io u with
    | inl answer => answer
    | inr data => mkResponse StatusOK (quoteETag (hashBytes data)) "" []
    end.

Definition method_not_allowed (r : Request) : Response :=
  let answer := writeError StatusMethodNotAllowed "method not allowed" in
  if bool_decide (rq_Method r = HEAD) then no_body answer else answer.

(** ** One stage of a request *)

Definition arrive (s : Server) (io : ServerIO) (r : Request) : Server * inflight :=
  let only m (k : Server * inflight) :=
    if bool_decide (rq_Method r = m) then k else (s, Answered (method_not_allowed r)) in
  let authenticated :=
    match authenticate s io r with
    | inl answer => (s, Answered (if bool_decide (rq_Method r = HEAD) then no_body answer else answer))
    | inr u => (s, Authenticated u r)
    end in
  if bool_decide (rq_Path r = "/auth/register") then
    only POST (let '(s', answer) := handleRegister s io r in (s', Answered answer))
  else if bool_decide (rq_Path r = "/auth/login") then
    only POST (match login_check s r with
               | inl answer => (s, Answered answer) | inr u => (s, LoggedIn u) end)
  else if bool_decide (rq_Path r = "/auth/status") then only GET authenticated
  else if bool_decide (rq_Path r = "/sync") then
    if bool_decide (rq_Method r ∈ [PUT; GET; HEAD]) then authenticated
    else (s, Answered (method_not_allowed r))
  else
    only GET (s, Answered (if bool_decide (rq_Path r = "/") then writeJSON "status" "ok"
                           else writeError StatusNotFound "not found")).

Definition advance (s : Server) (io : ServerIO) (f : inflight) : Server * inflight :=
  match f with
  | Arrived r => arrive s io r
  | Authenticated u r =>
      if bool_decide (rq_Path r = "/auth/status") then (s, Answered (handleStatus u))
      else
        match rq_Method r with
        | PUT => let '(s', answer) := handlePush s io u r in (s', Answered answer)
        | GET => (s, Answered (handlePull s io u))
        | _ => (s, Answered (handleHead s io u))
        end
  | LoggedIn u => let '(s', answer) := login_store s io u in (s', Answered answer)
  | Answered answer => (s, Answered answer)
  end.

(** A request that no other one interleaves with. *)
Definition handle (s : Server) (io : ServerIO) (r : Request) : Server * Response :=
  let '(s1, f1) := advance s io (Arrived r) in
  match advance s1 io f1 with
  | (s2, Answered answer) => (s2, answer)
  | (s2, _) => (s2, writeError StatusInternalServerError "")
  end.

(** ** Starting *)

Definition loadUsers (file : doc (gmap string user)) (io : ServerIO) : result Server :=
  match file with
  | Missing =>
      let '(s, ok) := saveLocked (mkServer ∅ Missing ∅) io in
      if ok then Ok s else Fail (Errorf "save users")
  | Unreadable => Fail (Errorf "read users")
  | Malformed => Fail (Errorf "decode users")
  | Doc users => Ok (mkServer users file ∅)
  end.

(** [dirs_ok]: the data directory and its [vaults] directory were created and
    made private; [vaults] is what the latter holds. *)
Definition New (dataDir : string) (dirs_ok : bool) (file : doc (gmap string user))
    (vaults : gmap string bytes) (io : ServerIO) : result Server :=
  _ ← check (negb (empty_string dataDir)) (Errorf "data dir required");
  _ ← check dirs_ok (Errorf "prepare data dir");
  s ← loadUsers file io;
  Ok (mkServer (sv_Users s) (sv_users_file s) vaults).

(** ** Interleaving

    Requests are numbered; any of them may take its next stage at any time. The
    log records the pushes that changed a blob: path, content before, new content. *)
Record commit := mkCommit {
  cm_path : string;
  cm_before : option bytes;
  cm_after : bytes;
  cm_request : Request;
}.

Record config := mkConfig {
  cf_server : Server;
  cf_requests : gmap nat inflight;
  cf_log : list commit;
}.

Definition push_of (f : inflight) : option (user * Request) :=
  match f with
  | Authenticated u r =>
      if bool_decide (rq_Path r ≠ "/auth/status" ∧ rq_Method r = PUT) then Some (u, r) else None
  | _ => None
  end.

(** The commit of one stage, when it changed the stored blob. *)
Definition commits (s s' : Server) (f : inflight) : list commit :=
  match push_of f with
  | Some (u, r) =>
      let path := vaultPath (u_Email u) in
      if bool_decide (sv_vaults s' = sv_vaults s) then []
      else [mkCommit path (sv_vaults s !! path) (rq_Body r) r]
  | None => []
  end.

Inductive sv_step : config → config → Prop :=
  | step_arrive c i r :
      cf_requests c !! i = None →
      sv_step c (mkConfig (cf_server c) (<[i := Arrived r]> (cf_requests c)) (cf_log c))
  | step_advance c i f io s' f' :
      cf_requests c !! i = Some f → advance (cf_server c) io f = (s', f') →
      sv_step c (mkConfig s' (<[i := f']> (cf_requests c))
                   (cf_log c ++ commits (cf_server c) s' f)).
End Server.
