(* ===== verification/SyncServerFacts.v ===== *)
(** * What the sync server guarantees

    Accounts stay well formed, a blob changes only by an authenticated push whose
    precondition held, however requests interleave, and the server is an instance
    of the interface the client relies on. *)

From S2P Require Import Prelude GoStrings GoStringFacts GoErrors Config SyncProtocol SyncServer.

Section Facts.
Context `{Sha256, Json, Bcrypt, AuthJson, UnicodeCase}.

(** ** Tokens *)

Lemma constantTimeEqual_spec a b : constantTimeEqual a b = true ↔ a = b ∧ a ≠ "".
Proof.
  unfold constantTimeEqual, empty_string.
  repeat case_bool_decide; simpl; naive_solver.
Qed.

Lemma token_matches_spec h u :
  token_matches h u = true ↔ h ≠ "" ∧ (u_TokenHash u = h ∨ h ∈ u_TokenHashes u).
Proof.
  unfold token_matches. rewrite orb_true_iff, constantTimeEqual_spec, existsb_exists.
  setoid_rewrite constantTimeEqual_spec. setoid_rewrite <- list_elem_of_In. naive_solver.
Qed.

Lemma appendTokenHash_ok ts h :
  NoDup ts → length ts ≤ maxTokenHashes →
  NoDup (appendTokenHash ts h) ∧ length (appendTokenHash ts h) ≤ maxTokenHashes ∧
  (h ≠ "" → h ∈ appendTokenHash ts h).
Proof.
  intros Hnd Hlen. unfold appendTokenHash, empty_string.
  case_bool_decide; [naive_solver|]. case_bool_decide as Hin; [naive_solver|].
  assert (NoDup (ts ++ [h])) as Hnd'.
  { apply NoDup_app. split_and!; [done|set_solver|apply NoDup_singleton]. }
  cbv zeta. case_bool_decide as Hmax; [|split_and!; [done|lia|set_solver]].
  assert (1 ≤ maxTokenHashes) by (unfold maxTokenHashes; lia).
  rewrite length_app in *. simpl in *. split_and!.
  - eapply sublist_NoDup; [exact Hnd'|apply sublist_drop].
  - rewrite length_drop, length_app. simpl. lia.
  - intros _. rewrite drop_app_le by lia. set_solver.
Qed.

(** ** Accounts stay well formed *)

Definition account_ok (key : string) (u : user) : Prop :=
  key = ToLower (u_Email u) ∧ NoDup (u_TokenHashes u) ∧ length (u_TokenHashes u) ≤ maxTokenHashes.

Definition server_ok (s : Server) : Prop := map_Forall account_ok (sv_Users s).

Definition inflight_ok (f : inflight) : Prop :=
  match f with
  | LoggedIn u | Authenticated u _ => account_ok (ToLower (u_Email u)) u
  | _ => True
  end.

Lemma getByToken_Some s order h u :
  getByToken s order h = Some u → ∃ k, k ∈ order ∧ sv_Users s !! k = Some u ∧ token_matches h u = true.
Proof.
  unfold getByToken. intros Hu%head_Some_elem_of. apply list_elem_of_filter in Hu as [Hm Hu].
  apply list_elem_of_omap in Hu as (k & ? & ?). eauto.
Qed.

Lemma authenticate_Some s io r u :
  authenticate s io r = inr u →
  ∃ token, rq_Authorization r = "Bearer " +:+ token ∧
    getByToken s (io_order io) (hashToken (TrimSpace token)) = Some u.
Proof.
  unfold authenticate. destruct (HasPrefix _ _) eqn:E; [|done]. simpl.
  apply HasPrefix_spec in E as [token Ht].
  assert (TrimPrefix (rq_Authorization r) "Bearer " = token) as ->.
  { unfold TrimPrefix. by rewrite (proj2 (strip_prefix_Some _ _ _) Ht). }
  destruct (getByToken _ _ _) eqn:Eg; [|done]. intros. simplify_eq. eauto.
Qed.

Lemma authenticate_bearer s io r token :
  rq_Authorization r = "Bearer " +:+ token → TrimSpace token = token →
  authenticate s io r =
    match getByToken s (io_order io) (hashToken token) with
    | Some u => inr u
    | None => inl (writeError StatusUnauthorized "invalid token")
    end.
Proof.
  intros Hr Ht. unfold authenticate. rewrite Hr.
  assert (HasPrefix ("Bearer " +:+ token) "Bearer " = true) as -> by (apply HasPrefix_spec; eauto).
  assert (TrimPrefix ("Bearer " +:+ token) "Bearer " = token) as ->.
  { unfold TrimPrefix. by rewrite (proj2 (strip_prefix_Some _ _ token) eq_refl). }
  by rewrite Ht.
Qed.

Lemma saveLocked_fields s io s' ok :
  saveLocked s io = (s', ok) → sv_Users s' = sv_Users s ∧ sv_vaults s' = sv_vaults s.
Proof. unfold saveLocked. intros. by simplify_eq. Qed.

Lemma account_ok_self k u : account_ok k u → account_ok (ToLower (u_Email u)) u.
Proof. intros (-> & ? & ?). by split_and!. Qed.

Lemma handleRegister_ok s io r s' answer :
  handleRegister s io r = (s', answer) →
  sv_vaults s' = sv_vaults s ∧ (server_ok s → server_ok s').
Proof.
  unfold handleRegister. destruct (decodeAuthRequest r) as [|[email password]]; [by intros; simplify_eq|].
  destruct (bcrypt_GenerateFromPassword _ _); [|by intros; simplify_eq].
  destruct (newToken io) as [[token tokenHash]|]; [|by intros; simplify_eq].
  unfold users_add. cbn [u_Email]. destruct (sv_Users s !! _) eqn:E; [by intros; simplify_eq|].
  destruct (saveLocked _ _) as [s1 ok] eqn:Es. apply saveLocked_fields in Es as [Hu Hv].
  intros Hr. assert (s' = s1) as -> by (by destruct ok; simplify_eq).
  split; [done|]. intros Hok. unfold server_ok. rewrite Hu. cbn [set_users sv_Users].
  apply map_Forall_insert_2; [|done]. split; [done|]. cbn [u_TokenHashes].
  split; [apply NoDup_singleton|unfold maxTokenHashes; simpl; lia].
Qed.

Lemma login_store_ok s io u s' answer :
  login_store s io u = (s', answer) →
  sv_vaults s' = sv_vaults s ∧
  (account_ok (ToLower (u_Email u)) u → server_ok s → server_ok s').
Proof.
  unfold login_store. destruct (newToken io) as [[token tokenHash]|]; [|by intros; simplify_eq].
  unfold users_update. destruct (saveLocked _ _) as [s1 ok] eqn:Es.
  apply saveLocked_fields in Es as [Hu Hv].
  intros Hr. assert (s' = s1) as -> by (by destruct ok; simplify_eq).
  split; [done|]. intros (_ & Hnd & Hlen) Hok. unfold server_ok. rewrite Hu. cbn [set_users sv_Users].
  apply map_Forall_insert_2; [|done]. split; [done|]. cbn [u_TokenHashes].
  by destruct (appendTokenHash_ok (u_TokenHashes u) tokenHash Hnd Hlen) as (? & ? & _).
Qed.

(** ** What a push may do *)

Definition push_allowed (before : option bytes) (r : Request) : Prop :=
  (TrimSpace (rq_IfMatch r) ≠ "" →
    ∃ old, before = Some old ∧
      (TrimSpace (rq_IfMatch r) = "*" ∨ TrimSpace (rq_IfMatch r) = quoteETag (hashBytes old))) ∧
  (TrimSpace (rq_IfNoneMatch r) = "*" → before = None).

Lemma push_locked_spec s io path r s' answer :
  push_locked s io path r = (s', answer) →
  sv_Users s' = sv_Users s ∧
  (sv_vaults s' = sv_vaults s ∨
   sv_vaults s' = <[path := rq_Body r]> (sv_vaults s) ∧ push_allowed (sv_vaults s !! path) r) ∧
  (rp_Status answer = StatusOK →
   sv_vaults s' = <[path := rq_Body r]> (sv_vaults s) ∧ push_allowed (sv_vaults s !! path) r ∧
   rp_ETag answer = quoteETag (hashBytes (rq_Body r))) ∧
  (rp_Status answer = StatusPreconditionFailed →
   sv_vaults s' = sv_vaults s ∧ ¬ push_allowed (sv_vaults s !! path) r).
Proof.
  unfold push_locked.
  destruct (io_read_ok io); cbn [negb]; [|intros [= <- <-]; by split_and!; [|left|..]].
  set (current := sv_vaults s !! path). cbv zeta.
  set (hit := match current with Some old => _ | None => _ end).
  assert (hit = true ↔ ∃ old, current = Some old ∧
    (TrimSpace (rq_IfMatch r) = "*" ∨ TrimSpace (rq_IfMatch r) = quoteETag (hashBytes old))) as Hhit.
  { subst hit. destruct current; [|naive_solver].
    rewrite orb_true_iff, !bool_decide_eq_true. naive_solver. }
  destruct (negb (empty_string _) && negb hit) eqn:Em.
  { intros [= <- <-]. unfold empty_string in Em. bool_to_prop.
    split_and!; [done|by left|done|]. intros _. split; [done|].
    intros [Hp _]. specialize (Hp ltac:(done)). apply Hhit in Hp. congruence. }
  destruct (bool_decide (TrimSpace (rq_IfNoneMatch r) = "*") && _) eqn:En.
  { intros [= <- <-]. apply andb_true_iff in En as [Hn Hc]. bool_to_prop.
    split_and!; [done|by left|done|]. intros _. split; [done|].
    intros [_ Hp]. rewrite (Hp ltac:(done)) in Hc. by destruct Hc. }
  assert (push_allowed current r) as Hall.
  { split.
    - intros Hne. apply Hhit. destruct hit; [done|]. unfold empty_string in Em.
      by rewrite bool_decide_eq_false_2 in Em.
    - intros Hs. rewrite (bool_decide_eq_true_2 _ Hs) in En. cbn [andb] in En. bool_to_prop.
      by apply eq_None_not_Some. }
  destruct (io_write io); cbn [write_stores write_succeeds]; intros [= <- <-];
    split_and!; try done; by auto.
Qed.

Lemma advance_spec s io f s' f' :
  advance s io f = (s', f') →
  (server_ok s → inflight_ok f → server_ok s' ∧ inflight_ok f') ∧
  (sv_vaults s' = sv_vaults s ∨
   ∃ u r, push_of f = Some (u, r) ∧
     sv_vaults s' = <[vaultPath (u_Email u) := rq_Body r]> (sv_vaults s) ∧
     push_allowed (sv_vaults s !! vaultPath (u_Email u)) r).
Proof.
  destruct f as [r|u r|u|answer]; cbn [advance].
  - unfold arrive. cbv zeta.
    set (auth := match authenticate s io r with inl _ => _ | inr _ => _ end).
    assert (∀ g, auth = (s', g) →
      (server_ok s → server_ok s' ∧ inflight_ok g) ∧ sv_vaults s' = sv_vaults s) as Hauth.
    { intros g. subst auth. destruct (authenticate s io r) as [|u] eqn:Ea; intros [= <- <-]; [done|].
      split; [|done]. intros Hs. split; [done|].
      apply authenticate_Some in Ea as (? & _ & (k & _ & Hk & _)%getByToken_Some).
      by apply (account_ok_self k), (Hs _ _ Hk). }
    clearbody auth.
    repeat case_bool_decide; try (intros; simplify_eq/=; by auto).
    + destruct (handleRegister s io r) as [s1 answer] eqn:E.
      apply handleRegister_ok in E as [Hv Hs]. intros; simplify_eq/=. auto.
    + destruct (login_check s r) as [|u] eqn:E; intros [= <- <-]; [by auto|].
      split; [|by left]. intros Hs _. split; [done|].
      unfold login_check in E. destruct (decodeAuthRequest r) as [|[email password]]; [done|].
      unfold users_get in E. destruct (sv_Users s !! _) as [u'|] eqn:Eu; [|done].
      destruct (bcrypt_CompareHashAndPassword _ _) in E; simplify_eq.
      by apply (account_ok_self (ToLower email)), (Hs _ _ Eu).
    + intros [Ha Hv]%Hauth. auto.
    + intros [Ha Hv]%Hauth. auto.
  - case_bool_decide as Hp; [intros; simplify_eq/=; by auto|].
    destruct (rq_Method r) eqn:Em; try (intros; simplify_eq/=; by auto).
    unfold handlePush. destruct (_ || _); [intros; simplify_eq/=; by auto|].
    case_bool_decide; [intros; simplify_eq/=; by auto|].
    destruct (push_locked s io _ r) as [s1 answer] eqn:E. intros; simplify_eq/=.
    apply push_locked_spec in E as (Hu & Hv & _ & _).
    split; [intros; split; [|done]; unfold server_ok; by rewrite Hu|].
    destruct Hv as [?|[Hv Ha]]; [by left|].
    right. exists u, r. split; [|done]. unfold push_of. by rewrite bool_decide_eq_true_2.
  - destruct (login_store s io u) as [s1 answer] eqn:E. apply login_store_ok in E as [Hv Hs].
    intros; simplify_eq/=. auto.
  - intros; simplify_eq. auto.
Qed.

(** ** Interleaved requests *)

Definition config_ok (c : SyncServer.config) : Prop :=
  server_ok (cf_server c) ∧ map_Forall (λ _, inflight_ok) (cf_requests c).

Definition replay (vaults : gmap string bytes) (log : list commit) : gmap string bytes :=
  foldl (λ m c, <[cm_path c := cm_after c]> m) vaults log.

(** Every commit found what the commits before it left, and was allowed to. *)
Fixpoint log_ok (vaults : gmap string bytes) (log : list commit) : Prop :=
  match log with
  | [] => True
  | c :: log' =>
      cm_before c = vaults !! cm_path c ∧ cm_after c = rq_Body (cm_request c) ∧
      push_allowed (cm_before c) (cm_request c) ∧ log_ok (<[cm_path c := cm_after c]> vaults) log'
  end.

Lemma log_ok_app vaults l1 l2 : log_ok vaults (l1 ++ l2) ↔ log_ok vaults l1 ∧ log_ok (replay vaults l1) l2.
Proof.
  revert vaults. induction l1 as [|c l1 IH]; intros vaults; simpl; [tauto|]. rewrite IH. tauto.
Qed.

Lemma replay_app vaults l1 l2 : replay vaults (l1 ++ l2) = replay (replay vaults l1) l2.
Proof. apply foldl_app. Qed.

Lemma replay_cons vaults c l : replay vaults (c :: l) = replay (<[cm_path c := cm_after c]> vaults) l.
Proof. done. Qed.

Lemma commits_spec s io f s' f' :
  advance s io f = (s', f') →
  log_ok (sv_vaults s) (commits s s' f) ∧ sv_vaults s' = replay (sv_vaults s) (commits s s' f).
Proof.
  intros [_ Hv]%advance_spec. unfold commits. destruct Hv as [Hv|(u & r & Hp & Hv & Ha)].
  - rewrite (bool_decide_eq_true_2 _ Hv). by destruct (push_of f) as [[]|].
  - rewrite Hp. case_bool_decide as Hs; [by rewrite Hs|]. by split_and!.
Qed.

Lemma reachable_ok c c' :
  rtc sv_step c c' → config_ok c → cf_log c = [] →
  config_ok c' ∧ log_ok (sv_vaults (cf_server c)) (cf_log c') ∧
  sv_vaults (cf_server c') = replay (sv_vaults (cf_server c)) (cf_log c').
Proof.
  intros Hrtc Hok Hlog. revert c' Hrtc. refine (rtc_ind_r _ c _ _); [by rewrite Hlog|].
  intros c1 c2 _ Hstep ([Hs Hr] & Hl & Hv).
  destruct Hstep as [c1 i r Hi|c1 i f io s' f' Hi Ha]; simpl.
  - split_and!; [split; [done|]|done|done]. by apply map_Forall_insert_2.
  - apply advance_spec in Ha as Hsp. destruct Hsp as [Hsp _].
    destruct (Hsp Hs (Hr _ _ Hi)) as [Hs' Hf']. apply commits_spec in Ha as [Hc Hv'].
    split_and!; [split; [done|by apply map_Forall_insert_2]| |].
    + apply log_ok_app. by rewrite <- Hv.
    + by rewrite replay_app, <- Hv.
Qed.

Lemma replay_lookup vaults log p :
  (∃ c, c ∈ log ∧ cm_path c = p ∧ replay vaults log !! p = Some (cm_after c)) ∨
  (Forall (λ c, cm_path c ≠ p) log ∧ replay vaults log !! p = vaults !! p).
Proof.
  induction log as [|c log IH] using rev_ind; [by right|].
  rewrite replay_app. cbn [replay foldl].
  destruct (decide (cm_path c = p)) as [<-|Hne].
  - left. exists c. rewrite lookup_insert_eq. set_solver.
  - rewrite lookup_insert_ne by done.
    destruct IH as [(c' & ? & ? & ?)|[Hall Hl]]; [left; exists c'; set_solver|].
    right. split; [|done]. apply Forall_app. by repeat constructor.
Qed.

Lemma quoteETag_inj a b : quoteETag a = quoteETag b → a = b.
Proof.
  unfold quoteETag. intros [= E]%(f_equal string_rev).
  rewrite !string_rev_distr in E. apply (f_equal string_rev) in E.
  rewrite !string_rev_distr, !string_rev_involutive in E.
  unfold dquote in E. rewrite !app_cons, !app_nil in E.
  injection E as E. revert b E. induction a as [|x a IH]; intros [|y b] E; simplify_eq/=; try done.
  - destruct b; simplify_eq.
  - destruct a; simplify_eq.
  - f_equal. by apply IH.
Qed.

(** Identities and their quoted forms have nothing to trim. *)
Lemma identity_hex identity :
  publicationIdentityPattern identity = true → string_forall is_hex_digit identity = true.
Proof. unfold publicationIdentityPattern. by intros [_ ?]%andb_true_iff. Qed.

Lemma TrimSpace_identity identity :
  publicationIdentityPattern identity = true → TrimSpace identity = identity.
Proof. intros. by apply TrimSpace_solid, hex_digits_solid, identity_hex. Qed.

Lemma TrimSpace_quoteETag identity :
  publicationIdentityPattern identity = true → TrimSpace (quoteETag identity) = quoteETag identity.
Proof.
  intros Hp%identity_hex%hex_digits_solid. apply TrimSpace_solid.
  unfold quoteETag. by rewrite !string_forall_app, Hp.
Qed.

(** C10: However requests interleave, no update is lost: once a push has replaced the
    blob a conditional push names, that conditional push stores nothing until the
    named blob is back; and a first push ([If-None-Match: *]) stores nothing after
    any other push of the account. *)
Theorem push_no_lost_update c c' l1 c1 l2 c2 l3 :
  rtc sv_step c c' → config_ok c → cf_log c = [] →
  cf_log c' = l1 ++ c1 :: l2 ++ c2 :: l3 → cm_path c1 = cm_path c2 →
  (∀ identity, publicationIdentityPattern identity = true →
    rq_IfMatch (cm_request c2) = quoteETag identity → hashBytes (cm_after c1) ≠ identity →
    ∃ cm, cm ∈ l2 ∧ cm_path cm = cm_path c2 ∧ hashBytes (cm_after cm) = identity) ∧
  TrimSpace (rq_IfNoneMatch (cm_request c2)) ≠ "*".
Proof.
  intros Hrtc Hok Hlog Hl Hpath. destruct (reachable_ok c c' Hrtc Hok Hlog) as (_ & Hl' & _).
  rewrite Hl, (app_comm_cons l2), app_assoc in Hl'. apply log_ok_app in Hl' as [_ Hl'].
  cbn [log_ok] in Hl'. destruct Hl' as (Hb & _ & [Hm Hn] & _).
  rewrite replay_app, replay_cons in Hb. set (m := <[_ := _]> _) in Hb.
  assert (m !! cm_path c2 = Some (cm_after c1)) as Hc1 by (rewrite <- Hpath; apply lookup_insert_eq).
  pose proof (replay_lookup m l2 (cm_path c2)) as Hr. rewrite <- Hb, Hc1 in Hr. split.
  - intros identity Hid Hif Hne. rewrite Hif, TrimSpace_quoteETag in Hm by done.
    destruct Hm as (old & Ho & Hold); [by destruct identity|].
    assert (hashBytes old = identity) as Hh.
    { destruct Hold as [Hold|Hold]; [done|]. by apply quoteETag_inj in Hold. }
    rewrite Ho in Hr. destruct Hr as [(cm & ? & ? & [= ->])|[_ [= ->]]]; [by exists cm|done].
  - intros Hs. rewrite (Hn Hs) in Hr. by destruct Hr as [(? & _ & _ & [=])|[_ [=]]].
Qed.

(** C32: Accounts keep distinct, bounded token lists under their normalised email,
    whatever requests arrive and however they interleave. *)
Theorem accounts_stay_well_formed c c' key u :
  rtc sv_step c c' → config_ok c → cf_log c = [] →
  sv_Users (cf_server c') !! key = Some u →
  key = ToLower (u_Email u) ∧ NoDup (u_TokenHashes u) ∧ length (u_TokenHashes u) ≤ 256.
Proof.
  intros Hrtc Hok Hlog Hu. destruct (reachable_ok c c' Hrtc Hok Hlog) as ([Hs _] & _).
  exact (Hs _ _ Hu).
Qed.

(** ** Requests one at a time *)

Definition after_auth (s : Server) (io : ServerIO) (u : user) (r : Request) : Server * Response :=
  match rq_Method r with
  | PUT => handlePush s io u r
  | GET => (s, handlePull s io u)
  | _ => (s, handleHead s io u)
  end.

Lemma handle_sync s io r u :
  authenticate s io r = inr u → rq_Path r = "/sync" → rq_Method r ∈ [PUT; GET; HEAD] →
  handle s io r = after_auth s io u r.
Proof.
  intros Ha Hp Hm. unfold handle. cbn [advance]. unfold arrive. rewrite Hp, Ha.
  rewrite (bool_decide_eq_true_2 _ Hm). cbn [bool_decide decide_rel].
  rewrite !bool_decide_eq_false_2 by done. rewrite (bool_decide_eq_true_2 ("/sync" = "/sync")) by done.
  cbn [advance]. rewrite Hp, (bool_decide_eq_false_2 ("/sync" = "/auth/status")) by done.
  unfold after_auth. destruct (rq_Method r); try done. by destruct (handlePush s io u r).
Qed.

Lemma handlePush_spec s io u r s' answer :
  handlePush s io u r = (s', answer) →
  (s' = s ∧ rp_Status answer ≠ StatusOK ∧ rp_Status answer ≠ StatusPreconditionFailed) ∨
  rq_Body r ≠ [] ∧ (Z.of_nat (length (rq_Body r)) ≤ maxBlobBytes)%Z ∧
  push_locked s io (vaultPath (u_Email u)) r = (s', answer).
Proof.
  unfold handlePush. destruct (_ || _) eqn:E; [intros [= <- <-]; by left|]. bool_to_prop.
  case_bool_decide; [intros [= <- <-]; by left|]. intros Hp. right. split_and!; [done|lia|done].
Qed.

(** A request changes a stored blob only if it is a push that carries a token of
    the blob's account, its body is not empty nor too large, and its precondition
    holds; it then stores exactly its body, and for that account only. *)
Theorem blob_changes_need_token s io r s' answer :
  handle s io r = (s', answer) → sv_vaults s' ≠ sv_vaults s →
  rq_Method r = PUT ∧ rq_Path r = "/sync" ∧ rq_Body r ≠ [] ∧
  (Z.of_nat (length (rq_Body r)) ≤ maxBlobBytes)%Z ∧
  ∃ token u key, rq_Authorization r = "Bearer " +:+ token ∧
    sv_Users s !! key = Some u ∧ token_matches (hashToken (TrimSpace token)) u = true ∧
    push_allowed (sv_vaults s !! vaultPath (u_Email u)) r ∧
    sv_vaults s' = <[vaultPath (u_Email u) := rq_Body r]> (sv_vaults s).
Proof.
  unfold handle. destruct (advance s io (Arrived r)) as [s1 f1] eqn:E1.
  destruct (advance s1 io f1) as [s2 f2] eqn:E2. intros Hh Hne.
  assert (s' = s2) as -> by (by destruct f2; simplify_eq).
  apply advance_spec in E1 as Hs1. destruct Hs1 as [_ [Hv1|(? & ? & [=] & _)]].
  apply advance_spec in E2 as Hs2. destruct Hs2 as [_ [Hv2|(u & r' & Hp & Hv2 & Ha)]];
    [congruence|].
  assert (authenticate s io r = inr u ∧ r' = r ∧ s1 = s ∧ f1 = Authenticated u r ∧
    rq_Method r = PUT ∧ rq_Path r = "/sync") as (Hauth & -> & -> & -> & Hm & Hpath).
  { unfold push_of in Hp. destruct f1 as [| |u1|]; try done. case_bool_decide as Hst; [|done].
    destruct Hst as [Hst Hm]. injection Hp as -> ->. cbn [advance] in E1. unfold arrive in E1. cbv zeta in E1.
    destruct (authenticate s io r) as [|u0] eqn:Ea; repeat case_bool_decide; simplify_eq; try done.
    all: try (destruct (handleRegister s io r)); try (destruct (login_check s r)); simplify_eq; done. }
  cbn [advance] in E2. rewrite Hpath, Hm in E2. rewrite bool_decide_eq_false_2 in E2 by done.
  destruct (handlePush s io u r) as [s3 answer3] eqn:Ep. simplify_eq.
  apply handlePush_spec in Ep as [(-> & _ & _)|(Hb & Hl & _)]; [done|].
  apply authenticate_Some in Hauth as (token & Ht & (key & _ & Hk & Hmatch)%getByToken_Some).
  split_and!; [done..|]. by exists token, u, key.
Qed.

(** A token that a login returned authenticates as the account that logged in,
    when no other request came in between and the random token is new. *)
Theorem login_token_authenticates `{!Sha256Laws _} s io r s' answer :
  handle s io r = (s', answer) → rq_Path r = "/auth/login" → rp_Status answer = StatusOK →
  ∃ email password token,
    decodeAuthRequest r = inr (email, password) ∧ answer = writeJSON "token" token ∧
    (server_ok s → map_Forall (λ _ u, token_matches (hashToken token) u = false) (sv_Users s) →
      ∀ io' r', ToLower email ∈ io_order io' → rq_Authorization r' = "Bearer " +:+ token →
        ∃ u, authenticate s' io' r' = inr u ∧ sv_Users s' !! ToLower email = Some u).
Proof.
  unfold handle. cbn [advance]. unfold arrive. intros Hh Hp Hst. rewrite Hp in Hh.
  rewrite bool_decide_eq_false_2 in Hh by done. cbv zeta in Hh.
  rewrite (bool_decide_eq_true_2 ("/auth/login" = "/auth/login")) in Hh by done.
  case_bool_decide.
  2: { cbn [advance] in Hh. injection Hh as <- <-. revert Hst. unfold method_not_allowed.
       cbv zeta. by case_bool_decide. }
  destruct (login_check s r) as [a|u] eqn:Ec.
  { cbn [advance] in Hh. simplify_eq. exfalso. revert Ec Hst. unfold login_check, decodeAuthRequest.
    repeat (case_match; try done); intros; simplify_eq/=. }
  unfold login_check in Ec. destruct (decodeAuthRequest r) as [|[email password]] eqn:Ed; [done|].
  unfold users_get in Ec. destruct (sv_Users s !! ToLower email) as [u'|] eqn:Eu; [|done].
  destruct (bcrypt_CompareHashAndPassword _ _) in Ec; [|done]. injection Ec as ->.
  cbn [advance] in Hh. unfold login_store in Hh.
  destruct (newToken io) as [[token tokenHash]|] eqn:Et; [|by simplify_eq].
  destruct (users_update s io _) as [s1 ok] eqn:Es. destruct ok; [|by simplify_eq].
  injection Hh as <- <-. exists email, password, token. split_and!; [done..|].
  intros Hok Hfresh io' r' Hin Hr'.
  unfold newToken in Et. destruct (io_random io) as [raw|]; [|done]. cbn in Et. injection Et as <- <-.
  set (token := hex_encode raw) in *. set (u1 := mkUser _ _ _ _ _ _) in *.
  apply saveLocked_fields in Es as [Hu _]. cbn [set_users sv_Users u_Email] in Hu.
  destruct (Hok _ _ Eu) as [He _]. change (u_Email u1) with (u_Email u) in Hu.
  rewrite <- He in Hu. exists u1.
  assert (token_matches (hashToken token) u1 = true) as Hm1.
  { apply token_matches_spec. split; [|by left]. unfold hashToken, hashBytes. intros Hempty.
    apply (f_equal String.length) in Hempty. rewrite hex_encode_length, sha256_length in Hempty. done. }
  split; [|rewrite Hu; apply lookup_insert_eq].
  rewrite (authenticate_bearer s1 io' r' token); [|done|].
  2: { apply TrimSpace_solid, hex_digits_solid, hex_encode_digits. }
  assert (getByToken s1 (io_order io') (hashToken token) = Some u1) as ->; [|done].
  unfold getByToken. rewrite Hu. clear -Hin Hm1 Hfresh.
  induction (io_order io') as [|k ks IH]; [by apply elem_of_nil in Hin|]. cbn [omap list_omap].
  destruct (decide (k = ToLower email)) as [->|Hne].
  - rewrite lookup_insert_eq. cbn beta iota. by rewrite filter_cons_True by done.
  - rewrite lookup_insert_ne by done. apply elem_of_cons in Hin as [?|Hin]; [congruence|].
    destruct (sv_Users s !! k) as [v|] eqn:E; [|by apply IH]. cbn beta iota.
    rewrite filter_cons_False; [by apply IH|]. by rewrite (Hfresh _ _ E).
Qed.

(** ** The interface of the client *)

Lemma handle_sync_users s io r : rq_Path r = "/sync" → sv_Users (fst (handle s io r)) = sv_Users s.
Proof.
  intros Hp. destruct (authenticate s io r) as [a|u] eqn:Ea.
  - unfold handle. cbn [advance]. unfold arrive. rewrite Hp, Ea.
    rewrite !bool_decide_eq_false_2 by done.
    rewrite (bool_decide_eq_true_2 ("/sync" = "/sync")) by done. cbv zeta.
    by case_bool_decide.
  - destruct (decide (rq_Method r ∈ [PUT; GET; HEAD])) as [Hm|Hm].
    + rewrite (handle_sync s io r u) by done. unfold after_auth.
      destruct (rq_Method r); try done. destruct (handlePush s io u r) as [s' answer] eqn:E.
      apply handlePush_spec in E as [(-> & _)|(_ & _ & E)]; [done|].
      by apply push_locked_spec in E as [? _].
    + unfold handle. cbn [advance]. unfold arrive. rewrite Hp.
      rewrite (bool_decide_eq_false_2 (rq_Method r ∈ _)) by done.
      rewrite !bool_decide_eq_false_2 by done.
      by rewrite (bool_decide_eq_true_2 ("/sync" = "/sync")) by done.
Qed.

Section Service.
Variable ios : nat → ServerIO.
Variable token path : string.
Hypothesis token_trimmed : TrimSpace token = token.

(** The server as a service: the [n]th request meets [ios n]. *)
#[local] Instance server_service : SyncService (Server * nat) := λ '(s, n) r,
  let '(s', answer) := handle s (ios n) r in ((s', S n), answer).

(** The token is one of the account whose blob is at [path]. *)
Definition token_of (s : Server * nat) : Prop :=
  ∀ n, ∃ u, getByToken (fst s) (io_order (ios n)) (hashToken token) = Some u ∧
    vaultPath (u_Email u) = path.

Definition stored_at (s : Server * nat) : option bytes := sv_vaults (fst s) !! path.

Lemma serve_authenticated s r :
  token_of s → rq_Path r = "/sync" → rq_Authorization r = "Bearer " +:+ token →
  rq_Method r ∈ [PUT; GET; HEAD] →
  ∃ u, vaultPath (u_Email u) = path ∧
    serve s r = let '(s', answer) := after_auth (fst s) (ios (snd s)) u r in ((s', S (snd s)), answer).
Proof.
  intros Ht Hp Ha Hm. destruct s as [s n]. destruct (Ht n) as (u & Hg & Hu). exists u. split; [done|].
  unfold serve, server_service. cbn [fst snd]. rewrite (handle_sync s (ios n) r u); [done| |done..].
  rewrite (authenticate_bearer _ _ _ token) by done. cbn [fst] in Hg. by rewrite Hg.
Qed.

Lemma read_vault_spec s io u :
  match read_vault s io u with
  | inr data => sv_vaults s !! vaultPath (u_Email u) = Some data
  | inl answer => rp_Status answer ≠ StatusOK ∧
      (rp_Status answer = StatusNotFound → sv_vaults s !! vaultPath (u_Email u) = None)
  end.
Proof.
  unfold read_vault. destruct (io_read_ok io); [|done]. cbn [negb].
  by destruct (sv_vaults s !! _) eqn:E.
Qed.

#[export] Instance server_service_laws :
  SyncServiceLaws server_service token token_of stored_at.
Proof.
  split.
  - intros [s n] r Ht Hp m. destruct (Ht m) as (u & Hg & Hu). exists u. split; [|done].
    unfold serve, server_service. pose proof (handle_sync_users s (ios n) r Hp) as Hus.
    destruct (handle s (ios n) r) as [s' answer]. cbn [fst] in *.
    unfold getByToken in *. by rewrite Hus.
  - intros s r Ht Hm Hp Ha. destruct (serve_authenticated s r Ht Hp Ha) as (u & Hu & ->);
      [rewrite Hm; set_solver|].
    unfold after_auth. rewrite Hm. cbn [fst snd]. split; [done|]. unfold handleHead, stored_at.
    pose proof (read_vault_spec (fst s) (ios (snd s)) u) as Hr. rewrite Hu in Hr.
    destruct (read_vault _ _ _) as [a|data]; cbn [no_body rp_Status rp_ETag];
      [by split; [intros ?; destruct Hr|apply Hr]|]. split; [|done]. by exists data.
  - intros s r Ht Hm Hp Ha. destruct (serve_authenticated s r Ht Hp Ha) as (u & Hu & ->);
      [rewrite Hm; set_solver|].
    unfold after_auth. rewrite Hm. cbn [fst snd]. split; [done|]. unfold handlePull, stored_at.
    pose proof (read_vault_spec (fst s) (ios (snd s)) u) as Hr. rewrite Hu in Hr.
    destruct (read_vault _ _ _) as [a|data]; [by intros ?; destruct Hr|done].
  - intros s r Ht Hm Hp Ha. destruct (serve_authenticated s r Ht Hp Ha) as (u & Hu & ->);
      [rewrite Hm; set_solver|].
    unfold after_auth. rewrite Hm. destruct (handlePush _ _ _ _) as [s' answer] eqn:E.
    cbn [fst snd]. unfold stored_at. cbn [fst].
    apply handlePush_spec in E as [(-> & ? & ?)|(_ & _ & E)]; [done|].
    apply push_locked_spec in E as (_ & _ & Hok & Hpre). rewrite Hu in *. split.
    + intros Hst. destruct (Hok Hst) as (-> & [Hif Hn] & ->).
      rewrite lookup_insert_eq. split_and!; [done|done| |].
      * intros identity Hid Heq. rewrite Heq, TrimSpace_quoteETag in Hif by done.
        destruct Hif as (old & Hold & Hh); [by destruct identity|]. exists old. split; [done|].
        destruct Hh as [Hh|Hh]; [done|]. by apply quoteETag_inj in Hh.
      * intros Heq. apply Hn. by rewrite Heq, TrimSpace_solid.
    + intros Hst. by destruct (Hpre Hst) as [-> _].
Qed.
End Service.
End Facts.
