(* ===== verification/Ledger.v ===== *)
(** * The pending-mutation ledger ([internal/inventorytransaction/transaction.go])

    A vault carries its working inventory and, once it has been changed locally,
    the inventory last published ([PendingBase]) with the list of mutations made
    since. Publication projects the base forward by all the pending mutations or
    by a single one; a single one may be published alone only when
    [dependencies] finds no earlier mutation it relies on.

    Go maps are iterated in an unspecified order: [applyKeyDelta_in] takes the
    two orders as arguments, and [applyKeyDelta_order] shows that they do not
    matter. *)

From S2P Require Import Prelude NamedList GoStrings GoErrors VaultBlob Config.

(** ** Lookup and removal in a vault *)

Definition exactConnectionIndex (v : Vault) (alias : string) : option nat :=
  index_of c_Name alias (v_Connections v).

Definition set_connections (v : Vault) (cs : list Connection) : Vault :=
  mkVault cs (v_Keys v) (v_PendingBase v) (v_PendingMutations v).
Definition set_keys (v : Vault) (ks : list SSHKey) : Vault :=
  mkVault (v_Connections v) ks (v_PendingBase v) (v_PendingMutations v).

(** The vault after the call and whether a key was removed. *)
Definition removeKeyByName (v : Vault) (name : string) : Vault * bool :=
  match index_of k_Name name (v_Keys v) with
  | Some i => (set_keys v (take i (v_Keys v) ++ drop (S i) (v_Keys v)), true)
  | None => (v, false)
  end.

Definition inventoryOnly (v : Vault) : Vault :=
  mkVault (v_Connections v) (v_Keys v) None [].

Definition snapshotInventory (v : Vault) : InventorySnapshot :=
  mkSnapshot (v_Connections v) (v_Keys v).

(** ** Key deltas *)

Definition keyChange (before after : list SSHKey) (name : string) : string :=
  match keyByName before name, keyByName after name with
  | None, Some _ => "create"
  | Some _, None => "delete"
  | Some previous, Some next => if bool_decide (previous = next) then "" else "replace"
  | None, None => ""
  end.

(** The names of the two lists, as the keys of a map: without duplicates. *)
Definition name_set (before after : list SSHKey) : list string :=
  remove_dups (names k_Name before ++ names k_Name after).

Definition changedKeyNames (before after : list SSHKey) : list string :=
  sort_strings (filter (λ n, keyChange before after n ≠ "") (name_set before after)).

Definition keyDelta (before after : list SSHKey) : list SSHKey * list SSHKey :=
  let beforeByName := last_by_name k_Name before in
  let afterByName := last_by_name k_Name after in
  let changedNames := sort_strings
    (filter (λ n, beforeByName !! n = None ∨ afterByName !! n = None
                  ∨ beforeByName !! n ≠ afterByName !! n)
            (name_set before after)) in
  (omap (λ n, beforeByName !! n) changedNames, omap (λ n, afterByName !! n) changedNames).

(** The bodies of the two loops of [applyKeyDelta]. *)
Definition delta_step_before (beforeByName afterByName : gmap string SSHKey)
    (ks : list SSHKey) (name : string) : list SSHKey :=
  match beforeByName !! name with
  | None => ks
  | Some previous =>
      match afterByName !! name with
      | Some next =>
          if bool_decide (next = previous) then ks
          else remove_first k_Name name ks ++ [next]
      | None => remove_first k_Name name ks
      end
  end.

Definition delta_step_after (beforeByName afterByName : gmap string SSHKey)
    (ks : list SSHKey) (name : string) : list SSHKey :=
  match afterByName !! name with
  | None => ks
  | Some next =>
      match beforeByName !! name with
      | Some _ => ks
      | None => remove_first k_Name name ks ++ [next]
      end
  end.

Definition applyKeyDelta_in (order1 order2 : list string)
    (ks before after : list SSHKey) : list SSHKey :=
  let b := last_by_name k_Name before in
  let a := last_by_name k_Name after in
  sort_by k_Name (foldl (delta_step_after b a) (foldl (delta_step_before b a) ks order1) order2).

Definition applyKeyDelta (v : Vault) (before after : list SSHKey) : Vault :=
  set_keys v (applyKeyDelta_in (remove_dups (names k_Name before))
                (remove_dups (names k_Name after)) (v_Keys v) before after).

Definition applyMutation (v : Vault) (mutation : PendingMutation) : Vault :=
  match m_BulkAfter mutation with
  | Some bulk =>
      mkVault (s_Connections bulk) (s_Keys bulk) (v_PendingBase v) (v_PendingMutations v)
  | None =>
      let v1 :=
        if bool_decide (m_KeyName mutation = "") then
          match m_After mutation, exactConnectionIndex v (m_Alias mutation) with
          | None, Some idx =>
              set_connections v (take idx (v_Connections v) ++ drop (S idx) (v_Connections v))
          | None, None => v
          | Some c, Some idx => set_connections v (<[idx := c]> (v_Connections v))
          | Some c, None => set_connections v (v_Connections v ++ [c])
          end
        else v in
      let v2 := applyKeyDelta v1 (m_KeysBefore mutation) (m_KeysAfter mutation) in
      set_connections v2 (sort_by c_Name (v_Connections v2))
  end.

(** ** Validation and dependency analysis *)

Fixpoint validate_ids (seen : gset string) (ms : list PendingMutation) : result () :=
  match ms with
  | [] => Ok ()
  | m :: ms' =>
      if empty_string (m_ID m) then Fail (Errorf "pending transaction ID must not be empty")
      else if bool_decide (m_ID m ∈ seen) then Fail (Errorf "pending transaction ID is duplicated")
      else validate_ids ({[ m_ID m ]} ∪ seen) ms'
  end.

Definition validateLedger (v : Vault) : result () :=
  match v_PendingBase v, v_PendingMutations v with
  | None, _ :: _ => Fail (Errorf "pending mutations require a pending base")
  | Some _, [] => Fail (Errorf "pending base requires at least one pending mutation")
  | _, ms => validate_ids ∅ ms
  end.

Definition pendingIndex (mutations : list PendingMutation) (id : string) : option nat :=
  index_of m_ID id mutations.

Record dependencyEdge := mkEdge { e_index : nat; e_keyName : string; e_reason : string }.

Definition keyLifecycleReason (mutation : PendingMutation) (keyName change : string) : string :=
  if bool_decide (change = "create") then
    match m_Before mutation, m_After mutation with
    | Some b, Some a =>
        if bool_decide (c_KeyName b ≠ "" ∧ c_KeyName b ≠ keyName ∧ c_KeyName a = keyName)
        then "saved_key_rename" else "saved_key_create"
    | _, _ => "saved_key_create"
    end
  else if bool_decide (change = "replace") then "saved_key_replace"
  else if bool_decide (change = "delete") then
    match m_Before mutation, m_After mutation with
    | Some b, None =>
        if bool_decide (c_KeyName b = keyName) then "saved_key_prune" else "saved_key_delete"
    | _, _ => "saved_key_delete"
    end
  else "saved_key_reference".

Definition referenceRemoved (mutation : PendingMutation) (keyName : string) : bool :=
  match m_Before mutation with
  | Some b =>
      bool_decide (c_KeyName b = keyName) &&
      match m_After mutation with
      | None => true
      | Some a => bool_decide (c_KeyName a ≠ keyName)
      end
  | None => false
  end.

(** The loop over the keys the selected mutation changes, up to its first
    [break]. *)
Fixpoint changed_key_edge (i : nat) (earlier selected : PendingMutation) (ns : list string) :
    option dependencyEdge :=
  match ns with
  | [] => None
  | keyName :: ns' =>
      let selectedChange := keyChange (m_KeysBefore selected) (m_KeysAfter selected) keyName in
      let earlierChange := keyChange (m_KeysBefore earlier) (m_KeysAfter earlier) keyName in
      if negb (empty_string earlierChange) then
        Some (mkEdge i keyName (keyLifecycleReason earlier keyName earlierChange))
      else if bool_decide (selectedChange = "replace" ∨ selectedChange = "delete")
              && referenceRemoved earlier keyName then
        Some (mkEdge i keyName "saved_key_reference")
      else changed_key_edge i earlier selected ns'
  end.

(** One iteration of the loop of [directDependencyEdges]. *)
Definition direct_edge (i : nat) (earlier selected : PendingMutation) : option dependencyEdge :=
  if bool_decide (is_Some (m_BulkAfter selected) ∨ is_Some (m_BulkAfter earlier))
  then Some (mkEdge i "" "inventory_order")
  else if bool_decide (m_Alias earlier ≠ "" ∧ m_Alias earlier = m_Alias selected)
  then Some (mkEdge i "" "alias_order")
  else
    match changed_key_edge i earlier selected
            (changedKeyNames (m_KeysBefore selected) (m_KeysAfter selected)) with
    | Some e => Some e
    | None =>
        match m_After selected with
        | None => None
        | Some a =>
            let keyName := c_KeyName a in
            if empty_string keyName then None
            else
              let earlierChange := keyChange (m_KeysBefore earlier) (m_KeysAfter earlier) keyName in
              if bool_decide (earlierChange = "create" ∨ earlierChange = "replace")
              then Some (mkEdge i keyName (keyLifecycleReason earlier keyName earlierChange))
              else None
        end
    end.

Definition directDependencyEdges (mutations : list PendingMutation) (selectedIndex : nat) :
    list dependencyEdge :=
  match mutations !! selectedIndex with
  | None => []
  | Some selected =>
      omap (λ i, earlier ← mutations !! i; direct_edge i earlier selected) (seq 0 selectedIndex)
  end.

Record Dependency := mkDependency {
  d_ID : string;
  d_Alias : string;
  d_Aliases : list string;
  d_Operation : string;
  d_CreatedAt : string;
  d_KeyName : string;
  d_Connections : Z;
  d_Keys : Z;
  d_Bulk : bool;
  d_Reason : string;
}.

Definition dependency_of (mutations : list PendingMutation) (edge : dependencyEdge) : option Dependency :=
  mutation ← mutations !! e_index edge;
  Some (mkDependency (m_ID mutation) (m_Alias mutation) (m_Aliases mutation)
    (m_Operation mutation) (m_CreatedAt mutation) (e_keyName edge)
    (m_ConnectionCount mutation) (m_KeyCount mutation)
    (bool_decide (is_Some (m_BulkAfter mutation))) (e_reason edge)).

(** The recursive closure [collect]: [required] is the map it fills. An edge
    leads to a smaller index, so a depth of [selectedIndex + 1] calls is enough
    ([collect_fuel_enough]). *)
Fixpoint collect (fuel : nat) (mutations : list PendingMutation) (target : nat)
    (required : gmap nat dependencyEdge) : gmap nat dependencyEdge :=
  match fuel with
  | O => required
  | S fuel' =>
      foldl (λ req edge,
        let req := collect fuel' mutations (e_index edge) req in
        match req !! e_index edge with
        | Some _ => req
        | None => <[e_index edge := edge]> req
        end) required (directDependencyEdges mutations target)
  end.

Definition dependencies (mutations : list PendingMutation) (selectedIndex : nat) : list Dependency :=
  let required := collect (S selectedIndex) mutations selectedIndex ∅ in
  omap (λ i, edge ← required !! i; dependency_of mutations edge) (seq 0 (length mutations)).

(** ** Projection and finalization *)

Inductive ledger_error :=
  | InvalidLedger (e : goerror)
  | TransactionNotFound (id : string)
  (** [*DependencyError], with the prerequisites it reports *)
  | DependencyError (selected : string) (required : list Dependency).

(** [Preflight] returns the prerequisites, and an error when there are any. *)
Definition Preflight (v : Vault) (only : string) : ledger_error + list Dependency :=
  match validateLedger v with
  | Fail e => inl (InvalidLedger e)
  | Ok _ =>
      if empty_string only then inr []
      else
        match pendingIndex (v_PendingMutations v) only with
        | None => inl (TransactionNotFound only)
        | Some selectedIndex =>
            match dependencies (v_PendingMutations v) selectedIndex with
            | [] => inr []
            | required => inl (DependencyError only required)
            end
        end
  end.

Record projection := mkProjection { p_Vault : Vault; p_Selected : list PendingMutation }.

Definition project_selected (base : InventorySnapshot) (selected : list PendingMutation) : projection :=
  mkProjection (foldl applyMutation (mkVault (s_Connections base) (s_Keys base) None []) selected)
    selected.

Definition project (v : Vault) (only : string) : ledger_error + projection :=
  match Preflight v only with
  | inl e => inl e
  | inr _ =>
      match v_PendingBase v, v_PendingMutations v with
      | Some base, _ :: _ =>
          inr (project_selected base
            (if empty_string only then v_PendingMutations v
             else
               match pendingIndex (v_PendingMutations v) only with
               | Some i => option_list (v_PendingMutations v !! i)
               | None => []
               end))
      | _, _ => inr (mkProjection (inventoryOnly v) [])
      end
  end.

(** The loop over the recorded IDs: the selected mutations, in order, and how
    many IDs are no longer pending. [previous] is [previousIndex + 1]. *)
Fixpoint select_ids (ms : list PendingMutation) (previous : nat) (ids : list string) :
    result (list PendingMutation * nat) :=
  match ids with
  | [] => Ok ([], 0)
  | id :: ids' =>
      match pendingIndex ms id with
      | None => '(sel, missing) ← select_ids ms previous ids'; Ok (sel, S missing)
      | Some index =>
          if bool_decide (index < previous)
          then Fail (Errorf "publishing intent transaction order changed")
          else
            '(sel, missing) ← select_ids ms (S index) ids';
            Ok (option_list (ms !! index) ++ sel, missing)
      end
  end.

Definition projectTransactionIDs (v : Vault) (ids : list string) : result projection :=
  _ ← validateLedger v;
  '(selected, missing) ← select_ids (v_PendingMutations v) 0 ids;
  if bool_decide (missing = length ids) then Ok (mkProjection (inventoryOnly v) [])
  else
    _ ← check (bool_decide (missing = 0))
          (Errorf "publishing intent transaction set was partially finalized");
    match v_PendingBase v with
    | None => Fail (Errorf "publishing intent transactions require a pending base")
    | Some base => Ok (project_selected base selected)
    end.

Definition markPublished (v : Vault) (selected : list PendingMutation) (projected : Vault) : Vault :=
  match selected with
  | [] => v
  | _ =>
      let remaining :=
        filter (λ m, m_ID m ∉ m_ID <$> selected) (v_PendingMutations v) in
      mkVault (v_Connections v) (v_Keys v)
        (match remaining with [] => None | _ => Some (snapshotInventory projected) end)
        remaining
  end.
