(* ===== verification/LedgerFacts.v ===== *)
(** * The ledger refines finite maps

    [inventory] is the abstract inventory: connections and keys as finite maps.
    [spec_apply] is what a mutation does to it, and [recorded] when a mutation
    describes truthfully the step from one inventory to the next. The concrete
    operations of [Ledger] refine these ([applyMutation_refines]), and the
    dependency analysis is shown sound against them: a mutation without a
    dependency edge commutes with the earlier ones ([recorded_swap]). *)

From S2P Require Import Prelude NamedList GoStrings GoErrors VaultBlob Config Ledger.

(** ** The abstract inventory *)

Record inventory := mkInv { i_conns : gmap string Connection; i_keys : gmap string SSHKey }.

Definition abs_lists (cs : list Connection) (ks : list SSHKey) : inventory :=
  mkInv (by_name c_Name cs) (by_name k_Name ks).
Definition abs (v : Vault) : inventory := abs_lists (v_Connections v) (v_Keys v).
Definition abs_snapshot (s : InventorySnapshot) : inventory :=
  abs_lists (s_Connections s) (s_Keys s).

(** What a key delta does to one name. *)
Definition key_effect (before after current : option SSHKey) : option SSHKey :=
  match before, after with
  | None, None => current
  | Some p, Some q => if decide (q = p) then current else Some q
  | Some _, None => None
  | None, Some q => Some q
  end.

Definition delta_entry (before after : option SSHKey) : option (option SSHKey) :=
  match before, after with
  | None, None => None
  | Some p, Some q => if decide (q = p) then None else Some (Some q)
  | Some _, None => Some None
  | None, Some q => Some (Some q)
  end.

Definition spec_keys (m : PendingMutation) (ks : gmap string SSHKey) : gmap string SSHKey :=
  merge (λ d cur, match d with Some o => o | None => cur end)
    (merge delta_entry (by_name k_Name (m_KeysBefore m)) (by_name k_Name (m_KeysAfter m))) ks.

Definition spec_conns (m : PendingMutation) (cs : gmap string Connection) : gmap string Connection :=
  if decide (m_KeyName m = "") then
    match m_After m with
    | Some c => <[m_Alias m := c]> cs
    | None => delete (m_Alias m) cs
    end
  else cs.

Definition spec_apply (s : inventory) (m : PendingMutation) : inventory :=
  match m_BulkAfter m with
  | Some b => abs_snapshot b
  | None => mkInv (spec_conns m (i_conns s)) (spec_keys m (i_keys s))
  end.

(** ** Well-formedness: no name twice *)

Definition distinct (cs : list Connection) (ks : list SSHKey) : Prop :=
  NoDup (names c_Name cs) ∧ NoDup (names k_Name ks).

Definition wf_vault (v : Vault) : Prop := distinct (v_Connections v) (v_Keys v).

Record wf_mutation (m : PendingMutation) : Prop := {
  wf_before_keys : NoDup (names k_Name (m_KeysBefore m));
  wf_after_keys : NoDup (names k_Name (m_KeysAfter m));
  wf_before : ∀ c, m_Before m = Some c → c_Name c = m_Alias m;
  wf_after : ∀ c, m_After m = Some c → c_Name c = m_Alias m;
  wf_alias : m_BulkAfter m = None → m_KeyName m = "" → m_Alias m ≠ "";
  wf_keyonly : m_KeyName m ≠ "" → m_Before m = None ∧ m_After m = None;
  wf_bulk : ∀ b, m_BulkAfter m = Some b → distinct (s_Connections b) (s_Keys b);
}.

(** ** Key deltas *)

Lemma delta_step_before_at_key b a k ks n :
  (∀ n x, a !! n = Some x → k_Name x = n) →
  filter (λ x, k_Name x = k) (delta_step_before b a ks n)
  = if decide (n = k)
    then match b !! k with
         | None => filter (λ x, k_Name x = k) ks
         | Some p =>
             match a !! k with
             | Some q => if decide (q = p) then filter (λ x, k_Name x = k) ks
                         else tail (filter (λ x, k_Name x = k) ks) ++ [q]
             | None => tail (filter (λ x, k_Name x = k) ks)
             end
         end
    else filter (λ x, k_Name x = k) ks.
Proof.
  intros Ha. unfold delta_step_before.
  destruct (decide (n = k)) as [->|Hne].
  - destruct (b !! k) as [p|]; [|done]. destruct (a !! k) as [q|] eqn:E.
    + case_bool_decide; [by rewrite decide_True|]. rewrite (decide_False (P := q = p)) by done.
      by rewrite at_key_snoc, at_key_remove_first, !decide_True by eauto.
    + by rewrite at_key_remove_first, decide_True.
  - destruct (b !! n) as [p|]; [|done]. destruct (a !! n) as [q|] eqn:E.
    + case_bool_decide; [done|]. apply Ha in E.
      by rewrite at_key_snoc, at_key_remove_first, !decide_False by congruence.
    + by rewrite at_key_remove_first, decide_False.
Qed.

Lemma delta_step_after_at_key b a k ks n :
  (∀ n x, a !! n = Some x → k_Name x = n) →
  filter (λ x, k_Name x = k) (delta_step_after b a ks n)
  = if decide (n = k)
    then match a !! k, b !! k with
         | Some q, None => tail (filter (λ x, k_Name x = k) ks) ++ [q]
         | _, _ => filter (λ x, k_Name x = k) ks
         end
    else filter (λ x, k_Name x = k) ks.
Proof.
  intros Ha. unfold delta_step_after.
  destruct (decide (n = k)) as [->|Hne].
  - destruct (a !! k) as [q|] eqn:E; [|done]. destruct (b !! k); [done|].
    by rewrite at_key_snoc, at_key_remove_first, !decide_True by eauto.
  - destruct (a !! n) as [q|] eqn:E; [|done]. destruct (b !! n); [done|]. apply Ha in E.
    by rewrite at_key_snoc, at_key_remove_first, !decide_False by congruence.
Qed.

(** The keys of one name after a delta, whatever the iteration orders. *)
Definition delta_at_key (b a : option SSHKey) (ks : list SSHKey) : list SSHKey :=
  match b, a with
  | None, None => ks
  | Some p, Some q => if decide (q = p) then ks else tail ks ++ [q]
  | Some _, None => tail ks
  | None, Some q => tail ks ++ [q]
  end.

Lemma applyKeyDelta_at_key o1 o2 ks before after k :
  o1 ≡ₚ remove_dups (names k_Name before) → o2 ≡ₚ remove_dups (names k_Name after) →
  filter (λ x, k_Name x = k) (applyKeyDelta_in o1 o2 ks before after)
  = delta_at_key (last_by_name k_Name before !! k) (last_by_name k_Name after !! k)
      (filter (λ x, k_Name x = k) ks).
Proof.
  intros H1 H2. unfold applyKeyDelta_in. rewrite sort_by_filter.
  assert (NoDup o1) by (rewrite H1; apply NoDup_remove_dups).
  assert (NoDup o2) by (rewrite H2; apply NoDup_remove_dups).
  assert (∀ n x, last_by_name k_Name after !! n = Some x → k_Name x = n) as Ha
    by (intros n x Hx; by destruct (last_by_name_lookup_name _ _ _ _ Hx)).
  rewrite (at_key_foldl k_Name _ (λ k ks,
      match last_by_name k_Name after !! k, last_by_name k_Name before !! k with
      | Some q, None => tail ks ++ [q]
      | _, _ => ks
      end)); [|intros; rewrite delta_step_after_at_key by done;
               by case_decide|done].
  rewrite (at_key_foldl k_Name _ (λ k ks,
      match last_by_name k_Name before !! k with
      | None => ks
      | Some p => match last_by_name k_Name after !! k with
                  | Some q => if decide (q = p) then ks else tail ks ++ [q]
                  | None => tail ks
                  end
      end)); [|intros; rewrite delta_step_before_at_key by done;
               by case_decide|done].
  pose proof (last_by_name_dom k_Name before k) as Hb.
  pose proof (last_by_name_dom k_Name after k) as Hd.
  assert (k ∈ o1 ↔ k ∈ names k_Name before) as E1 by (by rewrite H1, elem_of_remove_dups).
  assert (k ∈ o2 ↔ k ∈ names k_Name after) as E2 by (by rewrite H2, elem_of_remove_dups).
  unfold delta_at_key.
  destruct (last_by_name k_Name before !! k) as [p|], (last_by_name k_Name after !! k) as [q|];
    destruct (decide (k ∈ o1)) as [I1|I1], (decide (k ∈ o2)) as [I2|I2]; try done;
    exfalso; first [apply I1, E1, Hb; by eexists | apply I2, E2, Hd; by eexists].
Qed.

(** The result of [applyKeyDelta] does not depend on the order in which the two
    maps are iterated, even when the vault holds a name twice. *)
Theorem applyKeyDelta_order o1 o2 v before after :
  o1 ≡ₚ remove_dups (names k_Name before) → o2 ≡ₚ remove_dups (names k_Name after) →
  set_keys v (applyKeyDelta_in o1 o2 (v_Keys v) before after) = applyKeyDelta v before after.
Proof.
  intros H1 H2. unfold applyKeyDelta. f_equal.
  apply (sorted_filter_ext k_Name); [apply sort_by_sorted..|].
  intros k. by rewrite !applyKeyDelta_at_key by done.
Qed.

Lemma spec_keys_lookup m ks n :
  spec_keys m ks !! n
  = key_effect (by_name k_Name (m_KeysBefore m) !! n) (by_name k_Name (m_KeysAfter m) !! n) (ks !! n).
Proof.
  unfold spec_keys. rewrite !lookup_merge. unfold diag_None, delta_entry, key_effect.
  destruct (by_name k_Name (m_KeysBefore m) !! n), (by_name k_Name (m_KeysAfter m) !! n),
    (ks !! n); simpl; repeat case_decide; done.
Qed.

Lemma applyKeyDelta_by_name v m :
  wf_mutation m → NoDup (names k_Name (v_Keys v)) →
  by_name k_Name (v_Keys (applyKeyDelta v (m_KeysBefore m) (m_KeysAfter m)))
    = spec_keys m (by_name k_Name (v_Keys v)) ∧
  NoDup (names k_Name (v_Keys (applyKeyDelta v (m_KeysBefore m) (m_KeysAfter m)))).
Proof.
  intros Hwf Hnd. rewrite NoDup_names_at_key in Hnd. split.
  - apply map_eq. intros n. rewrite spec_keys_lookup, by_name_head. simpl.
    rewrite applyKeyDelta_at_key, !last_by_name_eq by (done || apply Hwf).
    specialize (Hnd n). rewrite (by_name_head k_Name n (v_Keys v)). unfold delta_at_key, key_effect.
    destruct (filter (λ x, k_Name x = n) (v_Keys v)) as [|x [|y l]]; simpl in Hnd; [| |lia];
      repeat case_match; done.
  - apply NoDup_names_at_key. intros k. simpl. rewrite applyKeyDelta_at_key by done.
    specialize (Hnd k). unfold delta_at_key.
    destruct (filter (λ x, k_Name x = k) (v_Keys v)) as [|x [|y l]]; simpl in Hnd; [| |lia];
      repeat case_match; simpl; lia.
Qed.

(** ** Refinement of a single mutation *)

Lemma sort_connections_abs v :
  wf_vault v →
  abs (set_connections v (sort_by c_Name (v_Connections v))) = abs v ∧
  wf_vault (set_connections v (sort_by c_Name (v_Connections v))).
Proof.
  intros [Hc Hk]. split.
  - unfold abs, abs_lists. simpl. by rewrite by_name_sort.
  - split; simpl; [by apply names_sort_NoDup|done].
Qed.

(** The connection part of [applyMutation]. *)
Lemma set_connection_abs v m :
  wf_vault v → wf_mutation m → m_KeyName m = "" →
  let v1 := match m_After m, exactConnectionIndex v (m_Alias m) with
            | None, Some idx =>
                set_connections v (take idx (v_Connections v) ++ drop (S idx) (v_Connections v))
            | None, None => v
            | Some c, Some idx => set_connections v (<[idx := c]> (v_Connections v))
            | Some c, None => set_connections v (v_Connections v ++ [c])
            end in
  abs v1 = mkInv (spec_conns m (i_conns (abs v))) (i_keys (abs v)) ∧ wf_vault v1.
Proof.
  intros [Hc Hk] Hwf Hkn. cbv zeta. unfold spec_conns. rewrite decide_True by done.
  unfold exactConnectionIndex, abs, abs_lists, wf_vault, distinct.
  destruct (m_After m) as [c|] eqn:Ea; destruct (index_of _ _ _) as [i|] eqn:Ei; simpl.
  - apply (wf_after m Hwf) in Ea. split.
    + f_equal. by apply by_name_insert.
    + split; [|done]. apply index_of_Some in Ei as (x & Hx & Hn & _).
      by rewrite (names_insert _ _ _ _ x) by congruence.
  - apply (wf_after m Hwf) in Ea. rewrite <- Ea in *. apply index_of_None in Ei. split.
    + f_equal. by apply by_name_snoc.
    + split; [by apply names_snoc_NoDup|done].
  - rewrite take_drop_delete, (delete_index_of _ _ _ _ Ei). split.
    + f_equal. by apply by_name_remove_first.
    + split; [by apply names_remove_first_NoDup|done].
  - apply index_of_None, by_name_None in Ei. split; [|done]. f_equal. by rewrite delete_id.
Qed.

(** Applying a recorded mutation to a vault does to the maps it denotes what the
    specification says, and keeps names distinct. *)
Lemma applyMutation_refines v m :
  wf_vault v → wf_mutation m →
  abs (applyMutation v m) = spec_apply (abs v) m ∧ wf_vault (applyMutation v m).
Proof.
  intros Hv Hm. unfold applyMutation, spec_apply.
  destruct (m_BulkAfter m) as [b|] eqn:Eb; [split; [done|by apply (wf_bulk m Hm)]|].
  assert (∀ v1, wf_vault v1 → i_conns (abs v1) = spec_conns m (i_conns (abs v)) →
      i_keys (abs v1) = i_keys (abs v) →
      let v2 := applyKeyDelta v1 (m_KeysBefore m) (m_KeysAfter m) in
      abs (set_connections v2 (sort_by c_Name (v_Connections v2)))
        = mkInv (spec_conns m (i_conns (abs v))) (spec_keys m (i_keys (abs v))) ∧
      wf_vault (set_connections v2 (sort_by c_Name (v_Connections v2)))) as Hgen.
  { intros v1 [Hc1 Hk1] Hconns Hkeys. cbv zeta.
    destruct (applyKeyDelta_by_name v1 m Hm Hk1) as [Hab Hnd].
    destruct (sort_connections_abs (applyKeyDelta v1 (m_KeysBefore m) (m_KeysAfter m))) as [-> ?];
      [by split|].
    split; [|done]. unfold abs, abs_lists. rewrite Hab.
    unfold abs, abs_lists in Hconns, Hkeys. simpl in *. by rewrite Hconns, Hkeys. }
  case_bool_decide as Hkn.
  - destruct (set_connection_abs v m Hv Hm Hkn) as [Habs Hwf].
    apply Hgen; [done|by rewrite Habs..].
  - apply Hgen; [done| |done]. unfold spec_conns. by rewrite decide_False.
Qed.

Lemma foldl_applyMutation_refines v ms :
  wf_vault v → Forall wf_mutation ms →
  abs (foldl applyMutation v ms) = foldl spec_apply (abs v) ms ∧
  wf_vault (foldl applyMutation v ms).
Proof.
  intros Hv Hms. revert v Hv. induction Hms as [|m ms Hm Hms IH]; intros v Hv; [done|]. simpl.
  destruct (applyMutation_refines v m Hv Hm) as [Habs Hwf]. rewrite <- Habs. by apply IH.
Qed.

(** ** Recorded mutations and histories *)

(** Every connection that names a saved key finds it. *)
Definition closed (s : inventory) : Prop :=
  ∀ a c, i_conns s !! a = Some c → c_KeyName c ≠ "" → is_Some (i_keys s !! c_KeyName c).

(** The mutation describes truthfully the step from [s] to [s']. *)
Record recorded (s : inventory) (m : PendingMutation) (s' : inventory) : Prop := {
  rec_wf : wf_mutation m;
  rec_apply : s' = spec_apply s m;
  rec_before : m_BulkAfter m = None → m_KeyName m = "" → m_Before m = i_conns s !! m_Alias m;
  rec_minimal : ∀ n, by_name k_Name (m_KeysBefore m) !! n = by_name k_Name (m_KeysAfter m) !! n →
    by_name k_Name (m_KeysBefore m) !! n = None;
  rec_keys : ∀ n, keyChange (m_KeysBefore m) (m_KeysAfter m) n ≠ "" →
    by_name k_Name (m_KeysBefore m) !! n = i_keys s !! n;
  rec_closed : closed s';
}.

Inductive history : inventory → list PendingMutation → inventory → Prop :=
  | history_nil s : history s [] s
  | history_cons s m s1 ms s2 : recorded s m s1 → history s1 ms s2 → history s (m :: ms) s2.

Lemma history_app s ms1 ms2 s' :
  history s (ms1 ++ ms2) s' ↔ ∃ s1, history s ms1 s1 ∧ history s1 ms2 s'.
Proof.
  revert s. induction ms1 as [|m ms1 IH]; intros s; simpl.
  - split; [intros; eexists; split; [constructor|done]|].
    intros (s1 & H1 & H2). by inversion H1; subst.
  - split.
    + intros H. inversion H as [|? ? s0 ? ? Hr Hh]; subst. apply IH in Hh as (s1 & ? & ?).
      exists s1. split; [by econstructor|done].
    + intros (s1 & H1 & H2). inversion H1; subst. econstructor; [done|]. apply IH. eauto.
Qed.

Lemma history_snoc s ms m s' :
  history s (ms ++ [m]) s' ↔ ∃ s1, history s ms s1 ∧ recorded s1 m s'.
Proof.
  rewrite history_app. split.
  - intros (s1 & H1 & H2). inversion H2 as [|? ? ? ? ? ? Hn]; subst. inversion Hn; subst. eauto.
  - intros (s1 & H1 & H2). exists s1. split; [done|]. econstructor; [done|constructor].
Qed.

Lemma history_closed s ms s' : closed s → history s ms s' → closed s'.
Proof. intros Hs H. induction H as [|s m s1 ms s2 Hr Hh IH]; [done|]. by apply IH, (rec_closed _ _ _ Hr). Qed.

Lemma history_wf s ms s' : history s ms s' → Forall wf_mutation ms.
Proof. induction 1 as [|s m s1 ms s2 Hr]; constructor; [by apply (rec_wf _ _ _ Hr)|done]. Qed.

(** The state a history reaches is the replay of its mutations. *)
Lemma history_replay s ms s' : history s ms s' → s' = foldl spec_apply s ms.
Proof. induction 1 as [|s m s1 ms s2 Hr _ IH]; [done|]. by rewrite IH, (rec_apply _ _ _ Hr). Qed.

(** ** What the absence of an edge means *)

Lemma keyByName_by_name ks n : keyByName ks n = by_name k_Name ks !! n.
Proof. unfold keyByName. by rewrite by_name_first_of. Qed.

Lemma keyChange_nil b a n :
  keyChange b a n = "" ↔ by_name k_Name b !! n = by_name k_Name a !! n.
Proof.
  unfold keyChange. rewrite !keyByName_by_name.
  destruct (by_name k_Name b !! n), (by_name k_Name a !! n); try done.
  case_bool_decide; subst; split; congruence.
Qed.

Lemma changedKeyNames_spec b a n : n ∈ changedKeyNames b a ↔ keyChange b a n ≠ "".
Proof.
  unfold changedKeyNames, name_set.
  rewrite elem_of_sort_strings, list_elem_of_filter, elem_of_remove_dups, elem_of_app.
  split; [by intros [? _]|]. intros Hn. split; [done|].
  destruct (decide (n ∈ names k_Name b)) as [|Hb]; [by left|].
  destruct (decide (n ∈ names k_Name a)) as [|Ha]; [by right|].
  exfalso. apply Hn, keyChange_nil. apply by_name_None in Hb, Ha. congruence.
Qed.

Lemma changed_key_edge_None i m1 m2 ns :
  changed_key_edge i m1 m2 ns = None ↔
  ∀ n, n ∈ ns → keyChange (m_KeysBefore m1) (m_KeysAfter m1) n = "" ∧
    (keyChange (m_KeysBefore m2) (m_KeysAfter m2) n = "replace"
     ∨ keyChange (m_KeysBefore m2) (m_KeysAfter m2) n = "delete" → referenceRemoved m1 n = false).
Proof.
  induction ns as [|n ns IH]; simpl; [set_solver|]. unfold empty_string.
  case_bool_decide as E1; simpl.
  - destruct (bool_decide _ && _) eqn:E2.
    + split; [done|]. intros H. destruct (H n ltac:(constructor)) as [_ H2].
      bool_to_prop. rewrite H2 in * by done. done.
    + rewrite IH. split.
      * intros H k [->|Hk]%elem_of_cons; [|by apply H]. split; [done|]. intros Hc.
        by rewrite bool_decide_eq_true_2 in E2.
      * intros H k Hk. apply H. by constructor.
  - split; [done|]. intros H. by destruct (H n ltac:(constructor)).
Qed.

Record independent (m1 m2 : PendingMutation) : Prop := {
  ind_bulk1 : m_BulkAfter m1 = None;
  ind_bulk2 : m_BulkAfter m2 = None;
  ind_alias : m_Alias m1 = "" ∨ m_Alias m1 ≠ m_Alias m2;
  ind_keys : ∀ n, keyChange (m_KeysBefore m2) (m_KeysAfter m2) n ≠ "" →
    by_name k_Name (m_KeysBefore m1) !! n = by_name k_Name (m_KeysAfter m1) !! n;
  ind_refs : ∀ n, keyChange (m_KeysBefore m2) (m_KeysAfter m2) n = "delete" →
    referenceRemoved m1 n = false;
  ind_after : ∀ c, m_After m2 = Some c → c_KeyName c ≠ "" →
    keyChange (m_KeysBefore m1) (m_KeysAfter m1) (c_KeyName c) ≠ "create";
}.

Lemma direct_edge_None i m1 m2 : direct_edge i m1 m2 = None → independent m1 m2.
Proof.
  unfold direct_edge. case_bool_decide as Eb; [done|].
  case_bool_decide as Ea; [done|].
  destruct (changed_key_edge _ _ _ _) eqn:Ek; [done|]. intros Hafter.
  rewrite changed_key_edge_None in Ek.
  split.
  - destruct (m_BulkAfter m1); [|done]. exfalso. apply Eb. right. by eexists.
  - destruct (m_BulkAfter m2); [|done]. exfalso. apply Eb. left. by eexists.
  - destruct (decide (m_Alias m1 = "")); [by left|]. right. tauto.
  - intros n Hn. apply keyChange_nil. by apply Ek, changedKeyNames_spec.
  - intros n Hn. assert (keyChange (m_KeysBefore m2) (m_KeysAfter m2) n ≠ "") as Hne
      by (by rewrite Hn).
    apply (Ek n); [by apply changedKeyNames_spec|by right].
  - intros c Hc Hk. rewrite Hc in Hafter. unfold empty_string in Hafter.
    rewrite bool_decide_eq_false_2 in Hafter by done. case_bool_decide; [done|tauto].
Qed.

(** ** Independent mutations commute *)

Lemma spec_apply_host s m :
  m_BulkAfter m = None →
  spec_apply s m = mkInv (spec_conns m (i_conns s)) (spec_keys m (i_keys s)).
Proof. intros H. unfold spec_apply. by rewrite H. Qed.

Lemma spec_keys_unchanged m ks n :
  by_name k_Name (m_KeysBefore m) !! n = by_name k_Name (m_KeysAfter m) !! n →
  spec_keys m ks !! n = ks !! n.
Proof.
  intros H. rewrite spec_keys_lookup, H. unfold key_effect.
  destruct (by_name k_Name (m_KeysAfter m) !! n); [by rewrite decide_True|done].
Qed.

Lemma spec_keys_changed m ks n :
  keyChange (m_KeysBefore m) (m_KeysAfter m) n ≠ "" →
  spec_keys m ks !! n = by_name k_Name (m_KeysAfter m) !! n.
Proof.
  intros H. rewrite spec_keys_lookup. unfold key_effect. rewrite keyChange_nil in H.
  destruct (by_name k_Name (m_KeysBefore m) !! n), (by_name k_Name (m_KeysAfter m) !! n);
    try done; simpl. by rewrite decide_False by congruence.
Qed.

Lemma spec_keys_cases m ks n :
  (keyChange (m_KeysBefore m) (m_KeysAfter m) n = "" ∧ spec_keys m ks !! n = ks !! n) ∨
  (keyChange (m_KeysBefore m) (m_KeysAfter m) n ≠ "" ∧
   spec_keys m ks !! n = by_name k_Name (m_KeysAfter m) !! n).
Proof.
  destruct (decide (keyChange (m_KeysBefore m) (m_KeysAfter m) n = "")) as [H|H].
  - left. split; [done|]. by apply spec_keys_unchanged, keyChange_nil.
  - right. split; [done|]. by apply spec_keys_changed.
Qed.

(** A mutation touches the connection of its own alias only. *)
Lemma spec_conns_ne m cs a :
  (m_KeyName m = "" → m_Alias m ≠ a) → spec_conns m cs !! a = cs !! a.
Proof.
  intros H. unfold spec_conns. case_decide; [|done].
  destruct (m_After m); [by rewrite lookup_insert_ne by auto|by rewrite lookup_delete_ne by auto].
Qed.

Lemma spec_conns_eq m cs : m_KeyName m = "" → spec_conns m cs !! m_Alias m = m_After m.
Proof.
  intros H. unfold spec_conns. rewrite decide_True by done.
  destruct (m_After m); [by rewrite lookup_insert_eq|by rewrite lookup_delete_eq].
Qed.

Section Swap.
Context (s s1 s2 : inventory) (m1 m2 : PendingMutation).
Hypothesis Hind : independent m1 m2.
Hypothesis H1 : recorded s m1 s1.
Hypothesis H2 : recorded s1 m2 s2.
Hypothesis Hs : closed s.

Lemma aliases_differ : m_KeyName m1 = "" → m_KeyName m2 = "" → m_Alias m1 ≠ m_Alias m2.
Proof using Hind H1.
  intros K1 K2. destruct (ind_alias _ _ Hind) as [Ha|Ha]; [|done].
  exfalso. exact (wf_alias m1 (rec_wf _ _ _ H1) (ind_bulk1 _ _ Hind) K1 Ha).
Qed.

Lemma swap_conns : spec_conns m2 (spec_conns m1 (i_conns s)) = spec_conns m1 (spec_conns m2 (i_conns s)).
Proof using Hind H1.
  apply map_eq. intros a.
  destruct (decide (m_KeyName m2 = "" ∧ m_Alias m2 = a)) as [[K2 <-]|N2].
  - rewrite spec_conns_eq by done. rewrite spec_conns_ne, spec_conns_eq; [done..|].
    intros K1. by apply aliases_differ.
  - rewrite spec_conns_ne by tauto.
    destruct (decide (m_KeyName m1 = "" ∧ m_Alias m1 = a)) as [[K1 <-]|N1].
    + by rewrite !spec_conns_eq.
    + rewrite !spec_conns_ne by tauto. done.
Qed.

Lemma swap_keys : spec_keys m2 (spec_keys m1 (i_keys s)) = spec_keys m1 (spec_keys m2 (i_keys s)).
Proof using Hind.
  apply map_eq. intros n.
  destruct (spec_keys_cases m2 (spec_keys m1 (i_keys s)) n) as [[E ->]|[E ->]].
  - pose proof E as E'. rewrite keyChange_nil in E'.
    rewrite !spec_keys_lookup. f_equal. by rewrite <- spec_keys_lookup, spec_keys_unchanged.
  - apply (ind_keys _ _ Hind) in E as E'. rewrite (spec_keys_unchanged m1) by done.
    by rewrite spec_keys_changed.
Qed.

Lemma swap_states : s2 = spec_apply (spec_apply s m2) m1.
Proof using Hind H1 H2.
  rewrite (rec_apply _ _ _ H2), (rec_apply _ _ _ H1).
  destruct Hind. rewrite !spec_apply_host by done. simpl. by rewrite swap_conns, swap_keys.
Qed.

Lemma swap_conns_outside a :
  (m_KeyName m2 = "" → m_Alias m2 ≠ a) → i_conns s2 !! a = i_conns s1 !! a.
Proof using Hind H2.
  intros Ha. rewrite (rec_apply _ _ _ H2), spec_apply_host by apply Hind. by apply spec_conns_ne.
Qed.

(** A key the selected mutation deletes is not needed by any connection. *)
Lemma swap_delete_unreferenced a c :
  i_conns s !! a = Some c → c_KeyName c ≠ "" → (m_KeyName m2 = "" → m_Alias m2 ≠ a) →
  keyChange (m_KeysBefore m2) (m_KeysAfter m2) (c_KeyName c) ≠ "delete".
Proof using Hind H1 H2.
  intros Hc Hk Ha Hdel.
  assert (i_keys s2 !! c_KeyName c = None) as Hgone.
  { rewrite (rec_apply _ _ _ H2), spec_apply_host by apply Hind. simpl.
    rewrite spec_keys_changed by (by rewrite Hdel).
    unfold keyChange in Hdel. rewrite !keyByName_by_name in Hdel.
    destruct (by_name k_Name (m_KeysBefore m2) !! _), (by_name k_Name (m_KeysAfter m2) !! _);
      try done. by case_bool_decide. }
  assert (∀ c', i_conns s1 !! a = Some c' → c_KeyName c' ≠ c_KeyName c) as Hno.
  { intros c' Hc' Heq. rewrite <- swap_conns_outside in Hc' by done.
    destruct (rec_closed _ _ _ H2 a c' Hc') as [? Hx]; [congruence|]. congruence. }
  assert (referenceRemoved m1 (c_KeyName c) = false) as Href by by apply (ind_refs _ _ Hind).
  rewrite (rec_apply _ _ _ H1), spec_apply_host in Hno by apply Hind. simpl in Hno.
  destruct (decide (m_KeyName m1 = "" ∧ m_Alias m1 = a)) as [[K1 <-]|N1].
  - rewrite spec_conns_eq in Hno by done.
    unfold referenceRemoved in Href.
    rewrite (rec_before _ _ _ H1 (ind_bulk1 _ _ Hind) K1), Hc in Href.
    rewrite bool_decide_eq_true_2 in Href by done. simpl in Href.
    destruct (m_After m1) as [c'|]; [|done].
    apply bool_decide_eq_false_1 in Href. apply Href. by apply Hno.
  - rewrite spec_conns_ne in Hno by tauto. by apply (Hno c).
Qed.

Lemma swap_closed : closed (spec_apply s m2).
Proof using Hind H1 H2 Hs.
  intros a c Hc Hk. rewrite spec_apply_host in * by apply Hind. simpl in *.
  destruct (decide (m_KeyName m2 = "" ∧ m_Alias m2 = a)) as [[K2 <-]|N2].
  - rewrite spec_conns_eq in Hc by done.
    assert (i_conns s2 !! m_Alias m2 = Some c) as Hc2.
    { rewrite (rec_apply _ _ _ H2), spec_apply_host by apply Hind. simpl.
      by rewrite spec_conns_eq. }
    pose proof (rec_closed _ _ _ H2 _ _ Hc2 Hk) as Hin.
    rewrite swap_states, !spec_apply_host in Hin by apply Hind. simpl in Hin.
    destruct (spec_keys_cases m1 (spec_keys m2 (i_keys s)) (c_KeyName c)) as [[E Eq]|[E Eq]];
      [by rewrite Eq in Hin|].
    destruct (spec_keys_cases m2 (i_keys s) (c_KeyName c)) as [[E' Eq']|[E' _]];
      [|exfalso; by apply E, keyChange_nil, (ind_keys _ _ Hind)].
    rewrite Eq in Hin. rewrite Eq'.
    destruct (i_keys s !! c_KeyName c) eqn:Es; [by eexists|]. exfalso.
    apply (ind_after _ _ Hind c Hc Hk). unfold keyChange. rewrite !keyByName_by_name.
    rewrite (rec_keys _ _ _ H1) by done. rewrite Es. by destruct Hin as [? ->].
  - assert (m_KeyName m2 = "" → m_Alias m2 ≠ a) as Hne by tauto.
    rewrite spec_conns_ne in Hc by done.
    pose proof (swap_delete_unreferenced a c Hc Hk Hne) as Hdel.
    destruct (spec_keys_cases m2 (i_keys s) (c_KeyName c)) as [[_ ->]|[E ->]];
      [by apply (Hs a)|].
    unfold keyChange in Hdel, E. rewrite !keyByName_by_name in Hdel, E.
    destruct (by_name k_Name (m_KeysAfter m2) !! _); [by eexists|].
    by destruct (by_name k_Name (m_KeysBefore m2) !! _).
Qed.

(** The two mutations may be recorded in the other order. *)
Lemma recorded_swap : recorded s m2 (spec_apply s m2) ∧ recorded (spec_apply s m2) m1 s2.
Proof using Hind H1 H2 Hs.
  assert (s1 = mkInv (spec_conns m1 (i_conns s)) (spec_keys m1 (i_keys s))) as Es1.
  { rewrite (rec_apply _ _ _ H1). by apply spec_apply_host, Hind. }
  split; split; try apply H1; try apply H2; try done.
  - intros Hb K2. rewrite (rec_before _ _ _ H2 Hb K2), Es1. simpl.
    apply spec_conns_ne. intros K1. by apply aliases_differ.
  - intros n Hn. rewrite (rec_keys _ _ _ H2 n Hn), Es1. simpl.
    by apply spec_keys_unchanged, (ind_keys _ _ Hind).
  - apply swap_closed.
  - apply swap_states.
  - intros Hb K1. rewrite (rec_before _ _ _ H1 Hb K1), spec_apply_host by apply Hind. simpl.
    symmetry. apply spec_conns_ne. intros K2 Heq. symmetry in Heq. by apply aliases_differ in Heq.
  - intros n Hn. rewrite (rec_keys _ _ _ H1 n Hn), spec_apply_host by apply Hind. simpl.
    destruct (spec_keys_cases m2 (i_keys s) n) as [[_ ->]|[E _]]; [done|].
    exfalso. by apply Hn, keyChange_nil, (ind_keys _ _ Hind).
Qed.
End Swap.

(** A mutation independent of all the earlier ones may be recorded first. *)
Lemma history_bubble s pre m s' :
  closed s → history s (pre ++ [m]) s' → Forall (λ e, independent e m) pre →
  ∃ s1, recorded s m s1 ∧ history s1 pre s'.
Proof.
  intros Hs. revert s'. induction pre as [|x pre IH] using rev_ind; intros s' Hh Hind.
  - apply history_snoc in Hh as (s1 & Hn & Hr). inversion Hn; subst. eexists; split; [done|constructor].
  - apply history_snoc in Hh as (sb & Hh & Hm). apply history_snoc in Hh as (sa & Hh & Hx).
    apply Forall_app in Hind as [Hpre Hxm]. inversion Hxm as [|? ? Hxm' _]; subst.
    pose proof (history_closed _ _ _ Hs Hh) as Hsa.
    destruct (recorded_swap sa sb s' x m Hxm' Hx Hm Hsa) as [Hm' Hx'].
    destruct (IH (spec_apply sa m)) as (s1 & Hm1 & Hh1); [|done|].
    + apply history_snoc. eauto.
    + exists s1. split; [done|]. apply history_snoc. eauto.
Qed.

(** ** The dependency closure *)

(** The mutation at [t] has a direct edge to the one at [j]. *)
Definition depends_on (ms : list PendingMutation) (t j : nat) : Prop :=
  ∃ e, e ∈ directDependencyEdges ms t ∧ e_index e = j.

Lemma changed_key_edge_index i m1 m2 ns e :
  changed_key_edge i m1 m2 ns = Some e → e_index e = i.
Proof. induction ns as [|n ns IH]; simpl; [done|]. repeat case_match; naive_solver. Qed.

Lemma direct_edge_index i m1 m2 e : direct_edge i m1 m2 = Some e → e_index e = i.
Proof.
  unfold direct_edge. repeat case_match; try naive_solver.
  intros [= <-]. by eapply changed_key_edge_index.
Qed.

Lemma depends_on_spec ms t j :
  depends_on ms t j ↔
  j < t ∧ ∃ earlier selected e, ms !! j = Some earlier ∧ ms !! t = Some selected ∧
    direct_edge j earlier selected = Some e.
Proof.
  unfold depends_on, directDependencyEdges. destruct (ms !! t) as [sel|] eqn:Et; [|set_solver].
  setoid_rewrite list_elem_of_omap. split.
  - intros (e & (i & Hi & He) & <-). apply elem_of_seq in Hi.
    apply bind_Some in He as (m & Hm & He). rewrite (direct_edge_index _ _ _ _ He).
    split; [lia|]. eauto 10.
  - intros (Hlt & m & ? & e & Hm & [= <-] & He). exists e. split; [|by eapply direct_edge_index].
    exists j. split; [apply elem_of_seq; lia|]. by rewrite Hm.
Qed.

Lemma depends_on_lt ms t j : depends_on ms t j → j < t.
Proof. intros H. by apply depends_on_spec in H as [? _]. Qed.

Lemma depends_on_bound ms t j : depends_on ms t j → j < length ms.
Proof. intros (_ & m & _ & _ & Hm & _)%depends_on_spec. by eapply lookup_lt_Some. Qed.

Lemma collect_loop fuel ms es req j :
  (∀ e req, e ∈ es → is_Some (collect fuel ms (e_index e) req !! j) ↔
    is_Some (req !! j) ∨ tc (depends_on ms) (e_index e) j) →
  is_Some (foldl (λ req edge,
      let req := collect fuel ms (e_index edge) req in
      match req !! e_index edge with
      | Some _ => req
      | None => <[e_index edge := edge]> req
      end) req es !! j) ↔
  is_Some (req !! j) ∨ ∃ e, e ∈ es ∧ (j = e_index e ∨ tc (depends_on ms) (e_index e) j).
Proof.
  revert req. induction es as [|e es IH]; intros req Hrec; [simpl; set_solver|].
  simpl. rewrite IH by (intros; apply Hrec; by constructor).
  assert (∀ r : gmap nat dependencyEdge,
    is_Some (match r !! e_index e with Some _ => r | None => <[e_index e := e]> r end !! j)
    ↔ is_Some (r !! j) ∨ j = e_index e) as ->.
  { intros r. destruct (r !! e_index e) eqn:E.
    - split; [by left|]. intros [?| ->]; [done|by eexists].
    - rewrite lookup_insert_is_Some. destruct (decide (e_index e = j)); naive_solver. }
  rewrite Hrec by constructor. set_solver.
Qed.

(** [collect] with enough fuel adds exactly the transitive prerequisites. *)
Lemma collect_spec fuel ms t req j :
  t < fuel →
  is_Some (collect fuel ms t req !! j) ↔ is_Some (req !! j) ∨ tc (depends_on ms) t j.
Proof.
  revert t req. induction fuel as [|fuel IH]; intros t req Hlt; [lia|]. simpl.
  rewrite collect_loop.
  - assert ((∃ e, e ∈ directDependencyEdges ms t ∧ (j = e_index e ∨ tc (depends_on ms) (e_index e) j))
      ↔ tc (depends_on ms) t j) as ->; [|done].
    split.
    + intros (e & He & [->|Htc]); [apply tc_once; by exists e|].
      eapply tc_l; [by exists e|done].
    + intros Htc. inversion Htc as [? ? (e & He & Hj)|? y ? (e & He & Hy) Htc']; subst;
        exists e; eauto.
  - intros e r He. apply IH.
    assert (depends_on ms t (e_index e)) as Hd by by exists e.
    apply depends_on_lt in Hd. lia.
Qed.

Lemma collect_index fuel ms t req i e :
  (∀ i e, req !! i = Some e → e_index e = i) →
  collect fuel ms t req !! i = Some e → e_index e = i.
Proof.
  revert t req i e. induction fuel as [|fuel IH]; intros t req i e Hreq; simpl; [apply Hreq|].
  generalize (directDependencyEdges ms t). intros es. revert req i e Hreq.
  induction es as [|x es IHes]; intros req i e Hreq; simpl; [apply Hreq|].
  apply IHes. intros k y.
  destruct (collect fuel ms (e_index x) req !! e_index x) eqn:E.
  - apply IH, Hreq.
  - rewrite lookup_insert_Some. intros [[<- <-]|[_ Hy]]; [done|]. by apply IH in Hy.
Qed.

(** The prerequisites of the mutation at [i], in ledger order. *)
Definition prerequisites (ms : list PendingMutation) (i : nat) : list nat :=
  filter (λ j, is_Some (collect (S i) ms i ∅ !! j)) (seq 0 (length ms)).

Lemma prerequisites_spec ms i j : j ∈ prerequisites ms i ↔ tc (depends_on ms) i j.
Proof.
  unfold prerequisites. rewrite list_elem_of_filter, collect_spec, elem_of_seq by lia.
  rewrite lookup_empty. split; [intros [[[? [=]]|]]; done|].
  intros Htc. split; [by right|]. split; [lia|].
  assert (∀ x, tc (depends_on ms) x j → j < length ms) as H; [|by apply (H i)].
  clear Htc. intros x Htc. induction Htc as [x y Hd|x y z _ _ IH]; [by eapply depends_on_bound|done].
Qed.

Lemma dependencies_prerequisites ms i :
  d_ID <$> dependencies ms i = omap (λ j, m_ID <$> ms !! j) (prerequisites ms i).
Proof.
  unfold dependencies, prerequisites.
  assert (∀ k e, collect (S i) ms i ∅ !! k = Some e → e_index e = k) as Hreq.
  { intros k e. apply collect_index. intros ??. by rewrite lookup_empty. }
  generalize dependent (collect (S i) ms i ∅). intros req Hreq.
  assert (∀ j, j ∈ seq 0 (length ms) → j < length ms) as Hl by (intros j; rewrite elem_of_seq; lia).
  induction (seq 0 (length ms)) as [|j l IH]; [done|].
  specialize (IH ltac:(intros k Hk; apply Hl; by constructor)).
  rewrite filter_cons. destruct (decide (is_Some _)) as [[e He]|Hn].
  - simpl. rewrite He. simpl. unfold dependency_of. rewrite (Hreq _ _ He).
    destruct (lookup_lt_is_Some_2 ms j) as [m Hm]; [apply Hl; constructor|].
    rewrite Hm. simpl. by f_equal.
  - simpl. apply eq_None_not_Some in Hn. by rewrite Hn.
Qed.

Lemma dependencies_nil ms i :
  dependencies ms i = [] → ∀ j, ¬ depends_on ms i j.
Proof.
  intros Hnil j Hd.
  assert (j ∈ prerequisites ms i) as Hj by (apply prerequisites_spec; by apply tc_once).
  pose proof (dependencies_prerequisites ms i) as H. rewrite Hnil in H. simpl in H.
  apply depends_on_bound in Hd. destruct (lookup_lt_is_Some_2 ms j Hd) as [m Hm].
  assert (m_ID m ∈ omap (λ j, m_ID <$> ms !! j) (prerequisites ms i)) as Hin.
  { apply list_elem_of_omap. exists j. by rewrite Hm. }
  rewrite <- H in Hin. by apply elem_of_nil in Hin.
Qed.

(** ** The ledger invariant *)

Record ledger_ok (v : Vault) : Prop := {
  lo_valid : validateLedger v = Ok ();
  lo_wf : wf_vault v;
  lo_names : "" ∉ names c_Name (v_Connections v);
  lo_keynames : "" ∉ names k_Name (v_Keys v);
  lo_closed : closed (abs v);
  lo_history : ∀ base, v_PendingBase v = Some base →
    distinct (s_Connections base) (s_Keys base) ∧ closed (abs_snapshot base) ∧
    history (abs_snapshot base) (v_PendingMutations v) (abs v);
}.

Lemma validate_ids_spec seen ms :
  validate_ids seen ms = Ok () ↔
  Forall (λ m, m_ID m ≠ "" ∧ m_ID m ∉ seen) ms ∧ NoDup (m_ID <$> ms).
Proof.
  revert seen. induction ms as [|m ms IH]; intros seen; simpl.
  { split; [intros _; split; constructor|done]. }
  rewrite Forall_cons, NoDup_cons. unfold empty_string.
  case_bool_decide as E; [split; [done|naive_solver]|].
  case_bool_decide as E2; [split; [done|naive_solver]|].
  rewrite IH, !Forall_forall, list_elem_of_fmap. split.
  - intros [Hms Hnd]. split_and!; try done.
    + intros x Hx. destruct (Hms x Hx). set_solver.
    + intros (x & Hid & Hx). destruct (Hms x Hx). set_solver.
  - intros ([_ Hms] & Hno & Hnd). split; [|done].
    intros x Hx. destruct (Hms x Hx). split; [done|].
    intros [Heq%elem_of_singleton|?]%elem_of_union; [|done]. apply Hno. eauto.
Qed.

Lemma validateLedger_spec v :
  validateLedger v = Ok () ↔
  (v_PendingBase v = None ↔ v_PendingMutations v = []) ∧
  Forall (λ m, m_ID m ≠ "") (v_PendingMutations v) ∧
  NoDup (m_ID <$> v_PendingMutations v).
Proof.
  unfold validateLedger.
  assert (∀ ms, validate_ids ∅ ms = Ok () ↔ Forall (λ m, m_ID m ≠ "") ms ∧ NoDup (m_ID <$> ms)) as Hids.
  { intros ms. rewrite validate_ids_spec. f_equiv. rewrite !Forall_forall. split; intros H x Hx; [by apply H|by split; [apply H|apply not_elem_of_empty]]. }
  destruct (v_PendingBase v), (v_PendingMutations v) as [|m ms];
    try (rewrite Hids; naive_solver); naive_solver.
Qed.

Lemma pendingIndex_Some ms id i :
  pendingIndex ms id = Some i → ∃ m, ms !! i = Some m ∧ m_ID m = id.
Proof. intros (m & ? & ? & _)%index_of_Some. eauto. Qed.

(** A run of [Preflight] for one transaction that finds no prerequisite. *)
Lemma Preflight_one v only ds :
  only ≠ "" → Preflight v only = inr ds →
  validateLedger v = Ok () ∧ ∃ i m, pendingIndex (v_PendingMutations v) only = Some i ∧
    v_PendingMutations v !! i = Some m ∧
    Forall (λ e, independent e m) (take i (v_PendingMutations v)).
Proof.
  unfold Preflight, empty_string. intros Hne. rewrite bool_decide_eq_false_2 by done.
  destruct (validateLedger v) as [[]|]; [|done].
  destruct (pendingIndex _ _) as [i|] eqn:Ei; [|done].
  destruct (dependencies _ _) as [|] eqn:Ed; [|done]. intros _. split; [done|].
  destruct (pendingIndex_Some _ _ _ Ei) as (m & Hm & _). exists i, m. split_and!; [done..|].
  apply Forall_lookup. intros j e He.
  assert (j < i) as Hlt.
  { apply lookup_lt_Some in He. rewrite length_take in He. lia. }
  rewrite lookup_take_lt in He by done.
  destruct (direct_edge j e m) as [x|] eqn:Ex; [|by eapply direct_edge_None].
  exfalso. apply (dependencies_nil _ _ Ed j), depends_on_spec. split; [done|]. eauto 10.
Qed.

Lemma base_vault_wf base :
  distinct (s_Connections base) (s_Keys base) →
  wf_vault (mkVault (s_Connections base) (s_Keys base) None []) ∧
  abs (mkVault (s_Connections base) (s_Keys base) None []) = abs_snapshot base.
Proof. done. Qed.

Lemma filter_other_ids pre m post :
  NoDup (m_ID <$> (pre ++ m :: post)) →
  filter (λ x, m_ID x ∉ [m_ID m]) (pre ++ m :: post) = pre ++ post.
Proof.
  intros Hnd. rewrite fmap_app in Hnd. simpl in Hnd.
  apply NoDup_app in Hnd as (_ & Hdis & Hnd). apply NoDup_cons in Hnd as [Hm _].
  rewrite filter_app, filter_cons, decide_False by (intros H; apply H; by left).
  f_equal; apply filter_all, Forall_forall; intros x Hx%(list_elem_of_fmap_2 m_ID) Heq;
    apply list_elem_of_singleton in Heq; rewrite Heq in Hx; [|done].
  by apply (Hdis _ Hx), elem_of_cons; left.
Qed.

(** Taking one independent transaction out of the ledger and moving the base
    forward by it leaves a truthful ledger for the same working inventory. *)
Lemma publish_one v base m i :
  ledger_ok v → v_PendingBase v = Some base → v_PendingMutations v !! i = Some m →
  Forall (λ e, independent e m) (take i (v_PendingMutations v)) →
  let p := project_selected base [m] in
  wf_vault (p_Vault p) ∧ closed (abs (p_Vault p)) ∧
  ledger_ok (markPublished v [m] (p_Vault p)).
Proof.
  intros Hok Hb Hm Hind. destruct (lo_history v Hok base Hb) as (Hd & Hcl & Hh).
  pose proof (proj1 (validateLedger_spec v) (lo_valid v Hok)) as (_ & Hne & Hnd).
  apply list_elem_of_split_length in Hm as (pre & post & Hms & Hi). rewrite Hms in Hh, Hnd, Hne, Hind.
  rewrite take_app_length' in Hind by done.
  rewrite cons_middle, app_assoc in Hh. apply history_app in Hh as (sa & Hpre & Hpost).
  destruct (history_bubble _ _ _ _ Hcl Hpre Hind) as (s1 & Hr & Hpre').
  pose proof (rec_wf _ _ _ Hr) as Hwm.
  destruct (base_vault_wf base Hd) as [Hwb Hab].
  destruct (applyMutation_refines _ m Hwb Hwm) as [Habs Hwf]. rewrite Hab in Habs.
  rewrite <- (rec_apply _ _ _ Hr) in Habs.
  simpl. split_and!; [done|by rewrite Habs; apply (rec_closed _ _ _ Hr)|].
  unfold markPublished. cbv iota zeta. rewrite Hms, filter_other_ids by done.
  assert (history s1 (pre ++ post) (abs v)) as Hnew by (apply history_app; eauto).
  rewrite Forall_app, Forall_cons in Hne. destruct Hne as (? & _ & ?).
  rewrite fmap_app in Hnd. simpl in Hnd.
  split; try apply Hok.
  - apply validateLedger_spec. simpl. split_and!; [by destruct (pre ++ post)|by apply Forall_app|].
    rewrite fmap_app. apply NoDup_app in Hnd as (? & Hdis & [_ ?]%NoDup_cons).
    apply NoDup_app. set_solver.
  - intros base' Hb'. simpl in *. destruct (pre ++ post) eqn:E; [done|]. simplify_eq.
    split_and!; [by apply Hwf|by apply (rec_closed _ _ _ Hr)|done].
Qed.

(** ** What the mutations record *)

Lemma keyDelta_spec b a :
  NoDup (names k_Name b) → NoDup (names k_Name a) →
  let (kb, ka) := keyDelta b a in
  NoDup (names k_Name kb) ∧ NoDup (names k_Name ka) ∧
  (∀ n, by_name k_Name kb !! n
    = if decide (by_name k_Name b !! n = by_name k_Name a !! n) then None else by_name k_Name b !! n) ∧
  (∀ n, by_name k_Name ka !! n
    = if decide (by_name k_Name b !! n = by_name k_Name a !! n) then None else by_name k_Name a !! n).
Proof.
  intros Hb Ha. unfold keyDelta. cbv zeta. rewrite !last_by_name_eq by done.
  set (ns := sort_strings _).
  assert (∀ n, n ∈ ns ↔ by_name k_Name b !! n ≠ by_name k_Name a !! n) as Hns.
  { intros n. unfold ns, name_set.
    rewrite elem_of_sort_strings, list_elem_of_filter, elem_of_remove_dups, elem_of_app.
    assert (n ∉ names k_Name b → by_name k_Name b !! n = None) by apply by_name_None.
    assert (n ∉ names k_Name a → by_name k_Name a !! n = None) by apply by_name_None.
    destruct (decide (n ∈ names k_Name b)) as [Ib|], (decide (n ∈ names k_Name a)) as [Ia|].
    - split; [|tauto]. intros [[H1|[H1|?]] _]; [| |done]; by apply by_name_None in H1.
    - rewrite H0 by done. split; [|intros; split; [by right; left|by left]].
      intros _ H2. by apply by_name_None in H2.
    - rewrite H by done. split; [|intros; split; [by left|by right]].
      intros _ H2. symmetry in H2. by apply by_name_None in H2.
    - rewrite H, H0 by done. tauto. }
  assert (NoDup ns) as Hnd.
  { apply sort_strings_NoDup, NoDup_filter, NoDup_remove_dups. }
  assert (∀ l n (x : SSHKey), by_name k_Name l !! n = Some x → k_Name x = n) as Hnm.
  { intros l n x Hx. by destruct (by_name_lookup_name _ _ _ _ Hx). }
  split_and!; [rewrite names_omap by eauto; by apply NoDup_filter..| |];
    intros n; rewrite by_name_omap by eauto;
    destruct (decide (n ∈ ns)) as [Hin|Hin]; rewrite Hns in Hin;
    repeat case_decide; tauto.
Qed.

Lemma key_effect_delta (b a : option SSHKey) :
  key_effect (if decide (b = a) then None else b) (if decide (b = a) then None else a) b = a.
Proof.
  unfold key_effect. destruct (decide (b = a)) as [->|Hne]; [done|].
  destruct b, a; try done. by rewrite decide_False by congruence.
Qed.

(** A mutation built from the inventories before and after a change, as the
    handlers build it, records that change. *)
Lemma recorded_intro v v' m :
  wf_vault v → wf_vault v' → m_BulkAfter m = None →
  (m_KeysBefore m, m_KeysAfter m) = keyDelta (v_Keys v) (v_Keys v') →
  (if decide (m_KeyName m = "")
   then m_Alias m ≠ "" ∧ m_Before m = i_conns (abs v) !! m_Alias m ∧
        m_After m = i_conns (abs v') !! m_Alias m ∧
        delete (m_Alias m) (i_conns (abs v')) = delete (m_Alias m) (i_conns (abs v))
   else m_Before m = None ∧ m_After m = None ∧ i_conns (abs v') = i_conns (abs v)) →
  closed (abs v') → recorded (abs v) m (abs v').
Proof.
  intros Hv Hv' Hbulk Hdelta Hconn Hcl.
  pose proof (keyDelta_spec _ _ (proj2 Hv) (proj2 Hv')) as Hspec. rewrite <- Hdelta in Hspec.
  destruct Hspec as (Hkb & Hka & Hb & Ha).
  assert (∀ c s, m_Before m = Some c → m_Before m = i_conns (abs s) !! m_Alias m →
    c_Name c = m_Alias m) as Hnm1.
  { intros c s -> Hc. symmetry in Hc. by destruct (by_name_lookup_name _ _ _ _ Hc). }
  assert (∀ c s, m_After m = Some c → m_After m = i_conns (abs s) !! m_Alias m →
    c_Name c = m_Alias m) as Hnm2.
  { intros c s -> Hc. symmetry in Hc. by destruct (by_name_lookup_name _ _ _ _ Hc). }
  split; try done.
  - split; try done; try (intros; congruence).
    + intros c Hc. case_decide; destruct_and! Hconn; [by eapply Hnm1|congruence].
    + intros c Hc. case_decide; destruct_and! Hconn; [by eapply Hnm2|congruence].
    + intros _ Hk. rewrite decide_True in Hconn by done. tauto.
    + intros Hk. rewrite decide_False in Hconn by done. tauto.
  - rewrite spec_apply_host by done. unfold abs at 1, abs_lists. f_equal.
    + unfold spec_conns. case_decide; [|by destruct Hconn as (_ & _ & Hc)].
      destruct Hconn as (_ & _ & Haft & Hdel).
      apply map_eq. intros a. destruct (decide (a = m_Alias m)) as [->|Hne].
      * change (by_name c_Name (v_Connections v')) with (i_conns (abs v')).
        rewrite <- Haft. by destruct (m_After m); [rewrite lookup_insert_eq|rewrite lookup_delete_eq].
      * apply (f_equal (λ f : gmap string Connection, f !! a)) in Hdel.
        rewrite !lookup_delete_ne in Hdel by done. simpl in Hdel. rewrite Hdel.
        by destruct (m_After m); [rewrite lookup_insert_ne|rewrite lookup_delete_ne].
    + apply map_eq. intros n. rewrite spec_keys_lookup, Hb, Ha. simpl. by rewrite key_effect_delta.
  - intros _ Hk. rewrite decide_True in Hconn by done. tauto.
  - intros n. rewrite Hb, Ha.
    by destruct (decide (by_name k_Name (v_Keys v) !! n = by_name k_Name (v_Keys v') !! n)).
  - intros n Hn. rewrite keyChange_nil, Hb, Ha in Hn. rewrite Hb.
    by destruct (decide (by_name k_Name (v_Keys v) !! n = by_name k_Name (v_Keys v') !! n)).
Qed.
