(* ===== verification/ProjectionFacts.v ===== *)
(** * Publication projects the ledger soundly

    What [project] hands to the encryption, and what [markPublished] leaves
    behind: publishing everything publishes the working inventory; publishing one
    transaction that has no unsatisfied dependency publishes an inventory without
    dangling key references and leaves the remaining ledger truthful. *)

From S2P Require Import Prelude NamedList GoStrings GoErrors VaultBlob Config Ledger LedgerFacts.

Lemma Preflight_all v : validateLedger v = Ok () → Preflight v "" = inr [].
Proof. intros H. unfold Preflight. by rewrite H. Qed.

Lemma project_everything v :
  ledger_ok v →
  ∃ p, project v "" = inr p ∧ abs (p_Vault p) = abs v ∧ wf_vault (p_Vault p) ∧
    p_Selected p = v_PendingMutations v.
Proof.
  intros Hok. unfold project. rewrite Preflight_all by apply Hok.
  pose proof (proj1 (validateLedger_spec v) (lo_valid v Hok)) as (Hiff & _ & Hnd).
  destruct (v_PendingBase v) as [base|] eqn:Eb; destruct (v_PendingMutations v) as [|m ms] eqn:Em.
  - destruct Hiff as [_ Hiff]. by specialize (Hiff eq_refl).
  - destruct (lo_history v Hok base Eb) as (Hd & Hcl & Hh).
    destruct (base_vault_wf base Hd) as [Hwb Hab].
    destruct (foldl_applyMutation_refines _ (v_PendingMutations v) Hwb) as [Hr Hw];
      [by eapply history_wf|].
    rewrite Hab in Hr. rewrite <- (history_replay _ _ _ Hh) in Hr. rewrite Em in Hr, Hw.
    eexists. split; [done|]. by split_and!.
  - eexists. split; [done|]. split_and!; [done|apply Hok|done].
  - destruct Hiff as [Hiff _]. by specialize (Hiff eq_refl).
Qed.

Lemma markPublished_all v projected :
  validateLedger v = Ok () →
  v_PendingMutations (markPublished v (v_PendingMutations v) projected) = [] ∧
  v_PendingBase (markPublished v (v_PendingMutations v) projected) = None.
Proof.
  intros Hv. pose proof (proj1 (validateLedger_spec v) Hv) as (Hiff & _).
  unfold markPublished. destruct (v_PendingMutations v) as [|m ms] eqn:Em.
  - split; [done|by apply Hiff].
  - cbv zeta. rewrite filter_none; [done|].
    apply Forall_forall; intros x Hx Hn; by apply Hn, list_elem_of_fmap_2.
Qed.

(** Publishing the whole ledger publishes exactly the working inventory, and
    nothing stays pending. *)
Theorem project_all_is_working v :
  ledger_ok v →
  ∃ p, project v "" = inr p ∧ abs (p_Vault p) = abs v ∧ wf_vault (p_Vault p) ∧
    p_Selected p = v_PendingMutations v ∧
    v_PendingMutations (markPublished v (p_Selected p) (p_Vault p)) = [] ∧
    v_PendingBase (markPublished v (p_Selected p) (p_Vault p)) = None.
Proof.
  intros Hok. destruct (project_everything v Hok) as (p & ? & ? & ? & Hs).
  exists p. rewrite Hs. destruct (markPublished_all v (p_Vault p) (lo_valid v Hok)).
  by split_and!.
Qed.

(** C9: Whatever the scope that [project] accepts: the projected inventory has
    distinct names and no connection without its key, and after
    [markPublished] the ledger is truthful for the same working inventory, so a
    later publication starts from a sound base. *)
Theorem publication_keeps_ledger v only p :
  ledger_ok v → project v only = inr p →
  wf_vault (p_Vault p) ∧ closed (abs (p_Vault p)) ∧
  ledger_ok (markPublished v (p_Selected p) (p_Vault p)) ∧
  abs (markPublished v (p_Selected p) (p_Vault p)) = abs v.
Proof.
  intros Hok Hp.
  assert (abs (markPublished v (p_Selected p) (p_Vault p)) = abs v) as Habs.
  { unfold markPublished. by destruct (p_Selected p). }
  destruct (decide (only = "")) as [->|Hne].
  - destruct (project_everything v Hok) as (q & Hq & Hqa & Hqw & Hsel).
    rewrite Hp in Hq. injection Hq as ->. rewrite Hqa.
    destruct (markPublished_all v (p_Vault q) (lo_valid v Hok)) as [Hrest Hbase].
    rewrite <- Hsel in Hrest, Hbase.
    split_and!; [done|apply Hok| |done].
    assert (v_Connections (markPublished v (p_Selected q) (p_Vault q)) = v_Connections v ∧
      v_Keys (markPublished v (p_Selected q) (p_Vault q)) = v_Keys v) as [Hc Hk].
    { unfold markPublished. by destruct (p_Selected q). }
    destruct Hok as [? ? ? ? ? ?].
    split; unfold wf_vault; rewrite ?Habs, ?Hc, ?Hk, ?Hrest, ?Hbase; try done.
    apply validateLedger_spec. rewrite Hrest, Hbase. split_and!; [done|constructor|constructor].
  - unfold project in Hp. destruct (Preflight v only) as [|ds] eqn:Epf; [done|].
    destruct (Preflight_one v only ds Hne Epf) as (_ & i & m & Hi & Hm & Hind).
    pose proof (proj1 (validateLedger_spec v) (lo_valid v Hok)) as (Hiff & _ & _).
    destruct (v_PendingBase v) as [base|] eqn:Eb.
    + destruct (v_PendingMutations v) as [|m0 ms] eqn:Em; [done|].
      unfold empty_string in Hp. rewrite bool_decide_eq_false_2 in Hp by done.
      rewrite Hi, Hm in Hp. cbn [option_list] in Hp. simplify_eq. rewrite <- Em in Hm, Hind.
      destruct (publish_one v base m i Hok Eb Hm Hind) as (? & ? & ?). by split_and!.
    + destruct Hiff as [Hiff _]. rewrite (Hiff eq_refl) in Hm. done.
Qed.

(** [dependencies] lists, in ledger order and once each, exactly the earlier
    transactions the selected one transitively depends on. *)
Theorem dependencies_closure ms i :
  ∃ js, (∀ j, j ∈ js ↔ tc (depends_on ms) i j) ∧ StronglySorted lt js ∧
    (∀ j, j ∈ js → j < i) ∧
    d_ID <$> dependencies ms i = omap (λ j, m_ID <$> ms !! j) js ∧
    (dependencies ms i = [] ↔ directDependencyEdges ms i = []).
Proof.
  exists (prerequisites ms i).
  assert (∀ j, tc (depends_on ms) i j → j < i) as Hlt.
  { intros j Htc. induction Htc as [x y Hd|x y z Hd _ IH]; apply depends_on_lt in Hd; lia. }
  split_and!.
  - apply prerequisites_spec.
  - unfold prerequisites. generalize (collect (S i) ms i ∅). intros req.
    assert (∀ n k, StronglySorted lt (filter (λ j, is_Some (req !! j)) (seq k n)) ∧
      Forall (λ j, k ≤ j) (filter (λ j, is_Some (req !! j)) (seq k n))) as H; [|apply H].
    induction n as [|n IH]; intros k; [by repeat constructor|]. simpl. rewrite filter_cons.
    destruct (IH (S k)) as [Hs Hf].
    assert (Forall (λ j, k ≤ j) (filter (λ j, is_Some (req !! j)) (seq (S k) n))).
    { eapply Forall_impl; [exact Hf|]. simpl. lia. }
    case_decide; [|done]. split; [constructor; [done|]|by constructor].
    eapply Forall_impl; [exact Hf|]. simpl. lia.
  - intros j Hj. by apply Hlt, prerequisites_spec.
  - apply dependencies_prerequisites.
  - split.
    + intros Hnil. destruct (directDependencyEdges ms i) as [|e es] eqn:E; [done|].
      exfalso. apply (dependencies_nil _ _ Hnil (e_index e)). exists e. rewrite E.
      split; [constructor|done].
    + intros Hnil. apply (fmap_nil_inv d_ID). rewrite dependencies_prerequisites.
      assert (prerequisites ms i = []) as ->; [|done].
      apply elem_of_nil_inv. intros j Hj%prerequisites_spec.
      inversion Hj as [? ? (e & He & _)|? ? ? (e & He & _) _]; subst; rewrite Hnil in He;
        by apply elem_of_nil in He.
Qed.

(** A refused scope names the transactions it needs: [Preflight] fails with the
    complete prerequisite set, and it is never empty. *)
Theorem preflight_reports_dependencies v only selected required :
  Preflight v only = inl (DependencyError selected required) →
  selected = only ∧ required ≠ [] ∧
  ∃ i, pendingIndex (v_PendingMutations v) only = Some i ∧
    required = dependencies (v_PendingMutations v) i.
Proof.
  unfold Preflight. destruct (validateLedger v); [|done]. destruct (empty_string only); [done|].
  destruct (pendingIndex _ _) as [i|] eqn:Ei; [|done].
  destruct (dependencies _ _) as [|d ds] eqn:Ed; [done|]. intros [= <- <-].
  split_and!; [done..|]. exists i. by rewrite Ed.
Qed.

(** Applying the delta of two key lists to the first gives the second. *)
Theorem key_delta_roundtrip v after :
  NoDup (names k_Name (v_Keys v)) → NoDup (names k_Name after) →
  let (kb, ka) := keyDelta (v_Keys v) after in
  by_name k_Name (v_Keys (applyKeyDelta v kb ka)) = by_name k_Name after ∧
  (∀ n, n ∈ names k_Name kb ∨ n ∈ names k_Name ka ↔ keyChange (v_Keys v) after n ≠ "").
Proof.
  intros Hb Ha. pose proof (keyDelta_spec _ _ Hb Ha) as Hspec.
  destruct (keyDelta (v_Keys v) after) as [kb ka]. destruct Hspec as (Hkb & Hka & Hlb & Hla).
  split.
  - apply map_eq. intros n. rewrite by_name_head. cbn [applyKeyDelta set_keys v_Keys].
    rewrite applyKeyDelta_at_key, !last_by_name_eq, Hlb, Hla by done.
    rewrite NoDup_names_at_key in Hb. specialize (Hb n).
    pose proof (by_name_head k_Name n (v_Keys v)) as Hh. rewrite Hh. unfold delta_at_key.
    destruct (decide _) as [E|E]; [by rewrite <- E|].
    destruct (filter (λ x, k_Name x = n) (v_Keys v)) as [|x [|y l]]; simpl in Hb, E |- *;
      [| |lia]; destruct (by_name k_Name after !! n); try done.
    rewrite decide_False by congruence. done.
  - intros n. rewrite keyChange_nil.
    assert (∀ l, n ∈ names k_Name l ↔ by_name k_Name l !! n ≠ None) as Hin.
    { intros l. rewrite by_name_None. destruct (decide (n ∈ names k_Name l)); tauto. }
    rewrite !Hin, Hlb, Hla. destruct (decide _) as [E|E]; [tauto|].
    destruct (by_name k_Name (v_Keys v) !! n), (by_name k_Name after !! n); naive_solver.
Qed.

(** ** The projection recovery and finalization repeat *)

Lemma select_ids_all ms previous ids sel missing :
  select_ids ms previous ids = Ok (sel, missing) →
  missing + length sel = length ids ∧ (missing = 0 → m_ID <$> sel = ids).
Proof.
  revert previous sel missing. induction ids as [|id ids IH]; intros previous sel missing; cbn.
  { by intros [= <- <-]. }
  destruct (pendingIndex ms id) as [i|] eqn:Ei.
  - case_bool_decide; [done|]. destruct (select_ids ms (S i) ids) as [[sel' k]|] eqn:Es; [|done].
    cbn. intros [= <- <-]. destruct (IH _ _ _ Es) as [Hl Hm].
    destruct (pendingIndex_Some _ _ _ Ei) as (m & -> & Hid). cbn. split; [lia|]. intros Hk. by rewrite Hm, Hid.
  - destruct (select_ids ms previous ids) as [[sel' k]|] eqn:Es; [|done].
    cbn. intros [= <- <-]. destruct (IH _ _ _ Es) as [Hl _]. split; [lia|done].
Qed.

Lemma project_selects v ids p :
  projectTransactionIDs v ids = Ok p → p_Selected p ≠ [] → m_ID <$> p_Selected p = ids.
Proof.
  unfold projectTransactionIDs. intros Hp Hne. inv_ok Hp. destruct a0 as [sel missing].
  apply select_ids_all in Hok0 as [_ Hall]. case_bool_decide; [by simplify_eq|]. inv_ok Hp. bool_to_prop.
  destruct (v_PendingBase v); [|done]. simplify_eq/=. by apply Hall.
Qed.


Lemma pendingIndex_at pre m post :
  NoDup (m_ID <$> pre ++ m :: post) → pendingIndex (pre ++ m :: post) (m_ID m) = Some (length pre).
Proof.
  unfold pendingIndex. induction pre as [|x pre IH]; cbn; [by rewrite bool_decide_eq_true_2|].
  intros [Hx Hnd]%NoDup_cons. rewrite bool_decide_eq_false_2, IH; [done..|].
  intros Heq. apply Hx. rewrite Heq, fmap_app. set_solver.
Qed.

Lemma select_ids_block sel : ∀ pre post previous,
  NoDup (m_ID <$> pre ++ sel ++ post) → previous ≤ length pre →
  select_ids (pre ++ sel ++ post) previous (m_ID <$> sel) = Ok (sel, 0).
Proof.
  induction sel as [|m sel IH]; intros pre post previous Hnd Hle; [done|].
  cbn [fmap list_fmap select_ids app]. rewrite pendingIndex_at by done.
  rewrite bool_decide_eq_false_2 by lia. rewrite list_lookup_middle by done.
  specialize (IH (pre ++ [m]) post (S (length pre))). rewrite <- app_assoc in IH. cbn [app] in IH.
  rewrite length_app in IH. cbn [length] in IH. by rewrite IH by (done || lia).
Qed.

(** Recovery and finalization work on exactly what was published. The transactions
    [project] selected from a ledger are projected to the same vault again from any
    later ledger over the same base whose new work comes after them, so mutations made
    during the push neither leak into what is finalized nor block it. *)
Theorem projection_survives_new_work v v' more only p :
  project v only = inr p → p_Selected p ≠ [] →
  v_PendingBase v' = v_PendingBase v → v_PendingMutations v' = v_PendingMutations v ++ more →
  validateLedger v' = Ok () →
  projectTransactionIDs v' (m_ID <$> p_Selected p) = Ok p.
Proof.
  intros Hp Hne Hbase Hms Hv. pose proof (proj1 (validateLedger_spec v') Hv) as (_ & _ & Hnd).
  unfold project in Hp. destruct (Preflight v only) as [|ds]; [done|].
  destruct (v_PendingBase v) as [base|] eqn:Eb; [|by simplify_eq].
  destruct (v_PendingMutations v) as [|m0 ms0] eqn:Em; [by simplify_eq|].
  assert (∃ pre post, v_PendingMutations v' = pre ++ p_Selected p ++ post ∧ p = project_selected base (p_Selected p))
    as (pre & post & Hsel & Hpeq).
  { apply (inj inr) in Hp as <-. revert Hne. cbn [project_selected p_Selected]. destruct (empty_string only); intros Hne.
    - exists [], more. by rewrite Hms.
    - revert Hne. rewrite Hms. generalize (m0 :: ms0). intros ms.
      destruct (pendingIndex ms only) as [i|] eqn:Ei; [intros _|by intros []].
      apply pendingIndex_Some in Ei as (m & Hm & _). rewrite Hm. cbn [option_list].
      apply list_elem_of_split_length in Hm as (pre & post & Hsplit & _).
      exists pre, (post ++ more). rewrite Hsplit. cbn [app]. by rewrite <- app_assoc. }
  unfold projectTransactionIDs. rewrite Hv. cbn [mbind result_bind].
  rewrite Hsel in Hnd |- *. rewrite select_ids_block by (done || lia). cbn [mbind result_bind].
  rewrite bool_decide_eq_false_2 by (rewrite length_fmap; by destruct (p_Selected p)).
  rewrite Hbase. by rewrite <- Hpeq.
Qed.
