(* ===== verification/HostMutation.v ===== *)
(** * Reviewed inventory mutations ([internal/inventorytransaction/transaction.go])

    The three handlers that change the local inventory: [ApplyHost],
    [RemoveSavedKey] and [ApplyImport]. Each validates its input, builds a
    candidate from a copy of the vault, appends one pending mutation to the
    ledger and saves the candidate. The slices of the vault are copied before
    they are changed ([cloneVault]), so a candidate is a value of its own.

    What the handlers take from outside is in [Env]: credential files, the SSH
    key parser (third party), the verifier, the clock, random bytes and the
    saving of files. *)

From Stdlib Require Import Ascii.
From S2P Require Import Prelude NamedList GoStrings GoErrors VaultBlob FailurePolicy Config Ledger.

(** ** Requests, receipts and errors *)

Definition HostAction := string.
Definition HostAdd : HostAction := "add".
Definition HostUpdate : HostAction := "update".
Definition HostUpsert : HostAction := "upsert".
Definition HostRemove : HostAction := "remove".

Record HostChange := mkHostChange {
  hc_Action : HostAction;
  hc_Alias : string;
  hc_Host : option string;
  hc_Port : option Z;
  hc_User : option string;
  hc_Group : option string;
  hc_Transfer : option string;
  hc_ProxyJump : option string;
  hc_PasswordFile : option string;
  hc_SavedKey : option string;
  hc_KeyFile : option string;
  hc_KeyName : option string;
  hc_PruneKey : bool;
  hc_Verify : bool;
}.

Record HostView := mkHostView {
  hv_Name : string;
  hv_Host : string;
  hv_Port : Z;
  hv_User : string;
  hv_Group : string;
  hv_Auth : string;
  hv_KeyName : string;
  hv_Transfer : string;
  hv_ProxyJump : string;
}.

(** The part of [CheckResult] the handler reads and writes, with the rest of the
    verifier's report. *)
Record CheckResult := mkCheck { ck_OK : bool; ck_Alias : string; ck_Report : string }.

Record MutationReceipt := mkReceipt {
  r_OK : bool;
  r_Action : string;
  r_Changed : bool;
  r_Host : HostView;
  r_KeyAdded : string;
  r_KeyPruned : string;
  r_SyncPending : bool;
  r_Applied : bool;
  r_Pushed : bool;
  r_TransactionID : string;
  r_Verification : option CheckResult;
}.

Record SavedKeyMutationReceipt := mkKeyReceipt {
  kr_OK : bool;
  kr_Action : string;
  kr_KeyName : string;
  kr_Keys : Z;
  kr_SyncPending : bool;
  kr_Applied : bool;
  kr_Pushed : bool;
  kr_TransactionID : string;
}.

Record ImportReceipt := mkImportReceipt {
  ir_OK : bool;
  ir_Action : string;
  ir_Connections : Z;
  ir_Keys : Z;
  ir_Aliases : list string;
  ir_Conflicts : list MergeConflict;
  ir_SyncPending : bool;
  ir_Applied : bool;
  ir_Pushed : bool;
  ir_TransactionID : string;
}.

Inductive mutation_error :=
  | MutationFailed (e : goerror)
  | VerificationError (receipt : MutationReceipt)
  | SavedKeyNotFoundError (name : string)
  | MergeReportError (e : goerror).

(** A handler returns a receipt or an error, and may have saved a vault. *)
Record handled (A : Type) := mkHandled { h_result : mutation_error + A; h_saved : option Vault }.
Arguments mkHandled {A} _ _.
Arguments h_result {A} _.
Arguments h_saved {A} _.

Definition refuse {A} (e : mutation_error) : handled A := mkHandled (inl e) None.

(** ** The environment *)

(** What [config.Save] did. It may fail after the rename that installs the new file, when
    the permissions cannot be set again or the directory cannot be synchronised; [stored]
    says whether the new vault is the one on disk. *)
Inductive save_result := VaultSaved | VaultSaveFailed (stored : bool) (e : goerror).

Class Env := {
  (** [os.Open] and reading the file to its end *)
  env_read_file : string → result string;
  (** [gossh.ParsePrivateKey]: [None], or the error's text *)
  env_ParsePrivateKey : string → option string;
  env_verifier : Connection → Vault → CheckResult;
  (** [t.now().UTC()] in RFC 3339 with nanoseconds, and with seconds *)
  env_now : string;
  env_recorded_at : string;
  (** [io.ReadFull(t.random, raw)] for 16 bytes *)
  env_random : result bytes;
  (** [config.AcquireFileLock(VaultWriteLockName, ...)] *)
  env_lock : result ();
  (** [config.LoadedBlobIdentity] and, read under the lock, [CurrentBlobIdentity] *)
  env_loaded : option string;
  env_current : result string;
  (** [config.Save] and [config.SaveMergeReport] *)
  env_save : Vault → save_result;
  env_save_report : MergeReport → result ();
  env_redact : string → string;
}.

Definition hostError (kind : Kind) (message : string) : goerror := ClassifiedError kind message.

(** ** Copies and references *)

Definition cloneVault (v : Vault) : Vault :=
  mkVault (v_Connections v) (v_Keys v) (v_PendingBase v) (v_PendingMutations v).

Definition equalSSHKeys (a b : list SSHKey) : bool := bool_decide (a = b).

Definition keyReferenceCountExcept (v : Vault) (name exceptAlias : string) : nat :=
  length (filter (λ c, c_Name c ≠ exceptAlias ∧ c_KeyName c = name) (v_Connections v)).
Definition keyReferenceCount (v : Vault) (name : string) : nat := keyReferenceCountExcept v name "".

Definition effective_port (p : Z) : Z := if bool_decide (p = 0%Z) then 22%Z else p.

Definition View (c : Connection) : HostView :=
  let auth :=
    if negb (empty_string (c_KeyName c)) && negb (empty_string (c_Password c)) then "key+password"
    else if negb (empty_string (c_KeyName c)) then "key"
    else if negb (empty_string (c_Password c)) then "password" else "none" in
  mkHostView (c_Name c) (c_Host c) (effective_port (c_Port c)) (c_User c) (c_Group c) auth
    (c_KeyName c) (c_Transfer c) (c_ProxyJump c).

(** ** Validation *)

Fixpoint hasControlCharacter (value : string) : bool :=
  match value with
  | EmptyString => false
  | String c s => N.ltb (code c) 32 || N.eqb (code c) 127 || hasControlCharacter s
  end.

Definition alnum (c : ascii) : bool := is_alpha c || is_digit c.
(** [^[A-Za-z0-9][A-Za-z0-9._-]{0,127}$]. *)
Definition safeHostAlias (s : string) : bool :=
  match s with
  | EmptyString => false
  | String c s' =>
      alnum c && bool_decide (String.length s' ≤ 127)
      && string_forall (λ c, alnum c || contains_char c "._-") s'
  end.

Definition blanks : string := string_of_codes [32; 9; 13; 10]%N.

Definition validateManagedConnection (c : Connection) (v : Vault) : result () :=
  _ ← check (negb (empty_string (TrimSpace (c_Host c))))
        (hostError HostInvalidAddress "host address must not be empty");
  _ ← check (bool_decide (c_Host c = TrimSpace (c_Host c))
             && negb (ContainsAny (c_Host c) (blanks +:+ "/@")) && negb (Contains (c_Host c) "://"))
        (hostError HostInvalidAddress "host must be a hostname or unbracketed IP address without user, scheme, path, or whitespace");
  _ ← check (negb (HasPrefix (c_Host c) "[") && negb (HasSuffix (c_Host c) "]"))
        (hostError HostInvalidAddress "IPv6 addresses must be unbracketed");
  _ ← check (negb (empty_string (TrimSpace (c_User c))) && negb (ContainsAny (c_User c) blanks)
             && negb (hasControlCharacter (c_User c)))
        (hostError HostInvalidUser "SSH user must not be empty or contain whitespace/control characters");
  _ ← check (bool_decide (1 ≤ c_Port c ≤ 65535)%Z)
        (hostError HostApplyInvalidArguments "port must be from 1 to 65535");
  _ ← check (negb (hasControlCharacter (c_Group c)))
        (hostError HostInvalidGroup "group must not contain control characters");
  _ ← (if empty_string (c_ProxyJump c) then Ok ()
       else
         _ ← check (negb (hasControlCharacter (c_ProxyJump c))
                    && negb (ContainsAny (c_ProxyJump c) (string_of_codes [32; 9]%N)))
               (hostError HostApplyInvalidArguments "proxy-jump must be a single host alias");
         check (negb (bool_decide (c_ProxyJump c = c_Name c)))
           (hostError HostApplyInvalidArguments "proxy-jump must not point at the host itself"));
  _ ← check (negb (empty_string (c_Password c) && empty_string (c_KeyName c)))
        (hostError HostApplyAuthenticationRequired "host requires password or key authentication");
  check (empty_string (c_KeyName c) || bool_decide (is_Some (GetKey v (c_KeyName c))))
    (hostError HostSavedKeyNotFound "saved key not found").

(** ** Candidates *)

Section Handlers.
Context `{UnicodeCase} `{E : Env}.

Definition maxHostCredentialBytes : nat := 1024 * 1024.

Definition readHostCredentialFile (path : string) : result string :=
  data ← env_read_file path;
  _ ← check (bool_decide (String.length data ≤ maxHostCredentialBytes))
        (Errorf ("credential file exceeds 1048576 bytes"));
  Ok data.

(** Relabel a failure. *)
Definition or_fail {A} (r : result A) (f : goerror → goerror) : result A :=
  match r with Ok a => Ok a | Fail e => Fail (f e) end.

Definition loadPasswordFile (path : string) : result string :=
  _ ← check (negb (empty_string (TrimSpace path)))
        (hostError HostApplyInvalidArguments "--password-file requires a path");
  data ← or_fail (readHostCredentialFile path) (λ e,
           hostError HostPasswordFileFailed ("read password file: " +:+ env_redact (error_text e)));
  let password := TrimRight data (string_of_codes [13; 10]%N) in
  _ ← check (negb (empty_string password)) (hostError HostPasswordFileFailed "password file is empty");
  _ ← check (negb (contains_char (char 0) password))
        (hostError HostPasswordFileFailed "password file contains a NUL byte");
  Ok password.

(** The new vault, the key's name and whether it was added. *)
Definition installHostKey (v : Vault) (current : Connection) (key_file : string)
    (key_name : option string) (alias : string) : result (Vault * string * bool) :=
  let path := TrimSpace key_file in
  _ ← check (negb (empty_string path)) (hostError HostApplyInvalidArguments "--key-file requires a path");
  data ← or_fail (readHostCredentialFile path) (λ e,
           hostError HostKeyFileFailed ("read key file: " +:+ env_redact (error_text e)));
  let material := TrimSpace data in
  _ ← check (negb (empty_string material)) (hostError HostInvalidKey "key file is empty");
  _ ← match env_ParsePrivateKey material with
      | Some e => Fail (hostError HostInvalidKey
                    ("key file is not an unencrypted SSH private key: " +:+ env_redact e))
      | None => Ok ()
      end;
  let name := match key_name with Some n => TrimSpace n | None => "" end in
  let name :=
    if empty_string name then
      if empty_string (c_KeyName current) then alias else c_KeyName current
    else name in
  _ ← check (safeHostAlias name)
        (hostError HostApplyInvalidArguments "new key names must match [A-Za-z0-9][A-Za-z0-9._-]{0,127}");
  match index_of k_Name name (v_Keys v) with
  | Some i =>
      match v_Keys v !! i with
      | None => Ok (v, name, false)
      | Some k =>
          if bool_decide (TrimSpace (k_PrivateKey k) = material) then Ok (v, name, false)
          else if negb (bool_decide (c_KeyName current = name)) then
            Fail (hostError HostKeyConflict ("saved key " +:+ Quote name +:+ " already has different material; choose a new --key-name"))
          else if bool_decide (0 < keyReferenceCountExcept v name (c_Name current)) then
            Fail (hostError HostKeyConflict ("saved key " +:+ Quote name +:+ " is shared and has different material; choose a new --key-name"))
          else Ok (set_keys v (<[i := mkSSHKey (k_Name k) material]> (v_Keys v)), name, false)
      end
  | None => Ok (set_keys v (v_Keys v ++ [mkSSHKey name material]), name, true)
  end.

(** The optional fields of a change, applied to the current connection. *)
Definition apply_fields (change : HostChange) (c : Connection) : result Connection :=
  let host := match hc_Host change with Some h => TrimSpace h | None => c_Host c end in
  let port := default (c_Port c) (hc_Port change) in
  let user := match hc_User change with Some u => TrimSpace u | None => c_User c end in
  let group := match hc_Group change with Some g => TrimSpace g | None => c_Group c end in
  transfer ← match hc_Transfer change with
             | None => Ok (c_Transfer c)
             | Some t =>
                 let '(mode, ok) := NormalizeTransfer t in
                 if ok then Ok mode
                 else Fail (hostError HostApplyInvalidArguments "transfer must be auto, shell, or sftp")
             end;
  let jump := match hc_ProxyJump change with Some j => TrimSpace j | None => c_ProxyJump c end in
  Ok (mkConnection (c_Name c) host port user (c_Password c) (c_KeyName c) group transfer jump).

Definition with_auth (c : Connection) (password key : string) : Connection :=
  mkConnection (c_Name c) (c_Host c) (c_Port c) (c_User c) password key (c_Group c)
    (c_Transfer c) (c_ProxyJump c).

(** The authentication switch: the vault, the connection and the key added. *)
Definition apply_auth (change : HostChange) (v : Vault) (c : Connection) :
    result (Vault * Connection * string) :=
  match hc_PasswordFile change, hc_SavedKey change, hc_KeyFile change with
  | Some path, _, _ => password ← loadPasswordFile path; Ok (v, with_auth c password "", "")
  | None, Some saved, _ =>
      let name := TrimSpace saved in
      _ ← check (negb (empty_string name) && bool_decide (is_Some (GetKey v name)))
            (hostError HostSavedKeyNotFound ("saved key " +:+ Quote name +:+ " not found"));
      Ok (v, with_auth c "" name, "")
  | None, None, Some key_file =>
      '(v', name, added) ← installHostKey v c key_file (hc_KeyName change) (hc_Alias change);
      Ok (v', with_auth c "" name, if (added : bool) then name else "")
  | None, None, None => Ok (v, c, "")
  end.

Definition remove_candidate (v : Vault) (change : HostChange) : result (Vault * MutationReceipt) :=
  match exactConnectionIndex v (hc_Alias change) with
  | None => Fail (hostError HostAliasNotFound ("host " +:+ Quote (hc_Alias change) +:+ " not found"))
  | Some idx =>
      match v_Connections v !! idx with
      | None => Fail (hostError HostAliasNotFound "")
      | Some removed =>
          let updated := set_connections v (take idx (v_Connections v) ++ drop (S idx) (v_Connections v)) in
          let prune := hc_PruneKey change && negb (empty_string (c_KeyName removed))
                       && bool_decide (keyReferenceCount updated (c_KeyName removed) = 0) in
          let '(updated, pruned) :=
            if prune then removeKeyByName updated (c_KeyName removed) else (updated, false) in
          Ok (updated, mkReceipt true "removed" true (View removed) ""
                (if pruned then c_KeyName removed else "") true false false "" None)
      end
  end.

Definition change_candidate (v : Vault) (change : HostChange) : result (Vault * MutationReceipt) :=
  let idx := exactConnectionIndex v (hc_Alias change) in
  let existing := i ← idx; v_Connections v !! i in
  let exists_ := bool_decide (is_Some idx) in
  let alias := Quote (hc_Alias change) in
  _ ← check (negb (bool_decide (hc_Action change = HostAdd) && exists_))
        (hostError HostAlreadyExists ("host " +:+ alias +:+ " already exists; use host upsert or update"));
  _ ← check (negb (bool_decide (hc_Action change = HostUpdate) && negb exists_))
        (hostError HostAliasNotFound ("host " +:+ alias +:+ " not found; use host upsert or add"));
  _ ← check (bool_decide (hc_Action change ∈ [HostAdd; HostUpdate; HostUpsert]))
        (hostError HostApplyInvalidArguments ("unsupported host mutation " +:+ Quote (hc_Action change)));
  _ ← check (exists_ || safeHostAlias (hc_Alias change))
        (hostError HostInvalidAlias "new aliases must match [A-Za-z0-9][A-Za-z0-9._-]{0,127}");
  let previous :=
    match existing with
    | Some c => mkConnection (c_Name c) (c_Host c) (effective_port (c_Port c)) (c_User c)
                  (c_Password c) (c_KeyName c) (c_Group c) (c_Transfer c) (c_ProxyJump c)
    | None => mkConnection (hc_Alias change) "" 22 "" "" "" "" "" ""
    end in
  connection ← apply_fields change previous;
  '(updated, connection, keyAdded) ← apply_auth change v connection;
  _ ← validateManagedConnection connection updated;
  let updated' :=
    match idx with
    | Some i => set_connections updated (<[i := connection]> (v_Connections updated))
    | None => set_connections updated (v_Connections updated ++ [connection])
    end in
  let changed := negb exists_ || negb (bool_decide (previous = connection))
                 || negb (equalSSHKeys (v_Keys v) (v_Keys updated')) in
  let action := if negb exists_ then "created" else if changed then "updated" else "unchanged" in
  Ok (updated', mkReceipt true action changed (View connection) keyAdded "" true false false "" None).

Definition buildHostCandidate (v : Vault) (change : HostChange) : result (Vault * MutationReceipt) :=
  let updated := cloneVault v in
  if bool_decide (hc_Action change = HostRemove) then remove_candidate updated change
  else change_candidate updated change.

(** ** Saving *)

Definition ErrVaultBusy : goerror := Sentinel "inventorytransaction.ErrVaultBusy" [].
Definition ErrVaultChanged : goerror := Sentinel "inventorytransaction.ErrVaultChanged" [].

Definition lockVaultWrite : result () :=
  or_fail env_lock (λ e, if is_sentinel e ErrLockBusy then ErrVaultBusy else e).

(** The identity check and the save, under the vault write lock: the vault that was stored,
    if one was, and the error. *)
Definition saveLoadedVault (after : Vault) : option Vault * result () :=
  let checked :=
    _ ← lockVaultWrite;
    match env_loaded with
    | Some loaded => current ← env_current; check (bool_decide (current = loaded)) ErrVaultChanged
    | None => Ok ()
    end in
  match checked with
  | Fail e => (None, Fail e)
  | Ok _ =>
      match env_save after with
      | VaultSaved => (Some after, Ok ())
      | VaultSaveFailed stored e => (if stored then Some after else None, Fail e)
      end
  end.

Definition newID : result string :=
  raw ← or_fail env_random (λ e, Wrap "generate transaction id" [e]);
  Ok ("tx_" +:+ hex_encode raw).

(** The base a new ledger starts from. *)
Definition pending_base (before after : Vault) (e : goerror) : result InventorySnapshot :=
  match v_PendingBase after with
  | Some b => Ok b
  | None => _ ← check (bool_decide (v_PendingMutations after = [])) e; Ok (snapshotInventory before)
  end.

Definition append_mutation (after : Vault) (base : InventorySnapshot) (m : PendingMutation) : Vault :=
  mkVault (v_Connections after) (v_Keys after) (Some base) (v_PendingMutations after ++ [m]).

(** ** The handlers *)

(** [rec_applied id] is the receipt of a saved mutation. *)
Definition receipt_with (r : MutationReceipt) (applied : bool) (id : string)
    (verification : option CheckResult) : MutationReceipt :=
  mkReceipt (r_OK r) (r_Action r) (r_Changed r) (r_Host r) (r_KeyAdded r) (r_KeyPruned r)
    (r_SyncPending r) applied (r_Pushed r) id verification.

Definition host_mutation (before after : Vault) (alias id action : string) : PendingMutation :=
  let '(keysBefore, keysAfter) := keyDelta (v_Keys before) (v_Keys after) in
  mkMutation id alias [] "" action env_now
    (i ← exactConnectionIndex before alias; v_Connections before !! i)
    (i ← exactConnectionIndex after alias; v_Connections after !! i)
    keysBefore keysAfter None None 0 0.

Definition ApplyHost (before : Vault) (change : HostChange) : handled MutationReceipt :=
  let failed kind e := refuse (MutationFailed (hostError kind (error_text e))) in
  match validateLedger before with
  | Fail e => failed HostTransactionFailed e
  | Ok _ =>
  match buildHostCandidate before change with
  | Fail e => refuse (MutationFailed e)
  | Ok (after, receipt) =>
  (* the verification of the candidate *)
  let checked : mutation_error + option CheckResult :=
    if hc_Verify change then
      match exactConnectionIndex after (hc_Alias change) ≫= (λ i, v_Connections after !! i) with
      | None => inl (MutationFailed (hostError HostInternalFailure "candidate host disappeared before verification"))
      | Some c =>
          let ck := env_verifier c after in
          let ck := mkCheck (ck_OK ck) (hc_Alias change) (ck_Report ck) in
          if ck_OK ck then inr (Some ck)
          else inl (VerificationError (receipt_with receipt false "" (Some ck)))
      end
    else inr None in
  match checked with
  | inl e => refuse e
  | inr verification =>
  if negb (r_Changed receipt) then
    mkHandled (inr (receipt_with receipt true "" verification)) None
  else
  match newID with
  | Fail e => failed HostTransactionFailed e
  | Ok id =>
  match pending_base before after (Errorf "pending mutations require a pending base") with
  | Fail e => failed HostTransactionFailed e
  | Ok base =>
  let saved := append_mutation after base
    (host_mutation before after (hv_Name (r_Host receipt)) id (r_Action receipt)) in
  match saveLoadedVault saved with
  | (stored, Fail e) => mkHandled (inl (MutationFailed (hostError HostVaultFailed (error_text e)))) stored
  | (stored, Ok _) => mkHandled (inr (receipt_with receipt true id verification)) stored
  end end end end end end.

Definition key_mutation (before after : Vault) (name id : string) : PendingMutation :=
  let '(keysBefore, keysAfter) := keyDelta (v_Keys before) (v_Keys after) in
  mkMutation id "" [] name "saved_key_removed" env_now None None keysBefore keysAfter None None 0 1.

Definition RemoveSavedKey (before : Vault) (name : string) : handled SavedKeyMutationReceipt :=
  let failed what e := refuse (MutationFailed (Wrap what [e])) in
  match validateLedger before with
  | Fail e => failed "saved-key transaction" e
  | Ok _ =>
  match GetKey before name with
  | None => refuse (SavedKeyNotFoundError name)
  | Some _ =>
  let references :=
    sort_strings (c_Name <$> filter (λ c, c_KeyName c = name) (v_Connections before)) in
  if bool_decide (references ≠ []) then
    refuse (MutationFailed (Errorf ("saved key " +:+ Quote name
      +:+ " is still referenced by aliases " +:+ Join references ", ")))
  else
  let '(after, removed) := removeKeyByName (cloneVault before) name in
  if negb removed then refuse (SavedKeyNotFoundError name)
  else
  match newID with
  | Fail e => failed "saved-key transaction" e
  | Ok id =>
  match pending_base before after
          (Errorf "saved-key transaction: pending mutations require a pending base") with
  | Fail e => refuse (MutationFailed e)
  | Ok base =>
  let saved := append_mutation after base (key_mutation before after name id) in
  match saveLoadedVault saved with
  | (stored, Fail e) => mkHandled (inl (MutationFailed (Wrap "save saved-key transaction" [e]))) stored
  | (stored, Ok _) => mkHandled (inr (mkKeyReceipt true "saved_key_removed" name 1 true true false id)) stored
  end end end end end.

(** ** Imports *)

Definition affectedConnectionAliases (before after : list Connection) : list string :=
  let b := last_by_name c_Name before in
  let a := last_by_name c_Name after in
  sort_strings (filter (λ n, b !! n ≠ a !! n)
    (remove_dups (names c_Name before ++ names c_Name after))).

(** The keys loop; [keys] is the set of names seen. *)
Fixpoint import_keys (keys : gset string) (ks : list SSHKey) : result (gset string) :=
  match ks with
  | [] => Ok keys
  | k :: ks' =>
      if empty_string (TrimSpace (k_Name k)) then
        Fail (Errorf "imported saved key name must not be empty")
      else if bool_decide (k_Name k ∈ keys) then
        Fail (Errorf ("imported saved key " +:+ Quote (k_Name k) +:+ " is duplicated"))
      else import_keys ({[ k_Name k ]} ∪ keys) ks'
  end.

Fixpoint import_connections (keys aliases : gset string) (cs : list Connection) : result () :=
  match cs with
  | [] => Ok ()
  | c :: cs' =>
      let q := Quote (c_Name c) in
      _ ← check (negb (empty_string (TrimSpace (c_Name c)))) (Errorf "imported alias must not be empty");
      _ ← check (negb (bool_decide (c_Name c ∈ aliases)))
            (Errorf ("imported alias " +:+ q +:+ " is duplicated"));
      _ ← check (negb (empty_string (TrimSpace (c_Host c)) || empty_string (TrimSpace (c_User c))))
            (Errorf ("imported alias " +:+ q +:+ " requires host and user"));
      _ ← check (bool_decide (1 ≤ c_Port c ≤ 65535)%Z)
            (Errorf ("imported alias " +:+ q +:+ " has invalid port"));
      _ ← check (negb (empty_string (c_Password c) && empty_string (c_KeyName c)))
            (Errorf ("imported alias " +:+ q +:+ " has no supported auth material"));
      _ ← check (empty_string (c_KeyName c) || bool_decide (c_KeyName c ∈ keys))
            (Errorf ("imported alias " +:+ q +:+ " references missing saved key " +:+ Quote (c_KeyName c)));
      import_connections keys ({[ c_Name c ]} ∪ aliases) cs'
  end.

Definition validateImportInventory (imported : Vault) : result () :=
  keys ← import_keys ∅ (v_Keys imported);
  import_connections keys ∅ (v_Connections imported).

Definition import_mutation (before after : Vault) (id action : string) : PendingMutation :=
  let '(keysBefore, keysAfter) := keyDelta (v_Keys before) (v_Keys after) in
  let aliases := affectedConnectionAliases (v_Connections before) (v_Connections after) in
  mkMutation id "" aliases "" ("import_" +:+ action) env_now None None keysBefore keysAfter
    (Some (snapshotInventory before)) (Some (snapshotInventory after))
    (Z.of_nat (length aliases))
    (Z.of_nat (length (changedKeyNames (v_Keys before) (v_Keys after)))).

(** The imported inventory in place of, or merged over, the working one. *)
Definition import_candidate (before imported : Vault) (replace : bool) : Vault * MergeReport :=
  if replace then
    (mkVault (v_Connections imported) (v_Keys imported) (v_PendingBase before) (v_PendingMutations before),
     mkReport "" [])
  else
    let '(merged, report) :=
      MergeVaultsWithReport env_recorded_at (inventoryOnly before) (inventoryOnly imported) in
    (mkVault (v_Connections merged) (v_Keys merged) (v_PendingBase before) (v_PendingMutations before),
     report).

Definition ApplyImport (before imported : Vault) (replace : bool) : handled ImportReceipt :=
  let failed what e := refuse (MutationFailed (Wrap what [e])) in
  match validateLedger before with
  | Fail e => failed "import transaction" e
  | Ok _ =>
  match validateImportInventory imported with
  | Fail e => refuse (MutationFailed e)
  | Ok _ =>
  let '(after, report) := import_candidate before imported replace in
  match newID with
  | Fail e => failed "import transaction" e
  | Ok id =>
  match pending_base before after
          (Errorf "import transaction: pending mutations require a pending base") with
  | Fail e => refuse (MutationFailed e)
  | Ok base =>
  let action := if replace then "replaced" else "merged" in
  let mutation := import_mutation before after id action in
  let saved := append_mutation after base mutation in
  match (if replace then Ok () else env_save_report report) with
  | Fail e => refuse (MergeReportError e)
  | Ok _ =>
  match saveLoadedVault saved with
  | (stored, Fail e) => mkHandled (inl (MutationFailed (Wrap "save import transaction" [e]))) stored
  | (stored, Ok _) =>
      mkHandled (inr (mkImportReceipt true action (Z.of_nat (length (v_Connections imported)))
        (Z.of_nat (length (v_Keys imported))) (m_Aliases mutation) (mr_Conflicts report)
        true true false id)) stored
  end end end end end end.
End Handlers.
