(* ===== verification/HostMutationFacts.v ===== *)
(** * The mutation handlers keep the ledger truthful

    Every vault a handler saves satisfies the ledger invariant [ledger_ok] when
    the vault it started from does: the new pending mutation records the change
    exactly, no connection is left without its key, names stay distinct, and a saved key
    that another connection uses stays as it is. A handler whose save fails after the
    rename returns an error and has still stored such a vault. *)

From S2P Require Import Prelude NamedList GoStrings GoErrors VaultBlob FailurePolicy Config Ledger LedgerFacts HostMutation.

Section Facts.
Context `{UnicodeCase} `{E : Env}.

(** The keys of [v'] include those of [v]; connections and ledger are the same. *)
Record keys_grow (v v' : Vault) : Prop := {
  kg_conns : v_Connections v' = v_Connections v;
  kg_base : v_PendingBase v' = v_PendingBase v;
  kg_pending : v_PendingMutations v' = v_PendingMutations v;
  kg_names : NoDup (names k_Name (v_Keys v'));
  kg_nonempty : "" ∉ names k_Name (v_Keys v) → "" ∉ names k_Name (v_Keys v');
  kg_keys : ∀ n, is_Some (by_name k_Name (v_Keys v) !! n) → is_Some (by_name k_Name (v_Keys v') !! n);
}.

Lemma keys_grow_refl v : NoDup (names k_Name (v_Keys v)) → keys_grow v v.
Proof. by split. Qed.

Lemma GetKey_by_name v n : GetKey v n = by_name k_Name (v_Keys v) !! n.
Proof. apply keyByName_by_name. Qed.

Lemma installHostKey_ok v current file key_name alias v' name added :
  NoDup (names k_Name (v_Keys v)) →
  installHostKey v current file key_name alias = Ok (v', name, added) → keys_grow v v'.
Proof.
  intros Hnd Hr. unfold installHostKey in Hr. inv_ok Hr.
  destruct (index_of k_Name _ _) as [i|] eqn:Ei.
  - destruct (index_of_Some _ _ _ _ Ei) as (k & Hk & Hkn & _). rewrite Hk in Hr.
    revert Hr. case_bool_decide; [intros; simplify_eq; by apply keys_grow_refl|].
    destruct (negb (bool_decide _)); [done|]. case_bool_decide; [done|]. intros Hr. simplify_eq.
    assert (k_Name (mkSSHKey (k_Name k) (TrimSpace a0)) = k_Name k) as Hn by done.
    split; try done; cbn [set_keys v_Keys].
    + by rewrite (names_insert _ _ _ _ _ Hk Hn).
    + by rewrite (names_insert _ _ _ _ _ Hk Hn).
    + intros n Hin. rewrite (by_name_insert _ _ _ _ _ Ei) by done.
      apply lookup_insert_is_Some. destruct (decide (k_Name k = n)); naive_solver.
  - simplify_eq. apply index_of_None in Ei. split; try done; cbn [set_keys v_Keys].
    + by apply names_snoc_NoDup.
    + intros Hne Hin. unfold names in Hin. rewrite fmap_app, elem_of_app in Hin. cbn in Hin.
      rewrite list_elem_of_singleton in Hin. destruct Hin as [|Heq]; [done|].
      by rewrite <- Heq in Hok3.
    + intros n Hin. rewrite by_name_app. apply lookup_union_is_Some. by left.
Qed.

(** Only the key [name] differs, and only the connection [alias] may use it. *)
Definition key_private (v : Vault) (keys : list SSHKey) (name alias : string) : Prop :=
  ∀ n, by_name k_Name keys !! n ≠ by_name k_Name (v_Keys v) !! n →
    n = name ∧ ∀ a c, a ≠ alias → i_conns (abs v) !! a = Some c → c_KeyName c ≠ n.

Lemma keyReferenceCountExcept_0 v name alias :
  keyReferenceCountExcept v name alias = 0 →
  ∀ a c, a ≠ alias → i_conns (abs v) !! a = Some c → c_KeyName c ≠ name.
Proof.
  intros Hcount a c Ha [Hn Hin]%by_name_lookup_name Hk. unfold keyReferenceCountExcept in Hcount.
  apply nil_length_inv in Hcount.
  assert (c ∈ filter (λ c, c_Name c ≠ alias ∧ c_KeyName c = name) (v_Connections v)) as Hf.
  { apply list_elem_of_filter. split; [split; [congruence|done]|done]. }
  rewrite Hcount in Hf. by apply elem_of_nil in Hf.
Qed.

(** A saved key that another connection uses keeps its material. *)
Lemma installHostKey_private v current file key_name alias v' name added :
  NoDup (names k_Name (v_Keys v)) → closed (abs v) →
  installHostKey v current file key_name alias = Ok (v', name, added) →
  key_private v (v_Keys v') name (c_Name current).
Proof.
  intros Hnd Hcl Hr. unfold installHostKey in Hr. inv_ok Hr.
  set (nm := if empty_string (match key_name with Some n => TrimSpace n | None => "" end) then _ else _) in *.
  destruct (index_of k_Name nm (v_Keys v)) as [i|] eqn:Ei.
  - destruct (index_of_Some _ _ _ _ Ei) as (k & Hk & Hkn & _). rewrite Hk in Hr.
    revert Hr. case_bool_decide; [intros [= <- <- <-]; by intros n Hn|].
    destruct (negb (bool_decide _)); [done|]. case_bool_decide as Hshared; [done|]. intros [= <- <- <-].
    intros n Hn. cbn [set_keys v_Keys] in Hn. rewrite (by_name_insert _ _ _ _ _ Ei) in Hn by done.
    destruct (decide (n = nm)) as [->|Hne]; [|by rewrite lookup_insert_ne in Hn].
    split; [done|]. apply keyReferenceCountExcept_0. lia.
  - injection Hr as <- <- <-. apply index_of_None in Ei. intros n Hn. cbn [set_keys v_Keys] in Hn.
    rewrite by_name_snoc in Hn by done. cbn [k_Name] in Hn.
    destruct (decide (n = nm)) as [->|Hne]; [|by rewrite lookup_insert_ne in Hn].
    split; [done|]. intros a' c _ Hc Hk. apply Ei. rewrite <- Hk.
    assert (is_Some (i_keys (abs v) !! c_KeyName c)) as [x Hx].
    { apply (Hcl a'); [done|]. intros He. rewrite He in Hk. rewrite <- Hk in Hok3. done. }
    apply by_name_lookup_name in Hx as [<- Hin]. by apply list_elem_of_fmap_2.
Qed.

Lemma apply_auth_private change v c v' c' added :
  NoDup (names k_Name (v_Keys v)) → closed (abs v) →
  apply_auth change v c = Ok (v', c', added) →
  key_private v (v_Keys v') (c_KeyName c') (c_Name c) ∧ (hc_KeyFile change = None → v_Keys v' = v_Keys v).
Proof.
  intros Hnd Hcl Hr. unfold apply_auth in Hr.
  destruct (hc_PasswordFile change) as [p|]; [|destruct (hc_SavedKey change) as [s|];
    [|destruct (hc_KeyFile change) as [f|]]]; inv_ok Hr; simplify_eq;
    try (split; [by intros n Hn|done]).
  destruct a as [[v1 n1] ad1]. simplify_eq. split; [by eapply installHostKey_private|done].
Qed.

Lemma apply_auth_ok change v c v' c' added :
  NoDup (names k_Name (v_Keys v)) →
  apply_auth change v c = Ok (v', c', added) → keys_grow v v' ∧ c_Name c' = c_Name c.
Proof.
  intros Hnd Hr. unfold apply_auth in Hr.
  destruct (hc_PasswordFile change) as [p|]; [|destruct (hc_SavedKey change) as [s|];
    [|destruct (hc_KeyFile change) as [f|]]]; inv_ok Hr; simplify_eq;
    try (split; [by apply keys_grow_refl|done]).
  destruct a as [[v1 n1] ad1]. simplify_eq. split; [by eapply installHostKey_ok|done].
Qed.

Lemma apply_fields_name change c c' : apply_fields change c = Ok c' → c_Name c' = c_Name c.
Proof. unfold apply_fields. intros Hr. inv_ok Hr. by simplify_eq. Qed.

Lemma validateManagedConnection_key c v u :
  validateManagedConnection c v = Ok u → c_KeyName c ≠ "" →
  is_Some (by_name k_Name (v_Keys v) !! c_KeyName c).
Proof.
  unfold validateManagedConnection. intros Hr Hk. inv_ok Hr.
  apply check_Ok in Hr. unfold empty_string in Hr.
  rewrite bool_decide_eq_false_2 in Hr by done. cbn [orb] in Hr.
  apply bool_decide_eq_true_1 in Hr. by rewrite <- GetKey_by_name.
Qed.

(** What a candidate built from [before] for an alias satisfies. *)
Record candidate_ok (before after : Vault) (alias : string) : Prop := {
  ca_wf : wf_vault after;
  ca_names : "" ∉ names c_Name (v_Connections after);
  ca_keynames : "" ∉ names k_Name (v_Keys before) → "" ∉ names k_Name (v_Keys after);
  ca_closed : closed (abs after);
  ca_alias : alias ≠ "";
  ca_base : v_PendingBase after = v_PendingBase before;
  ca_pending : v_PendingMutations after = v_PendingMutations before;
  ca_conns : delete alias (i_conns (abs after)) = delete alias (i_conns (abs before));
}.

(** Every saved key is as it was but the one the mutation is about, which no other
    connection uses: the key installed from a file for this connection, or the key of the
    removed connection, when pruning was asked for. *)
Definition other_keys_kept (change : HostChange) (before after : inventory) : Prop :=
  ∀ n, i_keys after !! n ≠ i_keys before !! n →
    (∀ a c, a ≠ hc_Alias change → i_conns before !! a = Some c → c_KeyName c ≠ n)
    ∧ ∃ c, c_KeyName c = n
      ∧ (i_conns after !! hc_Alias change = Some c ∧ is_Some (hc_KeyFile change)
         ∨ i_conns before !! hc_Alias change = Some c ∧ i_conns after !! hc_Alias change = None ∧ hc_PruneKey change = true).

(** The vault with the connection [c] for [alias]. *)
Definition put_connection (v v1 : Vault) (alias : string) (c : Connection) : Vault :=
  match exactConnectionIndex v alias with
  | Some i => set_connections v1 (<[i := c]> (v_Connections v1))
  | None => set_connections v1 (v_Connections v1 ++ [c])
  end.

Lemma put_connection_parts v v1 alias c :
  NoDup (names c_Name (v_Connections v)) → "" ∉ names c_Name (v_Connections v) →
  v_Connections v1 = v_Connections v → c_Name c = alias → alias ≠ "" →
  let v' := put_connection v v1 alias c in
  by_name c_Name (v_Connections v') = <[alias := c]> (by_name c_Name (v_Connections v)) ∧
  NoDup (names c_Name (v_Connections v')) ∧ "" ∉ names c_Name (v_Connections v') ∧
  v_Keys v' = v_Keys v1 ∧ v_PendingBase v' = v_PendingBase v1 ∧ v_PendingMutations v' = v_PendingMutations v1.
Proof.
  intros Hc Hne Hg Hn Ha. cbv zeta. unfold put_connection, exactConnectionIndex.
  destruct (index_of c_Name alias _) as [i|] eqn:Ei;
    cbn [set_connections v_Connections v_Keys v_PendingBase v_PendingMutations]; rewrite Hg.
  - destruct (index_of_Some _ _ _ _ Ei) as (x & Hx & Hxn & _).
    rewrite (by_name_insert _ _ _ _ _ Ei), (names_insert _ _ _ _ _ Hx) by congruence. done.
  - apply index_of_None in Ei. rewrite <- Hn in *. rewrite by_name_snoc by done.
    split_and!; try done; [by apply names_snoc_NoDup|].
    unfold names. rewrite fmap_app, elem_of_app. cbn. rewrite list_elem_of_singleton. naive_solver.
Qed.

(** Replacing or adding the connection of an alias, after the keys have grown. *)
Lemma put_connection_ok v v1 alias c :
  wf_vault v → closed (abs v) → "" ∉ names c_Name (v_Connections v) →
  keys_grow v v1 → c_Name c = alias → alias ≠ "" →
  (c_KeyName c ≠ "" → is_Some (by_name k_Name (v_Keys v1) !! c_KeyName c)) →
  candidate_ok v (put_connection v v1 alias c) alias.
Proof.
  intros [Hc Hk] Hcl Hne Hg Hn Ha Hkey.
  destruct (put_connection_parts v v1 alias c Hc Hne (kg_conns _ _ Hg) Hn Ha) as (Hby & Hnd & Hne' & Hkeys & Hb & Hp).
  split; try done.
  - split; [done|]. rewrite Hkeys. apply Hg.
  - rewrite Hkeys. apply Hg.
  - unfold closed, abs, abs_lists. cbn [i_conns i_keys]. rewrite Hby, Hkeys.
    intros a x. rewrite lookup_insert_Some. intros [[<- <-]|[_ Hx]] Hxk; [by apply Hkey|].
    by apply (kg_keys _ _ Hg), (Hcl a).
  - rewrite Hb. apply Hg.
  - rewrite Hp. apply Hg.
  - unfold abs, abs_lists. cbn [i_conns]. by rewrite Hby, delete_insert_eq.
Qed.

(** What a changed or new connection comes from. *)
Lemma change_candidate_inv v change after r :
  wf_vault v → "" ∉ names c_Name (v_Connections v) → change_candidate v change = Ok (after, r) →
  ∃ c0 v1 c added, apply_auth change v c0 = Ok (v1, c, added) ∧ c_Name c0 = hc_Alias change ∧ hc_Alias change ≠ "" ∧
    c_Name c = hc_Alias change ∧ keys_grow v v1 ∧ (c_KeyName c ≠ "" → is_Some (by_name k_Name (v_Keys v1) !! c_KeyName c)) ∧
    after = put_connection v v1 (hc_Alias change) c ∧ hv_Name (r_Host r) = c_Name c.
Proof.
  intros Hwf Hne Hr. unfold change_candidate in Hr. inv_ok Hr.
  destruct a4 as [[v1 c] added]. inv_ok Hr. simplify_eq.
  assert (hc_Alias change ≠ "" ∧ c_Name a3 = hc_Alias change) as [Ha Hn].
  { rewrite (apply_fields_name _ _ _ Hok3). unfold exactConnectionIndex in *.
    destruct (index_of c_Name _ _) as [i|] eqn:Ei.
    - destruct (index_of_Some _ _ _ _ Ei) as (x & Hx & <- & _). cbn. rewrite Hx. cbn.
      split; [|done]. intros Heq. apply Hne. rewrite <- Heq.
      apply list_elem_of_fmap_2. by eapply list_elem_of_lookup_2.
    - cbn. split; [|done]. intros Heq. rewrite Heq in Hok2. done. }
  destruct (apply_auth_ok _ _ _ _ _ _ (proj2 Hwf) Hok4) as [Hgrow Hcn].
  exists a3, v1, c, added. split_and!; try done; [congruence|].
  intros Hk. by eapply validateManagedConnection_key.
Qed.

Lemma change_candidate_ok v change after r :
  wf_vault v → closed (abs v) → "" ∉ names c_Name (v_Connections v) →
  change_candidate v change = Ok (after, r) →
  candidate_ok v after (hc_Alias change) ∧ hv_Name (r_Host r) = hc_Alias change.
Proof.
  intros Hwf Hcl Hne Hr.
  destruct (change_candidate_inv _ _ _ _ Hwf Hne Hr) as (c0 & v1 & c & added & _ & _ & Ha & Hn & Hgrow & Hkey & -> & ->).
  split; [by apply put_connection_ok|done].
Qed.

Lemma change_candidate_keys v change after r :
  wf_vault v → closed (abs v) → "" ∉ names c_Name (v_Connections v) →
  change_candidate v change = Ok (after, r) → other_keys_kept change (abs v) (abs after).
Proof.
  intros Hwf Hcl Hne Hr n Hn.
  destruct (change_candidate_inv _ _ _ _ Hwf Hne Hr) as (c0 & v1 & c & added & Hauth & Hc0 & Ha & Hcn & Hgrow & _ & -> & _).
  destruct (put_connection_parts v v1 _ c (proj1 Hwf) Hne (kg_conns _ _ Hgrow) Hcn Ha) as (Hby & _ & _ & Hkeys & _).
  destruct (apply_auth_private _ _ _ _ _ _ (proj2 Hwf) Hcl Hauth) as [Hprivate Hfile].
  unfold abs at 1, abs_lists in Hn. cbn [i_keys] in Hn. rewrite Hkeys in Hn.
  destruct (Hprivate n Hn) as [-> Hothers]. rewrite Hc0 in Hothers. split; [exact Hothers|].
  exists c. split; [done|]. left. split.
  - unfold abs, abs_lists. cbn [i_conns]. by rewrite Hby, lookup_insert_eq.
  - destruct (hc_KeyFile change); [eauto|]. by rewrite Hfile in Hn.
Qed.

Lemma keyReferenceCount_0 v k :
  "" ∉ names c_Name (v_Connections v) → keyReferenceCount v k = 0 →
  ∀ a c, by_name c_Name (v_Connections v) !! a = Some c → c_KeyName c ≠ k.
Proof.
  intros Hne Hcount a c [Hn Hin]%by_name_lookup_name Hk.
  unfold keyReferenceCount, keyReferenceCountExcept in Hcount.
  apply nil_length_inv in Hcount.
  assert (c ∈ filter (λ c, c_Name c ≠ "" ∧ c_KeyName c = k) (v_Connections v)) as Hf.
  { apply list_elem_of_filter. split; [split; [|done]|done]. intros He. apply Hne. rewrite <- He.
    by apply list_elem_of_fmap_2. }
  rewrite Hcount in Hf. by apply elem_of_nil in Hf.
Qed.

Lemma removeKeyByName_spec v k :
  fst (removeKeyByName v k) = set_keys v (remove_first k_Name k (v_Keys v)).
Proof.
  unfold removeKeyByName. destruct (index_of k_Name k (v_Keys v)) as [i|] eqn:Ei; simpl.
  - by rewrite take_drop_delete, (delete_index_of _ _ _ _ Ei).
  - apply index_of_None in Ei. rewrite remove_first_not_in by done. by destruct v.
Qed.

Lemma remove_candidate_ok v change after r :
  wf_vault v → closed (abs v) → "" ∉ names c_Name (v_Connections v) →
  remove_candidate v change = Ok (after, r) →
  candidate_ok v after (hc_Alias change) ∧ hv_Name (r_Host r) = hc_Alias change.
Proof.
  intros [Hc Hk] Hcl Hne Hr. unfold remove_candidate, exactConnectionIndex in Hr.
  destruct (index_of c_Name _ _) as [i|] eqn:Ei; [|done].
  destruct (index_of_Some _ _ _ _ Ei) as (x & Hx & Hxn & _). rewrite Hx in Hr. cbv zeta in Hr.
  rewrite take_drop_delete, (delete_index_of _ _ _ _ Ei) in Hr.
  set (u := set_connections v (remove_first c_Name (hc_Alias change) (v_Connections v))) in *.
  assert (hc_Alias change ≠ "") as Ha.
  { intros He. apply Hne. rewrite <- He, <- Hxn. apply list_elem_of_fmap_2.
    by eapply list_elem_of_lookup_2. }
  assert (by_name c_Name (v_Connections u) = delete (hc_Alias change) (by_name c_Name (v_Connections v))) as Hby
    by (by apply by_name_remove_first).
  assert (NoDup (names c_Name (v_Connections u)) ∧ "" ∉ names c_Name (v_Connections u)) as [Hnd Hne'].
  { split; [by apply names_remove_first_NoDup|]. intros Hin. apply Hne. unfold names in *.
    apply list_elem_of_fmap in Hin as (y & Hy & Hin). rewrite Hy. apply list_elem_of_fmap_2.
    by eapply elem_of_remove_first in Hin as []. }
  assert (closed (abs u)) as Hcu.
  { intros a y. unfold abs, abs_lists. cbn [i_conns i_keys]. rewrite Hby.
    intros [_ Hy]%lookup_delete_Some. by apply (Hcl a). }
  assert (candidate_ok v u (hc_Alias change)) as Hu.
  { split; try done. unfold abs, abs_lists. cbn [i_conns]. by rewrite Hby, delete_delete_eq. }
  destruct (hc_PruneKey change && _ && _) eqn:Ep; [|by simplify_eq].
  pose proof (removeKeyByName_spec u (c_KeyName x)) as Hrk.
  destruct (removeKeyByName u (c_KeyName x)) as [after' pruned]. simpl in Hrk. simplify_eq.
  bool_to_prop. split; [|done]. destruct Hu as [[? ?] ? Hkn ? ? ? ? ?].
  split; try done; [split; [done|by apply names_remove_first_NoDup]| |].
  { intros Hn Hin. apply Hn. unfold names in *. apply list_elem_of_fmap in Hin as (y & Hy & Hin).
    rewrite Hy. apply list_elem_of_fmap_2. by eapply elem_of_remove_first in Hin as []. }
  intros a y Hy Hyk. cbn [abs abs_lists i_conns i_keys set_keys v_Connections v_Keys] in *.
  rewrite by_name_remove_first by done. rewrite lookup_delete_ne; [by apply (Hcu a)|].
  intros Heq. by eapply (keyReferenceCount_0 u (c_KeyName x)).
Qed.

Lemma remove_candidate_keys v change after r :
  wf_vault v → closed (abs v) → "" ∉ names c_Name (v_Connections v) →
  remove_candidate v change = Ok (after, r) → other_keys_kept change (abs v) (abs after).
Proof.
  intros [Hc Hk] Hcl Hne Hr n Hn. unfold remove_candidate, exactConnectionIndex in Hr.
  destruct (index_of c_Name _ _) as [i|] eqn:Ei; [|done].
  destruct (index_of_Some _ _ _ _ Ei) as (x & Hx & Hxn & _). rewrite Hx in Hr. cbv zeta in Hr.
  rewrite take_drop_delete, (delete_index_of _ _ _ _ Ei) in Hr.
  set (u := set_connections v (remove_first c_Name (hc_Alias change) (v_Connections v))) in *.
  assert (i_conns (abs u) = delete (hc_Alias change) (i_conns (abs v))) as Hby by (by apply by_name_remove_first).
  destruct (hc_PruneKey change && _ && _) eqn:Ep; [|by simplify_eq].
  pose proof (removeKeyByName_spec u (c_KeyName x)) as Hrk.
  destruct (removeKeyByName u (c_KeyName x)) as [after' pruned]. simpl in Hrk. simplify_eq. bool_to_prop.
  cbn [abs abs_lists i_keys set_keys v_Keys] in Hn. rewrite by_name_remove_first in Hn by done.
  destruct (decide (n = c_KeyName x)) as [->|Hnx]; [|by rewrite lookup_delete_ne in Hn]. split.
  - intros a c Ha Hac. apply (keyReferenceCount_0 u (c_KeyName x)) with (a := a); [|done|].
    + intros Hin. apply Hne. unfold names in *. apply list_elem_of_fmap in Hin as (y & Hy & Hin). rewrite Hy.
      apply list_elem_of_fmap_2. by eapply elem_of_remove_first in Hin as [].
    + change (i_conns (abs u) !! a = Some c). by rewrite Hby, lookup_delete_ne.
  - exists x. split; [done|]. right. split_and!; [| |done].
    + rewrite <- Hxn. apply by_name_elem; [done|]. by eapply list_elem_of_lookup_2.
    + change (i_conns (abs u) !! hc_Alias change = None). rewrite Hby. apply lookup_delete_eq.
Qed.

Lemma buildHostCandidate_ok v change after r :
  wf_vault v → closed (abs v) → "" ∉ names c_Name (v_Connections v) →
  buildHostCandidate v change = Ok (after, r) →
  candidate_ok v after (hc_Alias change) ∧ hv_Name (r_Host r) = hc_Alias change.
Proof.
  intros Hwf Hcl Hne. unfold buildHostCandidate, cloneVault.
  assert (mkVault (v_Connections v) (v_Keys v) (v_PendingBase v) (v_PendingMutations v) = v)
    as -> by (by destruct v).
  case_bool_decide; [by apply remove_candidate_ok|by apply change_candidate_ok].
Qed.

Lemma buildHostCandidate_keys v change after r :
  wf_vault v → closed (abs v) → "" ∉ names c_Name (v_Connections v) →
  buildHostCandidate v change = Ok (after, r) → other_keys_kept change (abs v) (abs after).
Proof.
  intros Hwf Hcl Hne. unfold buildHostCandidate, cloneVault.
  assert (mkVault (v_Connections v) (v_Keys v) (v_PendingBase v) (v_PendingMutations v) = v)
    as -> by (by destruct v).
  case_bool_decide; [by eapply remove_candidate_keys|by eapply change_candidate_keys].
Qed.

(** ** Appending to the ledger *)

Definition fresh_id (v : Vault) : Prop :=
  ∀ raw, env_random = Ok raw → "tx_" +:+ hex_encode raw ∉ m_ID <$> v_PendingMutations v.

Lemma newID_fresh v id : fresh_id v → newID = Ok id → id ≠ "" ∧ id ∉ m_ID <$> v_PendingMutations v.
Proof.
  intros Hf. unfold newID. intros Hr. inv_ok Hr. simplify_eq.
  destruct env_random as [raw|] eqn:Er; simpl in Hok; simplify_eq. split; [|by apply Hf].
  intros Heq. discriminate Heq.
Qed.

Lemma pending_base_spec before after e base :
  validateLedger before = Ok () →
  v_PendingBase after = v_PendingBase before → v_PendingMutations after = v_PendingMutations before →
  pending_base before after e = Ok base →
  match v_PendingBase before with
  | Some b => base = b
  | None => base = snapshotInventory before ∧ v_PendingMutations before = []
  end.
Proof.
  intros Hv Hb Hp. unfold pending_base. rewrite Hb, Hp.
  destruct (v_PendingBase before) eqn:Eb; [by intros [= ->]|].
  intros Hr. inv_ok Hr. apply bool_decide_eq_true_1 in Hok. by simplify_eq.
Qed.

(** A truthful record of a well-formed candidate extends the ledger. *)
Lemma append_ok before after base e m :
  ledger_ok before → wf_vault after → "" ∉ names c_Name (v_Connections after) →
  "" ∉ names k_Name (v_Keys after) →
  v_PendingBase after = v_PendingBase before → v_PendingMutations after = v_PendingMutations before →
  pending_base before after e = Ok base →
  m_ID m ≠ "" → m_ID m ∉ m_ID <$> v_PendingMutations before →
  recorded (abs before) m (abs after) →
  ledger_ok (append_mutation after base m).
Proof.
  intros Hok Hwf Hne Hkn Hb Hp Hbase Hid Hfresh Hrec.
  pose proof (proj1 (validateLedger_spec before) (lo_valid _ Hok)) as (_ & Hids & Hnd).
  apply pending_base_spec in Hbase; [|apply Hok|done..].
  split; try done.
  - apply validateLedger_spec. cbn [append_mutation v_PendingBase v_PendingMutations].
    rewrite Hp. split_and!.
    + split; [done|]. by intros [_ ?]%app_eq_nil.
    + apply Forall_app. by repeat constructor.
    + rewrite fmap_app. apply NoDup_app. split_and!; [done| |apply NoDup_singleton].
      intros x Hx ->%list_elem_of_singleton. done.
  - apply (rec_closed _ _ _ Hrec).
  - intros base' [= <-]. cbn [append_mutation v_PendingMutations]. rewrite Hp.
    change (abs (append_mutation after base m)) with (abs after).
    destruct (v_PendingBase before) as [b|] eqn:Eb.
    + subst base. destruct (lo_history _ Hok b Eb) as (? & ? & ?). split_and!; [done..|].
      apply history_snoc. eauto.
    + destruct Hbase as [-> ->]. split_and!; [apply Hok|apply Hok|].
      apply (history_snoc _ []). exists (abs before). split; [constructor|done].
Qed.

Lemma conn_at v alias :
  (i ← exactConnectionIndex v alias; v_Connections v !! i) = i_conns (abs v) !! alias.
Proof.
  unfold exactConnectionIndex. simpl. rewrite by_name_first_of.
  destruct (index_of c_Name alias (v_Connections v)) as [i|] eqn:Ei.
  - destruct (index_of_Some _ _ _ _ Ei) as (x & Hx & _ & ->). done.
  - simpl. apply index_of_None in Ei. symmetry.
    rewrite <- by_name_first_of. by apply by_name_None.
Qed.

Lemma host_mutation_recorded before after alias id action :
  wf_vault before → candidate_ok before after alias →
  recorded (abs before) (host_mutation before after alias id action) (abs after).
Proof.
  intros Hwf [Hwa Hne Hkn Hcl Ha Hb Hp Hdel]. unfold host_mutation.
  destruct (keyDelta (v_Keys before) (v_Keys after)) as [kb ka] eqn:Ed.
  apply recorded_intro; cbn [m_BulkAfter m_KeysBefore m_KeysAfter m_KeyName m_Alias m_Before m_After]; try done.
  rewrite decide_True by done. by rewrite !conn_at.
Qed.

(** A vault is stored under the vault write lock and only while the vault file is still the
    one this process loaded. *)
Definition may_store (after : Vault) : Prop :=
  env_lock = Ok () ∧ (∀ loaded, env_loaded = Some loaded → env_current = Ok loaded).

Lemma saveLoadedVault_spec after stored r :
  saveLoadedVault after = (stored, r) →
  match stored with
  | None => ∃ e, r = Fail e
  | Some v => v = after ∧ may_store after
      ∧ (r = Ok () ∧ env_save after = VaultSaved ∨ ∃ e, r = Fail e ∧ env_save after = VaultSaveFailed true e)
  end.
Proof.
  unfold saveLoadedVault. match goal with |- match ?c with _ => _ end = _ → _ => set (checked := c) end. assert (Hchecked : checked = Ok () → may_store after).
  { subst checked. unfold lockVaultWrite. intros Hr. inv_ok Hr. split; [by destruct env_lock as [[]|]|].
    intros l Hl. rewrite Hl in Hr. inv_ok Hr. apply check_Ok, bool_decide_eq_true_1 in Hr. congruence. }
  cbv zeta. destruct checked as [[]|e]; [|intros [= <- <-]; eauto].
  destruct (env_save after) as [|[] e]; intros [= <- <-]; eauto 10.
Qed.

(** C26: From a truthful ledger and with a random ID that is not in it yet, whatever the
    change and the rest of the environment, the vault that a host mutation stores
    keeps the ledger truthful: it satisfies the invariant and is stored under the lock and
    over the vault that was loaded; its inventory differs from the old one in the
    connection of the mutated alias, and in at most one saved key, which is that
    connection's and which no other connection uses; the change is the last pending
    mutation and is published by nothing; and a verification that was asked for passed on
    the stored inventory. A mutation that changes nothing stores nothing. One that
    reports success is stored; one that fails stores nothing, unless the save failed
    after the rename that installs the new file, and then the error is the save's. *)
Theorem apply_host_keeps_ledger before change :
  ledger_ok before → fresh_id before →
  let h := ApplyHost before change in
  (∀ v, h_saved h = Some v →
     ledger_ok v ∧ may_store v ∧
     delete (hc_Alias change) (i_conns (abs v)) = delete (hc_Alias change) (i_conns (abs before)) ∧
     other_keys_kept change (abs before) (abs v) ∧
     (∃ m, v_PendingMutations v = v_PendingMutations before ++ [m] ∧ m_Alias m = hc_Alias change ∧
        ∀ r, h_result h = inr r → m_ID m = r_TransactionID r) ∧
     (hc_Verify change = true → ∃ c w, abs w = abs v ∧ i_conns (abs v) !! hc_Alias change = Some c ∧ ck_OK (env_verifier c w) = true))
  ∧ match h_result h with
    | inr r => if r_Changed r then ∃ v, h_saved h = Some v ∧ env_save v = VaultSaved
               else h_saved h = None ∧ r_TransactionID r = ""
    | inl e => h_saved h = None
        ∨ ∃ v cause, h_saved h = Some v ∧ env_save v = VaultSaveFailed true cause
            ∧ e = MutationFailed (hostError HostVaultFailed (error_text cause))
    end.
Proof.
  intros Hok Hfresh. cbv zeta. unfold ApplyHost. rewrite (lo_valid _ Hok).
  destruct (buildHostCandidate before change) as [[after receipt]|e] eqn:Eb; [|by split; [|left]].
  destruct (buildHostCandidate_ok before change after receipt) as [Hca Hname];
    [apply Hok..|done|].
  pose proof (buildHostCandidate_keys before change after receipt (lo_wf _ Hok) (lo_closed _ Hok) (lo_names _ Hok) Eb) as Hkeys.
  set (checked := if hc_Verify change then _ else _).
  assert (∀ v, checked = inr v → hc_Verify change = true →
    ∃ c, i_conns (abs after) !! hc_Alias change = Some c ∧ ck_OK (env_verifier c after) = true) as Hver.
  { subst checked. intros v Hv Hc. rewrite Hc in Hv. rewrite <- conn_at.
    destruct (_ ≫= _) as [c|] eqn:Ec in Hv; [|done]. cbv zeta in Hv. destruct (ck_OK _) eqn:Eck in Hv; [|done].
    exists c. split; [exact Ec|exact Eck]. }
  destruct checked as [e|verification]; [by split; [|left]|].
  destruct (r_Changed receipt) eqn:Ec; cbn [negb]; [|by cbn; rewrite Ec].
  destruct newID as [id|e] eqn:Eid; [|by split; [|left]].
  destruct (pending_base before after _) as [base|e] eqn:Ebase; [|by split; [|left]].
  destruct (newID_fresh before id Hfresh Eid) as [Hid Hnot].
  set (m := host_mutation before after _ id _). set (v := append_mutation after base m).
  assert (m_ID m = id ∧ m_Alias m = hc_Alias change) as [Hmid Hmalias].
  { subst m. unfold host_mutation. by destruct (keyDelta _ _). }
  assert (ledger_ok v) as Hledger.
  { eapply append_ok; [exact Hok|apply Hca|apply Hca|apply Hca, Hok|apply Hca..|exact Ebase|by rewrite Hmid|by rewrite Hmid|].
    apply host_mutation_recorded; [apply Hok|]. by rewrite Hname. }
  destruct (saveLoadedVault v) as [stored r] eqn:Esave. apply saveLoadedVault_spec in Esave.
  assert (Hstored : ∀ result, (∀ r, result = inr r → r_TransactionID r = id) → may_store v → ∀ v', Some v = Some v' →
    ledger_ok v' ∧ may_store v' ∧
    delete (hc_Alias change) (i_conns (abs v')) = delete (hc_Alias change) (i_conns (abs before)) ∧
    other_keys_kept change (abs before) (abs v') ∧
    (∃ m, v_PendingMutations v' = v_PendingMutations before ++ [m] ∧ m_Alias m = hc_Alias change ∧
       ∀ r, result = inr (A := mutation_error) r → m_ID m = r_TransactionID r) ∧
    (hc_Verify change = true → ∃ c w, abs w = abs v' ∧ i_conns (abs v') !! hc_Alias change = Some c ∧ ck_OK (env_verifier c w) = true)).
  { intros result Hresult Hmay v' [= <-]. split_and!; [done|done|by apply Hca|exact Hkeys| |].
    - exists m. split_and!; [|done|intros r' Hr; by rewrite Hmid, (Hresult r' Hr)]. subst v. cbn. by rewrite (ca_pending _ _ _ Hca).
    - intros Hc. destruct (Hver verification eq_refl Hc) as (c & ? & ?). by exists c, after. }
  destruct stored as [v'|].
  - destruct Esave as (-> & Hmay & [[-> Hsave]|(cause & -> & Hsave)]); cbn [h_result h_saved].
    + split; [by apply Hstored; [intros r' [= <-]|]|]. cbn [receipt_with r_Changed]. rewrite Ec. by exists v.
    + split; [by apply Hstored|]. right. by exists v, cause.
  - destruct Esave as [e ->]. by split; [|left].
Qed.

(** Removing a saved key never breaks a connection: a key some connection
    uses is refused and nothing is saved; otherwise the saved vault has every key
    but that one, the same connections, and a truthful ledger. An error with a saved
    vault is one of the save, after its rename. *)
Theorem remove_saved_key_keeps_ledger before name :
  ledger_ok before → fresh_id before →
  match h_saved (RemoveSavedKey before name) with
  | None => ∃ e, h_result (RemoveSavedKey before name) = inl e
  | Some v =>
      ledger_ok v ∧ (∀ c, c ∈ v_Connections before → c_KeyName c ≠ name) ∧
      i_conns (abs v) = i_conns (abs before) ∧
      i_keys (abs v) = delete name (i_keys (abs before)) ∧
      match h_result (RemoveSavedKey before name) with
      | inr r => kr_KeyName r = name ∧ env_save v = VaultSaved
      | inl _ => ∃ cause, env_save v = VaultSaveFailed true cause
      end
  end.
Proof.
  intros Hok Hfresh. unfold RemoveSavedKey. rewrite (lo_valid _ Hok).
  destruct (GetKey before name) as [k|] eqn:Ek; [|by eexists].
  case_bool_decide as Href; [by eexists|].
  assert (∀ c, c ∈ v_Connections before → c_KeyName c ≠ name) as Hunref.
  { intros c Hc Heq.
    assert (c_Name c ∈ sort_strings (c_Name <$> filter (λ c, c_KeyName c = name) (v_Connections before))) as Hin.
    { apply elem_of_sort_strings, list_elem_of_fmap_2. by apply list_elem_of_filter. }
    rewrite Href in Hin. by apply elem_of_nil in Hin. }
  pose proof (removeKeyByName_spec (cloneVault before) name) as Hrm.
  destruct (removeKeyByName (cloneVault before) name) as [after removed]. cbn [fst] in Hrm.
  destruct removed; cbn [negb]; [|by eexists].
  destruct newID as [id|e] eqn:Eid; [|by eexists].
  destruct (pending_base before after _) as [base|e] eqn:Ebase; [|by eexists].
  destruct (newID_fresh before id Hfresh Eid) as [Hid Hnot].
  destruct (lo_wf _ Hok) as [Hwc Hwk].
  assert (abs after = mkInv (i_conns (abs before)) (delete name (i_keys (abs before)))) as Habs.
  { subst after. unfold abs, abs_lists. cbn [set_keys cloneVault v_Connections v_Keys i_conns i_keys]. by rewrite by_name_remove_first. }
  assert (closed (abs after)) as Hcl.
  { rewrite Habs. intros a c Hc Hk. cbn in *. rewrite lookup_delete_ne; [by apply (lo_closed _ Hok a)|].
    apply by_name_lookup_name in Hc as [_ Hc]. intros Heq. by apply (Hunref c Hc). }
  assert (name ≠ "") as Hne.
  { intros ->. apply (lo_keynames _ Hok). rewrite GetKey_by_name in Ek.
    apply by_name_lookup_name in Ek as [<- Hin]. by apply list_elem_of_fmap_2. }
  assert (recorded (abs before) (key_mutation before after name id) (abs after)) as Hrec.
  { unfold key_mutation. destruct (keyDelta (v_Keys before) (v_Keys after)) as [kb ka] eqn:Ed.
    apply recorded_intro; cbn [m_BulkAfter m_KeysBefore m_KeysAfter m_KeyName m_Alias m_Before m_After]; try done.
    - subst after. split; [done|]. cbn [set_keys cloneVault v_Connections v_Keys i_conns i_keys]. by apply names_remove_first_NoDup.
    - rewrite decide_False by done. by rewrite Habs. }
  assert (m_ID (key_mutation before after name id) = id) as Hmid.
  { unfold key_mutation. by destruct (keyDelta _ _). }
  assert (ledger_ok (append_mutation after base (key_mutation before after name id))) as Hledger.
  { eapply append_ok; [exact Hok| | | | | |exact Ebase| | |exact Hrec]; try (by rewrite Hmid);
      subst after; try done.
    + split; [done|]. cbn [set_keys cloneVault v_Connections v_Keys i_conns i_keys]. by apply names_remove_first_NoDup.
    + apply Hok.
    + cbn [set_keys cloneVault v_Connections v_Keys i_conns i_keys]. intros Hin. apply (lo_keynames _ Hok). unfold names in *.
      apply list_elem_of_fmap in Hin as (y & Hy & Hin). rewrite Hy. apply list_elem_of_fmap_2.
      by eapply elem_of_remove_first in Hin as []. }
  assert (i_conns (abs after) = i_conns (abs before) ∧ i_keys (abs after) = delete name (i_keys (abs before))) as [Hac Hak]
    by (by rewrite Habs).
  destruct (saveLoadedVault _) as [stored r] eqn:Esave. apply saveLoadedVault_spec in Esave.
  destruct stored as [v|]; [|destruct Esave as [e ->]; by eexists].
  destruct Esave as (-> & _ & [[-> Hsave]|(cause & -> & Hsave)]); cbn [h_saved h_result]; split_and!; eauto.
Qed.

(** ** Imports *)

Lemma nonempty_name s : empty_string (TrimSpace s) = false → s ≠ "".
Proof. intros Hs ->. by vm_compute in Hs. Qed.

Lemma import_keys_ok ks seen keys :
  import_keys seen ks = Ok keys →
  NoDup (names k_Name ks) ∧ "" ∉ names k_Name ks ∧ keys = list_to_set (names k_Name ks) ∪ seen ∧
  (∀ n, n ∈ names k_Name ks → n ∉ seen).
Proof.
  revert seen. induction ks as [|k ks IH]; intros seen; simpl.
  { intros [= <-]. split_and!; [constructor|by apply not_elem_of_nil|set_solver|set_solver]. }
  destruct (empty_string _) eqn:En; [done|]. apply nonempty_name in En.
  case_bool_decide; [done|]. intros (Hnd & Hne & -> & Hdis)%IH.
  change (names k_Name (k :: ks)) with (k_Name k :: names k_Name ks). split_and!.
  - constructor; [|done]. intros Hin. apply Hdis in Hin. set_solver.
  - by intros [?|?]%elem_of_cons.
  - set_solver.
  - intros n [->|Hn]%elem_of_cons; [done|]. apply Hdis in Hn. set_solver.
Qed.

Lemma import_connections_ok keys cs seen u :
  import_connections keys seen cs = Ok u →
  NoDup (names c_Name cs) ∧ "" ∉ names c_Name cs ∧
  (∀ n, n ∈ names c_Name cs → n ∉ seen) ∧
  (∀ c, c ∈ cs → c_KeyName c ≠ "" → c_KeyName c ∈ keys).
Proof.
  revert seen. induction cs as [|c cs IH]; intros seen; cbn [import_connections].
  { intros _. split_and!; [constructor|by apply not_elem_of_nil|set_solver|set_solver]. }
  intros Hr. inv_ok Hr. apply IH in Hr as (Hnd & Hne & Hdis & Hkeys). bool_to_prop.
  apply nonempty_name in Hok.
  change (names c_Name (c :: cs)) with (c_Name c :: names c_Name cs). split_and!.
  - constructor; [|done]. intros Hin. apply Hdis in Hin. set_solver.
  - by intros [?|?]%elem_of_cons.
  - intros n [->|Hn]%elem_of_cons; [done|]. apply Hdis in Hn. set_solver.
  - intros x [->|Hx]%elem_of_cons Hk; [|by apply Hkeys].
    apply orb_true_iff in Hok4 as [He|He]; [by apply bool_decide_eq_true_1 in He|].
    by apply bool_decide_eq_true_1 in He.
Qed.

(** What a validated import satisfies. *)
Lemma validateImportInventory_ok imported :
  validateImportInventory imported = Ok () →
  wf_vault imported ∧ "" ∉ names c_Name (v_Connections imported) ∧
  "" ∉ names k_Name (v_Keys imported) ∧ closed (abs imported).
Proof.
  unfold validateImportInventory. intros Hr. inv_ok Hr.
  apply import_keys_ok in Hok as (Hk & Hkn & -> & _).
  apply import_connections_ok in Hr as (Hc & Hcn & _ & Hkeys).
  split_and!; [by split|done|done|].
  intros a c [_ Hin]%by_name_lookup_name Hne. apply Hkeys in Hin; [|done].
  apply not_eq_None_Some. cbn. rewrite by_name_None. set_solver.
Qed.

(** The maps of the candidate of an import. *)
Lemma import_candidate_ok before imported replace after report :
  ledger_ok before → validateImportInventory imported = Ok () →
  import_candidate before imported replace = (after, report) →
  wf_vault after ∧ "" ∉ names c_Name (v_Connections after) ∧ "" ∉ names k_Name (v_Keys after) ∧
  closed (abs after) ∧ v_PendingBase after = v_PendingBase before ∧
  v_PendingMutations after = v_PendingMutations before ∧
  abs after = (if replace then abs imported
    else mkInv (i_conns (abs imported) ∪ i_conns (abs before))
               (i_keys (abs imported) ∪ i_keys (abs before))).
Proof.
  intros Hok (Hwf & Hcn & Hkn & Hcl)%validateImportInventory_ok.
  unfold import_candidate. destruct replace; [intros; by simplify_eq|].
  unfold MergeVaultsWithReport. cbn [inventoryOnly v_Connections v_Keys].
  destruct (lo_wf _ Hok) as [Hbc Hbk], Hwf as [Hic Hik].
  pose proof (merge_by_spec c_Name "alias" _ _ Hbc Hic) as (Hc & Hcn' & _).
  pose proof (merge_by_spec k_Name "key_name" _ _ Hbk Hik) as (Hk & Hkn' & _).
  destruct (merge_by c_Name _ _ _) as [cs cc], (merge_by k_Name _ _ _) as [ks kc].
  cbn [fst] in *. intros [= <- <-]. unfold abs, abs_lists in *.
  cbn [v_Connections v_Keys v_PendingBase v_PendingMutations i_conns i_keys] in *.
  assert (∀ A (name : A → string) (l l' : list A), NoDup (names name l) → NoDup (names name l') →
    NoDup (names name l ++ filter (λ n, by_name name l !! n = None) (names name l'))) as Hnd.
  { intros A name l l' H1 H2. apply NoDup_app. split_and!; [done| |by apply NoDup_filter].
    intros n Hn [Hno _]%list_elem_of_filter. by apply by_name_None in Hno. }
  pose proof (lo_names _ Hok). pose proof (lo_keynames _ Hok).
  split_and!; try done.
  - split; cbn [v_Connections v_Keys]; [rewrite Hcn'|rewrite Hkn']; by apply Hnd.
  - rewrite Hcn', elem_of_app. intros [?|[_ ?]%list_elem_of_filter]; done.
  - rewrite Hkn', elem_of_app. intros [?|[_ ?]%list_elem_of_filter]; done.
  - rewrite Hc, Hk. intros a c. cbn [i_conns i_keys]. intros [Ha|[_ Ha]]%lookup_union_Some_raw Hne;
      apply lookup_union_is_Some; [left; by apply (Hcl a)|right; by apply (lo_closed _ Hok a)].
  - by rewrite Hc, Hk.
Qed.

Lemma import_mutation_recorded before after id action :
  wf_vault before → wf_vault after → closed (abs after) →
  recorded (abs before) (import_mutation before after id action) (abs after).
Proof.
  intros [_ Hk] Hwf Hcl. unfold import_mutation.
  pose proof (keyDelta_spec (v_Keys before) (v_Keys after) Hk (proj2 Hwf)) as Hspec.
  destruct (keyDelta _ _) as [kb ka]. destruct Hspec as (Hkb & Hka & Hb & Ha).
  split; cbn [m_BulkAfter m_KeysBefore m_KeysAfter m_KeyName]; try done.
  - split; try done. cbn. by intros b [= <-].
  - intros n. rewrite Hb, Ha.
    by destruct (decide (by_name k_Name (v_Keys before) !! n = by_name k_Name (v_Keys after) !! n)).
  - intros n Hn. rewrite keyChange_nil, Hb, Ha in Hn. rewrite Hb.
    by destruct (decide (by_name k_Name (v_Keys before) !! n = by_name k_Name (v_Keys after) !! n)).
Qed.

(** An import is one atomic ledger entry: when it saves a vault, the saved
    inventory is the imported one, alone or merged over the previous one with the
    imported items winning, and the ledger is truthful. An import that does not
    validate saves nothing, and a merge saves its conflict report first. An error with a
    saved vault is one of the save, after its rename. *)
Theorem apply_import_keeps_ledger before imported replace :
  ledger_ok before → fresh_id before →
  match h_saved (ApplyImport before imported replace) with
  | None => ∃ e, h_result (ApplyImport before imported replace) = inl e
  | Some v =>
      validateImportInventory imported = Ok () ∧ ledger_ok v ∧
      abs v = (if replace then abs imported
        else mkInv (i_conns (abs imported) ∪ i_conns (abs before))
                   (i_keys (abs imported) ∪ i_keys (abs before))) ∧
      match h_result (ApplyImport before imported replace) with
      | inr r => env_save v = VaultSaved ∧
          (replace = false → ∃ report, env_save_report report = Ok () ∧ ir_Conflicts r = mr_Conflicts report)
      | inl _ => ∃ cause, env_save v = VaultSaveFailed true cause
      end
  end.
Proof.
  intros Hok Hfresh. unfold ApplyImport. rewrite (lo_valid _ Hok).
  destruct (validateImportInventory imported) as [[]|e] eqn:Ev; [|by eexists].
  destruct (import_candidate before imported replace) as [after report] eqn:Ec.
  destruct (import_candidate_ok _ _ _ _ _ Hok Ev Ec) as (Hwf & Hcn & Hkn & Hcl & Hb & Hp & Habs).
  destruct newID as [id|e] eqn:Eid; [|by eexists].
  destruct (newID_fresh before id Hfresh Eid) as [Hid Hnot].
  destruct (pending_base before after _) as [base|e] eqn:Ebase; [|by eexists].
  set (action := if replace then "replaced" else "merged").
  destruct (if replace then Ok () else env_save_report report) as [[]|e] eqn:Erep; [|by eexists].
  assert (m_ID (import_mutation before after id action) = id) as Hmid.
  { unfold import_mutation. by destruct (keyDelta _ _). }
  assert (ledger_ok (append_mutation after base (import_mutation before after id action))) as Hledger.
  { eapply append_ok; [done..|exact Ebase|by rewrite Hmid|by rewrite Hmid|].
    by apply import_mutation_recorded; [apply Hok|..]. }
  destruct (saveLoadedVault _) as [stored r] eqn:Esave. apply saveLoadedVault_spec in Esave.
  destruct stored as [v|]; [|destruct Esave as [e ->]; by eexists].
  destruct Esave as (-> & _ & [[-> Hsave]|(cause & -> & Hsave)]); cbn [h_saved h_result];
    (do 2 (split; [done|]); split; [by rewrite <- Habs|]); [|by exists cause].
  split; [done|]. intros ->. by exists report.
Qed.
End Facts.
