(* ===== verification/PublishingIntent.v ===== *)
(** * The durable publishing intent ([internal/inventorytransaction/transaction.go])

    The record a publication keeps on disk from before its request until its local
    finalization, its validation, and the secret-free views of pending mutations. *)

From S2P Require Import Prelude GoStrings GoErrors NamedList Config SyncProtocol Ledger.

Record publishingIntentTransaction := mkIntentTransaction { it_Operation : string; it_CreatedAt : string }.

Record publishingIntent := mkIntent {
  pi_Version : Z;
  pi_State : string;
  pi_Scope : string;
  pi_TransactionIDs : list string;
  pi_Transactions : list publishingIntentTransaction;
  pi_PrerequisiteExists : bool;
  pi_PrerequisiteIdentity : string;
  pi_TargetIdentity : string;
  pi_ObservedExists : bool;
  pi_ObservedIdentity : string;
}.

#[export] Instance intent_transaction_eq_dec : EqDecision publishingIntentTransaction.
Proof. solve_decision. Defined.
#[export] Instance intent_eq_dec : EqDecision publishingIntent.
Proof. solve_decision. Defined.

Definition publishingIntentVersion : Z := 2.
Definition maxPublishingIntentDocumentBytes : Z := 524288.
Definition maxPublishingIntentTransactions : nat := 1024.
Definition intentPrepared := "prepared".
Definition intentReady := "ready".
Definition intentAmbiguous := "ambiguous".
Definition intentDivergent := "divergent".
Definition intentFinalizationFailed := "finalization_failed".
Definition intent_states : list string :=
  [intentPrepared; intentReady; intentAmbiguous; intentDivergent; intentFinalizationFailed].

Definition errInvalidPublishingIntentDocument : goerror :=
  Sentinel "inventorytransaction.errInvalidPublishingIntentDocument" [].

Definition set_state (state : string) (i : publishingIntent) : publishingIntent :=
  mkIntent (pi_Version i) state (pi_Scope i) (pi_TransactionIDs i) (pi_Transactions i)
    (pi_PrerequisiteExists i) (pi_PrerequisiteIdentity i) (pi_TargetIdentity i)
    (pi_ObservedExists i) (pi_ObservedIdentity i).
Definition set_prerequisite (exists_ : bool) (identity : string) (i : publishingIntent) : publishingIntent :=
  mkIntent (pi_Version i) (pi_State i) (pi_Scope i) (pi_TransactionIDs i) (pi_Transactions i)
    exists_ identity (pi_TargetIdentity i) (pi_ObservedExists i) (pi_ObservedIdentity i).
Definition set_observed (exists_ : bool) (identity : string) (i : publishingIntent) : publishingIntent :=
  mkIntent (pi_Version i) (pi_State i) (pi_Scope i) (pi_TransactionIDs i) (pi_Transactions i)
    (pi_PrerequisiteExists i) (pi_PrerequisiteIdentity i) (pi_TargetIdentity i) exists_ identity.

(** ** Validation *)

Definition validPublishingIntentOperation (operation : string) : bool :=
  bool_decide (operation ∈
    ["created"; "updated"; "removed"; "saved_key_removed"; "import_merged"; "import_replaced"]).

Section Validation.
(** [time.Parse(time.RFC3339Nano, _)] succeeds; the size of the indented JSON
    document. *)
Variable parses_RFC3339Nano : string → bool.
Variable document_size : publishingIntent → Z.

(** The loop over the transactions; [seen] holds the IDs met. *)
Fixpoint validate_transactions (seen : list string) (ids : list string)
    (ts : list publishingIntentTransaction) : result () :=
  match ids, ts with
  | id :: ids', t :: ts' =>
      if empty_string id || bool_decide (id ∈ seen) then
        Fail (Errorf "publishing intent transaction IDs are invalid")
      else if negb (validPublishingIntentOperation (it_Operation t)) then
        Fail (Errorf "publishing intent transaction operation is invalid")
      else if negb (parses_RFC3339Nano (it_CreatedAt t)) then
        Fail (Errorf "publishing intent transaction creation time is invalid")
      else validate_transactions (id :: seen) ids' ts'
  | _, _ => Ok ()
  end.

Definition validatePublishingIntent (intent : publishingIntent) : result () :=
  _ ← check (bool_decide (pi_Version intent = publishingIntentVersion))
        (Errorf "publishing intent version is unsupported");
  _ ← check (bool_decide (pi_State intent ∈ intent_states)) (Errorf "publishing intent state is invalid");
  _ ← check (bool_decide (pi_Scope intent = "all") || bool_decide (pi_Scope intent = "only"))
        (Errorf "publishing intent scope is invalid");
  _ ← check (bool_decide (length (pi_TransactionIDs intent) ≤ maxPublishingIntentTransactions)
             && bool_decide (length (pi_Transactions intent) ≤ maxPublishingIntentTransactions))
        errInvalidPublishingIntentDocument;
  _ ← check (negb (bool_decide (pi_TransactionIDs intent = [])))
        (Errorf "publishing intent requires transaction IDs");
  _ ← check (negb (bool_decide (pi_Scope intent = "only")
                   && negb (bool_decide (length (pi_TransactionIDs intent) = 1))))
        (Errorf "only publishing intent requires exactly one transaction ID");
  _ ← check (bool_decide (length (pi_Transactions intent) = length (pi_TransactionIDs intent)))
        (Errorf "publishing intent transaction metadata is incomplete");
  _ ← validate_transactions [] (pi_TransactionIDs intent) (pi_Transactions intent);
  _ ← check (publicationIdentityPattern (pi_TargetIdentity intent))
        (Errorf "publishing intent target identity is invalid");
  _ ← check (negb (pi_PrerequisiteExists intent
                   && negb (publicationIdentityPattern (pi_PrerequisiteIdentity intent))))
        (Errorf "publishing intent prerequisite identity is invalid");
  _ ← check (pi_PrerequisiteExists intent || empty_string (pi_PrerequisiteIdentity intent))
        (Errorf "absent publishing intent prerequisite has an identity");
  _ ← check (negb (pi_ObservedExists intent
                   && negb (publicationIdentityPattern (pi_ObservedIdentity intent))))
        (Errorf "publishing intent observed identity is invalid");
  check (pi_ObservedExists intent || empty_string (pi_ObservedIdentity intent))
    (Errorf "absent publishing intent observation has an identity").

(** What [savePublishingIntent] checks before it writes. *)
Definition intent_document (intent : publishingIntent) : result publishingIntent :=
  _ ← validatePublishingIntent intent;
  _ ← check (bool_decide (document_size intent ≤ maxPublishingIntentDocumentBytes)%Z)
        errInvalidPublishingIntentDocument;
  Ok intent.

(** [loadPublishingIntent]: [None] for a missing file. A document that does not
    decode strictly is [Malformed]. *)
Definition loadPublishingIntent (d : doc publishingIntent) : option (result publishingIntent) :=
  match d with
  | Missing => None
  | Unreadable => Some (Fail (Errorf "read publishing intent"))
  | Malformed => Some (Fail errInvalidPublishingIntentDocument)
  | Doc intent =>
      Some (if bool_decide (pi_Version intent = publishingIntentVersion)
            then _ ← validatePublishingIntent intent; Ok intent
            else Fail (Errorf "publishing intent version is unsupported"))
  end.
End Validation.

(** ** Views *)

Record MutationView := mkMutationView {
  mv_ID : string;
  mv_Alias : string;
  mv_Aliases : list string;
  mv_KeyName : string;
  mv_Operation : string;
  mv_CreatedAt : string;
  mv_Connections : option Z;
  mv_Keys : option Z;
}.

Definition mutation_view (m : PendingMutation) : MutationView :=
  let bulk := bool_decide (is_Some (m_BulkAfter m)) in
  mkMutationView (m_ID m) (m_Alias m) (m_Aliases m) (m_KeyName m) (m_Operation m) (m_CreatedAt m)
    (if bulk then Some (m_ConnectionCount m) else None)
    (if bulk || negb (empty_string (m_KeyName m)) then Some (m_KeyCount m) else None).
Definition mutationViews (ms : list PendingMutation) : list MutationView := mutation_view <$> ms.
Definition Pending (v : Vault) : list MutationView := mutationViews (v_PendingMutations v).

Definition publishingIntentTransactions (ms : list PendingMutation) : list publishingIntentTransaction :=
  (λ m, mkIntentTransaction (m_Operation m) (m_CreatedAt m)) <$> ms.

Definition publishingIntentMutationViews (ts : list publishingIntentTransaction) (ids : list string) :
    list MutationView :=
  zip_with (λ t id, mkMutationView id "" [] "" (it_Operation t) (it_CreatedAt t) None None) ts ids.

Record PublicationReceipt := mkPublicationReceipt {
  pr_OK : bool;
  pr_Action : string;
  pr_Scope : string;
  pr_Only : string;
  pr_Preflight : list MutationView;
  pr_Remaining : list MutationView;
}.
Definition no_receipt : PublicationReceipt := mkPublicationReceipt false "" "" "" [] [].

Definition scope_of (only : string) : string := if empty_string only then "all" else "only".

Definition publicationReceipt (only : string) (selected : list PendingMutation) (localAfter : Vault) :
    PublicationReceipt :=
  mkPublicationReceipt true "pushed" (scope_of only) only (mutationViews selected) (Pending localAfter).

Record PublicationRecovery := mkRecovery {
  re_State : string;
  re_Scope : string;
  re_TransactionIDs : list string;
  re_PrerequisiteExists : bool;
  re_PrerequisiteIdentity : string;
  re_TargetIdentity : string;
  re_ObservedExists : bool;
  re_ObservedIdentity : string;
}.

Definition recoveryView (i : publishingIntent) (state : string) : PublicationRecovery :=
  mkRecovery state (pi_Scope i) (pi_TransactionIDs i) (pi_PrerequisiteExists i)
    (pi_PrerequisiteIdentity i) (pi_TargetIdentity i) (pi_ObservedExists i) (pi_ObservedIdentity i).

Definition matchesRecovery (only : string) (recovery : option PublicationRecovery) : bool :=
  match recovery with
  | None => false
  | Some r =>
      if empty_string only then bool_decide (re_Scope r = "all")
      else bool_decide (re_TransactionIDs r = [only])
  end.

(** The intent [Publish] prepares for a projection. *)
Definition prepared_intent (only : string) (selected : list PendingMutation) (target : string)
    (cachedExists : bool) (cachedValue : string) : publishingIntent :=
  mkIntent publishingIntentVersion intentPrepared (scope_of only) (m_ID <$> selected)
    (publishingIntentTransactions selected) cachedExists cachedValue target false "".
