(* ===== verification/Cloud.v ===== *)
(** * The sync client ([internal/cloud/cloud.go])

    Each operation sends one request to the service and reads the answer. The
    service is any [SyncService]; whether the request and its answer get through
    is the [delivery] the operation is given. *)

From S2P Require Import Prelude GoStrings GoErrors NamedList Config SyncProtocol GoStringFacts.

Record CloudConfig := mkCloudConfig { cc_Server : string; cc_Token : string; cc_Email : string }.

(** [RemoteBlobIdentity] *)
Record RemoteBlobIdentity := mkRemoteIdentity { ri_Exists : bool; ri_Value : string }.
Definition no_remote : RemoteBlobIdentity := mkRemoteIdentity false "".

(** What becomes of one HTTP exchange: [Unsent] and [NoReply] are errors of
    [httpClient.Do] before and after the service served the request; a
    [BadBody] answer fails while its body is read. *)
Inductive delivery :=
  | Delivered
  | Unsent (e : goerror)
  | NoReply (e : goerror)
  | BadBody (e : goerror).

(** [http.NewRequest] fails for an unusable server address. *)
Class HttpClient := new_request_ok : string → bool.

Definition maxPullBlobBytes : Z := 67108864.
Definition maxResponseBodyBytes : Z := 1048576.

Definition ErrNoVaultOnServer : goerror := Sentinel "cloud.ErrNoVaultOnServer" [].

(** ** Inspecting errors: [errors.As] *)

Section As.
Context {A : Type} (pick : goerror → option A).

Fixpoint error_as (e : goerror) : option A :=
  let fix any (es : list goerror) : option A :=
    match es with
    | [] => None
    | e :: es' => match error_as e with Some a => Some a | None => any es' end
    end in
  match pick e with
  | Some a => Some a
  | None =>
      match e with
      | Sentinel _ ws | Wrap _ ws => any ws
      | TransportError i | pushFailure i _ _ => error_as i
      | _ => None
      end
  end.
End As.

Definition as_pushFailure : goerror → option (goerror * bool * bool) :=
  error_as (λ e, match e with pushFailure i x a => Some (i, x, a) | _ => None end).
Definition as_HTTPStatus : goerror → option Z :=
  error_as (λ e, match e with HTTPStatusError status _ => Some status | _ => None end).

Definition PushFailureIsExplicit (err : goerror) : bool :=
  match as_pushFailure err with Some (_, explicit, _) => explicit | None => false end.
Definition PushFailureIsAmbiguous (err : goerror) : bool :=
  match as_pushFailure err with Some (_, _, ambiguous) => ambiguous | None => false end.
Definition PushFailureIsConflict (err : goerror) : bool :=
  match as_pushFailure err with
  | Some (inner, _, _) => bool_decide (as_HTTPStatus inner = Some StatusPreconditionFailed)
  | None => false
  end.

(** ** Requests and answers *)

Section Client.
Context `{Sha256, Json, HttpClient} {S : Type} `{service : !SyncService S}.

Definition requireToken (cfg : option CloudConfig) : result CloudConfig :=
  match cfg with
  | Some c => if empty_string (TrimSpace (cc_Token c)) then Fail MissingTokenError else Ok c
  | None => Fail MissingTokenError
  end.

(** An answer and the error that reading its body meets. *)
Record answer := mkAnswer { an_Response : Response; an_ReadError : option goerror }.

Definition Do (d : delivery) (s : S) (r : Request) : S * result answer :=
  match d with
  | Unsent e => (s, Fail e)
  | NoReply e => (fst (serve s r), Fail e)
  | BadBody e => let '(s', a) := serve s r in (s', Ok (mkAnswer a (Some e)))
  | Delivered => let '(s', a) := serve s r in (s', Ok (mkAnswer a None))
  end.

Definition readResponseBody (a : answer) : result bytes :=
  match an_ReadError a with
  | Some e => Fail e
  | None =>
      _ ← check (bool_decide (Z.of_nat (length (rp_Body (an_Response a))) ≤ maxResponseBodyBytes)%Z)
            (Errorf "response body is too large");
      Ok (rp_Body (an_Response a))
  end.

Definition parseError (a : answer) : goerror :=
  let status := rp_Status (an_Response a) in
  match readResponseBody a with
  | Fail e => e
  | Ok body =>
      match json_string "error" body with
      | None => HTTPStatusError status ""
      | Some message => HTTPStatusError status (TrimSpace message)
      end
  end.

Definition request (m : method) (cfg : CloudConfig) (path ifMatch ifNoneMatch : string) (body : bytes) :
    Request :=
  mkRequest m path ("Bearer " +:+ cc_Token cfg) ifMatch ifNoneMatch body.

Definition endpoint (cfg : CloudConfig) (path : string) : string :=
  TrimRight (cc_Server cfg) "/" +:+ path.

(** ** Publishing *)

Definition PushBlobObserved (d : delivery) (s : S) (cfg : option CloudConfig) (data : bytes)
    (prerequisite : RemoteBlobIdentity) : S * result (string * bool) :=
  match requireToken cfg with
  | Fail e => (s, Fail e)
  | Ok cfg =>
      if negb (new_request_ok (endpoint cfg "/sync")) then
        (s, Fail (pushFailure RequestError false false))
      else
        let ifMatch := if ri_Exists prerequisite then quoteETag (TrimQuotes (ri_Value prerequisite)) else "" in
        let ifNoneMatch := if ri_Exists prerequisite then "" else "*" in
        match Do d s (request PUT cfg "/sync" ifMatch ifNoneMatch data) with
        | (s', Fail e) => (s', Fail (pushFailure (TransportError e) false true))
        | (s', Ok a) =>
            if negb (bool_decide (rp_Status (an_Response a) = StatusOK)) then
              (s', Fail (pushFailure (parseError a) true false))
            else
              let etag := TrimQuotes (rp_ETag (an_Response a)) in
              (s', Ok (etag, negb (empty_string etag)))
        end
  end.

Definition PushBlob (d : delivery) (s : S) (cfg : option CloudConfig) (data : bytes) : S * result string :=
  match PushBlobObserved d s cfg data no_remote with
  | (s', Fail e) => (s', Fail e)
  | (s', Ok (etag, observed)) => (s', Ok (if (observed : bool) then etag else hashBytes data))
  end.

(** ** Fetching *)

(** The request and the checks [Fetch] and [FetchExpected] share. *)
Definition get_sync (d : delivery) (s : S) (cfg : option CloudConfig) : S * result answer :=
  match requireToken cfg with
  | Fail e => (s, Fail e)
  | Ok cfg =>
      if negb (new_request_ok (endpoint cfg "/sync")) then (s, Fail RequestError)
      else
        match Do d s (request GET cfg "/sync" "" "" []) with
        | (s', Fail e) => (s', Fail (TransportError e))
        | (s', Ok a) => (s', Ok a)
        end
  end.

Definition too_large (data : bytes) : bool := bool_decide (maxPullBlobBytes < Z.of_nat (length data))%Z.

Definition Fetch (d : delivery) (s : S) (cfg : option CloudConfig) : S * result (bytes * string) :=
  match get_sync d s cfg with
  | (s', Fail e) => (s', Fail e)
  | (s', Ok a) =>
      (s',
       let status := rp_Status (an_Response a) in
       let data := rp_Body (an_Response a) in
       if bool_decide (status = StatusNotFound) then Fail ErrNoVaultOnServer
       else if negb (bool_decide (status = StatusOK)) then Fail (parseError a)
       else
         match an_ReadError a with
         | Some e => Fail (TransportError e)
         | None =>
             _ ← check (negb (too_large data)) (Errorf "sync blob too large");
             _ ← check (negb (bool_decide (data = []))) (Errorf "sync blob is empty");
             let etag := TrimQuotes (rp_ETag (an_Response a)) in
             Ok (data, if empty_string etag then hashBytes data else etag)
         end)
  end.

Definition FetchExpected (d : delivery) (s : S) (cfg : option CloudConfig) (expected : string) :
    S * result (bytes * string) :=
  match get_sync d s cfg with
  | (s', Fail e) => (s', Fail e)
  | (s', Ok a) =>
      (s',
       let data := rp_Body (an_Response a) in
       if negb (bool_decide (rp_Status (an_Response a) = StatusOK)) then Fail (parseError a)
       else
         match an_ReadError a with
         | Some e => Fail (TransportError e)
         | None =>
             _ ← check (negb (too_large data || bool_decide (data = []))) (Errorf "sync blob is invalid");
             let bodyIdentity := hashBytes data in
             let etag := TrimQuotes (rp_ETag (an_Response a)) in
             let responseIdentity := if empty_string etag then bodyIdentity else etag in
             _ ← check (bool_decide (responseIdentity = expected) && bool_decide (bodyIdentity = expected))
                   (Errorf "remote identity changed during reviewed pull");
             Ok (data, expected)
         end)
  end.

(** ** Observing *)

Definition InspectRemoteBlob (d : delivery) (s : S) (cfg : option CloudConfig) :
    S * result RemoteBlobIdentity :=
  match requireToken cfg with
  | Fail e => (s, Fail e)
  | Ok cfg =>
      if negb (new_request_ok (endpoint cfg "/sync")) then (s, Fail RequestError)
      else
        match Do d s (request HEAD cfg "/sync" "" "" []) with
        | (s', Fail e) => (s', Fail (TransportError e))
        | (s', Ok a) =>
            (s',
             let status := rp_Status (an_Response a) in
             if bool_decide (status = StatusNotFound) then Ok no_remote
             else if negb (bool_decide (status = StatusOK)) then Fail (parseError a)
             else Ok (mkRemoteIdentity true (TrimQuotes (rp_ETag (an_Response a)))))
        end
  end.

Definition RemoteETag (d : delivery) (s : S) (cfg : option CloudConfig) : S * result string :=
  match InspectRemoteBlob d s cfg with
  | (s', Fail e) => (s', Fail e)
  | (s', Ok identity) =>
      (s', if ri_Exists identity then Ok (ri_Value identity) else Fail ErrNoVaultOnServer)
  end.

(** ** Accounts *)

Definition parseTokenResponse (a : answer) : result string :=
  if bool_decide (400 ≤ rp_Status (an_Response a))%Z then Fail (parseError a)
  else
    body ← readResponseBody a;
    match json_string "token" body with
    | None => Fail (Errorf "decode token")
    | Some token =>
        _ ← check (negb (empty_string (TrimSpace token)))
              (Errorf "server response did not include a token");
        Ok token
    end.

(** [Register] and [Login]: [body] is the JSON of the email and the password. *)
Definition post_credentials (path : string) (d : delivery) (s : S) (server : string) (body : bytes) :
    S * result string :=
  if negb (new_request_ok (TrimRight server "/" +:+ path)) then (s, Fail (TransportError RequestError))
  else
    match Do d s (mkRequest POST path "" "" "" body) with
    | (s', Fail e) => (s', Fail (TransportError e))
    | (s', Ok a) => (s', parseTokenResponse a)
    end.
Definition Register := post_credentials "/auth/register".
Definition Login := post_credentials "/auth/login".

Definition CheckVerified (d : delivery) (s : S) (cfg : option CloudConfig) : S * bool :=
  match requireToken cfg with
  | Fail _ => (s, false)
  | Ok cfg =>
      if negb (new_request_ok (endpoint cfg "/auth/status")) then (s, false)
      else
        match Do d s (request GET cfg "/auth/status" "" "" []) with
        | (s', Fail _) => (s', false)
        | (s', Ok a) =>
            (s',
             if negb (bool_decide (rp_Status (an_Response a) = StatusOK)) then false
             else
               match readResponseBody a with
               | Fail _ => false
               | Ok body => default false (json_bool "verified" body)
               end)
        end
  end.
End Client.

(** ** What the sync client may conclude from an answer

    Proved against the interface [SyncServiceLaws], of which the sync server is an
    instance: what a successful operation says of the blob the service holds, and
    what each class of push failure says. *)

Lemma hex_avoids_quote identity :
  string_forall is_hex_digit identity = true → avoids dquote identity = true.
Proof.
  apply string_forall_impl. intros c. unfold is_hex_digit, is_digit, in_range, dquote.
  rewrite orb_true_iff, !andb_true_iff, !N.leb_le. cbn [contains_char]. rewrite orb_false_r.
  intros Hc. apply negb_true_iff, Ascii.eqb_neq. intros ->. vm_compute in Hc. naive_solver.
Qed.

Lemma TrimQuotes_hex identity : string_forall is_hex_digit identity = true → TrimQuotes identity = identity.
Proof. intros. by apply Trim_avoids, hex_avoids_quote. Qed.

Lemma TrimQuotes_quoteETag identity :
  string_forall is_hex_digit identity = true → identity ≠ EmptyString →
  TrimQuotes (quoteETag identity) = identity.
Proof.
  intros Hx Hne. unfold TrimQuotes, quoteETag, dquote at 1 2. rewrite app_cons, app_nil.
  apply Trim_wrapped; [done..|by apply hex_avoids_quote|done].
Qed.

Section Facts.
Context `{Sha256, !Sha256Laws _, Json, HttpClient} {S : Type} `{service : !SyncService S}.
Context (cfg : CloudConfig) (good : S → Prop) (stored : S → option bytes).
Context `{laws : !SyncServiceLaws service (cc_Token cfg) good stored}.

Lemma hashBytes_nonempty data : hashBytes data ≠ EmptyString.
Proof.
  intros E. apply (f_equal String.length) in E. unfold hashBytes in E.
  by rewrite hex_encode_length, sha256_length in E.
Qed.

Lemma TrimQuotes_hash data : TrimQuotes (quoteETag (hashBytes data)) = hashBytes data.
Proof. apply TrimQuotes_quoteETag; [apply hex_encode_digits|apply hashBytes_nonempty]. Qed.

(** What [Do] returned, when it returned an answer. *)
Lemma Do_Ok d s r s' a :
  Do d s r = (s', Ok a) → s' = fst (serve s r) ∧ an_Response a = snd (serve s r) ∧
    (d = Delivered ∧ an_ReadError a = None ∨ ∃ e, d = BadBody e ∧ an_ReadError a = Some e).
Proof.
  unfold Do. destruct d, (serve s r) as [s1 a1] eqn:E; intros [= <- <-]; cbn; eauto 6.
Qed.

Lemma Do_Fail d s r s' e :
  Do d s r = (s', Fail e) → (d = Unsent e ∧ s' = s) ∨ (d = NoReply e ∧ s' = fst (serve s r)).
Proof. unfold Do. destruct d, (serve s r) as [s1 a1] eqn:E; intros [= <- <-]; auto. Qed.

Lemma requireToken_Ok c c' : requireToken (Some c) = Ok c' → c' = c.
Proof. unfold requireToken. destruct (empty_string _); congruence. Qed.

(** A push that reports success: the service holds exactly the pushed bytes, the
    identity is theirs, and the blob it replaced was the one the prerequisite
    names, or none when the prerequisite is a first push. *)
Theorem push_success_is_committed d s data pre s' etag observed :
  good s → PushBlobObserved d s (Some cfg) data pre = (s', Ok (etag, observed)) →
  stored s' = Some data ∧ etag = hashBytes data ∧ observed = true ∧
  (ri_Exists pre = false → stored s = None) ∧
  (ri_Exists pre = true → publicationIdentityPattern (ri_Value pre) = true →
    ∃ old, stored s = Some old ∧ hashBytes old = ri_Value pre).
Proof.
  intros Hg. unfold PushBlobObserved.
  destruct (requireToken (Some cfg)) as [c|] eqn:Ec; [|done]. apply requireToken_Ok in Ec as ->.
  destruct (new_request_ok _); [|done]. cbn [negb]. cbv zeta.
  set (r := request PUT cfg _ _ _ _). destruct (Do d s r) as [s1 [a|]] eqn:Ed; [|done].
  apply Do_Ok in Ed as (-> & Ha & _). rewrite Ha.
  case_bool_decide as Hst; [|done]. cbn [negb]. intros [= <- <- <-].
  destruct (serve_put s r Hg) as [Hput _]; [reflexivity..|].
  destruct (Hput Hst) as (Hs & He & Hif & Hnone). rewrite He, TrimQuotes_hash.
  unfold empty_string. rewrite bool_decide_eq_false_2 by apply hashBytes_nonempty.
  split_and!; [done..| |].
  - intros Hex. apply Hnone. unfold r, request. cbn. by rewrite Hex.
  - intros Hex Hid. apply Hif; [done|]. unfold r, request. cbn. rewrite Hex.
    rewrite TrimQuotes_hex; [done|]. revert Hid. unfold publicationIdentityPattern.
    by intros [_ ?]%andb_true_iff.
Qed.

Lemma parseError_status a status :
  an_ReadError a = None → as_HTTPStatus (parseError a) = Some status → status = rp_Status (an_Response a).
Proof.
  intros Hn. unfold parseError, readResponseBody, check. rewrite Hn.
  case_bool_decide; cbn; [|done].
  destruct (json_string _ _); cbn; congruence.
Qed.

(** The classes of push failures: only an ambiguous or an explicit failure may
    have reached the service, an ambiguous one is a lost exchange, and a failed
    precondition left the stored blob as it was. *)
Theorem push_failure_classes d s data pre s' err :
  good s → PushBlobObserved d s (Some cfg) data pre = (s', Fail err) →
  (PushFailureIsExplicit err = false → PushFailureIsAmbiguous err = false → s' = s) ∧
  ¬ (PushFailureIsExplicit err = true ∧ PushFailureIsAmbiguous err = true) ∧
  (PushFailureIsAmbiguous err = true → ∃ e, d = Unsent e ∨ d = NoReply e) ∧
  (d = Delivered → PushFailureIsConflict err = true → stored s' = stored s).
Proof.
  intros Hg. unfold PushBlobObserved.
  destruct (requireToken (Some cfg)) as [c|] eqn:Ec.
  2: { intros [= <- <-]. unfold requireToken in Ec. destruct (empty_string _) in Ec; [|done].
       injection Ec as <-. split_and!; naive_solver. }
  apply requireToken_Ok in Ec as ->.
  destruct (new_request_ok _); [|intros [= <- <-]; split_and!; naive_solver]. cbn [negb]. cbv zeta.
  set (r := request PUT cfg _ _ _ _). destruct (Do d s r) as [s1 [a|e]] eqn:Ed.
  - apply Do_Ok in Ed as (-> & Ha & Hd). case_bool_decide; [done|]. cbn [negb]. intros [= <- <-].
    split_and!; [done|naive_solver|done|]. intros -> Hc.
    destruct Hd as [[_ Hn]|(? & [=] & _)].
    unfold PushFailureIsConflict in Hc. cbn in Hc. bool_to_prop.
    apply parseError_status in Hc; [|done]. rewrite Ha in Hc.
    destruct (serve_put s r Hg) as [_ Hput]; [reflexivity..|]. apply Hput. by rewrite <- Hc.
  - apply Do_Fail in Ed as Hd. intros [= <- <-].
    split_and!; [done|naive_solver|intros _; exists e; naive_solver|].
    intros ->. naive_solver.
Qed.

Lemma get_sync_Ok d s s' a :
  good s → get_sync d s (Some cfg) = (s', Ok a) →
  stored s' = stored s ∧
  (rp_Status (an_Response a) = StatusOK → stored s = Some (rp_Body (an_Response a)) ∧
    rp_ETag (an_Response a) = quoteETag (hashBytes (rp_Body (an_Response a)))).
Proof.
  intros Hg. unfold get_sync.
  destruct (requireToken (Some cfg)) as [c|] eqn:Ec; [|done]. apply requireToken_Ok in Ec as ->.
  destruct (new_request_ok _); [|done]. cbn [negb].
  set (r := request GET cfg _ _ _ _). destruct (Do d s r) as [s1 [b|]] eqn:Ed; [|done].
  intros [= <- <-]. apply Do_Ok in Ed as (-> & -> & _). by apply (serve_get s r Hg); reflexivity.
Qed.

(** A fetch returns exactly the stored blob and its identity, and is never empty. *)
Theorem fetch_is_stored d s s' data etag :
  good s → Fetch d s (Some cfg) = (s', Ok (data, etag)) →
  stored s = Some data ∧ stored s' = stored s ∧ etag = hashBytes data ∧ data ≠ [] ∧
  (Z.of_nat (length data) ≤ maxPullBlobBytes)%Z.
Proof.
  intros Hg. unfold Fetch. destruct (get_sync d s (Some cfg)) as [s1 [a|]] eqn:Eg; [|done].
  apply get_sync_Ok in Eg as [Hs Ha]; [|done]. intros [= <- Hr]. cbv zeta in Hr.
  case_bool_decide; [done|]. case_bool_decide as Hst; [|done]. cbn [negb] in Hr.
  destruct (Ha Hst) as [Hb He]. destruct (an_ReadError a); [done|].
  inv_ok Hr. unfold too_large in Hok. rewrite He, TrimQuotes_hash in Hr.
  unfold empty_string in Hr. rewrite bool_decide_eq_false_2 in Hr by apply hashBytes_nonempty.
  injection Hr as <- <-. bool_to_prop. split_and!; [done..|lia].
Qed.

(** A reviewed fetch returns the reviewed blob or fails: the bytes hash to the
    expected identity, and the service held them. *)
Theorem fetch_expected_is_reviewed d s s' expected data etag :
  good s → FetchExpected d s (Some cfg) expected = (s', Ok (data, etag)) →
  stored s = Some data ∧ stored s' = stored s ∧ hashBytes data = expected ∧ etag = expected.
Proof.
  intros Hg. unfold FetchExpected. destruct (get_sync d s (Some cfg)) as [s1 [a|]] eqn:Eg; [|done].
  apply get_sync_Ok in Eg as [Hs Ha]; [|done]. intros [= <- Hr]. cbv zeta in Hr.
  case_bool_decide as Hst; [|done]. cbn [negb] in Hr.
  destruct (Ha Hst) as [Hb He]. destruct (an_ReadError a); [done|].
  inv_ok Hr. injection Hr as <- <-. bool_to_prop. by split_and!.
Qed.

(** An observed identity is that of the stored blob, and "no blob" means so. *)
Theorem inspect_is_stored d s s' identity :
  good s → InspectRemoteBlob d s (Some cfg) = (s', Ok identity) →
  stored s' = stored s ∧
  identity = match stored s with
             | Some data => mkRemoteIdentity true (hashBytes data)
             | None => no_remote
             end.
Proof.
  intros Hg. unfold InspectRemoteBlob.
  destruct (requireToken (Some cfg)) as [c|] eqn:Ec; [|done]. apply requireToken_Ok in Ec as ->.
  destruct (new_request_ok _); [|done]. cbn [negb].
  set (r := request HEAD cfg _ _ _ _). destruct (Do d s r) as [s1 [a|]] eqn:Ed; [|done].
  intros [= <- Hr]. cbv zeta in Hr. apply Do_Ok in Ed as (-> & Ha & _). rewrite Ha in Hr.
  destruct (serve_head s r Hg) as (Hs & Hok & Hnone); [reflexivity..|]. split; [done|].
  case_bool_decide as Hn; [rewrite (Hnone Hn); congruence|].
  case_bool_decide as Hst; [|done]. destruct (Hok Hst) as (data & -> & He).
  rewrite He, TrimQuotes_hash in Hr. cbn in Hr. congruence.
Qed.
End Facts.
