(* ===== verification/SyncWorld.v ===== *)
(** * The world a synchronizing process runs in

    The files of the configuration directory, the service, the locks the process
    holds and the log of what it did. Other processes may run between any two
    operations; they replace the files a lock protects only while they hold it, so
    while this process holds the lock those files are its own. *)

From S2P Require Import Prelude GoStrings GoErrors NamedList VaultBlob Config SyncProtocol Cloud PublishingIntent.

(** ** Files *)

(** The vault file: missing, present but not to be inspected, present but not
    readable, or its bytes. *)
Inductive file := Absent | NoAccess | Opaque | Content (data : bytes).

Definition file_content (f : file) : option bytes := match f with Content b => Some b | _ => None end.

Record SyncError := mkSyncError { se_Cause : string; se_Message : string; se_At : string }.

Record SyncState := mkSyncState {
  ss_LastAttemptAt : string;
  ss_LastSuccessAt : string;
  ss_NextAttemptAt : string;
  ss_ConsecutiveFailures : Z;
  ss_LastError : option SyncError;
  ss_InFlightUntil : string;
  ss_ClaimToken : string;
}.
Definition zero_state : SyncState := mkSyncState "" "" "" 0 None "" "".

Record SyncConflict := mkSyncConflict {
  sc_DetectedAt : string;
  sc_LocalETag : string;
  sc_RemoteETag : string;
  sc_CachedETag : string;
}.

Record Disk := mkDisk {
  (** [connections.enc] and [connections.enc.prev] *)
  d_vault : file;
  d_prev : file;
  (** [remote.etag], when it reads *)
  d_remote : option string;
  (** [sync-superseded.json], [sync-generation.json] *)
  d_superseded : doc (list string);
  d_generation : doc Z;
  (** [sync-conflict.json], [sync-state.json], [settings.json], [cloud.json] *)
  d_conflict : doc SyncConflict;
  d_state : doc SyncState;
  d_settings : doc RawSettings;
  d_cloud : doc CloudConfig;
  (** [publishing-intent.json] *)
  d_intent : doc publishingIntent;
}.

Definition set_vault (f : file) (d : Disk) : Disk :=
  mkDisk f (d_prev d) (d_remote d) (d_superseded d) (d_generation d) (d_conflict d) (d_state d)
    (d_settings d) (d_cloud d) (d_intent d).
Definition set_prev (f : file) (d : Disk) : Disk :=
  mkDisk (d_vault d) f (d_remote d) (d_superseded d) (d_generation d) (d_conflict d) (d_state d)
    (d_settings d) (d_cloud d) (d_intent d).
Definition set_remote (r : option string) (d : Disk) : Disk :=
  mkDisk (d_vault d) (d_prev d) r (d_superseded d) (d_generation d) (d_conflict d) (d_state d)
    (d_settings d) (d_cloud d) (d_intent d).
Definition set_superseded (s : doc (list string)) (d : Disk) : Disk :=
  mkDisk (d_vault d) (d_prev d) (d_remote d) s (d_generation d) (d_conflict d) (d_state d)
    (d_settings d) (d_cloud d) (d_intent d).
Definition set_generation (g : doc Z) (d : Disk) : Disk :=
  mkDisk (d_vault d) (d_prev d) (d_remote d) (d_superseded d) g (d_conflict d) (d_state d)
    (d_settings d) (d_cloud d) (d_intent d).
Definition set_conflict (c : doc SyncConflict) (d : Disk) : Disk :=
  mkDisk (d_vault d) (d_prev d) (d_remote d) (d_superseded d) (d_generation d) c (d_state d)
    (d_settings d) (d_cloud d) (d_intent d).
Definition set_syncstate (s : doc SyncState) (d : Disk) : Disk :=
  mkDisk (d_vault d) (d_prev d) (d_remote d) (d_superseded d) (d_generation d) (d_conflict d) s
    (d_settings d) (d_cloud d) (d_intent d).
Definition set_settings (s : doc RawSettings) (d : Disk) : Disk :=
  mkDisk (d_vault d) (d_prev d) (d_remote d) (d_superseded d) (d_generation d) (d_conflict d) (d_state d)
    s (d_cloud d) (d_intent d).
Definition set_intent (i : doc publishingIntent) (d : Disk) : Disk :=
  mkDisk (d_vault d) (d_prev d) (d_remote d) (d_superseded d) (d_generation d) (d_conflict d) (d_state d)
    (d_settings d) (d_cloud d) i.

(** ** Locks

    [vault-write.lock], [sync-state.lock] and [publication.lock]. *)
Record locks := mkLocks { lk_vault : bool; lk_state : bool; lk_publication : bool }.
Definition no_locks : locks := mkLocks false false false.

(** What this process finds when the others left [theirs] where [mine] was: the
    files under a lock it holds are as it left them. *)
Definition protect (l : locks) (mine theirs : Disk) : Disk :=
  let keep {A} (held : bool) (a b : A) := if held then a else b in
  mkDisk
    (keep (lk_vault l) (d_vault mine) (d_vault theirs))
    (keep (lk_vault l) (d_prev mine) (d_prev theirs))
    (keep (lk_vault l) (d_remote mine) (d_remote theirs))
    (keep (lk_vault l) (d_superseded mine) (d_superseded theirs))
    (keep (lk_vault l) (d_generation mine) (d_generation theirs))
    (d_conflict theirs)
    (keep (lk_state l) (d_state mine) (d_state theirs))
    (d_settings theirs)
    (d_cloud theirs)
    (keep (lk_publication l) (d_intent mine) (d_intent theirs)).

(** ** What is logged *)

Inductive pullMode := pullRefresh | pullBackground | pullAdopt.
#[export] Instance pullMode_eq_dec : EqDecision pullMode.
Proof. solve_decision. Defined.

Inductive event :=
  (** a request with its body, whether the vault lock was held, and the publishing
      intent on disk *)
  | EvRequest (m : method) (body : bytes) (locked : bool) (intent : doc publishingIntent)
  (** the service reported this identity, or that it holds no blob *)
  | EvRemote (exists_ : bool) (value : string)
  (** a pull replaced the vault: the disk just before, the blob and its identity *)
  | EvInstall (mode : pullMode) (evidence : option SyncConflict) (before : Disk) (blob : bytes) (etag : string)
  (** a publication finalized the vault for an intent: the disk just before, the
      new bytes *)
  | EvFinalize (intent : publishingIntent) (before : Disk) (blob : bytes)
  (** the publishing intent was written, or removed *)
  | EvIntent (intent : option publishingIntent)
  (** a write of [remote.etag], and whether the vault lock was held *)
  | EvIdentity (identity : string) (locked : bool)
  | EvInvalidate
  | EvSpawn (token : string).

Section World.
Context {S : Type}.

Record World := mkWorld {
  w_disk : Disk;
  w_service : S;
  w_locks : locks;
  w_tick : nat;
  w_log : list event;
}.

(** What happens outside the process at its [n]th operation. *)
Class SyncEnv := {
  (** the other processes, and the other clients of the service *)
  sy_others : nat → Disk → Disk;
  sy_service : nat → S → S;
  sy_delivery : nat → delivery;
  sy_write : nat → write_outcome;
  (** [config.AcquireFileLock] *)
  sy_lock : nat → result ();
  (** [time.Now()], in nanoseconds since the zero time *)
  sy_clock : nat → Z;
  (** [rand.Read] *)
  sy_random : nat → option bytes;
}.

Definition M (A : Type) : Type := World → A * World.
#[global] Instance M_ret : MRet M := λ A a w, (a, w).
#[global] Instance M_bind : MBind M := λ A B f m w, let '(a, w') := m w in f a w'.

Context `{SyncEnv}.

(** Anyone else may run before an operation. *)
Definition yield : M nat := λ w,
  let n := w_tick w in
  (n, mkWorld (protect (w_locks w) (w_disk w) (sy_others n (w_disk w))) (sy_service n (w_service w))
        (w_locks w) (Datatypes.S n) (w_log w)).

Definition gets {A} (f : World → A) : M A := λ w, (f w, w).
Definition modify (f : World → World) : M () := λ w, ((), f w).

Definition on_disk (f : Disk → Disk) (w : World) : World :=
  mkWorld (f (w_disk w)) (w_service w) (w_locks w) (w_tick w) (w_log w).
Definition with_locks (f : locks → locks) (w : World) : World :=
  mkWorld (w_disk w) (w_service w) (f (w_locks w)) (w_tick w) (w_log w).

Definition read {A} (f : Disk → A) : M A := yield ≫= λ _, gets (λ w, f (w_disk w)).

(** Replacing a file: whether it reports success. *)
Definition write (f : Disk → Disk) : M bool :=
  n ← yield;
  _ ← modify (λ w, if write_stores (sy_write n) then on_disk f w else w);
  mret (write_succeeds (sy_write n)).

(** Removing a file; a missing one is no failure. *)
Definition remove (present : Disk → bool) (f : Disk → Disk) : M bool :=
  n ← yield;
  here ← gets (λ w, present (w_disk w));
  if (here : bool) then
    _ ← modify (λ w, if write_stores (sy_write n) then on_disk f w else w);
    mret (write_succeeds (sy_write n))
  else mret true.

Definition log (e : World → event) : M () :=
  modify (λ w, mkWorld (w_disk w) (w_service w) (w_locks w) (w_tick w) (w_log w ++ [e w])).

Definition clock : M Z := n ← yield; mret (sy_clock n).
Definition random : M (option bytes) := n ← yield; mret (sy_random n).

Definition on_service {A} (op : S → S * A) : M A := λ w,
  let '(s', a) := op (w_service w) in
  (a, mkWorld (w_disk w) s' (w_locks w) (w_tick w) (w_log w)).

(** An exchange with the service. *)
Definition net {A} (m : method) (body : bytes) (op : delivery → S → S * A) : M A :=
  n ← yield;
  _ ← log (λ w, EvRequest m body (lk_vault (w_locks w)) (d_intent (w_disk w)));
  on_service (op (sy_delivery n)).

Definition set_vault_lock (b : bool) (l : locks) : locks := mkLocks b (lk_state l) (lk_publication l).
Definition set_state_lock (b : bool) (l : locks) : locks := mkLocks (lk_vault l) b (lk_publication l).
Definition set_publication_lock (b : bool) (l : locks) : locks := mkLocks (lk_vault l) (lk_state l) b.

Definition acquire (set : bool → locks → locks) : M (result ()) :=
  n ← yield;
  match sy_lock n with
  | Ok _ => _ ← modify (with_locks (set true)); mret (Ok ())
  | Fail e => mret (Fail e)
  end.
Definition release (set : bool → locks → locks) : M () := modify (with_locks (set false)).
End World.
Arguments World : clear implicits.
Arguments SyncEnv : clear implicits.
Arguments M : clear implicits.
