(* ===== verification/SyncSchedule.v ===== *)
(** * When to synchronize ([internal/synctransaction/state.go] and [superseded.go])

    The durable schedule of automatic synchronization, its claims and recorded
    outcomes, and the list of vault identities this machine has replaced. *)

From Stdlib Require Import Ascii.
From S2P Require Import Prelude GoStrings GoErrors NamedList VaultBlob Config SyncProtocol Cloud PublishingIntent SyncWorld.

(** [time.Time.Format] and [time.Parse] with [time.RFC3339], for UTC, for the
    local zone and for a time that was itself parsed, and [time.ParseDuration]. *)
Class GoTime := {
  rfc3339_utc : Z → string;
  rfc3339_local : Z → string;
  rfc3339_parsed : string → string;
  parse_rfc3339 : string → option Z;
  ParseDuration : string → option Z;
}.

Definition second : Z := 1000000000.
Definition minute : Z := 60 * second.

(** The times the code meets: from the year 1 to the year 9999. *)
Definition max_time : Z := 315569520000 * second.
Definition valid_time (t : Z) : Prop := (0 ≤ t < max_time)%Z.

Class GoTimeLaws (T : GoTime) : Prop := {
  parse_utc t : valid_time t → parse_rfc3339 (rfc3339_utc t) = Some (t / second * second)%Z;
  parse_local t : valid_time t → parse_rfc3339 (rfc3339_local t) = Some (t / second * second)%Z;
  parse_range raw t : parse_rfc3339 raw = Some t → valid_time t;
  parse_empty : parse_rfc3339 "" = None;
}.

Definition BackgroundRequestTimeout : Z := 5 * second.
Definition backoffBase : Z := 30 * second.
Definition backoffCap : Z := hour.
Definition claimTTL : Z := 2 * minute.
Definition maxScheduleHorizon : Z := 30 * 24 * hour.
Definition skippedRetryDelay : Z := 30 * second.
Definition maxErrorMessageBytes : nat := 300.
Definition maxSuperseded : nat := 64.

Definition CauseConflict := "conflict".
Definition CauseConfiguration := "configuration".
Definition CauseUnknown := "unknown".

(** ** Errors *)

Definition ErrConfiguration : goerror := Sentinel "synctransaction.ErrConfiguration" [].
Definition ErrUnconfigured : goerror := Sentinel "synctransaction.ErrUnconfigured" [].
Definition ErrRefresh : goerror := Sentinel "synctransaction.ErrRefresh" [].
Definition ErrConflict : goerror := Sentinel "synctransaction.ErrConflict" [].
Definition ErrEmptyLedgerDivergence : goerror := Sentinel "synctransaction.ErrEmptyLedgerDivergence" [].
Definition ErrPushNotSent : goerror := Sentinel "synctransaction.ErrPushNotSent" [].
Definition ErrPushRejected : goerror := Sentinel "synctransaction.ErrPushRejected" [].
Definition ErrPushAmbiguous : goerror := Sentinel "synctransaction.ErrPushAmbiguous" [].
Definition errBackgroundSkipped : goerror := Sentinel "synctransaction.errBackgroundSkipped" [].
Definition errRemoteSuperseded : goerror := Sentinel "synctransaction.errRemoteSuperseded" [ErrConflict].

(** ** Strings and integers *)

(** [utf8.RuneStart] *)
Definition RuneStart (c : ascii) : bool := negb (in_range 128 191 c).

Fixpoint rune_cut (s : string) (cut : nat) : nat :=
  match cut with
  | O => O
  | Datatypes.S cut' =>
      match String.get cut s with
      | Some c => if RuneStart c then cut else rune_cut s cut'
      | None => cut
      end
  end.

Definition truncateUTF8 (s : string) (max : nat) : string :=
  if bool_decide (String.length s ≤ max) then s else String.substring 0 (rune_cut s max) s.

(** ** The schedule *)

(** The loop of [backoffDelay] from [i]; it ends within eight rounds
    ([backoff_rounds]). *)
Fixpoint backoff_loop (rounds : nat) (i failures delay : Z) : Z :=
  match rounds with
  | O => delay
  | Datatypes.S rounds' =>
      if bool_decide (i < failures)%Z then
        let delay := (delay * 2)%Z in
        if bool_decide (backoffCap ≤ delay)%Z then backoffCap
        else backoff_loop rounds' (i + 1) failures delay
      else delay
  end.

Definition backoffDelay (failures : Z) : Z :=
  backoff_loop 8 1 (if bool_decide (failures < 1)%Z then 1%Z else failures) backoffBase.

Section Schedule.
Context `{GoTime}.

(** The zero time stands for anything that does not parse. *)
Definition parseStateTime (raw : string) : Z := default 0%Z (parse_rfc3339 raw).
Definition IsZero (t : Z) : bool := bool_decide (t = 0%Z).

Definition due (s : SyncState) (now : Z) : bool :=
  let next := parseStateTime (ss_NextAttemptAt s) in
  let inFlight := parseStateTime (ss_InFlightUntil s) in
  if negb (IsZero next) && bool_decide (now < next)%Z
     && bool_decide (next - now ≤ maxScheduleHorizon)%Z then false
  else if negb (IsZero inFlight) && bool_decide (now < inFlight)%Z
     && bool_decide (inFlight - now ≤ claimTTL)%Z then false
  else true.

Definition with_claim (s : SyncState) (until token : string) : SyncState :=
  mkSyncState (ss_LastAttemptAt s) (ss_LastSuccessAt s) (ss_NextAttemptAt s) (ss_ConsecutiveFailures s)
    (ss_LastError s) until token.
Definition clear_claim (s : SyncState) : SyncState := with_claim s "" "".

(** The updates [recordSuccess], [recordFailure] and [RecordSkipped] apply. *)
Definition success_state (now interval : Z) (s : SyncState) : SyncState :=
  let stamp := rfc3339_utc now in
  mkSyncState stamp stamp (rfc3339_utc (now + interval)) 0 None "" "".

Definition failure_state (now : Z) (cause message : string) (s : SyncState) : SyncState :=
  let stamp := rfc3339_utc now in
  let failures := wrap_int (ss_ConsecutiveFailures s + 1) in
  mkSyncState stamp (ss_LastSuccessAt s) (rfc3339_utc (now + backoffDelay failures)) failures
    (Some (mkSyncError cause message stamp)) "" "".

Definition skipped_state (now : Z) (s : SyncState) : SyncState :=
  mkSyncState (ss_LastAttemptAt s) (ss_LastSuccessAt s) (rfc3339_utc (now + skippedRetryDelay))
    (ss_ConsecutiveFailures s) (ss_LastError s) "" "".
End Schedule.

(** [RemoteUnset] is the empty string of a fresh [Facts]. *)
Inductive RemoteState :=
  RemoteUnset | RemoteChecked | RemoteNotChecked | RemoteUnreachable | RemoteNotConfigured | RemoteAutoSyncDisabled.
#[export] Instance RemoteState_eq_dec : EqDecision RemoteState.
Proof. solve_decision. Defined.

Definition remoteStateFromState (s : SyncState) : RemoteState :=
  match ss_LastError s with
  | Some e =>
      if bool_decide (se_Cause e = CauseConflict) then RemoteChecked else RemoteUnreachable
  | None => if empty_string (ss_LastSuccessAt s) then RemoteNotChecked else RemoteChecked
  end.

(** ** Superseded identities *)

(** The list [recordSuperseded] writes, over the one it read. *)
Definition superseded_list (old next : string) (recorded : list string) : list string :=
  let identities :=
    foldl (λ acc identity,
      if bool_decide (identity = next) || bool_decide (identity ∈ acc) then acc else acc ++ [identity])
      [] recorded in
  let identities := if bool_decide (old ∈ identities) then identities else identities ++ [old] in
  if bool_decide (maxSuperseded < length identities)
  then drop (length identities - maxSuperseded) identities else identities.

(** ** The transaction *)

(** [t_describe] is [Options.DescribeFailure]; [t_spawn] reports whether the
    background process started. *)
Record Transaction := mkTransaction {
  t_offline : bool;
  t_masterPass : bytes;
  t_spawn : option (string → bool);
  t_describe : option (goerror → string * string);
  t_claim : string;
}.

Definition describeFailure (t : Transaction) (err : goerror) : string * string :=
  let '(cause, message) :=
    match t_describe t with
    | Some describe =>
        let '(described, text) := describe err in
        if empty_string described then (CauseUnknown, "sync failed") else (described, text)
    | None => (CauseUnknown, "sync failed")
    end in
  let '(cause, message) :=
    if is_sentinel err errRemoteSuperseded then
      (CauseConflict, "remote vault is a version this machine already replaced (possible rollback); review, then pull --adopt-remote")
    else if is_sentinel err ErrConflict || is_sentinel err ErrEmptyLedgerDivergence then
      (CauseConflict, "local and remote vaults diverged")
    else if is_sentinel err ErrConfiguration then
      (CauseConfiguration, "sync configuration is invalid")
    else (cause, message) in
  (cause, truncateUTF8 message maxErrorMessageBytes).

Section Operations.
Context {S : Type} `{SyncEnv S, GoTime}.

(** [LoadSyncState] of what the file holds. *)
Definition state_of (d : Disk) : SyncState := default zero_state (doc_value (d_state d)).
Definition LoadSyncState : M S SyncState := read state_of.
Definition saveSyncState (s : SyncState) : M S bool := write (set_syncstate (Doc s)).

(** [withStateLock]; the result is whether the error is nil. *)
Definition withStateLock (fn : M S bool) : M S bool :=
  r ← acquire set_state_lock;
  match r with
  | Fail _ => mret false
  | Ok _ => ok ← fn; _ ← release set_state_lock; mret ok
  end.

Definition claimBackground (now : Z) : M S (option string) :=
  r ← acquire set_state_lock;
  match r with
  | Fail _ => mret None
  | Ok _ =>
      state ← LoadSyncState;
      claimed ←
        (if negb (due state now) then mret None
         else
           raw ← random;
           match raw with
           | None => mret None
           | Some raw =>
               let token := hex_encode raw in
               ok ← saveSyncState (with_claim state (rfc3339_utc (now + claimTTL)) token);
               mret (if (ok : bool) then Some token else None)
           end);
      _ ← release set_state_lock;
      mret claimed
  end.

Definition claimStillValid (t : Transaction) : M S bool :=
  if empty_string (t_claim t) then mret true
  else state ← LoadSyncState; mret (bool_decide (ss_ClaimToken state = t_claim t)).

Definition mutateState (t : Transaction) (fn : SyncState → SyncState) : M S () :=
  _ ← withStateLock
    (state ← LoadSyncState;
     if negb (empty_string (t_claim t)) && negb (bool_decide (ss_ClaimToken state = t_claim t))
     then mret true
     else saveSyncState (fn state));
  mret ().

Definition releaseClaim (t : Transaction) : M S () := mutateState t clear_claim.

Definition recordSuccess (t : Transaction) : M S () :=
  now ← clock;
  settings ← read (λ d, LoadSettings (d_settings d));
  mutateState t (success_state now (EffectiveSyncInterval ParseDuration settings)).

Definition recordFailure (t : Transaction) (err : goerror) : M S () :=
  now ← clock;
  let '(cause, message) := describeFailure t err in
  mutateState t (failure_state now cause message).

Definition RecordSkipped (t : Transaction) : M S () :=
  now ← clock;
  mutateState t (skipped_state now).

Definition recordSkippedNotConfigured (t : Transaction) : M S () := mutateState t clear_claim.

Definition recordOutcome (t : Transaction) (err : option goerror) : M S () :=
  if t_offline t then mret ()
  else
    match err with
    | None => recordSuccess t
    | Some e => if is_sentinel e ErrUnconfigured then mret () else recordFailure t e
    end.

(** [loadSuperseded] and [isSuperseded]. *)
Definition superseded_of (d : Disk) : list string := default [] (doc_value (d_superseded d)).
Definition loadSuperseded : M S (list string) := read superseded_of.
Definition is_superseded (identity : string) (d : Disk) : bool :=
  negb (empty_string identity) && bool_decide (identity ∈ superseded_of d).
Definition isSuperseded (identity : string) : M S bool :=
  if empty_string identity then mret false
  else recorded ← loadSuperseded; mret (bool_decide (identity ∈ recorded)).

Definition recordSuperseded (old next : string) : M S () :=
  if empty_string old || empty_string next || bool_decide (old = next) then mret ()
  else
    _ ← withStateLock
      (recorded ← loadSuperseded;
       write (set_superseded (Doc (superseded_list old next recorded))));
    mret ().

Definition clearSuperseded : M S () := 
  _ ← remove (λ d, doc_present (d_superseded d)) (set_superseded Missing); mret ().

(** ** The generation high-water mark *)

Definition record_generation (generation : Z) : M S () :=
  seen ← read d_generation;
  if bool_decide (generation ≤ MaxSeenGeneration seen)%Z then mret ()
  else
    n ← yield;
    held ← read d_generation;
    m ← yield;
    modify (on_disk (set_generation
      (RecordMaxSeenGeneration generation seen (is_ok (sy_lock n)) held (write_stores (sy_write m))))).

Definition set_max_generation (generation : Z) : M S () :=
  n ← yield;
  held ← read d_generation;
  m ← yield;
  modify (on_disk (set_generation
    (SetMaxSeenGeneration generation (is_ok (sy_lock n)) held (write_stores (sy_write m))))).

Definition reset_max_generation : M S () :=
  n ← yield;
  held ← read d_generation;
  m ← yield;
  modify (on_disk (set_generation
    (ResetMaxSeenGeneration (is_ok (sy_lock n)) held (write_stores (sy_write m))))).

(** ** [ResetSyncState] *)

(** The removal of the three files, under both locks. *)
Definition reset_files : M S (result ()) :=
  ok ← remove (λ d, doc_present (d_state d)) (set_syncstate Missing);
  if negb ok then mret (Fail (Wrap "reset sync state" []))
  else
    _ ← clearSuperseded;
    _ ← reset_max_generation;
    mret (Ok ()).

Definition ResetSyncState : M S (result ()) :=
  present ← read (λ d, doc_present (d_state d) || doc_present (d_superseded d)
                       || doc_present (d_generation d));
  if negb present then mret (Ok ())
  else
    r ← acquire set_vault_lock;
    match r with
    | Fail e => mret (Fail (Wrap "reset sync state" [e]))
    | Ok _ =>
        r ← acquire set_state_lock;
        out ← match r with
              | Fail e => mret (Fail (Wrap "reset sync state" [e]))
              | Ok _ => out ← reset_files; _ ← release set_state_lock; mret out
              end;
        _ ← release set_vault_lock;
        mret out
    end.
End Operations.
