(* ===== verification/SyncTransaction.v ===== *)
(** * Synchronization ([internal/synctransaction/transaction.go])

    Refreshing, pulling and adopting the remote vault, the background attempt, and
    the network half of a publication. Every pull downloads outside any lock, then
    takes the vault lock, reads local identity again and fails closed when both
    sides moved. *)

From S2P Require Import Prelude GoStrings GoErrors NamedList VaultBlob Config SyncProtocol Cloud PublishingIntent SyncWorld SyncSchedule.

(** The [Unset] states are the empty strings of a fresh [Facts]. *)
Inductive ConfigurationState :=
  ConfigurationUnset | ConfigurationOffline | ConfigurationUnconfigured | ConfigurationConfigured | ConfigurationInvalid.
#[export] Instance ConfigurationState_eq_dec : EqDecision ConfigurationState.
Proof. solve_decision. Defined.

Inductive Freshness := FreshnessUnset | FreshnessUnknown | FreshnessFresh | FreshnessCached | FreshnessLocalAhead.

Record BlobIdentity := mkIdentity { bi_Exists : bool; bi_Value : string }.
#[export] Instance BlobIdentity_eq_dec : EqDecision BlobIdentity.
Proof. solve_decision. Defined.

Definition no_identity : BlobIdentity := mkIdentity false "".

(** [BlobIdentity.equal] *)
Definition identity_equal (a b : BlobIdentity) : bool :=
  bool_decide (bi_Exists a = bi_Exists b)
  && (negb (bi_Exists a) || bool_decide (bi_Value a = bi_Value b)).

Record PreparedPublication := mkPrepared { pp_Prerequisite : BlobIdentity; pp_Target : string }.
Definition no_prepared : PreparedPublication := mkPrepared no_identity "".

Record Facts := mkFacts {
  fa_Configuration : ConfigurationState;
  fa_Offline : bool;
  fa_Freshness : Freshness;
  fa_Remote : RemoteState;
  fa_CacheAge : Z;
  fa_LastPull : string;
  fa_LastPush : string;
  fa_LastSync : string;
  fa_LocalETag : string;
  fa_RemoteETag : string;
  fa_Conflict : option SyncConflict;
  fa_Changed : bool;
  fa_LastSuccess : string;
  fa_NextAttempt : string;
  fa_LastError : option SyncError;
  fa_Stale : bool;
  fa_Unsynced : bool;
}.
Definition no_facts : Facts :=
  mkFacts ConfigurationUnset false FreshnessUnset RemoteUnset 0 "" "" "" "" "" None
    false "" "" None false false.

Definition set_Configuration (c : ConfigurationState) (f : Facts) : Facts :=
  mkFacts c (fa_Offline f) (fa_Freshness f) (fa_Remote f) (fa_CacheAge f) (fa_LastPull f) (fa_LastPush f)
    (fa_LastSync f) (fa_LocalETag f) (fa_RemoteETag f) (fa_Conflict f) (fa_Changed f) (fa_LastSuccess f)
    (fa_NextAttempt f) (fa_LastError f) (fa_Stale f) (fa_Unsynced f).
Definition set_Offline (o : bool) (f : Facts) : Facts :=
  mkFacts (fa_Configuration f) o (fa_Freshness f) (fa_Remote f) (fa_CacheAge f) (fa_LastPull f) (fa_LastPush f)
    (fa_LastSync f) (fa_LocalETag f) (fa_RemoteETag f) (fa_Conflict f) (fa_Changed f) (fa_LastSuccess f)
    (fa_NextAttempt f) (fa_LastError f) (fa_Stale f) (fa_Unsynced f).
Definition set_Freshness (x : Freshness) (f : Facts) : Facts :=
  mkFacts (fa_Configuration f) (fa_Offline f) x (fa_Remote f) (fa_CacheAge f) (fa_LastPull f) (fa_LastPush f)
    (fa_LastSync f) (fa_LocalETag f) (fa_RemoteETag f) (fa_Conflict f) (fa_Changed f) (fa_LastSuccess f)
    (fa_NextAttempt f) (fa_LastError f) (fa_Stale f) (fa_Unsynced f).
Definition set_Remote (r : RemoteState) (f : Facts) : Facts :=
  mkFacts (fa_Configuration f) (fa_Offline f) (fa_Freshness f) r (fa_CacheAge f) (fa_LastPull f) (fa_LastPush f)
    (fa_LastSync f) (fa_LocalETag f) (fa_RemoteETag f) (fa_Conflict f) (fa_Changed f) (fa_LastSuccess f)
    (fa_NextAttempt f) (fa_LastError f) (fa_Stale f) (fa_Unsynced f).
Definition set_Conflict (c : option SyncConflict) (f : Facts) : Facts :=
  mkFacts (fa_Configuration f) (fa_Offline f) (fa_Freshness f) (fa_Remote f) (fa_CacheAge f) (fa_LastPull f)
    (fa_LastPush f) (fa_LastSync f) (fa_LocalETag f) (fa_RemoteETag f) c (fa_Changed f) (fa_LastSuccess f)
    (fa_NextAttempt f) (fa_LastError f) (fa_Stale f) (fa_Unsynced f).
Definition set_Changed (c : bool) (f : Facts) : Facts :=
  mkFacts (fa_Configuration f) (fa_Offline f) (fa_Freshness f) (fa_Remote f) (fa_CacheAge f) (fa_LastPull f)
    (fa_LastPush f) (fa_LastSync f) (fa_LocalETag f) (fa_RemoteETag f) (fa_Conflict f) c (fa_LastSuccess f)
    (fa_NextAttempt f) (fa_LastError f) (fa_Stale f) (fa_Unsynced f).

Definition markOffline (f : Facts) : Facts :=
  let f := set_Remote RemoteNotChecked (set_Offline true (set_Configuration ConfigurationOffline f)) in
  match fa_Freshness f with FreshnessFresh => set_Freshness FreshnessCached f | _ => f end.

(** ** Divergence *)

Definition diverged (f : Facts) (remote : string) : bool :=
  negb (empty_string (fa_RemoteETag f)) && negb (empty_string remote)
  && negb (bool_decide (remote = fa_RemoteETag f))
  && negb (empty_string (fa_LocalETag f)) && negb (bool_decide (fa_LocalETag f = fa_RemoteETag f))
  && negb (bool_decide (fa_LocalETag f = remote)).

Definition divergedFor (mode : pullMode) (f : Facts) (remote : string) : bool :=
  if diverged f remote then true
  else
    bool_decide (mode = pullBackground) && empty_string (fa_RemoteETag f) && negb (empty_string remote)
    && negb (empty_string (fa_LocalETag f)) && negb (bool_decide (fa_LocalETag f = remote)).

(** The value of [SSM_SYNC_MODE], and whether [url.Parse] accepts a server address
    as an [http] or [https] URL with a host. *)
Class SyncHost := { sync_mode_env : string; url_usable : string → bool }.

Section Transaction.
Context {S : Type} `{SyncEnv S} `{service : !SyncService S}.
Context `{Sha256, Json, HttpClient, VaultCrypto, GoTime, SyncHost}.

(** The error of a result that carries [Facts] on both paths. *)
Definition outcome : Type := Facts * option goerror.

(** ** Local facts *)

Definition identity_of (d : Disk) : option string := hashBytes <$> file_content (d_vault d).
Definition cached_of (d : Disk) : string := match d_remote d with Some s => TrimSpace s | None => "" end.
Definition conflict_of (d : Disk) : option SyncConflict := doc_value (d_conflict d).

Definition localOpaqueIdentity : M S (option string) := read identity_of.
Definition cachedRemoteIdentity : M S string := read cached_of.
Definition loadConflict : M S (option SyncConflict) := read conflict_of.
Definition settings_of (d : Disk) : Settings := LoadSettings (d_settings d).

Definition preserveConflict (c : SyncConflict) : M S bool := write (set_conflict (Doc c)).
Definition clearConflict : M S bool := remove (λ d, doc_present (d_conflict d)) (set_conflict Missing).

Definition LocalFirst : M S bool :=
  s ← read settings_of; mret (bool_decide (EffectiveSyncMode sync_mode_env s = SyncModeLocalFirst)).

(** The newest confirmation and its age in seconds. *)
Definition cacheAge (s : Settings) (now : Z) (confirmations : list string) : string * Z :=
  let latest := foldl (λ (acc : string * Z) raw,
    match parse_rfc3339 raw with
    | Some t => if bool_decide (snd acc < t)%Z then (raw, t) else acc
    | None => acc
    end) ("", 0%Z) ([LastPull s; LastPush s] ++ confirmations) in
  if IsZero (snd latest) then ("", 0%Z)
  else (rfc3339_parsed (fst latest), (Z.max 0 (now - snd latest)%Z / second)%Z).

Definition localFacts : M S Facts :=
  s ← read settings_of;
  remote ← cachedRemoteIdentity;
  conflict ← loadConflict;
  now ← clock;
  let '(lastSync, age) := cacheAge s now [] in
  local ← localOpaqueIdentity;
  let freshness :=
    match local with
    | Some l =>
        if empty_string remote then FreshnessUnknown
        else if bool_decide (l = remote) then FreshnessFresh else FreshnessLocalAhead
    | None => FreshnessUnknown
    end in
  mret (mkFacts ConfigurationUnset false freshness RemoteUnset age (LastPull s) (LastPush s)
    lastSync (default "" local) remote conflict false "" "" None false false).

Definition identityFacts : M S Facts :=
  remote ← cachedRemoteIdentity;
  conflict ← loadConflict;
  local ← localOpaqueIdentity;
  mret (mkFacts ConfigurationUnset false FreshnessUnset RemoteUnset 0 "" "" ""
    (default "" local) remote conflict false "" "" None false false).

Definition usable_config (c : CloudConfig) : bool :=
  url_usable (TrimSpace (cc_Server c)) && negb (empty_string (TrimSpace (cc_Token c))).

(** The configuration, its state and the error. *)
Definition configuration (t : Transaction) : M S (option CloudConfig * ConfigurationState * option goerror) :=
  if t_offline t then mret (None, ConfigurationOffline, None)
  else
    d ← read d_cloud;
    mret
      match d with
      | Missing => (None, ConfigurationUnconfigured, None)
      | Unreadable => (None, ConfigurationInvalid, Some (Wrap "configuration cannot be read" [ErrConfiguration]))
      | Malformed => (None, ConfigurationInvalid, Some (Wrap "configuration cannot be parsed" [ErrConfiguration]))
      | Doc c =>
          if usable_config c then (Some c, ConfigurationConfigured, None)
          else (None, ConfigurationInvalid, Some (Wrap "required fields are invalid" [ErrConfiguration]))
      end.

(** ** Recording outcomes *)

Definition recordExplicitOutcome (t : Transaction) (err : option goerror) : M S () :=
  if t_offline t then mret ()
  else
    local_first ← LocalFirst;
    if (local_first : bool) then recordOutcome t err else mret ().

(** [commitSuccess]; [generation] is the generation given by the caller. *)
Definition commitSuccess (operation remoteIdentity : string) (generation : option Z) : M S () :=
  _ ← (if empty_string remoteIdentity then mret ()
       else
         cached ← cachedRemoteIdentity;
         _ ← recordSuperseded cached remoteIdentity;
         gen ← match generation with
               | Some g => mret (Some g)
               | None =>
                   f ← read d_vault;
                   mret match file_content f with
                        | Some data => let '(g, ok) := VaultGeneration data in if (ok : bool) then Some g else None
                        | None => None
                        end
               end;
         _ ← match gen with
             | Some g => if bool_decide (operation = "adopt") then set_max_generation g else record_generation g
             | None => mret ()
             end;
         ok ← write (set_remote (Some (remoteIdentity +:+ String (char 10) EmptyString)));
         log (λ w, EvIdentity remoteIdentity (lk_vault (w_locks w))));
  _ ← clearConflict;
  s ← read settings_of;
  now ← clock;
  let stamp := rfc3339_local now in
  let s := if bool_decide (operation = "pull" ∨ operation = "adopt")
    then mkSettings (AutoUpdate s) (AutoSync s) (UpdateRepo s) (LastPush s) stamp (SyncMode s) (SyncInterval s) (StaleAfter s)
    else if bool_decide (operation = "push")
    then mkSettings (AutoUpdate s) (AutoSync s) (UpdateRepo s) stamp (LastPull s) (SyncMode s) (SyncInterval s) (StaleAfter s)
    else s in
  _ ← write (set_settings (Doc (SaveSettings s)));
  mret ().

(** ** The vault lock of a pull *)

Definition publishingIntentPending : M S bool := read (λ d, doc_present (d_intent d)).

Definition lockVault (t : Transaction) (mode : pullMode) : M S (result ()) :=
  r ← acquire set_vault_lock;
  match r with
  | Fail e =>
      mret (Fail
        (if bool_decide (mode = pullBackground) then errBackgroundSkipped
         else if is_sentinel e ErrLockBusy then
           Wrap "vault is busy: another ssm process holds the vault write lock; retry" [ErrRefresh]
         else Wrap "vault write lock unavailable" [ErrRefresh; e]))
  | Ok _ =>
      if bool_decide (mode = pullBackground) then
        pending ← publishingIntentPending;
        valid ← (if (pending : bool) then mret false else claimStillValid t);
        if (valid : bool) then mret (Ok ())
        else _ ← release set_vault_lock; mret (Fail errBackgroundSkipped)
      else mret (Ok ())
  end.

Definition conflictError (f : Facts) (remote : string) : M S outcome :=
  now ← clock;
  let conflict := mkSyncConflict (rfc3339_utc now) (fa_LocalETag f) remote (fa_RemoteETag f) in
  ok ← preserveConflict conflict;
  mret (if negb ok then (f, Some (Wrap "conflict evidence could not be preserved" [ErrRefresh]))
        else (set_Conflict (Some conflict) f,
              Some (Wrap "local and remote opaque blobs diverged" [ErrConflict]))).

Definition supersededError (f : Facts) (remote : string) : M S outcome :=
  '(result, err) ← conflictError f remote;
  mret (result, match err with
                | Some e => Some (if is_sentinel e ErrConflict then errRemoteSuperseded else e)
                | None => None
                end).

(** ** Installing a download *)

(** A write of the vault file, logged when the new content is in place. *)
Definition replace_vault (e : Disk → event) (data : bytes) : M S bool :=
  n ← yield;
  _ ← (if write_stores (sy_write n)
       then _ ← log (λ w, e (w_disk w)); modify (on_disk (set_vault (Content data)))
       else mret ());
  mret (write_succeeds (sy_write n)).

(** Keeping the previous vault: [None] when that succeeded. *)
Definition preserve_previous : M S (option goerror) :=
  f ← read d_vault;
  let failed := Some (Wrap "remote refresh did not commit: preserve previous vault" [ErrRefresh]) in
  match f with
  | Absent => mret None
  | NoAccess => mret (Some (Wrap "remote refresh did not commit: inspect previous vault" [ErrRefresh]))
  | _ =>
      f ← read d_vault;
      match file_content f with
      | None => mret failed
      | Some previous =>
          ok ← write (set_prev (Content previous));
          mret (if (ok : bool) then None else failed)
      end
  end.

Definition older_generation (data : bytes) (seen : doc Z) : bool :=
  let '(generation, ok) := VaultGeneration data in
  ok && bool_decide (generation < MaxSeenGeneration seen)%Z.

(** The writes of [installFetched]. *)
Definition install (f : Facts) (data : bytes) (etag : string) (mode : pullMode) : M S outcome :=
  failed ← preserve_previous;
  match failed with
  | Some e => mret (f, Some e)
  | None =>
      ok ← replace_vault (λ d, EvInstall mode (fa_Conflict f) d data etag) data;
      if negb ok then mret (f, Some (Wrap "remote refresh did not commit" [ErrRefresh]))
      else
        _ ← log (λ _, EvInvalidate);
        _ ← commitSuccess (if bool_decide (mode = pullAdopt) then "adopt" else "pull") etag
              (Some (fst (VaultGeneration data)));
        facts ← localFacts;
        mret (set_Remote RemoteChecked (set_Changed true (set_Configuration ConfigurationConfigured facts)), None)
  end.

Definition install_locked (t : Transaction) (data : bytes) (etag : string) (mode : pullMode) : M S outcome :=
  f ← identityFacts;
  let f := set_Configuration ConfigurationConfigured f in
  if negb (ValidVaultBlob data) then
    mret (f, Some (Wrap "downloaded vault has an invalid format and was not installed" [ErrRefresh]))
  else
    older ← (if bool_decide (mode = pullAdopt) then mret false
             else seen ← read d_generation; mret (older_generation data seen));
    if (older : bool) then supersededError f etag
    else if negb (bool_decide (mode = pullBackground)) && negb (bool_decide (t_masterPass t = []))
            && negb (is_ok (Decrypt data (t_masterPass t))) then
      mret (f, Some (Wrap "downloaded vault could not be authenticated and was not installed" [ErrRefresh]))
    else if bool_decide (mode = pullAdopt) then
      match fa_Conflict f with
      | Some c =>
          if bool_decide (fa_LocalETag f = sc_LocalETag c) then install f data etag mode
          else mret (f, Some (Wrap "local vault changed after the conflict was recorded" [ErrConflict]))
      | None => mret (f, Some (Wrap "local vault changed after the conflict was recorded" [ErrConflict]))
      end
    else
      superseded ← isSuperseded etag;
      if (superseded : bool) then supersededError f etag
      else if divergedFor mode f etag then conflictError f etag
      else install f data etag mode.

Definition installFetched (t : Transaction) (data : bytes) (etag : string) (mode : pullMode) : M S outcome :=
  r ← lockVault t mode;
  match r with
  | Fail e => mret (no_facts, Some e)
  | Ok _ => out ← install_locked t data etag mode; _ ← release set_vault_lock; mret out
  end.

(** ** Deciding on an observed remote identity *)

(** A decision taken under the vault lock: the current facts, with the caller's
    configuration state. *)
Definition under_lock (t : Transaction) (f : Facts) (mode : pullMode)
    (decide_ : Facts → M S (option outcome)) : M S (option outcome) :=
  r ← lockVault t mode;
  match r with
  | Fail e => mret (Some (f, Some e))
  | Ok _ =>
      current ← identityFacts;
      out ← decide_ (set_Configuration (fa_Configuration f) current);
      _ ← release set_vault_lock;
      mret out
  end.

Definition fetch_failed (f : Facts) (e : goerror) : outcome :=
  (f, Some (Wrap "remote refresh did not commit" [ErrRefresh; e])).

(** The second half of [applyRemoteIdentity]: divergence is decided before the
    download, when there was none yet. *)
Definition apply_decided (t : Transaction) (cfg : CloudConfig) (f : Facts) (remote : string)
    (mode : pullMode) (fetched : option (bytes * string)) : M S outcome :=
  old ← (if bool_decide (mode = pullAdopt) then mret false else isSuperseded remote);
  refused ←
    (if (old : bool) || divergedFor mode f remote then
       under_lock t f mode (λ current,
         old ← (if bool_decide (mode = pullAdopt) then mret false else isSuperseded remote);
         if (old : bool) then out ← supersededError current remote; mret (Some out)
         else if divergedFor mode current remote then out ← conflictError current remote; mret (Some out)
         else mret None)
     else mret None);
  match refused with
  | Some out => mret out
  | None =>
      got ← match fetched with
            | Some x => mret (Ok x)
            | None => net GET [] (λ d s, Fetch d s (Some cfg))
            end;
      match got with
      | Fail e => mret (fetch_failed f e)
      | Ok (data, etag) => installFetched t data etag mode
      end
  end.

Definition applyRemoteIdentity (t : Transaction) (cfg : CloudConfig) (facts : Facts) (remote : string)
    (forcePull : bool) (mode : pullMode) : M S outcome :=
  let f := set_Remote RemoteChecked facts in
  if negb forcePull && negb (empty_string remote) && bool_decide (remote = fa_RemoteETag f)
  then mret (f, None)
  else
    seen ← (if bool_decide (mode = pullAdopt) then mret Missing else read d_generation);
    if bool_decide (0 < MaxSeenGeneration seen)%Z then
      got ← net GET [] (λ d s, Fetch d s (Some cfg));
      match got with
      | Fail e => mret (fetch_failed f e)
      | Ok (data, etag) =>
          seen ← read d_generation;
          if older_generation data seen then
            out ← under_lock t f mode (λ current,
              out ← supersededError current etag; mret (Some out));
            mret (default (f, None) out)
          else apply_decided t cfg f etag mode (Some (data, etag))
      end
    else apply_decided t cfg f remote mode None.

Definition refreshConfigured (t : Transaction) (cfg : CloudConfig) (f : Facts) (forcePull : bool) : M S outcome :=
  remote ← net HEAD [] (λ d s, RemoteETag d s (Some cfg));
  match remote with
  | Fail e => mret (fetch_failed f e)
  | Ok remote => applyRemoteIdentity t cfg f remote forcePull pullRefresh
  end.

(** ** Inventory reads *)

Definition stale (f : Facts) (s : Settings) : bool :=
  negb (empty_string (fa_LastSync f))
  && bool_decide (EffectiveStaleAfter ParseDuration s < fa_CacheAge f * second)%Z.

Definition decorateLocalFirst (f : Facts) (s : Settings) (state : SyncState) : M S Facts :=
  now ← clock;
  let '(lastSync, age) := cacheAge s now [ss_LastSuccessAt state] in
  let f := mkFacts (fa_Configuration f) (fa_Offline f) (fa_Freshness f) (remoteStateFromState state) age
    (fa_LastPull f) (fa_LastPush f) lastSync (fa_LocalETag f) (fa_RemoteETag f) (fa_Conflict f)
    (fa_Changed f) (ss_LastSuccessAt state) (ss_NextAttemptAt state) (ss_LastError state)
    (fa_Stale f) (empty_string lastSync) in
  mret (mkFacts (fa_Configuration f) (fa_Offline f) (fa_Freshness f) (fa_Remote f) (fa_CacheAge f)
    (fa_LastPull f) (fa_LastPush f) (fa_LastSync f) (fa_LocalETag f) (fa_RemoteETag f) (fa_Conflict f)
    (fa_Changed f) (fa_LastSuccess f) (fa_NextAttempt f) (fa_LastError f) (stale f s) (fa_Unsynced f)).

Definition refreshLocalFirst (t : Transaction) (f : Facts) (s : Settings) : M S Facts :=
  now ← clock;
  state ← LoadSyncState;
  match t_spawn t with
  | Some spawn =>
      if due state now then
        claim ← claimBackground now;
        _ ← match claim with
            | Some token =>
                _ ← log (λ _, EvSpawn token);
                if spawn token then mret () else releaseClaim t
            | None => mret ()
            end;
        state ← LoadSyncState;
        decorateLocalFirst f s state
      else decorateLocalFirst f s state
  | None => decorateLocalFirst f s state
  end.

Definition with_configuration (t : Transaction) (state : ConfigurationState) (f : Facts) : Facts :=
  set_Offline (t_offline t) (set_Configuration state f).

Definition refresh (t : Transaction) (explicit : bool) : M S outcome :=
  f ← localFacts;
  '(cfg, state, err) ← configuration t;
  let f := with_configuration t state f in
  match err, state, cfg with
  | Some e, _, _ => mret (f, Some e)
  | None, ConfigurationOffline, _ => mret (markOffline f, None)
  | None, ConfigurationUnconfigured, _ =>
      mret (set_Remote RemoteNotConfigured f, if explicit then Some ErrUnconfigured else None)
  | None, _, Some cfg =>
      s ← read settings_of;
      if negb explicit && negb (AutoSync s) then mret (set_Remote RemoteAutoSyncDisabled f, None)
      else if negb explicit && bool_decide (EffectiveSyncMode sync_mode_env s = SyncModeLocalFirst) then
        f ← refreshLocalFirst t f s; mret (f, None)
      else refreshConfigured t cfg f false
  | None, _, None => mret (f, None)
  end.

Definition Refresh (t : Transaction) : M S outcome := refresh t false.

(** An explicit operation records its outcome. *)
Definition explicitly (t : Transaction) (m : M S outcome) : M S outcome :=
  out ← m; _ ← recordExplicitOutcome t (snd out); mret out.

Definition Sync (t : Transaction) : M S outcome := explicitly t (refresh t true).

Definition pull (t : Transaction) : M S outcome :=
  f ← localFacts;
  '(cfg, state, err) ← configuration t;
  let f := with_configuration t state f in
  match err, state, cfg with
  | Some e, _, _ => mret (f, Some e)
  | None, ConfigurationOffline, _ => mret (markOffline f, Some ErrUnconfigured)
  | None, ConfigurationUnconfigured, _ => mret (set_Remote RemoteNotConfigured f, Some ErrUnconfigured)
  | None, _, Some cfg => refreshConfigured t cfg f true
  | None, _, None => mret (f, None)
  end.

Definition Pull (t : Transaction) : M S outcome := explicitly t (pull t).

(** ** The background attempt *)

Definition BackgroundSync (t : Transaction) (claim : string) : M S (option goerror) :=
  if t_offline t then mret None
  else
    let t := mkTransaction (t_offline t) (t_masterPass t) (t_spawn t) (t_describe t) claim in
    valid ← claimStillValid t;
    if negb valid then mret None
    else
      '(cfg, state, err) ← configuration t;
      match err with
      | Some e => _ ← recordFailure t e; mret (Some e)
      | None =>
          s ← read settings_of;
          match cfg with
          | Some cfg =>
              if negb (AutoSync s) then _ ← recordSkippedNotConfigured t; mret None
              else
                remote ← net HEAD [] (λ d s, RemoteETag d s (Some cfg));
                match remote with
                | Fail e =>
                    let e := Wrap "remote refresh did not commit" [ErrRefresh; e] in
                    _ ← recordFailure t e; mret (Some e)
                | Ok remote =>
                    f ← localFacts;
                    out ← applyRemoteIdentity t cfg (set_Configuration state f) remote false pullBackground;
                    match snd out with
                    | Some e =>
                        if is_sentinel e errBackgroundSkipped then _ ← RecordSkipped t; mret None
                        else _ ← recordFailure t e; mret (Some e)
                    | None => _ ← recordSuccess t; mret None
                    end
                end
          | None => _ ← recordSkippedNotConfigured t; mret None
          end
      end.

(** ** Observing the remote identity *)

Definition identity_of_remote (r : RemoteBlobIdentity) : BlobIdentity := mkIdentity (ri_Exists r) (ri_Value r).
Definition unsupported (i : BlobIdentity) : bool := bi_Exists i && negb (publicationIdentityPattern (bi_Value i)).

Definition CachedPublicationPrerequisite : M S (result BlobIdentity) :=
  cached ← cachedRemoteIdentity;
  mret
    (if negb (empty_string cached) && negb (publicationIdentityPattern cached)
     then Fail (Wrap "cached remote identity is unsupported" [ErrRefresh])
     else Ok (mkIdentity (negb (empty_string cached)) cached)).

Definition ObservePublicationIdentity (t : Transaction) : M S (result BlobIdentity) :=
  '(cfg, state, err) ← configuration t;
  match err, cfg with
  | Some e, _ => mret (Fail e)
  | None, None => mret (Fail ErrUnconfigured)
  | None, Some cfg =>
      remote ← net HEAD [] (λ d s, InspectRemoteBlob d s (Some cfg));
      match remote with
      | Fail e => mret (Fail (Wrap "remote publication identity was not read" [ErrRefresh; e]))
      | Ok r =>
          _ ← log (λ _, EvRemote (ri_Exists r) (ri_Value r));
          mret (if unsupported (identity_of_remote r)
                then Fail (Wrap "remote identity is unsupported" [ErrRefresh])
                else Ok (identity_of_remote r))
      end
  end.

Definition RemoteIdentity (t : Transaction) : M S (result string) :=
  '(cfg, state, err) ← configuration t;
  match err, cfg with
  | Some e, _ => mret (Fail e)
  | None, None => mret (Fail ErrUnconfigured)
  | None, Some cfg =>
      remote ← net HEAD [] (λ d s, RemoteETag d s (Some cfg));
      mret match remote with
           | Fail e => Fail (Wrap "remote identity was not read" [ErrRefresh; e])
           | Ok etag => Ok etag
           end
  end.

Definition value_of (i : BlobIdentity) : string := if bi_Exists i then bi_Value i else "".

Definition VerifyEmptyPublication (t : Transaction) : M S (option goerror) :=
  local ← localOpaqueIdentity;
  match local with
  | None => mret (Some (Wrap "local encrypted blob identity was not read" [ErrRefresh]))
  | Some local =>
      cached ← CachedPublicationPrerequisite;
      match cached with
      | Fail e => mret (Some e)
      | Ok cached =>
          remote ← ObservePublicationIdentity t;
          match remote with
          | Fail e => mret (Some e)
          | Ok remote =>
              if bi_Exists cached && bi_Exists remote && bool_decide (local = bi_Value cached)
                 && bool_decide (local = bi_Value remote) then mret None
              else
                now ← clock;
                ok ← preserveConflict
                  (mkSyncConflict (rfc3339_utc now) local (value_of remote) (value_of cached));
                mret (Some
                  (if negb ok then Wrap "empty-ledger conflict evidence could not be preserved" [ErrRefresh]
                   else Wrap "local, cached, and remote encrypted blob identities are not identical"
                          [ErrEmptyLedgerDivergence]))
          end
      end
  end.

(** ** Reviewed adoption *)

(** The download of [AdoptRemote] and its installation. *)
Definition adopt_fetched (t : Transaction) (cfg : CloudConfig) (f : Facts) (expected : string) : M S outcome :=
  got ← net GET [] (λ d s, FetchExpected d s (Some cfg) expected);
  match got with
  | Fail _ => mret (f, Some (Wrap "reviewed remote identity changed during pull" [ErrConflict]))
  | Ok (data, committed) => installFetched t data committed pullAdopt
  end.

Definition AdoptRemote (t : Transaction) (expected : BlobIdentity) : M S outcome :=
  f ← localFacts;
  '(cfg, state, err) ← configuration t;
  let f := with_configuration t state f in
  match err with
  | Some e => mret (f, Some e)
  | None =>
      match cfg with
      | Some cfg =>
          if negb (bi_Exists expected) || negb (publicationIdentityPattern (bi_Value expected)) then
            mret (f, Some (Wrap "reviewed remote identity is invalid" [ErrConflict]))
          else
            conflict ← loadConflict;
            if negb (bool_decide (sc_RemoteETag <$> conflict = Some (bi_Value expected))) then
              mret (f, Some (Wrap "reviewed remote identity does not match preserved evidence" [ErrConflict]))
            else
              observed ← ObservePublicationIdentity t;
              match observed with
              | Fail _ => mret (f, Some (Wrap "reviewed remote identity was not confirmed" [ErrConflict]))
              | Ok observed =>
                  if negb (identity_equal observed expected) then
                    mret (f, Some (Wrap "reviewed remote identity changed" [ErrConflict]))
                  else adopt_fetched t cfg f (bi_Value expected)
              end
      | None => mret (f, Some (Wrap "reviewed remote identity is invalid" [ErrConflict]))
      end
  end.

(** ** Publication *)

Definition prepare (t : Transaction) (blob : bytes) : M S (result PreparedPublication) :=
  f ← localFacts;
  '(cfg, state, err) ← configuration t;
  match err, cfg with
  | Some e, _ => mret (Fail e)
  | None, None => mret (Fail ErrUnconfigured)
  | None, Some cfg =>
      let target := hashBytes blob in
      remote ← net HEAD [] (λ d s, InspectRemoteBlob d s (Some cfg));
      match remote with
      | Fail e => mret (Fail (Wrap "remote push preflight did not complete" [ErrRefresh; e]))
      | Ok remote =>
          let prerequisite := identity_of_remote remote in
          if unsupported prerequisite then
            mret (Fail (Wrap "remote identity is unsupported" [ErrRefresh]))
          else if negb (empty_string (fa_RemoteETag f)) && negb (publicationIdentityPattern (fa_RemoteETag f)) then
            mret (Fail (Wrap "cached remote identity is unsupported" [ErrRefresh]))
          else if negb (empty_string (fa_RemoteETag f)) then
            if negb (bi_Exists prerequisite) then
              mret (Fail (Wrap "remote push prerequisite disappeared" [ErrRefresh]))
            else if negb (bool_decide (bi_Value prerequisite = fa_RemoteETag f)) then
              now ← clock;
              ok ← preserveConflict
                (mkSyncConflict (rfc3339_utc now) target (bi_Value prerequisite) (fa_RemoteETag f));
              mret (Fail (if negb ok then Wrap "conflict evidence could not be preserved" [ErrRefresh]
                          else Wrap "local and remote opaque blobs diverged" [ErrConflict]))
            else mret (Ok (mkPrepared prerequisite target))
          else if bi_Exists prerequisite then
            mret (Fail (Wrap "remote publication exists but cached identity is missing; sync or pull before pushing" [ErrRefresh]))
          else mret (Ok (mkPrepared prerequisite target))
      end
  end.

Definition PreparePublication (t : Transaction) (blob : bytes) : M S (result PreparedPublication) :=
  r ← prepare t blob;
  _ ← match r with
      | Fail e => if is_sentinel e ErrUnconfigured then mret () else recordExplicitOutcome t (Some e)
      | Ok _ => mret ()
      end;
  mret r.

Definition preservePublicationConflict (prepared : PreparedPublication) (remote : BlobIdentity) : M S () :=
  now ← clock;
  _ ← preserveConflict (mkSyncConflict (rfc3339_utc now) (pp_Target prepared) (value_of remote)
    (value_of (pp_Prerequisite prepared)));
  mret ().

(** The returned identity, and the error. *)
Definition sent : Type := BlobIdentity * option goerror.

Definition push_request (cfg : CloudConfig) (blob : bytes) (prerequisite : BlobIdentity) :
    M S (result (string * bool)) :=
  net PUT blob (λ d s, PushBlobObserved d s (Some cfg) blob
    (mkRemoteIdentity (bi_Exists prerequisite) (bi_Value prerequisite))).

(** What [SendPublication] does with a failed push; [current] is the identity it
    observed before. *)
Definition push_failed (t : Transaction) (prepared : PreparedPublication) (current : BlobIdentity)
    (e : goerror) : M S sent :=
  if PushFailureIsConflict e then
    observed ← ObservePublicationIdentity t;
    let remote := match observed with Ok r => r | Fail _ => current end in
    _ ← preservePublicationConflict prepared remote;
    mret (remote, Some (Wrap "remote publication precondition failed" [ErrConflict]))
  else
    mret (no_identity, Some
      (if PushFailureIsExplicit e then Wrap "" [ErrPushRejected; e]
       else if PushFailureIsAmbiguous e then Wrap "" [ErrPushAmbiguous; e]
       else Wrap "" [ErrPushNotSent; e])).

(** The identity the service committed to: the one in its answer when it is
    usable, or else another observation. *)
Definition committed_identity (t : Transaction) (identity : string) (observed : bool) :
    M S (result BlobIdentity) :=
  if negb observed || negb (publicationIdentityPattern identity) then
    r ← ObservePublicationIdentity t;
    mret match r with
         | Ok i => Ok i
         | Fail _ => Fail (Wrap "response identity could not be reconciled" [ErrPushAmbiguous])
         end
  else
    _ ← log (λ _, EvRemote true identity);
    mret (Ok (mkIdentity true identity)).

Definition send (t : Transaction) (blob : bytes) (prepared : PreparedPublication) : M S sent :=
  if negb (bool_decide (hashBytes blob = pp_Target prepared)) then
    mret (no_identity, Some (Wrap "prepared target identity changed" [ErrPushNotSent]))
  else
    observed ← ObservePublicationIdentity t;
    match observed with
    | Fail e => mret (no_identity, Some (Wrap "" [ErrPushNotSent; e]))
    | Ok current =>
        let target := mkIdentity true (pp_Target prepared) in
        if identity_equal current target then mret (current, None)
        else if negb (identity_equal current (pp_Prerequisite prepared)) then
          _ ← preservePublicationConflict prepared current;
          mret (current, Some (Wrap "remote publication identity diverged" [ErrConflict]))
        else
          '(cfg, state, err) ← configuration t;
          match err, cfg with
          | Some e, _ => mret (no_identity, Some (Wrap "" [ErrPushNotSent]))
          | None, None => mret (no_identity, Some (Wrap "" [ErrPushNotSent]))
          | None, Some cfg =>
              pushed ← push_request cfg blob (pp_Prerequisite prepared);
              match pushed with
              | Fail e => push_failed t prepared current e
              | Ok (identity, observed) =>
                  committed ← committed_identity t identity observed;
                  match committed with
                  | Fail e => mret (no_identity, Some e)
                  | Ok committed =>
                      if identity_equal committed target then mret (committed, None)
                      else
                        _ ← preservePublicationConflict prepared committed;
                        mret (committed, Some (Wrap "remote publication identity diverged" [ErrConflict]))
                  end
              end
          end
    end.

Definition SendPublication (t : Transaction) (blob : bytes) (prepared : PreparedPublication) : M S sent :=
  r ← send t blob prepared;
  _ ← (if bool_decide (is_Some (snd r)) then recordExplicitOutcome t (snd r) else mret ());
  mret r.

Definition ConfirmPublication (t : Transaction) (target : string) : M S () :=
  _ ← commitSuccess "push" target None;
  recordExplicitOutcome t None.

(** ** Reporting *)

Definition InspectLocal (t : Transaction) : M S outcome :=
  f ← localFacts;
  '(_, state, err) ← configuration t;
  let f := set_Remote RemoteNotChecked (with_configuration t state f) in
  mret (match state with
        | ConfigurationOffline => markOffline f
        | ConfigurationUnconfigured => set_Remote RemoteNotConfigured f
        | _ => f
        end, err).

Definition report_facts (t : Transaction) : M S Facts :=
  f ← localFacts;
  '(_, state, _) ← configuration t;
  let f := with_configuration t state f in
  match state with
  | ConfigurationOffline => mret (markOffline f)
  | ConfigurationUnconfigured => mret (set_Remote RemoteNotConfigured f)
  | ConfigurationInvalid => mret (set_Remote RemoteNotChecked f)
  | ConfigurationUnset => mret f
  | ConfigurationConfigured =>
      s ← read settings_of;
      let local_first := bool_decide (EffectiveSyncMode sync_mode_env s = SyncModeLocalFirst) in
      if (local_first : bool) then
        state ← LoadSyncState;
        f ← decorateLocalFirst (if AutoSync s then f else set_Remote RemoteAutoSyncDisabled f) s state;
        mret (if AutoSync s then f else set_Remote RemoteAutoSyncDisabled f)
      else mret (set_Remote (if AutoSync s then RemoteChecked else RemoteAutoSyncDisabled) f)
  end.

(** ** Streams *)

Definition ErrStreamRefresh : goerror := Sentinel "synctransaction.ErrStreamRefresh" [].
Definition errStreamNotInitialized : goerror := Sentinel "synctransaction.errStreamNotInitialized" [].

(** [st_baseline] is [None] until it is set. *)
Record Stream := mkStream {
  st_interval : Z;
  st_nextRefresh : Z;
  st_initialized : bool;
  st_baseline : option string;
}.

Definition BeginStream (t : Transaction) (interval : Z) : result Stream :=
  if bool_decide (interval < 0)%Z || (negb (t_offline t) && bool_decide (interval = 0%Z))
  then Fail ErrStreamRefresh else Ok (mkStream interval 0 false None).

Definition stream_refresh (t : Transaction) (st : Stream) : M S (Stream * outcome) :=
  '(f, err) ← Refresh t;
  match err with
  | Some e => mret (st, (f, Some e))
  | None =>
      local_first ← LocalFirst;
      local ← (if (local_first : bool) then localOpaqueIdentity else mret None);
      let moved := match local, st_baseline st with
                   | Some l, Some b => negb (bool_decide (l = b)) && negb (fa_Changed f)
                   | _, _ => false
                   end in
      _ ← (if (moved : bool) then log (λ _, EvInvalidate) else mret ());
      now ← clock;
      mret (mkStream (st_interval st) (now + st_interval st) (st_initialized st)
              (match local with Some l => Some l | None => st_baseline st end),
            ((if moved then set_Changed true f else f), None))
  end.

Definition Initialize (t : Transaction) (st : Stream) : M S (Stream * outcome) :=
  if st_initialized st then mret (st, (no_facts, Some errStreamNotInitialized))
  else
    let st := mkStream (st_interval st) (st_nextRefresh st) true (st_baseline st) in
    if t_offline t then
      mret (st, (mkFacts ConfigurationOffline true FreshnessCached RemoteNotChecked 0 "" "" "" "" "" None
                   false "" "" None false false, None))
    else stream_refresh t st.

Definition BeforeLine (t : Transaction) (st : Stream) : M S (Stream * outcome) :=
  if negb (st_initialized st) then mret (st, (no_facts, Some errStreamNotInitialized))
  else if t_offline t then mret (st, (no_facts, None))
  else
    now ← clock;
    if bool_decide (now < st_nextRefresh st)%Z then mret (st, (no_facts, None))
    else stream_refresh t st.
End Transaction.
