(* ===== verification/SyncLogic.v ===== *)
(** * A program logic for the synchronizing process

    [spec E P m Q]: run where [P] holds of the disk, the locks and the log, [m]
    ends where [Q] holds of its result and of them, and everything it logs
    satisfies [E] after what was logged before. Assertions must survive what other
    processes do ([stable]); facts about the files the vault lock protects do while
    it is held, and facts about what was logged always do. *)

From S2P Require Import Prelude GoStrings GoErrors NamedList Config SyncProtocol Cloud PublishingIntent SyncWorld SyncSchedule SyncTransaction.

Definition assertion : Type := Disk → locks → list event → Prop.

(** Preserved by whatever the other processes do, and by logging more. *)
Class Stable (P : assertion) : Prop := {
  stable d d' l h : P d l h → P (protect l d d') l h;
  stable_log d l h e : P d l h → P d l (h ++ [e]);
}.

(** The files the vault lock protects. *)
Record guarded := mkGuarded {
  g_vault : file;
  g_prev : file;
  g_remote : option string;
  g_superseded : doc (list string);
  g_generation : doc Z;
}.
Definition guarded_of (d : Disk) : guarded :=
  mkGuarded (d_vault d) (d_prev d) (d_remote d) (d_superseded d) (d_generation d).

(** The vault lock is held and the files it protects satisfy [G]. *)
Definition holding (G : guarded → Prop) : assertion := λ d l _, lk_vault l = true ∧ G (guarded_of d).
(** The vault lock is held, or not. *)
Definition locked (b : bool) : assertion := λ _ l _, lk_vault l = b.
(** An event was logged. *)
Definition logged (e : event) : assertion := λ _ _ h, e ∈ h.
Definition both (P Q : assertion) : assertion := λ d l h, P d l h ∧ Q d l h.

#[export] Instance locked_stable b : Stable (locked b).
Proof. by split. Qed.
#[export] Instance holding_stable G : Stable (holding G).
Proof.
  split; [|done]. intros d d' l h [Hl Hg]. split; [done|]. unfold guarded_of, protect in *. by rewrite Hl.
Qed.
#[export] Instance logged_stable e : Stable (logged e).
Proof. split; unfold logged; set_solver. Qed.
#[export] Instance both_stable P Q : Stable P → Stable Q → Stable (both P Q).
Proof.
  intros HP HQ. split.
  - intros d d' l h [? ?]. split; by apply stable.
  - intros d l h e [? ?]. split; by apply stable_log.
Qed.

(** Events that satisfy [E] after those before them. *)
Fixpoint emits (E : list event → event → Prop) (h evs : list event) : Prop :=
  match evs with
  | [] => True
  | e :: evs' => E h e ∧ emits E (h ++ [e]) evs'
  end.

Lemma emits_app E h e1 e2 : emits E h (e1 ++ e2) ↔ emits E h e1 ∧ emits E (h ++ e1) e2.
Proof.
  revert h. induction e1 as [|e e1 IH]; intros h; simpl; [by rewrite app_nil_r; tauto|].
  rewrite IH, <- app_assoc. simpl. tauto.
Qed.

Lemma emits_elem E h evs e :
  emits E h evs → e ∈ evs → ∃ pre post, evs = pre ++ e :: post ∧ E (h ++ pre) e.
Proof.
  intros He (pre & post & ->)%list_elem_of_split. exists pre, post. split; [done|].
  apply emits_app in He as [_ [He _]]. done.
Qed.

Section Logic.
Context {S : Type} `{SyncEnv S} (E : list event → event → Prop).

Definition spec {A} (P : assertion) (m : M S A) (Q : A → assertion) : Prop :=
  ∀ w, P (w_disk w) (w_locks w) (w_log w) →
    let '(a, w') := m w in
    Q a (w_disk w') (w_locks w') (w_log w') ∧
    ∃ evs, w_log w' = w_log w ++ evs ∧ emits E (w_log w) evs.

(** [m] keeps [P]. *)
Definition keeps {A} (P : assertion) (m : M S A) : Prop := spec P m (λ _, P).

Lemma spec_ret {A} (P : assertion) (a : A) (Q : A → assertion) :
  (∀ d l h, P d l h → Q a d l h) → spec P (mret a) Q.
Proof. intros HQ w HP. split; [by apply HQ|]. exists []. by rewrite app_nil_r. Qed.

Lemma spec_bind {A B} P (m : M S A) (f : A → M S B) (R : A → assertion) Q :
  spec P m R → (∀ a, spec (R a) (f a) Q) → spec P (m ≫= f) Q.
Proof.
  intros Hm Hf w HP. specialize (Hm w HP). unfold mbind, M_bind. destruct (m w) as [a w1].
  destruct Hm as [HR (e1 & Hl1 & He1)]. specialize (Hf a w1 HR). destruct (f a w1) as [b w2].
  destruct Hf as [HQ (e2 & Hl2 & He2)]. split; [done|]. exists (e1 ++ e2). split.
  - by rewrite Hl2, Hl1, app_assoc.
  - apply emits_app. split; [done|]. by rewrite <- Hl1.
Qed.

Lemma spec_conseq {A} (P P' : assertion) (m : M S A) (Q Q' : A → assertion) :
  (∀ d l h, P d l h → P' d l h) → (∀ a d l h, Q' a d l h → Q a d l h) → spec P' m Q' → spec P m Q.
Proof.
  intros HP HQ Hm w Hw. specialize (Hm w (HP _ _ _ Hw)). destruct (m w) as [a w'].
  destruct Hm as [? ?]. auto.
Qed.

Lemma spec_pre {A} (P P' : assertion) (m : M S A) (Q : A → assertion) :
  (∀ d l h, P d l h → P' d l h) → spec P' m Q → spec P m Q.
Proof. intros. eapply spec_conseq; eauto. Qed.

(** What holds for every disk and lock state is an argument. *)
Lemma spec_exists {A X} (P : X → assertion) (m : M S A) Q :
  (∀ x, spec (P x) m Q) → spec (λ d l h, ∃ x, P x d l h) m Q.
Proof. intros Hx w [x Hw]. by apply (Hx x). Qed.

Lemma spec_pure {A} (φ : Prop) (P : assertion) (m : M S A) Q :
  (φ → spec P m Q) → spec (λ d l h, φ ∧ P d l h) m Q.
Proof. intros Hx w [Hφ Hw]. by apply Hx. Qed.

Lemma keeps_bind {A B} P (m : M S A) (f : A → M S B) :
  keeps P m → (∀ a, keeps P (f a)) → keeps P (m ≫= f).
Proof. intros Hm Hf. by eapply spec_bind. Qed.

Lemma keeps_ret {A} P (a : A) : keeps P (mret a).
Proof. by apply spec_ret. Qed.

(** ** Operations *)

Lemma keeps_yield P : Stable P → keeps P yield.
Proof. intros HP w Hw. split; [by apply stable|]. exists []. by rewrite app_nil_r. Qed.

Lemma spec_gets {A} (P : assertion) (f : Disk → A) :
  spec P (gets (λ w, f (w_disk w))) (λ a d l h, a = f d ∧ P d l h).
Proof. intros w Hw. split; [done|]. exists []. by rewrite app_nil_r. Qed.

Lemma spec_read {A} (P : assertion) (f : Disk → A) :
  Stable P → spec P (read f) (λ a d l h, a = f d ∧ P d l h).
Proof. intros HP. eapply spec_bind; [by apply keeps_yield|]. intros n. apply spec_gets. Qed.

Lemma keeps_read {A} P (f : Disk → A) : Stable P → keeps P (read f).
Proof.
  intros HP. eapply spec_conseq; [by intros ??? Hd; exact Hd| |by apply spec_read].
  intros a d l h Hd. apply Hd.
Qed.

Lemma keeps_clock P : Stable P → keeps P clock.
Proof. intros HP. eapply keeps_bind; [by apply keeps_yield|]. intros. apply keeps_ret. Qed.

Lemma keeps_random P : Stable P → keeps P random.
Proof. intros HP. eapply keeps_bind; [by apply keeps_yield|]. intros. apply keeps_ret. Qed.

Lemma spec_write (P : assertion) f (Q : bool → assertion) :
  Stable P → (∀ d l h, P d l h → Q false d l h ∧ Q true (f d) l h ∧ Q false (f d) l h) → spec P (write f) Q.
Proof.
  intros HP HQ. eapply spec_bind; [by apply keeps_yield|]. intros n.
  intros w Hw. unfold modify, mbind, M_bind, mret, M_ret. apply HQ in Hw as (? & ? & ?).
  destruct (sy_write n); (split; [done|]); exists []; by rewrite app_nil_r.
Qed.

Lemma spec_remove (P : assertion) present f (Q : bool → assertion) :
  Stable P →
  (∀ d l h, P d l h → Q true d l h ∧ Q false d l h ∧ Q true (f d) l h ∧ Q false (f d) l h) →
  spec P (remove present f) Q.
Proof.
  intros HP HQ. eapply spec_bind; [by apply keeps_yield|]. intros n.
  intros w Hw. unfold gets, modify, mbind, M_bind, mret, M_ret. apply HQ in Hw as (? & ? & ? & ?).
  destruct (present _); [|split; [done|exists []; by rewrite app_nil_r]].
  destruct (sy_write n); (split; [done|]); exists []; by rewrite app_nil_r.
Qed.

(** Writing a file [P] does not speak about. *)
Lemma keeps_write P f : Stable P → (∀ d l h, P d l h → P (f d) l h) → keeps P (write f).
Proof. intros HP Hf. apply spec_write; [done|]. auto. Qed.

Lemma keeps_remove P present f : Stable P → (∀ d l h, P d l h → P (f d) l h) → keeps P (remove present f).
Proof. intros HP Hf. apply spec_remove; [done|]. auto. Qed.

Lemma spec_modify (P : assertion) f (Q : () → assertion) :
  (∀ d l h, P d l h → Q () (f d) l h) → spec P (modify (on_disk f)) Q.
Proof. intros HQ w Hw. split; [by apply HQ|]. exists []. by rewrite app_nil_r. Qed.

Lemma spec_log P (e : World S → event) (Q : () → assertion) :
  (∀ w, P (w_disk w) (w_locks w) (w_log w) →
    E (w_log w) (e w) ∧ Q () (w_disk w) (w_locks w) (w_log w ++ [e w])) → spec P (log e) Q.
Proof.
  intros He w Hw. destruct (He w Hw) as [? ?]. split; [done|]. exists [e w]. by split_and!.
Qed.

Lemma keeps_log P (e : World S → event) :
  Stable P → (∀ w, P (w_disk w) (w_locks w) (w_log w) → E (w_log w) (e w)) → keeps P (log e).
Proof. intros HP He. apply spec_log. intros w Hw. split; [by apply He|by apply stable_log]. Qed.

Lemma keeps_service {A} P (op : S → S * A) : keeps P (on_service op).
Proof.
  intros w Hw. unfold on_service. destruct (op (w_service w)). split; [done|].
  exists []. by rewrite app_nil_r.
Qed.

Lemma keeps_net {A} P m body (op : delivery → S → S * A) :
  Stable P → (∀ d l h, P d l h → E h (EvRequest m body (lk_vault l) (d_intent d))) → keeps P (net m body op).
Proof.
  intros HP He. eapply keeps_bind; [by apply keeps_yield|]. intros n.
  eapply keeps_bind; [apply keeps_log; eauto|]. intros ?. apply keeps_service.
Qed.

(** What the exchange returns whatever the delivery and the service. *)
Lemma spec_net {A} P m body (op : delivery → S → S * A) (R : A → Prop) :
  Stable P → (∀ d l h, P d l h → E h (EvRequest m body (lk_vault l) (d_intent d))) → (∀ dl s, R (snd (op dl s))) →
  spec P (net m body op) (λ a d l h, R a ∧ P d l h).
Proof.
  intros HP He HR. eapply spec_bind; [by apply keeps_yield|]. intros n.
  eapply spec_bind; [apply keeps_log; eauto|]. intros ? w Hw. unfold on_service.
  specialize (HR (sy_delivery n) (w_service w)). destruct (op _ (w_service w)). split; [by split|].
  exists []. by rewrite app_nil_r.
Qed.

Lemma spec_acquire (P : assertion) set (Q : result () → assertion) :
  Stable P → (∀ d l h, P d l h → Q (Ok ()) d (set true l) h ∧ ∀ e, Q (Fail e) d l h) →
  spec P (acquire set) Q.
Proof.
  intros HP HQ. eapply spec_bind; [by apply keeps_yield|]. intros n.
  destruct (sy_lock n) as [[]|e].
  - intros w Hw. apply HQ in Hw as [? _]. split; [done|]. exists []. by rewrite app_nil_r.
  - apply spec_ret. intros d l h Hw. by apply HQ.
Qed.

Lemma spec_release (P : assertion) set (Q : () → assertion) :
  (∀ d l h, P d l h → Q () d (set false l) h) → spec P (release set) Q.
Proof. intros HQ w Hw. split; [by apply HQ|]. exists []. by rewrite app_nil_r. Qed.

(** The sync-state lock is not the vault lock. *)
Class StateBlind (P : assertion) : Prop := {
  blind_state d l h b : P d l h → P d (set_state_lock b l) h;
  blind_syncstate d l h s : P d l h → P (set_syncstate s d) l h;
  blind_conflict d l h s : P d l h → P (set_conflict s d) l h;
  blind_settings d l h s : P d l h → P (set_settings s d) l h;
}.

Lemma keeps_withStateLock P fn : Stable P → StateBlind P → keeps P fn → keeps P (withStateLock fn).
Proof.
  intros HP HB Hfn. eapply spec_bind.
  - apply (spec_acquire _ _ (λ _, P)); [done|]. intros d l h ?. split; [|done]. by apply blind_state.
  - intros [[]|e]; [|apply keeps_ret]. eapply spec_bind; [exact Hfn|]. intros ok.
    eapply spec_bind; [|intros; apply keeps_ret].
    apply (spec_release _ _ (λ _, P)). intros. by apply blind_state.
Qed.
End Logic.

(** [P] does not speak about what a commit writes. *)
Class CommitBlind (P : assertion) : Prop := {
  blind_superseded d l h x : P d l h → P (set_superseded x d) l h;
  blind_remote d l h x : P d l h → P (set_remote x d) l h;
  blind_generation d l h x : P d l h → P (set_generation x d) l h;
}.

(** [P] says that the vault lock is held, or that it is not. *)
Class Holds (b : bool) (P : assertion) : Prop := holds d l h : P d l h → lk_vault l = b.

(** The publication lock is held, and [G] holds of the intent and of the log. *)
Definition publishing (G : doc publishingIntent → list event → Prop) : assertion :=
  λ d l h, lk_publication l = true ∧ G (d_intent d) h.

(** [G] is not lost by logging more. *)
Class Lasting (G : doc publishingIntent → list event → Prop) : Prop :=
  lasting i h e : G i h → G i (h ++ [e]).

#[export] Instance publishing_stable G : Lasting G → Stable (publishing G).
Proof.
  intros HG. split.
  - intros d d' l h [Hl Hg]. split; [done|]. unfold protect. by rewrite Hl.
  - intros d l h e [Hl Hg]. split; [done|]. by apply HG.
Qed.

(** ** Weaker events, and counting publications *)

Lemma spec_weaken {S A} (E E' : list event → event → Prop) P (m : M S A) Q :
  (∀ h e, E h e → E' h e) → spec E P m Q → spec E' P m Q.
Proof.
  intros HE Hm w Hw. specialize (Hm w Hw). destruct (m w) as [a w']. destruct Hm as [HQ (evs & Hl & He)].
  split; [done|]. exists evs. split; [done|]. revert He. generalize (w_log w). clear Hl.
  induction evs as [|e evs IH]; intros h; [done|]. intros [? ?]. split; auto.
Qed.

Definition is_put (e : event) : bool :=
  match e with EvRequest m _ _ _ => bool_decide (m = PUT) | _ => false end.

(** The bodies of the publications requested, in order. *)
Definition put_body (e : event) : option bytes :=
  match e with EvRequest PUT body _ _ => Some body | _ => None end.
Definition put_bodies : list event → list bytes := omap put_body.

Lemma put_body_none e : is_put e = false → put_body e = None.
Proof. destruct e; try done. cbn. by destruct m; case_bool_decide. Qed.

(** [spec], with a postcondition on the publications requested too. *)
Definition traced {S A} (E : list event → event → Prop) (P : assertion) (m : M S A)
    (Q : A → list bytes → assertion) : Prop :=
  ∀ w, P (w_disk w) (w_locks w) (w_log w) →
    let '(a, w') := m w in
    ∃ evs, w_log w' = w_log w ++ evs ∧ emits E (w_log w) evs ∧
      Q a (put_bodies evs) (w_disk w') (w_locks w') (w_log w').

Section Traced.
Context {S : Type} (E : list event → event → Prop).

Lemma emits_no_put E0 h evs : (∀ h e, E0 h e → is_put e = false) → emits E0 h evs → put_bodies evs = [].
Proof.
  intros HE. revert h. induction evs as [|e evs IH]; intros h; [done|]. intros [He Hr].
  cbn. rewrite (put_body_none e (HE _ _ He)). by eapply IH.
Qed.

Lemma traced_of_spec {A} (E0 : list event → event → Prop) P (m : M S A) Q :
  (∀ h e, E0 h e → E h e ∧ is_put e = false) → spec E0 P m Q →
  traced E P m (λ a bodies d l h, bodies = [] ∧ Q a d l h).
Proof.
  intros HE Hm w Hw. pose proof (spec_weaken E0 E P m Q (λ h e He, proj1 (HE h e He)) Hm w Hw) as Hm'.
  specialize (Hm w Hw). destruct (m w) as [a w']. destruct Hm as [HQ (evs & Hl & He)].
  destruct Hm' as [_ (evs' & Hl' & He')]. rewrite Hl in Hl'. apply app_inv_head in Hl' as <-.
  exists evs. split_and!; [done..| |done]. by eapply emits_no_put; [intros h e ?; by eapply HE|].
Qed.

Lemma traced_bind {A B} P (m : M S A) (f : A → M S B) (R : A → list bytes → assertion) Q :
  traced E P m R →
  (∀ a b1, traced E (R a b1) (f a) (λ b b2, Q b (b1 ++ b2))) → traced E P (m ≫= f) Q.
Proof.
  intros Hm Hf w HP. specialize (Hm w HP). unfold mbind, M_bind. destruct (m w) as [a w1].
  destruct Hm as (e1 & Hl1 & He1 & HR). specialize (Hf a _ w1 HR). destruct (f a w1) as [b w2].
  destruct Hf as (e2 & Hl2 & He2 & HQ). exists (e1 ++ e2). split_and!.
  - by rewrite Hl2, Hl1, app_assoc.
  - apply emits_app. split; [done|]. by rewrite <- Hl1.
  - unfold put_bodies in *. by rewrite omap_app.
Qed.

(** Something that publishes nothing first. *)
Lemma traced_spec_bind {A B} E0 P (m : M S A) (f : A → M S B) R Q :
  (∀ h e, E0 h e → E h e ∧ is_put e = false) → spec E0 P m R →
  (∀ a, traced E (R a) (f a) Q) → traced E P (m ≫= f) Q.
Proof.
  intros HE Hm Hf. eapply traced_bind; [by eapply traced_of_spec|].
  intros a b1 w [-> Hw]. by apply (Hf a w).
Qed.

Lemma traced_ret {A} P (a : A) (Q : A → list bytes → assertion) :
  (∀ d l h, P d l h → Q a [] d l h) → traced (S:=S) E P (mret a) Q.
Proof. intros HQ w HP. exists []. rewrite app_nil_r. split_and!; [done..|]. by apply HQ. Qed.

Lemma traced_conseq {A} (P P' : assertion) (m : M S A) (Q Q' : A → list bytes → assertion) :
  (∀ d l h, P d l h → P' d l h) → (∀ a b d l h, Q' a b d l h → Q a b d l h) →
  traced E P' m Q' → traced E P m Q.
Proof.
  intros HP HQ Hm w Hw. specialize (Hm w (HP _ _ _ Hw)). destruct (m w).
  destruct Hm as (evs & ? & ? & ?). exists evs. auto.
Qed.

Lemma traced_pure {A} (φ : Prop) (P : assertion) (m : M S A) Q :
  (φ → traced E P m Q) → traced E (λ d l h, φ ∧ P d l h) m Q.
Proof. intros Hx w [Hφ Hw]. by apply Hx. Qed.

(** The publishing request. *)
Lemma traced_put {A} `{SyncEnv S} P body (op : delivery → S → S * A) :
  Stable P → (∀ d l h, P d l h → E h (EvRequest PUT body (lk_vault l) (d_intent d))) →
  traced E P (net PUT body op) (λ _ bodies d l h, bodies = [body] ∧ P d l h).
Proof.
  intros HP He w Hw. unfold net, log, on_service, yield, modify, mbind, M_bind. cbn [w_disk w_service w_locks w_tick w_log].
  destruct (op _ _) as [s a]. cbn [w_disk w_service w_locks w_tick w_log].
  eexists. split; [done|]. apply (stable _ (sy_others (w_tick w) (w_disk w))) in Hw.
  split; [by split; [apply He|]|]. split; [done|]. by apply stable_log.
Qed.
End Traced.

#[export] Instance locked_blind b : StateBlind (locked b).
Proof. by split. Qed.
#[export] Instance holding_blind G : StateBlind (holding G).
Proof. by split. Qed.
#[export] Instance logged_blind e : StateBlind (logged e).
Proof. by split. Qed.
#[export] Instance publishing_blind G : StateBlind (publishing G).
Proof. by split. Qed.
#[export] Instance both_blind P Q : StateBlind P → StateBlind Q → StateBlind (both P Q).
Proof.
  intros HP HQ. split; intros ???? [? ?]; split;
    first [by apply blind_state | by apply blind_syncstate | by apply blind_conflict | by apply blind_settings].
Qed.

#[export] Instance locked_commit_blind b : CommitBlind (locked b).
Proof. by split. Qed.
#[export] Instance logged_commit_blind e : CommitBlind (logged e).
Proof. by split. Qed.
#[export] Instance publishing_commit_blind G : CommitBlind (publishing G).
Proof. by split. Qed.
#[export] Instance both_commit_blind P Q : CommitBlind P → CommitBlind Q → CommitBlind (both P Q).
Proof.
  intros HP HQ. split; intros ???? [? ?]; split;
    first [by apply blind_superseded | by apply blind_remote | by apply blind_generation].
Qed.

#[export] Instance locked_holds b : Holds b (locked b).
Proof. by intros d l h ?. Qed.
#[export] Instance holding_holds G : Holds true (holding G).
Proof. by intros d l h [? _]. Qed.
#[export] Instance both_holds b P Q : Holds b P → Holds b (both P Q).
Proof. intros HP d l h [? _]. by eapply HP. Qed.

(** [keeps_auto] walks a program that only reads, writes files its assertion does
    not speak about, and calls operations already known to keep it. *)
Create HintDb keeps discriminated.
#[export] Hint Resolve keeps_ret keeps_yield keeps_read keeps_clock keeps_random keeps_service : keeps.
#[export] Hint Extern 1 (Stable _) => typeclasses eauto : keeps.
#[export] Hint Extern 1 (StateBlind _) => typeclasses eauto : keeps.

(** A change [P] does not speak about. *)
Ltac blind :=
  intros; first [done | by apply blind_syncstate | by apply blind_conflict | by apply blind_settings
    | by apply blind_state | by apply blind_superseded | by apply blind_remote | by apply blind_generation].

Ltac keeps_auto :=
  repeat (cbv zeta; cbv beta; match goal with
  | |- spec ?E ?P ?m _ => change (keeps E P m)
  | |- keeps _ _ (mbind _ _) => apply keeps_bind; [|intros ?]
  | |- keeps _ _ (mret _) => apply keeps_ret
  | |- keeps _ _ (write _) => apply keeps_write; [typeclasses eauto|solve [blind]]
  | |- keeps _ _ (remove _ _) => apply keeps_remove; [typeclasses eauto|solve [blind]]
  | |- keeps _ _ (withStateLock _) => apply keeps_withStateLock; [typeclasses eauto..|]
  | |- keeps _ _ (if ?b then _ else _) => destruct b
  | |- keeps _ _ (match ?x with _ => _ end) => destruct x
  | |- keeps _ _ _ => solve [eauto with keeps typeclass_instances]
  end).
