(* ===== verification/SyncTransactionFacts.v ===== *)
(** * Pulls keep local work

    Whatever other processes and the network do between two operations: no request
    is made while the vault lock is held, no pull publishes, and a pull replaces
    the vault only by a well-formed, not older, not superseded blob, over a vault
    that had not moved apart from the remote, keeping the previous one. *)

From S2P Require Import Prelude GoStrings GoStringFacts GoErrors NamedList VaultBlob Config SyncProtocol Cloud PublishingIntent SyncWorld SyncSchedule SyncTransaction SyncLogic.

Section Safety.
Context `{Sha256}.

(** What a pull may install over the disk it finds. *)
Definition install_ok (mode : pullMode) (evidence : option SyncConflict) (before : Disk)
    (blob : bytes) (etag : string) : Prop :=
  ValidVaultBlob blob = true ∧
  match d_vault before with
  | Absent => True
  | Content old => d_prev before = Content old
  | _ => False
  end ∧
  (if decide (mode = pullAdopt)
   then ∃ c, evidence = Some c ∧ default "" (identity_of before) = sc_LocalETag c
   else
     older_generation blob (d_generation before) = false ∧ is_superseded etag before = false ∧
     (∀ old, d_vault before = Content old →
       hashBytes old = etag ∨ hashBytes old = cached_of before ∨ etag = cached_of before ∨
       etag = "" ∨ (cached_of before = "" ∧ mode ≠ pullBackground))).

(** What a pull, a refresh or a background attempt may do. *)
Definition pull_event (e : event) : Prop :=
  match e with
  | EvRequest m _ held _ => held = false ∧ m ≠ PUT
  | EvInstall mode evidence before blob etag => install_ok mode evidence before blob etag
  | EvFinalize _ _ _ | EvIntent _ => False
  | EvIdentity _ held => held = true
  | EvRemote _ _ | EvInvalidate | EvSpawn _ => True
  end.

(** [J] narrows which blobs are installed, under which identity. *)
Definition narrowed (J : pullMode → bytes → string → Prop) (e : event) : Prop :=
  match e with EvInstall mode _ _ blob etag => J mode blob etag | _ => True end.

(** Any event a pull may log is one of [E]. *)
Class PullEvents (J : pullMode → bytes → string → Prop) (E : list event → event → Prop) : Prop :=
  pull_events h e : pull_event e → narrowed J e → E h e.

(** What every operation may do: requests other than a publication, without the
    vault lock, and observations. *)
Definition net_event (e : event) : Prop :=
  match e with
  | EvRequest m _ held _ => held = false ∧ m ≠ PUT
  | EvRemote _ _ | EvInvalidate | EvSpawn _ => True
  | _ => False
  end.

Class NetEvents (E : list event → event → Prop) : Prop := net_events h e : net_event e → E h e.

#[export] Instance pull_events_net J E : PullEvents J E → NetEvents E.
Proof. intros HE h e He. apply HE; by destruct e. Qed.

#[export] Instance pull_event_narrowed J : PullEvents J (λ _ e, pull_event e ∧ narrowed J e).
Proof. by intros h e. Qed.
End Safety.

(** ** What reading, recording and requests keep *)

Section Net.
Context {S : Type} `{SyncEnv S} `{service : !SyncService S}.
Context `{Sha256, Json, HttpClient, VaultCrypto, GoTime, SyncHost}.
Context (E : list event → event → Prop) `{!NetEvents E}.

Notation spec := (spec E).
Notation keeps := (keeps E).

(** ** Operations that keep every assertion about the protected files *)

Section Keeps.
Context (P : assertion) `{!Stable P, !StateBlind P}.

Lemma keeps_localFacts : keeps P localFacts.
Proof. unfold localFacts, cachedRemoteIdentity, loadConflict, localOpaqueIdentity. keeps_auto. Qed.

Lemma keeps_identityFacts : keeps P identityFacts.
Proof. unfold identityFacts, cachedRemoteIdentity, loadConflict, localOpaqueIdentity. keeps_auto. Qed.

Lemma keeps_configuration t : keeps P (configuration t).
Proof. unfold configuration. keeps_auto. Qed.

Lemma keeps_mutateState t fn : keeps P (mutateState t fn).
Proof. unfold mutateState, LoadSyncState, saveSyncState. keeps_auto. Qed.

Lemma keeps_recordOutcome t err : keeps P (recordOutcome t err).
Proof.
  unfold recordOutcome, recordSuccess, recordFailure. keeps_auto; apply keeps_mutateState.
Qed.

Lemma keeps_recordExplicitOutcome t err : keeps P (recordExplicitOutcome t err).
Proof. unfold recordExplicitOutcome, LocalFirst. keeps_auto. apply keeps_recordOutcome. Qed.

Lemma keeps_claimStillValid t : keeps P (claimStillValid t).
Proof. unfold claimStillValid, LoadSyncState. keeps_auto. Qed.

Lemma keeps_claimBackground now : keeps P (claimBackground now).
Proof.
  unfold claimBackground, LoadSyncState, saveSyncState.
  eapply spec_bind.
  - apply (spec_acquire _ _ _ (λ _, P)); [done|]. intros d l h ?. split; [|done]. by apply blind_state.
  - intros [[]|e]; [|apply keeps_ret]. keeps_auto.
    apply (spec_release _ _ _ (λ _, P)). blind.
Qed.

Lemma keeps_conflictError f remote : keeps P (conflictError f remote).
Proof. unfold conflictError, preserveConflict. keeps_auto. Qed.

Lemma keeps_supersededError f remote : keeps P (supersededError f remote).
Proof. unfold supersededError. keeps_auto. apply keeps_conflictError. Qed.

Lemma keeps_isSuperseded etag : keeps P (isSuperseded etag).
Proof. unfold isSuperseded, loadSuperseded. keeps_auto. Qed.

Lemma keeps_decorate f s state : keeps P (decorateLocalFirst f s state).
Proof. unfold decorateLocalFirst. keeps_auto. Qed.

Lemma keeps_refreshLocalFirst t f s : keeps P (refreshLocalFirst t f s).
Proof.
  unfold refreshLocalFirst, LoadSyncState, releaseClaim.
  keeps_auto; try apply keeps_decorate; try apply keeps_claimBackground; try apply keeps_mutateState.
  apply keeps_log; [done|]. intros. by apply net_events.
Qed.
End Keeps.

#[local] Hint Resolve keeps_localFacts keeps_identityFacts keeps_configuration keeps_mutateState
  keeps_recordOutcome keeps_recordExplicitOutcome keeps_claimStillValid keeps_conflictError
  keeps_supersededError keeps_isSuperseded keeps_refreshLocalFirst : keeps.

(** ** Requests are made without the vault lock *)

Lemma keeps_request {A} P m body (op : delivery → S → S * A) :
  Stable P → Holds false P → m ≠ PUT → keeps P (net m body op).
Proof.
  intros HP HF Hm. apply keeps_net; [done|]. intros d l h Hl. apply net_events. split; [by eapply HF|done].
Qed.



Section Observing.
Context (P : assertion) `{!Stable P, !StateBlind P, !Holds false P}.

(** An observed identity was logged. *)
Definition remote_known (P : assertion) (r : result BlobIdentity) : assertion := λ d l h,
  P d l h ∧ match r with Ok i => EvRemote (bi_Exists i) (bi_Value i) ∈ h | Fail _ => True end.

Lemma spec_ObservePublicationIdentity t : spec P (ObservePublicationIdentity t) (remote_known P).
Proof.
  unfold ObservePublicationIdentity. eapply spec_bind; [by apply keeps_configuration|].
  intros [[cfg state] err].
  destruct err as [e|]; [by apply spec_ret|]. destruct cfg as [cfg|]; [|by apply spec_ret].
  eapply spec_bind; [by apply keeps_request|]. intros [r|e]; [|by apply spec_ret].
  eapply spec_bind with (R := λ _ d l h, P d l h ∧ EvRemote (ri_Exists r) (ri_Value r) ∈ h).
  { apply spec_log. intros w Hw. split; [by apply net_events|]. split; [by apply stable_log|set_solver]. }
  intros ?. apply spec_ret. intros d l h [? ?]. by destruct (unsupported _).
Qed.

Lemma keeps_ObservePublicationIdentity t : keeps P (ObservePublicationIdentity t).
Proof.
  eapply spec_conseq; [by intros ??? Hd; exact Hd| |apply spec_ObservePublicationIdentity].
  intros r d l h Hr. apply Hr.
Qed.
End Observing.

(** ** The commit of a pull or a publication, under the lock *)

Section Commit.
Context (P : assertion) `{!Stable P, !StateBlind P, !CommitBlind P}.

Lemma keeps_recordSuperseded old next : keeps P (recordSuperseded old next).
Proof. unfold recordSuperseded, loadSuperseded. keeps_auto. Qed.

Lemma keeps_generation g : keeps P (record_generation g) ∧ keeps P (set_max_generation g).
Proof.
  split; [unfold record_generation|unfold set_max_generation]; keeps_auto; apply spec_modify; blind.
Qed.

Lemma keeps_commitSuccess operation identity generation :
  Holds true P → (∀ d l h, P d l h → E h (EvIdentity identity true)) →
  keeps P (commitSuccess operation identity generation).
Proof.
  intros HT HE. unfold commitSuccess, cachedRemoteIdentity, clearConflict. keeps_auto;
    try apply keeps_recordSuperseded; try apply keeps_generation.
  apply keeps_log; [done|]. intros w Hw. rewrite (HT _ _ _ Hw). by eapply HE.
Qed.
End Commit.
End Net.

Section Facts.
Context {S : Type} `{SyncEnv S} `{service : !SyncService S}.
Context `{Sha256, !Sha256Laws _, Json, HttpClient, VaultCrypto, GoTime, SyncHost}.
Context (J : pullMode → bytes → string → Prop) (E : list event → event → Prop) `{!PullEvents J E}.

Notation spec := (spec E).
Notation keeps := (keeps E).

#[local] Hint Resolve keeps_localFacts keeps_identityFacts keeps_configuration keeps_mutateState
  keeps_recordOutcome keeps_recordExplicitOutcome keeps_claimStillValid keeps_conflictError
  keeps_supersededError keeps_isSuperseded keeps_refreshLocalFirst keeps_ObservePublicationIdentity : keeps.

(** ** Reading under the lock *)

Abbreviation held g := (holding (λ g', g' = g)).

Lemma held_locked g d l h : held g d l h → locked true d l h.
Proof. by intros [? _]. Qed.

Lemma spec_read_held {A} g (f : Disk → A) (F : guarded → A) :
  (∀ d, f d = F (guarded_of d)) → spec (held g) (read f) (λ a d l h, a = F g ∧ held g d l h).
Proof.
  intros Hf. eapply spec_conseq; [by intros ??? Hd; exact Hd| |apply spec_read, _].
  intros a d l h [-> [Hl <-]]. by split; [apply Hf|].
Qed.

Definition local_g (g : guarded) : string := default "" (hashBytes <$> file_content (g_vault g)).
Definition cached_g (g : guarded) : string := match g_remote g with Some s => TrimSpace s | None => "" end.

Lemma spec_identityFacts g :
  spec (held g) identityFacts (λ f d l h,
    (fa_RemoteETag f = cached_g g ∧ fa_LocalETag f = local_g g) ∧ held g d l h).
Proof.
  unfold identityFacts. eapply spec_bind; [by apply (spec_read_held _ _ cached_g)|].
  intros remote. apply spec_pure. intros ->.
  eapply spec_bind; [apply keeps_read, _|]. intros conflict.
  eapply spec_bind; [by apply (spec_read_held _ _ (λ g, hashBytes <$> file_content (g_vault g)))|].
  intros local. apply spec_pure. intros ->. apply spec_ret. by intros d l h ?.
Qed.

Lemma spec_isSuperseded g etag :
  spec (held g) (isSuperseded etag) (λ b d l h,
    b = negb (empty_string etag) && bool_decide (etag ∈ default [] (doc_value (g_superseded g)))
    ∧ held g d l h).
Proof.
  unfold isSuperseded. destruct (empty_string etag); [by apply spec_ret|].
  eapply spec_bind; [by apply (spec_read_held _ _ (λ g, default [] (doc_value (g_superseded g))))|].
  intros recorded. apply spec_pure. intros ->. by apply spec_ret.
Qed.

(** ** The install itself *)

(** The protected files once the previous vault is kept. *)
Definition preserved (g g' : guarded) : Prop :=
  g_vault g' = g_vault g ∧ g_remote g' = g_remote g ∧ g_superseded g' = g_superseded g ∧
  g_generation g' = g_generation g ∧
  match g_vault g with
  | Absent => True
  | Content old => g_prev g' = Content old
  | _ => False
  end.

Lemma spec_preserve_previous g :
  spec (held g) preserve_previous (λ r d l h,
    match r with Some _ => locked true d l h | None => holding (preserved g) d l h end).
Proof.
  unfold preserve_previous.
  eapply spec_bind; [by apply (spec_read_held _ _ g_vault)|]. intros f.
  apply spec_pure. intros ->. destruct (g_vault g) as [| | |old] eqn:Ev.
  - apply spec_ret. intros d l h [Hl Hg]. split; [done|]. rewrite Hg. unfold preserved. rewrite Ev. by split_and!.
  - apply spec_ret. apply held_locked.
  - eapply spec_bind; [by apply (spec_read_held _ _ g_vault)|]. intros f. apply spec_pure. intros ->.
    rewrite Ev. apply spec_ret. apply held_locked.
  - eapply spec_bind; [by apply (spec_read_held _ _ g_vault)|]. intros f. apply spec_pure. intros ->.
    rewrite Ev. cbn [file_content].
    eapply spec_bind with (R := λ ok d l h, if (ok : bool) then holding (preserved g) d l h else locked true d l h).
    + apply spec_write; [apply _|]. intros d l h [Hl <-]. split_and!; [done| |done].
      split; [done|]. unfold preserved. rewrite Ev. by split_and!.
    + intros []; by apply spec_ret.
Qed.

Lemma spec_replace_vault G e data :
  (∀ h d, G (guarded_of d) → E h (e d)) → spec (holding G) (replace_vault e data) (λ _, locked true).
Proof.
  intros He. unfold replace_vault. eapply spec_bind; [apply keeps_yield, _|]. intros n.
  eapply spec_bind with (R := λ _, locked true); [|intros; by apply spec_ret].
  destruct (write_stores _).
  - eapply spec_bind with (R := λ _, holding G); [apply keeps_log; [apply _|]; intros w [_ Hg]; by apply He|].
    intros ?. apply spec_modify. by intros d l h [? _].
  - apply spec_ret. by intros d l h [? _].
Qed.

(** What makes an install of [blob] over the protected files [g] safe. *)
Definition may_install (mode : pullMode) (f : Facts) (g : guarded) (blob : bytes) (etag : string) : Prop :=
  ValidVaultBlob blob = true ∧ fa_LocalETag f = local_g g ∧ fa_RemoteETag f = cached_g g ∧
  (if decide (mode = pullAdopt)
   then ∃ c, fa_Conflict f = Some c ∧ fa_LocalETag f = sc_LocalETag c
   else
     older_generation blob (g_generation g) = false ∧
     negb (empty_string etag) && bool_decide (etag ∈ default [] (doc_value (g_superseded g))) = false ∧
     divergedFor mode f etag = false).

Lemma not_diverged mode f etag :
  divergedFor mode f etag = false → fa_LocalETag f ≠ "" →
  fa_LocalETag f = etag ∨ fa_LocalETag f = fa_RemoteETag f ∨ etag = fa_RemoteETag f ∨ etag = "" ∨
  (fa_RemoteETag f = "" ∧ mode ≠ pullBackground).
Proof.
  unfold divergedFor, diverged, empty_string. intros Hd Hl.
  destruct (decide (fa_LocalETag f = etag)) as [|N1]; [auto|].
  destruct (decide (fa_LocalETag f = fa_RemoteETag f)) as [|N2]; [auto|].
  destruct (decide (etag = fa_RemoteETag f)) as [|N3]; [auto|].
  destruct (decide (etag = "")) as [|N4]; [auto|].
  destruct (decide (fa_RemoteETag f = "")) as [N5|N5].
  - do 4 right. split; [done|]. intros ->. revert Hd. rewrite N5. repeat case_bool_decide; simpl; congruence.
  - revert Hd. by rewrite !bool_decide_eq_false_2 by done.
Qed.

Lemma hashBytes_not_empty data : hashBytes data ≠ "".
Proof.
  intros Hh. apply (f_equal String.length) in Hh. unfold hashBytes in Hh.
  by rewrite hex_encode_length, sha256_length in Hh.
Qed.

Lemma may_install_ok mode f g blob etag d :
  may_install mode f g blob etag → preserved g (guarded_of d) →
  install_ok mode (fa_Conflict f) d blob etag.
Proof.
  intros (Hv & Hl & Hr & Hm) (Hgv & Hgr & Hgs & Hgg & Hprev).
  cbn [guarded_of g_vault g_remote g_superseded g_generation g_prev] in *.
  assert (local_g g = default "" (identity_of d)) as Hlg by (unfold local_g; by rewrite <- Hgv).
  assert (cached_g g = cached_of d) as Hcg by (unfold cached_g; by rewrite <- Hgr).
  rewrite <- Hgv in Hprev. split_and!; [done|done|].
  destruct (decide (mode = pullAdopt)).
  - destruct Hm as (c & Hc & Hlc). exists c. split; [done|]. congruence.
  - destruct Hm as (Ho & Hs & Hd). rewrite <- Hgg in Ho. split_and!; [done| |].
    + unfold is_superseded, superseded_of. by rewrite Hgs.
    + intros old Hold. apply not_diverged in Hd.
      * unfold identity_of in Hlg. rewrite Hold in Hlg. cbn in Hlg.
        rewrite Hl, Hr, Hcg, Hlg in Hd. exact Hd.
      * rewrite Hl, Hlg. unfold identity_of. rewrite Hold. cbn. apply hashBytes_not_empty.
Qed.

Lemma spec_install mode f g blob etag :
  J mode blob etag → may_install mode f g blob etag →
  spec (held g) (install f blob etag mode) (λ _, locked true).
Proof.
  intros HJ Hmay. unfold install. eapply spec_bind; [apply spec_preserve_previous|].
  intros [e|]; [by apply spec_ret|].
  eapply spec_bind.
  { apply spec_replace_vault. intros h d Hp. apply pull_events; [by eapply may_install_ok|done]. }
  intros ok. destruct ok; cbn [negb]; [|by apply spec_ret].
  eapply spec_bind with (R := λ _, locked true).
  { apply keeps_log; [apply _|]. intros. by apply pull_events. }
  intros ?. eapply spec_bind; [apply keeps_commitSuccess; [apply _..|]; intros; by apply pull_events|]. intros ?.
  eapply spec_bind; [apply keeps_localFacts; apply _|]. intros. by apply spec_ret.
Qed.

Lemma spec_held_keeps {A} g (m : M S A) : keeps (held g) m → spec (held g) m (λ _, locked true).
Proof. intros Hm. eapply spec_conseq; [by intros ??? Hd; exact Hd| |exact Hm]. intros a d l h. apply held_locked. Qed.

Lemma spec_install_locked t g data etag mode :
  J mode data etag → spec (held g) (install_locked t data etag mode) (λ _, locked true).
Proof.
  intros HJ. unfold install_locked. eapply spec_bind; [apply spec_identityFacts|]. intros f.
  apply spec_pure. intros [Hr Hl]. cbv zeta. set (f' := set_Configuration _ f).
  destruct (ValidVaultBlob data) eqn:Hv; cbn [negb]; [|apply spec_ret; apply held_locked].
  eapply spec_bind with (R := λ older d l h,
    (older = if decide (mode = pullAdopt) then false else older_generation data (g_generation g)) ∧ held g d l h).
  { destruct (decide (mode = pullAdopt)) as [Hm|Hm].
    - rewrite bool_decide_eq_true_2 by done. by apply spec_ret.
    - rewrite bool_decide_eq_false_2 by done.
      eapply spec_bind; [by apply (spec_read_held _ _ g_generation)|]. intros seen.
      apply spec_pure. intros ->. by apply spec_ret. }
  intros older. apply spec_pure. intros ->.
  destruct (if decide _ then _ else _) eqn:Ho.
  { apply spec_held_keeps, keeps_supersededError; apply _. }
  destruct (negb (bool_decide (mode = pullBackground)) && _ && _); [apply spec_ret; apply held_locked|].
  case_bool_decide as Hm.
  - destruct (fa_Conflict f') as [c|] eqn:Ec; [|apply spec_ret; apply held_locked].
    case_bool_decide as Heq; [|apply spec_ret; apply held_locked].
    apply spec_install; [done|]. unfold may_install. rewrite decide_True by done. split_and!; [done|exact Hl|exact Hr|by exists c].
  - eapply spec_bind; [apply spec_isSuperseded|]. intros superseded. apply spec_pure. intros ->.
    destruct (negb (empty_string etag) && _) eqn:Es; [apply spec_held_keeps, keeps_supersededError; apply _|].
    destruct (divergedFor mode f' etag) eqn:Ed; [apply spec_held_keeps, keeps_conflictError; apply _|].
    apply spec_install; [done|]. unfold may_install. destruct (decide (mode = pullAdopt)); [done|].
    split_and!; [done|exact Hl|exact Hr|done..].
Qed.

(** ** Taking and releasing the vault lock *)

Lemma spec_lockVault t mode :
  spec (locked false) (lockVault t mode) (λ r, locked (is_ok r)).
Proof.
  unfold lockVault. eapply spec_bind with (R := λ r, locked (is_ok r)).
  { apply spec_acquire; [apply _|]. by intros d l h ?. }
  intros [[]|e]; [|by apply spec_ret].
  destruct (bool_decide _); [|by apply spec_ret].
  eapply spec_bind; [apply keeps_read, _|]. intros pending.
  eapply spec_bind with (R := λ _, locked true).
  { destruct pending; [by apply spec_ret|]. apply keeps_claimStillValid; apply _. }
  intros []; [by apply spec_ret|].
  eapply spec_bind; [by apply (spec_release _ _ _ (λ _, locked false))|]. intros. by apply spec_ret.
Qed.

(** A section between taking and releasing the lock. *)
Lemma spec_section {A} t mode (m : M S A) (fail : goerror → A) :
  (∀ g, spec (held g) m (λ _, locked true)) →
  keeps (locked false)
    (r ← lockVault t mode;
     match r with
     | Fail e => mret (fail e)
     | Ok _ => out ← m; _ ← release set_vault_lock; mret out
     end).
Proof.
  intros Hm. eapply spec_bind; [apply spec_lockVault|]. intros [[]|e]; [|by apply spec_ret].
  cbn [is_ok]. eapply spec_bind with (R := λ _, locked true).
  { eapply spec_pre; [|apply (spec_exists E (λ g, held g)); exact Hm]. intros d l h Hl. by eexists. }
  intros a. eapply spec_bind; [by apply (spec_release _ _ _ (λ _, locked false))|].
  intros. by apply spec_ret.
Qed.

Lemma keeps_installFetched t data etag mode :
  J mode data etag → keeps (locked false) (installFetched t data etag mode).
Proof.
  intros HJ. unfold installFetched. apply (spec_section _ _ _ (λ e, (no_facts, Some e))).
  intros g. by apply spec_install_locked.
Qed.

Lemma keeps_under_lock t f mode decide_ :
  (∀ f g, keeps (held g) (decide_ f)) → keeps (locked false) (under_lock t f mode decide_).
Proof.
  intros Hd. unfold under_lock.
  eapply spec_bind; [apply spec_lockVault|]. intros [[]|e]; [|by apply spec_ret].
  cbn [is_ok]. eapply spec_bind; [apply keeps_identityFacts; apply _|]. intros current.
  eapply spec_bind with (R := λ _, locked true).
  { eapply spec_pre; [|apply (spec_exists E (λ g, held g)); intros g; apply spec_held_keeps, Hd].
    intros d l h Hl. by eexists. }
  intros a. eapply spec_bind; [by apply (spec_release _ _ _ (λ _, locked false))|].
  intros. by apply spec_ret.
Qed.

(** ** Whole operations *)

#[local] Hint Resolve keeps_installFetched : keeps.
#[local] Hint Extern 1 (Holds _ _) => typeclasses eauto : keeps.
#[local] Hint Extern 1 (keeps _ (net _ _ _)) => apply keeps_request; [typeclasses eauto..|done] : keeps.

Lemma keeps_apply_decided t cfg f remote mode fetched :
  (∀ data etag, J mode data etag) → keeps (locked false) (apply_decided t cfg f remote mode fetched).
Proof.
  intros HJ. unfold apply_decided. keeps_auto. apply keeps_under_lock. intros. keeps_auto.
Qed.

Lemma keeps_applyRemoteIdentity t cfg f remote forcePull mode :
  (∀ data etag, J mode data etag) →
  keeps (locked false) (applyRemoteIdentity t cfg f remote forcePull mode).
Proof.
  intros HJ. unfold applyRemoteIdentity. keeps_auto; try (by apply keeps_apply_decided).
  apply keeps_under_lock. intros. keeps_auto.
Qed.

Lemma keeps_refreshConfigured t cfg f forcePull :
  (∀ data etag, J pullRefresh data etag) → keeps (locked false) (refreshConfigured t cfg f forcePull).
Proof.
  intros HJ. unfold refreshConfigured. keeps_auto. by apply keeps_applyRemoteIdentity.
Qed.

Lemma keeps_refresh t explicit :
  (∀ data etag, J pullRefresh data etag) → keeps (locked false) (refresh t explicit).
Proof.
  intros HJ. unfold refresh. keeps_auto; try apply keeps_refreshConfigured; try done.
Qed.

Lemma keeps_pull t : (∀ data etag, J pullRefresh data etag) → keeps (locked false) (pull t).
Proof. intros HJ. unfold pull. keeps_auto; by apply keeps_refreshConfigured. Qed.

Lemma keeps_explicitly t m : keeps (locked false) m → keeps (locked false) (explicitly t m).
Proof. intros Hm. unfold explicitly. keeps_auto. Qed.

Lemma keeps_BackgroundSync t claim :
  (∀ data etag, J pullBackground data etag) → keeps (locked false) (BackgroundSync t claim).
Proof.
  intros HJ. unfold BackgroundSync, recordFailure, recordSuccess, RecordSkipped, recordSkippedNotConfigured.
  keeps_auto. by apply keeps_applyRemoteIdentity.
Qed.

Lemma FetchExpected_Ok dl s cfg expected s' data etag :
  FetchExpected dl s cfg expected = (s', Ok (data, etag)) → hashBytes data = expected ∧ etag = expected.
Proof.
  unfold FetchExpected. destruct (get_sync dl s cfg) as [s1 [a|]]; [|done]. cbv zeta.
  destruct (bool_decide _); [|done]. cbn [negb]. destruct (an_ReadError a); [done|].
  intros [= _ Hr]. inv_ok Hr. bool_to_prop. by simplify_eq.
Qed.

Lemma keeps_adopt_fetched t cfg f expected :
  (∀ data, hashBytes data = expected → J pullAdopt data expected) →
  keeps (locked false) (adopt_fetched t cfg f expected).
Proof.
  intros HJ. unfold adopt_fetched. eapply spec_bind.
  { apply (spec_net _ _ _ _ _ (λ got : result (bytes * string),
      ∀ data etag, got = Ok (data, etag) → hashBytes data = expected ∧ etag = expected));
      [apply _|by intros d l h Hl; apply pull_events|].
    intros dl s data etag Hg. destruct (FetchExpected dl s (Some cfg) expected) eqn:Ef.
    cbn [snd] in Hg. subst. by eapply FetchExpected_Ok. }
  intros [[data etag]|e]; apply spec_pure; [intros Hr|intros _; by apply keeps_ret].
  destruct (Hr data etag eq_refl) as [Hh ->]. apply keeps_installFetched. by apply HJ.
Qed.

Lemma keeps_AdoptRemote t expected :
  (∀ data, hashBytes data = bi_Value expected → J pullAdopt data (bi_Value expected)) →
  keeps (locked false) (AdoptRemote t expected).
Proof.
  intros HJ. unfold AdoptRemote, loadConflict. keeps_auto.
  by apply keeps_adopt_fetched.
Qed.
End Facts.

(** ** The guarantees *)

Section Guarantees.
Context {S : Type} `{SyncEnv S} `{service : !SyncService S}.
Context `{Sha256, !Sha256Laws _, Json, HttpClient, VaultCrypto, GoTime, SyncHost}.

(** The operations that may replace the vault. *)
Inductive pull_operation :=
  | DoRefresh | DoSync | DoPull | DoAdopt (expected : BlobIdentity) | DoBackground (claim : string).

Definition run (t : Transaction) (op : pull_operation) : M S () :=
  match op with
  | DoRefresh => _ ← Refresh t; mret ()
  | DoSync => _ ← Sync t; mret ()
  | DoPull => _ ← Pull t; mret ()
  | DoAdopt expected => _ ← AdoptRemote t expected; mret ()
  | DoBackground claim => _ ← BackgroundSync t claim; mret ()
  end.

(** Which blobs an operation installs, and how. *)
Definition installs (op : pull_operation) (mode : pullMode) (blob : bytes) (etag : string) : Prop :=
  match op with
  | DoAdopt expected => mode = pullAdopt ∧ etag = bi_Value expected ∧ hashBytes blob = etag
  | DoBackground _ => mode = pullBackground
  | _ => mode = pullRefresh
  end.

Lemma run_events t op :
  keeps (λ _ e, pull_event e ∧ narrowed (installs op) e) (locked false) (run t op).
Proof.
  unfold run, Sync, Pull. destruct op; (apply keeps_bind; [|intros; apply keeps_ret]).
  - by eapply keeps_refresh; [apply _|].
  - apply keeps_explicitly. by eapply keeps_refresh; [apply _|].
  - apply keeps_explicitly. by eapply keeps_pull; [apply _|].
  - eapply keeps_AdoptRemote; [apply _|]. intros data Hd. by split_and!.
  - by eapply keeps_BackgroundSync; [apply _|].
Qed.

(** C11: A pull never loses local work. Whatever the service answers, whatever fails and
    whatever other processes do meanwhile: when a refresh, sync, pull, adoption or
    background attempt replaces the vault, the blob is well formed and the vault it
    replaced is kept in [connections.enc.prev]. Without a review, the blob is not of
    an older generation and not a superseded one, and the replaced vault was the
    last confirmed remote, or the blob itself, or the remote had not moved, or (not
    in the background) no remote was ever confirmed. A reviewed adoption replaces
    only the vault its evidence was recorded for, by exactly the reviewed blob. *)
Theorem pulls_keep_local_work t op w :
  lk_vault (w_locks w) = false →
  let '(_, w') := run t op w in
  ∃ evs, w_log w' = w_log w ++ evs ∧
    ∀ mode evidence before blob etag, EvInstall mode evidence before blob etag ∈ evs →
      install_ok mode evidence before blob etag ∧ installs op mode blob etag.
Proof.
  intros Hw. pose proof (run_events t op w Hw) as Hr. destruct (run t op w) as [[] w'].
  destruct Hr as [_ (evs & Hl & He)]. exists evs. split; [done|].
  intros mode evidence before blob etag Hin.
  by apply (emits_elem _ _ _ _ He) in Hin as (_ & _ & _ & ? & ?).
Qed.

(** The vault lock is never held across a request, pulls never publish, the cached
    remote identity is only written under the vault lock, and the lock is free
    again at the end. *)
Theorem pulls_never_publish_or_block t op w :
  lk_vault (w_locks w) = false →
  let '(_, w') := run t op w in
  lk_vault (w_locks w') = false ∧ ∃ evs, w_log w' = w_log w ++ evs ∧
    (∀ m body held intent, EvRequest m body held intent ∈ evs → held = false ∧ m ≠ PUT) ∧
    (∀ identity held, EvIdentity identity held ∈ evs → held = true).
Proof.
  intros Hw. pose proof (run_events t op w Hw) as Hr. destruct (run t op w) as [[] w'].
  destruct Hr as [Hlk (evs & Hl & He)]. split; [done|]. exists evs. split; [done|].
  split; [intros m body held intent Hin|intros identity held Hin];
    by apply (emits_elem _ _ _ _ He) in Hin as (_ & _ & _ & ? & _).
Qed.
End Guarantees.
