(* ===== verification/SyncScheduleFacts.v ===== *)
(** * The schedule is bounded and the claims exclude each other

    The retry delay in closed form, how long a schedule can hold synchronization
    back, what a claim and a recorded outcome leave on disk, and what the list of
    superseded identities remembers. *)

From Stdlib Require Import Ascii.
From S2P Require Import Prelude GoStrings GoStringFacts GoErrors NamedList VaultBlob Config SyncProtocol Cloud PublishingIntent SyncWorld SyncSchedule SyncLogic.

(** ** Delays *)

Lemma backoff_reaches_cap (k : nat) rounds i failures delay :
  k ≤ rounds → (i + Z.of_nat k ≤ failures)%Z → (backoffCap ≤ delay * 2 ^ Z.of_nat k)%Z →
  (0 < delay < backoffCap)%Z → backoff_loop rounds i failures delay = backoffCap.
Proof.
  revert k i delay. induction rounds as [|rounds IH]; intros k i delay Hk Hi Hc Hd.
  { replace k with 0 in Hc by lia. simpl in Hc. lia. }
  destruct k as [|k]; [simpl in Hc; lia|]. simpl. rewrite bool_decide_eq_true_2 by lia.
  destruct (decide (backoffCap ≤ delay * 2)%Z); [by rewrite bool_decide_eq_true_2|].
  rewrite bool_decide_eq_false_2 by done. apply (IH k); [lia|lia| |lia].
  rewrite Nat2Z.inj_succ, Z.pow_succ_r in Hc by lia. lia.
Qed.

(** The delay after [failures] consecutive failures. *)
Definition exponential (failures : Z) : Z := Z.min backoffCap (backoffBase * 2 ^ (Z.max 1 failures - 1)).

Lemma backoff_few failures :
  (failures < 8)%Z → backoffDelay failures = exponential failures.
Proof.
  intros Hf. unfold backoffDelay, exponential. case_bool_decide.
  - rewrite Z.max_l by lia. reflexivity.
  - rewrite Z.max_r by lia.
    assert (failures = 1 ∨ failures = 2 ∨ failures = 3 ∨ failures = 4 ∨ failures = 5 ∨ failures = 6
      ∨ failures = 7)%Z as Hc by lia.
    by repeat (destruct Hc as [->|Hc]; [reflexivity|]); subst.
Qed.

Lemma backoff_exponential failures : backoffDelay failures = exponential failures.
Proof.
  destruct (decide (failures < 8)%Z); [by apply backoff_few|].
  unfold backoffDelay. rewrite bool_decide_eq_false_2 by lia.
  rewrite (backoff_reaches_cap 7) by (unfold backoffCap, backoffBase, hour, second; lia).
  unfold exponential. rewrite Z.max_r by lia.
  assert (2 ^ 7 ≤ 2 ^ (failures - 1))%Z by (apply Z.pow_le_mono_r; lia).
  unfold backoffCap, backoffBase, hour, second in *. lia.
Qed.

Lemma backoff_bounds failures : (backoffBase ≤ backoffDelay failures ≤ backoffCap)%Z.
Proof.
  rewrite backoff_exponential. unfold exponential.
  assert (2 ^ 0 ≤ 2 ^ (Z.max 1 failures - 1))%Z by (apply Z.pow_le_mono_r; lia).
  unfold backoffCap, backoffBase, hour, second in *. lia.
Qed.

(** The retry delay doubles from thirty seconds to at most one hour, whatever the
    failure count read from the state file, and the loop needs no more than eight
    rounds. *)
Theorem backoff_doubles_to_the_cap failures :
  backoffDelay failures = Z.min backoffCap (backoffBase * 2 ^ (Z.max 1 failures - 1)) ∧
  (backoffBase ≤ backoffDelay failures ≤ backoffCap)%Z.
Proof. split; [apply backoff_exponential|apply backoff_bounds]. Qed.

(** ** Waiting *)

(** [until] holds synchronization back at [now], unless it is more than [limit]
    ahead. *)
Definition waits (until limit now : Z) : Prop := until ≠ 0%Z ∧ (now < until)%Z ∧ (until - now ≤ limit)%Z.
#[export] Instance waits_dec until limit now : Decision (waits until limit now).
Proof. unfold waits. apply _. Defined.

Lemma second_pos : (0 ≤ second)%Z.
Proof. done. Qed.

(** The second a time was truncated to. *)
Definition truncated (t : Z) : Z := (t / second * second)%Z.
Lemma truncated_bounds t : (t - second < truncated t ≤ t)%Z.
Proof. unfold truncated, second. pose proof (Z.mod_pos_bound t 1000000000). pose proof (Z.div_mod t 1000000000). lia. Qed.

Lemma wait_test until limit now :
  negb (IsZero until) && bool_decide (now < until)%Z && bool_decide (until - now ≤ limit)%Z
  = bool_decide (waits until limit now).
Proof. unfold IsZero, waits. repeat case_bool_decide; simpl; intuition (done || lia). Qed.

Section Schedule.
Context `{T : GoTime}.

Lemma due_false s now :
  due s now = false ↔
  waits (parseStateTime (ss_NextAttemptAt s)) maxScheduleHorizon now ∨
  waits (parseStateTime (ss_InFlightUntil s)) claimTTL now.
Proof.
  unfold due. rewrite !wait_test. repeat case_bool_decide; naive_solver.
Qed.

(** C37: No state file can disable synchronization: whatever it holds, at some time at
    most a schedule horizon and a claim's lifetime ahead an attempt is due. *)
Theorem sync_never_disabled s now :
  ∃ t, (now ≤ t ≤ now + maxScheduleHorizon + claimTTL)%Z ∧ due s t = true.
Proof.
  pose proof (due_false s) as Hd.
  set (next := parseStateTime (ss_NextAttemptAt s)) in *. set (claim := parseStateTime (ss_InFlightUntil s)) in *.
  assert (∀ t, ¬ waits next maxScheduleHorizon t → ¬ waits claim claimTTL t → due s t = true) as Hdue.
  { intros t H1 H2. destruct (due s t) eqn:E; [done|]. by apply Hd in E as [|]. }
  assert (0 < claimTTL < maxScheduleHorizon)%Z as Hpos by (unfold claimTTL, minute, maxScheduleHorizon, second, hour; lia).
  unfold waits in Hdue.
  destruct (decide (waits next maxScheduleHorizon now)) as [(?&?&?)|N1].
  - destruct (decide (waits claim claimTTL next)) as [(?&?&?)|N2].
    + exists claim. split; [lia|]. apply Hdue; lia.
    + exists next. split; [lia|]. apply Hdue; [lia|]. exact N2.
  - destruct (decide (waits claim claimTTL now)) as [(?&?&?)|N2]; [|exists now; split; [lia|by apply Hdue]].
    destruct (decide (waits next maxScheduleHorizon claim)) as [(?&?&?)|N3].
    + exists next. split; [lia|]. apply Hdue; lia.
    + exists claim. split; [lia|]. apply Hdue; [exact N3|lia].
Qed.

Context `{!GoTimeLaws T}.

Lemma parseStateTime_utc t : valid_time t → parseStateTime (rfc3339_utc t) = truncated t.
Proof. intros Ht. unfold parseStateTime. by rewrite parse_utc. Qed.

Lemma parseStateTime_empty : parseStateTime "" = 0%Z.
Proof. unfold parseStateTime. by rewrite parse_empty. Qed.

Lemma waits_zero limit t : ¬ waits 0 limit t.
Proof. by intros [? _]. Qed.

(** A schedule without a claim. *)
Lemma due_scheduled s until t :
  valid_time until → ss_NextAttemptAt s = rfc3339_utc until → ss_InFlightUntil s = "" →
  due s t = negb (bool_decide (waits (truncated until) maxScheduleHorizon t)).
Proof.
  intros Hv Hn Hi. pose proof (due_false s t) as Hd.
  rewrite Hn, Hi, parseStateTime_utc, parseStateTime_empty in Hd by done.
  pose proof (waits_zero claimTTL t).
  case_bool_decide; destruct (due s t); simpl; try done; exfalso; intuition congruence.
Qed.

(** What a recorded outcome schedules. A failure and a skipped attempt hold
    synchronization back exactly until the second of the retry; a success does
    until the second of the next interval, unless that is more than the horizon of
    thirty days ahead, and then not at all. *)
Theorem outcomes_schedule now interval cause message s t :
  valid_time now → valid_time (now + hour) → valid_time (now + interval) → (now ≤ t)%Z →
  let retry := truncated (now + backoffDelay (wrap_int (ss_ConsecutiveFailures s + 1))) in
  let next := truncated (now + interval) in
  due (failure_state now cause message s) t = bool_decide (retry ≤ t)%Z ∧
  due (skipped_state now s) t = bool_decide (truncated (now + skippedRetryDelay) ≤ t)%Z ∧
  due (success_state now interval s) t = bool_decide (next ≤ t ∨ t + maxScheduleHorizon < next)%Z.
Proof.
  intros Hn Hh Hi Ht retry next.
  pose proof (backoff_bounds (wrap_int (ss_ConsecutiveFailures s + 1))) as Hb.
  set (delay := backoffDelay _) in *.
  assert (0 < backoffBase ∧ backoffCap = hour ∧ hour < maxScheduleHorizon ∧ 0 < skippedRetryDelay < hour)%Z as Hc
    by (unfold backoffBase, backoffCap, maxScheduleHorizon, skippedRetryDelay, hour, second; lia).
  assert (valid_time (now + delay) ∧ valid_time (now + skippedRetryDelay)) as [Hvd Hvs]
    by (unfold valid_time in *; lia).
  pose proof (truncated_bounds (now + delay)). pose proof (truncated_bounds (now + skippedRetryDelay)).
  assert (0 ≤ truncated (now + interval))%Z by (apply Z.mul_nonneg_nonneg, second_pos; apply Z.div_pos; [apply Hi|done]).
  assert (0 ≤ now)%Z by apply Hn.
  rewrite (due_scheduled _ (now + delay)), (due_scheduled _ (now + skippedRetryDelay)),
    (due_scheduled _ (now + interval)) by done.
  unfold waits, retry, next.
  split_and!; repeat case_bool_decide; simpl; first [done | exfalso; lia].
Qed.

(** A configured interval of more than thirty days and a second does not hold
    synchronization back at all: the state a success records is due at once. *)
Theorem long_interval_never_waits now interval s :
  valid_time now → valid_time (now + interval) → (maxScheduleHorizon + second ≤ interval)%Z →
  due (success_state now interval s) now = true.
Proof.
  intros Hn Hi Hl. pose proof (truncated_bounds (now + interval)).
  rewrite (due_scheduled _ (now + interval)) by done. unfold waits.
  by rewrite bool_decide_eq_false_2 by lia.
Qed.

(** ** Claims *)

Context {S : Type} `{SyncEnv S}.

Definition any_event (h : list event) (e : event) : Prop := True.

(** The sync-state lock is held over the state file. *)
Definition state_held (f : doc SyncState) : assertion := λ d l _, lk_state l = true ∧ d_state d = f.
#[local] Instance state_held_stable f : Stable (state_held f).
Proof. split; [|done]. intros d d' l h [Hl Hf]. split; [done|]. unfold protect. by rewrite Hl. Qed.

Definition anything : assertion := λ _ _ _, True.
#[local] Instance anything_stable : Stable anything.
Proof. by split. Qed.

(** What a claim leaves on disk. *)
Definition claimed_state (now : Z) (token : string) (d : doc SyncState) : Prop :=
  ∃ s raw, due s now = true ∧ token = hex_encode raw ∧
    d = Doc (with_claim s (rfc3339_utc (now + claimTTL)) token).


Definition claimed (now : Z) (r : option string) : assertion := λ d _ _,
  match r with Some token => claimed_state now token (d_state d) | None => True end.

Lemma claim_leaves now :
  spec any_event anything (claimBackground now)
    (claimed now).
Proof.
  unfold claimBackground. eapply spec_bind with (R := λ r d l _, is_ok r = true → lk_state l = true).
  { apply spec_acquire; [apply _|]. by intros d l h _. }
  intros [[]|e]; [|by apply spec_ret].
  eapply spec_pre with (P' := λ d l h, ∃ f, state_held f d l h).
  { intros d l h Hl. exists (d_state d). split; [by apply Hl|done]. }
  apply spec_exists. intros f.
  eapply spec_bind; [apply (spec_read _ (state_held f) state_of); apply _|]. intros s. cbv beta.
  eapply spec_bind with (R := claimed now).
  2: { intros r. eapply spec_bind; [by apply (spec_release _ _ _ (λ _, claimed now r))|]. intros ?. by apply spec_ret. }
  destruct (due s now) eqn:Hdue; cbn [negb]; [|by apply spec_ret].
  apply (spec_pre _ _ (state_held f)); [by intros d l h [_ ?]|].
  eapply spec_bind; [apply keeps_random, _|]. intros [raw|]; [|by apply spec_ret]. cbv zeta.
  eapply spec_bind with (R := λ ok d _ _, ok = true → claimed_state now (hex_encode raw) (d_state d)).
  { apply spec_write; [apply _|]. intros d l h _. split_and!; [done| |done]. intros _. by exists s, raw. }
  intros [|]; apply spec_ret; [|done]. intros d l h Hc. by apply Hc.
Qed.

(** Nobody else writes the state file. *)
Definition quiet : Prop := ∀ n d, d_state (sy_others n d) = d_state d.

Lemma quiet_state l d n : quiet → d_state (protect l d (sy_others n d)) = d_state d.
Proof. intros Hq. unfold protect. cbn [d_state]. rewrite Hq. by destruct (lk_state l). Qed.

Lemma quiet_state_of l d n : quiet → state_of (protect l d (sy_others n d)) = state_of d.
Proof. intros Hq. unfold state_of. by rewrite quiet_state. Qed.

Lemma claim_not_due now w :
  quiet → due (state_of (w_disk w)) now = false →
  let '(r, w') := claimBackground now w in r = None ∧ d_state (w_disk w') = d_state (w_disk w).
Proof.
  intros Hq Hd. unfold claimBackground, acquire, release, LoadSyncState, read, gets, modify, yield, with_locks.
  unfold mbind, M_bind, mret, M_ret. destruct (sy_lock _) as [[]|e]; cbn [w_disk w_tick w_locks w_log w_service].
  - rewrite !quiet_state_of, Hd by done. cbn. rewrite Hq. by destruct (lk_state _).
  - by rewrite quiet_state.
Qed.

Lemma due_claimed s token now t :
  (0 ≤ now)%Z → valid_time (now + claimTTL) → (now ≤ t < truncated (now + claimTTL))%Z →
  due (with_claim s (rfc3339_utc (now + claimTTL)) token) t = false.
Proof.
  intros H0 Hv Ht. apply due_false. right. cbn [with_claim ss_InFlightUntil].
  rewrite parseStateTime_utc by done. pose proof (truncated_bounds (now + claimTTL)).
  unfold waits. split_and!; lia.
Qed.

(** Claims exclude each other. A process that obtained the background claim leaves
    it on disk, and until the second in which it expires another process that finds
    that state file obtains none and changes nothing. *)
Theorem claims_exclude_each_other now w t w2 :
  quiet → (0 ≤ now)%Z → valid_time (now + claimTTL) → (now ≤ t < truncated (now + claimTTL))%Z →
  let '(r, w') := claimBackground now w in
  d_state (w_disk w2) = d_state (w_disk w') →
  match r with
  | None => True
  | Some token =>
      ss_ClaimToken (state_of (w_disk w')) = token ∧
      let '(r2, w2') := claimBackground t w2 in r2 = None ∧ d_state (w_disk w2') = d_state (w_disk w')
  end.
Proof.
  intros Hq H0 Hv Ht. pose proof (claim_leaves now w I) as Hc. destruct (claimBackground now w) as [[token|] w']; [|done].
  destruct Hc as [(s & raw & Hdue & Htok & Hs) _]. intros Hw2. unfold state_of. rewrite Hs. split; [done|].
  pose proof (claim_not_due t w2 Hq) as Hn.
  assert (due (state_of (w_disk w2)) t = false) as Hd.
  { unfold state_of. rewrite Hw2, Hs. by apply due_claimed. }
  specialize (Hn Hd). destruct (claimBackground t w2) as [r2 w2']. by rewrite <- Hs, <- Hw2.
Qed.

(** ** Recording *)

Lemma mutateState_lost t fn w :
  quiet → t_claim t ≠ "" → ss_ClaimToken (state_of (w_disk w)) ≠ t_claim t →
  d_state (w_disk (snd (mutateState t fn w))) = d_state (w_disk w).
Proof.
  intros Hq Hc Ht.
  unfold mutateState, withStateLock, acquire, release, LoadSyncState, read, gets, modify, yield, with_locks.
  unfold mbind, M_bind, mret, M_ret. destruct (sy_lock _) as [[]|e]; cbn [w_disk w_tick w_locks w_log w_service snd].
  - rewrite !quiet_state_of by done. unfold empty_string.
    rewrite (bool_decide_eq_false_2 _ Hc), (bool_decide_eq_false_2 _ Ht). cbn. rewrite Hq. by destruct (lk_state _).
  - by rewrite quiet_state.
Qed.

(** What [recordSuccess], [recordFailure], [RecordSkipped] and the release of the
    claim have in common. *)
Inductive recording (t : Transaction) : M S () → Prop :=
  | recording_success : recording t (recordSuccess t)
  | recording_failure e : recording t (recordFailure t e)
  | recording_skipped : recording t (RecordSkipped t)
  | recording_release : recording t (releaseClaim t).

(** An outcome needs the claim. Once another process took over the claim, nothing a
    background attempt records, its release of the claim included, changes the state
    file. *)
Theorem outcomes_need_the_claim t m w :
  quiet → recording t m → t_claim t ≠ "" → ss_ClaimToken (state_of (w_disk w)) ≠ t_claim t →
  d_state (w_disk (snd (m w))) = d_state (w_disk w).
Proof.
  intros Hq Hm Hc Ht.
  destruct Hm; unfold recordSuccess, recordFailure, RecordSkipped, releaseClaim, clock, read, gets;
    try destruct (describeFailure t e);
    unfold mbind, M_bind, mret, M_ret, yield; cbn [w_disk w_tick w_locks w_log w_service];
    rewrite mutateState_lost by (try done; cbn [w_disk]; by rewrite ?quiet_state_of);
    cbn [w_disk]; by rewrite ?quiet_state.
Qed.
End Schedule.

(** ** Superseded identities *)

Definition keep_superseded (next : string) (acc : list string) (identity : string) : list string :=
  if bool_decide (identity = next) || bool_decide (identity ∈ acc) then acc else acc ++ [identity].

Lemma keep_superseded_fold next recorded acc :
  NoDup acc → next ∉ acc →
  let l := foldl (keep_superseded next) acc recorded in
  NoDup l ∧ next ∉ l ∧ length l ≤ length acc + length recorded ∧
  ∀ x, x ∈ l ↔ x ∈ acc ∨ (x ∈ recorded ∧ x ≠ next).
Proof.
  revert acc. induction recorded as [|y recorded IH]; intros acc Hnd Hn; [simpl; set_solver by lia|].
  cbn [foldl]. unfold keep_superseded at 2 4 6 8.
  destruct (bool_decide (y = next) || bool_decide (y ∈ acc)) eqn:E.
  - destruct (IH acc Hnd Hn) as (? & ? & ? & Hin). split_and!; [done..|simpl; lia|].
    intros x. rewrite Hin. apply orb_true_iff in E as [->%bool_decide_eq_true_1|?%bool_decide_eq_true_1]; set_solver.
  - bool_to_prop. destruct (IH (acc ++ [y])) as (? & ? & Hl & Hin); [|set_solver|].
    { apply NoDup_app. split_and!; [done|set_solver|apply NoDup_singleton]. }
    rewrite length_app in Hl. split_and!; [done..|simpl in *; lia|]. intros x. rewrite Hin. set_solver.
Qed.

Lemma superseded_list_elem old next recorded :
  old ≠ next → length recorded ≤ maxSuperseded →
  let l := superseded_list old next recorded in
  NoDup l ∧ length l ≤ maxSuperseded ∧ next ∉ l ∧ old ∈ l ∧
  (∀ x, x ∈ l → x = old ∨ x ∈ recorded) ∧
  (length recorded < maxSuperseded → ∀ x, x ∈ recorded → x ≠ next → x ∈ l).
Proof.
  intros Hne Hlen. unfold superseded_list. fold (keep_superseded next).
  destruct (keep_superseded_fold next recorded []) as (Hnd & Hn & Hl & Hin); [constructor|set_solver|].
  set (l := foldl _ _ _) in *. simpl in Hl.
  destruct (decide (old ∈ l)) as [Ho|Ho].
  - rewrite (bool_decide_eq_true_2 _ Ho), bool_decide_eq_false_2 by lia. set_solver by lia.
  - rewrite (bool_decide_eq_false_2 _ Ho). rewrite length_app. cbn [length].
    assert (NoDup (l ++ [old])) as Hnd'.
    { apply NoDup_app. split_and!; [done|set_solver|apply NoDup_singleton]. }
    case_bool_decide as Hm.
    + replace (length l + 1 - maxSuperseded) with 1 by (unfold maxSuperseded in *; lia).
      destruct l as [|x l]; [unfold maxSuperseded in *; simpl in *; lia|]. 
      change (drop 1 ((x :: l) ++ [old])) with (l ++ [old]).
      rewrite length_app. cbn [length app] in *. inversion Hnd'; subst. set_solver by lia.
    + rewrite length_app. cbn [length]. set_solver by lia.
Qed.

Lemma keep_superseded_filter next recorded acc :
  NoDup (acc ++ recorded) →
  foldl (keep_superseded next) acc recorded = acc ++ filter (λ i, i ≠ next) recorded.
Proof.
  revert acc. induction recorded as [|y recorded IH]; intros acc Hnd; [by rewrite app_nil_r|].
  cbn [foldl]. unfold keep_superseded at 2. rewrite filter_cons.
  assert (y ∉ acc) as Hy by (apply NoDup_app in Hnd as (_ & Hd & _); set_solver).
  rewrite (bool_decide_eq_false_2 _ Hy), orb_false_r.
  destruct (decide (y ≠ next)) as [Hn|Hn].
  - rewrite bool_decide_eq_false_2 by done. rewrite IH by (by rewrite <- app_assoc). by rewrite <- app_assoc.
  - rewrite bool_decide_eq_true_2 by (by destruct (decide (y = next))). apply IH.
    apply NoDup_app in Hnd as (? & Hd & Hr). apply NoDup_cons in Hr as [? ?]. apply NoDup_app. set_solver.
Qed.

(** An entry recedes from the end of the list by at most one place. *)
Lemma superseded_list_recede old next x a b :
  NoDup (a ++ x :: b) → length (a ++ x :: b) ≤ maxSuperseded → x ≠ next → Datatypes.S (length b) < maxSuperseded →
  ∃ a' b', superseded_list old next (a ++ x :: b) = a' ++ x :: b' ∧ length b' ≤ Datatypes.S (length b).
Proof.
  intros Hnd Hlen Hx Hb. unfold superseded_list. fold (keep_superseded next).
  rewrite (keep_superseded_filter next _ []) by done. cbn [app].
  rewrite filter_app, filter_cons_True by done.
  set (a1 := filter _ a). set (b1 := filter _ b).
  assert (length a1 ≤ length a ∧ length b1 ≤ length b) as [Ha1 Hb1] by (split; apply length_filter).
  rewrite length_app in Hlen. cbn [length] in Hlen.
  assert (length ((a1 ++ x :: b1) ++ [old]) = length a1 + length b1 + 2) as Hl
    by (rewrite !length_app; cbn [length]; lia).
  destruct (decide (old ∈ a1 ++ x :: b1)) as [Ho|Ho];
    [rewrite (bool_decide_eq_true_2 _ Ho)|rewrite (bool_decide_eq_false_2 _ Ho)].
  - rewrite bool_decide_eq_false_2 by (rewrite length_app; cbn [length]; lia). exists a1, b1. split; [done|lia].
  - case_bool_decide as Hm.
    + rewrite Hl in *. rewrite <- app_assoc. cbn [app]. rewrite drop_app_le by lia.
      eexists _, (b1 ++ [old]). split; [done|]. rewrite length_app. cbn [length]. lia.
    + exists a1, (b1 ++ [old]). rewrite <- app_assoc. split; [done|]. rewrite length_app. cbn [length]. lia.
Qed.

(** The list after the remote identity moved from [cached] through [nexts], as each
    commit records it. *)
Fixpoint superseded_after (cached : string) (nexts recorded : list string) : list string :=
  match nexts with
  | [] => recorded
  | next :: nexts' =>
      superseded_after next nexts'
        (if empty_string cached || empty_string next || bool_decide (cached = next) then recorded
         else superseded_list cached next recorded)
  end.

Lemma superseded_after_keeps x nexts :
  ∀ cached a b, NoDup (a ++ x :: b) → length (a ++ x :: b) ≤ maxSuperseded → x ∉ nexts →
  length b + length nexts < maxSuperseded → x ∈ superseded_after cached nexts (a ++ x :: b).
Proof.
  induction nexts as [|next nexts IH]; intros cached a b Hnd Hlen Hx Hb; [simpl; set_solver|].
  cbn [superseded_after length] in *.
  destruct (empty_string cached || empty_string next || bool_decide (cached = next)) eqn:E;
    [apply IH; [done|done|set_solver|lia]|]. bool_to_prop.
  destruct (superseded_list_recede cached next x a b) as (a' & b' & Heq & Hb'); [done|done|set_solver|lia|].
  destruct (superseded_list_elem cached next (a ++ x :: b)) as (Hnd' & Hlen' & _); [done|done|].
  rewrite Heq in *. apply IH; [done|done|set_solver|lia].
Qed.

Lemma superseded_list_last old next recorded :
  old ≠ next → old ∉ recorded → ∃ a, superseded_list old next recorded = a ++ [old].
Proof.
  intros Hne Ho. unfold superseded_list. fold (keep_superseded next).
  destruct (keep_superseded_fold next recorded []) as (_ & _ & _ & Hin); [constructor|set_solver|].
  set (l := foldl _ _ _) in *. assert (old ∉ l) as Hol by (rewrite Hin; set_solver).
  rewrite (bool_decide_eq_false_2 _ Hol).
  case_bool_decide as Hm; [|by exists l]. rewrite drop_app_le; [by eexists|].
  rewrite length_app. cbn [length]. unfold maxSuperseded. lia.
Qed.

(** A remote version this machine replaced stays refused. Once the confirmed remote
    identity moved on from [old], which was no superseded one, [old] is recorded as
    superseded through the next sixty-three moves, as long as the remote is not
    confirmed at [old] again. *)
Theorem replaced_identities_stay_superseded old next nexts recorded :
  old ≠ "" → next ≠ "" → old ≠ next → old ∉ nexts → old ∉ recorded → length nexts < maxSuperseded →
  length recorded ≤ maxSuperseded →
  old ∈ superseded_after old (next :: nexts) recorded ∧ next ∉ superseded_list old next recorded.
Proof.
  intros Ho Hn Hne Hin Hfresh Hlen Hrec. cbn [superseded_after]. unfold empty_string.
  rewrite !bool_decide_eq_false_2 by done. cbn [orb].
  destruct (superseded_list_elem old next recorded Hne Hrec) as (Hnd' & Hlen' & Hnext & _).
  split; [|done]. destruct (superseded_list_last old next recorded Hne Hfresh) as [a Ha].
  rewrite Ha in *. by apply superseded_after_keeps.
Qed.

(** ** Messages *)

Lemma rune_cut_le s cut : rune_cut s cut ≤ cut.
Proof. induction cut as [|cut IH]; simpl; [done|]. case_all; lia. Qed.

Lemma substring_length s n : String.length (String.substring 0 n s) ≤ n.
Proof. revert n. induction s as [|c s IH]; intros [|n]; simpl; try lia. specialize (IH n). lia. Qed.

Lemma substring_app s n : ∃ rest, s = String.substring 0 n s +:+ rest.
Proof.
  revert n. induction s as [|c s IH]; intros [|n]; [by exists ""..|by exists (String c s)|].
  destruct (IH n) as [rest Hr]. exists rest. cbn [String.substring]. rewrite Hr at 1. done.
Qed.

Lemma get_none_length s n : String.get n s = None → String.length s ≤ n.
Proof.
  revert n. induction s as [|c s IH]; intros [|n] Hn; simpl in *; try done; [lia|]. apply IH in Hn. lia.
Qed.

Lemma rune_cut_start s cut c :
  String.get (rune_cut s cut) s = Some c → rune_cut s cut = 0 ∨ RuneStart c = true.
Proof.
  induction cut as [|cut IH]; cbn [rune_cut]; [by left|].
  destruct (String.get (Datatypes.S cut) s) as [c'|] eqn:E; [|congruence].
  destruct (RuneStart c') eqn:Hr; [|exact IH]. intros Hc. right. congruence.
Qed.

Lemma substring_length_exact s n : n ≤ String.length s → String.length (String.substring 0 n s) = n.
Proof. revert n. induction s as [|c s IH]; intros [|n] Hn; simpl in *; try lia. rewrite IH; lia. Qed.

(** A recorded message is a prefix of the described one, at most the limit long, the
    whole of it when that fits, and otherwise cut where a character starts. *)
Theorem messages_are_cut_at_characters s max :
  let t := truncateUTF8 s max in
  String.length t ≤ max ∧ (∃ rest, s = t +:+ rest) ∧
  (if decide (String.length s ≤ max) then t = s
   else t = "" ∨ ∃ c, String.get (String.length t) s = Some c ∧ RuneStart c = true).
Proof.
  cbv zeta. unfold truncateUTF8. case_bool_decide as Hs.
  - rewrite decide_True by done. split_and!; [done| |done]. exists "". by rewrite str_app_nil_r.
  - rewrite decide_False by done. pose proof (rune_cut_le s max). split_and!.
    + etrans; [apply substring_length|done].
    + apply substring_app.
    + destruct (decide (rune_cut s max = 0)) as [->|Hc]; [left; by destruct s|right].
      rewrite substring_length_exact by lia.
      destruct (String.get (rune_cut s max) s) as [c|] eqn:E.
      * exists c. split; [done|]. by apply rune_cut_start in E as [|].
      * apply get_none_length in E. lia.
Qed.
