(* ===== verification/Publication.v ===== *)
(** * Publication ([internal/inventorytransaction/transaction.go], [publication_lock.go])

    Publishing the pending mutations: dependency preflight and projection, the
    durable intent, the push and its confirmation, the local finalization, and the
    recovery of an interrupted publication. *)

From S2P Require Import Prelude GoStrings GoErrors NamedList VaultBlob Config SyncProtocol Cloud Ledger HostMutation PublishingIntent SyncWorld SyncSchedule SyncTransaction.

(** [json.MarshalIndent] of a vault, and [json.Unmarshal] into a vault and into the
    list of connections older versions wrote. *)
Class VaultJson := {
  marshal_vault : Vault → bytes;
  unmarshal_vault : bytes → option Vault;
  unmarshal_connections : bytes → option (list Connection);
}.

(** A vault that was written is read back. *)
Class VaultJsonLaws (J : VaultJson) : Prop := {
  unmarshal_marshal v : unmarshal_vault (marshal_vault v) = Some v;
}.

(** [time.Parse] with [time.RFC3339Nano] succeeds; the length of the intent
    document. *)
Class IntentJson := {
  parses_RFC3339Nano : string → bool;
  document_size : publishingIntent → Z;
}.

Definition ErrPublicationBusy : goerror := Sentinel "inventorytransaction.ErrPublicationBusy" [].
Definition errPublicationScopeFinalized : goerror :=
  Sentinel "inventorytransaction.errPublicationScopeFinalized" [].
Definition errPublicationScopePending : goerror :=
  Sentinel "inventorytransaction.errPublicationScopePending" [].

Inductive publication_error := InLedger (e : ledger_error) | InSync (e : goerror).

(** [inventorytransaction.Transaction]: [iv_sync] is [None] for a nil pointer. *)
Record Inventory := mkInventory { iv_masterPass : bytes; iv_sync : option Transaction }.

Section Publication.
Context {S : Type} `{SyncEnv S} `{service : !SyncService S}.
Context `{Sha256, Json, HttpClient, VaultCrypto, GoTime, SyncHost, VaultJson, IntentJson}.

(** ** [config.Load], [EncryptVault] and [Save] *)

Definition decode_vault (data masterPass : bytes) : result Vault :=
  plaintext ← Decrypt data masterPass;
  match unmarshal_vault plaintext with
  | Some v => Ok v
  | None =>
      match unmarshal_connections plaintext with
      | Some conns => Ok (mkVault conns [] None [])
      | None => Fail (Errorf "unmarshal vault")
      end
  end.

Definition load_file (f : file) (masterPass : bytes) : result Vault :=
  match f with
  | Absent => Ok zero_vault
  | NoAccess | Opaque => Fail (Errorf "read vault")
  | Content data => decode_vault data masterPass
  end.

Definition Load (masterPass : bytes) : M S (result Vault) :=
  f ← read d_vault; mret (load_file f masterPass).

Definition next_generation : M S Z :=
  f ← read d_vault;
  seen ← read d_generation;
  mret (NextVaultGeneration (file_content f) seen).

Definition EncryptVault (v : Vault) (masterPass : bytes) (generation : Z) : M S (result bytes) :=
  salt ← random;
  nonce ← random;
  mret (Encrypt (salt, nonce) (marshal_vault v) masterPass generation).

(** [Save], logging [e] of the disk before and of the bytes when the new content is
    in place. *)
Definition Save (e : Disk → bytes → event) (v : Vault) (masterPass : bytes) : M S (option goerror) :=
  generation ← next_generation;
  encrypted ← EncryptVault v masterPass generation;
  match encrypted with
  | Fail e => mret (Some e)
  | Ok data =>
      ok ← replace_vault (λ d, e d data) data;
      mret (if (ok : bool) then None else Some (Errorf "write private file"))
  end.

(** ** The intent on disk *)

Definition savePublishingIntent (intent : publishingIntent) : M S (option goerror) :=
  match intent_document parses_RFC3339Nano document_size intent with
  | Fail e => mret (Some e)
  | Ok intent =>
      n ← yield;
      _ ← (if write_stores (sy_write n)
           then _ ← log (λ _, EvIntent (Some intent)); modify (on_disk (set_intent (Doc intent)))
           else mret ());
      mret (if write_succeeds (sy_write n) then None else Some (Errorf "write private file"))
  end.

Definition clearPublishingIntent : M S (option goerror) :=
  n ← yield;
  here ← gets (λ w, doc_present (d_intent (w_disk w)));
  if (here : bool) then
    _ ← (if write_stores (sy_write n)
         then _ ← log (λ _, EvIntent None); modify (on_disk (set_intent Missing))
         else mret ());
    mret (if write_succeeds (sy_write n) then None else Some (Errorf "remove private file"))
  else mret None.

Definition loadIntent : M S (option (result publishingIntent)) :=
  read (λ d, loadPublishingIntent parses_RFC3339Nano (d_intent d)).

(** ** The publication lock *)

Definition BeginPublication : M S (result ()) :=
  r ← acquire set_publication_lock;
  mret match r with
       | Ok u => Ok u
       | Fail e =>
           Fail (if is_sentinel e ErrLockBusy
                 then Wrap "another process still owns the publication lock" [ErrPublicationBusy]
                 else Wrap "acquire publication lock" [e])
       end.

Definition ClosePublication : M S () := release set_publication_lock.

(** [s.active()]: this process holds the lock. *)
Definition active : M S bool := gets (λ w, lk_publication (w_locks w)).

(** [lockVaultWrite] *)
Definition lock_vault_write : M S (result ()) :=
  r ← acquire set_vault_lock;
  mret match r with
       | Ok u => Ok u
       | Fail e => Fail (if is_sentinel e ErrLockBusy then ErrVaultBusy else e)
       end.

(** ** Finalization *)

Definition intent_only (intent : publishingIntent) : string :=
  match pi_TransactionIDs intent with
  | [id] => if bool_decide (pi_Scope intent = "only") then id else ""
  | _ => ""
  end.

Definition finalized_receipt (intent : publishingIntent) (selected : list PendingMutation)
    (localAfter : Vault) : PublicationReceipt :=
  let receipt := publicationReceipt (intent_only intent) selected localAfter in
  match selected with
  | [] => mkPublicationReceipt (pr_OK receipt) (pr_Action receipt) (pr_Scope receipt) (pr_Only receipt)
            (publishingIntentMutationViews (pi_Transactions intent) (pi_TransactionIDs intent))
            (pr_Remaining receipt)
  | _ => receipt
  end.

(** From the projection on, under the vault lock. *)
Definition finalize_projection (t : Inventory) (sync : Transaction) (intent : publishingIntent)
    (current : Vault) (p : projection) : M S (result PublicationReceipt) :=
  let localAfter := markPublished (cloneVault current) (p_Selected p) (p_Vault p) in
  saved ←
    match p_Selected p with
    | [] => mret None
    | _ => Save (λ d data, EvFinalize intent d data) localAfter (iv_masterPass t)
    end;
  match saved with
  | Some e => mret (Fail (Wrap "finalize confirmed publication" [e]))
  | None =>
      _ ← ConfirmPublication sync (pi_TargetIdentity intent);
      cleared ← clearPublishingIntent;
      mret match cleared with
           | Some e => Fail (Wrap "clear finalized publishing intent" [e])
           | None => Ok (finalized_receipt intent (p_Selected p) localAfter)
           end
  end.

Definition finalize_locked (t : Inventory) (sync : Transaction) (intent : publishingIntent) :
    M S (result PublicationReceipt) :=
  current ← Load (iv_masterPass t);
  match current with
  | Fail e => mret (Fail (Wrap "load pending publication for finalization" [e]))
  | Ok current =>
      match projectTransactionIDs current (pi_TransactionIDs intent) with
      | Fail e => mret (Fail e)
      | Ok p => finalize_projection t sync intent current p
      end
  end.

Definition finalizePublishingIntent (t : Inventory) (sync : Transaction) (intent : publishingIntent) :
    M S (result PublicationReceipt) :=
  r ← lock_vault_write;
  match r with
  | Fail e => mret (Fail e)
  | Ok _ => out ← finalize_locked t sync intent; _ ← release set_vault_lock; mret out
  end.

(** ** Recovery *)

(** The receipt, the recovery view and the error. *)
Definition reconciled : Type := PublicationReceipt * option PublicationRecovery * option goerror.

(** Returning the intent's transactions to pending. *)
Definition return_to_pending (intent : publishingIntent) : M S reconciled :=
  cleared ← clearPublishingIntent; mret (no_receipt, Some (recoveryView intent "pending"), cleared).

(** Finalizing a confirmed intent, keeping it when that fails. *)
Definition finalize_confirmed (t : Inventory) (sync : Transaction) (intent : publishingIntent) :
    M S reconciled :=
  r ← finalizePublishingIntent t sync intent;
  match r with
  | Fail e =>
      let intent := set_state intentFinalizationFailed intent in
      _ ← savePublishingIntent intent;
      mret (no_receipt, Some (recoveryView intent intentFinalizationFailed), Some e)
  | Ok receipt => mret (receipt, Some (recoveryView intent "confirmed"), None)
  end.

Definition target_of (intent : publishingIntent) : BlobIdentity := mkIdentity true (pi_TargetIdentity intent).
Definition prerequisite_of (intent : publishingIntent) : BlobIdentity :=
  mkIdentity (pi_PrerequisiteExists intent) (pi_PrerequisiteIdentity intent).

(** Deciding on the remote identity observed for an intent whose request may have
    been sent. *)
Definition reconcile_observed (t : Inventory) (sync : Transaction) (intent : publishingIntent)
    (remote : BlobIdentity) : M S reconciled :=
  if identity_equal remote (target_of intent) then finalize_confirmed t sync intent
  else if identity_equal remote (prerequisite_of intent) then return_to_pending intent
  else
    let intent := set_observed (bi_Exists remote) (bi_Value remote) (set_state intentDivergent intent) in
    saved ← savePublishingIntent intent;
    mret (no_receipt, Some (recoveryView intent intentDivergent),
      Some match saved with
           | Some e => e
           | None => Wrap "remote publication identity is neither prerequisite nor target" [ErrConflict]
           end).

Definition reconcilePublishingIntent (t : Inventory) (sync : Transaction) : M S reconciled :=
  loaded ← loadIntent;
  match loaded with
  | None => mret (no_receipt, None, None)
  | Some (Fail e) => mret (no_receipt, None, Some e)
  | Some (Ok intent) =>
      if bool_decide (pi_State intent = intentPrepared) then return_to_pending intent
      else if bool_decide (pi_State intent = intentFinalizationFailed) then finalize_confirmed t sync intent
      else if t_offline sync then mret (no_receipt, Some (recoveryView intent (pi_State intent)), None)
      else
        remote ← ObservePublicationIdentity sync;
        match remote with
        | Fail e => mret (no_receipt, Some (recoveryView intent (pi_State intent)), Some e)
        | Ok remote => reconcile_observed t sync intent remote
        end
  end.

Definition ReconcilePublishingIntent (t : Inventory) (sync : Transaction) :
    M S (option PublicationRecovery * option goerror) :=
  session ← BeginPublication;
  match session with
  | Fail e => mret (None, Some e)
  | Ok _ =>
      '(_, recovery, err) ← reconcilePublishingIntent t sync;
      _ ← ClosePublication;
      mret (recovery, err)
  end.

(** ** Publishing *)

(** What to publish after recovery: a receipt to return, or the projection. *)
Definition choose_projection (v : Vault) (only : string) (receipt : PublicationReceipt)
    (recovery : option PublicationRecovery) :
    publication_error + (PublicationReceipt + projection) :=
  let projected :=
    match project v only with inl e => inl (InLedger e) | inr p => inr (inr p) end in
  match recovery with
  | None => projected
  | Some r =>
      if bool_decide (re_State r = "confirmed") then
        if matchesRecovery only recovery then inr (inl receipt) else inl (InSync errPublicationScopeFinalized)
      else if bool_decide (re_State r = "pending") then
        if negb (matchesRecovery only recovery) then inl (InSync errPublicationScopePending)
        else if empty_string only then
          match projectTransactionIDs v (re_TransactionIDs r) with
          | Fail e => inl (InSync e)
          | Ok p => inr (inr p)
          end
        else projected
      else inl (InSync ErrUnconfigured)
  end.

(** After the target was confirmed. *)
Definition publish_confirmed (t : Inventory) (sync : Transaction) (intent : publishingIntent) :
    M S (publication_error + PublicationReceipt) :=
  r ← finalizePublishingIntent t sync intent;
  match r with
  | Fail e =>
      _ ← savePublishingIntent (set_state intentFinalizationFailed intent);
      mret (inl (InSync e))
  | Ok receipt => mret (inr receipt)
  end.

(** What a failed push leaves of the intent. *)
Definition keep_failed_intent (intent : publishingIntent) (remote : BlobIdentity) (e : goerror) : M S () :=
  if is_sentinel e ErrPushNotSent || is_sentinel e ErrPushRejected then
    _ ← clearPublishingIntent; mret ()
  else if is_sentinel e ErrPushAmbiguous then
    _ ← savePublishingIntent (set_state intentAmbiguous intent); mret ()
  else if is_sentinel e ErrConflict then
    _ ← savePublishingIntent
      (set_observed (bi_Exists remote) (bi_Value remote) (set_state intentDivergent intent)); mret ()
  else mret ().

(** From the ready intent on. *)
Definition publish_ready (t : Inventory) (sync : Transaction) (intent : publishingIntent)
    (blob : bytes) (prepared : PreparedPublication) : M S (publication_error + PublicationReceipt) :=
  '(remote, err) ← SendPublication sync blob prepared;
  match err with
  | Some e => _ ← keep_failed_intent intent remote e; mret (inl (InSync e))
  | None =>
      if negb (bool_decide (bi_Value remote = pi_TargetIdentity intent)) then
        mret (inl (InSync (Wrap "target identity was not confirmed" [ErrConflict])))
      else publish_confirmed t sync intent
  end.

(** From the first save of the intent on. *)
Definition publish_prepared (t : Inventory) (sync : Transaction) (intent : publishingIntent)
    (blob : bytes) : M S (publication_error + PublicationReceipt) :=
  saved ← savePublishingIntent intent;
  match saved with
  | Some e => mret (inl (InSync e))
  | None =>
      prepared ← PreparePublication sync blob;
      match prepared with
      | Fail e => _ ← clearPublishingIntent; mret (inl (InSync e))
      | Ok prepared =>
          let intent := set_prerequisite (bi_Exists (pp_Prerequisite prepared))
            (bi_Value (pp_Prerequisite prepared)) (set_state intentReady intent) in
          saved ← savePublishingIntent intent;
          match saved with
          | Some e => mret (inl (InSync e))
          | None => publish_ready t sync intent blob prepared
          end
      end
  end.

Definition publish_projection (t : Inventory) (sync : Transaction) (v : Vault) (only : string)
    (p : projection) : M S (publication_error + PublicationReceipt) :=
  match p_Selected p with
  | [] =>
      err ← VerifyEmptyPublication sync;
      mret match err with
           | Some e => inl (InSync e)
           | None =>
               let receipt := publicationReceipt only [] v in
               inr (mkPublicationReceipt (pr_OK receipt) "noop" (pr_Scope receipt) (pr_Only receipt)
                      (pr_Preflight receipt) (pr_Remaining receipt))
           end
  | selected =>
      generation ← next_generation;
      blob ← EncryptVault (p_Vault p) (iv_masterPass t) generation;
      match blob with
      | Fail e => mret (inl (InSync e))
      | Ok blob =>
          cached ← CachedPublicationPrerequisite;
          match cached with
          | Fail e => mret (inl (InSync e))
          | Ok cached =>
              publish_prepared t sync
                (prepared_intent only selected (hashBytes blob) (bi_Exists cached) (bi_Value cached)) blob
          end
      end
  end.

Definition Publish (t : Inventory) (v : Vault) (only : string) : M S (publication_error + PublicationReceipt) :=
  session ← active;
  if negb session then mret (inl (InSync (Errorf "active publication session is required")))
  else
    match iv_sync t with
    | None => mret (inl (InSync (Errorf "sync transaction is required for publication")))
    | Some sync =>
        '(receipt, recovery, err) ← reconcilePublishingIntent t sync;
        match err with
        | Some e => mret (inl (InSync e))
        | None =>
            match choose_projection v only receipt recovery with
            | inl e => mret (inl e)
            | inr (inl receipt) => mret (inr receipt)
            | inr (inr p) => publish_projection t sync v only p
            end
        end
    end.
End Publication.
