(* ===== verification/PublicationFacts.v ===== *)
(** * Publication is write-ahead

    A publication sends its request only for the intent that is durably on disk,
    finalizes the vault only after the service was seen at the intent's target, and
    then removes exactly the published transactions; what it leaves on disk when it
    fails lets recovery decide. *)

From S2P Require Import Prelude GoStrings GoErrors NamedList VaultBlob Config SyncProtocol Cloud Ledger LedgerFacts ProjectionFacts HostMutation PublishingIntent SyncWorld SyncSchedule SyncTransaction SyncLogic SyncTransactionFacts Publication.

Section Safety.
Context `{Sha256, VaultCrypto, VaultJson, IntentJson}.

(** The service was observed at the intent's target. *)
Definition confirmed (intent : publishingIntent) (h : list event) : Prop :=
  EvRemote true (pi_TargetIdentity intent) ∈ h.

(** The service was observed at the intent's prerequisite. *)
Definition prerequisite_seen (intent : publishingIntent) (h : list event) : Prop :=
  ∃ v, EvRemote (pi_PrerequisiteExists intent) v ∈ h ∧
    (pi_PrerequisiteExists intent = true → v = pi_PrerequisiteIdentity intent).

(** An intent on disk whose finalization failed was confirmed. *)
Definition sound (i : doc publishingIntent) (h : list event) : Prop :=
  ∀ intent, i = Doc intent → pi_State intent = intentFinalizationFailed → confirmed intent h.

(** The vault the finalization of an intent may replace, and by what. *)
Definition finalizes (masterPass : bytes) (intent : publishingIntent) (before : Disk) (blob : bytes) : Prop :=
  ∃ current p,
    load_file (d_vault before) masterPass = Ok current ∧
    projectTransactionIDs current (pi_TransactionIDs intent) = Ok p ∧ p_Selected p ≠ [] ∧
    decode_vault blob masterPass = Ok (markPublished current (p_Selected p) (p_Vault p)) ∧
    ValidVaultBlob blob = true ∧
    ((0 ≤ MaxSeenGeneration (d_generation before) ≤ max_uint64)%Z →
      VaultGeneration blob = (NextVaultGeneration (file_content (d_vault before)) (d_generation before), true)).

(** What a publication may do. *)
Definition publication_event (masterPass : bytes) (h : list event) (e : event) : Prop :=
  match e with
  | EvRequest m body held durable =>
      held = false ∧
      (m = PUT → ∃ intent, durable = Doc intent ∧ pi_State intent = intentReady ∧
        pi_TargetIdentity intent = hashBytes body ∧ prerequisite_seen intent h)
  | EvFinalize intent before blob => confirmed intent h ∧ finalizes masterPass intent before blob
  | EvIntent (Some intent) =>
      validatePublishingIntent parses_RFC3339Nano intent = Ok () ∧
      (pi_State intent = intentFinalizationFailed → confirmed intent h)
  | EvIdentity identity held => held = true ∧ EvRemote true identity ∈ h
  | EvInstall _ _ _ _ _ => False
  | EvIntent None | EvRemote _ _ | EvInvalidate | EvSpawn _ => True
  end.

(** And what it may do besides the one request that publishes. *)
Definition unsent_event (masterPass : bytes) (h : list event) (e : event) : Prop :=
  publication_event masterPass h e ∧ is_put e = false.

#[export] Instance unsent_net masterPass : NetEvents (unsent_event masterPass).
Proof.
  intros h e He. destruct e; try done. destruct He as [-> Hm]. split; [done|]. by apply bool_decide_eq_false_2.
Qed.

Lemma confirmed_more intent h e : confirmed intent h → confirmed intent (h ++ [e]).
Proof. unfold confirmed. set_solver. Qed.

Lemma sound_more i h e : sound i h → sound i (h ++ [e]).
Proof. intros Hs intent Hi Hf. by apply confirmed_more, Hs. Qed.

#[export] Instance sound_lasting : Lasting sound.
Proof. intros i h e. apply sound_more. Qed.
End Safety.

Section Facts.
Context {S : Type} `{SyncEnv S} `{service : !SyncService S}.
Context `{Sha256, !Sha256Laws _, Json, HttpClient, C : VaultCrypto, !VaultCryptoLaws C}.
Context `{GoTime, SyncHost, VJ : VaultJson, !VaultJsonLaws VJ, IntentJson}.
Context (t : Inventory).

Abbreviation E0 := (unsent_event (iv_masterPass t)).
Abbreviation E1 := (publication_event (iv_masterPass t)).
Notation spec := (spec E0).
Notation keeps := (keeps E0).

(** The vault lock is held or not, and the publication lock is, with what is known
    of the intent on disk and of the log. *)
Definition phase (b : bool) (G : doc publishingIntent → list event → Prop) : assertion :=
  both (locked b) (publishing G).

Lemma phase_weaken b (G G' : doc publishingIntent → list event → Prop) d l h :
  (∀ i h, G i h → G' i h) → phase b G d l h → phase b G' d l h.
Proof. intros HG [Hl [Hp Hd]]. split; [done|]. split; [done|]. by apply HG. Qed.

(** [i] is on disk, with [K] of the log. *)
Definition stored (i : doc publishingIntent) (K : list event → Prop) (d : doc publishingIntent)
    (h : list event) : Prop := d = i ∧ K h.

#[local] Instance stored_lasting i K : (∀ h e, K h → K (h ++ [e])) → Lasting (stored i K).
Proof. intros HK d h e [-> ?]. split; auto. Qed.

(** ** The intent file *)

Lemma intent_document_Ok i i' :
  intent_document parses_RFC3339Nano document_size i = Ok i' →
  i' = i ∧ validatePublishingIntent parses_RFC3339Nano i = Ok ().
Proof.
  unfold intent_document. intros Hd. inv_ok Hd. destruct a. by simplify_eq.
Qed.

(** Saving an intent: on success it is on disk; otherwise it may be. *)
Lemma spec_save b G (K : list event → Prop) i :
  Lasting G → (∀ h e, K h → K (h ++ [e])) → (∀ d h, G d h → K h) →
  (∀ h, K h → pi_State i = intentFinalizationFailed → confirmed i h) →
  spec (phase b G) (savePublishingIntent i)
    (λ r, phase b (λ d h, stored (Doc i) K d h ∨ (r ≠ None ∧ G d h))).
Proof.
  intros HG HK HGK Hi. unfold savePublishingIntent.
  destruct (intent_document _ _ i) as [i'|e] eqn:Hd.
  2: { apply spec_ret. intros d l h Hp. eapply phase_weaken; [|exact Hp]. by right. }
  apply intent_document_Ok in Hd as [-> Hv].
  eapply spec_bind; [apply keeps_yield; apply _|]. intros n.
  eapply spec_bind with (R := λ _, phase b (λ d h,
    if write_stores (sy_write n) then stored (Doc i) K d h else G d h)).
  - destruct (write_stores _).
    + eapply spec_bind with (R := λ _, phase b (λ d h, K h)).
      { apply spec_log. intros w [Hl [Hp Hg]]. apply HGK in Hg as HKh.
        split; [|by split_and!; auto; split; auto]. split; [|done]. split; [done|]. intros Hf. by apply Hi. }
      intros ?. apply spec_modify. intros d l h [Hl [Hp HKh]]. by repeat split.
    + by apply spec_ret.
  - intros ?. apply spec_ret. intros d l h Hp. eapply phase_weaken; [|exact Hp].
    intros d' h' Hst. destruct (sy_write n); cbn in *; [by left|by right|by left].
Qed.

(** Removing the intent keeps the disk sound. *)
Lemma spec_clear b G K :
  Lasting G → (∀ h e, K h → K (h ++ [e])) → (∀ d h, G d h → sound d h ∧ K h) →
  spec (phase b G) clearPublishingIntent
    (λ r, phase b (λ d h, sound d h ∧ K h ∧ (r = None → d = Missing))).
Proof.
  intros HG HK HGK. unfold clearPublishingIntent.
  eapply spec_bind; [apply keeps_yield; apply _|]. intros n.
  eapply spec_bind; [apply (spec_gets _ _ (λ d, doc_present (d_intent d)))|].
  intros present. cbv beta. destruct present.
  - apply (spec_pre _ _ (phase b G)); [by intros d l h [_ ?]|].
    eapply spec_bind with (R := λ _, phase b (λ d h,
      (write_stores (sy_write n) = true → d = Missing) ∧ sound d h ∧ K h)).
    + destruct (write_stores _).
      * eapply spec_bind with (R := λ _, phase b (λ d h, K h)).
        { apply spec_log. intros w [Hl [Hp Hg]]. apply HGK in Hg as [Hs HKh].
          split; [done|]. split; [done|]. split; [done|]. by apply HK. }
        intros ?. apply spec_modify. intros d l h [Hl [Hp HKh]]. by split_and!.
      * apply spec_ret. intros d l h Hp. eapply phase_weaken; [|exact Hp]. intros ?? Hg. split; [done|]. by apply HGK.
    + intros ?. apply spec_ret. intros d l h Hp. eapply phase_weaken; [|exact Hp].
      intros ?? (Hst & Hs & HKh). split_and!; [done..|]. destruct (write_succeeds (sy_write n)) eqn:Ew; [|done].
      intros _. apply Hst. by destruct (sy_write n).
  - apply spec_ret. intros d l h [Hn [Hl [Hp Hg]]]. split; [done|]. split; [done|].
    destruct (HGK _ _ Hg). split_and!; [done..|]. intros _. by destruct (d_intent d).
Qed.

(** ** Under the vault lock *)

Abbreviation held g := (holding (λ g', g' = g)).

(** The vault lock is held over the files [g]. *)
Definition phase_at (g : guarded) (G : doc publishingIntent → list event → Prop) : assertion :=
  both (held g) (publishing G).

Lemma phase_at_locked g G d l h : phase_at g G d l h → phase true G d l h.
Proof. by intros [[? _] ?]. Qed.

Lemma spec_read_at {A} g G (f : Disk → A) (F : guarded → A) :
  Lasting G → (∀ d, f d = F (guarded_of d)) →
  spec (phase_at g G) (read f) (λ a d l h, a = F g ∧ phase_at g G d l h).
Proof.
  intros HG Hf. eapply spec_conseq; [by intros ??? Hd; exact Hd| |apply spec_read, _].
  intros a d l h [-> Hp]. split; [|done]. destruct Hp as [[_ <-] _]. apply Hf.
Qed.

(** What [Save] writes for the vault [v], over the files [g]. *)
Definition saved_blob (v : Vault) (g : guarded) (blob : bytes) : Prop :=
  decode_vault blob (iv_masterPass t) = Ok v ∧ ValidVaultBlob blob = true ∧
  ((0 ≤ MaxSeenGeneration (g_generation g) ≤ max_uint64)%Z →
    VaultGeneration blob = (NextVaultGeneration (file_content (g_vault g)) (g_generation g), true)).

Lemma Encrypt_saved draws v g data :
  Encrypt draws (marshal_vault v) (iv_masterPass t)
    (NextVaultGeneration (file_content (g_vault g)) (g_generation g)) = Ok data →
  saved_blob v g data.
Proof.
  intros He. destruct (Encrypt_decrypts _ _ _ _ _ He) as [Hd Hv]. split_and!; [|done|].
  - unfold decode_vault. rewrite Hd. cbn [mbind result_bind]. by rewrite unmarshal_marshal.
  - intros Hr. pose proof (NextVaultGeneration_range (file_content (g_vault g)) (g_generation g) Hr) as Hg.
    by apply (Encrypt_Decrypt _ _ _ _ _ Hg) in He as (_ & ? & _).
Qed.

Lemma spec_Save g G e v :
  Lasting G →
  (∀ d h data, G (d_intent d) h → guarded_of d = g → saved_blob v g data → E0 h (e d data)) →
  spec (phase_at g G) (Save e v (iv_masterPass t)) (λ _, phase true G).
Proof.
  intros HG He. unfold Save, next_generation, EncryptVault.
  eapply spec_bind with (R := λ n d l h, n = NextVaultGeneration (file_content (g_vault g)) (g_generation g) ∧ phase_at g G d l h).
  { eapply spec_bind; [by apply (spec_read_at g G _ g_vault)|]. intros f. apply spec_pure. intros ->.
    eapply spec_bind; [by apply (spec_read_at g G _ g_generation)|]. intros seen. apply spec_pure. intros ->.
    by apply spec_ret. }
  intros n. apply spec_pure. intros ->.
  eapply spec_bind with (R := λ r d l h, (∀ data, r = Ok data → saved_blob v g data) ∧ phase_at g G d l h).
  { eapply spec_bind; [apply keeps_random; apply _|]. intros salt.
    eapply spec_bind; [apply keeps_random; apply _|]. intros nonce.
    apply spec_ret. intros d l h Hp. split; [|done]. intros data Hd. by eapply Encrypt_saved. }
  intros [data|err]; apply spec_pure; intros Hsaved; [|apply spec_ret; apply phase_at_locked].
  specialize (Hsaved data eq_refl).
  eapply spec_bind with (R := λ _, phase true G); [|intros; by apply spec_ret].
  unfold replace_vault. eapply spec_bind; [apply keeps_yield; apply _|]. intros n.
  eapply spec_bind with (R := λ _, phase true G); [|intros; by apply spec_ret].
  destruct (write_stores _); [|apply spec_ret; apply phase_at_locked].
  eapply spec_bind with (R := λ _, phase true G).
  - apply spec_log. intros w [[Hl Hg] [Hp HGh]]. split; [by apply He|].
    split; [done|]. split; [done|]. by apply lasting.
  - intros ?. apply spec_modify. by intros d l h [Hl [Hp Hg]].
Qed.

(** ** Finalization *)

#[local] Instance phase_stable b G : Lasting G → Stable (phase b G).
Proof. intros HG. unfold phase. apply _. Qed.
#[local] Instance phase_blind b G : StateBlind (phase b G).
Proof. unfold phase. apply _. Qed.
#[local] Instance phase_commit_blind b G : CommitBlind (phase b G).
Proof. unfold phase. apply _. Qed.
#[local] Instance phase_holds b G : Holds b (phase b G).
Proof. unfold phase. apply _. Qed.

(** The disk is sound and the intent's target was observed. *)
Definition settled (i : publishingIntent) (d : doc publishingIntent) (h : list event) : Prop :=
  sound d h ∧ confirmed i h.
#[local] Instance settled_lasting i : Lasting (settled i).
Proof. intros d h e [? ?]. split; [by apply sound_more|by apply confirmed_more]. Qed.

(** After a finalization: on success the intent is gone. *)
Definition finalized (i : publishingIntent) (r : result PublicationReceipt)
    (d : doc publishingIntent) (h : list event) : Prop :=
  sound d h ∧ confirmed i h ∧ (is_ok r = true → d = Missing).

Lemma settled_fails i e b d l h : phase b (settled i) d l h → phase b (finalized i (Fail e)) d l h.
Proof. apply phase_weaken. intros ?? [? ?]. by split_and!. Qed.

Lemma keeps_ConfirmPublication i sync :
  keeps (phase true (settled i)) (ConfirmPublication sync (pi_TargetIdentity i)).
Proof.
  unfold ConfirmPublication. eapply spec_bind.
  { apply keeps_commitSuccess; [apply _..|]. intros d l h [_ [_ [_ Hc]]]. by split. }
  intros _u. apply keeps_recordExplicitOutcome; apply _.
Qed.

Lemma cloneVault_same v : cloneVault v = v.
Proof. by destruct v. Qed.

Lemma spec_finalize_projection sync i g current p :
  load_file (g_vault g) (iv_masterPass t) = Ok current →
  projectTransactionIDs current (pi_TransactionIDs i) = Ok p →
  spec (phase_at g (settled i)) (finalize_projection t sync i current p) (λ r, phase true (finalized i r)).
Proof.
  intros Hload Hp. unfold finalize_projection. cbv zeta. rewrite cloneVault_same.
  eapply spec_bind with (R := λ _, phase true (settled i)).
  - destruct (p_Selected p) as [|m ms] eqn:Es; [apply spec_ret; apply phase_at_locked|].
    apply spec_Save; [apply _|]. intros d h data [_ Hc] <- (Hdec & Hvalid & Hgen).
    split; [|done]. split; [done|]. exists current, p. rewrite Es. by split_and!.
  - intros [e|]; [apply spec_ret; apply settled_fails|].
    eapply spec_bind; [apply keeps_ConfirmPublication|]. intros _u.
    eapply spec_bind.
    { apply (spec_clear true (settled i) (confirmed i)); [apply _|intros; by apply confirmed_more|done]. }
    intros [e|]; apply spec_ret; intros d l h; apply phase_weaken; intros d' h' (Hs & Hc & Hm); by split_and!; auto.
Qed.

Lemma spec_finalize_locked sync i g :
  spec (phase_at g (settled i)) (finalize_locked t sync i) (λ r, phase true (finalized i r)).
Proof.
  unfold finalize_locked, Load.
  eapply spec_bind with (R := λ r d l h, r = load_file (g_vault g) (iv_masterPass t) ∧ phase_at g (settled i) d l h).
  { eapply spec_bind; [apply (spec_read_at g (settled i) _ g_vault); [apply _|done]|]. intros f. apply spec_pure. intros ->.
    by apply spec_ret. }
  intros r. apply spec_pure. intros Hr. destruct r as [current|e]; symmetry in Hr.
  - destruct (projectTransactionIDs current _) as [p|e] eqn:Hp; [by apply spec_finalize_projection|].
    apply spec_ret. intros d l h Hd. by apply settled_fails, (phase_at_locked g).
  - apply spec_ret. intros d l h Hd. by apply settled_fails, (phase_at_locked g).
Qed.

Lemma phase_unlock b b' G d l h :
  phase b G d l h → phase b' G d (set_vault_lock b' l) h.
Proof. intros [_ [Hp Hg]]. by split. Qed.

Lemma spec_finalize sync i :
  spec (phase false (settled i)) (finalizePublishingIntent t sync i) (λ r, phase false (finalized i r)).
Proof.
  unfold finalizePublishingIntent, lock_vault_write.
  eapply spec_bind with (R := λ r, phase (is_ok r) (settled i)).
  { eapply spec_bind with (R := λ r, phase (is_ok r) (settled i)).
    - apply spec_acquire; [apply _|]. intros d l h Hp. split; [by eapply phase_unlock|done].
    - intros [u|e]; by apply spec_ret. }
  intros [u|e]; [|apply spec_ret; apply settled_fails].
  eapply spec_bind with (R := λ r, phase true (finalized i r)).
  - eapply spec_pre; [|apply (spec_exists E0 (λ g, phase_at g (settled i))); intros g; apply spec_finalize_locked].
    intros d l h [Hl Hp]. exists (guarded_of d). by split.
  - intros r. eapply spec_bind with (R := λ _, phase false (finalized i r)); [|intros; by apply spec_ret].
    apply (spec_release _ _ _ (λ _, phase false (finalized i r))). intros d l h. apply phase_unlock.
Qed.

(** ** Recovery *)

Lemma sound_other i h : pi_State i ≠ intentFinalizationFailed → sound (Doc i) h.
Proof. by intros Hi intent [= <-]. Qed.

Lemma sound_confirmed i h : confirmed i h → sound (Doc i) h.
Proof. by intros Hi intent [= <-]. Qed.

(** What recovery leaves. *)
Definition recovered (r : reconciled) (d : doc publishingIntent) (h : list event) : Prop :=
  sound d h ∧
  match r with
  | (_, Some view, None) => re_State view = "confirmed" ∨ re_State view = "pending" → d = Missing
  | _ => True
  end.

Lemma spec_return_to_pending i :
  spec (phase false sound) (return_to_pending i) (λ r, phase false (recovered r)).
Proof.
  unfold return_to_pending. eapply spec_bind.
  { apply (spec_clear false sound (λ _, True)); [apply _|done|done]. }
  intros r. apply spec_ret. intros d l h. apply phase_weaken. intros d' h' (Hs & _ & Hm).
  split; [done|]. cbn. destruct r; [done|]. intros _. by apply Hm.
Qed.

Lemma spec_save_failed i :
  spec (phase false (λ d h, sound d h ∧ confirmed i h)) (savePublishingIntent (set_state intentFinalizationFailed i))
    (λ _, phase false (λ d h, sound d h ∧ confirmed i h)).
Proof.
  eapply spec_conseq; [by intros ??? Hd; exact Hd| |apply (spec_save false _ (confirmed i))].
  - intros r d l h. apply phase_weaken. intros d' h' [[-> Hc]|[_ ?]]; [|done].
    split; [|done]. by apply sound_confirmed.
  - apply (settled_lasting i).
  - intros; by apply confirmed_more.
  - by intros d h [_ ?].
  - done.
Qed.

Lemma spec_finalize_confirmed sync i :
  spec (phase false (settled i)) (finalize_confirmed t sync i) (λ r, phase false (recovered r)).
Proof.
  unfold finalize_confirmed. eapply spec_bind; [apply spec_finalize|]. intros [receipt|e].
  - apply spec_ret. intros d l h. apply phase_weaken. intros d' h' (Hs & Hc & Hm). split; [done|].
    intros _. by apply Hm.
  - cbv zeta. eapply spec_bind.
    { eapply spec_pre; [|apply spec_save_failed]. intros d l h. apply phase_weaken. intros d' h' (Hs & Hc & _). by split. }
    intros r. apply spec_ret. intros d l h. apply phase_weaken. intros d' h' [Hs _]. by split.
Qed.

Lemma identity_equal_target remote i :
  identity_equal remote (target_of i) = true → remote = mkIdentity true (pi_TargetIdentity i).
Proof. unfold identity_equal, target_of. destruct remote as [[] v]; cbn; [|done]. intros Hb. bool_to_prop. by subst. Qed.

Lemma loaded_stored d i : loadPublishingIntent parses_RFC3339Nano d = Some (Ok i) → d = Doc i.
Proof.
  destruct d as [| | |i']; cbn; try done. case_bool_decide; [|done].
  destruct (validatePublishingIntent _ i'); [|done]. by intros [= ->].
Qed.

Lemma loaded_state d i : loadPublishingIntent parses_RFC3339Nano d = Some (Ok i) → pi_State i ∈ intent_states.
Proof.
  intros Hl. pose proof (loaded_stored _ _ Hl) as ->. cbn in Hl. case_bool_decide; [|done].
  destruct (validatePublishingIntent _ i) as [[]|] eqn:Hv; [|done]. unfold validatePublishingIntent in Hv.
  inv_ok Hv. by bool_to_prop.
Qed.

Lemma spec_reconcile_observed sync i remote :
  spec (λ d l h, phase false sound d l h ∧ EvRemote (bi_Exists remote) (bi_Value remote) ∈ h)
    (reconcile_observed t sync i remote) (λ r, phase false (recovered r)).
Proof.
  unfold reconcile_observed. destruct (identity_equal remote (target_of i)) eqn:Et.
  { apply identity_equal_target in Et as ->. eapply spec_pre; [|apply spec_finalize_confirmed].
    intros d l h [[? [? ?]] Hc]. by repeat split. }
  eapply spec_pre with (P' := phase false sound); [by intros d l h [? _]|].
  destruct (identity_equal remote (prerequisite_of i)); [apply spec_return_to_pending|]. cbv zeta.
  eapply spec_bind; [by apply (spec_save false sound (λ _, True)); [apply _|..]|].
  intros saved. apply spec_ret. intros d l h. apply phase_weaken.
  intros d' h' [[-> _]|[_ ?]]; (split; [|done]); [by apply sound_other|done].
Qed.

Lemma spec_reconcile sync :
  spec (phase false sound) (reconcilePublishingIntent t sync) (λ r, phase false (recovered r)).
Proof.
  unfold reconcilePublishingIntent, loadIntent.
  eapply spec_bind; [apply spec_read; apply _|]. intros loaded. cbv beta.
  destruct loaded as [[i|e]|].
  2, 3: (apply spec_ret; intros d l h [_ Hp]; eapply phase_weaken; [|exact Hp]; by split).
  eapply spec_pre with (P' := λ d l h, pi_State i ∈ intent_states ∧
    phase false (λ d h, sound d h ∧ (pi_State i = intentFinalizationFailed → confirmed i h)) d l h).
  { intros d l h [Hi%eq_sym [? [? Hs]]]. split; [by eapply loaded_state|].
    apply loaded_stored in Hi. repeat split; [done..|]. by apply Hs. }
  apply spec_pure. intros Hstate.
  assert (∀ d l h, phase false (λ d h, sound d h ∧ (pi_State i = intentFinalizationFailed → confirmed i h)) d l h →
    phase false sound d l h) as Hweak by (intros d l h; apply phase_weaken; by intros ?? [? _]).
  case_bool_decide as Hprep; [by eapply spec_pre; [apply Hweak|apply spec_return_to_pending]|].
  case_bool_decide as Hfail.
  { eapply spec_pre; [|apply spec_finalize_confirmed]. intros d l h. apply phase_weaken.
    intros d' h' [Hs Hc]. split; [done|by apply Hc]. }
  eapply spec_pre; [apply Hweak|].
  destruct (t_offline sync).
  { apply spec_ret. intros d l h. apply phase_weaken. intros d' h' Hs. split; [done|]. cbn.
    intros [Hv|Hv]; rewrite Hv in Hstate; unfold intent_states in Hstate; set_solver. }
  eapply spec_bind; [apply spec_ObservePublicationIdentity; apply _|]. intros [remote|e].
  - eapply spec_pre; [|apply spec_reconcile_observed]. by intros d l h [? ?].
  - apply spec_ret. intros d l h [Hp _]. eapply phase_weaken; [|exact Hp]. by split.
Qed.

(** ** Sending *)

Lemma unsent_publication h e : E0 h e → E1 h e ∧ is_put e = false.
Proof. done. Qed.

(** A send over the ready intent [i] of the body [blob]. *)
Definition requested (blob : bytes) (bodies : list bytes) : Prop := bodies = [] ∨ bodies = [blob].

Definition sent_post (i : publishingIntent) (blob : bytes) (r : sent) (bodies : list bytes) : assertion := λ d l h,
  requested blob bodies ∧
  phase false (stored (Doc i) (λ h, snd r = None → bi_Value (fst r) = pi_TargetIdentity i → confirmed i h)) d l h.

Definition on_disk_as (i : publishingIntent) : assertion := phase false (stored (Doc i) (λ _, True)).

#[local] Instance stored_any_lasting i : Lasting (stored i (λ _, True)).
Proof. by apply stored_lasting. Qed.
#[local] Instance on_disk_stable i : Stable (on_disk_as i).
Proof. unfold on_disk_as. apply _. Qed.
#[local] Instance on_disk_blind i : StateBlind (on_disk_as i).
Proof. unfold on_disk_as. apply _. Qed.
#[local] Instance on_disk_holds i : Holds false (on_disk_as i).
Proof. unfold on_disk_as. apply _. Qed.

Lemma keeps_preserve_publication i prepared remote :
  keeps (on_disk_as i) (preservePublicationConflict prepared remote).
Proof. unfold preservePublicationConflict, preserveConflict. keeps_auto. Qed.

Lemma on_disk_failed i blob d l h remote e :
  on_disk_as i d l h → sent_post i blob (remote, Some e) [] d l h.
Proof. intros Hd. split; [by left|]. eapply phase_weaken; [|exact Hd]. by intros ?? [-> _]. Qed.

Lemma keeps_push_failed i sync prepared current e :
  spec (on_disk_as i) (push_failed sync prepared current e)
    (λ r d l h, snd r ≠ None ∧ on_disk_as i d l h).
Proof.
  unfold push_failed. destruct (PushFailureIsConflict e); [|by apply spec_ret].
  eapply spec_bind; [apply keeps_ObservePublicationIdentity; apply _|]. intros observed. cbv zeta.
  eapply spec_bind; [apply keeps_preserve_publication|]. intros ?. by apply spec_ret.
Qed.

Lemma spec_committed_identity i sync identity observed :
  spec (on_disk_as i) (committed_identity sync identity observed) (remote_known (on_disk_as i)).
Proof.
  unfold committed_identity. destruct (_ || _).
  - eapply spec_bind; [apply spec_ObservePublicationIdentity; apply _|].
    intros [r|e]; apply spec_ret; intros d l h [? ?]; by split.
  - eapply spec_bind with (R := λ _ d l h, on_disk_as i d l h ∧ EvRemote true identity ∈ h).
    + apply spec_log. intros w Hw. split; [done|]. split; [by apply stable_log|set_solver].
    + intros ?. by apply spec_ret.
Qed.

(** What is prepared agrees with the intent. *)
Definition agrees (i : publishingIntent) (blob : bytes) (prepared : PreparedPublication) : Prop :=
  pi_State i = intentReady ∧ pi_TargetIdentity i = hashBytes blob ∧ pp_Target prepared = hashBytes blob ∧
  pp_Prerequisite prepared = prerequisite_of i.

Lemma confirmed_sent i blob current d l h :
  pi_TargetIdentity i = hashBytes blob → identity_equal current (mkIdentity true (hashBytes blob)) = true →
  remote_known (on_disk_as i) (Ok current) d l h → sent_post i blob (current, None) [] d l h.
Proof.
  intros Ht Heq [[Hl [Hp [Hd _]]] Hin]. rewrite <- Ht in Heq.
  apply (identity_equal_target current i) in Heq as ->. split; [by left|].
  split; [done|]. split; [done|]. by split.
Qed.

Lemma spec_after_push i blob sync prepared current pushed :
  agrees i blob prepared →
  spec (on_disk_as i)
    (match pushed with
     | Fail e => push_failed sync prepared current e
     | Ok (identity, observed) =>
         committed ← committed_identity sync identity observed;
         match committed with
         | Fail e => mret (no_identity, Some e)
         | Ok committed =>
             if identity_equal committed (mkIdentity true (hashBytes blob)) then mret (committed, None)
             else
               _ ← preservePublicationConflict prepared committed;
               mret (committed, Some (Wrap "remote publication identity diverged" [ErrConflict]))
         end
     end)
    (λ r, sent_post i blob r []).
Proof.
  intros (Hs & Ht & Hpt & Hpp). destruct pushed as [[identity observed]|e].
  - eapply spec_bind; [apply spec_committed_identity|]. intros [committed|e].
    2: { apply spec_ret. intros d l h [Hd _]. by apply on_disk_failed. }
    destruct (identity_equal committed _) eqn:Eq.
    { apply spec_ret. intros d l h. by apply confirmed_sent. }
    eapply spec_pre with (P' := on_disk_as i); [by intros d l h [? _]|].
    eapply spec_bind; [apply keeps_preserve_publication|]. intros ?. apply spec_ret.
    intros d l h. apply on_disk_failed.
  - eapply spec_conseq; [by intros ??? Hd; exact Hd| |apply keeps_push_failed].
    intros [remote [e'|]] d l h [? Hd]; [by apply on_disk_failed|done].
Qed.

(** Ready to send: the intent on disk, and its prerequisite observed. *)
Definition ready (i : publishingIntent) : assertion := phase false (stored (Doc i) (prerequisite_seen i)).

#[local] Instance ready_lasting i : Lasting (stored (Doc i) (prerequisite_seen i)).
Proof. apply stored_lasting. intros h e (v & ? & ?). exists v. split; [set_solver|done]. Qed.
#[local] Instance ready_stable i : Stable (ready i).
Proof. unfold ready. apply _. Qed.
#[local] Instance ready_blind i : StateBlind (ready i).
Proof. unfold ready. apply _. Qed.

Lemma ready_seen i prepared current d l h :
  pp_Prerequisite prepared = prerequisite_of i → identity_equal current (pp_Prerequisite prepared) = true →
  remote_known (on_disk_as i) (Ok current) d l h → ready i d l h.
Proof.
  intros Hpp Heq [[Hl [Hp [Hd _]]] Hin]. repeat split; [done..|]. rewrite Hpp in Heq.
  unfold identity_equal, prerequisite_of in Heq. cbn in Heq. destruct current as [ex v]. cbn in *.
  bool_to_prop. subst ex. exists v. split; [done|]. intros He. rewrite He in *. cbn in *. by bool_to_prop.
Qed.

Lemma ready_request i blob prepared d l h :
  agrees i blob prepared → ready i d l h → E1 h (EvRequest PUT blob (lk_vault l) (d_intent d)).
Proof.
  intros (Hs & Ht & _) [Hl [_ [Hd Hseen]]]. split; [done|]. intros _. exists i. by rewrite Hd.
Qed.

Lemma traced_send i blob sync prepared :
  agrees i blob prepared → traced E1 (on_disk_as i) (send sync blob prepared) (sent_post i blob).
Proof.
  intros Ha. pose proof Ha as (Hs & Ht & Hpt & Hpp). unfold send.
  rewrite bool_decide_eq_true_2 by done. cbn [negb].
  eapply traced_spec_bind; [exact unsent_publication|apply spec_ObservePublicationIdentity; apply _|].
  intros [current|e]; [|apply traced_ret; intros d l h [Hd _]; by apply on_disk_failed].
  cbv zeta. rewrite Hpt. destruct (identity_equal current (mkIdentity true (hashBytes blob))) eqn:Eq.
  { apply traced_ret. intros d l h. by apply confirmed_sent. }
  destruct (identity_equal current (pp_Prerequisite prepared)) eqn:Ep; cbn [negb].
  2: { eapply traced_spec_bind; [exact unsent_publication| |].
       - eapply spec_pre; [|apply (keeps_preserve_publication i)]. by intros d l h [? _].
       - intros ?. apply traced_ret. intros d l h. apply on_disk_failed. }
  eapply traced_conseq with (P' := ready i) (Q' := sent_post i blob);
    [intros d l h; by eapply ready_seen|done|].
  eapply traced_spec_bind; [exact unsent_publication|apply keeps_configuration; apply _|].
  intros [[cfg state] err].
  assert (∀ r e, traced (S:=S) E1 (ready i) (mret (r, Some e)) (sent_post i blob)) as Hfail.
  { intros r e. apply traced_ret. intros d l h Hd. apply on_disk_failed. eapply phase_weaken; [|exact Hd].
    by intros ?? [-> _]. }
  destruct err as [e|]; [apply Hfail|]. destruct cfg as [cfg|]; [|apply Hfail].
  eapply traced_bind; [unfold push_request; apply traced_put; [apply _|]|].
  { intros d l h Hd. by eapply ready_request. }
  intros pushed b1. cbv beta. apply traced_pure. intros ->.
  eapply traced_conseq; [| |eapply traced_of_spec; [exact unsent_publication|by apply (spec_after_push i blob sync prepared current pushed)]].
  - intros d l h Hd. eapply phase_weaken; [|exact Hd]. by intros ?? [-> _].
  - intros r b d l h [-> [_ Hd]]. split; [by right|done].
Qed.

Lemma traced_SendPublication i blob sync prepared :
  agrees i blob prepared → traced E1 (on_disk_as i) (SendPublication sync blob prepared) (sent_post i blob).
Proof.
  intros Ha. unfold SendPublication. eapply traced_bind; [by apply traced_send|].
  intros r bodies. unfold sent_post at 1. apply traced_pure. intros Hb.
  set (K := λ h, snd r = None → bi_Value (fst r) = pi_TargetIdentity i → confirmed i h).
  assert (Lasting (stored (Doc i) K)) as HL.
  { apply stored_lasting. intros h e HK ??. by apply confirmed_more, HK. }
  eapply traced_spec_bind with (R := λ _, phase false (stored (Doc i) K)); [exact unsent_publication| |].
  { case_bool_decide; [apply keeps_recordExplicitOutcome; apply _|apply keeps_ret]. }
  intros ?. apply traced_ret. intros d l h Hp. rewrite app_nil_r. by split.
Qed.

(** ** What publishing leaves *)

(** Once the request for [target] was sent. *)
Definition resolved (target : string) (r : publication_error + PublicationReceipt)
    (d : doc publishingIntent) (h : list event) : Prop :=
  match r with
  | inr _ => d = Missing ∧ EvRemote true target ∈ h
  | inl e =>
      EvRemote true target ∈ h ∨ (∃ i, d = Doc i ∧ pi_TargetIdentity i = target) ∨
      ∃ e', e = InSync e' ∧ is_sentinel e' ErrPushNotSent || is_sentinel e' ErrPushRejected = true
  end.

Definition ready_post (blob : bytes) (r : publication_error + PublicationReceipt) : assertion :=
  phase false (λ d h, sound d h ∧ resolved (hashBytes blob) r d h).

(** A saved intent with the target of [i], in a state that needs no confirmation. *)
Lemma spec_keep_failed_intent i remote e :
  pi_State i = intentReady →
  spec (on_disk_as i) (keep_failed_intent i remote e)
    (λ _, phase false (λ d h, sound d h ∧ resolved (pi_TargetIdentity i) (inl (InSync e)) d h)).
Proof.
  intros Hi. unfold keep_failed_intent.
  destruct (is_sentinel e ErrPushNotSent || is_sentinel e ErrPushRejected) eqn:Hr.
  { eapply spec_bind.
    - apply (spec_clear false _ (λ _, True)); [apply _|done|]. intros d h [-> _]. split; [|done].
      apply sound_other. by rewrite Hi.
    - intros r. apply spec_ret. intros d l h. apply phase_weaken. intros d' h' (Hs & _ & _). split; [done|].
      right. right. by exists e. }
  assert (∀ i', pi_TargetIdentity i' = pi_TargetIdentity i → pi_State i' ≠ intentFinalizationFailed →
    spec (on_disk_as i) (_ ← savePublishingIntent i'; mret ())
      (λ _, phase false (λ d h, sound d h ∧ resolved (pi_TargetIdentity i) (inl (InSync e)) d h))) as Hsave.
  { intros i' Ht Hn. eapply spec_bind.
    - by apply (spec_save false _ (λ _, True) i'); [apply _|..].
    - intros r. apply spec_ret. intros d l h. apply phase_weaken. intros d' h' [[-> _]|[_ [-> _]]].
      + split; [by apply sound_other|]. right. left. by exists i'.
      + split; [apply sound_other; by rewrite Hi|]. right. left. by exists i. }
  destruct (is_sentinel e ErrPushAmbiguous); [by apply Hsave|].
  destruct (is_sentinel e ErrConflict); [by apply Hsave|].
  apply spec_ret. intros d l h. apply phase_weaken. intros d' h' [-> _].
  split; [apply sound_other; by rewrite Hi|]. right. left. by exists i.
Qed.

Lemma spec_publish_confirmed i sync blob :
  pi_TargetIdentity i = hashBytes blob → pi_State i = intentReady →
  spec (phase false (settled i)) (publish_confirmed t sync i) (λ r, ready_post blob r).
Proof.
  intros Ht Hi. unfold publish_confirmed. eapply spec_bind; [apply spec_finalize|]. intros [receipt|e].
  - apply spec_ret. intros d l h. apply phase_weaken. intros d' h' (Hs & Hc & Hm).
    split; [done|]. split; [by apply Hm|]. by rewrite <- Ht.
  - eapply spec_bind.
    { eapply spec_pre; [|apply spec_save_failed]. intros d l h. apply phase_weaken. intros d' h' (Hs & Hc & _). by split. }
    intros r. apply spec_ret. intros d l h. apply phase_weaken. intros d' h' [Hs Hc].
    split; [done|]. left. by rewrite <- Ht.
Qed.

Lemma traced_publish_ready i blob sync prepared :
  agrees i blob prepared →
  traced E1 (on_disk_as i) (publish_ready t sync i blob prepared)
    (λ r bodies d l h, requested blob bodies ∧ ready_post blob r d l h).
Proof.
  intros Ha. pose proof Ha as (Hi & Ht & _). unfold publish_ready.
  eapply traced_bind; [by apply traced_SendPublication|]. intros [remote err] bodies.
  unfold sent_post. apply traced_pure. intros Hb. cbn [fst snd].
  eapply traced_conseq with (P' := phase false (stored (Doc i) (λ h, err = None → bi_Value remote = pi_TargetIdentity i → confirmed i h)))
    (Q' := λ r b d l h, b = [] ∧ ready_post blob r d l h);
    [done|intros r b d l h [-> ?]; by rewrite app_nil_r|].
  apply (traced_of_spec _ E0); [exact unsent_publication|].
  destruct err as [e|].
  - eapply spec_bind.
    { eapply spec_pre; [|by apply (spec_keep_failed_intent i remote e)].
      intros d l h. apply phase_weaken. by intros ?? [-> _]. }
    intros ?. apply spec_ret. intros d l h. unfold ready_post. by rewrite Ht.
  - case_bool_decide as Hv; cbn [negb].
    + eapply spec_pre; [|by apply spec_publish_confirmed]. intros d l h. apply phase_weaken.
      intros d' h' [-> Hc]. split; [apply sound_other; by rewrite Hi|]. by apply Hc.
    + apply spec_ret. intros d l h. apply phase_weaken. intros d' h' [-> _].
      split; [apply sound_other; by rewrite Hi|]. right. left. by exists i.
Qed.

(** ** From the preflight on *)

Lemma spec_prepare (P : assertion) sync blob :
  Stable P → StateBlind P → Holds false P →
  spec P (prepare sync blob) (λ r d l h, (∀ p, r = Ok p → pp_Target p = hashBytes blob) ∧ P d l h).
Proof.
  intros HP HB HF. unfold prepare, preserveConflict.
  repeat (cbv zeta; match goal with
  | |- SyncLogic.spec _ _ (mret _) _ => apply spec_ret; intros ???; split; [by intros ? [= <-]|done]
  | |- SyncLogic.spec _ _ (mbind _ _) _ =>
      eapply spec_bind;
        [first [apply keeps_localFacts; apply _ | apply keeps_configuration; apply _
               | apply keeps_request; [apply _..|done] | apply keeps_clock; apply _
               | apply keeps_write; [done|blind]]|intros ?]
  | |- SyncLogic.spec _ _ (match ?x with _ => _ end) _ => destruct x
  | |- SyncLogic.spec _ _ (if ?x then _ else _) _ => destruct x
  end).
Qed.

Lemma spec_PreparePublication (P : assertion) sync blob :
  Stable P → StateBlind P → Holds false P →
  spec P (PreparePublication sync blob) (λ r d l h, (∀ p, r = Ok p → pp_Target p = hashBytes blob) ∧ P d l h).
Proof.
  intros HP HB HF. unfold PreparePublication. eapply spec_bind; [by apply spec_prepare|].
  intros r. apply spec_pure. intros Hr. eapply spec_bind with (R := λ _, P).
  - destruct r as [p|e]; [apply keeps_ret|]. destruct (is_sentinel e ErrUnconfigured); [apply keeps_ret|].
    apply keeps_recordExplicitOutcome; apply _.
  - intros ?. by apply spec_ret.
Qed.

(** At most one request; if one was sent for [target], [resolved] tells what is left;
    success leaves no intent. *)
Definition outcome_of (r : publication_error + PublicationReceipt) (bodies : list bytes) : assertion := λ d l h,
  phase false sound d l h ∧ length bodies ≤ 1 ∧
  (∀ receipt, r = inr receipt → pr_Action receipt ≠ "noop" → d_intent d = Missing) ∧
  ∀ blob, blob ∈ bodies → resolved (hashBytes blob) r (d_intent d) h.

Lemma outcome_failed e d l h : phase false sound d l h → outcome_of (inl e) [] d l h.
Proof. intros Hp. split_and!; [done|simpl; lia|done|]. intros blob Hin. by apply not_elem_of_nil in Hin. Qed.

Lemma outcome_ready blob r bodies d l h :
  requested blob bodies → ready_post blob r d l h → outcome_of r bodies d l h.
Proof.
  intros Hb [Hl [Hp [Hs Hr]]]. split_and!; [by repeat split|by destruct Hb as [->| ->]; simpl; lia| |].
  - by intros receipt -> _; destruct Hr.
  - intros blob' Hin. destruct Hb as [->| ->]; [by apply not_elem_of_nil in Hin|].
    by apply list_elem_of_singleton in Hin as ->.
Qed.

Lemma traced_publish_prepared sync i blob :
  pi_State i = intentPrepared → pi_TargetIdentity i = hashBytes blob →
  traced E1 (phase false sound) (publish_prepared t sync i blob) outcome_of.
Proof.
  intros Hi Ht. unfold publish_prepared.
  eapply traced_spec_bind; [exact unsent_publication|
    apply (spec_save false sound (λ _, True) i); [apply _|done..|by rewrite Hi]|].
  intros [e|].
  { apply traced_ret. intros d l h Hp. apply outcome_failed. eapply phase_weaken; [|exact Hp].
    intros d' h' [[-> _]|[_ ?]]; [|done]. apply sound_other. by rewrite Hi. }
  eapply traced_conseq with (P' := on_disk_as i) (Q' := outcome_of); [|done|].
  { intros d l h Hp. eapply phase_weaken; [|exact Hp]. by intros ?? [?|[? _]]. }
  eapply traced_spec_bind; [exact unsent_publication|apply spec_PreparePublication; apply _|].
  intros [prepared|e]; apply traced_pure; intros Hprep.
  2: { eapply traced_spec_bind; [exact unsent_publication| |].
       - apply (spec_clear false _ (λ _, True)); [apply _|done|]. intros d h [-> _]. split; [|done].
         apply sound_other. by rewrite Hi.
       - intros r. apply traced_ret. intros d l h Hp. apply outcome_failed. eapply phase_weaken; [|exact Hp].
         by intros ?? (? & _). }
  cbv zeta. set (i' := set_prerequisite _ _ _).
  eapply traced_spec_bind; [exact unsent_publication|
    by apply (spec_save false _ (λ _, True) i'); [apply _|done..]|].
  intros [e|].
  { apply traced_ret. intros d l h Hp. apply outcome_failed. eapply phase_weaken; [|exact Hp].
    intros d' h' [[-> _]|[_ [-> _]]]; apply sound_other; [done|by rewrite Hi]. }
  eapply traced_conseq; [| |apply (traced_publish_ready i' blob sync prepared)].
  - intros d l h Hp. eapply phase_weaken; [|exact Hp]. by intros ?? [?|[? _]].
  - intros r bodies d l h [? ?]. by eapply outcome_ready.
  - split_and!; [done|done|by apply Hprep|]. by destruct (pp_Prerequisite prepared).
Qed.

Lemma keeps_VerifyEmptyPublication sync : keeps (phase false sound) (VerifyEmptyPublication sync).
Proof.
  unfold VerifyEmptyPublication, localOpaqueIdentity, CachedPublicationPrerequisite, cachedRemoteIdentity, preserveConflict.
  keeps_auto. apply keeps_ObservePublicationIdentity; apply _.
Qed.

Lemma traced_publish_projection sync v only p :
  traced E1 (phase false sound) (publish_projection t sync v only p) outcome_of.
Proof.
  unfold publish_projection. destruct (p_Selected p) as [|m ms].
  - eapply traced_spec_bind; [exact unsent_publication|apply keeps_VerifyEmptyPublication|].
    intros [e|]; apply traced_ret; intros d l h Hp; [by apply outcome_failed|].
    split_and!; [done|simpl; lia|by intros receipt [= <-]|]. intros blob Hin. by apply not_elem_of_nil in Hin.
  - unfold next_generation, EncryptVault, CachedPublicationPrerequisite, cachedRemoteIdentity.
    eapply traced_spec_bind with (R := λ _, phase false sound); [exact unsent_publication|keeps_auto|].
    intros generation.
    eapply traced_spec_bind with (R := λ _, phase false sound); [exact unsent_publication|keeps_auto|].
    intros [blob|e]; [|apply traced_ret; intros d l h; apply outcome_failed].
    eapply traced_spec_bind with (R := λ _, phase false sound); [exact unsent_publication|keeps_auto|].
    intros [cached|e]; [|apply traced_ret; intros d l h; apply outcome_failed].
    by apply traced_publish_prepared.
Qed.

Lemma choose_confirmed v only receipt recovery r :
  choose_projection v only receipt recovery = inr (inl r) →
  r = receipt ∧ ∃ view, recovery = Some view ∧ re_State view = "confirmed".
Proof.
  unfold choose_projection. intros Hc.
  destruct recovery as [view|]; [|by destruct (project v only)].
  case_bool_decide; [destruct (matchesRecovery _ _); [|done]; simplify_eq; eauto|].
  case_bool_decide; [|done]. destruct (negb _); [done|].
  destruct (empty_string only); [by destruct (projectTransactionIDs _ _)|by destruct (project v only)].
Qed.

Lemma traced_Publish v only :
  traced E1 (phase false sound) (Publish t v only) outcome_of.
Proof.
  unfold Publish, active.
  eapply traced_bind with (R := λ _ b d l h, b = [] ∧ phase false sound d l h).
  { intros w Hw. exists []. by rewrite app_nil_r. }
  intros session b. apply traced_pure. intros ->. cbn [app].
  destruct session; cbn [negb]; [|apply traced_ret; intros d l h; apply outcome_failed].
  destruct (iv_sync t) as [sync|]; [|apply traced_ret; intros d l h; apply outcome_failed].
  eapply traced_spec_bind; [exact unsent_publication|apply spec_reconcile|].
  intros [[receipt recovery] err].
  assert (∀ e, traced (S:=S) E1 (phase false (recovered (receipt, recovery, err))) (mret (inl e)) outcome_of) as Hfail.
  { intros e. apply traced_ret. intros d l h Hp. apply outcome_failed. eapply phase_weaken; [|exact Hp].
    by intros ?? [? _]. }
  destruct err as [e|]; [apply Hfail|].
  destruct (choose_projection v only receipt recovery) as [e|[r|p]] eqn:Hc; [apply Hfail| |].
  - apply choose_confirmed in Hc as (-> & view & -> & Hv). apply traced_ret.
    intros d l h [Hl [Hp [Hs Hr]]]. split_and!; [by repeat split|simpl; lia| |].
    + intros ? _ _. apply Hr. by left.
    + intros blob Hin. by apply not_elem_of_nil in Hin.
  - eapply traced_conseq; [| |apply traced_publish_projection]; [|done].
    intros d l h. apply phase_weaken. by intros ?? [? _].
Qed.
End Facts.

(** ** The guarantees *)

Section Guarantees.
Context {S : Type} `{SyncEnv S} `{service : !SyncService S}.
Context `{Sha256, !Sha256Laws _, Json, HttpClient, C : VaultCrypto, !VaultCryptoLaws C}.
Context `{GoTime, SyncHost, VJ : VaultJson, !VaultJsonLaws VJ, IntentJson}.

(** What runs in a publication session. *)
Inductive session_operation := DoPublish (v : Vault) (only : string) | DoReconcile (sync : Transaction).

Definition run_session (t : Inventory) (op : session_operation) : M S (option (publication_error + PublicationReceipt)) :=
  match op with
  | DoPublish v only => r ← Publish t v only; mret (Some r)
  | DoReconcile sync => _ ← reconcilePublishingIntent t sync; mret None
  end.

(** A session: the publication lock is held and the vault lock is not, and an intent
    whose finalization failed was confirmed. *)
Definition in_session (w : World S) : Prop :=
  lk_publication (w_locks w) = true ∧ lk_vault (w_locks w) = false ∧ sound (d_intent (w_disk w)) (w_log w).

Lemma session_traced t op :
  traced (publication_event (iv_masterPass t)) (phase false sound) (run_session t op)
    (λ r bodies d l h, phase false sound d l h ∧
      match op, r with
      | DoPublish _ _, Some r => outcome_of r bodies d l h
      | _, _ => bodies = []
      end).
Proof.
  unfold run_session. destruct op as [v only|sync].
  - eapply traced_bind; [apply traced_Publish|]. intros r b. apply traced_ret. intros d l h Ho.
    rewrite app_nil_r. split; [apply Ho|done].
  - eapply traced_spec_bind; [exact (unsent_publication t)|apply spec_reconcile|].
    intros r. apply traced_ret. intros d l h Hp. split; [|done]. eapply phase_weaken; [|exact Hp]. by intros ?? [? _].
Qed.

Lemma session_runs t op w :
  in_session w →
  let '(r, w') := run_session t op w in
  in_session w' ∧ ∃ evs, w_log w' = w_log w ++ evs ∧ emits (publication_event (iv_masterPass t)) (w_log w) evs ∧
    match op, r with
    | DoPublish _ _, Some r => outcome_of r (put_bodies evs) (w_disk w') (w_locks w') (w_log w')
    | _, _ => put_bodies evs = []
    end.
Proof.
  intros (Hp & Hv & Hs). pose proof (session_traced t op w) as Ht.
  destruct (run_session t op w) as [r w']. destruct Ht as (evs & Hl & He & [Hv' [Hp' Hs']] & Ho); [by repeat split|].
  split; [by repeat split|]. exists evs. by split_and!.
Qed.

Lemma put_body_in body held durable evs : EvRequest PUT body held durable ∈ evs → body ∈ put_bodies evs.
Proof. intros Hin. apply list_elem_of_omap. by eexists. Qed.

(** C7: Publication is write-ahead. Whatever fails and whatever other processes do, a
    session sends at most one publishing request, recovery none, never with the vault
    lock held, and only when the intent on disk is ready, names exactly the blob that
    is sent, and the service was observed at the intent's prerequisite. *)
Theorem publication_is_write_ahead t op w :
  in_session w →
  let '(r, w') := run_session t op w in
  ∃ evs, w_log w' = w_log w ++ evs ∧
    length (put_bodies evs) ≤ (match op with DoPublish _ _ => 1 | DoReconcile _ => 0 end) ∧
    ∀ pre body held durable post, evs = pre ++ EvRequest PUT body held durable :: post →
      held = false ∧ ∃ intent, durable = Doc intent ∧ pi_State intent = intentReady ∧
        pi_TargetIdentity intent = hashBytes body ∧ prerequisite_seen intent (w_log w ++ pre).
Proof.
  intros Hw. pose proof (session_runs t op w Hw) as Hr. destruct (run_session t op w) as [r w'].
  destruct Hr as (_ & evs & Hl & He & Ho). exists evs. split; [done|]. split.
  { destruct op, r; [apply Ho|..]; rewrite Ho; simpl; lia. }
  intros pre body held durable post ->. apply emits_app in He as (_ & (-> & Hput) & _).
  split; [done|]. by apply Hput.
Qed.

(** C23: The vault is finalized only after the service was seen at the target. A session
    writes the confirmed remote identity, under the vault lock, only after the service
    reported it, replaces the vault only for an intent whose target the service
    reported, and what it leaves on disk lets the next session rely on the same. *)
Theorem finalization_follows_confirmation t op w :
  in_session w →
  let '(_, w') := run_session t op w in
  in_session w' ∧ ∃ evs, w_log w' = w_log w ++ evs ∧
    (∀ pre intent before blob post, evs = pre ++ EvFinalize intent before blob :: post →
      confirmed intent (w_log w ++ pre)) ∧
    (∀ pre identity held post, evs = pre ++ EvIdentity identity held :: post →
      held = true ∧ EvRemote true identity ∈ w_log w ++ pre) ∧
    (∀ mode evidence before blob etag, EvInstall mode evidence before blob etag ∉ evs).
Proof.
  intros Hw. pose proof (session_runs t op w Hw) as Hr. destruct (run_session t op w) as [r w'].
  destruct Hr as (Hin & evs & Hl & He & _). split; [done|]. exists evs. split_and!; [done|..].
  - intros pre intent before blob post ->. by apply emits_app in He as (_ & (? & _) & _).
  - intros pre identity held post ->. by apply emits_app in He as (_ & ? & _).
  - intros mode evidence before blob etag Hi. by apply (emits_elem _ _ _ _ He) in Hi as (? & ? & _ & []).
Qed.

(** Finalizing removes exactly the published transactions. When a session replaces
    the vault for an intent, the bytes it writes decrypt to the vault found under the
    lock, with the same connections and keys, its ledger without the intent's
    transactions and everything else still pending; and their generation is the next
    one. *)
Theorem finalization_removes_only_published t op w :
  in_session w →
  let '(_, w') := run_session t op w in
  ∃ evs, w_log w' = w_log w ++ evs ∧
    ∀ intent before blob, EvFinalize intent before blob ∈ evs →
      ∃ current after,
        load_file (d_vault before) (iv_masterPass t) = Ok current ∧
        load_file (Content blob) (iv_masterPass t) = Ok after ∧ ValidVaultBlob blob = true ∧
        v_Connections after = v_Connections current ∧ v_Keys after = v_Keys current ∧
        v_PendingMutations after =
          filter (λ m, m_ID m ∉ pi_TransactionIDs intent) (v_PendingMutations current) ∧
        ((0 ≤ MaxSeenGeneration (d_generation before) ≤ max_uint64)%Z →
          VaultGeneration blob =
            (NextVaultGeneration (file_content (d_vault before)) (d_generation before), true)).
Proof.
  intros Hw. pose proof (session_runs t op w Hw) as Hr. destruct (run_session t op w) as [r w'].
  destruct Hr as (_ & evs & Hl & He & _). exists evs. split; [done|]. intros intent before blob Hin.
  apply (emits_elem _ _ _ _ He) in Hin as (pre & post & _ & _ & current & p & Hload & Hp & Hne & Hdec & Hv & Hg).
  exists current, (markPublished current (p_Selected p) (p_Vault p)).
  pose proof (project_selects _ _ _ Hp Hne) as Hids. rewrite <- Hids.
  unfold markPublished. destruct (p_Selected p) as [|m ms] eqn:Es; [done|].
  split_and!; [done| |done..]. cbn [load_file]. by rewrite Hdec.
Qed.

(** C34: What an interrupted publication leaves to recover from. A session that returns a
    receipt leaves no intent on disk, unless there was nothing to publish. If it made its
    request and then failed, either the service was already seen at the target, or an
    intent with that target is still on disk, or the error it returns is labelled as a
    push that was not sent or that the service explicitly rejected. The label is the
    client's reading of the answer: a service that answers an error after it stored the
    blob gets the same one ([SyncExamples.failed_push_may_be_stored]). *)
Theorem interrupted_publication_is_recoverable t v only w :
  in_session w →
  let '(r, w') := Publish t v only w in
  (∀ receipt, r = inr receipt → pr_Action receipt ≠ "noop" → d_intent (w_disk w') = Missing) ∧
  ∃ evs, w_log w' = w_log w ++ evs ∧
    ∀ body held durable, EvRequest PUT body held durable ∈ evs →
      resolved (hashBytes body) r (d_intent (w_disk w')) (w_log w').
Proof.
  intros (Hp & Hv & Hs). pose proof (traced_Publish t v only w) as Ht.
  destruct (Publish t v only w) as [r w']. destruct Ht as (evs & Hl & _ & _ & _ & Hm & Hr); [by repeat split|].
  split; [done|]. exists evs. split; [done|]. intros body held durable Hin.
  by apply Hr, (put_body_in _ held durable).
Qed.
End Guarantees.
