(* ===== verification/SyncInstances.v ===== *)
(** * Concrete instances of what the synchronization code gets from outside

    A hash, a JSON codec, a password hash, a clock format and a vault codec that
    satisfy the laws the theorems assume, so that the theorems can be evaluated. *)

From Stdlib Require Import Strings.Byte.
From S2P Require Import Prelude GoStrings GoErrors NamedList VaultBlob Config SyncProtocol SyncServer SyncServerFacts Cloud PublishingIntent SyncWorld SyncSchedule SyncTransaction Publication.

#[export] Existing Instances ascii_case toy_crypto.

(** ** Hashing, JSON, passwords *)

#[export] Instance toy_sha256 : Sha256 := λ data, take 32 (data ++ replicate 32 x00).
#[export] Instance toy_sha256_laws : Sha256Laws toy_sha256.
Proof.
  intros data. change (length (take 32 (data ++ replicate 32 x00)) = 32).
  rewrite length_take, length_app, length_replicate. lia.
Qed.

#[export] Instance toy_json : Json := {|
  json_object name value := bytes_of_string value;
  json_object_bool name b := if b then [x01] else [];
  json_string name body := Some (string_of_bytes body);
  json_bool name body := Some (bool_decide (body = [x01]));
|}.

#[export] Instance toy_bcrypt : Bcrypt := {|
  bcrypt_GenerateFromPassword salt password := Some password;
  bcrypt_CompareHashAndPassword hash password := bool_decide (hash = password);
|}.
#[export] Instance toy_auth : AuthJson := λ body, Some (string_of_bytes body, "correct horse").
#[export] Instance toy_client : HttpClient := λ url, true.
#[export] Instance toy_host : SyncHost := {| sync_mode_env := "strict"; url_usable url := true |}.

(** ** Time: the eight bytes of the seconds *)

Definition stamp (t : Z) : string := string_of_bytes (be_encode 8 (t / second)).
Definition read_stamp (s : string) : option Z :=
  let t := (be_decode (bytes_of_string s) * second)%Z in
  if bool_decide (String.length s = 8 ∧ (0 ≤ t < max_time)%Z) then Some t else None.

#[export] Instance toy_time : GoTime := {|
  rfc3339_utc := stamp;
  rfc3339_local := stamp;
  rfc3339_parsed := id;
  parse_rfc3339 := read_stamp;
  ParseDuration s := None;
|}.

Lemma string_of_bytes_length b : String.length (string_of_bytes b) = length b.
Proof. induction b as [|x b IH]; [done|]. cbn. f_equal. exact IH. Qed.

Lemma read_stamp_stamp t : valid_time t → read_stamp (stamp t) = Some (t / second * second)%Z.
Proof.
  intros [H0 H1]. unfold read_stamp, stamp.
  assert (0 ≤ t / second < 2 ^ 64)%Z as Hs.
  { split; [by apply Z.div_pos|]. apply Z.div_lt_upper_bound; [done|]. etrans; [exact H1|]. by vm_compute. }
  rewrite bytes_of_string_of_bytes, be_decode_encode, string_of_bytes_length, be_encode_length.
  change (2 ^ (8 * Z.of_nat 8))%Z with (2 ^ 64)%Z. rewrite Z.mod_small by done.
  rewrite bool_decide_eq_true_2; [done|]. split; [done|].
  pose proof (Z.mul_div_le t second). split; [apply Z.mul_nonneg_nonneg; [apply Hs|done]|].
  assert (0 < second)%Z by done. lia.
Qed.

#[export] Instance toy_time_laws : GoTimeLaws toy_time.
Proof.
  split.
  - apply read_stamp_stamp.
  - apply read_stamp_stamp.
  - intros raw t Hr. unfold parse_rfc3339, toy_time, read_stamp in Hr. cbv zeta in Hr.
    case_bool_decide as Hb; [|done]. injection Hr as <-. apply Hb.
  - done.
Qed.

(** ** Vaults: a self-delimiting encoding *)

Record codec (A : Type) := mkCodec { put : A → bytes; get : bytes → option (A * bytes) }.
Arguments mkCodec {A} put get.
Arguments put {A} c x.
Arguments get {A} c b.

Definition codec_ok {A} (c : codec A) : Prop := ∀ x rest, get c (put c x ++ rest) = Some (x, rest).

Definition by_iso {A B} (f : A → B) (g : B → A) (c : codec B) : codec A :=
  mkCodec (λ x, put c (f x)) (λ b, '(y, rest) ← get c b; Some (g y, rest)).
Lemma by_iso_ok {A B} (f : A → B) g c : (∀ x, g (f x) = x) → codec_ok c → codec_ok (by_iso f g c).
Proof. intros Hgf Hc x rest. cbn. rewrite Hc. cbn. by rewrite Hgf. Qed.

Definition pair_codec {A B} (c : codec A) (d : codec B) : codec (A * B) :=
  mkCodec (λ x, put c (fst x) ++ put d (snd x))
    (λ b, '(x, b) ← get c b; '(y, b) ← get d b; Some ((x, y), b)).
Lemma pair_ok {A B} (c : codec A) (d : codec B) : codec_ok c → codec_ok d → codec_ok (pair_codec c d).
Proof. intros Hc Hd [x y] rest. cbn. rewrite <- app_assoc, Hc. cbn. by rewrite Hd. Qed.

Definition byte_codec : codec byte :=
  mkCodec (λ x, [x]) (λ b, match b with x :: b => Some (x, b) | [] => None end).

(** Each element is announced by [x01]; [x00] ends the list. *)
Fixpoint put_list {A} (c : codec A) (l : list A) : bytes :=
  match l with
  | [] => [x00]
  | x :: l' => x01 :: put c x ++ put_list c l'
  end.
Fixpoint get_list {A} (c : codec A) (fuel : nat) (b : bytes) : option (list A * bytes) :=
  match fuel, b with
  | S fuel', x :: b' =>
      if bool_decide (x = x00) then Some ([], b')
      else '(y, b') ← get c b'; '(l, b') ← get_list c fuel' b'; Some (y :: l, b')
  | _, _ => None
  end.
Definition list_codec {A} (c : codec A) : codec (list A) :=
  mkCodec (put_list c) (λ b, get_list c (length b) b).

Lemma get_put_list {A} (c : codec A) l fuel rest :
  codec_ok c → length (put_list c l) ≤ fuel → get_list c fuel (put_list c l ++ rest) = Some (l, rest).
Proof.
  intros Hc. revert fuel. induction l as [|x l IH]; intros [|fuel]; cbn; try lia; [done|].
  rewrite length_app. intros Hf. rewrite <- app_assoc, Hc. cbn. by rewrite IH by lia.
Qed.
Lemma list_ok {A} (c : codec A) : codec_ok c → codec_ok (list_codec c).
Proof. intros Hc l rest. apply get_put_list; [done|]. rewrite length_app. cbn. lia. Qed.

Definition option_codec {A} (c : codec A) : codec (option A) := by_iso option_list head (list_codec c).
Lemma option_ok {A} (c : codec A) : codec_ok c → codec_ok (option_codec c).
Proof. intros Hc. apply by_iso_ok; [by intros []|by apply list_ok]. Qed.

Definition string_codec : codec string := by_iso bytes_of_string string_of_bytes (list_codec byte_codec).
Lemma string_ok : codec_ok string_codec.
Proof. apply by_iso_ok; [apply string_of_bytes_of_string|]. apply list_ok. by intros x rest. Qed.

Fixpoint bits_of (p : positive) : bytes :=
  match p with
  | xH => []
  | xO p' => x00 :: bits_of p'
  | xI p' => x01 :: bits_of p'
  end.
Fixpoint of_bits (b : bytes) : positive :=
  match b with
  | [] => xH
  | x :: b' => if bool_decide (x = x00) then xO (of_bits b') else xI (of_bits b')
  end.
Lemma of_bits_of p : of_bits (bits_of p) = p.
Proof. induction p as [p IH|p IH|]; cbn; by rewrite ?IH. Qed.

Definition Z_codec : codec Z :=
  by_iso (λ z, bits_of (encode z)) (λ b, default 0%Z (decode (of_bits b))) (list_codec byte_codec).
Lemma Z_ok : codec_ok Z_codec.
Proof.
  apply by_iso_ok; [intros z; by rewrite of_bits_of, decode_encode|]. apply list_ok. by intros x rest.
Qed.

Definition connection_codec : codec Connection :=
  let s := string_codec in
  by_iso
    (λ c, (c_Name c, (c_Host c, (c_Port c, (c_User c, (c_Password c, (c_KeyName c, (c_Group c,
      (c_Transfer c, c_ProxyJump c)))))))))
    (λ '(a, (b, (c, (d, (e, (f, (g, (h, i)))))))), mkConnection a b c d e f g h i)
    (pair_codec s (pair_codec s (pair_codec Z_codec (pair_codec s (pair_codec s (pair_codec s
      (pair_codec s (pair_codec s s)))))))).
Definition key_codec : codec SSHKey :=
  by_iso (λ k, (k_Name k, k_PrivateKey k)) (λ '(a, b), mkSSHKey a b) (pair_codec string_codec string_codec).
Definition snapshot_codec : codec InventorySnapshot :=
  by_iso (λ s, (s_Connections s, s_Keys s)) (λ '(a, b), mkSnapshot a b)
    (pair_codec (list_codec connection_codec) (list_codec key_codec)).
Definition mutation_codec : codec PendingMutation :=
  let s := string_codec in
  by_iso
    (λ m, (m_ID m, (m_Alias m, (m_Aliases m, (m_KeyName m, (m_Operation m, (m_CreatedAt m, (m_Before m,
      (m_After m, (m_KeysBefore m, (m_KeysAfter m, (m_BulkBefore m, (m_BulkAfter m,
      (m_ConnectionCount m, m_KeyCount m))))))))))))))
    (λ '(a, (b, (c, (d, (e, (f, (g, (h, (i, (j, (k, (l, (m, n))))))))))))),
      mkMutation a b c d e f g h i j k l m n)
    (pair_codec s (pair_codec s (pair_codec (list_codec s) (pair_codec s (pair_codec s (pair_codec s
      (pair_codec (option_codec connection_codec) (pair_codec (option_codec connection_codec)
      (pair_codec (list_codec key_codec) (pair_codec (list_codec key_codec)
      (pair_codec (option_codec snapshot_codec) (pair_codec (option_codec snapshot_codec)
      (pair_codec Z_codec Z_codec))))))))))))).
Definition vault_codec : codec Vault :=
  by_iso (λ v, (v_Connections v, (v_Keys v, (v_PendingBase v, v_PendingMutations v))))
    (λ '(a, (b, (c, d))), mkVault a b c d)
    (pair_codec (list_codec connection_codec) (pair_codec (list_codec key_codec)
      (pair_codec (option_codec snapshot_codec) (list_codec mutation_codec)))).

Create HintDb codec discriminated.
#[export] Hint Resolve pair_ok list_ok option_ok string_ok Z_ok : codec.
Lemma connection_ok : codec_ok connection_codec.
Proof. apply by_iso_ok; [by intros []|]. auto 20 with codec. Qed.
Lemma key_ok : codec_ok key_codec.
Proof. apply by_iso_ok; [by intros []|]. auto with codec. Qed.
#[export] Hint Resolve connection_ok key_ok : codec.
Lemma snapshot_ok : codec_ok snapshot_codec.
Proof. apply by_iso_ok; [by intros []|]. auto with codec. Qed.
#[export] Hint Resolve snapshot_ok : codec.
Lemma mutation_ok : codec_ok mutation_codec.
Proof. apply by_iso_ok; [by intros []|]. auto 20 with codec. Qed.
#[export] Hint Resolve mutation_ok : codec.
Lemma vault_ok : codec_ok vault_codec.
Proof. apply by_iso_ok; [by intros []|]. auto 20 with codec. Qed.

#[export] Instance toy_vault_json : VaultJson := {|
  marshal_vault := put vault_codec;
  unmarshal_vault b := fst <$> get vault_codec b;
  unmarshal_connections b := None;
|}.
#[export] Instance toy_vault_json_laws : VaultJsonLaws toy_vault_json.
Proof.
  split. intros v. pose proof (vault_ok v []) as Hv. rewrite app_nil_r in Hv.
  unfold unmarshal_vault, marshal_vault, toy_vault_json. by rewrite Hv.
Qed.

#[export] Instance toy_intent_json : IntentJson := {|
  parses_RFC3339Nano s := true;
  document_size i := 1000%Z;
|}.
