(* ===== verification/LedgerExamples.v ===== *)
(** * A small inventory, and the ledger theorems on it

    Two hosts and two keys, an environment in which files read and saves succeed,
    and a ledger with two pending mutations; each theorem about the ledger that
    has hypotheses is applied to them. *)

From Stdlib Require Import Strings.Byte.
From S2P Require Import Prelude NamedList GoStrings GoErrors VaultBlob FailurePolicy Config Ledger LedgerFacts ProjectionFacts HostMutation HostMutationFacts.

Definition ex_key (n : string) : SSHKey := mkSSHKey n ("material of " +:+ n).
Definition ex_conn (n key : string) : Connection :=
  mkConnection n "10.0.0.1" 22 "root" "" key "" "" "".

Definition ex_v0 : Vault :=
  mkVault [ex_conn "web" "k1"; ex_conn "db" "k2"] [ex_key "k1"; ex_key "k2"; ex_key "k3"] None [].

Definition ex_env : Env := {|
  env_read_file _ := Ok "secret";
  env_ParsePrivateKey _ := None;
  env_verifier c _ := mkCheck true (c_Name c) "";
  env_now := "2026-01-02T03:04:05Z";
  env_recorded_at := "2026-01-02T03:04:05Z";
  env_random := Ok [x0a; x0b];
  env_lock := Ok ();
  env_loaded := Some "id";
  env_current := Ok "id";
  env_save _ := VaultSaved;
  env_save_report _ := Ok ();
  env_redact s := s;
|}.

(** Adding the host "new" with a password, and then moving "web" to the key "k3". *)
Definition ex_add : HostChange :=
  mkHostChange HostAdd "new" (Some "10.0.0.2") None (Some "root") None None None
    (Some "/pw") None None None false true.
Definition ex_update : HostChange :=
  mkHostChange HostUpdate "web" None None None None None None None (Some "k3") None None false false.

(** Deciding the invariant's conjuncts on lists. *)
Lemma closed_lists cs ks :
  Forall (λ c, c_KeyName c = "" ∨ c_KeyName c ∈ names k_Name ks) cs → closed (abs_lists cs ks).
Proof.
  rewrite Forall_forall. intros H a c [_ Hin]%by_name_lookup_name Hne. cbn.
  apply not_eq_None_Some. rewrite by_name_None. destruct (H c Hin); tauto.
Qed.

Lemma ledger_ok_initial v :
  v_PendingBase v = None → v_PendingMutations v = [] →
  NoDup (names c_Name (v_Connections v)) ∧ NoDup (names k_Name (v_Keys v)) ∧
  "" ∉ names c_Name (v_Connections v) ∧ "" ∉ names k_Name (v_Keys v) ∧
  Forall (λ c, c_KeyName c = "" ∨ c_KeyName c ∈ names k_Name (v_Keys v)) (v_Connections v) →
  ledger_ok v.
Proof.
  intros Hb Hp (? & ? & ? & ? & ?). split; try done.
  - unfold validateLedger. by rewrite Hb, Hp.
  - by apply closed_lists.
  - intros base Hbase. congruence.
Qed.

Lemma ex_v0_ok : ledger_ok ex_v0.
Proof. apply ledger_ok_initial; [done..|]. apply (bool_decide_unpack _). by vm_compute. Qed.

Definition ex_saved {A} (h : handled A) : Vault := default zero_vault (h_saved h).

Lemma ex_fresh v : m_ID <$> v_PendingMutations v = [] → fresh_id (E := ex_env) v.
Proof. intros H raw _. rewrite H. apply not_elem_of_nil. Qed.

Lemma apply_host_keeps_ledger_witness :
  let v := ex_saved (ApplyHost (H := ascii_case) (E := ex_env) ex_v0 ex_add) in
  ledger_ok v ∧ delete "new" (i_conns (abs v)) = delete "new" (i_conns (abs ex_v0))
  ∧ other_keys_kept ex_add (abs ex_v0) (abs v).
Proof.
  pose proof (apply_host_keeps_ledger (H := ascii_case) (E := ex_env) ex_v0 ex_add
    ex_v0_ok (ex_fresh ex_v0 eq_refl)) as [Hm _].
  cbv zeta. unfold ex_saved. destruct (h_saved (ApplyHost ex_v0 ex_add)) as [v|] eqn:Er;
    [|exfalso; vm_compute in Er; discriminate Er].
  destruct (Hm v eq_refl) as (Hok & _ & Hdel & Hkeys & _). exact (conj Hok (conj Hdel Hkeys)).
Defined.

(** A save that fails after its rename: the host is on disk, and the command reports an
    error. A key that another connection uses is not replaced. *)
Definition ex_unsynced : Env := {|
  env_read_file _ := Ok "other material";
  env_ParsePrivateKey _ := None;
  env_verifier c _ := mkCheck true (c_Name c) "";
  env_now := "2026-01-02T03:04:05Z";
  env_recorded_at := "2026-01-02T03:04:05Z";
  env_random := Ok [x0a; x0b];
  env_lock := Ok ();
  env_loaded := Some "id";
  env_current := Ok "id";
  env_save _ := VaultSaveFailed true (Errorf "sync directory");
  env_save_report _ := Ok ();
  env_redact s := s;
|}.
Definition ex_shared : Vault := mkVault [ex_conn "web" "k1"; ex_conn "db" "k1"] [ex_key "k1"] None [].
Definition ex_rekey : HostChange :=
  mkHostChange HostUpdate "web" None None None None None None None None (Some "/key") None false false.

Example failed_save_may_be_stored :
  let h := ApplyHost (H := ascii_case) (E := ex_unsynced) ex_v0 ex_add in
  match h_result h with inl _ => true | inr _ => false end = true
  ∧ (v ← h_saved h; i_conns (abs v) !! "new") = Some (mkConnection "new" "10.0.0.2" 22 "root" "other material" "" "" "" "").
Proof. vm_compute. by split. Qed.

Example shared_key_is_not_replaced :
  let rekey v := ApplyHost (H := ascii_case) (E := ex_unsynced) v ex_rekey in
  h_saved (rekey ex_shared) = None
  ∧ (v ← h_saved (rekey ex_v0); i_keys (abs v) !! "k1") = Some (mkSSHKey "k1" "other material").
Proof. vm_compute. by split. Qed.

Lemma remove_saved_key_keeps_ledger_witness :
  let v := ex_saved (RemoveSavedKey (H := ascii_case) (E := ex_env) ex_v0 "k3") in
  ledger_ok v ∧ i_keys (abs v) = delete "k3" (i_keys (abs ex_v0)).
Proof.
  pose proof (remove_saved_key_keeps_ledger (H := ascii_case) (E := ex_env) ex_v0 "k3"
    ex_v0_ok (ex_fresh ex_v0 eq_refl)) as Hm.
  cbv zeta. unfold ex_saved. destruct (h_saved (RemoveSavedKey ex_v0 "k3")) as [v|] eqn:Er;
    [|exfalso; vm_compute in Er; discriminate Er].
  change (default zero_vault (Some v)) with v. destruct Hm as (Hok & _ & _ & Hkeys & _). exact (conj Hok Hkeys).
Defined.

Lemma apply_import_keeps_ledger_witness :
  let v := ex_saved (ApplyImport (H := ascii_case) (E := ex_env) ex_v0
             (mkVault [ex_conn "web" "k9"] [ex_key "k9"] None []) false) in
  ledger_ok v ∧ i_keys (abs v) = {[ "k9" := ex_key "k9" ]} ∪ i_keys (abs ex_v0).
Proof.
  pose proof (apply_import_keeps_ledger (H := ascii_case) (E := ex_env) ex_v0
    (mkVault [ex_conn "web" "k9"] [ex_key "k9"] None []) false ex_v0_ok (ex_fresh ex_v0 eq_refl)) as Hm.
  cbv zeta. unfold ex_saved.
  destruct (h_saved (ApplyImport ex_v0 _ false)) as [v|] eqn:Er;
    [|exfalso; vm_compute in Er; discriminate Er].
  change (default zero_vault (Some v)) with v. destruct Hm as (_ & Hok & Habs & _). split; [exact Hok|]. rewrite Habs. reflexivity.
Defined.

(** The ledger with both mutations pending, built step by step. *)
Definition ex_after1 : Vault :=
  set_connections ex_v0 (v_Connections ex_v0 ++ [mkConnection "new" "10.0.0.2" 22 "root" "pw" "" "" "" ""]).
Definition ex_m1 : PendingMutation := host_mutation (E := ex_env) ex_v0 ex_after1 "new" "tx_1" "created".
Definition ex_v1 : Vault := append_mutation ex_after1 (snapshotInventory ex_v0) ex_m1.

Definition ex_after2 : Vault :=
  set_connections ex_v1 (<[0 := ex_conn "web" "k3"]> (v_Connections ex_v1)).
Definition ex_m2 : PendingMutation := host_mutation (E := ex_env) ex_v1 ex_after2 "web" "tx_2" "updated".
Definition ex_v2 : Vault := append_mutation ex_after2 (snapshotInventory ex_v0) ex_m2.

Lemma ex_v1_ok : ledger_ok ex_v1.
Proof.
  pose proof (put_connection_ok ex_v0 ex_v0 "new"
    (mkConnection "new" "10.0.0.2" 22 "root" "pw" "" "" "" "")) as Hput.
  assert (candidate_ok ex_v0 ex_after1 "new") as Hca.
  { apply Hput; try done; try apply ex_v0_ok. apply keys_grow_refl, ex_v0_ok. }
  eapply (append_ok _ _ _ (Errorf "")); try apply Hca; try apply ex_v0_ok; try done.
  - by apply not_elem_of_nil.
  - by apply host_mutation_recorded; [apply ex_v0_ok|].
Qed.

Lemma ex_v2_ok : ledger_ok ex_v2.
Proof.
  pose proof (put_connection_ok ex_v1 ex_v1 "web" (ex_conn "web" "k3")) as Hput.
  assert (candidate_ok ex_v1 ex_after2 "web") as Hca.
  { apply Hput; try done; try apply ex_v1_ok. apply keys_grow_refl, ex_v1_ok. }
  eapply (append_ok _ _ _ (Errorf "")); try apply Hca; try apply ex_v1_ok; try done.
  - by apply (bool_decide_unpack _); vm_compute.
  - by apply host_mutation_recorded; [apply ex_v1_ok|].
Qed.

Definition ex_projection (v : Vault) (only : string) : projection :=
  match project v only with inr p => p | inl _ => mkProjection zero_vault [] end.

(** Publishing only the second mutation: the base moves, the first stays. *)
Lemma publication_keeps_ledger_witness :
  let p := ex_projection ex_v2 "tx_2" in
  closed (abs (p_Vault p)) ∧ ledger_ok (markPublished ex_v2 (p_Selected p) (p_Vault p)) ∧
  m_ID <$> v_PendingMutations (markPublished ex_v2 (p_Selected p) (p_Vault p)) = ["tx_1"].
Proof.
  cbv zeta. unfold ex_projection. destruct (project ex_v2 "tx_2") as [e|p] eqn:Ep; [by vm_compute in Ep|].
  destruct (publication_keeps_ledger ex_v2 "tx_2" p ex_v2_ok Ep) as (_ & ? & ? & _).
  split_and!; [done..|]. vm_compute in Ep. injection Ep as <-. by vm_compute.
Defined.

Lemma project_all_is_working_witness :
  ∃ p, project ex_v2 "" = inr p ∧ abs (p_Vault p) = abs ex_v2 ∧
    m_ID <$> p_Selected p = ["tx_1"; "tx_2"].
Proof.
  destruct (project_all_is_working ex_v2 ex_v2_ok) as (p & Hp & Habs & _ & Hs & _).
  exists p. split_and!; [done..|]. rewrite Hs. by vm_compute.
Defined.

Lemma key_delta_roundtrip_witness :
  let (kb, ka) := keyDelta [ex_key "k1"; ex_key "k2"] [ex_key "k2"; mkSSHKey "k3" "other"] in
  by_name k_Name (v_Keys (applyKeyDelta (set_keys zero_vault [ex_key "k1"; ex_key "k2"]) kb ka))
    = by_name k_Name [ex_key "k2"; mkSSHKey "k3" "other"].
Proof.
  pose proof (key_delta_roundtrip (set_keys zero_vault [ex_key "k1"; ex_key "k2"])
    [ex_key "k2"; mkSSHKey "k3" "other"]) as Hrt.
  cbn [set_keys v_Keys] in *.
  destruct (keyDelta [ex_key "k1"; ex_key "k2"] [ex_key "k2"; mkSSHKey "k3" "other"]) as [kb ka].
  apply Hrt; apply (bool_decide_unpack _); by vm_compute.
Defined.

(** A mutation that uses a key an earlier one created is refused alone. *)
Definition ex_m3 : PendingMutation :=
  mkMutation "tx_3" "app" [] "" "created" "" None (Some (ex_conn "app" "k4")) [] [ex_key "k4"] None None 0 0.
Definition ex_m4 : PendingMutation :=
  mkMutation "tx_4" "job" [] "" "created" "" None (Some (ex_conn "job" "k4")) [] [] None None 0 0.
Definition ex_v4 : Vault := mkVault [] [] (Some (mkSnapshot [] [])) [ex_m3; ex_m4].

Lemma preflight_reports_dependencies_witness :
  d_ID <$> dependencies [ex_m3; ex_m4] 1 = ["tx_3"] ∧ dependencies [ex_m3; ex_m4] 1 ≠ [].
Proof.
  pose proof (preflight_reports_dependencies ex_v4 "tx_4" "tx_4" (dependencies [ex_m3; ex_m4] 1)
    ltac:(by vm_compute)) as (_ & Hne & _).
  split; [by vm_compute|done].
Defined.

Lemma applyKeyDelta_order_witness :
  let v := set_keys zero_vault [ex_key "k1"; ex_key "k2"] in
  set_keys v (applyKeyDelta_in ["k2"; "k1"] ["k4"; "k3"] (v_Keys v)
    [ex_key "k1"; ex_key "k2"] [ex_key "k3"; ex_key "k4"])
  = applyKeyDelta v [ex_key "k1"; ex_key "k2"] [ex_key "k3"; ex_key "k4"].
Proof.
  apply applyKeyDelta_order; apply NoDup_Permutation;
    try (apply (bool_decide_unpack _); by vm_compute);
    intros x; change (remove_dups _) with ["k1"; "k2"] || change (remove_dups _) with ["k3"; "k4"];
    set_solver.
Defined.
