(* ===== verification/Examples.v ===== *)
(** * Concrete instances of the classification and configuration theorems

    Each theorem of [ContractFacts] and [Config] that has hypotheses is applied to
    an input where they hold, with the redactor and the duration parser instantiated. *)

From Stdlib Require Import Strings.Byte.
From S2P Require Import Prelude GoStrings GoErrors NamedList VaultBlob FailurePolicy MachineContract ContractFacts Config JumpChain.

(** An error with nothing but a text, and one from a broken pipe. *)
Definition ex_error (message : string) : sshError :=
  mkSSHError message None None false None None None None false false false false None None.
Definition ex_broken : sshError :=
  mkSSHError "write: broken pipe" None None false None None None None true false false false None None.
Definition ex_key_error (want : nat) : sshError :=
  mkSSHError "knownhosts: key is unknown" None None false (Some want) None None None
    false false false false None None.
Definition ex_exec : SSHContext := mkContext "web" "" "10.0.0.1" 22 "session" false false true.

#[local] Existing Instance ascii_case.
Abbreviation same := (λ s : string, s).

Lemma classify_never_success_witness :
  let f := Classify same HostKeyMismatch no_details in
  f_Exit f = 255%Z ∧ ProcessExit f ≠ 0%Z ∧ ProcessExit f ∈ policy_exits.
Proof.
  pose proof (classify_never_success same HostKeyMismatch no_details) as (_ & _ & _ & Hp & Hx).
  split_and!; [by vm_compute|exact Hp|by apply Hx].
Defined.

Lemma connection_lost_sound_witness :
  let f := ClassifySSH same false (Some ex_broken) ex_exec in
  f_Error f = CodeConnectionLost ∧ f_Outcome f = OutcomeUnknown ∧ f_Exit f = 255%Z.
Proof.
  pose proof (connection_lost_sound same false ex_broken ex_exec eq_refl)
    as [Ho Hl].
  split_and!; [by vm_compute|by apply Ho|by apply Hl].
Defined.

Lemma exit_for_error_witness :
  let ExitForError := ExitForError same false in
  ExitForError (Some (mkSSHError "" None None false None None None None false false false false None
    (Some 3%Z))) = 3%Z ∧ ExitForError (Some ex_broken) ≠ 0%Z.
Proof.
  pose proof (exit_for_error same false) as Hx. split.
  - by apply Hx.
  - apply Hx; done.
Defined.

Lemma host_key_errors_dominate_witness :
  let f := ClassifySSH same false (Some (ex_key_error 0)) ex_exec in
  f_Exit f = 255%Z ∧ f_Error f = CodeHostKeyUnknown.
Proof.
  pose proof (host_key_errors_dominate same false (ex_key_error 0) ex_exec eq_refl
    ltac:(right; by eexists)) as (_ & Hx & Hu).
  split; [exact Hx|by apply Hu].
Defined.

Lemma aggregate_exit_witness :
  let results := [mkResult true 0; mkResult false 0; mkResult false 255] in
  AggregateResultExit results = 1%Z.
Proof.
  apply (proj2 (aggregate_exit [mkResult true 0; mkResult false 0; mkResult false 255])
    [mkResult true 0] (mkResult false 0) [mkResult false 255]); [done|by repeat constructor|done].
Defined.

Definition ex_merge_local : Vault :=
  mkVault [mkConnection "web" "10.0.0.1" 22 "root" "" "" "" "" "";
           mkConnection "db" "10.0.0.2" 22 "root" "" "" "" "" ""] [mkSSHKey "k" "a"] None [].
Definition ex_merge_remote : Vault :=
  mkVault [mkConnection "web" "10.0.0.9" 22 "root" "" "" "" "" ""] [mkSSHKey "k" "a"] None [].

Lemma merge_remote_wins_witness :
  let report := snd (MergeVaultsWithReport "now" ex_merge_local ex_merge_remote) in
  mkConflict "web" "alias" "remote" ∈ mr_Conflicts report.
Proof.
  pose proof (merge_remote_wins "now" ex_merge_local ex_merge_remote) as Hm.
  do 4 (specialize (Hm ltac:(apply (bool_decide_unpack _); by vm_compute))).
  destruct (MergeVaultsWithReport "now" ex_merge_local ex_merge_remote) as [merged report].
  apply Hm. do 2 eexists. split_and!; [by vm_compute|by vm_compute|done].
Defined.

Lemma next_generation_monotone_witness :
  let g := NextVaultGeneration (Some (x02 :: replicate 80 x01)) (Doc 7%Z) in
  (7 < g)%Z.
Proof.
  pose proof (next_generation_monotone (Some (x02 :: replicate 80 x01)) (Doc 7%Z))
    as Hn.
  destruct Hn as (_ & Hn & _); [by vm_compute|]. apply Hn. by vm_compute.
Defined.

Lemma settings_duration_bounds_witness :
  let d := parseSettingsDuration (λ _, Some 5%Z) "5ns" hour in (0 < d ≤ max_int)%Z.
Proof.
  apply (settings_duration_bounds (λ _, Some 5%Z) "5ns" hour); [by vm_compute|].
  intros s d [= <-]. by vm_compute.
Defined.

(** A redirect from an old name, and the aliases a pattern selects. *)
Definition ex_host (name jump : string) : Connection := mkConnection name "h" 22 "u" "" "" "" "" jump.
Definition ex_hosts : Vault := mkVault [ex_host "web" "gate"; ex_host "gate" ""] [] None [].
Definition ex_redirects : Redirects := {["www" := "web"]}.

Example ex_chain : ResolveJumpChain ex_redirects ex_hosts (ex_host "db" "www") =
  Some (inr [ex_host "gate" ""; ex_host "web" "gate"; ex_host "db" "www"]).
Proof. vm_compute. reflexivity. Qed.

Lemma resolve_alias_sound_witness :
  "www" ≠ "" ∧ ResolveAlias ex_redirects ex_hosts "www" = (Some (ex_host "web" "gate"), "web") ∧
  rtc (redirect ex_redirects) "www" "web".
Proof.
  assert (ResolveAlias ex_redirects ex_hosts "www" = (Some (ex_host "web" "gate"), "web")) as Hr
    by (vm_compute; reflexivity).
  split_and!; [discriminate|exact Hr|].
  destruct (resolve_alias_sound ex_redirects ex_hosts "www" _ _ Hr ltac:(discriminate)) as (H & _ & _).
  apply (H _ eq_refl).
Defined.

Definition ex_glob (p n : string) : option bool := Some (bool_decide (p = "*") || bool_decide (p = n)).
Lemma match_aliases_selects_witness :
  MatchAliases ex_glob ex_hosts ["www"] ["*, other"] = Ok ["gate"; "web"; "www"; "other"] ∧
  NoDup ["gate"; "web"; "www"; "other"].
Proof.
  assert (MatchAliases ex_glob ex_hosts ["www"] ["*, other"] = Ok ["gate"; "web"; "www"; "other"]) as Hm
    by (vm_compute; reflexivity).
  split; [exact Hm|]. apply (match_aliases_selects ex_glob ex_hosts ["www"] ["www"] ["*, other"] _ Hm).
Defined.
