(* ===== verification/Update.v ===== *)
(** * An update: the replacement is atomic, and from the release to the installed file

    Without other processes, whatever calls fail, a replacement leaves under the target's
    name the authenticated copy, or the original, or keeps the original under the
    rollback name; and nothing else that was there changed. Composed with the download
    it installs only verified bytes. *)

From S2P Require Import Prelude GoStrings GoStringFacts GoErrors SyncProtocol Release FileWorld UnixReplace UnixReplaceFacts ReleaseFacts.

(** ** [io.Copy] reads everything, up to its limit *)

Section Rounds.
Context {X Y : Type} (R : N → X → assertion) (Done : Y → assertion) (Failed : goerror → assertion).

Lemma runs_rounds (f : X → P (X + Y)) :
  (∀ k x, spec (R k x) (f x) (λ r, match r with
     | Ok (inl x') => R (k + 1) x' | Ok (inr y) => Done y | Fail e => Failed e end)) →
  ∀ n k x, spec (R k x) (rounds n f x) (λ r, match r with
     | Ok (inl x') => R (k + 2 ^ N.of_nat n) x' | Ok (inr y) => Done y | Fail e => Failed e end).
Proof.
  intros Hf n. induction n as [|n IH]; intros k x; cbn [rounds]; [apply Hf|].
  apply (runs_bind _ _ _ (λ r, match r with inl x' => R (k + 2 ^ N.of_nat n) x' | inr y => Done y end)).
  { eapply runs_post; [|apply IH]. by intros [[]|]. }
  intros [x'|y]; [|by intros w Hw]. eapply runs_post; [|apply IH]. intros r fs l.
  replace (k + 2 ^ N.of_nat (S n))%N with (k + 2 ^ N.of_nat n + 2 ^ N.of_nat n)%N; [done|].
  rewrite Nat2N.inj_succ, N.pow_succ_r'. lia.
Qed.
End Rounds.

Section Alone.
Context `{!Sha256} (sched : nat → Event) (Halone : ∀ time fs, ev_env (sched time) fs = fs).
Context (fs0 : FS) (t : string) (o : N).
Let p : N := fs_parent fs0.
Context (Ht : t ∉ entry_names) (Htarget : entry fs0 p t = Some o).

Lemma alone time fs : fs = ev_env (sched time) fs.
Proof. done. Qed.

Lemma rollback_is_other : t ≠ unixRollbackEntry.
Proof. clear - Ht. unfold entry_names in Ht. set_solver. Qed.

(** What was there is there. *)
Definition frame (fs : FS) : Prop :=
  fs_parent fs = p ∧
  (∀ d name i, entry fs0 d name = Some i → (d, name) ≠ (p, t) → entry fs d name = Some i) ∧
  (∀ i ob, fs_objects fs0 !! i = Some ob → fs_objects fs !! i = Some ob).

(** Also some entries and some objects. *)
Definition hold (E : list ((N * string) * N)) (O : list (N * object)) : assertion := λ fs _,
  frame fs ∧ Forall (λ x, entry fs x.1.1 x.1.2 = Some x.2) E ∧ Forall (λ x, fs_objects fs !! x.1 = Some x.2) O.

Definition own_name (d : N) (name : string) : Prop := entry fs0 d name = None ∧ (d, name) ≠ (p, t).
Definition own_object (i : N) : Prop := fs_objects fs0 !! i = None.

Lemma hold_stable E O : Stable eq (hold E O).
Proof. by intros fs fs' l Hh <-. Qed.

Lemma hold_log E O fs l l' : hold E O fs l → hold E O fs l'.
Proof. done. Qed.

Lemma hold_entry E O fs l d name i : hold E O fs l → ((d, name), i) ∈ E → entry fs d name = Some i.
Proof. intros (_ & HE & _) Hin. rewrite Forall_forall in HE. exact (HE _ Hin). Qed.
Lemma hold_object E O fs l i ob : hold E O fs l → (i, ob) ∈ O → fs_objects fs !! i = Some ob.
Proof. intros (_ & _ & HO) Hin. rewrite Forall_forall in HO. exact (HO _ Hin). Qed.

Lemma hold_sub E E' O O' fs l : E' ⊆ E → O' ⊆ O → hold E O fs l → hold E' O' fs l.
Proof.
  intros HE HO (Hf & He & Ho). split; [done|]. rewrite !Forall_forall in *. split; intros x Hx; [by apply He, HE|by apply Ho, HO].
Qed.

(** Steps that keep these. *)
Definition respects (E : list ((N * string) * N)) (O : list (N * object)) (fs fs' : FS) : Prop :=
  (frame fs → frame fs') ∧
  (∀ d name i, ((d, name), i) ∈ E → entry fs d name = Some i → entry fs' d name = Some i) ∧
  (∀ i ob, (i, ob) ∈ O → fs_objects fs !! i = Some ob → fs_objects fs' !! i = Some ob).
(** Steps that only add. *)
Definition adds (fs fs' : FS) : Prop :=
  fs_parent fs' = fs_parent fs ∧ (∀ d name i, entry fs d name = Some i → entry fs' d name = Some i) ∧
  (∀ i ob, fs_objects fs !! i = Some ob → fs_objects fs' !! i = Some ob).

Lemma adds_respects E O fs fs' : adds fs fs' → respects E O fs fs'.
Proof. intros (Hp & He & Ho). split_and!; [|by auto..]. intros (? & ? & ?). split_and!; [congruence|auto..]. Qed.
Lemma respects_refl E O fs : respects E O fs fs.
Proof. by split_and!. Qed.

Lemma respects_hold E O fs fs' l l' : respects E O fs fs' → hold E O fs l → hold E O fs' l'.
Proof.
  intros (Hf & He & Ho) (Hfr & HE & HO). split; [by apply Hf|]. rewrite !Forall_forall in *. split.
  - intros [[d name] i] Hx. eapply He; [done|]. by apply (HE ((d, name), i)).
  - intros [i ob] Hx. eapply Ho; [done|]. by apply (HO (i, ob)).
Qed.

Lemma survives_hold_framed {A} E O (f : Event → FS → result A * FS) :
  (∀ e fs, frame fs → respects E O fs (f e fs).2) → keeps (hold E O) (call sched f).
Proof.
  intros Hf. apply (runs_call _ eq alone); [apply hold_stable|]. intros e fs l Hh. split; [done|].
  eapply respects_hold, Hh. apply Hf, Hh.
Qed.
Lemma survives_hold {A} E O (f : Event → FS → result A * FS) :
  (∀ e fs, respects E O fs (f e fs).2) → keeps (hold E O) (call sched f).
Proof. intros Hf. apply survives_hold_framed. auto. Qed.
Lemma hold_query {A} E O (f : FS → result A) : keeps (hold E O) (query sched f).
Proof. apply survives_hold. intros. apply respects_refl. Qed.

Lemma linked_adds fs i d name : adds fs (linked fs i d name).2.
Proof.
  unfold linked. destruct (entry fs d name) eqn:Hn; [done|]. split_and!; [done| |done]. intros d' name' j Hj.
  cbn [snd]. rewrite entry_set_ne; [done|]. intros [= -> ->]. congruence.
Qed.
Lemma link_adds fs d name d' name' : adds fs (link_at fs d name d' name').2.
Proof. unfold link_at. repeat case_match; try done. apply linked_adds. Qed.
Lemma link_object_adds fs i d name : adds fs (link_object fs i d name).2.
Proof. unfold link_object. case_match; [done|apply linked_adds]. Qed.
Lemma create_adds fs d name ob : adds fs (create_at fs d name ob).2.
Proof.
  unfold create_at. destruct (entry fs d name) eqn:Hn; [done|]. pose proof (fresh_object_spec fs) as [Hfresh _].
  split_and!; [done| |].
  - intros d' name' j Hj. cbn [snd]. rewrite entry_set_ne; [done|]. intros [= -> ->]. congruence.
  - intros i ob' Hi. cbn. rewrite lookup_insert_ne; [done|]. congruence.
Qed.

Lemma delete_respects E O fs d name : own_name d name → (d, name) ∉ E.*1 →
  respects E O fs (set_entries (delete (d, name)) fs).
Proof.
  intros [Hown Hne] HE. split_and!; [| |done].
  - intros (Hp & He & Ho). split_and!; [done| |done]. intros k n i Hk Hkn. rewrite entry_delete_ne; [by apply He|]. intros [= -> ->]. congruence.
  - intros k n i Hin Hk. rewrite entry_delete_ne; [done|]. intros [= -> ->]. apply HE, list_elem_of_fmap. by exists ((d, name), i).
Qed.

Lemma unlink_respects E O fs d name removedir : own_name d name → (d, name) ∉ E.*1 →
  respects E O fs (unlink_at fs d name removedir).2.
Proof. intros Hn HE. unfold unlink_at. repeat case_match; try apply respects_refl; by apply delete_respects. Qed.

Lemma update_respects E O fs g i : own_object i → i ∉ O.*1 → respects E O fs (update_object g i fs).
Proof.
  intros Hi HO. split_and!; [|done|].
  - intros (Hp & He & Ho). split_and!; [done..|]. intros j ob Hj. cbn. rewrite lookup_alter_ne; [by apply Ho|].
    intros ->. unfold own_object in Hi. congruence.
  - intros j ob Hin Hj. cbn. rewrite lookup_alter_ne; [done|]. intros ->. apply HO, list_elem_of_fmap. by exists (j, ob).
Qed.

Lemma rename_respects E O fs d name d' name' :
  own_name d name ∨ (d, name) = (p, t) → own_name d' name' ∨ (d', name') = (p, t) →
  (d, name) ∉ E.*1 → (d', name') ∉ E.*1 → respects E O fs (rename_at fs d name d' name').2.
Proof.
  intros Hn Hn' HE HE'. split_and!.
  - intros (Hp & He & Ho). split_and!.
    + unfold rename_at. repeat case_match; done.
    + intros k n i Hk Hkn. rewrite rename_keeps_entry; [by apply He| |].
      * intros [= -> ->]. destruct Hn as [[Hn _]|Hn]; [congruence|done].
      * intros [= -> ->]. destruct Hn' as [[Hn' _]|Hn']; [congruence|done].
    + unfold rename_at. repeat case_match; done.
  - intros k n i Hin Hk. rewrite rename_keeps_entry; [done|..]; intros Heq.
    + apply HE, list_elem_of_fmap. by exists ((k, n), i).
    + apply HE', list_elem_of_fmap. by exists ((k, n), i).
  - intros i ob _. unfold rename_at. repeat case_match; done.
Qed.

(** ** Reading *)

Lemma runs_conj {A} I I' (m : P A) (Q Q' : result A → assertion) :
  spec I m Q → spec I' m Q' → spec (λ fs l, I fs l ∧ I' fs l) m (λ r fs l, Q r fs l ∧ Q' r fs l).
Proof. intros Hm Hm' w [Hi Hi']. specialize (Hm w Hi). specialize (Hm' w Hi'). by destruct (m w). Qed.

Lemma take_extend (n : nat) (data content : bytes) :
  data = take (length data) (drop n content) → n ≤ length content → take n content ++ data = take (n + length data) content.
Proof. intros Hd Hn. rewrite Hd at 1. by rewrite take_take_drop. Qed.

(** [acc] is what was read, after [k] rounds. *)
Definition reading (E : list ((N * string) * N)) (O : list (N * object)) (content : bytes) (limit k : N) (acc : bytes) :
    assertion := λ fs l,
  hold E O fs l ∧ acc = take (length acc) content ∧ (k ≤ N.of_nat (length acc) ≤ limit)%N.

Lemma runs_read E O src ob off len : (src, ob) ∈ O →
  spec (hold E O) (ReadAt sched src off len)
    (λ r fs l, hold E O fs l ∧ match r with Ok data => ∃ n, (0 < n) ∧ data = take (len `min` n) (drop off (o_content ob)) | Fail _ => True end).
Proof.
  intros Hin. apply (runs_call _ eq alone); [apply hold_stable|]. intros e fs l Hh. split; [done|].
  split; [done|]. destruct Hh as (_ & _ & HO). rewrite Forall_forall in HO. specialize (HO _ Hin). cbn in HO. rewrite HO.
  cbn. exists (S (ev_size e)). split; [lia|done].
Qed.

Lemma runs_copy_round E O src ob limit k acc : (src, ob) ∈ O →
  spec (reading E O (o_content ob) limit k acc) (copy_round sched src None limit acc) (λ r, match r with
    | Ok (inl acc') => reading E O (o_content ob) limit (k + 1) acc'
    | Ok (inr data) => λ fs l, hold E O fs l ∧ data = take (N.to_nat limit) (o_content ob)
    | Fail _ => hold E O end).
Proof.
  intros Hin. unfold copy_round. case_bool_decide as Hleft.
  { intros w (Hh & Hacc & Hlen). split; [done|]. rewrite Hacc. f_equal. lia. }
  eapply runs_pre; [intros fs l (Hh & Hp); exact (conj Hp Hh)|]. apply runs_pure. intros [Hacc Hlen].
  set (len := N.to_nat _). assert (0 < len ∧ (N.of_nat len ≤ limit - N.of_nat (length acc))%N) as [Hlen0 Hlen1].
  { subst len. split; [|lia]. assert (0 < N.of_nat chunk)%N by (by vm_compute). lia. }
  apply (runs_bind _ _ _ (λ data fs l, (∃ n, (0 < n) ∧ data = take (len `min` n) (drop (length acc) (o_content ob))) ∧ hold E O fs l)).
  { eapply runs_post; [|by apply runs_read]. intros [data|] fs l [Hh Hd]; [by split|done]. }
  intros data. apply runs_pure. intros (n & Hn & Hdata). case_bool_decide as Hempty.
  - intros w Hh. split; [done|]. rewrite Hempty in Hdata. symmetry in Hdata.
    assert (length (o_content ob) ≤ length acc).
    { apply (f_equal length) in Hdata. rewrite length_take, length_drop in Hdata. cbn in Hdata. lia. }
    rewrite Hacc, !take_ge; [done|lia..].
  - apply (runs_bind _ _ _ (λ _, hold E O)); [by intros w Hw|]. intros _ w Hh.
    assert (length data = len `min` n `min` (length (o_content ob) - length acc)) as Hl
      by (by rewrite Hdata, length_take, length_drop).
    assert (0 < length data) by (destruct data; [done|cbn; lia]).
    split; [done|]. rewrite length_app. split; [|lia]. rewrite Hacc at 1. apply take_extend; [|lia].
    rewrite Hdata at 1. rewrite Hl, <- (take_ge (drop _ _) (length (o_content ob) - length acc)) at 1 by (rewrite length_drop; lia).
    rewrite take_take. done.
Qed.

(** A copy within the limit reads the whole object, and its rounds are enough. *)
Lemma runs_copy E O src ob limit : (src, ob) ∈ O → (limit < 2 ^ N.of_nat copy_rounds)%N →
  spec (hold E O) (Copy sched src None limit)
    (λ r fs l, hold E O fs l ∧ match r with Ok data => data = take (N.to_nat limit) (o_content ob) | Fail _ => True end).
Proof.
  intros Hin Hlimit. unfold Copy.
  apply (runs_bind _ _ _ (λ x, match x with
    | inl acc => reading E O (o_content ob) limit (2 ^ N.of_nat copy_rounds) acc
    | inr data => λ fs l, hold E O fs l ∧ data = take (N.to_nat limit) (o_content ob) end)).
  - eapply runs_conseq; [| |apply (runs_rounds (reading E O (o_content ob) limit)
      (λ data fs l, hold E O fs l ∧ data = take (N.to_nat limit) (o_content ob)) (λ _, hold E O)) with (k := 0%N)].
    + intros fs l Hh. split; [done|]. cbn. split; [done|lia].
    + intros [[acc|data]|e] fs l; [by rewrite N.add_0_l|done|done].
    + intros k acc. by apply runs_copy_round.
  - intros [acc|data] w; [|done]. intros (_ & _ & Hlen). lia.
Qed.

(** ** Authentication *)

(** An object with the authenticated bytes and mode. *)
Definition authentic (digest : bytes) (mode : Z) (ob : object) : Prop :=
  o_kind ob = Regular ∧ sha256 (o_content ob) = digest ∧ (Z.of_nat (length (o_content ob)) ≤ maxBinary)%Z ∧
  perm (o_mode ob) = perm mode.

Lemma runs_copy_all E O src ob : (src, ob) ∈ O →
  spec (hold E O) (Copy sched src None copy_limit) (λ r fs l, hold E O fs l ∧ match r with
    | Ok data => (Z.of_nat (length data) ≤ maxBinary)%Z → data = o_content ob
    | Fail _ => True end).
Proof.
  intros Hin. eapply runs_post; [|apply runs_copy; [done|by vm_compute]].
  intros [data|] fs l [Hh Hdata]; [|by split]. split; [done|]. intros Hlen. rewrite Hdata. apply take_ge.
  apply (f_equal length) in Hdata. rewrite length_take in Hdata.
  assert (Z.of_nat (N.to_nat copy_limit) = maxBinary + 1)%Z as Hmax.
  { unfold copy_limit. rewrite N_nat_Z, Z2N.id; [done|by vm_compute]. }
  revert Hdata Hmax. generalize (N.to_nat copy_limit). lia.
Qed.

(** A step that keeps [hold E O], or stops where it holds. *)
Lemma hold_next {A B} E O (m : P A) (f : A → P B) (Q : result B → assertion) :
  (∀ e fs l, hold E O fs l → Q (Fail e) fs l) → keeps (hold E O) m → (∀ a, spec (hold E O) (f a) Q) →
  spec (hold E O) (m ≫= f) Q.
Proof.
  intros HQ Hm Hf. apply (runs_bind _ _ _ (λ _, hold E O)); [|done]. eapply runs_post; [|exact Hm].
  intros [] fs l Hh; [done|by apply HQ].
Qed.

Lemma hold_require E O (b : bool) e (Q : result () → assertion) :
  (∀ fs l, hold E O fs l → Q (Fail e) fs l) → (∀ fs l, b = true → hold E O fs l → Q (Ok ()) fs l) →
  spec (hold E O) (require b e) Q.
Proof. intros HF HO. apply runs_require. intros fs l Hh. destruct b; auto. Qed.

Lemma hold_check {B} E O (b : bool) e (f : () → P B) (Q : result B → assertion) :
  (∀ fs l, hold E O fs l → Q (Fail e) fs l) → (b = true → spec (hold E O) (f ()) Q) →
  spec (hold E O) (require b e ≫= f) Q.
Proof.
  intros HF Hf w Hw. destruct b; cbn; [by apply Hf|by apply HF].
Qed.

Lemma runs_authentic E O file ob digest mode links : (file, ob) ∈ O →
  spec (hold E O) (authenticateUnixReplacement sched file digest mode links)
    (λ r fs l, hold E O fs l ∧ match r with Ok _ => authentic digest mode ob | Fail _ => True end).
Proof.
  intros Hin. unfold authenticateUnixReplacement.
  apply hold_next; [by intros|apply survives_wrapping, hold_query|intros _].
  apply (runs_bind _ _ _ (λ data fs l, ((Z.of_nat (length data) ≤ maxBinary)%Z → data = o_content ob) ∧ hold E O fs l)).
  { apply runs_wrapping. eapply runs_post; [|by apply runs_copy_all]. by intros [] fs l [? ?]. }
  intros data. apply runs_pure. intros Hdata. apply hold_check; [by intros|]. intros Hlen. bool_to_prop.
  specialize (Hdata Hlen) as ->.
  apply hold_check; [by intros|]. intros Hdigest. bool_to_prop.
  apply (runs_bind _ _ _ (λ info fs l, (st_kind info = o_kind ob ∧ st_perm info = o_mode ob) ∧ hold E O fs l)).
  { apply runs_wrapping, (runs_query _ eq alone); [apply hold_stable|]. intros fs l Hh. split; [done|].
    destruct (stat_object fs file) as [info|] eqn:Hs; [|done]. split; [|done].
    apply stat_object_Ok in Hs as (_ & ob' & Hob' & Hk & Hm). destruct Hh as (_ & _ & HO).
    rewrite Forall_forall in HO. specialize (HO _ Hin). cbn in HO. split; congruence. }
  intros info. apply runs_pure. intros [Hk Hm].
  apply hold_check; [by intros|]. intros Hreg. apply hold_check; [by intros|]. intros Hperm.
  apply hold_require; [by intros|]. intros fs l _ Hh. split; [done|]. unfold is_regular in Hreg. bool_to_prop.
  split_and!; congruence.
Qed.

(** The target is the authenticated object. *)
Definition sealed (E : list ((N * string) * N)) (digest : bytes) (mode : Z) (src : N) : assertion := λ fs l,
  ∃ ob, authentic digest mode ob ∧ hold (((p, t), src) :: E) [(src, ob)] fs l.

Lemma runs_canonical_hold E src ob digest mode :
  spec (hold E [(src, ob)]) (authenticateCanonicalUnixReplacement sched src p t digest mode)
    (λ r fs l, hold E [(src, ob)] fs l ∧ match r with Ok _ => sealed E digest mode src fs l | Fail _ => True end).
Proof.
  unfold authenticateCanonicalUnixReplacement.
  apply (runs_bind _ _ _ (λ _ fs l, authentic digest mode ob ∧ hold E [(src, ob)] fs l)).
  { eapply runs_post; [|apply runs_authentic; by left]. by intros [] fs l [? ?]. }
  intros _. apply runs_pure. intros Hob.
  apply (runs_bind _ _ _ (λ canonical fs l, hold E [(src, ob)] fs l ∧ hold (((p, t), st_ino canonical) :: E) [(src, ob)] fs l)).
  { apply runs_wrapping, (runs_query _ eq alone); [apply hold_stable|]. intros fs l Hh. split; [done|].
    destruct (stat_at fs p t) as [canonical|] eqn:Hs; [|done]. apply stat_at_Ok in Hs as [Hs _]. split; [done|].
    destruct Hh as (? & ? & ?). split_and!; [done|by apply Forall_cons|done]. }
  intros canonical. eapply runs_pre; [intros fs l [_ Hh]; exact Hh|].
  assert (∀ fs l, hold (((p, t), st_ino canonical) :: E) [(src, ob)] fs l → hold E [(src, ob)] fs l) as Hsub.
  { intros fs l. apply hold_sub; set_solver. }
  apply (runs_bind _ _ _ (λ s fs l, st_ino s = src ∧ hold (((p, t), st_ino canonical) :: E) [(src, ob)] fs l)).
  { apply runs_wrapping, (runs_query _ eq alone); [apply hold_stable|]. intros fs l Hh. split; [by intros e; split; [eapply Hsub|]|].
    destruct (stat_object fs src) as [s|] eqn:Hs; [|by split; [eapply Hsub|]]. by apply stat_object_Ok in Hs as [? _]. }
  intros s. apply runs_pure. intros Hs. apply hold_require; [by split; [eapply Hsub|]|].
  intros fs l Hsame Hh. split; [by eapply Hsub|]. apply andb_true_iff in Hsame as [_ Hsame%bool_decide_eq_true_1].
  exists ob. split; [done|]. by rewrite <- Hs at 1; rewrite Hsame.
Qed.

(** ** The commit *)

(** A directory that was not there. *)
Definition own_dir (d : N) : Prop := ∀ name, entry fs0 d name = None.
Lemma own_dir_name d name : own_dir d → own_name d name.
Proof. intros Hd. split; [done|]. intros [= -> ->]. specialize (Hd t). congruence. Qed.

Definition kept : assertion := hold [((p, t), o)] [].
Definition moved (cd : N) : assertion := hold [((cd, unixRollbackEntry), o)] [].
Definition safe : assertion := λ fs l, kept fs l ∨ ∃ cd, own_dir cd ∧ moved cd fs l.
Definition final (digest : bytes) (mode : Z) (r : result ()) : assertion := λ fs l,
  match r with
  | Ok _ => ∃ src ob, own_object src ∧ authentic digest mode ob ∧ hold [((p, t), src)] [(src, ob)] fs l
  | Fail _ => safe fs l
  end.

(** Calls that leave the target and rollback entries alone. *)
Lemma survives_final {A} digest mode r (f : Event → FS → result A * FS) :
  (∀ E O e fs, Forall (λ x, x.1 = (p, t) ∨ own_dir x.1.1 ∧ x.1.2 = unixRollbackEntry) E → frame fs →
    respects E O fs (f e fs).2) →
  keeps (final digest mode r) (call sched f).
Proof.
  intros Hf. assert (∀ E O, Forall (λ x, x.1 = (p, t) ∨ own_dir x.1.1 ∧ x.1.2 = unixRollbackEntry) E → keeps (hold E O) (call sched f)) as Hk.
  { intros E O HE. apply survives_hold_framed. intros e fs. by apply Hf. }
  destruct r; cbn [final].
  - apply runs_exists; intros src. apply runs_exists; intros ob. apply runs_pure; intros Hsrc. apply runs_pure; intros Hob.
    eapply runs_post; [|apply Hk; apply Forall_singleton; by left]. intros r' fs l Hh. by exists src, ob.
  - intros w [Hw|(cd & Hcd & Hw)].
    + pose proof (Hk [((p, t), o)] [] ltac:(apply Forall_singleton; by left) w Hw) as Hs. destruct (call sched f w). by left.
    + pose proof (Hk [((cd, unixRollbackEntry), o)] [] ltac:(apply Forall_singleton; by right) w Hw) as Hs.
      destruct (call sched f w). right. by exists cd.
Qed.

Lemma final_query {A} digest mode r (f : FS → result A) : keeps (final digest mode r) (query sched f).
Proof. apply survives_final. intros. apply respects_refl. Qed.

Lemma final_unlink_respects E O fs d name removedir : own_name d name → name ≠ unixRollbackEntry →
  Forall (λ x, x.1 = (p, t) ∨ own_dir x.1.1 ∧ x.1.2 = unixRollbackEntry) E →
  respects E O fs (unlink_at fs d name removedir).2.
Proof.
  intros Hown Hn HE. apply unlink_respects; [done|].
  intros ([k i] & Hk & Hin)%list_elem_of_fmap. rewrite Forall_forall in HE. specialize (HE _ Hin). cbn in *. subst k.
  destruct Hown as [_ Hne]. destruct HE as [HE|[_ HE]]; [done|by cbn in HE].
Qed.

Lemma final_unlink digest mode r d name removedir : own_name d name → name ≠ unixRollbackEntry →
  keeps (final digest mode r) (Unlinkat sched d name removedir).
Proof. intros Hown Hn. apply survives_final. intros E O _ fs HE _. by apply final_unlink_respects. Qed.

Lemma final_remove digest mode r name : own_name p name → name ≠ unixRollbackEntry →
  keeps (final digest mode r) (Remove sched name).
Proof.
  intros Hown Hn. unfold Remove. apply survives_bind.
  - apply survives_attempt, survives_final. intros E O _ fs HE [-> _]. by apply final_unlink_respects.
  - intros [|]; [apply survives_ret|]. apply survives_final. intros E O _ fs HE [-> _]. by apply final_unlink_respects.
Qed.

Lemma hold_unlink E O d name removedir : own_name d name → (d, name) ∉ E.*1 →
  keeps (hold E O) (Unlinkat sched d name removedir).
Proof. intros Hown HE. apply survives_hold. intros. by apply unlink_respects. Qed.

Lemma hold_remove_entry E O d name : own_name d name → (d, name) ∉ E.*1 →
  keeps (hold E O) (removeUnixCommitEntry sched d name).
Proof.
  intros Hown HE. unfold removeUnixCommitEntry. apply survives_bind; [apply survives_attempt, hold_query|].
  intros [s|e]; [by apply hold_unlink|]. case_match; [apply survives_ret|apply survives_fail].
Qed.

Section Commit.
Context (cd : N) (Hcd : own_dir cd) (src : N) (ob : object).

Lemma rollback_key name : name ≠ unixRollbackEntry → (cd, name) ∉ [((cd, unixRollbackEntry), o)].*1.
Proof. intros Hn [= Heq]%list_elem_of_singleton. done. Qed.
Lemma target_key : (p, t) ∉ [((cd, unixRollbackEntry), o)].*1.
Proof. intros [= _ Heq]%list_elem_of_singleton. by apply rollback_is_other. Qed.

Lemma moved_safe fs l O : hold [((cd, unixRollbackEntry), o)] O fs l → safe fs l.
Proof. intros Hh. right. exists cd. split; [done|]. eapply hold_sub, Hh; set_solver. Qed.
Lemma kept_safe fs l O : hold [((p, t), o)] O fs l → safe fs l.
Proof. intros Hh. left. eapply hold_sub, Hh; set_solver. Qed.

Lemma restore_hold O :
  spec (hold [((cd, unixRollbackEntry), o)] O) (restoreOriginalUnixTarget sched cd p t) (λ _, safe).
Proof.
  unfold restoreOriginalUnixTarget. apply hold_next; [intros e fs l Hh; by eapply moved_safe| |intros displaced].
  { apply survives_attempt, survives_hold. intros _ fs. apply rename_respects; [by right|left; by apply own_dir_name|apply target_key|by apply rollback_key]. }
  cbv zeta. apply hold_next; [intros e fs l Hh; by eapply moved_safe| |intros cleaned].
  { destruct displaced; [|apply survives_ret]. apply survives_attempt, hold_remove_entry; [by apply own_dir_name|by apply rollback_key]. }
  apply (runs_bind _ _ _ (λ _, safe)); [|intros restored; case_match; apply survives_ret].
  apply runs_attempt, (runs_call _ eq alone); [apply hold_stable|]. intros _ fs l Hh.
  split; [intros e; by eapply moved_safe|].
  destruct (rename_at fs cd unixRollbackEntry p t).1 as [[]|e] eqn:Hren; [|rewrite (rename_fail _ _ _ _ _ _ Hren); by eapply moved_safe].
  left. pose proof (hold_entry _ _ _ _ _ _ _ Hh ltac:(by left)) as He.
  assert (hold [] [] (rename_at fs cd unixRollbackEntry p t).2 l) as (Hf & _ & _).
  { eapply respects_hold; [|by eapply hold_sub, Hh; set_solver]. apply rename_respects; [left; by apply own_dir_name|by right|set_solver..]. }
  split; [done|]. split; [|by apply Forall_nil]. apply Forall_singleton. cbn [fst snd]. apply rename_ok; [done|done|].
  intros [= _ Heq]. by apply rollback_is_other.
Qed.

Lemma rename_retained_hold O original : st_ino original = o →
  spec (hold [((p, t), o)] O) (rename_retained sched cd p t original)
    (λ r, match r with Ok _ => hold [((cd, unixRollbackEntry), o)] O | Fail _ => hold [((p, t), o)] O end).
Proof.
  intros Ho. unfold rename_retained.
  apply (runs_bind _ _ _ (λ s fs l, hold [((p, t), o)] O fs l ∧ hold [((cd, unixRollbackEntry), st_ino s)] O fs l)).
  { apply runs_wrapping, (runs_query _ eq alone); [apply hold_stable|]. intros fs l Hh. split; [done|].
    destruct (stat_at fs cd unixRollbackEntry) as [s|] eqn:Hs; [|done]. apply stat_at_Ok in Hs as [Hs _].
    split; [done|]. destruct Hh as (? & _ & ?). split_and!; [done|by apply Forall_singleton|done]. }
  intros s. apply (runs_bind _ _ _ (λ _ fs l, hold [((p, t), o)] O fs l ∧ hold [((cd, unixRollbackEntry), o)] O fs l)).
  { apply runs_require. intros fs l [Hh Hr]. destruct (_ && _) eqn:Hsame; [|done].
    apply andb_true_iff in Hsame as [Hsame%bool_decide_eq_true_1 _]. split; [done|]. by rewrite <- Ho, Hsame. }
  intros _. apply runs_wrapping, (runs_call _ eq alone).
  { intros fs fs' l [? ?] <-. done. }
  intros _ fs l [Hh Hr]. split; [done|]. destruct (rename_at _ _ _ _ _).1 as [[]|e] eqn:Hren.
  - eapply respects_hold, Hr. apply rename_respects; [left; by apply own_dir_name|by right|by apply rollback_key|apply target_key].
  - by rewrite (rename_fail _ _ _ _ _ _ Hren).
Qed.

Lemma commit_retained_hold original digest mode : st_ino original = o →
  spec (hold [((p, t), o)] [(src, ob)]) (commit_retained sched src cd p t original digest mode)
    (λ r fs l, match r with
       | Ok (true, Ok _) => sealed [((cd, unixRollbackEntry), o)] digest mode src fs l
       | Ok (true, Fail _) => hold [((p, t), o)] [(src, ob)] fs l
       | Ok (false, Ok _) => False
       | _ => safe fs l end).
Proof.
  intros Ho. unfold commit_retained. set (O := [(src, ob)]). set (M := hold [((cd, unixRollbackEntry), o)] O).
  apply (runs_bind _ _ _ (λ r, match r with Ok _ => M | Fail _ => hold [((p, t), o)] O end)).
  { apply runs_attempt. eapply runs_post; [|by apply rename_retained_hold]. by intros []. }
  intros [[]|e]; [|by intros w Hw]. cbv zeta.
  apply (runs_bind _ _ _ (λ r fs l, M fs l ∧ match r with Ok _ => sealed [((cd, unixRollbackEntry), o)] digest mode src fs l | Fail _ => True end)).
  { apply runs_attempt. apply (runs_bind _ _ _ (λ _, M)).
    - eapply runs_post; [|apply runs_canonical_hold]. by intros [] fs l [? ?].
    - intros _. apply runs_canonical_hold. }
  intros [[]|e].
  - by intros w [_ Hw].
  - apply (runs_pre _ M); [by intros fs l [? _]|]. apply (runs_bind _ _ _ (λ _, safe)).
    + eapply runs_post; [|apply restore_hold]. by intros [].
    + intros [[] rollbackErr]; by intros w Hw.
Qed.

Lemma commit_verified_hold digest mode : own_object src →
  spec (hold [((p, t), o)] [(src, ob)]) (commitVerifiedUnixEntry sched src cd p t digest mode) (final digest mode).
Proof.
  intros Hsrc. unfold commitVerifiedUnixEntry. apply (runs_finally _ _ _ (final digest mode)).
  2: { intros r. unfold removeUnixCommitEntry. apply survives_bind; [apply survives_attempt, final_query|].
       intros [s|e]; [apply final_unlink; [by apply own_dir_name|done]|]. case_match; [apply survives_ret|apply survives_fail]. }
  apply (runs_bind _ _ _ (λ original fs l, st_ino original = o ∧ hold [((p, t), o)] [(src, ob)] fs l)).
  { apply runs_wrapping, (runs_query _ eq alone); [apply hold_stable|]. intros fs l Hh. split; [intros e; by eapply kept_safe|].
    destruct (stat_at fs p t) as [s|] eqn:Hs; [|by eapply kept_safe]. apply stat_at_Ok in Hs as [Hs _]. split; [|done].
    pose proof (hold_entry _ _ _ _ _ _ _ Hh ltac:(by left)). congruence. }
  intros original. apply runs_pure. intros Ho.
  apply hold_check; [intros fs l Hh; by eapply kept_safe|intros _].
  apply hold_next; [intros e fs l Hh; by eapply kept_safe| |intros _].
  { apply survives_wrapping, survives_hold. intros _ fs. apply adds_respects, link_adds. }
  eapply (runs_bind _ _ _); [eapply runs_post; [|by apply commit_retained_hold]|].
  { intros [x|e] fs l Hx; [exact Hx|done]. }
  intros [[] [[]|e]]; cbn.
  - unfold sealed. apply runs_exists. intros ob'. apply runs_pure. intros Hob.
    apply (runs_bind _ _ _ (λ _, hold [((p, t), src)] [(src, ob')])).
    + apply runs_attempt, (runs_pre _ (hold [((p, t), src)] [(src, ob')])); [intros fs l Hh; eapply hold_sub, Hh; set_solver|].
      apply hold_unlink; [by apply own_dir_name|]. intros [= _ Heq]%list_elem_of_singleton. by apply rollback_is_other.
    + intros _ w Hw. by exists src, ob'.
  - apply (runs_bind _ _ _ (λ _, hold [((p, t), o)] [(src, ob)])).
    + apply runs_attempt, hold_unlink; [by apply own_dir_name|].
      intros [= _ Heq]%list_elem_of_singleton. by apply rollback_is_other.
    + intros _ w Hw. by eapply kept_safe.
  - by intros w Hw.
  - by intros w Hw.
Qed.
End Commit.

(** ** Before the commit *)

(** What [os.CreateTemp] and [os.MkdirTemp] return. *)
Definition mine (ob : object) (i : N) (name : string) : assertion := λ fs l,
  (own_object i ∧ own_dir i ∧ own_name p name) ∧ hold [((p, t), o); ((p, name), i)] [(i, ob)] fs l.

Lemma create_mine fs l name ob i :
  hold [((p, t), o)] [] fs l → name ≠ t → (create_at fs p name ob).1 = Ok i →
  mine ob i name (create_at fs p name ob).2 ((fs, (create_at fs p name ob).2) :: l).
Proof.
  intros Hh Hname. pose proof (create_adds fs p name ob) as Hadds. revert Hadds. unfold create_at.
  destruct (entry fs p name) eqn:Hn; [done|]. intros Hadds [= <-]. cbn [snd] in *.
  pose proof (fresh_object_spec fs) as (Hobj & Hdir & _). pose proof (hold_entry _ _ _ _ _ _ _ Hh ltac:(by left)) as Ht0.
  assert (own_dir (fresh_object fs)) as Hown.
  { intros n. destruct (entry fs0 (fresh_object fs) n) as [j|] eqn:Hj; [|done].
    destruct (decide ((fresh_object fs, n) = (p, t))) as [[= Hp ->]|Hne].
    - rewrite <- Hp, Hdir in Ht0. done.
    - destruct Hh as ((_ & He & _) & _). pose proof (He _ _ _ Hj Hne) as Hx. by rewrite Hdir in Hx. }
  split; [split_and!|].
  - destruct (fs_objects fs0 !! fresh_object fs) eqn:Ho; [|done]. destruct Hh as ((_ & _ & Hob) & _). apply Hob in Ho. congruence.
  - done.
  - split; [|congruence]. destruct (entry fs0 p name) as [j|] eqn:Hj; [|done].
    destruct Hh as ((_ & He & _) & _). rewrite (He _ _ _ Hj) in Hn; [done|congruence].
  - destruct (respects_hold _ _ _ _ l l (adds_respects _ _ _ _ Hadds) Hh) as (Hf & He & _).
    split; [done|]. split.
    + apply Forall_cons. split; [by apply (proj1 (Forall_singleton _ _)) in He|]. apply Forall_singleton. cbn.
      unfold entry. cbn. by rewrite lookup_insert_eq.
    + apply Forall_singleton. cbn. by rewrite lookup_insert_eq.
Qed.

Lemma runs_temp_mine tries ob prefix suffix : (∀ rnd, prefix +:+ rnd +:+ suffix ≠ t) →
  spec kept (temp_loop sched tries ob prefix suffix)
    (λ r fs l, kept fs l ∧ match r with Ok (i, name) => mine ob i name fs l | Fail _ => True end).
Proof.
  intros Hname. induction tries as [|n IH]; cbn [temp_loop]; [by intros w Hw|].
  apply (runs_bind _ _ _ (λ r fs l, kept fs l ∧ match r with Ok (i, name) => mine ob i name fs l | Fail _ => True end)).
  - apply runs_attempt, (runs_call _ eq alone); [apply hold_stable|]. intros e fs l Hh. split; [done|].
    assert (fs_parent fs = p) as -> by apply Hh.
    pose proof (λ i, create_mine fs l (prefix +:+ ev_name e +:+ suffix) ob i Hh (Hname _)) as Hm.
    assert (kept (create_at fs p (prefix +:+ ev_name e +:+ suffix) ob).2 l) as Hk.
    { exact (respects_hold _ _ _ _ l l (adds_respects _ _ _ _ (create_adds _ _ _ _)) Hh). }
    destruct (create_at _ _ _ _) as [[i|err] fs']; cbn in *; [|done]. split; [done|]. by apply Hm.
  - intros [[i name]|e].
    + intros w Hw. exact Hw.
    + case_match; [|by intros w [? _]]. eapply runs_pre; [|exact IH]. by intros fs l [? _].
Qed.

Definition regular_at (i : N) : assertion := λ fs _, regular i fs.
Lemma regular_here names i : Robust eq names (regular_at i).
Proof. apply regular_robust. intros fs fs' <-. apply civil_refl. Qed.

(** The target is untouched and [i] is a regular file. *)
Definition ready (i : N) : assertion := λ fs l, kept fs l ∧ regular_at i fs l.

Lemma ready_step {A B} i (m : P A) (f : A → P B) (Q : result B → assertion) :
  (∀ e fs l, kept fs l → Q (Fail e) fs l) → keeps kept m → keeps (regular_at i) m → (∀ a, spec (ready i) (f a) Q) →
  spec (ready i) (m ≫= f) Q.
Proof.
  intros HQ Hm Hm' Hf. apply (runs_bind _ _ _ (λ _, ready i)); [|done].
  eapply runs_post; [|exact (runs_conj _ _ _ _ _ Hm Hm')]. intros [] fs l [? ?]; [by split|by apply HQ].
Qed.

Lemma ready_call {A B} i (f : FS → result A) (g : A → P B) (Q : result B → assertion) msg :
  (∀ e fs l, kept fs l → Q (Fail e) fs l) → (∀ a, spec (ready i) (g a) Q) →
  spec (ready i) (wrapping msg (query sched f) ≫= g) Q.
Proof.
  intros HQ Hg. apply ready_step; [done|apply survives_wrapping, hold_query| |done].
  apply survives_wrapping, (survives_query _ _ alone []), regular_here.
Qed.

Lemma ready_check {B} i (b : bool) e (f : () → P B) (Q : result B → assertion) :
  (∀ e fs l, kept fs l → Q (Fail e) fs l) → (b = true → spec (ready i) (f ()) Q) →
  spec (ready i) (require b e ≫= f) Q.
Proof. intros HF Hf w Hw. destruct b; cbn; [by apply Hf|apply HF, Hw]. Qed.

Lemma kept_copy src dst limit : (∀ d, dst = Some d → own_object d) → keeps kept (Copy sched src dst limit).
Proof.
  intros Hd. unfold Copy. apply survives_bind; [|intros []; apply survives_ret]. apply survives_rounds. intros acc.
  unfold copy_round. case_bool_decide; [apply survives_ret|]. apply survives_bind; [apply survives_hold; intros; apply respects_refl|].
  intros data. case_bool_decide; [apply survives_ret|]. apply survives_bind; [|intros; apply survives_ret].
  destruct dst as [d|]; [|apply survives_ret]. apply survives_hold. intros _ fs. apply update_respects; [by apply Hd|set_solver].
Qed.

Lemma ready_copy {B} i src dst limit msg (g : bytes → P B) (Q : result B → assertion) :
  (∀ d, dst = Some d → own_object d ∧ d = i) →
  (∀ e fs l, kept fs l → Q (Fail e) fs l) → (∀ a, spec (ready i) (g a) Q) →
  spec (ready i) (wrapping msg (Copy sched src dst limit) ≫= g) Q.
Proof.
  intros Hd HQ Hg. apply ready_step; [done|apply survives_wrapping, kept_copy; naive_solver| |done].
  apply survives_wrapping, (survives_copy _ _ alone []); [apply regular_here|]. intros d fs l ? Hr. by destruct (Hd d) as [_ ->].
Qed.

Lemma ready_authenticate {B} i file digest mode links msg (g : () → P B) (Q : result B → assertion) :
  (∀ e fs l, kept fs l → Q (Fail e) fs l) → (∀ a, spec (ready i) (g a) Q) →
  spec (ready i) (wrapping msg (authenticateUnixReplacement sched file digest mode links) ≫= g) Q.
Proof.
  intros HQ Hg. apply ready_step; [done| | |done]; apply survives_wrapping.
  - unfold authenticateUnixReplacement. repeat first [apply survives_bind; [|intros ?]].
    all: try apply survives_wrapping; try apply survives_require; try apply hold_query. by apply kept_copy.
  - apply (survives_authenticate _ _ alone []), regular_here.
Qed.

Lemma ready_chmod {B} i mode msg (g : () → P B) (Q : result B → assertion) : own_object i →
  (∀ e fs l, kept fs l → Q (Fail e) fs l) → (∀ a, spec (ready i) (g a) Q) →
  spec (ready i) (wrapping msg (Chmod sched i mode) ≫= g) Q.
Proof.
  intros Hi HQ Hg. apply ready_step; [done| | |done]; apply survives_wrapping.
  - apply survives_hold. intros _ fs. apply update_respects; [done|set_solver].
  - apply (survives_update _ _ alone []); [apply regular_here|done..].
Qed.

Lemma ready_unlink {B} i d name removedir msg (g : () → P B) (Q : result B → assertion) : own_name d name →
  (∀ e fs l, kept fs l → Q (Fail e) fs l) → (∀ a, spec (ready i) (g a) Q) →
  spec (ready i) (wrapping msg (Unlinkat sched d name removedir) ≫= g) Q.
Proof.
  intros Hn HQ Hg. apply ready_step; [done| | |done]; apply survives_wrapping.
  - apply hold_unlink; [done|]. intros [= -> ->]%list_elem_of_singleton. by destruct Hn.
  - apply (survives_unlink _ _ alone []); [apply regular_here|set_solver].
Qed.

(** ** The replacement *)

Lemma kept_final digest mode e fs l : kept fs l → final digest mode (Fail e) fs l.
Proof. intros Hk. by left. Qed.

Ltac next :=
  lazymatch goal with
  | |- spec _ (require _ _ ≫= _) _ => apply ready_check; [intros; first [assumption|by apply kept_final]|intros _]
  | |- spec _ (wrapping _ (authenticateUnixReplacement _ _ _ _ _) ≫= _) _ =>
      apply ready_authenticate; [intros; first [assumption|by apply kept_final]|intros _]
  | |- spec _ (wrapping _ (Copy _ _ _ _) ≫= _) _ => apply ready_copy; [naive_solver|intros; first [assumption|by apply kept_final]|intros ?]
  | |- spec _ (wrapping _ (Chmod _ _ _) ≫= _) _ => apply ready_chmod; [done|intros; first [assumption|by apply kept_final]|intros _]
  | |- spec _ (wrapping _ (Unlinkat _ _ _ _) ≫= _) _ => apply ready_unlink; [done|intros; first [assumption|by apply kept_final]|intros _]
  | |- spec _ (wrapping _ _ ≫= _) _ => apply ready_call; [intros; first [assumption|by apply kept_final]|intros ?]
  end.

Section Bodies.
Context (digest : bytes) (mode : Z).
Abbreviation final := (final digest mode).

Lemma ready_commit i cd msg : own_object i → own_dir cd →
  spec (ready i) (wrapping msg (commitVerifiedUnixEntry sched i cd p t digest mode)) final.
Proof.
  intros Hi Hcd. apply (runs_pre _ (λ fs l, ∃ ob, hold [((p, t), o)] [(i, ob)] fs l)).
  { intros fs l [(Hf & He & _) (ob & Hob & _)]. exists ob. split_and!; [done..|by apply Forall_singleton]. }
  apply runs_exists. intros ob. apply runs_wrapping. eapply runs_post; [|by apply commit_verified_hold].
  by intros [[]|e] fs l Hfin.
Qed.

Lemma final_on_fail cd r : own_dir cd → keeps (final r) (on_fail (Unlinkat sched cd unixCommitEntry false) r).
Proof. intros Hcd. apply survives_on_fail, final_unlink; [by apply own_dir_name|done]. Qed.

Lemma ready_in_commit_directory i (body : N → P ()) :
  (∀ cd, own_dir cd → spec (ready i) (body cd) final) →
  spec (ready i) (in_commit_directory sched p t body) final.
Proof.
  intros Hbody. unfold in_commit_directory.
  assert (∀ rnd, ("." +:+ t +:+ ".") +:+ rnd +:+ ".commit" ≠ t) as Hname.
  { intros rnd Heq. apply (f_equal String.length) in Heq. rewrite !length_str_app in Heq. cbn in Heq. lia. }
  set (made := mkObject Directory [] 448).
  apply (runs_bind _ _ _ (λ '(d, name) fs l, mine made d name fs l ∧ regular_at i fs l ∧ name ≠ unixRollbackEntry)).
  { apply runs_wrapping. eapply runs_post; [|apply (runs_conj _ _ _ _ (λ r fs l, regular_at i fs l ∧ match r with
      Ok (_, name) => name ≠ unixRollbackEntry | Fail _ => True end) (runs_temp_mine tries made _ _ Hname))].
    - intros [[d name]|e] fs l [[Hk Hm] [Hr Hn]]; [by split_and!|by left].
    - eapply runs_post; [|apply (runs_temp sched eq alone [unixRollbackEntry]); [apply regular_here|]].
      + intros [[d name]|e] fs l [Hr Hn]; [|done]. split; [done|]. destruct Hn as [_ Hn]. by intros ->; apply Hn; left.
      + intros rnd Heq%list_elem_of_singleton. by apply (f_equal (String.get 0)) in Heq. }
  intros [d name].
  eapply runs_pre; [intros fs l ([Hown Hh] & Hr & Hn); exact (conj (conj Hown Hn) (conj Hh Hr))|].
  apply runs_pure. intros [(Hd & Hdir & Hn) Hrollback].
  set (M := hold [((p, t), o); ((p, name), d)] [(d, made)]).
  assert (∀ fs l, M fs l → kept fs l) as HM by (intros fs l; apply hold_sub; set_solver).
  apply (runs_bind _ _ _ (λ r fs l, match r with Ok cd => own_dir cd | Fail _ => True end ∧ ready i fs l)).
  { apply runs_attempt, (runs_query _ eq alone); [by intros fs fs' l ? <-|]. intros fs l [Hh Hr]. split.
    { intros err. split; [done|]. split; [by eapply HM|done]. }
    assert (open_dir_at fs p name = Ok d) as ->.
    { unfold open_dir_at, stat_at, stat_object.
      rewrite (hold_entry _ _ _ l _ _ _ Hh ltac:(right; by left)). cbn.
      rewrite (hold_object _ _ _ l _ _ Hh ltac:(by left)). done. }
    split; [done|]. split; [by eapply HM|done]. }
  intros [cd|e]; apply runs_pure; intros Hcd.
  - apply (runs_finally _ _ _ final).
    + apply ready_call; [intros; by apply kept_final|intros info]. apply ready_call; [intros; by apply kept_final|intros info'].
      apply ready_check; [intros; by apply kept_final|intros _]. by apply Hbody.
    + intros r. by apply final_unlink.
  - apply (runs_bind _ _ _ (λ _, kept)).
    + apply runs_attempt. eapply runs_pre; [intros fs l [Hk _]; exact Hk|]. apply hold_unlink; [done|].
      intros [= ->]%list_elem_of_singleton. by destruct Hn.
    + intros _ w Hw. by left.
Qed.

Lemma ready_linux install name cd : own_object install → own_name p name → own_dir cd →
  spec (ready install) (bind_and_commit sched install name p t digest mode cd) final.
Proof.
  intros Hi Hn Hcd. unfold bind_and_commit. apply ready_step; [intros; by apply kept_final| | |intros _].
  - apply survives_wrapping, survives_hold. intros _ fs. apply adds_respects, link_object_adds.
  - apply survives_wrapping, (survives_link_descriptor _ _ alone []); [apply regular_here|set_solver].
  - apply (runs_finally _ _ _ final); [|intros r; by apply final_on_fail]. do 10 next. by apply ready_commit.
Qed.

Lemma ready_bsd install name cd : own_object install → own_name p name → own_dir cd →
  spec (ready install) (copy_and_commit sched install name p t digest mode cd) final.
Proof.
  intros Hi Hn Hcd. unfold copy_and_commit.
  apply (runs_bind _ _ _ (λ commitFile fs l, own_object commitFile ∧ ready commitFile fs l)).
  { apply runs_wrapping, (runs_call _ eq alone); [by intros fs fs' l ? <-|]. intros _ fs l [Hk Hr].
    split; [intros e; by apply kept_final|].
    pose proof (respects_hold _ _ _ _ l l (adds_respects _ _ _ _ (create_adds fs cd unixCommitEntry (mkObject Regular [] 384))) Hk) as Hk'.
    revert Hk'. unfold create_at. destruct (entry fs cd unixCommitEntry); cbn [fst snd]; [by intros; apply kept_final|].
    intros Hk'. pose proof (fresh_object_spec fs) as (Hobj & _). split.
    - destruct (fs_objects fs0 !! fresh_object fs) eqn:Ho; [|done]. destruct Hk as ((_ & _ & Hob) & _). apply Hob in Ho. congruence.
    - split; [done|]. eexists. split; [apply lookup_insert_eq|done]. }
  intros commitFile. apply runs_pure. intros Hc.
  apply (runs_finally _ _ _ final); [|intros r; by apply final_on_fail]. do 16 next. by apply ready_commit.
Qed.

Lemma ready_platform platform install name : own_object install → own_name p name →
  spec (ready install) (commit_on sched platform install name t digest mode) final.
Proof.
  intros Hi Hn. assert (∀ (f : N → P ()), spec (ready install) (f p) final →
    spec (ready install) (parent ← wrapping "open replacement directory" (OpenParent sched); f parent) final) as Hopen.
  { intros f Hf. apply (runs_bind _ _ _ (λ parent fs l, parent = p ∧ ready install fs l)); [|by intros parent; apply runs_pure; intros ->].
    apply runs_wrapping, (runs_query _ eq alone); [by intros fs fs' l ? <-|]. intros fs l Hr.
    split; [intros e; by apply kept_final, Hr|]. destruct (fs_parent_symlink fs); [by apply kept_final, Hr|].
    split; [|done]. apply Hr. }
  destruct platform; cbn [commit_on].
  - unfold commitAuthenticatedUnixReplacement. apply Hopen. do 3 next.
    apply ready_in_commit_directory. intros cd Hcd. by apply ready_linux.
  - unfold commitAuthenticatedUnixReplacementByCopy. next. apply Hopen.
    apply ready_in_commit_directory. intros cd Hcd. by apply ready_bsd.
Qed.
End Bodies.

Lemma final_perm digest mode r fs l : final digest (perm mode) r fs l → final digest mode r fs l.
Proof.
  destruct r; [|done]. intros (src & ob & Hsrc & (? & ? & ? & Hm) & Hh). exists src, ob. split; [done|]. split; [|done].
  split_and!; [done..|]. rewrite Hm. unfold perm. by rewrite <- Z.land_assoc.
Qed.

Lemma ready_fill source install name digest mode : own_object install →
  spec (ready install) (fill_and_authenticate sched source install name digest mode)
    (λ r, match r with Ok _ => ready install | Fail _ => kept end).
Proof.
  intros Hi. unfold fill_and_authenticate. do 16 next.
  intros w Hw. unfold require, lift, check. destruct (_ && _); [done|apply Hw].
Qed.

Lemma runs_install_temp :
  spec kept (wrapping "create authenticated replacement copy" (CreateTemp sched ("." +:+ t +:+ ".") ".install"))
    (λ r, match r with
      | Ok (i, name) => λ fs l, (own_object i ∧ own_name p name ∧ name ≠ unixRollbackEntry) ∧ ready i fs l
      | Fail _ => kept end).
Proof.
  assert (∀ rnd, ("." +:+ t +:+ ".") +:+ rnd +:+ ".install" ≠ t) as Hname.
  { intros rnd Heq. apply (f_equal String.length) in Heq. rewrite !length_str_app in Heq. cbn in Heq. lia. }
  apply runs_wrapping. unfold CreateTemp. generalize tries. intros attempts.
  apply (runs_pre _ (λ fs l, kept fs l ∧ True)); [done|].
  eapply runs_post; [|apply (runs_conj _ _ _ _ (λ r _ _, match r with
      Ok (_, name) => name ≠ unixRollbackEntry | Fail _ => True end) (runs_temp_mine attempts (mkObject Regular [] 384) _ _ Hname))].
  - intros [[i name]|e] fs l [[Hk Hm] Hn]; [|done]. destruct Hm as [(Hi & _ & Hown) Hh]. split; [done|]. split; [done|].
    eexists. split; [by eapply hold_object; [exact Hh|left]|done].
  - eapply runs_post; [|apply (runs_temp sched eq alone [unixRollbackEntry] (λ _ _, True)); [by split|]].
    + intros [[i name]|e] fs l [_ Hn]; [|done]. destruct Hn as [_ Hn]. by intros ->; apply Hn; left.
    + intros rnd Heq%list_elem_of_singleton. by apply (f_equal (String.get 0)) in Heq.
Qed.

Lemma runs_replace_alone platform staged digest mode :
  spec kept (replaceExecutable sched platform staged t digest mode) (final digest mode).
Proof.
  unfold replaceExecutable.
  apply hold_next; [intros; by apply kept_final|apply survives_wrapping, hold_query|intros source].
  apply hold_next; [intros; by apply kept_final|apply survives_wrapping, hold_query|intros sourceInfo].
  apply hold_check; [intros; by apply kept_final|intros _].
  apply (runs_bind _ _ _ (λ '(install, name) fs l, (own_object install ∧ own_name p name ∧ name ≠ unixRollbackEntry) ∧ ready install fs l)).
  { eapply runs_post; [|apply runs_install_temp]. intros [[]|e] fs l Hw; [exact Hw|by left]. }
  intros [install name]. apply runs_pure. intros (Hi & Hn & Hrollback).
  apply (runs_finally _ _ _ (final digest mode)).
  - apply (runs_bind _ _ _ (λ _, ready install)).
    + eapply runs_post; [|by apply ready_fill]. intros [] fs l Hw; [done|by left].
    + intros _. apply runs_wrapping. eapply runs_post; [|by apply ready_platform].
      intros [[]|e] fs l Hw; by apply final_perm in Hw.
  - intros r. by apply survives_on_fail, final_remove.
Qed.
End Alone.

Lemma replaced_atomically `{!Sha256} sched platform staged target digest mode fs o r w' :
  target ∉ entry_names → entry fs (fs_parent fs) target = Some o →
  (∀ time fs, ev_env (sched time) fs = fs) →
  replaceExecutable sched platform staged target digest mode (mkWorld fs 0 []) = (r, w') →
  let parent := fs_parent fs in
  match r with
  | Ok _ => ∃ new ob, fs_objects fs !! new = None ∧ authentic digest mode ob ∧
      entry (w_fs w') parent target = Some new ∧ fs_objects (w_fs w') !! new = Some ob
  | Fail _ => entry (w_fs w') parent target = Some o ∨
      ∃ cd, (∀ name, entry fs cd name = None) ∧ entry (w_fs w') cd unixRollbackEntry = Some o
  end ∧
  (∀ d name i, entry fs d name = Some i → (d, name) ≠ (parent, target) → entry (w_fs w') d name = Some i) ∧
  (∀ i ob, fs_objects fs !! i = Some ob → fs_objects (w_fs w') !! i = Some ob).
Proof.
  intros Ht Ho Halone Hrun parent.
  pose proof (runs_replace_alone sched Halone fs target o Ht Ho platform staged digest mode (mkWorld fs 0 [])) as Hspec.
  rewrite Hrun in Hspec. cbn in Hspec.
  assert (kept fs target o fs []) as Hk by (split; [done|split; [by apply Forall_singleton|by apply Forall_nil]]).
  specialize (Hspec Hk). destruct r as [u|e].
  - destruct Hspec as (src & ob & Hsrc & Hob & Hh). split; [|by split; apply Hh]. exists src, ob. split_and!; [done..| |].
    + by eapply (hold_entry _ _ _ _ _ []); [exact Hh|left].
    + by eapply (hold_object _ _ _ _ _ []); [exact Hh|left].
  - destruct Hspec as [Hh|(cd & Hcd & Hh)]; (split; [|by split; apply Hh]).
    + left. by eapply (hold_entry _ _ _ _ _ []); [exact Hh|left].
    + right. exists cd. split; [done|]. by eapply (hold_entry _ _ _ _ _ []); [exact Hh|left].
Qed.

(** C22: Refinement of an atomic replacement. Without other processes, and whatever calls
    fail and however short the reads are, on Linux as on Darwin and the BSDs: success
    means that the target names a new regular file with the authenticated bytes and
    the wanted mode; failure, that the target still names the original or, when even
    putting it back failed, that a new directory keeps it under the rollback name. In
    every case all other entries and all objects that were there are as they were. *)
Theorem replacement_is_atomic `{!Sha256} sched platform staged target digest mode fs o r w' :
  target ∉ entry_names → entry fs (fs_parent fs) target = Some o →
  (∀ time fs, ev_env (sched time) fs = fs) →
  replaceExecutable sched platform staged target digest mode (mkWorld fs 0 []) = (r, w') →
  let parent := fs_parent fs in
  match r with
  | Ok _ => ∃ new ob, fs_objects fs !! new = None ∧ authentic digest mode ob ∧
      entry (w_fs w') parent target = Some new ∧ fs_objects (w_fs w') !! new = Some ob
  | Fail _ => entry (w_fs w') parent target = Some o ∨
      ∃ cd, (∀ name, entry fs cd name = None) ∧ entry (w_fs w') cd unixRollbackEntry = Some o
  end ∧
  (∀ d name i, entry fs d name = Some i → (d, name) ≠ (parent, target) → entry (w_fs w') d name = Some i) ∧
  (∀ i ob, fs_objects fs !! i = Some ob → fs_objects (w_fs w') !! i = Some ob).
Proof. exact (replaced_atomically sched platform staged target digest mode fs o r w'). Qed.

(** ** An update end to end: from the release to the installed file *)

Section Update.
Context `{!UnicodeCase} `{!Sha256}.

(** C28: The two halves of an update together, with the replacement that [Download] calls
    run on the file system: an update that reports no error leaves under the
    executable's name a regular file whose hash is that of the downloaded bytes,
    which is the release's only checksum for this asset and was verified against its
    provenance; one that reports an error leaves the original, or keeps it under the
    rollback name. *)
Theorem update_end_to_end io releases current result call err sched platform staged fs o r w' :
  let target := Base (rp_target call) in
  Download io releases current = (result, [call], err) →
  target ∉ entry_names → entry fs (fs_parent fs) target = Some o → (∀ time fs, ev_env (sched time) fs = fs) →
  replaceExecutable sched platform staged target (rp_digest call) (rp_mode call) (mkWorld fs 0 []) = (r, w') →
  up_replace io = error_of r →
  match err with
  | None => ∃ version checksums bundle sum new ob,
      or_Installed result = version ∧ up_checksums io version = Ok checksums ∧
      checksumForAsset checksums (up_asset io) = Ok sum ∧ up_bundle io version = Ok bundle ∧
      entry (w_fs w') (fs_parent fs) target = Some new ∧ fs_objects (w_fs w') !! new = Some ob ∧
      o_kind ob = Regular ∧ hashBytes (o_content ob) = ToLower sum ∧
      up_verify io bundle (up_asset io) version (sha256 (o_content ob)) = None
  | Some _ => entry (w_fs w') (fs_parent fs) target = Some o ∨
      ∃ cd, (∀ name, entry fs cd name = None) ∧ entry (w_fs w') cd unixRollbackEntry = Some o
  end.
Proof.
  intros target Hdownload Ht Ho Halone Hrun Hreplace.
  destruct (download_cases io releases current) as [(available & err' & Hd)|(l & rel & v & c & available & ? & ? & ? & ? & Hver & Hd)];
    rewrite Hd in Hdownload; [done|]. injection Hdownload as <- -> <-.
  pose proof (replaced_atomically sched platform staged target (rp_digest call) (rp_mode call) fs o r w' Ht Ho Halone Hrun) as [Hout _].
  rewrite Hreplace in *. destruct r as [u|e]; cbn [error_of] in *; [|exact Hout].
  destruct Hout as (new & ob & _ & (Hk & Hdig & _) & Hent & Hobj).
  destruct Hver as (checksums & bundle & sum & _ & Hc & Hb & _ & Hsum & Hhash & Hdigest & _ & Hv & _).
  exists (r_TagName rel), checksums, bundle, sum, new, ob. split_and!; try done.
  - unfold hashBytes in *. by rewrite Hdig, Hdigest.
  - by rewrite Hdig.
Qed.
End Update.
