(* ===== verification/Migration.v ===== *)
(** * Crossing a major version ([update/migration.go], [cmd/ssm/main.go])

    The review of a migration, its checks, and the update that installs the reviewed
    release when it was authorized. What [InspectLocal] found, the files and the
    executable's directory are the [MigrationWorld]; responses and the replacement are
    those of Release. The two kinds of recovery errors only the replacement on Windows
    makes, so a failed update is of the kind the code falls back to. *)

From Stdlib Require Import Ascii Strings.Byte.
From S2P Require Import Prelude GoStrings GoErrors GoRegexp NamedList VaultBlob Config FailurePolicy Redaction MachineContract SyncProtocol SyncWorld SyncTransaction Publication Release ReleaseFacts.

Record BreakingChange := mkBreaking { bc_ID : string; bc_Description : string }.
Record MigrationCheck := mkMigrationCheck {
  mc_ID : string; mc_Status : string; mc_Automated : bool; mc_Description : string; mc_Remediation : string;
}.
Record MigrationReview := mkReview {
  rv_OK : bool;
  rv_Current : string;
  rv_Target : string;
  rv_ReleaseName : string;
  rv_ReleaseNotes : string;
  rv_BreakingChanges : list BreakingChange;
  rv_AutomatedChecks : list MigrationCheck;
  rv_ManualChecks : list MigrationCheck;
  rv_Authorized : bool;
  rv_AuthorizationState : string;
  rv_Installed : bool;
  rv_RollbackGuidance : string;
  rv_Remediation : string;
}.

Definition approvedBreakingChanges : list BreakingChange :=
  [mkBreaking "BC-1" "Invalid or unreadable cloud configuration is fatal for online inventory.";
   mkBreaking "BC-2" "Scoped publication rejects unsatisfied cross-alias saved-key dependencies.";
   mkBreaking "BC-3" "Stream startup failures use compact NDJSON.";
   mkBreaking "BC-4" "Legacy mutations create pending transactions and do not auto-publish.";
   mkBreaking "BC-5" "Bare push is rejected and empty-ledger push --all performs no PUT.";
   mkBreaking "BC-6" "Online streams require a positive refresh interval.";
   mkBreaking "BC-7" "Directory transfer output uses the truthful common transfer contract.";
   mkBreaking "BC-8" "Ordinary automatic and manual replacement cannot cross a major boundary.";
   mkBreaking "BC-9" "Update artifacts require pinned keyless provenance in addition to digests.";
   mkBreaking "BC-10" "make check is non-mutating and CI-equivalent."].

Definition review_required (id description : string) : MigrationCheck :=
  mkMigrationCheck id "review_required" false description "".
Definition manualMigrationChecks : list MigrationCheck :=
  [review_required "legacy_bare_push_consumers" "Review external callers that use bare ssm push; migrate to --only or deliberate non-empty --all.";
   review_required "zero_refresh_online_streams" "Review external online stream callers using --refresh=0; choose a positive interval or explicit --offline.";
   review_required "directory_transfer_consumers" "Review external consumers of directory transfer fields and omissions against the v2 field contract."].

Definition passedCheck (id description : string) : MigrationCheck := mkMigrationCheck id "passed" true description "".
Definition failedCheck (id description remediation : string) : MigrationCheck :=
  mkMigrationCheck id "failed" true description remediation.
Definition checksPassed (checks : list MigrationCheck) : bool :=
  forallb (λ c, bool_decide (mc_Status c = "passed")) checks.

Inductive StatAnswer := Found | NotFound | NotInspected.

(** What the checks look at. *)
Record MigrationWorld := mkMigrationWorld {
  (** [InspectLocal] *)
  mw_inspected : Facts * option goerror;
  (** [os.Stat] in the configuration directory; the vault file *)
  mw_stat : string → StatAnswer;
  mw_vault_stat : StatAnswer;
  mw_vault : file;
  mw_environment : string;
  mw_password_file : string → result bytes;
  (** the probe beside the executable: its creation, closing and removal *)
  mw_probe : option goerror;
  mw_probe_close : option goerror;
  mw_probe_remove : option goerror;
}.

Section Migration.
Context `{!UnicodeCase} `{!Sha256} `{!VaultCrypto} `{!VaultJson}.

Definition checkCloudConfiguration (inspected : Facts * option goerror) : MigrationCheck :=
  let '(facts, err) := inspected in
  let id := "cloud_configuration" in
  if bool_decide (err = None) && bool_decide (fa_Configuration facts = ConfigurationUnconfigured) then
    passedCheck id "Synchronization is unconfigured; no invalid cloud configuration was found."
  else if bool_decide (err = None) && bool_decide (fa_Configuration facts = ConfigurationConfigured) then
    passedCheck id "Cloud configuration is readable and valid."
  else failedCheck id "Cloud configuration is invalid or unreadable." "Repair or deliberately remove cloud.json before migration.".

Definition intent_names : list string := ["publishing-intent.json"; "publication-intent.json"].

(** Where the master password is read from. *)
Definition password_path (w : MigrationWorld) (masterPassPath : string) : string :=
  let path := TrimSpace masterPassPath in
  if bool_decide (path = "") then TrimSpace (mw_environment w) else path.

Definition checkPendingRecovery (w : MigrationWorld) (masterPassPath : string) : MigrationCheck :=
  let id := "pending_recovery" in
  if existsb (λ name, match mw_stat w name with NotFound => false | _ => true end) intent_names then
    failedCheck id "A pending publication recovery intent exists or cannot be inspected." "Complete reviewed recovery with the current executable before migration."
  else
    match mw_vault_stat w with
    | NotFound | NotInspected => passedCheck id "No local vault or publication recovery intent exists."
    | Found =>
        let path := password_path w masterPassPath in
        if bool_decide (path = "") then
          failedCheck id "The encrypted vault cannot be checked non-interactively without SSM_MASTER_PASS_FILE." "Provide the existing permission-restricted master-pass file and rerun."
        else
          match mw_password_file w path with
          | Fail _ => failedCheck id "The master-pass file is unreadable." "Repair master-pass file access and rerun."
          | Ok password =>
              match load_file (mw_vault w) (bytes_of_string (TrimRight (string_of_bytes password) (string_of_codes [13; 10]%N))) with
              | Fail _ => failedCheck id "The encrypted vault cannot be inspected." "Use the correct master-pass file and repair the vault before migration."
              | Ok vault =>
                  if bool_decide (v_PendingMutations vault = []) then
                    passedCheck id "No pending inventory transactions or recovery intent were found."
                  else failedCheck id "Pending inventory transactions require review." "Publish the exact reviewed scopes or deliberately retain v1 until they are resolved."
              end
          end
    end.

Definition checkDivergence (facts : Facts) : MigrationCheck :=
  match fa_Conflict facts with
  | Some _ => failedCheck "untracked_divergence" "A recorded local/remote synchronization conflict exists." "Resolve the preserved conflict through reviewed pull, repair, or import before migration."
  | None => passedCheck "untracked_divergence" "No safely observable local/remote divergence record was found."
  end.

Definition checkReleaseAsset (release : Release) : MigrationCheck :=
  match validateReleaseAssets release with
  | Fail _ => failedCheck "platform_asset" "The target release does not declare the exact supported release asset and provenance manifest." "Install only after the release publishes the exact six supported assets, adjacent provenance bundles, installer, and digest data."
  | Ok _ => passedCheck "platform_asset" "The target release declares the exact supported release asset and provenance manifest."
  end.

Definition checkRollbackReadiness (os : ProgramOS) (w : MigrationWorld) : MigrationCheck :=
  let id := "rollback_readiness" in
  match resolveInstalledExecutable os with
  | Fail _ => failedCheck id "The current executable is not an installed ssm binary." "Install the release asset manually."
  | Ok executable =>
      match os_Regular os executable with
      | Fail _ | Ok false => failedCheck id "The current executable is not a readable regular file." "Restore a regular v1 executable before migration."
      | Ok true =>
          match mw_probe w with
          | Some _ => failedCheck id "The executable directory cannot stage an atomic replacement." "Repair directory permissions or choose a writable installation path."
          | None =>
              match mw_probe_close w, mw_probe_remove w with
              | None, None => passedCheck id "The prior executable is readable and atomic replacement can be staged beside it."
              | _, _ => failedCheck id "Rollback staging cleanup failed." "Repair the installation directory before migration."
              end
          end
      end
  end.

Definition migrationPreflight (os : ProgramOS) (w : MigrationWorld) (release : Release) (masterPassPath : string) :
    list MigrationCheck :=
  [checkCloudConfiguration (mw_inspected w); checkPendingRecovery w masterPassPath; checkDivergence (mw_inspected w).1;
   checkReleaseAsset release; checkRollbackReadiness os w].

(** The review before a target is known. *)
Definition new_review (current : string) (authorize : bool) : MigrationReview :=
  mkReview false current "" "" "" approvedBreakingChanges [] manualMigrationChecks authorize
    (if authorize then "authorized" else "not_authorized") false
    "Keep the prior v1 executable until v2 validation completes; restore that preserved executable if rollout checks fail."
    "Resolve every failed automated check, complete the external-consumer reviews, then rerun ssm update --major --yes.".
Definition reviewed (ok : bool) (target : Release) (notes : string) (checks : list MigrationCheck) (r : MigrationReview) : MigrationReview :=
  mkReview ok (rv_Current r) (r_TagName target) (r_Name target) notes (rv_BreakingChanges r) checks (rv_ManualChecks r)
    (rv_Authorized r) (rv_AuthorizationState r) (rv_Installed r) (rv_RollbackGuidance r) (rv_Remediation r).

Definition ReviewMajor (os : ProgramOS) (w : MigrationWorld) (releases : result (list Release)) (current : string)
    (authorize : bool) (masterPassPath : string) : MigrationReview * option goerror :=
  let review := new_review current authorize in
  match releases with
  | Fail e => (review, Some e)
  | Ok releases =>
      match (SelectRelease releases current).2 with
      | None => (review, Some (Errorf "no supported cross-major release found"))
      | Some target =>
          let notes := TrimSpace (r_Body target) in
          let checks := migrationPreflight os w target masterPassPath in
          let ok := negb (bool_decide (notes = "")) && checksPassed checks in
          let review := reviewed ok target notes checks review in
          if bool_decide (notes = "") then
            (review, Some (Errorf ("release " +:+ r_TagName target +:+ " is missing migration release notes")))
          else if negb ok then (review, Some (Errorf "migration preflight failed"))
          else (review, None)
      end
  end.

(** ** [runUpdate] *)

(** The loop over the arguments: [--major] and [--yes]. *)
Fixpoint update_args (args : list string) (major yes : bool) : result (bool * bool) :=
  match args with
  | [] => Ok (major, yes)
  | arg :: rest =>
      if bool_decide (arg = "--major") then update_args rest true yes
      else if bool_decide (arg = "--yes") then update_args rest major true
      else Fail (Errorf ("unknown update option " +:+ Quote arg))
  end.

(** What an update of either kind did: the review and the calls of [replaceExecutable]. *)
Inductive UpdateRun :=
  | Refused (e : goerror)
  | MajorUpdate (review : MigrationReview) (calls : list Replacement) (err : option goerror)
  | OrdinaryUpdate (result : OrdinaryResult) (calls : list Replacement) (err : option goerror).

(** [default_path] is the default master-pass file, when it is there; the callback of
    [up_before] shows the review, [rendered] is the error of showing one that installs
    nothing. *)
Definition runUpdate (io : UpdateIO) (w : MigrationWorld) (releases : result (list Release)) (current masterPassFile default_path : string)
    (rendered : option goerror) (args : list string) : UpdateRun :=
  match update_args args false false with
  | Fail e => Refused e
  | Ok (major, yes) =>
      if yes && negb major then Refused (Errorf "--yes is valid only with update --major")
      else if negb major then
        let '(result, calls, err) := Download io releases current in OrdinaryUpdate result calls err
      else
        let masterPassFile := if bool_decide (masterPassFile = "") then default_path else masterPassFile in
        match ReviewMajor (up_os io) w releases current yes masterPassFile with
        | (review, Some e) => MajorUpdate review [] (Some e)
        | (review, None) =>
            if negb yes then MajorUpdate review [] rendered
            else let '(calls, err) := DownloadVersionBeforeReplace io (rv_Target review) in MajorUpdate review calls err
        end
  end.

(** ** What was reviewed *)

(** What is known of the vault: it is not there; or it was decrypted with the password of
    the file and has no pending mutation; or it could not be inspected, and then nothing
    is known of its mutations ([ReleaseExamples.uninspectable_vault_passes]). *)
Definition vault_reviewed (w : MigrationWorld) (masterPassPath : string) : Prop :=
  match mw_vault_stat w with
  | Found => ∃ password vault,
      mw_password_file w (password_path w masterPassPath) = Ok password
      ∧ load_file (mw_vault w) (bytes_of_string (TrimRight (string_of_bytes password) (string_of_codes [13; 10]%N))) = Ok vault
      ∧ v_PendingMutations vault = []
  | NotFound | NotInspected => True
  end.

(** The state of the local machine a migration may start from. *)
Definition ready (os : ProgramOS) (w : MigrationWorld) (masterPassPath : string) : Prop :=
  (mw_inspected w).2 = None ∧ fa_Conflict (mw_inspected w).1 = None
  ∧ fa_Configuration (mw_inspected w).1 ∈ [ConfigurationUnconfigured; ConfigurationConfigured]
  ∧ (∀ name, name ∈ intent_names → mw_stat w name = NotFound)
  ∧ vault_reviewed w masterPassPath
  ∧ (∃ executable, resolveInstalledExecutable os = Ok executable ∧ os_Regular os executable = Ok true)
  ∧ mw_probe w = None ∧ mw_probe_close w = None ∧ mw_probe_remove w = None.

Lemma cloud_passed inspected : mc_Status (checkCloudConfiguration inspected) = "passed" →
  inspected.2 = None ∧ fa_Configuration inspected.1 ∈ [ConfigurationUnconfigured; ConfigurationConfigured].
Proof.
  destruct inspected as [facts [e|]]; [by cbn|]. cbn [checkCloudConfiguration fst snd]. rewrite bool_decide_true by done. cbn [andb].
  case_bool_decide as Hone; [|case_bool_decide as Htwo; [|done]]; intros _; rewrite ?Hone, ?Htwo; (split; [done|]); set_solver.
Qed.

Lemma recovery_passed w path : mc_Status (checkPendingRecovery w path) = "passed" →
  (∀ name, name ∈ intent_names → mw_stat w name = NotFound)
  ∧ vault_reviewed w path.
Proof.
  unfold checkPendingRecovery, vault_reviewed. destruct (existsb _ intent_names) eqn:Hex; [done|].
  assert (Hnames : ∀ name, name ∈ intent_names → mw_stat w name = NotFound).
  { intros name Hin. destruct (mw_stat w name) eqn:Hs; [exfalso|done|exfalso];
      (apply not_true_iff_false in Hex; apply Hex, existsb_exists; exists name; rewrite Hs, <- list_elem_of_In; done). }
  destruct (mw_vault_stat w); [|by split..]. cbv zeta. set (p := password_path w path).
  destruct (bool_decide (p = "")); [done|]. destruct (mw_password_file w p) as [password|] eqn:Hpw; [|done]. destruct (load_file _ _) as [vault|] eqn:Hl; [|done].
  case_bool_decide; [|done]. intros _. split; [done|]. by exists password, vault.
Qed.

Lemma rollback_passed os w : mc_Status (checkRollbackReadiness os w) = "passed" →
  (∃ executable, resolveInstalledExecutable os = Ok executable ∧ os_Regular os executable = Ok true)
  ∧ mw_probe w = None ∧ mw_probe_close w = None ∧ mw_probe_remove w = None.
Proof.
  unfold checkRollbackReadiness. destruct (resolveInstalledExecutable os) as [exe|]; [|done].
  destruct (os_Regular os exe) as [[]|] eqn:Hr; try done. destruct (mw_probe w), (mw_probe_close w), (mw_probe_remove w); try done.
  intros _. split; [by exists exe|done].
Qed.

Lemma preflight_ready os w release path :
  checksPassed (migrationPreflight os w release path) = true → r_Assets release ≡ₚ ExpectedReleaseNames ∧ ready os w path.
Proof.
  unfold checksPassed, migrationPreflight. cbn [forallb]. rewrite !andb_true_iff, !bool_decide_eq_true.
  intros ([He Hc]%cloud_passed & [Hi Hv]%recovery_passed & Hd & Ha & [Hx Hp]%rollback_passed & _). split.
  - apply validate_assets_spec. unfold checkReleaseAsset in Ha. by destruct (validateReleaseAssets release) as [[]|].
  - unfold ready. split_and!; try done; [|apply Hp..]. unfold checkDivergence in Hd. by destruct (fa_Conflict _).
Qed.

Lemma ReviewMajor_ok os w releases current authorize path review :
  ReviewMajor os w releases current authorize path = (review, None) →
  ∃ l target v, releases = Ok l ∧ parseSemanticVersion current = Some v ∧ first_newest (cross_major v) l (Some target)
    ∧ rv_OK review = true ∧ rv_Target review = r_TagName target ∧ rv_ReleaseNotes review = TrimSpace (r_Body target)
    ∧ rv_ReleaseNotes review ≠ "" ∧ r_Assets target ≡ₚ ExpectedReleaseNames ∧ ready os w path.
Proof.
  unfold ReviewMajor. destruct releases as [l|]; [|done]. destruct (SelectRelease l current) as [same cross] eqn:Hsel. cbn [snd].
  destruct cross as [target|]; [|done]. cbv zeta. case_bool_decide as Hnotes; [done|]. cbn [negb andb].
  destruct (checksPassed _) eqn:Hchecks; [|done]. intros [= <-]. apply preflight_ready in Hchecks as [Hassets Hready].
  unfold SelectRelease in Hsel. destruct (parseSemanticVersion current) as [v|] eqn:Hv; [|done].
  pose proof (select_ok v (parse_valid _ _ Hv) l) as [_ Hcross]. rewrite Hsel in Hcross.
  exists l, target, v. by split_and!.
Qed.

Lemma update_args_ok args major yes major' yes' :
  update_args args major yes = Ok (major', yes') →
  (major' = true → major = true ∨ "--major" ∈ args) ∧ (yes' = true → yes = true ∨ "--yes" ∈ args).
Proof.
  revert major yes. induction args as [|arg args IH]; intros major yes; cbn [update_args]; [intros [= -> ->]; auto|].
  case_bool_decide as Hone; [|case_bool_decide as Htwo; [|done]]; intros [Hm Hy]%IH; subst arg; split; intros Hx;
    (destruct (Hm Hx) as [?|?] || destruct (Hy Hx) as [?|?]); auto using list_elem_of_further, list_elem_of_here.
Qed.

(** C27: An update across a major version replaces the executable only after the user
    confirmed it with [--yes], for the first of the newest releases above the running
    major version, whose notes were not empty and whose assets are exact, from a machine
    without a recorded conflict and without a publication intent, and with the verified
    bytes of the release that was reviewed, once the review was shown. A vault that is
    there was decrypted and has no pending mutation, unless it could not be inspected: that
    counts as no vault, and nothing is known of its mutations. An update without [--major]
    never crosses a major version. *)
Theorem major_update_is_reviewed io w releases current masterPassFile default_path rendered args :
  match runUpdate io w releases current masterPassFile default_path rendered args with
  | Refused _ => True
  | MajorUpdate review calls err =>
      "--major" ∈ args ∧ length calls ≤ 1
      ∧ ∀ call, call ∈ calls →
          "--yes" ∈ args ∧ rv_OK review = true
          ∧ ready (up_os io) w (if bool_decide (masterPassFile = "") then default_path else masterPassFile)
          ∧ ∃ l target v, releases = Ok l ∧ parseSemanticVersion current = Some v
              ∧ first_newest (cross_major v) l (Some target) ∧ rv_Target review = r_TagName target
              ∧ TrimSpace (r_Body target) ≠ "" ∧ r_Assets target ≡ₚ ExpectedReleaseNames ∧ verified io (r_TagName target) call
  | OrdinaryUpdate result calls err =>
      ∀ call, call ∈ calls → ∃ l target v, releases = Ok l ∧ parseSemanticVersion current = Some v
        ∧ first_newest (same_major v) l (Some target) ∧ verified io (r_TagName target) call
  end.
Proof.
  unfold runUpdate. destruct (update_args args false false) as [[major yes]|] eqn:Hargs; [|done].
  apply update_args_ok in Hargs as [Hmajor Hyes]. destruct (yes && negb major); [done|]. destruct major; cbn [negb].
  - destruct (Hmajor eq_refl) as [?|Hin]; [done|]. clear Hmajor.
    destruct (ReviewMajor _ _ _ _ _ _) as [review [e|]] eqn:Hreview; [by split_and!; [|cbn; lia|set_solver]|].
    destruct yes; cbn [negb]; [|by split_and!; [|cbn; lia|set_solver]]. destruct (Hyes eq_refl) as [?|Hconfirmed]; [done|].
    apply ReviewMajor_ok in Hreview as (l & target & v & Hl & Hv & Hnewest & HOK & Htarget & Hnotes & Hne & Hassets & Hready).
    unfold DownloadVersionBeforeReplace. destruct (verified_download io (rv_Target review)) as [call|] eqn:Hd;
      [|by split_and!; [|cbn; lia|set_solver]].
    split_and!; [done|cbn; lia|]. intros c ->%list_elem_of_singleton. split_and!; [done|done|done|].
    exists l, target, v. rewrite <- Hnotes, <- Htarget. split_and!; try done. by apply verified_download_verified.
  - destruct (download_cases io releases current) as [(available & err & ->)|(l & r & v & call & available & ? & ? & ? & ? & ? & ->)];
      [set_solver|]. intros c ->%list_elem_of_singleton. by exists l, r, v.
Qed.
End Migration.
