(* ===== verification/ReleaseExamples.v ===== *)
(** * Replacements on concrete file systems *)

From Stdlib Require Import Strings.Byte.
From Stdlib Require Import Ascii Strings.Byte.
From S2P Require Import Prelude GoStrings GoErrors NamedList VaultBlob Config SyncProtocol SyncWorld SyncTransaction Publication SyncInstances Release FileWorld UnixReplace UnixReplaceFacts Update ReleaseFacts Migration.

#[local] Instance sum_sha256 : Sha256 := λ data, take 32 (data ++ replicate 32 x00).

Definition ex_old : bytes := [x01; x02].
Definition ex_new : bytes := [x03; x04; x05].

(** The directory 1 has the executable 2 and the staged file 3. *)
Definition ex_fs : FS := mkFS
  (list_to_map [(1%N, mkObject Directory [] 493); (2%N, mkObject Regular ex_old 493); (3%N, mkObject Regular ex_new 384)])
  (list_to_map [((1%N, "ssm"), 2%N); ((1%N, ".ssm.1.new"), 3%N)]) 1 false.

Definition calm : Event := mkEvent (λ fs, fs) None "7" 1.
(** At one time, a call fails. *)
Definition failing_at (n : nat) : nat → Event := λ time,
  if time =? n then mkEvent (λ fs, fs) (Some EPERM) "7" 1 else calm.
(** At one time, another process points the executable's name at the staged file. *)
Definition meddle (fs : FS) : FS :=
  match fs_objects fs !! 1%N with
  | Some d => if bool_decide (perm (o_mode d) = 448%Z) then fs else set_entries <[(1%N, "ssm") := 3%N]> fs
  | None => fs
  end.
Definition meddling_at (n : nat) : nat → Event := λ time, if time =? n then mkEvent meddle None "7" 1 else calm.

Definition ex_run (platform : Platform) (sched : nat → Event) : result () * World :=
  replaceExecutable sched platform ".ssm.1.new" "ssm" (sha256 ex_new) 493 (mkWorld ex_fs 0 []).
Definition ex_entry (r : result () * World) (d : N) (name : string) : option N := entry (w_fs r.2) d name.

Lemma meddle_civil fs : civil fs (meddle fs).
Proof.
  unfold meddle. destruct (fs_objects fs !! 1%N) as [d|] eqn:Hd; [|apply civil_refl].
  case_bool_decide as Hp; [apply civil_refl|]. split; [apply set_entries_persist|].
  intros k o name Hk [_ Ho]. rewrite entry_set_ne; [done|]. intros [= -> ->]. congruence.
Qed.

Lemma meddling_civil n time fs : civil fs (ev_env (meddling_at n time) fs).
Proof. unfold meddling_at. destruct (time =? n); [apply meddle_civil|apply civil_refl]. Qed.

Lemma ssm_is_no_entry_name : "ssm" ∉ entry_names.
Proof. apply (bool_decide_unpack (¬ _)). by vm_compute. Qed.

(** Another process replaces the new executable after the rename: the original is put
    back. *)
Example original_is_never_lost_witness :
  let r := ex_run Linux (meddling_at 50) in
  (is_ok r.1, ex_entry r 1 "ssm") = (false, Some 2%N) ∧
  match r.1 with
  | Ok _ => ∃ p src o, inspected p "ssm" o (w_log r.2) ∧ created src (w_log r.2) ∧ left_as p "ssm" src (w_log r.2)
  | Fail _ =>
      (∀ p, quiet p "ssm" (w_log r.2)) ∨
      ∃ p o, inspected p "ssm" o (w_log r.2) ∧ ((∃ cd, retained cd o (w_fs r.2)) ∨ left_as p "ssm" o (w_log r.2))
  end.
Proof.
  split; [by vm_compute|]. destruct (ex_run Linux (meddling_at 50)) as [r w'] eqn:Hrun. cbn [fst snd].
  exact (original_is_never_lost _ _ _ _ _ _ _ _ _ ssm_is_no_entry_name (meddling_civil 50) Hrun).
Defined.

(** The rename fails: the original is untouched. *)
Example replacement_is_atomic_witness :
  let r := ex_run DarwinOrBSD (failing_at 66) in
  (is_ok r.1, ex_entry r 1 "ssm", ex_entry r 1 ".ssm.1.new") = (false, Some 2%N, Some 3%N) ∧
  match r.1 with
  | Ok _ => ∃ new ob, fs_objects ex_fs !! new = None ∧ authentic (sha256 ex_new) 493 ob ∧
      ex_entry r 1 "ssm" = Some new ∧ fs_objects (w_fs r.2) !! new = Some ob
  | Fail _ => ex_entry r 1 "ssm" = Some 2%N ∨
      ∃ cd, (∀ name, entry ex_fs cd name = None) ∧ ex_entry r cd unixRollbackEntry = Some 2%N
  end.
Proof.
  split; [by vm_compute|]. destruct (ex_run DarwinOrBSD (failing_at 66)) as [r w'] eqn:Hrun. cbn [fst snd].
  assert (entry ex_fs (fs_parent ex_fs) "ssm" = Some 2%N) as Ho by (by vm_compute).
  assert (∀ time fs, ev_env (failing_at 66 time) fs = fs) as Halone
    by (intros time fs; unfold failing_at; by destruct (time =? 66)).
  apply (replacement_is_atomic _ _ _ _ _ _ _ _ _ _ ssm_is_no_entry_name Ho Halone Hrun).
Defined.

(** Undisturbed, both platforms install the new executable and leave nothing behind. *)
Example undisturbed_replacements_install :
  (λ platform, let r := ex_run platform (λ _, calm) in
    (is_ok r.1, o_content <$> (ex_entry r 1 "ssm" ≫= λ i, fs_objects (w_fs r.2) !! i), size (fs_entries (w_fs r.2)))) <$>
    [Linux; DarwinOrBSD]
  = [(true, Some ex_new, 2); (true, Some ex_new, 2)].
Proof. by vm_compute. Qed.

(** ** Updates on concrete releases *)

#[local] Existing Instances ascii_case sum_sha256.

Definition ex_release (t : string) : Release := mkRelease t t "notes" false false ExpectedReleaseNames.
Definition ex_releases : list Release :=
  [ex_release "v1.2.3"; ex_release "v1.10.0"; ex_release "v2.0.0"; ex_release "v1.10.0-rc1"].

Definition ex_os : ProgramOS := mkProgramOS (Ok "/opt/bin/ssm") Ok "ssm" Ok Ok (λ _, Ok true).
Definition ex_io : UpdateIO := mkUpdateIO "Cd1s/ssm" "ssm-linux-amd64"
  (λ _, Ok (bytes_of_string (hashBytes ex_new +:+ "  ssm-linux-amd64" +:+ String (char 10) "")))
  (λ _, Ok [x7b; x7d]) (λ _, Ok (3%Z, ex_new)) ex_os (λ _, Ok (true, 493%Z)) None None None
  (λ _ _ _ _, None) None None.

Example compare_version_orders_witness :
  let a := mkVersion 1 10 0 in let b := mkVersion 1 9 9 in
  (parseSemanticVersion "v1.10.0" = Some a ∧ parseSemanticVersion " 1.9.9" = Some b) ∧
  ((compareVersion a b < 0)%Z ↔ version_lt a b) ∧
  ((0 < compareVersion a b)%Z ↔ version_lt b a) ∧ (compareVersion a b = 0%Z ↔ a = b).
Proof.
  split; [by vm_compute|]. apply (compare_version_orders "v1.10.0" " 1.9.9"); by vm_compute.
Defined.

Example select_release_is_first_newest_witness :
  (tag (SelectRelease ex_releases "1.2.3").1, tag (SelectRelease ex_releases "1.2.3").2) = ("v1.10.0", "v2.0.0") ∧
  let '(sameMajor, crossMajor) := SelectRelease ex_releases "1.2.3" in
  first_newest (same_major (mkVersion 1 2 3)) ex_releases sameMajor ∧
  first_newest (cross_major (mkVersion 1 2 3)) ex_releases crossMajor.
Proof.
  split; [by vm_compute|]. apply (select_release_is_first_newest ex_releases "1.2.3"). by vm_compute.
Defined.

Definition ex_result : OrdinaryResult := mkOrdinary "v1.10.0" "v2.0.0".
Definition ex_call : Replacement := mkReplacement ex_new "/opt/bin/ssm" (sha256 ex_new) 493.

Lemma ex_download : Download ex_io (Ok ex_releases) "1.2.3" = (ex_result, [ex_call], None).
Proof. by vm_compute. Qed.

Example update_installs_only_verified_witness :
  Download ex_io (Ok ex_releases) "1.2.3" = (ex_result, [ex_call], None) ∧
  length [ex_call] ≤ 1 ∧
  (∀ call, call ∈ [ex_call] → ∃ l r v version, Ok ex_releases = Ok l ∧ parseSemanticVersion "1.2.3" = Some v ∧
    first_newest (same_major v) l (Some r) ∧ version = r_TagName r ∧
    r_Assets r ≡ₚ ExpectedReleaseNames ∧ verified ex_io version call ∧
    (@None goerror = None → up_replace ex_io = None ∧ or_Installed ex_result = version)) ∧
  (or_Installed ex_result ≠ "" → [ex_call] ≠ [] ∧ @None goerror = None).
Proof.
  split; [exact ex_download|]. exact (update_installs_only_verified _ _ _ _ _ _ ex_download).
Defined.

(** A check in the first second of the year 2026 finds a new major version and nothing
    else. *)
Definition ex_now : Z := 1767225600 * second.
Definition ex_flag : string := markChecked "v2.0.0" ex_now.

Lemma ex_auto : Auto ex_io None ex_now (Ok [ex_release "v2.0.0"]) "1.2.3" = (Some ex_flag, [], None).
Proof. by vm_compute. Qed.

Example automatic_checks_wait_witness :
  let due now' :=
    if bool_decide (now' ≤ (ex_now / second + cooldown) * second)%Z
    then ∀ io' releases' current', Auto io' (Some ex_flag) now' releases' current' = (Some ex_flag, [], None)
    else shouldCheck (Some ex_flag) now' = true in
  due (ex_now + cooldown * second)%Z ∧ due (ex_now + cooldown * second + 1)%Z.
Proof.
  assert (∀ l r, Ok [ex_release "v2.0.0"] = Ok l → r ∈ l → contains_char (char 10) (r_TagName r) = false) as Htags.
  { intros l r [= <-] ->%list_elem_of_singleton. by vm_compute. }
  assert (0 ≤ ex_now / second ≤ max_int)%Z as Hnow by (by vm_compute).
  intros due. split; unfold due; apply (automatic_checks_wait ex_io None ex_now (Ok [ex_release "v2.0.0"]) "1.2.3" ex_flag [] None);
    [by vm_compute|done|done|exact Htags|exact ex_auto|by vm_compute|done|done|exact Htags|exact ex_auto].
Defined.

(** The call of [Download], made on the file system of the examples. *)
Example update_end_to_end_witness :
  let w' := (ex_run Linux (λ _, calm)).2 in
  ∃ version checksums bundle sum new ob,
    or_Installed ex_result = version ∧ up_checksums ex_io version = Ok checksums ∧
    checksumForAsset checksums (up_asset ex_io) = Ok sum ∧ up_bundle ex_io version = Ok bundle ∧
    entry (w_fs w') (fs_parent ex_fs) "ssm" = Some new ∧ fs_objects (w_fs w') !! new = Some ob ∧
    o_kind ob = Regular ∧ hashBytes (o_content ob) = ToLower sum ∧
    up_verify ex_io bundle (up_asset ex_io) version (sha256 (o_content ob)) = None.
Proof.
  assert (is_ok (ex_run Linux (λ _, calm)).1 = true) as Hok by (by vm_compute).
  destruct (ex_run Linux (λ _, calm)) as [[[]|e] w'] eqn:Hrun; [|done].
  assert (entry ex_fs (fs_parent ex_fs) "ssm" = Some 2%N) as Ho by (by vm_compute).
  exact (update_end_to_end ex_io _ _ _ ex_call None (λ _, calm) Linux ".ssm.1.new" ex_fs 2 _ w'
    ex_download ssm_is_no_entry_name Ho (λ _ _, eq_refl) Hrun eq_refl).
Defined.

(** ** A major version on a concrete machine *)

#[local] Existing Instance toy_crypto.

(** A machine without a vault, with or without the intent of an interrupted publication. *)
Definition ex_machine (intent : StatAnswer) : MigrationWorld :=
  mkMigrationWorld (set_Configuration ConfigurationUnconfigured no_facts, None)
    (λ name, if bool_decide (name = "publishing-intent.json") then intent else NotFound) NotFound Absent "" (λ _, Fail (Errorf "no file"))
    None None None.
Abbreviation migrating intent args := (runUpdate ex_io (ex_machine intent) (Ok ex_releases) "1.2.3" "" "" None args).
(** The review's verdict, what was installed, and whether there was an error. *)
Definition migrated (r : UpdateRun) : option (bool * list Replacement * bool) :=
  match r with MajorUpdate review calls err => Some (rv_OK review, calls, bool_decide (err = None)) | _ => None end.

Example major_updates :
  migrated (migrating NotFound ["--major"; "--yes"]) = Some (true, [ex_call], true)
  ∧ migrated (migrating NotFound ["--major"]) = Some (true, [], true)
  ∧ migrated (migrating Found ["--major"; "--yes"]) = Some (false, [], false)
  ∧ migrating NotFound ["--yes"] = Refused (Errorf "--yes is valid only with update --major")
  ∧ migrating NotFound [] = OrdinaryUpdate ex_result [ex_call] None.
Proof. vm_compute. by split_and!. Qed.

Example major_update_is_reviewed_witness :
  ready ex_os (ex_machine NotFound) "" ∧ verified ex_io "v2.0.0" ex_call.
Proof.
  pose proof (major_update_is_reviewed ex_io (ex_machine NotFound) (Ok ex_releases) "1.2.3" "" "" None ["--major"; "--yes"]) as Hreviewed.
  set (view := λ r, match r with MajorUpdate review calls _ => (calls, rv_Target review) | _ => ([], "") end).
  assert (Hview : view (migrating NotFound ["--major"; "--yes"]) = ([ex_call], "v2.0.0")) by (by vm_compute).
  destruct (migrating NotFound ["--major"; "--yes"]) as [| review calls err|]; [done| |done].
  injection Hview as -> Htarget.
  destruct Hreviewed as (_ & _ & Hcall). destruct (Hcall ex_call) as (_ & _ & Hready & l & target & v & _ & _ & _ & Ht & _ & _ & Hv).
  { apply list_elem_of_here. }
  split; [exact Hready|]. by rewrite <- Htarget, Ht.
Defined.

(** A vault that cannot be inspected counts as one that does not exist. *)
Example uninspectable_vault_passes :
  let w := mkMigrationWorld (no_facts, None) (λ _, NotFound) NotInspected NoAccess "" (λ _, Fail (Errorf "no file")) None None None in
  mc_Status (checkPendingRecovery w "") = "passed" ∧ mc_Description (checkPendingRecovery w "") = "No local vault or publication recovery intent exists.".
Proof. vm_compute. by split. Qed.
