(* ===== verification/SyncExamples.v ===== *)
(** * Concrete runs of the sync server and of its client

    The theorems of [SyncServerFacts], [Cloud] and [SyncScheduleFacts] applied
    to inputs where their hypotheses hold; the client talks to the server itself. *)

From Stdlib Require Import Strings.Byte.
From S2P Require Import Prelude GoStrings GoErrors NamedList VaultBlob Config SyncProtocol SyncServer SyncServerFacts Cloud PublishingIntent SyncWorld SyncSchedule SyncScheduleFacts SyncTransaction Publication SyncInstances Ledger LedgerFacts ProjectionFacts HostMutation SyncLogic SyncTransactionFacts PublicationFacts.

(** ** A server with one account *)

Definition ex_email := "ada@example.org".
Definition ex_path := vaultPath ex_email.
Definition ex_user : user :=
  mkUser ex_email "correct horse" (hashToken "tok") [hashToken "tok"] true "t0".
Definition ex_blob : bytes := [x01; x02; x03].
Definition ex_server : Server :=
  mkServer {[ ex_email := ex_user ]} Missing {[ ex_path := ex_blob ]}.
Definition ex_io : ServerIO := mkIO [ex_email] true true Stored (Some (replicate 32 x07)) "salt" "t1".

Definition ex_put (ifMatch ifNoneMatch : string) (body : bytes) : Request :=
  mkRequest PUT "/sync" "Bearer tok" ifMatch ifNoneMatch body.
Definition ex_push : Request := ex_put (quoteETag (hashBytes ex_blob)) "" [x09].

Lemma blob_changes_need_token_witness :
  sv_vaults (fst (handle ex_server ex_io ex_push)) !! ex_path = Some [x09] ∧
  rq_Body ex_push ≠ [] ∧
  ∃ token u key, rq_Authorization ex_push = "Bearer " +:+ token ∧
    sv_Users ex_server !! key = Some u ∧ token_matches (hashToken (TrimSpace token)) u = true.
Proof.
  destruct (handle ex_server ex_io ex_push) as [s' answer] eqn:E.
  assert (sv_vaults s' !! ex_path = Some [x09]) as Hs.
  { transitivity (sv_vaults (fst (handle ex_server ex_io ex_push)) !! ex_path); [by rewrite E|by vm_compute]. }
  destruct (blob_changes_need_token ex_server ex_io ex_push s' answer E) as (_ & _ & Hb & _ & t & u & k & Ha & Hu & Ht & _).
  { intros Hv. rewrite Hv in Hs. revert Hs. by vm_compute. }
  split_and!; [exact Hs|exact Hb|by exists t, u, k].
Defined.

Definition ex_login : Request := mkRequest POST "/auth/login" "" "" "" (bytes_of_string ex_email).

Lemma login_token_authenticates_witness :
  ∃ token, snd (handle ex_server ex_io ex_login) = writeJSON "token" token ∧
    ∃ u, authenticate (fst (handle ex_server ex_io ex_login)) ex_io
      (mkRequest GET "/sync" ("Bearer " +:+ token) "" "" []) = inr u ∧ u_Email u = ex_email.
Proof.
  destruct (handle ex_server ex_io ex_login) as [s' answer] eqn:E.
  assert (answer = snd (handle ex_server ex_io ex_login)) as Ha by (by rewrite E).
  destruct (login_token_authenticates ex_server ex_io ex_login s' answer E) as (email & pw & token & Hd & Hans & Hauth).
  { done. }
  { rewrite Ha. by vm_compute. }
  exists token. split; [exact Hans|].
  assert (email = ex_email) as ->.
  { assert (decodeAuthRequest ex_login = inr (ex_email, "correct horse")) as Hdec by (by vm_compute). congruence. }
  destruct (Hauth) with (io' := ex_io) (r' := mkRequest GET "/sync" ("Bearer " +:+ token) "" "" []) as (u & Hu & Hk).
  - apply map_Forall_singleton. split_and!; [by vm_compute|apply NoDup_singleton|cbn; unfold maxTokenHashes; lia].
  - apply map_Forall_singleton.
    assert (token = hex_encode (replicate 32 x07)) as ->; [|by vm_compute].
    assert (Some token = json_string "token" (rp_Body answer)) as Ht 
      by (rewrite Hans; exact (eq_sym (f_equal Some (string_of_bytes_of_string token)))).
    rewrite Ha in Ht. vm_compute in Ht. by injection Ht.
  - assert (ToLower ex_email = ex_email) as -> by (by vm_compute). by apply list_elem_of_singleton.
  - done.
  - exists u. split; [exact Hu|].
    assert (ToLower ex_email = ex_email) as Hl by (by vm_compute). rewrite Hl in Hk.
    assert (u_Email <$> sv_Users (fst (handle ex_server ex_io ex_login)) !! ex_email = Some ex_email) as Hm by (by vm_compute).
    rewrite E in Hm. cbn [fst] in Hm. rewrite Hk in Hm. by injection Hm.
Defined.

(** ** Interleaved requests

    [perform] takes the steps of a list of actions. *)
Inductive action := Arrive (i : nat) (r : Request) | Advance (i : nat).

Definition perform_one (c : config) (a : action) : config :=
  match a with
  | Arrive i r =>
      match cf_requests c !! i with
      | None => mkConfig (cf_server c) (<[i := Arrived r]> (cf_requests c)) (cf_log c)
      | Some _ => c
      end
  | Advance i =>
      match cf_requests c !! i with
      | Some f =>
          let '(s', f') := advance (cf_server c) ex_io f in
          mkConfig s' (<[i := f']> (cf_requests c)) (cf_log c ++ commits (cf_server c) s' f)
      | None => c
      end
  end.
Definition perform : config → list action → config := foldl perform_one.

Lemma perform_steps c acts : rtc sv_step c (perform c acts).
Proof.
  revert c. induction acts as [|a acts IH]; intros c; [constructor|]. etrans; [|apply IH].
  destruct a as [i r|i]; cbn; destruct (cf_requests c !! i) as [f|] eqn:E; try constructor.
  - apply rtc_once. by constructor.
  - destruct (advance _ _ f) as [s' f'] eqn:Ea. apply rtc_once. by econstructor.
Qed.

Definition ex_start : config := mkConfig ex_server ∅ [].
Lemma ex_start_ok : config_ok ex_start.
Proof.
  split; [|apply map_Forall_empty]. apply map_Forall_singleton.
  split_and!; [by vm_compute|apply NoDup_singleton|cbn; unfold maxTokenHashes; lia].
Qed.

(** Three pushes: the third names the blob the first one replaced and the second one
    put back. *)
Definition ex_pushes : list action :=
  let one i r := [Arrive i r; Advance i; Advance i] in
  one 0 ex_push ++ one 1 (ex_put (quoteETag (hashBytes [x09])) "" ex_blob) ++ one 2 ex_push.

Lemma push_no_lost_update_witness :
  match cf_log (perform ex_start ex_pushes) with
  | [c1; c2; c3] =>
      cm_after c1 = [x09] ∧ rq_IfMatch (cm_request c3) = quoteETag (hashBytes ex_blob) ∧
      ∃ cm, cm ∈ [c2] ∧ hashBytes (cm_after cm) = hashBytes ex_blob
  | _ => False
  end.
Proof.
  pose proof (push_no_lost_update ex_start (perform ex_start ex_pushes)) as Hp.
  assert (∃ c1 c2 c3, cf_log (perform ex_start ex_pushes) = [c1; c2; c3] ∧ cm_path c1 = cm_path c3 ∧
    cm_after c1 = [x09] ∧ rq_IfMatch (cm_request c3) = quoteETag (hashBytes ex_blob)) as (c1 & c2 & c3 & Hl & Hpath & Ha & Hm).
  { vm_compute. by do 3 eexists. }
  rewrite Hl. split_and!; [exact Ha|exact Hm|].
  destruct (Hp [] c1 [c2] c3 [] (perform_steps _ _) ex_start_ok eq_refl Hl Hpath) as [Hlost _].
  destruct (Hlost (hashBytes ex_blob)) as (cm & Hin & _ & Hh); [by vm_compute|exact Hm|rewrite Ha; by vm_compute|].
  exists cm. split; [exact Hin|exact Hh].
Defined.

Lemma accounts_stay_well_formed_witness :
  let c := perform ex_start [Arrive 0 ex_login; Advance 0; Advance 0] in
  match sv_Users (cf_server c) !! ex_email with
  | Some u => length (u_TokenHashes u) = 2 ∧ NoDup (u_TokenHashes u)
  | None => False
  end.
Proof.
  cbv zeta. destruct (sv_Users _ !! ex_email) as [u|] eqn:E.
  - pose proof (accounts_stay_well_formed ex_start _ _ _ (perform_steps _ _) ex_start_ok eq_refl E) as (_ & Hn & _).
    split; [|exact Hn].
    assert ((λ u, length (u_TokenHashes u)) <$> sv_Users (cf_server (perform ex_start [Arrive 0 ex_login; Advance 0; Advance 0])) !! ex_email = Some 2) as Hl by (by vm_compute).
    rewrite E in Hl. by injection Hl.
  - assert (is_Some (sv_Users (cf_server (perform ex_start [Arrive 0 ex_login; Advance 0; Advance 0])) !! ex_email)) as [? Hs] by (vm_compute; eauto).
    congruence.
Defined.

(** Two logins that interleave: the account keeps the token of only one of them, and
    the token the other one returned does not authenticate. *)
Definition ex_io2 : ServerIO := mkIO [ex_email] true true Stored (Some (replicate 32 x08)) "salt" "t2".
Definition ex_token_of (raw : byte) : string := hex_encode (replicate 32 raw).
Theorem concurrent_logins_lose_a_token :
  let s0 := ex_server in
  let '(s1, f1) := advance s0 ex_io (Arrived ex_login) in
  let '(s2, f2) := advance s1 ex_io2 (Arrived ex_login) in
  let '(s3, a1) := advance s2 ex_io f1 in
  let '(s4, a2) := advance s3 ex_io2 f2 in
  a1 = Answered (writeJSON "token" (ex_token_of x07)) ∧ a2 = Answered (writeJSON "token" (ex_token_of x08)) ∧
  getByToken s4 [ex_email] (hashToken (ex_token_of x07)) = None ∧
  is_Some (getByToken s4 [ex_email] (hashToken (ex_token_of x08))).
Proof. vm_compute. split_and!; [done..|]. eauto. Qed.

(** A push that is answered 500 although its blob was stored. *)
Theorem failed_push_may_be_stored :
  let io := mkIO [ex_email] true true StoredThenFailed None "" "" in
  let '(s', answer) := handle ex_server io ex_push in
  rp_Status answer = StatusInternalServerError ∧ sv_vaults s' !! ex_path = Some [x09].
Proof. by vm_compute. Qed.

(** ** The client against this server *)

Definition ex_ios (n : nat) : ServerIO := ex_io.
#[export] Instance ex_service : SyncService (Server * nat) := server_service ex_ios.
Definition ex_cfg : CloudConfig := mkCloudConfig "https://sync.example.org" "tok" ex_email.
Definition ex_state : Server * nat := (ex_server, 0).

Lemma ex_token_trimmed : TrimSpace "tok" = "tok".
Proof. by vm_compute. Qed.
#[export] Instance ex_service_laws :
  SyncServiceLaws ex_service (cc_Token ex_cfg) (token_of ex_ios "tok" ex_path) (stored_at ex_path).
Proof. apply server_service_laws, ex_token_trimmed. Qed.
Lemma ex_good : token_of ex_ios "tok" ex_path ex_state.
Proof. intros n. exists ex_user. by vm_compute. Qed.

Abbreviation ex_good_of := (token_of ex_ios "tok" ex_path).

(** A result, evaluated. *)
Ltac run e := let r := eval vm_compute in e in exact (eq_refl : e = r).

Definition ex_pre : RemoteBlobIdentity := mkRemoteIdentity true (hashBytes ex_blob).

Lemma push_success_is_committed_witness :
  stored_at ex_path (fst (PushBlobObserved Delivered ex_state (Some ex_cfg) [x09] ex_pre)) = Some [x09] ∧
  ∃ old, stored_at ex_path ex_state = Some old ∧ hashBytes old = hashBytes ex_blob.
Proof.
  destruct (PushBlobObserved Delivered ex_state (Some ex_cfg) [x09] ex_pre) as [s' r] eqn:E.
  assert (r = Ok (hashBytes [x09], true)) as ->.
  { transitivity (snd (PushBlobObserved Delivered ex_state (Some ex_cfg) [x09] ex_pre)); [by rewrite E|by vm_compute]. }
  destruct (push_success_is_committed ex_cfg ex_good_of (stored_at ex_path) _ _ _ _ _ _ _ ex_good E) as (Hs & _ & _ & _ & Ho).
  split; [exact Hs|]. apply Ho; by vm_compute.
Defined.

(** A push whose prerequisite is not there. *)
Lemma push_failure_classes_witness :
  let '(s', r) := PushBlobObserved Delivered ex_state (Some ex_cfg) [x09] (mkRemoteIdentity true (hashBytes [x05])) in
  match r with
  | Fail err => PushFailureIsConflict err = true ∧ stored_at ex_path s' = stored_at ex_path ex_state
  | Ok _ => False
  end.
Proof.
  destruct (PushBlobObserved _ _ _ _ _) as [s' r] eqn:E.
  assert (r = snd (PushBlobObserved Delivered ex_state (Some ex_cfg) [x09] (mkRemoteIdentity true (hashBytes [x05])))) as Hr
    by (by rewrite E).
  destruct r as [x|err]; [vm_compute in Hr; discriminate Hr|].
  assert (PushFailureIsConflict err = true) as Hc.
  { injection Hr as ->. by vm_compute. }
  destruct (push_failure_classes ex_cfg ex_good_of (stored_at ex_path) _ _ _ _ _ _ ex_good E) as (_ & _ & _ & Hk).
  split; [exact Hc|]. exact (Hk eq_refl Hc).
Defined.

Lemma fetch_is_stored_witness :
  snd (Fetch Delivered ex_state (Some ex_cfg)) = Ok (ex_blob, hashBytes ex_blob) ∧
  stored_at ex_path ex_state = Some ex_blob.
Proof.
  destruct (Fetch Delivered ex_state (Some ex_cfg)) as [s' r] eqn:E.
  assert (r = Ok (ex_blob, hashBytes ex_blob)) as ->.
  { transitivity (snd (Fetch Delivered ex_state (Some ex_cfg))); [by rewrite E|by vm_compute]. }
  destruct (fetch_is_stored ex_cfg ex_good_of (stored_at ex_path) _ _ _ _ _ ex_good E) as (Hs & _).
  split; [reflexivity|exact Hs].
Defined.

Lemma fetch_expected_is_reviewed_witness :
  is_ok (snd (FetchExpected Delivered ex_state (Some ex_cfg) (hashBytes ex_blob))) = true ∧
  stored_at ex_path ex_state = Some ex_blob.
Proof.
  destruct (FetchExpected Delivered ex_state (Some ex_cfg) (hashBytes ex_blob)) as [s' r] eqn:E.
  assert (r = Ok (ex_blob, hashBytes ex_blob)) as ->.
  { transitivity (snd (FetchExpected Delivered ex_state (Some ex_cfg) (hashBytes ex_blob))); [by rewrite E|by vm_compute]. }
  destruct (fetch_expected_is_reviewed ex_cfg ex_good_of (stored_at ex_path) _ _ _ _ _ _ ex_good E) as (Hs & _).
  split; [reflexivity|exact Hs].
Defined.

Lemma inspect_is_stored_witness :
  ∃ identity, snd (InspectRemoteBlob Delivered ex_state (Some ex_cfg)) = Ok identity ∧
    identity = mkRemoteIdentity true (hashBytes ex_blob).
Proof.
  destruct (InspectRemoteBlob Delivered ex_state (Some ex_cfg)) as [s' r] eqn:E.
  assert (is_ok r = true) as Hok.
  { transitivity (is_ok (snd (InspectRemoteBlob Delivered ex_state (Some ex_cfg)))); [by rewrite E|by vm_compute]. }
  destruct r as [identity|]; [|discriminate Hok]. exists identity. split; [reflexivity|].
  destruct (inspect_is_stored ex_cfg ex_good_of (stored_at ex_path) _ _ _ _ ex_good E) as (_ & ->). by vm_compute.
Defined.

(** ** Schedules *)

Definition ex_now : Z := (63900000000 * second)%Z.
Lemma ex_valid k : (0 ≤ k ≤ 100 * 24 * hour)%Z → valid_time (ex_now + k).
Proof. unfold valid_time, ex_now, max_time, hour, second. lia. Qed.

Lemma outcomes_schedule_witness :
  due (failure_state ex_now "network" "no route" zero_state) ex_now = false ∧
  due (success_state ex_now hour zero_state) (ex_now + hour) = true.
Proof.
  assert (valid_time ex_now) as Hn by (rewrite <- (Z.add_0_r ex_now); apply ex_valid; unfold hour; lia).
  assert (valid_time (ex_now + hour)) as Hh by (apply ex_valid; unfold hour; lia).
  pose proof (outcomes_schedule ex_now hour "network" "no route" zero_state ex_now Hn Hh Hh (Z.le_refl _)) as (Hf & _).
  pose proof (outcomes_schedule ex_now hour "network" "no route" zero_state (ex_now + hour) Hn Hh Hh) as (_ & _ & Hs).
  { unfold hour. lia. }
  split; [rewrite Hf; by vm_compute|rewrite Hs; by vm_compute].
Defined.

(** A configured interval of sixty days never holds synchronization back. *)
Lemma long_interval_never_waits_witness :
  let interval := parseSettingsDuration ParseDuration "60d" DefaultSyncInterval in
  interval = (60 * 24 * hour)%Z ∧ due (success_state ex_now interval zero_state) ex_now = true.
Proof.
  assert (parseSettingsDuration ParseDuration "60d" DefaultSyncInterval = (60 * 24 * hour)%Z) as Hi by (by vm_compute).
  cbv zeta. rewrite Hi. split; [reflexivity|]. apply long_interval_never_waits.
  - rewrite <- (Z.add_0_r ex_now). apply ex_valid. unfold hour. lia.
  - apply ex_valid. unfold hour. lia.
  - unfold maxScheduleHorizon, hour, second. lia.
Defined.

Lemma replaced_identities_stay_superseded_witness :
  "a" ∈ superseded_after "a" ["b"; "c"; "d"] ["x"].
Proof.
  destruct (replaced_identities_stay_superseded "a" "b" ["c"; "d"] ["x"]) as [Ha _]; [done..| | | | |exact Ha].
  - by vm_compute; set_solver.
  - set_solver.
  - unfold maxSuperseded. cbn. lia.
  - unfold maxSuperseded. cbn. lia.
Defined.

(** ** Concrete synchronizations and publications

    The theorems about pulls, claims and publications applied to a process that runs
    against the sync server of [SyncExamples]. *)

(** Nobody interferes and nothing fails. *)
#[export] Instance ex_env : SyncEnv (Server * nat) := {|
  sy_others n d := d;
  sy_service n s := s;
  sy_delivery n := Delivered;
  sy_write n := Stored;
  sy_lock n := Ok ();
  sy_clock n := (ex_now + Z.of_nat n * second)%Z;
  sy_random n := Some (replicate 16 x05);
|}.

Definition ex_transaction : Transaction := mkTransaction false [] None None "".
Definition ex_disk (vault : file) (remote : option string) : Disk :=
  mkDisk vault Absent remote Missing Missing Missing Missing Missing (Doc ex_cfg) Missing.
Definition ex_world (d : Disk) (blob : option bytes) (l : locks) : World (Server * nat) :=
  mkWorld d
    (mkServer {[ ex_email := ex_user ]} Missing
       (match blob with Some b => {[ ex_path := b ]} | None => ∅ end), 0) l 0 [].

(** ** Pulling *)

(** A vault older than the one the service holds: the cached identity is the local
    one. *)
Definition ex_old : bytes := x01 :: replicate 60 x00.
Definition ex_pull_world : World (Server * nat) :=
  ex_world (ex_disk (Content ex_old) (Some (hashBytes ex_old))) (Some toy_blob) no_locks.

Definition installs_of (l : list event) : list (pullMode * bytes * string) :=
  omap (λ e, match e with EvInstall mode _ _ blob etag => Some (mode, blob, etag) | _ => None end) l.

Lemma installs_of_elem l mode blob etag :
  (mode, blob, etag) ∈ installs_of l → ∃ evidence before, EvInstall mode evidence before blob etag ∈ l.
Proof. intros ([] & Hin & He)%list_elem_of_omap; simplify_eq; eauto. Qed.

Lemma pulls_keep_local_work_witness :
  let '(_, w') := run ex_transaction DoPull ex_pull_world in
  d_vault (w_disk w') = Content toy_blob ∧
  ∃ evidence before, install_ok pullRefresh evidence before toy_blob (hashBytes toy_blob).
Proof.
  pose proof (pulls_keep_local_work ex_transaction DoPull ex_pull_world eq_refl) as Hp.
  destruct (run ex_transaction DoPull ex_pull_world) as [r w'] eqn:E.
  assert (w' = snd (run ex_transaction DoPull ex_pull_world)) as Hw by (by rewrite E).
  destruct Hp as (evs & Hl & He).
  assert (installs_of (w_log w') = [(pullRefresh, toy_blob, hashBytes toy_blob)]) as Hi.
  { rewrite Hw. by vm_compute. }
  split; [rewrite Hw; by vm_compute|].
  destruct (installs_of_elem (w_log w') pullRefresh toy_blob (hashBytes toy_blob)) as (ev & before & Hin).
  { rewrite Hi. by apply list_elem_of_singleton. }
  rewrite Hl in Hin. exists ev, before. exact (proj1 (He _ _ _ _ _ Hin)).
Defined.

Lemma pulls_never_publish_or_block_witness :
  let '(_, w') := run ex_transaction DoPull ex_pull_world in
  length (w_log w') = 5 ∧ lk_vault (w_locks w') = false ∧
  ∀ m body held intent, EvRequest m body held intent ∈ w_log w' → held = false ∧ m ≠ PUT.
Proof.
  pose proof (pulls_never_publish_or_block ex_transaction DoPull ex_pull_world eq_refl) as Hp.
  destruct (run ex_transaction DoPull ex_pull_world) as [r w'] eqn:E.
  assert (w' = snd (run ex_transaction DoPull ex_pull_world)) as Hw by (by rewrite E).
  destruct Hp as (Hk & evs & Hl & He & _).
  split_and!; [rewrite Hw; by vm_compute|exact Hk|]. rewrite Hl. exact He.
Defined.

(** An explicit pull replaces unpublished local work when the remote has not moved:
    the vault is one the service never held, the cached identity is the remote one. *)
Definition ex_edited : bytes := x01 :: replicate 60 x01.
Theorem pull_discards_local_ahead :
  let w := ex_world (ex_disk (Content ex_edited) (Some (hashBytes toy_blob))) (Some toy_blob) no_locks in
  let '((_, err), w') := Pull ex_transaction w in
  err = None ∧ d_vault (w_disk w') = Content toy_blob ∧ d_prev (w_disk w') = Content ex_edited.
Proof. by vm_compute. Qed.

(** ** Claims *)

Lemma claims_exclude_each_other_witness :
  let '(r, w') := claimBackground ex_now ex_pull_world in
  r = Some (hex_encode (replicate 16 x05)) ∧
  let '(r2, w2') := claimBackground (ex_now + minute) w' in r2 = None.
Proof.
  pose proof (claims_exclude_each_other ex_now ex_pull_world (ex_now + minute)
    (snd (claimBackground ex_now ex_pull_world))) as Hc.
  destruct (claimBackground ex_now ex_pull_world) as [r w'] eqn:E.
  assert (r = Some (hex_encode (replicate 16 x05))) as ->.
  { transitivity (fst (claimBackground ex_now ex_pull_world)); [by rewrite E|by vm_compute]. }
  split; [reflexivity|]. cbn [snd] in Hc. destruct Hc as [_ Hc].
  - intros n d. reflexivity.
  - unfold ex_now, second. lia.
  - apply ex_valid. unfold claimTTL, minute, hour, second. lia.
  - unfold truncated, ex_now, claimTTL, minute, second. vm_compute. intuition congruence.
  - reflexivity.
  - destruct (claimBackground (ex_now + minute) w') as [r2 w2']. exact (proj1 Hc).
Defined.

(** A background attempt whose claim another process took over. *)
Definition ex_taken : World (Server * nat) :=
  ex_world (set_syncstate (Doc (with_claim zero_state (stamp ex_now) "other")) (ex_disk (Content ex_old) None))
    None no_locks.
Lemma outcomes_need_the_claim_witness :
  let t := mkTransaction false [] None None "mine" in
  d_state (w_disk (snd (recordSuccess t ex_taken))) = Doc (with_claim zero_state (stamp ex_now) "other").
Proof.
  cbv zeta. rewrite (outcomes_need_the_claim (mkTransaction false [] None None "mine") _ ex_taken).
  - reflexivity.
  - intros n d. reflexivity.
  - apply recording_success.
  - discriminate.
  - discriminate.
Defined.

(** ** Publishing *)

Definition ex_web : Connection := mkConnection "web" "10.0.0.1" 22 "root" "" "" "" "" "".
Definition ex_created (id alias : string) (c : Connection) : PendingMutation :=
  mkMutation id alias [] "" "created" "t" None (Some c) [] [] None None 0 0.
Definition ex_mail : Connection := mkConnection "mail" "10.0.0.2" 22 "root" "" "" "" "" "".
Definition ex_vault : Vault :=
  mkVault [ex_web; ex_mail] [] (Some (mkSnapshot [] []))
    [ex_created "tx_1" "web" ex_web; ex_created "tx_2" "mail" ex_mail].
Definition ex_pass : bytes := [x70; x77].
Definition ex_inventory : Inventory := mkInventory ex_pass (Some ex_transaction).
Definition ex_encrypted : bytes :=
  match Encrypt toy_draws (marshal_vault ex_vault) ex_pass 3 with Ok b => b | Fail _ => [] end.
Definition ex_session : locks := mkLocks false false true.

(** A first publication of [tx_1] only. *)
Definition ex_publish_world : World (Server * nat) :=
  ex_world (ex_disk (Content ex_encrypted) None) None ex_session.
Definition ex_publish := DoPublish ex_vault "tx_1".

Lemma ex_in_session : in_session ex_publish_world.
Proof. split_and!; [reflexivity|reflexivity|]. by intros intent [=]. Qed.

Lemma publication_is_write_ahead_witness :
  let '(r, w') := run_session ex_inventory ex_publish ex_publish_world in
  length (put_bodies (w_log w')) = 1 ∧
  ∀ pre body held durable post, w_log w' = pre ++ EvRequest PUT body held durable :: post →
    ∃ intent, durable = Doc intent ∧ pi_TransactionIDs intent = ["tx_1"] ∧ pi_TargetIdentity intent = hashBytes body.
Proof.
  pose proof (publication_is_write_ahead ex_inventory ex_publish ex_publish_world ex_in_session) as Hp.
  destruct (run_session ex_inventory ex_publish ex_publish_world) as [r w'] eqn:E.
  assert (w' = snd (run_session ex_inventory ex_publish ex_publish_world)) as Hw by (by rewrite E).
  destruct Hp as (evs & Hl & _ & He). cbn [ex_publish_world ex_world w_log app] in Hl. subst evs.
  split; [rewrite Hw; by vm_compute|].
  intros pre body held durable post Hs. destruct (He pre body held durable post Hs) as (_ & intent & -> & _ & Ht & _).
  exists intent. split_and!; [reflexivity| |exact Ht].
  assert (Forall (λ e, match e with
    | EvRequest PUT _ _ (Doc i) => pi_TransactionIDs i = ["tx_1"] | _ => True end) (w_log w')) as Hall.
  { rewrite Hw. vm_compute. repeat constructor. }
  rewrite Hs in Hall. apply Forall_app in Hall as [_ Hall]. apply Forall_cons in Hall as [Hall _]. exact Hall.
Defined.

Definition finalized_of (l : list event) : list (publishingIntent * Disk * bytes) :=
  omap (λ e, match e with EvFinalize i before blob => Some (i, before, blob) | _ => None end) l.
Lemma finalized_of_elem l i before blob : (i, before, blob) ∈ finalized_of l → EvFinalize i before blob ∈ l.
Proof. intros ([] & Hin & He)%list_elem_of_omap; by simplify_eq. Qed.

Lemma finalization_follows_confirmation_witness :
  let '(r, w') := run_session ex_inventory ex_publish ex_publish_world in
  length (finalized_of (w_log w')) = 1 ∧
  ∀ pre intent before blob post, w_log w' = pre ++ EvFinalize intent before blob :: post → confirmed intent pre.
Proof.
  pose proof (finalization_follows_confirmation ex_inventory ex_publish ex_publish_world ex_in_session) as Hp.
  destruct (run_session ex_inventory ex_publish ex_publish_world) as [r w'] eqn:E.
  assert (w' = snd (run_session ex_inventory ex_publish ex_publish_world)) as Hw by (by rewrite E).
  destruct Hp as (_ & evs & Hl & He & _). cbn [ex_publish_world ex_world w_log app] in Hl. subst evs.
  split; [rewrite Hw; by vm_compute|exact He].
Defined.

Lemma finalization_removes_only_published_witness :
  let '(r, w') := run_session ex_inventory ex_publish ex_publish_world in
  ∃ intent before blob after, EvFinalize intent before blob ∈ w_log w' ∧
    load_file (Content blob) ex_pass = Ok after ∧ m_ID <$> v_PendingMutations after = ["tx_2"].
Proof.
  pose proof (finalization_removes_only_published ex_inventory ex_publish ex_publish_world ex_in_session) as Hp.
  destruct (run_session ex_inventory ex_publish ex_publish_world) as [r w'] eqn:E.
  assert (w' = snd (run_session ex_inventory ex_publish ex_publish_world)) as Hw by (by rewrite E).
  destruct Hp as (evs & Hl & He). cbn [ex_publish_world ex_world w_log app] in Hl. subst evs.
  assert ((λ '(i, b, _), (pi_TransactionIDs i, load_file (d_vault b) ex_pass)) <$> finalized_of (w_log w')
    = [(["tx_1"], Ok ex_vault)]) as Hf by (rewrite Hw; by vm_compute).
  destruct (finalized_of (w_log w')) as [|[[i before] blob] [|]] eqn:Ef; [discriminate| |discriminate].
  injection Hf as Hi Hload.
  assert (EvFinalize i before blob ∈ w_log w') as Hin.
  { apply finalized_of_elem. rewrite Ef. by apply list_elem_of_singleton. }
  destruct (He i before blob Hin) as (current & after & Hc & Ha & _ & _ & _ & Hm & _).
  exists i, before, blob, after. split_and!; [exact Hin|exact Ha|].
  assert (current = ex_vault) as ->.
  { assert (Ok current = Ok ex_vault) as Hk by (etransitivity; [symmetry; exact Hc|exact Hload]).
    by injection Hk. }
  rewrite Hm, Hi. by vm_compute.
Defined.

Lemma interrupted_publication_is_recoverable_witness :
  let '(r, w') := Publish ex_inventory ex_vault "tx_1" ex_publish_world in
  d_intent (w_disk w') = Missing ∧ match r with inr receipt => pr_Action receipt = "pushed" | inl _ => False end.
Proof.
  pose proof (interrupted_publication_is_recoverable ex_inventory ex_vault "tx_1" ex_publish_world ex_in_session) as Hp.
  destruct (Publish ex_inventory ex_vault "tx_1" ex_publish_world) as [r w'] eqn:E.
  assert (match r with inr receipt => pr_Action receipt = "pushed" | inl _ => False end) as Hr.
  { assert (r = fst (Publish ex_inventory ex_vault "tx_1" ex_publish_world)) as -> by (by rewrite E).
    by vm_compute. }
  destruct r as [e|receipt]; [destruct Hr|]. split; [|exact Hr].
  destruct Hp as [Hm _]. apply (Hm receipt eq_refl). rewrite Hr. discriminate.
Defined.

(** Publishing [tx_2] from a ledger, projected again after more work was added. *)
Definition ex_more : Vault :=
  mkVault [ex_web; ex_mail] [] (Some (mkSnapshot [] []))
    (v_PendingMutations ex_vault ++ [ex_created "tx_3" "db" ex_web]).
Lemma projection_survives_new_work_witness :
  ∃ p, project ex_vault "tx_2" = inr p ∧ projectTransactionIDs ex_more ["tx_2"] = Ok p.
Proof.
  destruct (project ex_vault "tx_2") as [e|p] eqn:Ep; [vm_compute in Ep; discriminate|].
  exists p. split; [reflexivity|].
  assert (m_ID <$> p_Selected p = ["tx_2"]) as Hs.
  { vm_compute in Ep. by injection Ep as <-. }
  rewrite <- Hs. apply (projection_survives_new_work ex_vault ex_more [ex_created "tx_3" "db" ex_web] "tx_2" p Ep).
  - intros Hn. rewrite Hn in Hs. discriminate.
  - reflexivity.
  - reflexivity.
  - by vm_compute.
Defined.
